(* ===== verification/_CoqProject ===== *)
-Q . S2P
Prelude.v
Lisp.v
RangeTab.v
ElHash.v
HashTables.v
Buffer.v
Scan.v
Undo.v
Insdel.v
Gap.v
Hooks.v
EditSpec.v
Edit.v
Insertion.v
Deletion.v
Editing.v
Marker.v
Editfns.v
Commands.v
TextCommands.v
Syntax.v
Casefiddle.v
CurrentBuffer.v
LineNumber.v
LineCache.v
UndoReplay.v
UndoTheory.v
Undoing.v
Bytecode.v
Optimizer.v
Jumps.v
Optimized.v
Specpdl.v
Execute.v
ExecInsns.v
StackCheck.v
Checked.v
Base64.v
Base64Region.v
Lists.v
ListTheory.v
ListSearch.v
ListMutation.v
ListSort.v
Plists.v
PlistTheory.v
PlistLaws.v
GapArray.v
ExtentList.v
Extents.v
ExtentTheory.v
ExtentState.v
ExtentAdjust.v
ExtentMap.v
ExtentDelete.v
ExtentRuns.v
ExtentAt.v
ExtentMarked.v
ExtentProcess.v
