(* ===== verification/Prelude.v ===== *)
(** * XEmacs 21.4: a verification library of the editor kernel

    The library models parts of the C core of XEmacs (directory src/src/ of the
    repository) as executable Rocq functions and proves what makes them correct.
    The build modelled is the default one: no Mule (a character is a byte),
    64-bit words, no error checking, so that an [assert] does nothing.

    ** Parts and how they interact

    Range tables (rangetab.c) map integer positions to Lisp objects.  Hash tables
    (elhash.c) map Lisp objects to Lisp objects.  Both are data structures of their
    own and share only [Lisp], the tagged words.  The text of a buffer is a block of
    bytes with a movable gap (buffer.h, insdel.c), shared by a base buffer and its
    indirect children; each of these has its point, its accessible part, its markers
    and its undo list.  Every change goes through insertion, deletion or replacement
    in insdel.c, which runs Lisp hooks around it, records it for undo (undo.c) and
    adjusts markers (marker.c).  The editing commands (editfns.c, and position
    decoding in insdel.c) are built on these, and so is primitive-undo, which takes
    recorded changes back.  Scanning (search.c) reads the text around the gap; the
    line numbers of the mode line (line-number.c) are counted by scanning from
    positions remembered in a cache, which every edit has to keep right.  Byte code
    (bytecode.c) is rewritten by an optimizer before it is first run; the interpreter runs it
    on a stack of its own, and binds variables on the evaluator's stack of bindings
    (eval.c, backtrace.h).  Lists (fns.c, lisp.h) are conses in memory that may share
    tails and come back to themselves; every primitive that walks along a list that
    Lisp code made watches out for that.

    ** Files

    - [Prelude]: arrays as lists indexed by integers, blocks of bytes, the type [int],
      tactics.
    - [Lisp]: [Lisp_Object], [EQ], the error conditions (lisp.h).
    - [RangeTab]: range tables, all operations and theorems (rangetab.c, dynarr.c).
    - [ElHash]: hash tables, all operations, and the theory of linear probing;
      [HashTables]: a table implements a finite map (elhash.c).
    - [Buffer]: [buffer_text], [buffer], the global variables, and the monad [M] over
      a [world] in which changes are written; positions and memory indices; the
      abstract state [astate] that a world stands for (buffer.h, insdel.h).
    - [Scan]: bi_scan_buffer (search.c).
    - [Undo]: recording and truncation (undo.c).
    - [Insdel]: the gap, insertion, deletion, replacement, hooks (insdel.c).
    - [Gap], [Hooks], [EditSpec], [Edit], [Insertion], [Deletion]: the proof that
      [Insdel] implements [EditSpec], the editing of a string with points and
      markers; [Editing]: the theorems about it.
    - [Marker]: marker objects in memory and their chains (marker.c).
    - [Editfns]: position arguments and editing commands (editfns.c, insdel.c,
      buffer.c); [Commands], [TextCommands]: their theorems.
    - [Syntax]: char tables, syntax codes, motion over words (chartab.c, syntax.c);
      [Casefiddle]: case tables and case conversion (casefiddle.c, buffer.h).
    - [CurrentBuffer]: what leaves the current buffer alone.
    - [LineNumber]: the cache of line numbers (line-number.c); [LineCache]: what it
      means for it to be right, and what keeps it so.
    - [UndoReplay]: primitive-undo (undo.c); [UndoTheory], [Undoing]: it undoes.
    - [Bytecode]: opcodes and the optimizer (bytecode.c); [Optimizer], [Jumps]: what
      one instruction becomes, and how jumps are laid out; [Optimized]: the theorems.
    - [Specpdl]: the state of the evaluator [lisp], the monad [E] of code that may
      throw, dynamic binding and unbinding (eval.c, backtrace.h).
    - [Execute]: the interpreter and calls of compiled functions (bytecode.c);
      [ExecInsns]: running a program is running its instructions; [StackCheck]: a
      check of the heights of the stacks; [Checked]: checked code does not go wrong.
    - [Base64]: the encoder, the decoder and the commands on strings; [Base64Region]:
      the commands on regions, on top of [Insdel] (fns.c).
    - [Lists]: conses in memory, the monad [L] over a heap of them, the loops over
      lists and the primitives on lists (fns.c, lisp.h, data.c); [ListTheory]: what an
      object is as a list, and the loops on any object; [ListSearch], [ListMutation],
      [ListSort]: searching, changing in place, sorting.
    - [Plists]: property lists (fns.c); [PlistTheory]: the walk along any object;
      [PlistLaws]: what the operations do.
    - [GapArray], [ExtentList]: gap arrays, and the extents of a buffer in two of them,
      each in an order of its own; [Extents]: the stack of extents, attaching, mapping,
      and what becomes of extents when the gap moves and text is inserted or deleted;
      [ExtentRuns], [ExtentAt]: runs of text, extent-at and stepping (extents.c, by the
      names of its functions); [ExtentTheory], [ExtentState]: the state the operations
      keep; [ExtentAdjust], [ExtentMap], [ExtentDelete]: operations in sequence, moves of
      the gap, mapping, deletion of text;
      [ExtentMarked]: mapping a function that changes the extents it is shown;
      [ExtentProcess]: before a deletion, after an insertion.

    A C function keeps its name.  Loops are recursive functions, structural where
    they run over a list and otherwise with fuel.  A C function that may signal
    returns a [result], an [outcome], a [bc_result] or a [run_result]; reading or
    writing outside a block of memory is a value of its own ([None], [Fault], [Bad],
    [Trouble], [Stuck]), and the theorems show where it cannot occur.

    ** What is shown

    - Data structures: range tables and hash tables keep their invariants and are
      finite maps, operation by operation; a unified range table reads back; probing
      and the search for a size end, and where they do not is shown too.
    - Editing: insertion, deletion and replacement refine the specification on
      strings, whatever the hooks do that keeps buffers well-formed; they do all or
      nothing; the gap is invisible; no reachable state is ill-formed; a read-only
      buffer refuses everything.
    - Commands: positions are decoded or refused; exchange, substitution, comparison
      and narrowing mean what they promise.
    - Words and case: motion over words ends where the words do, or quits where it looks
      for a quit and finds one; case conversion gives a
      region, and a string up to a null character, the form asked for and changes nothing
      else, but only one of the buffers that share a text records it.
    - Undo: the recorded group of any sequence of edits undoes it.
    - Line numbers: with a cache that is right, [buffer_line_number] is one more than
      the number of newlines before the position, and leaves a right cache; insertions
      and deletions keep it right, and narrowing, replacing and killing do not.
    - Markers: chains stay well-linked, a marker that is set is where it was put.
    - Byte code: the optimized program has the same instructions with the same
      targets of jumps; the optimizer ends, and within its space, on any bytes; a call
      of a compiled function does what its instructions say, one after the other;
      when the instructions pass a check of the stacks, a call stays within the
      stacks, undoes its bindings, and without backward jumps comes to an end.
    - base64: what is encoded decodes to what it was, as strings and as regions of a
      buffer, within the memory allocated; what decodes, and to what.
    - Lists: every object is a list with an end, a dotted list or one without end;
      length and searching end on all of them, with the error the object deserves;
      deletion, reversal and sorting are permutations of the conses in place, sorting
      is stable; where deletion does not end is shown too.
    - Property lists: on a well-formed one the operations are those of a list of
      pairs; any other object is told from one, and repaired where that is asked for.
    - Extents: a gap array is a list; any sequence of operations on extents acts on each
      as on a plain map, and keeps both orders and the stack of extents exact; mapping,
      extent-at and the search for runs find what they promise wherever the stack was;
      ends of extents go with their characters when the gap moves and when text is
      deleted; a deletion detaches what lies inside of it, and new text is in an extent
      as its open and closed ends say.  All this for memory indices below 2^30: above,
      the endpoint indices wrap and regions miss extents.  By an example, a stack of
      extents that a move of the gap leaves behind misses one too.
    - Where the code does not do what it means to, the theorem says what it does.

    ** Fuel and bounds

    Probing gets the size of the table plus two steps and never needs more
    ([probe_fuel]); a search over sizes, a merge or a walk along a chain gets the
    length of what it walks over.  [optimize_insns] gets the length of the string,
    as every turn reads a character, and [fixup_jumps] one more than the number of
    jumps, as every turn but the last widens one.  The fuel of [exec_loop] is the
    number of instructions run: byte code may loop for ever, so the theorems hold for
    any fuel, or name how much is enough.  Motion
    over words gets one turn more than the characters up to the limit.  The retries of arithmetic get three
    rounds, one for each operand; reversing a list in place gets two for each cons;
    growing the stack of bindings the size asked for.  Loops over a count of occurrences
    or a region are structural.  A loop over a list takes a turn for each cons; on a
    list without end the tortoise and the hare meet within 1024 turns and twice the
    number of conses in memory, and on property lists within the number of conses.  A search in
    an extent list and a mapping get one turn more than the extents of the buffer, after
    an insertion twice as many.  An [int] wraps at 32 bits ([to_int]): the sizes of gaps,
    the sizes and limits of undo lists, the endpoint indices of extents, counts of words,
    a position that - of byte code negates; Lisp integers wrap at 63 bits, hash values at
    64; doubles are binary64.  Not bounded are the sizes and positions of gap arrays and
    dynamic arrays, ints in the code as well: these would wrap with arrays of 2 GB.

    ** Parameters

    What Lisp code called from a hook does, the extents as editing calls them, the cache of the
    position of
    the newline, file locks, and the memory the allocator returns are arguments or
    members of the class [Collaborators]; the theorems ask only that such code keeps
    buffers well-formed and name what they ask.  Within the editing primitives the
    cache of line numbers is such a member too, as it does not touch buffers;
    [LineCache] follows the calls that [Insdel] makes to it on the strings of
    [EditSpec].  Hashing
    and equality of arbitrary Lisp objects are arguments of [ElHash], assumed to agree.
    The C functions that opcodes call are the class [Subrs], by their names; the
    class [SubrsOk] says what the check of the stacks asks of them: that they leave
    the stack of bindings as high as it was, and that errors do not return.  In
    [Lists] and [Plists] the predicate of sort, the equal methods of records other
    than conses and the lengths of strings and vectors are arguments; an error does
    not return there either.

    ** Not modelled

    Marking of weak tables during garbage collection, printing, keyword arguments of
    make-hash-table; user names, times and [format] in editfns.c; string and regexp
    search; concat, subseq and the mapping functions of fns.c; parents, properties
    and fragments of extents, extents of strings, and mapping functions that throw; the
    objects that hold compiled functions, and Lisp evaluation beyond
    binding.  The rest of the program, the evaluator proper, the allocator, the reader
    and printer, regular expressions, expressions and comments in syntax.c, changes of
    char tables, display, events, frames
    and window systems, files, processes, Mule and the ports, is outside the library;
    much of it only calls an operating system or a window system. *)

From stdpp Require Export base list gmap strings.
From Stdlib Require Export ZArith Lia.

#[global] Open Scope Z_scope.

(** ** Notations *)

Declare Scope xe_scope.
Delimit Scope xe_scope with xe.

(** C arrays are lists indexed by [Z]; [zlen] is the element count. *)
Abbreviation zlen l := (Z.of_nat (length l)) (only parsing).
Abbreviation ztake n l := (take (Z.to_nat n) l) (only parsing).
Abbreviation zdrop n l := (drop (Z.to_nat n) l) (only parsing).

(** ** Machine integers *)

(** Assignment to an [int]. *)
Definition to_int (v : Z) : Z := (v + 2 ^ 31) mod 2 ^ 32 - 2 ^ 31.

Lemma to_int_id v : - 2 ^ 31 <= v < 2 ^ 31 -> to_int v = v.
Proof. intros. unfold to_int. rewrite Z.mod_small; lia. Qed.

(** Past the range by one turn. *)
Lemma to_int_over v : 2 ^ 31 <= v < 2 ^ 31 + 2 ^ 32 -> to_int v = v - 2 ^ 32.
Proof. intros. unfold to_int. rewrite <- (Z.mod_unique_pos (v + 2 ^ 31) (2 ^ 32) 1 (v + 2 ^ 31 - 2 ^ 32)); lia. Qed.

(** Cutting before an addition changes nothing. *)
Lemma to_int_add_l a b : to_int (to_int a + b) = to_int (a + b).
Proof.
  unfold to_int. f_equal. replace ((a + 2 ^ 31) mod 2 ^ 32 - 2 ^ 31 + b + 2 ^ 31) with ((a + 2 ^ 31) mod 2 ^ 32 + b) by lia.
  rewrite Zplus_mod_idemp_l. f_equal. lia.
Qed.

(** ** Indexing lists by [Z] *)

Section ZList.
Context {A : Type}.
Implicit Types (l : list A) (i n : Z).

(** [zget l i]: the element at index [i]; [None] for an index out of range. *)
Definition zget (l : list A) (i : Z) : option A :=
  if i <? 0 then None else l !! Z.to_nat i.

(** [zset l i x]: the array with element [i] replaced. *)
Definition zset (l : list A) (i : Z) (x : A) : list A :=
  if i <? 0 then l else <[Z.to_nat i := x]> l.

Lemma zget_lookup l i : 0 <= i -> zget l i = l !! Z.to_nat i.
Proof. intros. unfold zget. destruct (Z.ltb_spec i 0); [lia | done]. Qed.

Lemma zget_Some_bound l i x : zget l i = Some x -> 0 <= i < zlen l.
Proof.
  unfold zget. destruct (Z.ltb_spec i 0); [done |].
  intros Hx. apply lookup_lt_Some in Hx. lia.
Qed.

Lemma zget_is_Some l i : 0 <= i < zlen l -> is_Some (zget l i).
Proof. intros. rewrite zget_lookup by lia. apply lookup_lt_is_Some. lia. Qed.

Lemma zget_None l i : zlen l <= i -> zget l i = None.
Proof.
  intros. unfold zget. destruct (Z.ltb_spec i 0); [done |].
  apply lookup_ge_None. lia.
Qed.

Lemma zget_neg l i : i < 0 -> zget l i = None.
Proof. intros. unfold zget. destruct (Z.ltb_spec i 0); [done | lia]. Qed.

Lemma zlen_zset l i x : length (zset l i x) = length l.
Proof. unfold zset. destruct (i <? 0); [done |]. apply length_insert. Qed.

Lemma zget_zset_eq l i x : 0 <= i < zlen l -> zget (zset l i x) i = Some x.
Proof.
  intros. rewrite zget_lookup by lia. unfold zset.
  destruct (Z.ltb_spec i 0); [lia |]. apply list_lookup_insert_eq. lia.
Qed.

Lemma zget_zset_ne l i j x : i <> j -> zget (zset l i x) j = zget l j.
Proof.
  intros. unfold zget, zset. destruct (Z.ltb_spec j 0); [done |].
  destruct (Z.ltb_spec i 0); [done |]. apply list_lookup_insert_ne. lia.
Qed.

Lemma zget_app l1 l2 i :
  zget (l1 ++ l2) i = if i <? zlen l1 then zget l1 i else zget l2 (i - zlen l1).
Proof.
  unfold zget. destruct (Z.ltb_spec i 0), (Z.ltb_spec i (zlen l1)),
    (Z.ltb_spec (i - zlen l1) 0); try lia; try done.
  - apply lookup_app_l. lia.
  - rewrite lookup_app_r by lia. f_equal. lia.
Qed.

Lemma zget_middle l1 l2 x : zget (l1 ++ x :: l2) (zlen l1) = Some x.
Proof.
  rewrite zget_app, Z.ltb_irrefl, Z.sub_diag. reflexivity.
Qed.

Lemma zget_middle_eq l1 l2 x i : i = zlen l1 -> zget (l1 ++ x :: l2) i = Some x.
Proof. intros ->. apply zget_middle. Qed.

Lemma zset_middle l1 l2 x y : zset (l1 ++ x :: l2) (zlen l1) y = l1 ++ y :: l2.
Proof.
  unfold zset. destruct (Z.ltb_spec (zlen l1) 0); [lia |].
  rewrite Nat2Z.id, insert_app_r_alt by lia. by rewrite Nat.sub_diag.
Qed.
End ZList.

(** ** Tactics *)

(** Splits on every boolean test of integers in the goal or the context. *)
Ltac ztest :=
  repeat match goal with
  | |- context [?a <? ?b] => destruct (Z.ltb_spec a b)
  | |- context [?a <=? ?b] => destruct (Z.leb_spec a b)
  | |- context [?a =? ?b] => destruct (Z.eqb_spec a b)
  | |- context [?a >? ?b] => rewrite (Z.gtb_ltb a b)
  | |- context [?a >=? ?b] => rewrite (Z.geb_leb a b)
  | H : context [?a <? ?b] |- _ => destruct (Z.ltb_spec a b)
  | H : context [?a <=? ?b] |- _ => destruct (Z.leb_spec a b)
  | H : context [?a =? ?b] |- _ => destruct (Z.eqb_spec a b)
  | H : context [?a >? ?b] |- _ => rewrite (Z.gtb_ltb a b) in H
  | H : context [?a >=? ?b] |- _ => rewrite (Z.geb_leb a b) in H
  end; cbn [andb orb negb] in *.

(** [ztest], leaving only the branches linear arithmetic does not refute. *)
Ltac zcase := ztest; try (exfalso; lia); try done; try lia.

(** Evaluates the boolean tests of the goal that linear arithmetic decides, and
    splits on the others, innermost first. *)
Ltac no_if x := lazymatch x with context [if _ then _ else _] => fail | _ => idtac end.

Ltac zdec :=
  rewrite ?Z.gtb_ltb, ?Z.geb_leb;
  repeat (match goal with
  | |- context [?a <? ?b] => no_if a; no_if b;
      first [ rewrite (proj2 (Z.ltb_lt a b)) by lia | rewrite (proj2 (Z.ltb_ge a b)) by lia
            | destruct (Z.ltb_spec a b) ]
  | |- context [?a <=? ?b] => no_if a; no_if b;
      first [ rewrite (proj2 (Z.leb_le a b)) by lia | rewrite (proj2 (Z.leb_gt a b)) by lia
            | destruct (Z.leb_spec a b) ]
  | |- context [?a =? ?b] => no_if a; no_if b;
      first [ rewrite (proj2 (Z.eqb_eq a b)) by lia | rewrite (proj2 (Z.eqb_neq a b)) by lia
            | destruct (Z.eqb_spec a b) ]
  end; cbn [andb orb negb]).

(** Length normalisation for lists cut and pasted with [take], [drop], [++]. *)
Ltac lens :=
  rewrite ?length_app, ?length_take, ?length_drop, ?length_insert,
    ?length_replicate, ?length_cons in *;
  simpl length in *.

(** Proves an equality of two lists made of [take], [drop], [++]: compares them
    index by index and lets linear arithmetic pick the segment. *)
Ltac list_ext :=
  apply list_eq; intros i_;
  repeat match goal with
  | |- context [(?a ++ ?b) !! ?i] =>
      destruct (decide (i < length a)%nat);
      [ rewrite (lookup_app_l a b i) by (lens; lia)
      | rewrite (lookup_app_r a b i) by (lens; lia) ]
  | |- context [take ?n ?l !! ?i] =>
      destruct (decide (i < n)%nat);
      [ rewrite (lookup_take_lt l n i) by lia
      | rewrite (lookup_take_ge l n i) by lia ]
  | |- context [drop ?n ?l !! ?i] => rewrite (lookup_drop l n i)
  end;
  lens; try (exfalso; lia); try (f_equal; lia);
  try (symmetry; apply lookup_ge_None; lens; lia);
  try (apply lookup_ge_None; lens; lia).

(** ** Slices *)

Section Slices.
Context {A : Type}.
Implicit Types l : list A.

Lemma take_take_le l n m : (n <= m)%nat -> take n (take m l) = take n l.
Proof. intros. rewrite take_take. f_equal. lia. Qed.

Lemma drop_app_exact l1 l2 n : n = length l1 -> drop n (l1 ++ l2) = l2.
Proof. intros ->. apply drop_app_length. Qed.

Lemma take_app_exact l1 l2 n : n = length l1 -> take n (l1 ++ l2) = l1.
Proof. intros ->. apply take_app_length. Qed.

Lemma insert_app_r_exact l1 l2 x y n :
  n = length l1 -> <[n := y]> (l1 ++ x :: l2) = l1 ++ y :: l2.
Proof. intros ->. rewrite insert_app_r_alt by lia. by rewrite Nat.sub_diag. Qed.

Lemma filter_all (P : A -> Prop) `{!forall x, Decision (P x)} l :
  Forall P l -> filter P l = l.
Proof.
  induction 1 as [| x l Hx Hl IH]; [done |]. by rewrite filter_cons_True, IH.
Qed.
End Slices.

(** ** Bounded search *)

(** A decidable property that holds somewhere below a bound holds at a least
    place. *)
Lemma z_least (P : Z -> bool) (m : nat) :
  P (Z.of_nat m) = true ->
  exists x, 0 <= x <= Z.of_nat m /\ P x = true /\ forall y, 0 <= y < x -> P y = false.
Proof.
  assert (forall k : nat, (k <= S m)%nat ->
    (forall y, 0 <= y < Z.of_nat k -> P y = false) \/
    (exists x, 0 <= x < Z.of_nat k /\ P x = true /\ forall y, 0 <= y < x -> P y = false)) as Hk.
  { induction k as [| k IH]; intros; [left; lia |].
    destruct IH as [IH | (x & ? & ? & ?)]; [lia | |].
    - destruct (P (Z.of_nat k)) eqn:E.
      + right. exists (Z.of_nat k). split; [lia | done].
      + left. intros y ?. destruct (decide (y = Z.of_nat k)) as [-> |]; [done |].
        apply IH. lia.
    - right. exists x. split; [lia | done]. }
  intros HP. destruct (Hk (S m)) as [H | (x & ? & ? & ?)]; [lia | |].
  - rewrite H in HP by lia. done.
  - exists x. split; [lia | done].
Qed.

(** ** Blocks

    A block of memory is the list of its bytes, or of its words.  Accesses are by offset and are
    [None] outside the block. *)

Section Blocks.
Context {A : Type}.
Implicit Types mem bs : list A.

Definition mem_read (mem : list A) (off n : Z) : option (list A) :=
  if (0 <=? off) && (0 <=? n) && (off + n <=? zlen mem)
  then Some (ztake n (zdrop off mem)) else None.

Definition mem_write (mem : list A) (off : Z) (bs : list A) : option (list A) :=
  if (0 <=? off) && (off + zlen bs <=? zlen mem)
  then Some (ztake off mem ++ bs ++ zdrop (off + zlen bs) mem) else None.

(** [memmove] inside one block: the source is read before anything is written,
    so the regions may overlap. *)
Definition mem_move (mem : list A) (dst src n : Z) : option (list A) :=
  match mem_read mem src n with
  | None => None
  | Some bs => mem_write mem dst bs
  end.

Lemma mem_write_Some mem off bs :
  0 <= off -> off + zlen bs <= zlen mem ->
  mem_write mem off bs = Some (ztake off mem ++ bs ++ zdrop (off + zlen bs) mem).
Proof. intros. unfold mem_write. zcase. Qed.

Lemma mem_write_length mem off bs mem' :
  mem_write mem off bs = Some mem' -> length mem' = length mem.
Proof.
  unfold mem_write. zcase. intros [= <-]. rewrite !length_app, length_take, length_drop. lia.
Qed.

Lemma mem_write_ok mem off bs :
  0 <= off -> off + zlen bs <= zlen mem ->
  exists mem', mem_write mem off bs = Some mem' /\ length mem' = length mem.
Proof.
  intros. eexists. split; [by apply mem_write_Some |].
  eapply mem_write_length. by apply mem_write_Some.
Qed.

Lemma zget_mem_read mem off x : mem_read mem off 1 = Some [x] -> zget mem off = Some x.
Proof.
  unfold mem_read. zcase. intros [= Hx]. rewrite zget_lookup by lia.
  apply (f_equal (.!! 0%nat)) in Hx. rewrite lookup_take_lt, lookup_drop in Hx by lia.
  by rewrite Nat.add_0_r in Hx.
Qed.

Lemma mem_read_length mem off n bs : mem_read mem off n = Some bs -> zlen bs = n.
Proof.
  unfold mem_read. zcase. intros [= <-]. rewrite length_take, length_drop. lia.
Qed.

Lemma mem_read_write_same mem off bs mem' :
  mem_write mem off bs = Some mem' -> mem_read mem' off (zlen bs) = Some bs.
Proof.
  unfold mem_write. zcase. intros [= <-].
  unfold mem_read. lens. zcase. f_equal. list_ext.
Qed.

Lemma mem_read_write_other mem off bs mem' off' n :
  mem_write mem off bs = Some mem' ->
  off' + n <= off \/ off + zlen bs <= off' ->
  mem_read mem' off' n = mem_read mem off' n.
Proof.
  intros Hw Hd. pose proof (mem_write_length _ _ _ _ Hw) as Hl.
  unfold mem_read. rewrite Hl. unfold mem_write in Hw.
  destruct ((0 <=? off) && (off + zlen bs <=? zlen mem)) eqn:E; [| done].
  injection Hw as <-.
  destruct ((0 <=? off') && (0 <=? n) && (off' + n <=? zlen mem)) eqn:E'; [| done].
  f_equal. zcase. list_ext.
Qed.

(** A read of adjacent ranges is the concatenation of the reads. *)
Lemma mem_read_app mem off n m bs1 bs2 :
  mem_read mem off n = Some bs1 -> mem_read mem (off + n) m = Some bs2 ->
  mem_read mem off (n + m) = Some (bs1 ++ bs2).
Proof.
  unfold mem_read. zcase. intros [= <-] [= <-]. f_equal. list_ext.
Qed.

Lemma mem_read_app_inv mem off n m bs1 bs2 :
  mem_read mem off (n + m) = Some (bs1 ++ bs2) -> zlen bs1 = n -> 0 <= m ->
  mem_read mem off n = Some bs1 /\ mem_read mem (off + n) m = Some bs2.
Proof.
  intros H Hn Hm. pose proof (mem_read_length _ _ _ _ H) as Hl.
  rewrite length_app in Hl. unfold mem_read in *. zcase. injection H as H.
  split; f_equal.
  - apply (f_equal (take (length bs1))) in H. rewrite take_app_length in H.
    rewrite <- H. list_ext.
  - apply (f_equal (drop (length bs1))) in H. rewrite drop_app_length in H.
    rewrite <- H. list_ext.
Qed.
End Blocks.

(** Little-endian numbers. *)
Fixpoint le_bytes (n : nat) (w : Z) : list Z :=
  match n with
  | O => []
  | S n => w mod 256 :: le_bytes n (w / 256)
  end.

Fixpoint le_value (bs : list Z) : Z :=
  match bs with
  | [] => 0
  | b :: bs => b + 256 * le_value bs
  end.

Lemma length_le_bytes n w : length (le_bytes n w) = n.
Proof. revert w. induction n; intros; simpl; [done |]. by rewrite IHn. Qed.

Lemma le_value_bytes n w :
  0 <= w < 256 ^ Z.of_nat n -> le_value (le_bytes n w) = w.
Proof.
  revert w. induction n as [| n IH]; intros w; simpl le_bytes; simpl le_value.
  - change (256 ^ Z.of_nat 0) with 1. lia.
  - rewrite Nat2Z.inj_succ, Z.pow_succ_r by lia. intros.
    rewrite IH; [pose proof (Z.div_mod w 256); lia |].
    split; [apply Z.div_pos; lia |]. apply Z.div_lt_upper_bound; lia.
Qed.

(** ** Hint databases *)

Create HintDb xe discriminated.
