(* ===== verification/Lisp.v ===== *)
(** * Lisp objects and errors

    [Lisp_Object] of src/src/lisp.h: a tagged word, either an immediate integer
    or character or a pointer to a record.  [EQ] compares words, so it is
    equality of this type.  Also the values with which the C code leaves a
    function through [Fsignal]. *)

From S2P Require Import Prelude.

(** The record types the modelled code tests for. *)
Inductive lrecord_type :=
| lrecord_symbol | lrecord_symbol_value_magic | lrecord_cons | lrecord_string
| lrecord_float | lrecord_vector | lrecord_marker | lrecord_extent
| lrecord_buffer | lrecord_range_table | lrecord_hash_table | lrecord_subr
| lrecord_bit_vector | lrecord_compiled_function.

(** A tagged word: an immediate integer, an immediate character, or a pointer
    with the type its record header carries. *)
Inductive Lisp_Object :=
| LInt (n : Z)
| LChar (c : Z)
| LRec (t : lrecord_type) (addr : positive).

#[export] Instance lrecord_type_eq_dec : EqDecision lrecord_type.
Proof. solve_decision. Defined.

#[export] Instance Lisp_Object_eq_dec : EqDecision Lisp_Object.
Proof. solve_decision. Defined.

#[export] Instance lrecord_type_inhabited : Inhabited lrecord_type :=
  populate lrecord_symbol.

Definition Qnil : Lisp_Object := LRec lrecord_symbol 1.
Definition Qt : Lisp_Object := LRec lrecord_symbol 2.
Definition Qunbound : Lisp_Object := LRec lrecord_symbol_value_magic 1.

#[export] Instance Lisp_Object_inhabited : Inhabited Lisp_Object := populate Qnil.

Definition EQ (x y : Lisp_Object) : bool := bool_decide (x = y).
Definition NILP (x : Lisp_Object) : bool := EQ x Qnil.
Definition UNBOUNDP (x : Lisp_Object) : bool := EQ x Qunbound.
Definition INTP (x : Lisp_Object) : bool :=
  match x with LInt _ => true | _ => false end.
Definition CHARP (x : Lisp_Object) : bool :=
  match x with LChar _ => true | _ => false end.
Definition RECORDP (x : Lisp_Object) (t : lrecord_type) : bool :=
  match x with LRec t' _ => bool_decide (t' = t) | _ => false end.
Definition CONSP (x : Lisp_Object) : bool := RECORDP x lrecord_cons.
Definition LISTP (x : Lisp_Object) : bool := CONSP x || NILP x.

(** Equal, where a character is the integer of its code. *)
Definition HACKEQ_UNSAFE (obj1 obj2 : Lisp_Object) : bool :=
  EQ obj1 obj2 ||
  match obj1, obj2 with
  | (LInt m | LChar m), (LInt n | LChar n) => m =? n
  | _, _ => false
  end.

(** The error conditions the modelled code signals. *)
Inductive lisp_error :=
| Qwrong_type_argument (predicate : string) (x : Lisp_Object)
| Qargs_out_of_range (args : list Lisp_Object)
| Qbuffer_read_only (buffer : nat)
| Qquit
| Qerror (message : string)
| Qsimple_error (message : string) (frob : Lisp_Object)
| Qwrong_type_objects (predicate value : Lisp_Object)
| Qcircular_list (list : Lisp_Object)
| Qmalformed_list (list : Lisp_Object)
| Qcircular_property_list (plist : Lisp_Object)
| Qmalformed_property_list (plist badplace : Lisp_Object).

(** The result of a C function that may leave through [Fsignal]. *)
Inductive result (A : Type) :=
| Ok (a : A)
| Err (e : lisp_error).
Arguments Ok {A} a.
Arguments Err {A} e.

Definition result_bind {A B} (m : result A) (k : A -> result B) : result B :=
  match m with Ok a => k a | Err e => Err e end.

Notation "'let?' x := m 'in' k" := (result_bind m (fun x => k))
  (at level 10, x pattern, k at level 200) : xe_scope.

(** [CHECK_INT_COERCE_CHAR]: the integer a position argument stands for. *)
Definition CHECK_INT_COERCE_CHAR (x : Lisp_Object) : result Z :=
  match x with
  | LInt n => Ok n
  | LChar c => Ok c
  | _ => Err (Qwrong_type_argument "integer-or-char-p" x)
  end.

Lemma EQ_true x y : EQ x y = true <-> x = y.
Proof. apply bool_decide_eq_true. Qed.

Lemma EQ_false x y : EQ x y = false <-> x <> y.
Proof. apply bool_decide_eq_false. Qed.

Lemma EQ_refl x : EQ x x = true.
Proof. by apply EQ_true. Qed.

Lemma result_bind_Ok {A B} (m : result A) (k : A -> result B) b :
  result_bind m k = Ok b <-> exists a, m = Ok a /\ k a = Ok b.
Proof.
  destruct m as [a | e]; simpl; split.
  - eauto.
  - by intros (? & [= ->] & ?).
  - done.
  - by intros (? & ? & ?).
Qed.
