(* ===== verification/RangeTab.v ===== *)
(** * Range tables (src/src/rangetab.c)

    A range table maps integer positions to Lisp objects by a dynamic array of
    disjoint ranges in increasing order.  The file models every operation of
    rangetab.c on that array: the binary search, the insertion that cuts,
    splits and coalesces ranges, the mapping function with its restart rule,
    the read-syntax constructor and the relocatable "unified" byte format.  A
    dynamic array is its list of elements; [None] stands for a read or write
    outside the array, a failed assertion, or a loop that has run out of fuel,
    and the theorems show that none of these happens. *)

From S2P Require Import Prelude Lisp.
Local Open Scope xe_scope.

(** ** Dynamic arrays (src/src/dynarr.c) *)

(** [Dynarr_insert_many]: START is silently adjusted to be valid. *)
Definition Dynarr_insert_many {A} (d : list A) (el : list A) (start : Z) : list A :=
  let start := if start >? zlen d then zlen d
               else if start <? 0 then 0 else start in
  ztake start d ++ el ++ zdrop start d.

(** [Dynarr_delete_many]: asserts that the range lies in the array. *)
Definition Dynarr_delete_many {A} (d : list A) (start len : Z) : option (list A) :=
  if (start >=? 0) && (len >=? 0) && (start + len <=? zlen d)
  then Some (ztake start d ++ zdrop (start + len) d) else None.

(** ** Data *)

Record range_table_entry := RTE {
  rte_first : Z;
  rte_last : Z;
  rte_val : Lisp_Object;
}.

#[export] Instance range_table_entry_eq_dec : EqDecision range_table_entry.
Proof. solve_decision. Defined.

(** [verify_range_table]: the assertions that run after every insertion. *)
Fixpoint verify_from (prev_last : option Z) (l : list range_table_entry) : bool :=
  match l with
  | [] => true
  | e :: r =>
      (rte_last e >=? rte_first e)
      && match prev_last with None => true | Some p => p <? rte_first e end
      && verify_from (Some (rte_last e)) r
  end.

Definition verify_range_table (l : list range_table_entry) : bool :=
  verify_from None l.

(** ** Lookup *)

Fixpoint get_range_table_loop (fuel : nat) (pos : Z) (tab : list range_table_entry)
    (default : Lisp_Object) (left right : Z) : option Lisp_Object :=
  match fuel with
  | O => None
  | S fuel =>
      if left =? right then Some default
      else
        let newpos := Z.shiftr (left + right) 1 in
        match zget tab newpos with
        | None => None
        | Some entry =>
            if pos >? rte_last entry
            then get_range_table_loop fuel pos tab default (newpos + 1) right
            else if pos <? rte_first entry
            then get_range_table_loop fuel pos tab default left newpos
            else Some (rte_val entry)
        end
  end.

Definition get_range_table (pos nentries : Z) (tab : list range_table_entry)
    (default : Lisp_Object) : option Lisp_Object :=
  get_range_table_loop (S (Z.to_nat nentries)) pos tab default 0 nentries.

Definition Fget_range_table (pos : Lisp_Object) (rt : list range_table_entry)
    (default : Lisp_Object) : result (option Lisp_Object) :=
  let? p := CHECK_INT_COERCE_CHAR pos in
  Ok (get_range_table p (zlen rt) rt default).

Definition Fmake_range_table : list range_table_entry := [].
Definition Fcopy_range_table (rt : list range_table_entry) := rt.
Definition Fclear_range_table (rt : list range_table_entry)
  : list range_table_entry := [].

(** ** Insertion *)

(** The loop of [put_range_table] that removes from the existing ranges
    whatever overlaps [first, last]; returns I, INSERT_ME_HERE and the array. *)
Fixpoint put_range_table_cut (fuel : nat) (first last i insert_me_here : Z)
    (entries : list range_table_entry)
  : option (Z * Z * list range_table_entry) :=
  match fuel with
  | O => None
  | S fuel =>
      match zget entries i with
      | None => Some (i, insert_me_here, entries)
      | Some entry =>
          let insert_me_here :=
            if (rte_first entry >=? first) && (insert_me_here <? 0)
            then i else insert_me_here in
          if rte_last entry <? first then
            put_range_table_cut fuel first last (i + 1) insert_me_here entries
          else if rte_first entry >? last then
            Some (i, insert_me_here, entries)
          else if (rte_first entry <? first) && (rte_last entry <=? last) then
            put_range_table_cut fuel first last (i + 1) insert_me_here
              (zset entries i (RTE (rte_first entry) (first - 1) (rte_val entry)))
          else if (rte_first entry <? first) && (rte_last entry >? last) then
            let insert_me_too := RTE (last + 1) (rte_last entry) (rte_val entry) in
            put_range_table_cut fuel first last (i + 1) insert_me_here
              (Dynarr_insert_many
                 (zset entries i (RTE (rte_first entry) (first - 1) (rte_val entry)))
                 [insert_me_too] (i + 1))
          else if rte_last entry >? last then
            put_range_table_cut fuel first last (i + 1) insert_me_here
              (zset entries i (RTE (last + 1) (rte_last entry) (rte_val entry)))
          else
            match Dynarr_delete_many entries i 1 with
            | None => None
            | Some entries =>
                put_range_table_cut fuel first last (i - 1 + 1) insert_me_here entries
            end
      end
  end.

(** Coalescing with the entry before the inserted one: the new array, the new
    INSERT_ME_HERE and the new FIRST. *)
Definition put_range_table_join_before (first last insert_me_here : Z)
    (val : Lisp_Object) (entries : list range_table_entry)
  : option (Z * Z * list range_table_entry) :=
  if insert_me_here >? 0 then
    match zget entries (insert_me_here - 1) with
    | None => None
    | Some entry =>
        if EQ val (rte_val entry) && (rte_last entry =? first - 1) then
          match Dynarr_delete_many
                  (zset entries (insert_me_here - 1)
                     (RTE (rte_first entry) last (rte_val entry)))
                  insert_me_here 1 with
          | None => None
          | Some entries => Some (rte_first entry, insert_me_here - 1, entries)
          end
        else Some (first, insert_me_here, entries)
    end
  else Some (first, insert_me_here, entries).

(** Coalescing with the entry after it. *)
Definition put_range_table_join_after (first last insert_me_here : Z)
    (val : Lisp_Object) (entries : list range_table_entry)
  : option (list range_table_entry) :=
  if insert_me_here <? zlen entries - 1 then
    match zget entries (insert_me_here + 1) with
    | None => None
    | Some entry =>
        if EQ val (rte_val entry) && (rte_first entry =? last + 1) then
          Dynarr_delete_many
            (zset entries (insert_me_here + 1)
               (RTE first (rte_last entry) (rte_val entry)))
            insert_me_here 1
        else Some entries
    end
  else Some entries.

Definition put_range_table (entries : list range_table_entry) (first last : Z)
    (val : Lisp_Object) : option (list range_table_entry) :=
  match put_range_table_cut (S (S (length entries))) first last 0 (-1) entries with
  | None => None
  | Some (i, insert_me_here, entries) =>
      if UNBOUNDP val then Some entries
      else
        let insert_me_here := if insert_me_here <? 0 then i else insert_me_here in
        let entries :=
          Dynarr_insert_many entries [RTE first last val] insert_me_here in
        match put_range_table_join_before first last insert_me_here val entries with
        | None => None
        | Some (first, insert_me_here, entries) =>
            put_range_table_join_after first last insert_me_here val entries
        end
  end.

Definition Fput_range_table (start end_ value : Lisp_Object)
    (rt : list range_table_entry) : result (option (list range_table_entry)) :=
  let? first := CHECK_INT_COERCE_CHAR start in
  let? last := CHECK_INT_COERCE_CHAR end_ in
  if first >? last then Err (Qerror "start must be <= end")
  else Ok (put_range_table rt first last value).

Definition Fremove_range_table (start end_ : Lisp_Object)
    (rt : list range_table_entry) : result (option (list range_table_entry)) :=
  Fput_range_table start end_ Qunbound rt.

Example put_split :
  put_range_table [RTE 1 10 Qt] 4 6 (LInt 7)
  = Some [RTE 1 3 Qt; RTE 4 6 (LInt 7); RTE 7 10 Qt].
Proof. vm_compute. reflexivity. Qed.

Example put_joins :
  put_range_table [RTE 1 3 Qt; RTE 4 6 (LInt 7); RTE 7 10 Qt] 4 6 Qt
  = Some [RTE 1 10 Qt].
Proof. vm_compute. reflexivity. Qed.

(** ** Specification *)

(** The value a table gives a position: that of the range containing it. *)
Fixpoint rt_lookup (l : list range_table_entry) (pos : Z) : option Lisp_Object :=
  match l with
  | [] => None
  | e :: r =>
      if (rte_first e <=? pos) && (pos <=? rte_last e) then Some (rte_val e)
      else rt_lookup r pos
  end.

(** Disjoint increasing ranges, all above [lo]. *)
Fixpoint rt_from (lo : Z) (l : list range_table_entry) : Prop :=
  match l with
  | [] => True
  | e :: r => lo < rte_first e /\ rte_first e <= rte_last e /\ rt_from (rte_last e) r
  end.

Definition rt_wf (l : list range_table_entry) : Prop :=
  verify_range_table l = true.

(** No two touching ranges with the same value: the table is coalesced. *)
Definition rt_apart (e1 e2 : range_table_entry) : Prop :=
  ~ (rte_last e1 + 1 = rte_first e2 /\ rte_val e1 = rte_val e2).

Fixpoint rt_coalesced (l : list range_table_entry) : Prop :=
  match l with
  | e1 :: ((e2 :: _) as r) => rt_apart e1 e2 /\ rt_coalesced r
  | _ => True
  end.

Lemma verify_from_Some lo l : verify_from (Some lo) l = true <-> rt_from lo l.
Proof.
  revert lo. induction l as [| e l IH]; intros lo; simpl; [done |].
  rewrite !andb_true_iff, IH, Z.geb_le, Z.ltb_lt. naive_solver.
Qed.

Lemma rt_wf_from l : rt_wf l <-> exists lo, rt_from lo l.
Proof.
  unfold rt_wf, verify_range_table. destruct l as [| e l]; simpl.
  - split; [by exists 0 | done].
  - rewrite !andb_true_iff, verify_from_Some, Z.geb_le. split.
    + intros [[? _] ?]. exists (rte_first e - 1). repeat split; try done; lia.
    + intros (? & ? & ? & ?). done.
Qed.

Lemma rt_from_mono lo lo' l : lo' <= lo -> rt_from lo l -> rt_from lo' l.
Proof. destruct l; simpl; [done |]. intros ? (? & ? & ?). repeat split; [lia | done..]. Qed.

Lemma rt_from_app lo l1 l2 :
  rt_from lo (l1 ++ l2) <->
  rt_from lo l1 /\ rt_from (from_option rte_last lo (last l1)) l2.
Proof.
  revert lo. induction l1 as [| e l1 IH]; intros lo; simpl; [naive_solver |].
  rewrite IH. destruct l1 as [| e' l1]; simpl; [naive_solver |].
  assert (forall d d', from_option rte_last d (last (e' :: l1))
                     = from_option rte_last d' (last (e' :: l1))) as Hd.
  { intros d d'. destruct (last (e' :: l1)) eqn:E; [done |].
    by apply last_None in E. }
  rewrite (Hd (rte_last e) lo). naive_solver.
Qed.

Lemma rt_lookup_lt lo l pos : rt_from lo l -> pos <= lo -> rt_lookup l pos = None.
Proof.
  revert lo. induction l as [| e l IH]; intros lo; simpl; [done |].
  intros (? & ? & ?) ?. zcase; eapply IH; eauto; lia.
Qed.

Lemma rt_lookup_app l1 l2 pos :
  rt_lookup (l1 ++ l2) pos =
  match rt_lookup l1 pos with Some v => Some v | None => rt_lookup l2 pos end.
Proof. induction l1 as [| e l1 IH]; simpl; [done |]. destruct (_ && _); done. Qed.

(** The parts of a table strictly below FIRST and strictly above LAST. *)
Fixpoint cut_left (first : Z) (l : list range_table_entry) :=
  match l with
  | [] => []
  | e :: r =>
      if rte_last e <? first then e :: cut_left first r
      else if rte_first e <? first then [RTE (rte_first e) (first - 1) (rte_val e)]
      else []
  end.

Fixpoint cut_right (last : Z) (l : list range_table_entry) :=
  match l with
  | [] => []
  | e :: r =>
      if rte_last e <=? last then cut_right last r
      else if rte_first e <=? last then RTE (last + 1) (rte_last e) (rte_val e) :: r
      else e :: r
  end.

Lemma cut_right_id lo l la : rt_from lo l -> la <= lo -> cut_right la l = l.
Proof.
  destruct l as [| e l]; simpl; [done |]. intros (? & ? & ?) ?. zcase.
Qed.

Lemma cut_left_id lo l f : rt_from lo l -> f <= lo + 1 -> cut_left f l = [].
Proof.
  destruct l as [| e l]; simpl; [done |]. intros (? & ? & ?) ?. zcase.
Qed.

Lemma Dynarr_delete_middle {A} (l1 l2 : list A) (x : A) i :
  i = zlen l1 -> Dynarr_delete_many (l1 ++ x :: l2) i 1 = Some (l1 ++ l2).
Proof.
  intros ->. unfold Dynarr_delete_many. rewrite length_app. simpl length.
  zcase. f_equal. f_equal.
  - apply take_app_exact. lia.
  - rewrite (cons_middle x), (assoc_L (++)). apply drop_app_exact.
    rewrite length_app. simpl. lia.
Qed.

Lemma Dynarr_insert_middle {A} (l1 l2 : list A) (x : A) i :
  i = zlen l1 -> Dynarr_insert_many (l1 ++ l2) [x] i = l1 ++ x :: l2.
Proof.
  intros ->. unfold Dynarr_insert_many. rewrite length_app. zcase.
  rewrite take_app_exact, drop_app_exact by lia. done.
Qed.

Lemma zset_middle_snoc {A} (l1 l2 : list A) x y i :
  i = zlen l1 -> zset (l1 ++ x :: l2) i y = (l1 ++ [y]) ++ l2.
Proof. intros ->. rewrite zset_middle, <- (assoc_L (++)). done. Qed.

(** What one call of the cutting loop must establish. *)
Definition cut_ok fuel first last (i ins : Z) (done l : list range_table_entry)
    (res : list range_table_entry) (at_ : Z) : Prop :=
  exists i' ins',
    put_range_table_cut fuel first last i ins (done ++ l) = Some (i', ins', res)
    /\ (if ins' <? 0 then i' else ins') = at_.

(** [put_range_table_cut] computes the two cuts, and INSERT_ME_HERE ends up
    between them unless it was already set. *)
Lemma put_range_table_cut_spec first last l : forall fuel lo done ins,
  first <= last -> rt_from lo l -> (length l + 2 <= fuel)%nat ->
  ins = -1 \/ (0 <= ins /\ cut_left first l = []) ->
  cut_ok fuel first last (zlen done) ins done l
    (done ++ cut_left first l ++ cut_right last l)
    (if ins <? 0 then zlen (done ++ cut_left first l) else ins).
Proof.
  induction l as [| e l IH]; intros fuel lo done ins Hfl Hwf Hfuel Hins;
    (destruct fuel as [| fuel]; [simpl in Hfuel; lia |]); simpl in Hfuel.
  { unfold cut_ok. simpl. rewrite zget_None by (rewrite app_nil_r; lia).
    eexists _, _. split; [reflexivity |]. rewrite !app_nil_r. done. }
  destruct Hwf as (Hlo & Hle & Hwf).
  assert (forall x ins, (ins = -1 \/ (0 <= ins /\ cut_left first l = [])) ->
    cut_ok fuel first last (zlen done + 1) ins (done ++ [x]) l
      ((done ++ [x]) ++ cut_left first l ++ cut_right last l)
      (if ins <? 0 then zlen ((done ++ [x]) ++ cut_left first l) else ins)) as Hstep.
  { intros x ins' Hins'.
    replace (zlen done + 1) with (zlen (done ++ [x]))
      by (rewrite length_app; simpl; lia).
    eapply IH; [done | exact Hwf | lia | done]. }
  unfold cut_ok in *. cbn [put_range_table_cut]. rewrite zget_middle.
  cbn [cut_left cut_right] in *. rewrite Z.geb_leb, !Z.gtb_ltb.
  destruct (Z.ltb_spec (rte_last e) first) as [H1 | H1].
  { (* completely before *)
    rewrite (proj2 (Z.leb_gt _ _)) by lia. simpl andb.
    rewrite (proj2 (Z.leb_le (rte_last e) last)) by lia.
    specialize (Hstep e ins). rewrite <- !(assoc_L (++)) in Hstep.
    apply Hstep. destruct Hins as [| [? ?]]; [by left | done]. }
  destruct (Z.ltb_spec last (rte_first e)) as [H2 | H2].
  { (* completely after *)
    rewrite (proj2 (Z.leb_le first _)) by lia.
    rewrite (proj2 (Z.leb_gt (rte_last e) last)) by lia.
    rewrite (proj2 (Z.leb_gt (rte_first e) last)) by lia.
    rewrite (proj2 (Z.ltb_ge (rte_first e) first)) by lia.
    eexists _, _. split; [reflexivity |]. simpl. rewrite app_nil_r. zcase. }
  destruct (Z.ltb_spec (rte_first e) first) as [H3 | H3].
  - rewrite (proj2 (Z.leb_gt first _)) by lia. simpl andb.
    destruct Hins as [-> | [? ?]]; [| done].
    destruct (Z.leb_spec (rte_last e) last) as [H4 | H4].
    + (* truncate the end *)
      erewrite zset_middle_snoc by done.
      destruct (Hstep (RTE (rte_first e) (first - 1) (rte_val e)) (-1)) as (i' & ins' & E & ?).
      { by left. }
      rewrite (cut_left_id (rte_last e)) in E, H by (done || lia).
      rewrite <- !(assoc_L (++)) in *. eauto.
    + (* split *)
      rewrite (proj2 (Z.ltb_lt last _)) by lia.
      erewrite zset_middle_snoc by done.
      rewrite Dynarr_insert_middle by (rewrite length_app; simpl; lia).
      destruct fuel as [| fuel]; [lia |]. cbn [put_range_table_cut].
      rewrite zget_middle_eq by (rewrite length_app; simpl; lia). simpl.
      rewrite Z.geb_leb, !Z.gtb_ltb. zcase.
      eexists _, _. split; [by rewrite <- !(assoc_L (++)) |].
      zcase. rewrite length_app. simpl. lia.
  - rewrite (proj2 (Z.leb_le first _)) by lia. simpl andb.
    assert (0 <= (if ins <? 0 then zlen done else ins)) by zcase.
    rewrite app_nil_l, app_nil_r.
    destruct (Z.ltb_spec last (rte_last e)) as [H4 | H4].
    + (* truncate the start *)
      rewrite (proj2 (Z.leb_gt (rte_last e) last)) by lia.
      rewrite (proj2 (Z.leb_le (rte_first e) last)) by lia.
      erewrite zset_middle_snoc by done.
      edestruct Hstep as (i' & ins' & E & ?).
      { right. split; [eassumption |].
        eapply cut_left_id; [exact Hwf | lia]. }
      rewrite (cut_left_id (rte_last e)), (cut_right_id (rte_last e)) in E by (done || lia).
      rewrite <- !(assoc_L (++)) in *. simpl in E.
      eexists _, _. split; [exact E |]. rewrite H0. zcase.
    + (* delete *)
      rewrite (proj2 (Z.leb_le (rte_last e) last)) by lia.
      rewrite Dynarr_delete_middle by done.
      replace (zlen done - 1 + 1) with (zlen done) by lia.
      edestruct (IH fuel (rte_last e) done) as (i' & ins' & E & ?);
        [done | exact Hwf | lia | right; split; [eassumption |] |].
      { eapply cut_left_id; [exact Hwf | lia]. }
      rewrite (cut_left_id (rte_last e)) in E by (done || lia).
      eexists _, _. split; [exact E |]. rewrite H0. zcase.
Qed.

(** *** Shape of the result *)

Lemma rt_from_split lo L e R :
  rt_from lo (L ++ e :: R) <->
  rt_from lo L /\ Forall (fun x => rte_last x < rte_first e) L /\
  lo < rte_first e /\ rte_first e <= rte_last e /\ rt_from (rte_last e) R.
Proof.
  revert lo. induction L as [| x L IH]; intros lo; simpl.
  - rewrite Forall_nil. tauto.
  - rewrite IH, Forall_cons. split.
    + intros (? & ? & ? & ? & ? & ? & ?). repeat split; try done; lia.
    + intros ((? & ? & ?) & (? & ?) & ? & ? & ?). repeat split; try done; lia.
Qed.

Lemma rt_coalesced_split L e R :
  rt_coalesced (L ++ e :: R) <->
  rt_coalesced L /\ (forall p, last L = Some p -> rt_apart p e) /\
  rt_coalesced R /\ (forall q, head R = Some q -> rt_apart e q).
Proof.
  induction L as [| x L IH]; simpl.
  - destruct R as [| q R]; simpl; [naive_solver |]. split.
    + intros [? ?]. repeat split; try done. by intros ? [= <-].
    + intros (_ & _ & ? & H). split; [by apply H | done].
  - destruct L as [| y L]; simpl in *.
    + destruct R as [| q R]; simpl in *; naive_solver.
    + rewrite IH. naive_solver.
Qed.

Lemma cut_left_from lo f l : rt_from lo l -> rt_from lo (cut_left f l).
Proof.
  revert lo. induction l as [| e l IH]; intros lo; simpl; [done |].
  intros (? & ? & ?). zcase; simpl; repeat split; try done; try lia. by apply IH.
Qed.

Lemma cut_left_below lo f l :
  rt_from lo l -> Forall (fun e => rte_last e < f) (cut_left f l).
Proof.
  revert lo. induction l as [| e l IH]; intros lo; simpl; [done |].
  intros (? & ? & ?). zcase.
  - constructor; [done | eauto].
  - constructor; [simpl; lia | done].
Qed.

Lemma cut_right_from lo la l : rt_from lo l -> rt_from (Z.max lo la) (cut_right la l).
Proof.
  revert lo. induction l as [| e l IH]; intros lo; simpl; [done |].
  intros (? & ? & ?). zcase; simpl; try (repeat split; try done; lia).
  eapply rt_from_mono; [| by eapply IH]. lia.
Qed.

Lemma cut_left_lookup lo f l pos :
  rt_from lo l ->
  rt_lookup (cut_left f l) pos = if pos <? f then rt_lookup l pos else None.
Proof.
  revert lo. induction l as [| e l IH]; intros lo; simpl; [by destruct (pos <? f) |].
  intros (? & ? & ?).
  destruct (Z.ltb_spec (rte_last e) f); [| destruct (Z.ltb_spec (rte_first e) f)];
    simpl; [erewrite IH by done; zcase | zcase | zcase];
    symmetry; eapply rt_lookup_lt; eauto; lia.
Qed.

Lemma cut_right_lookup lo la l pos :
  rt_from lo l ->
  rt_lookup (cut_right la l) pos = if la <? pos then rt_lookup l pos else None.
Proof.
  revert lo. induction l as [| e l IH]; intros lo; simpl; [by destruct (la <? pos) |].
  intros (? & ? & ?).
  destruct (Z.leb_spec (rte_last e) la); [| destruct (Z.leb_spec (rte_first e) la)];
    simpl; [erewrite IH by done; zcase | zcase | zcase];
    eapply rt_lookup_lt; eauto; lia.
Qed.

Lemma cut_left_coalesced lo f l :
  rt_from lo l -> rt_coalesced l -> rt_coalesced (cut_left f l).
Proof.
  revert lo. induction l as [| e l IH]; intros lo; [done |].
  intros (? & ? & Hwf) Hc.
  destruct l as [| e' l]; [simpl; zcase |].
  destruct Hwf as (? & ? & ?), Hc as [? Hc].
  assert (rt_coalesced (cut_left f (e' :: l))) as HIH.
  { eapply IH; [| done]. split; [exact H1 | done]. }
  cbn [cut_left] in *.
  destruct (Z.ltb_spec (rte_last e) f); [| zcase].
  destruct (Z.ltb_spec (rte_last e') f); [done |].
  destruct (Z.ltb_spec (rte_first e') f); done.
Qed.

Lemma cut_right_coalesced la l : rt_coalesced l -> rt_coalesced (cut_right la l).
Proof.
  induction l as [| e l IH]; [done |]. intros Hc.
  assert (rt_coalesced l) by (destruct l; [done | apply Hc]).
  simpl. zcase; auto; destruct l as [| e' l]; try done.
Qed.

(** How a coalescing insertion fits between the two cuts: either flush against
    a neighbour of the same value, which it absorbs, or apart from it. *)
Definition joined_before (first : Z) (val : Lisp_Object)
    (L L' : list range_table_entry) (e' : range_table_entry) : Prop :=
  (L' = L /\ rte_first e' = first /\
    forall p, last L = Some p -> ~ (rte_last p + 1 = first /\ rte_val p = val))
  \/ (exists p, L = L' ++ [p] /\ rte_last p + 1 = first /\ rte_val p = val /\
       rte_first e' = rte_first p).

Definition joined_after (last : Z) (val : Lisp_Object)
    (R R' : list range_table_entry) (e' : range_table_entry) : Prop :=
  (R' = R /\ rte_last e' = last /\
    forall q, head R = Some q -> ~ (last + 1 = rte_first q /\ val = rte_val q))
  \/ (exists q, R = q :: R' /\ last + 1 = rte_first q /\ rte_val q = val /\
       rte_last e' = rte_last q).

Lemma join_before_spec L R first last val :
  exists L' e,
    put_range_table_join_before first last (zlen L) val (L ++ RTE first last val :: R)
    = Some (rte_first e, zlen L', L' ++ e :: R)
    /\ rte_last e = last /\ rte_val e = val /\ joined_before first val L L' e.
Proof.
  unfold put_range_table_join_before. rewrite Z.gtb_ltb.
  destruct L as [| p L _] using rev_ind.
  { exists [], (RTE first last val). simpl. repeat split.
    left. repeat split. by intros ? ?. }
  rewrite length_app. simpl length. zcase.
  replace (Z.of_nat (length L + 1) - 1) with (zlen L) by lia.
  rewrite <- (assoc_L (++)). simpl. rewrite zget_middle.
  destruct (EQ val (rte_val p)) eqn:Ev;
    [apply EQ_true in Ev | apply EQ_false in Ev]; simpl.
  2: { exists (L ++ [p]), (RTE first last val). rewrite length_app, <- (assoc_L (++)).
       simpl. repeat split. left. repeat split.
       rewrite last_snoc. intros ? [= <-] [_ ?]. congruence. }
  destruct (Z.eqb_spec (rte_last p) (first - 1)).
  - rewrite (zset_middle_snoc L) by done.
    rewrite Dynarr_delete_middle by (rewrite length_app; simpl; lia).
    exists L, (RTE (rte_first p) last (rte_val p)). simpl.
    rewrite <- (assoc_L (++)). repeat split; [done |].
    right. exists p. repeat split; [lia | done].
  - exists (L ++ [p]), (RTE first last val). rewrite length_app, <- (assoc_L (++)).
    simpl. repeat split. left. repeat split.
    rewrite last_snoc. intros ? [= <-] [? ?]. lia.
Qed.

Lemma join_after_spec L R e val :
  rte_val e = val ->
  exists R' e',
    put_range_table_join_after (rte_first e) (rte_last e) (zlen L) val (L ++ e :: R)
    = Some (L ++ e' :: R')
    /\ rte_first e' = rte_first e /\ rte_val e' = val
    /\ joined_after (rte_last e) val R R' e'.
Proof.
  intros Hv. unfold put_range_table_join_after. rewrite length_app. simpl length.
  destruct R as [| q R].
  { simpl. rewrite (proj2 (Z.ltb_ge _ _)) by lia. exists [], e.
    repeat split; [done |]. left. repeat split. by intros ? ?. }
  simpl length. rewrite (proj2 (Z.ltb_lt _ _)) by lia.
  rewrite (cons_middle e), (assoc_L (++)).
  rewrite zget_middle_eq by (rewrite length_app; simpl; lia).
  destruct (EQ val (rte_val q)) eqn:Ev;
    [apply EQ_true in Ev | apply EQ_false in Ev]; simpl.
  2: { exists (q :: R), e. rewrite <- (assoc_L (++)). repeat split; [done |].
       left. repeat split. intros ? [= <-] [_ ?]. congruence. }
  destruct (Z.eqb_spec (rte_first q) (rte_last e + 1)).
  - rewrite zset_middle_snoc by (rewrite length_app; simpl; lia).
    rewrite <- !(assoc_L (++)). simpl. rewrite Dynarr_delete_middle by done.
    eexists R, _. split; [reflexivity |]. simpl. repeat split; [done |].
    right. exists q. repeat split; [lia | done].
  - exists (q :: R), e. rewrite <- (assoc_L (++)). repeat split; [done |].
    left. repeat split. intros ? [= <-] [? ?]. lia.
Qed.

Lemma put_range_table_shape lo l first last val :
  rt_from lo l -> first <= last ->
  exists l', put_range_table l first last val = Some l' /\
  if UNBOUNDP val then l' = cut_left first l ++ cut_right last l
  else exists L' e R', l' = L' ++ e :: R' /\ rte_val e = val /\
    joined_before first val (cut_left first l) L' e /\
    joined_after last val (cut_right last l) R' e.
Proof.
  intros Hwf Hfl. unfold put_range_table.
  destruct (put_range_table_cut_spec first last l (S (S (length l))) lo [] (-1))
    as (i' & ins' & E & Hins); [done | done | lia | by left |].
  change (zlen []) with 0 in E. rewrite !app_nil_l in E. rewrite E.
  destruct (UNBOUNDP val); [by eexists |].
  rewrite Hins. simpl. rewrite Dynarr_insert_middle by done.
  destruct (join_before_spec (cut_left first l) (cut_right last l) first last val)
    as (L' & e & -> & Hl & Hv & HL).
  destruct (join_after_spec L' (cut_right last l) e val Hv) as (R' & e' & Hj & Hf & Hv' & HR).
  rewrite Hl in Hj, HR. eexists. split; [exact Hj |].
  exists L', e', R'. split; [done |]. split; [done |]. split; [| done].
  destruct HL as [(? & ? & ?) | (p & ? & ? & ? & ?)]; [left | right; exists p];
    repeat split; try done; congruence.
Qed.

Lemma rt_from_put lo first last L' R' e L R val :
  first <= last -> lo < first -> rt_from lo L -> rt_from last R ->
  Forall (fun x => rte_last x < first) L ->
  joined_before first val L L' e -> joined_after last val R R' e ->
  rt_from lo (L' ++ e :: R').
Proof.
  intros ? ? HL HR HB HbL HbR. apply rt_from_split.
  assert (rt_from lo L' /\ Forall (fun x => rte_last x < rte_first e) L'
          /\ lo < rte_first e <= first) as (? & ? & ?).
  { destruct HbL as [(-> & -> & ?) | (p & -> & ? & ? & Hp)]; [auto with lia |].
    apply rt_from_split in HL as (? & ? & ? & ? & ?). rewrite Hp.
    repeat split; try done; lia. }
  assert (rt_from (rte_last e) R' /\ last <= rte_last e) as (? & ?).
  { destruct HbR as [(-> & -> & ?) | (q & -> & ? & ? & Hq)]; [auto with lia |].
    destruct HR as (? & ? & ?). rewrite Hq. split; [done | lia]. }
  repeat split; try done; lia.
Qed.

Lemma rt_lookup_put lo first last L' R' e L R val pos :
  first <= last -> rt_from lo L -> rt_from last R ->
  Forall (fun x => rte_last x < first) L ->
  rte_val e = val -> joined_before first val L L' e -> joined_after last val R R' e ->
  rt_lookup (L' ++ e :: R') pos
  = if (first <=? pos) && (pos <=? last) then Some val
    else if pos <? first then rt_lookup L pos else rt_lookup R pos.
Proof.
  intros Hle HL HR HB Hv HbL HbR.
  assert (forall p, first <= p -> rt_lookup L p = None) as HLn.
  { clear -HB. induction HB as [| x L ? ? IH]; intros p ?; simpl; [done |].
    zcase; auto. }
  rewrite rt_lookup_app. cbn [rt_lookup]. rewrite Hv.
  assert (rt_lookup L' pos = None \/ rt_lookup L pos = rt_lookup L' pos /\ pos < first) as HL'.
  { destruct (Z.lt_ge_cases pos first) as [Hp | Hp].
    - destruct HbL as [(-> & _) | (p & -> & Hp1 & ? & ?)]; [by right |].
      rewrite rt_lookup_app. destruct (rt_lookup L' pos) eqn:E; [by right | by left].
    - left. destruct HbL as [(-> & _) | (p & -> & ? & ? & ?)]; [by apply HLn |].
      specialize (HLn pos Hp). rewrite rt_lookup_app in HLn. by destruct (rt_lookup L' pos). }
  assert (pos < first -> rt_lookup L pos =
    match rt_lookup L' pos with Some v => Some v
    | None => if rte_first e <=? pos then Some val else None end) as HLp.
  { intros ?. destruct HbL as [(-> & -> & _) | (p & -> & ? & <- & ->)].
    - zcase. by destruct (rt_lookup L pos).
    - rewrite rt_lookup_app. simpl. destruct (rt_lookup L' pos); [done |]. zcase. }
  assert (last < pos -> rt_lookup R pos =
    if pos <=? rte_last e then Some val else rt_lookup R' pos) as HRp.
  { intros ?. destruct HbR as [(-> & -> & _) | (q & -> & ? & <- & ->)]; simpl; zcase. }
  assert (rte_first e <= first /\ last <= rte_last e) as [? ?].
  { split.
    - destruct HbL as [(-> & -> & _) | (p & -> & ? & ? & ->)]; [lia |].
      apply rt_from_split in HL. simpl in HL. lia.
    - destruct HbR as [(-> & -> & _) | (q & -> & ? & ? & ->)]; [lia |].
      simpl in HR. lia. }
  assert (pos < first -> rt_lookup R' pos = None) as HRn.
  { intros. apply (rt_lookup_lt (rte_last e)); [| lia].
    destruct HbR as [(-> & -> & _) | (q & -> & ? & ? & ->)]; [done |]. apply HR. }
  destruct (Z.lt_ge_cases pos first) as [Hp | Hp].
  - rewrite (HLp Hp). destruct (rt_lookup L' pos); [zcase |]. rewrite HRn by done. zcase.
  - destruct HL' as [-> | []]; [| lia]. destruct (Z.lt_ge_cases last pos) as [Hq | Hq].
    + rewrite (HRp Hq). zcase.
    + zcase.
Qed.

Lemma rt_coalesced_put lo first last L' R' e L R val :
  first <= last -> rt_from lo L -> rt_from last R ->
  Forall (fun x => rte_last x < first) L ->
  rt_coalesced L -> rt_coalesced R ->
  rte_val e = val -> joined_before first val L L' e -> joined_after last val R R' e ->
  rt_coalesced (L' ++ e :: R').
Proof.
  intros ? HL HR HB HcL HcR <- HbL HbR. apply rt_coalesced_split.
  assert (rt_coalesced L' /\ forall p, list.last L' = Some p -> rt_apart p e) as [? ?].
  { destruct HbL as [(-> & Hf & Hp) | (p & -> & Hp & Hv & Hf)]; unfold rt_apart; rewrite Hf.
    - eauto.
    - apply rt_coalesced_split in HcL as (? & Hap & ?). split; [done |].
      intros x Hx [? Hxv]. apply (Hap x Hx). split; [lia | congruence]. }
  assert (rt_coalesced R' /\ forall q, head R' = Some q -> rt_apart e q) as [? ?].
  { destruct HbR as [(-> & Hf & Hp) | (q & -> & Hq & Hv & Hf)]; unfold rt_apart; rewrite Hf.
    - eauto.
    - apply (rt_coalesced_split []) in HcR as (_ & _ & ? & Hap). split; [done |].
      intros x Hx [? Hxv]. apply (Hap x Hx). split; [lia | congruence]. }
  done.
Qed.

Lemma rt_coalesced_gap first last L R :
  first <= last -> Forall (fun x => rte_last x < first) L -> rt_from last R ->
  rt_coalesced L -> rt_coalesced R -> rt_coalesced (L ++ R).
Proof.
  intros ? HB HR ? HcR. destruct R as [| e R]; [by rewrite app_nil_r |].
  apply rt_coalesced_split. apply (rt_coalesced_split []) in HcR as (_ & _ & ? & ?).
  repeat split; try done. intros p Hp [? _].
  rewrite Forall_forall in HB. apply last_Some_elem_of, HB in Hp.
  simpl in HR. lia.
Qed.

(** *** Equality, mapping, read syntax *)

Section Equal.
(** [internal_equal] of fns.c, which calls [range_table_equal] back. *)
Variable internal_equal : Lisp_Object -> Lisp_Object -> Z -> bool.

Fixpoint range_table_equal_from (l1 l2 : list range_table_entry) (depth : Z) : bool :=
  match l1, l2 with
  | rte1 :: l1, rte2 :: l2 =>
      if negb (rte_first rte1 =? rte_first rte2)
         || negb (rte_last rte1 =? rte_last rte2)
         || negb (internal_equal (rte_val rte1) (rte_val rte2) (depth + 1))
      then false else range_table_equal_from l1 l2 depth
  | _, _ => true
  end.

Definition range_table_equal (l1 l2 : list range_table_entry) (depth : Z) : bool :=
  if negb (zlen l1 =? zlen l2) then false else range_table_equal_from l1 l2 depth.
End Equal.

(** [Fmap_range_table]: FUNCTION may change the table and the rest of the world
    [W], or signal.  After a call the index advances, except that when the table
    has shrunk and another range has moved to the index, that one is processed
    at once.  A bound on the number of calls is the fuel. *)
Section Map.
Context {W : Type}.
Variable function : Z -> Z -> Lisp_Object -> W * list range_table_entry ->
                    result (W * list range_table_entry).

Fixpoint Fmap_range_table_from (fuel : nat) (i : Z)
    (st : W * list range_table_entry) : option (result (W * list range_table_entry)) :=
  match fuel with
  | O => None
  | S fuel =>
      match zget st.2 i with
      | None => Some (Ok st)
      | Some entry =>
          let first := rte_first entry in
          let last := rte_last entry in
          let oldlen := zlen st.2 in
          match function first last (rte_val entry) st with
          | Err e => Some (Err e)
          | Ok st =>
              if (oldlen >? zlen st.2)
                 && match zget st.2 i with
                    | None => false
                    | Some entry => negb (first =? rte_first entry)
                                    || negb (last =? rte_last entry)
                    end
              then Fmap_range_table_from fuel i st
              else Fmap_range_table_from fuel (i + 1) st
          end
      end
  end.

Definition Fmap_range_table (fuel : nat) (st : W * list range_table_entry) :=
  Fmap_range_table_from fuel 0 st.
End Map.

(** The data list of the read syntax, already checked by
    [rangetab_data_validate]: a range is a position or a pair of positions. *)
Inductive range_datum :=
| RangePoint (pos : Lisp_Object)
| RangePair (start end_ : Lisp_Object).

Fixpoint rangetab_instantiate_from (data : list (range_datum * Lisp_Object))
    (rangetab : list range_table_entry) : result (option (list range_table_entry)) :=
  match data with
  | [] => Ok (Some rangetab)
  | (range, val) :: data =>
      let? rt := match range with
                 | RangePair s e => Fput_range_table s e val rangetab
                 | RangePoint p => Fput_range_table p p val rangetab
                 end in
      match rt with
      | None => Ok None
      | Some rangetab => rangetab_instantiate_from data rangetab
      end
  end.

Definition rangetab_instantiate (data : list (range_datum * Lisp_Object)) :=
  rangetab_instantiate_from data Fmake_range_table.

(** What [print_range_table] writes between "data (" and "))": for each entry
    its range, a point when it is one position long, and its value. *)
Definition print_range_table_data (rt : list range_table_entry)
  : list (range_datum * Lisp_Object) :=
  map (fun rte =>
         (if rte_first rte =? rte_last rte then RangePoint (LInt (rte_first rte))
          else RangePair (LInt (rte_first rte)) (LInt (rte_last rte)), rte_val rte)) rt.

(** ** Properties *)

(** C1: [put_range_table] on a well-formed table always returns, leaves a
    well-formed table that is coalesced if the old one was, and changes the
    mapping exactly on [first, last] (an unbound value removes the range). *)
Theorem put_range_table_correct l first last val :
  rt_wf l -> first <= last ->
  exists l', put_range_table l first last val = Some l' /\ rt_wf l' /\
    (rt_coalesced l -> rt_coalesced l') /\
    forall pos, rt_lookup l' pos =
      if (first <=? pos) && (pos <=? last)
      then (if UNBOUNDP val then None else Some val) else rt_lookup l pos.
Proof.
  rewrite rt_wf_from. intros [lo0 Hwf0] Hfl.
  set (lo := Z.min lo0 (first - 1)).
  assert (rt_from lo l) as Hwf by (eapply rt_from_mono; [| done]; lia). clear Hwf0.
  assert (rt_from last (cut_right last l)) as HR.
  { eapply rt_from_mono; [| by eapply cut_right_from]. lia. }
  pose proof (cut_left_from lo first l Hwf) as HL.
  pose proof (cut_left_below lo first l Hwf) as HB.
  destruct (put_range_table_shape lo l first last val Hwf Hfl) as (l' & E & Hl').
  exists l'. split; [done |]. destruct (UNBOUNDP val) eqn:Hu.
  - subst l'. split; [| split].
    + apply rt_wf_from. exists lo. apply rt_from_app. split; [done |].
      eapply rt_from_mono; [| by eapply cut_right_from].
      destruct (list.last _) as [x |] eqn:Hx; simpl; [| lia].
      apply last_Some_elem_of in Hx. rewrite Forall_forall in HB.
      apply HB in Hx. lia.
    + intros. eapply rt_coalesced_gap; eauto using cut_left_coalesced, cut_right_coalesced.
    + intros pos. rewrite rt_lookup_app, (cut_left_lookup lo), (cut_right_lookup lo) by done.
      zcase; by destruct (rt_lookup l pos).
  - destruct Hl' as (L' & e & R' & -> & Hv & HbL & HbR). split; [| split].
    + apply rt_wf_from. exists lo. eapply rt_from_put; eauto. lia.
    + intros. eapply rt_coalesced_put; eauto using cut_left_coalesced, cut_right_coalesced.
    + intros pos. erewrite rt_lookup_put by eauto.
      rewrite (cut_left_lookup lo), (cut_right_lookup lo) by done. zcase.
Qed.

Lemma put_range_table_correct_witness :
  let l := [RTE 1 10 Qt; RTE 11 12 Qnil] in
  (rt_wf l /\ 4 <= 6) /\
  exists l', put_range_table l 4 6 (LInt 7) = Some l' /\ rt_wf l' /\
    (rt_coalesced l -> rt_coalesced l') /\
    forall pos, rt_lookup l' pos =
      if (4 <=? pos) && (pos <=? 6)
      then (if UNBOUNDP (LInt 7) then None else Some (LInt 7)) else rt_lookup l pos.
Proof.
  split; [split; [vm_compute; reflexivity | lia] |].
  apply put_range_table_correct; [vm_compute; reflexivity | lia].
Defined.

(** *** Binary search *)

Lemma rt_from_lookup_order lo l i j ei ej :
  rt_from lo l -> (i < j)%nat -> l !! i = Some ei -> l !! j = Some ej ->
  rte_last ei < rte_first ej.
Proof.
  revert lo i j. induction l as [| e l IH]; intros lo i j; [done |].
  intros (? & ? & Hwf) Hij Hi Hj. destruct j as [| j]; [lia |]. simpl in Hj.
  destruct i as [| i]; simpl in Hi.
  - injection Hi as <-. clear -Hwf Hj. revert Hwf Hj.
    generalize (rte_last e) as lo. clear. revert j.
    induction l as [| e l IH]; intros j lo; [done |]. intros (? & ? & ?).
    destruct j; simpl; [intros [= <-]; lia |]. intros Hj.
    apply (IH _ _ H1) in Hj. lia.
  - eapply (IH _ i j); eauto. lia.
Qed.

Lemma rt_from_lookup_valid lo l i e :
  rt_from lo l -> l !! i = Some e -> rte_first e <= rte_last e.
Proof.
  revert lo i. induction l as [| x l IH]; intros lo i; [done |].
  intros (? & ? & ?). destruct i; simpl; [by intros [= <-] |]. eauto.
Qed.

Lemma rt_lookup_at lo l i e pos :
  rt_from lo l -> l !! i = Some e -> rte_first e <= pos <= rte_last e ->
  rt_lookup l pos = Some (rte_val e).
Proof.
  intros Hwf Hi Hpos. apply take_drop_middle in Hi. rewrite <- Hi in Hwf |- *.
  apply rt_from_split in Hwf as (? & HB & ?). rewrite rt_lookup_app. simpl.
  replace (rt_lookup (take i l) pos) with (@None Lisp_Object); [zcase |].
  symmetry. clear -HB Hpos. induction HB; simpl; [done |]. zcase; auto.
Qed.

Lemma rt_lookup_none_iff l pos :
  (forall i e, l !! i = Some e -> ~ rte_first e <= pos <= rte_last e) ->
  rt_lookup l pos = None.
Proof.
  induction l as [| e l IH]; intros H; simpl; [done |].
  pose proof (H 0%nat e eq_refl). zcase; apply IH; intros i x; apply (H (S i)).
Qed.

Lemma get_range_table_loop_spec lo l pos d : rt_from lo l ->
  forall fuel left right,
  0 <= left <= right -> right <= zlen l -> right - left < Z.of_nat fuel ->
  (forall i e, l !! i = Some e -> Z.of_nat i < left -> rte_last e < pos) ->
  (forall i e, l !! i = Some e -> right <= Z.of_nat i -> pos < rte_first e) ->
  get_range_table_loop fuel pos l d left right
  = Some (default d (rt_lookup l pos)).
Proof.
  intros Hwf. induction fuel as [| fuel IH]; intros left right Hlr Hr Hfuel HL HR; [lia |].
  cbn [get_range_table_loop]. destruct (Z.eqb_spec left right) as [-> |].
  { rewrite rt_lookup_none_iff; [done |]. intros i e Hi ?.
    destruct (Z.lt_ge_cases (Z.of_nat i) right);
      [specialize (HL _ _ Hi) | specialize (HR _ _ Hi)]; lia. }
  rewrite Z.shiftr_div_pow2 by lia. change (2 ^ 1) with 2.
  set (mid := (left + right) / 2).
  assert (left <= mid < right) as Hmid
    by (subst mid; pose proof (Z.div_mod (left + right) 2); 
        pose proof (Z.mod_pos_bound (left + right) 2); lia).
  destruct (zget_is_Some l mid) as [e He]; [lia |]. rewrite He.
  rewrite zget_lookup in He by lia.
  rewrite Z.gtb_ltb. destruct (Z.ltb_spec (rte_last e) pos); [| destruct (Z.ltb_spec pos (rte_first e))].
  - apply IH; try lia; [| done]. intros i x Hi Hlt.
    destruct (decide (i = Z.to_nat mid)) as [-> |]; [naive_solver |].
    pose proof (rt_from_lookup_order lo l i (Z.to_nat mid) x e Hwf ltac:(lia) Hi He).
    pose proof (rt_from_lookup_valid lo l _ e Hwf He). lia.
  - apply IH; try lia; [done |]. intros i x Hi Hge.
    destruct (decide (i = Z.to_nat mid)) as [-> |]; [naive_solver |].
    pose proof (rt_from_lookup_order lo l (Z.to_nat mid) i e x Hwf ltac:(lia) He Hi).
    pose proof (rt_from_lookup_valid lo l _ e Hwf He). lia.
  - erewrite rt_lookup_at by (done || lia). done.
Qed.

(** C2: the binary search of [get_range_table] terminates, never reads outside
    the array, and finds on every well-formed table exactly the value of the
    range containing the position, or the default. *)
Theorem get_range_table_correct l pos d :
  rt_wf l -> get_range_table pos (zlen l) l d = Some (default d (rt_lookup l pos)).
Proof.
  rewrite rt_wf_from. intros [lo Hwf]. unfold get_range_table.
  eapply get_range_table_loop_spec; [exact Hwf | lia | lia | lia | lia |].
  intros i e Hi ?. apply lookup_lt_Some in Hi. lia.
Qed.

Lemma get_range_table_correct_witness :
  let l := [RTE 1 3 Qt; RTE 4 6 (LInt 7); RTE 9 9 Qnil] in
  rt_wf l /\ get_range_table 5 (zlen l) l Qnil = Some (default Qnil (rt_lookup l 5)).
Proof.
  split; [vm_compute; reflexivity | apply get_range_table_correct; vm_compute; reflexivity].
Defined.

(** *** A coalesced table is determined by the mapping it represents *)

Lemma rt_head_value lo e l :
  rt_from lo (e :: l) ->
  rt_lookup (e :: l) (rte_first e) = Some (rte_val e) /\
  (forall pos, pos < rte_first e -> rt_lookup (e :: l) pos = None).
Proof.
  intros (? & ? & ?). split; [simpl; zcase |]. intros pos ?.
  apply (rt_lookup_lt (rte_first e - 1)); [repeat split; [lia | done..] | lia].
Qed.

(** Just after a range of a coalesced table the value changes. *)
Lemma rt_head_end lo e l :
  rt_from lo (e :: l) -> rt_coalesced (e :: l) ->
  (forall pos, rte_first e <= pos <= rte_last e -> rt_lookup (e :: l) pos = Some (rte_val e))
  /\ rt_lookup (e :: l) (rte_last e + 1) <> Some (rte_val e).
Proof.
  intros (? & ? & Hwf) Hc. split; [intros; simpl; zcase |]. simpl. zcase.
  destruct l as [| q l]; [done |]. destruct Hc as [Hap _], Hwf as (? & ? & ?).
  simpl. destruct (Z.leb_spec (rte_first q) (rte_last e + 1)).
  - zcase. intros [= Hv]. apply Hap. split; [lia | done].
  - simpl. erewrite rt_lookup_lt by (eauto || lia). done.
Qed.

Lemma rt_coalesced_tail e l : rt_coalesced (e :: l) -> rt_coalesced l.
Proof. destruct l; [done |]. by intros [_ ?]. Qed.

Lemma rt_head_agree lo1 lo2 e1 e2 l1 l2 :
  rt_from lo1 (e1 :: l1) -> rt_from lo2 (e2 :: l2) ->
  rt_coalesced (e1 :: l1) -> rt_coalesced (e2 :: l2) ->
  (forall pos, rt_lookup (e1 :: l1) pos = rt_lookup (e2 :: l2) pos) -> e1 = e2.
Proof.
  intros H1 H2 C1 C2 Heq.
  destruct (rt_head_value _ _ _ H1) as [V1 N1], (rt_head_value _ _ _ H2) as [V2 N2].
  destruct (rt_head_end _ _ _ H1 C1) as [S1 E1], (rt_head_end _ _ _ H2 C2) as [S2 E2].
  assert (rte_first e1 = rte_first e2) as Hf.
  { destruct (Z.lt_trichotomy (rte_first e1) (rte_first e2)) as [Hlt | [? | Hlt]]; [| done |].
    - by rewrite Heq, (N2 _ Hlt) in V1.
    - by rewrite <- Heq, (N1 _ Hlt) in V2. }
  assert (rte_val e1 = rte_val e2) as Hv.
  { rewrite Heq, Hf, V2 in V1. congruence. }
  assert (rte_last e1 = rte_last e2).
  { destruct H1 as (? & ? & ?), H2 as (? & ? & ?).
    destruct (Z.lt_trichotomy (rte_last e1) (rte_last e2)) as [Hlt | [? | Hlt]]; [| done |].
    - exfalso. apply E1. rewrite Heq, S2, Hv by lia. done.
    - exfalso. apply E2. rewrite <- Heq, S1, Hv by lia. done. }
  destruct e1, e2; simpl in *; congruence.
Qed.

Lemma rt_coalesced_ext l1 l2 lo1 lo2 :
  rt_from lo1 l1 -> rt_from lo2 l2 -> rt_coalesced l1 -> rt_coalesced l2 ->
  (forall pos, rt_lookup l1 pos = rt_lookup l2 pos) -> l1 = l2.
Proof.
  revert l2 lo1 lo2. induction l1 as [| e1 l1 IH]; intros [| e2 l2] lo1 lo2 H1 H2 C1 C2 Heq.
  - done.
  - pose proof (proj1 (rt_head_value _ _ _ H2)) as Hv. by rewrite <- Heq in Hv.
  - pose proof (proj1 (rt_head_value _ _ _ H1)) as Hv. by rewrite Heq in Hv.
  - pose proof (rt_head_agree _ _ _ _ _ _ H1 H2 C1 C2 Heq) as ->. f_equal.
    destruct H1 as (? & ? & ?), H2 as (? & ? & ?).
    eapply IH; eauto using rt_coalesced_tail. intros pos. specialize (Heq pos).
    simpl in Heq. destruct (Z.le_gt_cases pos (rte_last e2)); [| zcase].
    by rewrite (rt_lookup_lt (rte_last e2) l1), (rt_lookup_lt (rte_last e2) l2).
Qed.

Lemma range_table_equal_refl_on ieq l1 l2 depth :
  (forall x y d, ieq x y d = true <-> x = y) ->
  range_table_equal ieq l1 l2 depth = true <-> l1 = l2.
Proof.
  intros Hi. unfold range_table_equal. split.
  - destruct (Z.eqb_spec (zlen l1) (zlen l2)) as [Hl |]; simpl; [| done].
    revert l2 Hl. induction l1 as [| [f1 a1 v1] l1 IH]; intros [| [f2 a2 v2] l2] Hl; simpl in *;
      try lia; [done |].
    destruct (Z.eqb_spec f1 f2) as [-> |], (Z.eqb_spec a1 a2) as [-> |],
      (ieq v1 v2 (depth + 1)) eqn:E; simpl; try done.
    apply Hi in E as ->. intros. f_equal. apply IH; [lia | done].
  - intros ->. rewrite Z.eqb_refl. simpl. induction l2 as [| e l2 IH]; simpl; [done |].
    rewrite !Z.eqb_refl. by rewrite (proj2 (Hi _ _ _) eq_refl).
Qed.

(** on coalesced well-formed tables whose values [equal] tells apart as
    [eq] does, [range_table_equal], which compares the arrays entry by entry,
    decides whether the tables map every position to the same value. *)
Theorem range_table_equal_extensional ieq l1 l2 depth :
  (forall x y d, ieq x y d = true <-> x = y) ->
  rt_wf l1 -> rt_wf l2 -> rt_coalesced l1 -> rt_coalesced l2 ->
  range_table_equal ieq l1 l2 depth = true
  <-> (forall pos, rt_lookup l1 pos = rt_lookup l2 pos).
Proof.
  rewrite !rt_wf_from. intros Hi [lo1 H1] [lo2 H2] C1 C2.
  rewrite range_table_equal_refl_on by done. split; [by intros -> |].
  intros. by eapply rt_coalesced_ext.
Qed.

Lemma range_table_equal_extensional_witness :
  let ieq := fun x y (_ : Z) => EQ x y in
  let l := [RTE 1 3 Qt; RTE 4 6 (LInt 7)] in
  range_table_equal ieq l l 0 = true
  <-> (forall pos, rt_lookup l pos = rt_lookup l pos).
Proof.
  apply range_table_equal_extensional; [intros; apply EQ_true | | | |];
    try (vm_compute; reflexivity); by repeat split; intros [_ ?].
Defined.

(** *** Mapping *)

Lemma cut_left_exact lo L e R :
  rt_from lo (L ++ e :: R) -> cut_left (rte_first e) (L ++ e :: R) = L.
Proof.
  rewrite rt_from_split. intros (_ & HB & _ & ? & _).
  induction HB as [| x L ? ? IH]; simpl; [zcase |]. zcase. by rewrite IH.
Qed.

Lemma cut_right_exact lo L e R :
  rt_from lo (L ++ e :: R) -> cut_right (rte_last e) (L ++ e :: R) = R.
Proof.
  rewrite rt_from_split. intros (_ & HB & _ & ? & HR).
  induction HB as [| x L ? ? IH]; simpl.
  - zcase. eapply cut_right_id; [done | lia].
  - zcase.
Qed.

Lemma put_range_table_remove_entry lo L e R :
  rt_from lo (L ++ e :: R) ->
  put_range_table (L ++ e :: R) (rte_first e) (rte_last e) Qunbound = Some (L ++ R).
Proof.
  intros Hwf. pose proof Hwf as (_ & _ & _ & ? & _)%rt_from_split.
  destruct (put_range_table_shape lo _ (rte_first e) (rte_last e) Qunbound Hwf)
    as (l' & -> & ->); [done |].
  by erewrite cut_left_exact, cut_right_exact.
Qed.

(** A FUNCTION for [map-range-table] that keeps a log of its arguments and
    removes the current range when DROP says so. *)
Definition logging_remover (drop_ : Z -> Z -> Lisp_Object -> bool)
    (first last : Z) (val : Lisp_Object)
    (st : list range_table_entry * list range_table_entry)
  : result (list range_table_entry * list range_table_entry) :=
  let log := st.1 ++ [RTE first last val] in
  if drop_ first last val then
    match put_range_table st.2 first last Qunbound with
    | Some rt => Ok (log, rt)
    | None => Err (Qerror "broken table")
    end
  else Ok (log, st.2).

Definition keeps (drop_ : Z -> Z -> Lisp_Object -> bool) (e : range_table_entry) : Prop :=
  drop_ (rte_first e) (rte_last e) (rte_val e) = false.

#[export] Instance keeps_dec drop_ e : Decision (keeps drop_ e).
Proof. unfold keeps. apply _. Defined.

Lemma map_range_table_from_spec drop_ l : forall fuel lo done log,
  rt_from lo (done ++ l) -> (length l < fuel)%nat ->
  Fmap_range_table_from (logging_remover drop_) fuel (zlen done) (log, done ++ l)
  = Some (Ok (log ++ l, done ++ filter (keeps drop_) l)).
Proof.
  induction l as [| e l IH]; intros fuel lo done log Hwf Hfuel;
    (destruct fuel as [| fuel]; [simpl in Hfuel; lia |]); simpl in Hfuel.
  { simpl. rewrite zget_None by (rewrite length_app; simpl; lia). by rewrite !app_nil_r. }
  cbn [Fmap_range_table_from snd]. rewrite zget_middle.
  unfold logging_remover at 1. simpl fst. simpl snd.
  destruct e as [f a v]; simpl.
  rewrite filter_cons. destruct (decide (keeps drop_ _)) as [Hk | Hk];
    unfold keeps in Hk; simpl in Hk.
  - rewrite Hk. simpl. rewrite Z.gtb_ltb, Z.ltb_irrefl. simpl.
    specialize (IH fuel lo (done ++ [RTE f a v]) (log ++ [RTE f a v])).
    rewrite length_app, <- !(assoc_L (++)) in IH. simpl in IH.
    rewrite <- IH by (done || lia). f_equal. lia.
  - destruct (drop_ f a v) eqn:Hd; [| done].
    pose proof (put_range_table_remove_entry _ _ _ _ Hwf) as Hp. simpl in Hp.
    rewrite Hp. simpl. rewrite !length_app. simpl length.
    rewrite Z.gtb_ltb, (proj2 (Z.ltb_lt _ _)) by lia. simpl.
    assert (rt_from lo (done ++ l)) as Hwf'.
    { apply rt_from_split in Hwf as (? & HB & ? & ? & ?). destruct l as [| q l].
      - by rewrite app_nil_r.
      - simpl in *. apply rt_from_split. repeat split; try naive_solver lia.
        eapply Forall_impl; [exact HB |]. simpl. lia. }
    specialize (IH fuel lo done (log ++ [RTE f a v]) Hwf' ltac:(lia)).
    rewrite <- (assoc_L (++)) in IH. simpl in IH.
    destruct l as [| q l].
    + rewrite app_nil_r in *. rewrite zget_None by lia.
      destruct fuel as [| fuel]; [simpl in *; lia |].
      simpl. rewrite zget_None by lia. by rewrite filter_nil, app_nil_r.
    + rewrite zget_middle. rewrite <- IH.
      apply rt_from_split in Hwf as (_ & _ & _ & ? & ? & _). simpl in *.
      rewrite (proj2 (Z.eqb_neq f (rte_first q))) by lia. done.
Qed.

(** when FUNCTION only removes or keeps the range it is given,
    [map-range-table] terminates, calls it exactly once on each original entry,
    in order, and leaves exactly the entries it kept. *)
Theorem map_range_table_visits_once drop_ l fuel :
  rt_wf l -> (length l < fuel)%nat ->
  Fmap_range_table (logging_remover drop_) fuel ([], l)
  = Some (Ok (l, filter (keeps drop_) l)).
Proof.
  rewrite rt_wf_from. intros [lo Hwf] Hfuel.
  exact (map_range_table_from_spec drop_ l fuel lo [] [] Hwf Hfuel).
Qed.

Lemma map_range_table_visits_once_witness :
  let l := [RTE 1 3 Qt; RTE 4 6 (LInt 7); RTE 9 9 Qnil] in
  let drop_ := fun f (_ : Z) (_ : Lisp_Object) => f <? 5 in
  (rt_wf l /\ (length l < 4)%nat) /\
  Fmap_range_table (logging_remover drop_) 4 ([], l) = Some (Ok (l, filter (keeps drop_) l)).
Proof.
  split; [split; [vm_compute; reflexivity | simpl; lia] |].
  apply map_range_table_visits_once; [vm_compute; reflexivity | simpl; lia].
Defined.

(** A FUNCTION that stores one value over each range it is given. *)
Definition logging_putter (v : Lisp_Object) (first last : Z) (val : Lisp_Object)
    (st : list range_table_entry * list range_table_entry) :=
  match put_range_table st.2 first last v with
  | Some rt => Ok (st.1 ++ [RTE first last val], rt)
  | None => Err (Qerror "broken table")
  end.

(** Modifying the current entry so that it coalesces with the next one makes
    the mapping process the merged range again: position 1 is seen twice and
    the entry (2 . 2) never on its own. *)
Example map_range_table_revisits :
  Fmap_range_table (logging_putter Qt) 9 ([], [RTE 1 1 Qnil; RTE 2 2 Qt])
  = Some (Ok ([RTE 1 1 Qnil; RTE 1 2 Qt], [RTE 1 2 Qt])).
Proof. vm_compute. reflexivity. Qed.

(** ** Unified range tables

    The table as one relocatable block of bytes, with the layout of an LP64
    machine: [EMACS_INT] and [Lisp_Object] are 8 bytes with alignment 8, [int]
    is 4 bytes; a [range_table_entry] is 24 bytes and the [int] of a
    [unified_range_table] is followed by 4 bytes of padding, which are never
    written.  An address is an integer, a block its address and its bytes. *)

Definition ALIGN_SIZE (len unit : Z) : Z := ((len + unit - 1) / unit) * unit.

Definition sizeof_entry : Z := 24.
Definition sizeof_unified : Z := 32.
Definition ALIGNOF_EMACS_INT : Z := 8.

Section Unified.
(** How a [Lisp_Object] is laid out as a machine word. *)
Variable word_of : Lisp_Object -> Z.
Variable object_of : Z -> Lisp_Object.

Definition int64_word (n : Z) : Z := n mod 2 ^ 64.
Definition word_int64 (w : Z) : Z := if w <? 2 ^ 63 then w else w - 2 ^ 64.

Definition encode_entry (e : range_table_entry) : list Z :=
  le_bytes 8 (int64_word (rte_first e)) ++ le_bytes 8 (int64_word (rte_last e))
  ++ le_bytes 8 (word_of (rte_val e)).

Definition decode_entry (bs : list Z) : range_table_entry :=
  RTE (word_int64 (le_value (take 8 bs)))
      (word_int64 (le_value (take 8 (drop 8 bs))))
      (object_of (le_value (take 8 (drop 16 bs)))).

Fixpoint decode_entries (n : nat) (bs : list Z) : list range_table_entry :=
  match n with
  | O => []
  | S n => decode_entry (take 24 bs) :: decode_entries n (drop 24 bs)
  end.

Definition unified_range_table_bytes_needed (rt : list range_table_entry) : Z :=
  sizeof_entry * (zlen rt - 1) + sizeof_unified + ALIGNOF_EMACS_INT + 4.

Definition unified_range_table_copy_data (rt : list range_table_entry)
    (dest : Z) (mem : list Z) : option (list Z) :=
  let total_needed := unified_range_table_bytes_needed rt in
  let new_dest := ALIGN_SIZE (dest + 4) ALIGNOF_EMACS_INT in
  mem ← mem_write mem 0 [(new_dest - dest) mod 256];
  mem ← mem_write mem 1 [Z.land total_needed 255];
  let total_needed := Z.shiftr total_needed 8 in
  mem ← mem_write mem 2 [Z.land total_needed 255];
  let total_needed := Z.shiftr total_needed 8 in
  mem ← mem_write mem 3 [Z.land total_needed 255];
  let un := new_dest - dest in
  mem ← mem_write mem un (le_bytes 4 (zlen rt));
  mem_write mem (un + 8) (concat (map encode_entry rt)).

Definition unified_range_table_bytes_used (mem : list Z) : option Z :=
  b1 ← zget mem 1; b2 ← zget mem 2; b3 ← zget mem 3;
  Some (b1 + Z.shiftl b2 8 + Z.shiftl b3 16).

Definition align_the_damn_table (unrangetab : Z) (mem : list Z) : option (list Z) :=
  off ← zget mem 0;
  let cur_dest := unrangetab + off in
  if negb (Z.land cur_dest 7 =? 0) then
    used ← unified_range_table_bytes_used mem;
    let count := used - 4 - ALIGNOF_EMACS_INT in
    let new_dest := ALIGN_SIZE (unrangetab + 4) ALIGNOF_EMACS_INT in
    mem ← mem_move mem (new_dest - unrangetab) (cur_dest - unrangetab) count;
    mem_write mem 0 [(new_dest - unrangetab) mod 256]
  else Some mem.

(** The [nentries] field and the array of the table at offset [un]. *)
Definition unified_entries (mem : list Z) (un : Z)
  : option (Z * list range_table_entry) :=
  nb ← mem_read mem un 4;
  let nentries := le_value nb in
  bs ← mem_read mem (un + 8) (sizeof_entry * nentries);
  Some (nentries, decode_entries (Z.to_nat nentries) bs).

Definition unified_range_table_lookup (unrangetab : Z) (mem : list Z) (pos : Z)
    (default : Lisp_Object) : option (Lisp_Object * list Z) :=
  mem ← align_the_damn_table unrangetab mem;
  off ← zget mem 0;
  '(nentries, tab) ← unified_entries mem off;
  v ← get_range_table pos nentries tab default;
  Some (v, mem).

Definition unified_range_table_nentries (unrangetab : Z) (mem : list Z)
  : option (Z * list Z) :=
  mem ← align_the_damn_table unrangetab mem;
  off ← zget mem 0;
  nb ← mem_read mem off 4;
  Some (le_value nb, mem).

Definition unified_range_table_get_range (unrangetab : Z) (mem : list Z)
    (offset : Z) : option (range_table_entry * list Z) :=
  mem ← align_the_damn_table unrangetab mem;
  off ← zget mem 0;
  '(nentries, tab) ← unified_entries mem off;
  if (offset >=? 0) && (offset <? nentries)
  then tab_e ← zget tab offset; Some (tab_e, mem) else None.

(** *** What a block that holds a unified table looks like *)

Definition entry_fits (e : range_table_entry) : Prop :=
  - 2 ^ 63 <= rte_first e < 2 ^ 63 /\ - 2 ^ 63 <= rte_last e < 2 ^ 63 /\
  0 <= word_of (rte_val e) < 2 ^ 64 /\ object_of (word_of (rte_val e)) = rte_val e.

(** At whatever offset the first byte names, the number of entries and their
    images; the next three bytes hold the size of the whole. *)
Definition unified_image (rt : list range_table_entry) (mem : list Z) : Prop :=
  exists off,
    4 <= off <= 11 /\
    unified_range_table_bytes_needed rt <= zlen mem /\
    mem_read mem 0 1 = Some [off] /\
    mem_read mem 1 3 = Some (le_bytes 3 (unified_range_table_bytes_needed rt)) /\
    mem_read mem off 4 = Some (le_bytes 4 (zlen rt)) /\
    mem_read mem (off + 8) (sizeof_entry * zlen rt)
      = Some (concat (map encode_entry rt)).

(** A sequence of lookups, the block having moved to a new address before
    each of them. *)
Fixpoint unified_lookups (queries : list (Z * Z * Lisp_Object)) (mem : list Z)
  : option (list Lisp_Object) :=
  match queries with
  | [] => Some []
  | (addr, pos, d) :: queries =>
      '(v, mem) ← unified_range_table_lookup addr mem pos d;
      vs ← unified_lookups queries mem;
      Some (v :: vs)
  end.

Lemma word_int64_word n : - 2 ^ 63 <= n < 2 ^ 63 -> word_int64 (int64_word n) = n.
Proof.
  unfold word_int64, int64_word. intros Hn.
  change (2 ^ 63) with 9223372036854775808 in *.
  change (2 ^ 64) with 18446744073709551616 in *.
  pose proof (Z.mod_pos_bound n 18446744073709551616).
  pose proof (Z.div_mod n 18446744073709551616). zcase.
Qed.

Lemma int64_word_range n : 0 <= int64_word n < 256 ^ Z.of_nat 8.
Proof. apply Z.mod_pos_bound. done. Qed.

Lemma length_encode_entry e : length (encode_entry e) = 24%nat.
Proof. unfold encode_entry. by rewrite !length_app, !length_le_bytes. Qed.

Lemma decode_encode_entry e : entry_fits e -> decode_entry (encode_entry e) = e.
Proof.
  intros (H1 & H2 & H3 & H4). unfold decode_entry, encode_entry.
  rewrite take_app_exact by (by rewrite length_le_bytes).
  rewrite drop_app_exact by (by rewrite length_le_bytes).
  rewrite take_app_exact by (by rewrite length_le_bytes).
  rewrite (assoc_L (++)). rewrite drop_app_exact
    by (by rewrite length_app, !length_le_bytes).
  rewrite take_ge by (by rewrite length_le_bytes).
  rewrite !le_value_bytes by (apply int64_word_range || done).
  rewrite !word_int64_word, H4 by done. by destruct e.
Qed.

Lemma length_encode_entries l : zlen (concat (map encode_entry l)) = 24 * zlen l.
Proof.
  induction l as [| e l IH]; [done |]. cbn [map concat length].
  rewrite length_app, length_encode_entry. lia.
Qed.

Lemma decode_encode_entries l :
  Forall entry_fits l -> decode_entries (length l) (concat (map encode_entry l)) = l.
Proof.
  induction 1 as [| e l He ? IH]; [done |]. cbn [map concat length decode_entries].
  rewrite take_app_exact, drop_app_exact by (by rewrite length_encode_entry).
  by rewrite decode_encode_entry, IH.
Qed.

Lemma align_range a : 4 <= ALIGN_SIZE (a + 4) ALIGNOF_EMACS_INT - a <= 11
  /\ Z.land (ALIGN_SIZE (a + 4) ALIGNOF_EMACS_INT) 7 = 0.
Proof.
  unfold ALIGN_SIZE, ALIGNOF_EMACS_INT.
  change 7 with (Z.ones 3). rewrite Z.land_ones by lia. change (2 ^ 3) with 8.
  rewrite Z.mod_mul by lia.
  pose proof (Z.div_mod (a + 4 + 8 - 1) 8). pose proof (Z.mod_pos_bound (a + 4 + 8 - 1) 8).
  lia.
Qed.

Lemma total_bytes w :
  [Z.land w 255; Z.land (Z.shiftr w 8) 255; Z.land (Z.shiftr (Z.shiftr w 8) 8) 255]
  = le_bytes 3 w.
Proof.
  change 255 with (Z.ones 8). rewrite !Z.land_ones, !Z.shiftr_div_pow2 by lia. done.
Qed.

(** Copying a table into a block that is large enough makes an image of it,
    whatever the address and whatever the block held. *)
Lemma unified_copy_image rt dest mem :
  unified_range_table_bytes_needed rt <= zlen mem ->
  exists mem', unified_range_table_copy_data rt dest mem = Some mem' /\
    unified_image rt mem'.
Proof.
  intros Hlen. unfold unified_range_table_copy_data, unified_image.
  destruct (align_range dest) as [Hoff _].
  set (off := ALIGN_SIZE (dest + 4) ALIGNOF_EMACS_INT - dest) in *.
  set (total := unified_range_table_bytes_needed rt) in *.
  assert (total = 24 * zlen rt + 20) as Htot
    by (unfold total, unified_range_table_bytes_needed, sizeof_entry, sizeof_unified,
          ALIGNOF_EMACS_INT; lia).
  rewrite Z.mod_small by lia.
  edestruct (mem_write_ok mem 0 [off]) as (m1 & E1 & L1); [lia | simpl; lia |].
  edestruct (mem_write_ok m1 1 [Z.land total 255]) as (m2 & E2 & L2); [lia | simpl; lia |].
  edestruct (mem_write_ok m2 2 [Z.land (Z.shiftr total 8) 255]) as (m3 & E3 & L3);
    [lia | simpl; lia |].
  edestruct (mem_write_ok m3 3 [Z.land (Z.shiftr (Z.shiftr total 8) 8) 255])
    as (m4 & E4 & L4); [lia | simpl; lia |].
  edestruct (mem_write_ok m4 off (le_bytes 4 (zlen rt))) as (m5 & E5 & L5);
    [lia | rewrite length_le_bytes; lia |].
  edestruct (mem_write_ok m5 (off + 8) (concat (map encode_entry rt))) as (m6 & E6 & L6);
    [lia | rewrite length_encode_entries; lia |].
  rewrite E1; cbn [mbind option_bind]; rewrite E2; cbn [mbind option_bind].
  rewrite E3; cbn [mbind option_bind]; rewrite E4; cbn [mbind option_bind].
  rewrite E5; cbn [mbind option_bind]. exists m6. split; [done |]. exists off.
  pose proof (length_encode_entries rt). pose proof (length_le_bytes 4 (zlen rt)).
  assert (forall o n, o + n <= 4 -> mem_read m6 o n = mem_read m4 o n) as Hlow.
  { intros. rewrite (mem_read_write_other _ _ _ _ _ _ E6) by lia.
    by rewrite (mem_read_write_other _ _ _ _ _ _ E5) by lia. }
  repeat split; try lia.
  - rewrite Hlow by lia.
    rewrite (mem_read_write_other _ _ _ _ _ _ E4), (mem_read_write_other _ _ _ _ _ _ E3),
      (mem_read_write_other _ _ _ _ _ _ E2) by lia.
    exact (mem_read_write_same _ _ _ _ E1).
  - rewrite Hlow by lia. rewrite <- total_bytes.
    apply (mem_read_app _ 1 1 2 [_] [_; _]); [| apply (mem_read_app _ 2 1 1 [_] [_])].
    + rewrite (mem_read_write_other _ _ _ _ _ _ E4), (mem_read_write_other _ _ _ _ _ _ E3)
        by lia. exact (mem_read_write_same _ _ _ _ E2).
    + rewrite (mem_read_write_other _ _ _ _ _ _ E4) by lia.
      exact (mem_read_write_same _ _ _ _ E3).
    + exact (mem_read_write_same _ _ _ _ E4).
  - rewrite (mem_read_write_other _ _ _ _ _ _ E6) by lia.
    apply mem_read_write_same in E5. by rewrite length_le_bytes in E5.
  - apply mem_read_write_same in E6. by rewrite H in E6.
Qed.

Lemma unified_bytes_used_image rt mem :
  unified_range_table_bytes_needed rt < 2 ^ 24 -> unified_image rt mem ->
  unified_range_table_bytes_used mem = Some (unified_range_table_bytes_needed rt).
Proof.
  intros Ht (off & Hoff & Hl & _ & Hb & _).
  unfold unified_range_table_bytes_used.
  set (total := unified_range_table_bytes_needed rt) in *.
  assert (0 <= total) by (unfold total, unified_range_table_bytes_needed,
    sizeof_entry, sizeof_unified, ALIGNOF_EMACS_INT; lia).
  apply (mem_read_app_inv mem 1 1 2 [_] [_; _]) in Hb as [H1 Hb]; [| done | lia].
  apply (mem_read_app_inv mem 2 1 1 [_] [_]) in Hb as [H2 H3]; [| done | lia].
  change (1 + 1) with 2 in *. change (2 + 1) with 3 in *.
  rewrite (zget_mem_read _ _ _ H1), (zget_mem_read _ _ _ H2), (zget_mem_read _ _ _ H3).
  cbn [mbind option_bind]. rewrite !Z.shiftl_mul_pow2 by lia. f_equal.
  change 8 with (Z.of_nat 8) at 1. change (2 ^ Z.of_nat 8) with 256.
  change (2 ^ 16) with (256 * 256).
  pose proof (le_value_bytes 3 total ltac:(change (256 ^ Z.of_nat 3) with (2 ^ 24); lia)) as E.
  cbn [le_bytes le_value] in E. lia.
Qed.

Lemma unified_align_image rt addr mem :
  unified_range_table_bytes_needed rt < 2 ^ 24 -> unified_image rt mem ->
  exists mem', align_the_damn_table addr mem = Some mem' /\ unified_image rt mem'.
Proof.
  intros Ht Him. pose proof (unified_bytes_used_image rt mem Ht Him) as Hused.
  destruct Him as (off & Hoff & Hl & H0 & Hb & Hn & He).
  unfold align_the_damn_table. rewrite (zget_mem_read _ _ _ H0). cbn [mbind option_bind].
  destruct (negb _); [| eexists; split; [done |]; by exists off].
  rewrite Hused. cbn [mbind option_bind].
  destruct (align_range addr) as [Hnew _].
  set (new := ALIGN_SIZE (addr + 4) ALIGNOF_EMACS_INT - addr) in *.
  replace (addr + off - addr) with off by lia.
  set (total := unified_range_table_bytes_needed rt) in *.
  assert (total = 24 * zlen rt + 20) as Htot
    by (unfold total, unified_range_table_bytes_needed, sizeof_entry, sizeof_unified,
          ALIGNOF_EMACS_INT; lia).
  replace (total - 4 - ALIGNOF_EMACS_INT) with (4 + (4 + 24 * zlen rt))
    by (unfold ALIGNOF_EMACS_INT; lia).
  unfold sizeof_entry in He.
  assert (exists pad, mem_read mem (off + 4) 4 = Some pad) as [pad Hpad].
  { unfold mem_read. zcase. eauto. }
  assert (mem_read mem off (4 + (4 + 24 * zlen rt))
    = Some (le_bytes 4 (zlen rt) ++ pad ++ concat (map encode_entry rt))) as Hr.
  { apply mem_read_app; [done |]. apply mem_read_app; [done |].
    by replace (off + 4 + 4) with (off + 8) by lia. }
  unfold mem_move. rewrite Hr.
  pose proof (mem_read_length _ _ _ _ Hr) as Hlen.
  edestruct (mem_write_ok mem new) as (m1 & E1 & L1); [| | rewrite E1]; [lia | lia |].
  cbn [mbind option_bind]. rewrite Z.mod_small by lia.
  edestruct (mem_write_ok m1 0 [new]) as (m2 & E2 & L2); [| | rewrite E2];
    [lia | simpl; lia |].
  exists m2. split; [done |]. exists new.
  assert (forall o n, 4 <= o -> mem_read m2 o n = mem_read m1 o n) as Hhigh.
  { intros. by rewrite (mem_read_write_other _ _ _ _ _ _ E2) by (simpl; lia). }
  pose proof (mem_read_write_same _ _ _ _ E1) as Hm1. rewrite Hlen in Hm1.
  apply mem_read_app_inv in Hm1 as [Hm1 Hm1']; [| by rewrite length_le_bytes | lia].
  apply mem_read_app_inv in Hm1' as [_ Hm1']; [| by apply mem_read_length in Hpad | lia].
  split; [done |]. split; [lia |]. repeat split.
  - exact (mem_read_write_same _ _ _ _ E2).
  - rewrite (mem_read_write_other _ _ _ _ _ _ E2) by (simpl; lia).
    by rewrite (mem_read_write_other _ _ _ _ _ _ E1) by lia.
  - by rewrite Hhigh by lia.
  - rewrite Hhigh by lia. by replace (new + 8) with (new + 4 + 4) by lia.
Qed.

Lemma unified_entries_image rt mem :
  Forall entry_fits rt -> unified_range_table_bytes_needed rt < 2 ^ 24 ->
  unified_image rt mem ->
  exists off, zget mem 0 = Some off /\ unified_entries mem off = Some (zlen rt, rt).
Proof.
  intros Hf Ht (off & Hoff & Hl & H0 & Hb & Hn & He). exists off.
  split; [by apply zget_mem_read |]. unfold unified_entries. rewrite Hn.
  cbn [mbind option_bind].
  unfold unified_range_table_bytes_needed, sizeof_entry, sizeof_unified,
    ALIGNOF_EMACS_INT in Ht.
  rewrite le_value_bytes by (change (256 ^ Z.of_nat 4) with (2 ^ 32); lia).
  rewrite He. cbn [mbind option_bind]. by rewrite Nat2Z.id, decode_encode_entries.
Qed.

Lemma unified_lookup_image rt addr mem pos d :
  rt_wf rt -> Forall entry_fits rt ->
  unified_range_table_bytes_needed rt < 2 ^ 24 -> unified_image rt mem ->
  exists mem', unified_range_table_lookup addr mem pos d
    = Some (default d (rt_lookup rt pos), mem') /\ unified_image rt mem'.
Proof.
  intros Hwf Hf Ht Him. unfold unified_range_table_lookup.
  destruct (unified_align_image rt addr mem Ht Him) as (m1 & -> & Him1).
  destruct (unified_entries_image rt m1 Hf Ht Him1) as (off & Hoff & Hent).
  cbn [mbind option_bind]. rewrite Hoff. cbn [mbind option_bind]. rewrite Hent.
  cbn [mbind option_bind]. apply rt_wf_from in Hwf as [lo Hwf].
  unfold get_range_table. erewrite get_range_table_loop_spec; [| exact Hwf | lia..|].
  - cbn [mbind option_bind]. eauto.
  - intros i e Hi ?. apply lookup_lt_Some in Hi. lia.
Qed.

(** C3: a table copied into unified format answers every lookup as the table
    itself does, however often and wherever the block of bytes is moved in
    between (each lookup realigns the data in place), with no access outside
    the number of bytes the code asks for; the 24-bit size field bounds it. *)
Theorem unified_lookups_relocatable rt dest mem queries :
  rt_wf rt -> Forall entry_fits rt ->
  unified_range_table_bytes_needed rt < 2 ^ 24 ->
  unified_range_table_bytes_needed rt <= zlen mem ->
  exists mem', unified_range_table_copy_data rt dest mem = Some mem' /\
    unified_lookups queries mem'
    = Some (map (fun '(_, pos, d) => default d (rt_lookup rt pos)) queries).
Proof.
  intros Hwf Hf Ht Hlen.
  destruct (unified_copy_image rt dest mem Hlen) as (mem' & E & Him).
  exists mem'. split; [done |]. clear E. revert mem' Him.
  induction queries as [| [[addr pos] d] queries IH]; intros m Him; [done |].
  cbn [unified_lookups map].
  destruct (unified_lookup_image rt addr m pos d Hwf Hf Ht Him) as (m' & -> & Him').
  cbn [mbind option_bind]. by rewrite (IH m' Him').
Qed.
End Unified.

(** Integers and characters as lisp.h tags them: [n << 1 | 1] and [c << 2 | 2]. *)
Definition tag_word (x : Lisp_Object) : Z :=
  match x with LInt n => n * 2 + 1 | LChar c => c * 4 + 2 | LRec _ a => Zpos a * 4 end.
Definition untag_word (w : Z) : Lisp_Object :=
  if Z.odd w then LInt (w / 2) else LChar (w / 4).

Lemma unified_lookups_relocatable_witness :
  let rt := [RTE 1 3 (LInt 4); RTE (-7 + 12) 9 (LChar 65)] in
  let mem := replicate 80 170 in
  let queries := [(1003, 2, Qnil); (4096, 9, Qnil); (77, 4, Qt)] in
  (rt_wf rt /\ Forall (entry_fits tag_word untag_word) rt /\
   unified_range_table_bytes_needed rt < 2 ^ 24 /\
   unified_range_table_bytes_needed rt <= zlen mem) /\
  exists mem', unified_range_table_copy_data tag_word rt 5 mem = Some mem' /\
    unified_lookups untag_word queries mem'
    = Some (map (fun '(_, pos, d) => default d (rt_lookup rt pos)) queries).
Proof.
  intros rt mem queries.
  assert (rt_wf rt /\ Forall (entry_fits tag_word untag_word) rt /\
   unified_range_table_bytes_needed rt < 2 ^ 24 /\
   unified_range_table_bytes_needed rt <= zlen mem) as (H1 & H2 & H3 & H4).
  { split; [vm_compute; reflexivity |]. split; [| split; vm_compute; congruence].
    repeat constructor; vm_compute; congruence. }
  split; [done |]. by apply unified_lookups_relocatable.
Defined.
