(* ===== verification/ElHash.v ===== *)
(** * Lisp hash tables (src/src/elhash.c)

    Open addressing with linear probing and no tombstones: deleting an entry
    removes and reinserts the rest of its cluster.  A table's slots are a list
    of optional entries of length [size + 1], the last one a sentinel that is
    never occupied; probing past the sentinel wraps to slot 0.  [size_t] is 64
    bits wide; C doubles are IEEE binary64 numbers, computed by SpecFloat.
    [None] as the result of a loop means that it has run out of fuel or left
    the array; the theorems show that neither happens. *)

From Corelib Require Import SpecFloat.
From S2P Require Import Prelude Lisp.
Local Open Scope xe_scope.

(** ** Doubles *)

Definition double := spec_float.
Definition double_of_Z (z : Z) : double := binary_normalize 53 1024 z 0 false.
Definition dmul : double -> double -> double := SFmul 53 1024.
Definition ddiv : double -> double -> double := SFdiv 53 1024.
Definition dadd : double -> double -> double := SFadd 53 1024.

(** The conversion of a double to an integer type, which truncates. *)
Definition Z_of_double (d : double) : Z :=
  match d with
  | S754_finite s m e =>
      let a := if 0 <=? e then Zpos m * 2 ^ e else Zpos m / 2 ^ (- e) in
      if s then - a else a
  | _ => 0
  end.

(** A decimal literal [n / d]. *)
Definition dlit (n d : Z) : double := ddiv (double_of_Z n) (double_of_Z d).

(** ** Table sizes *)

Definition primes : list Z :=
  [ 19; 29; 41; 59; 79; 107; 149; 197; 263; 347; 457; 599; 787; 1031;
    1361; 1777; 2333; 3037; 3967; 5167; 6719; 8737; 11369; 14783;
    19219; 24989; 32491; 42257; 54941; 71429; 92861; 120721; 156941;
    204047; 265271; 344857; 448321; 582821; 757693; 985003; 1280519;
    1664681; 2164111; 2813353; 3657361; 4754591; 6180989; 8035301;
    10445899; 13579681; 17653589; 22949669; 29834603; 38784989;
    50420551; 65546729; 85210757; 110774011; 144006217; 187208107;
    243370577; 316381771; 411296309; 534685237; 695090819; 903618083;
    1174703521; 1527114613; 1985248999; 2580823717; 3355070839 ].

Fixpoint hash_table_size_loop (fuel : nat) (requested_size low high : Z) : option Z :=
  match fuel with
  | O => None
  | S fuel =>
      if high - low >? 1 then
        let mid := (low + high) / 2 in
        p ← zget primes mid;
        if p <? requested_size
        then hash_table_size_loop fuel requested_size mid high
        else hash_table_size_loop fuel requested_size low mid
      else zget primes high
  end.

Definition hash_table_size (requested_size : Z) : option Z :=
  hash_table_size_loop (length primes) requested_size 0 (zlen primes - 1).

Example hash_table_size_20 : hash_table_size 20 = Some 29.
Proof. vm_compute. reflexivity. Qed.
Example hash_table_size_29 : hash_table_size 30 = Some 41.
Proof. vm_compute. reflexivity. Qed.

(** ** Tables *)

Inductive hash_table_weakness :=
| HASH_TABLE_NON_WEAK | HASH_TABLE_KEY_WEAK | HASH_TABLE_VALUE_WEAK
| HASH_TABLE_KEY_VALUE_WEAK | HASH_TABLE_KEY_CAR_WEAK | HASH_TABLE_VALUE_CAR_WEAK
| HASH_TABLE_KEY_CAR_VALUE_WEAK | HASH_TABLE_WEAK.

#[export] Instance hash_table_weakness_eq_dec : EqDecision hash_table_weakness.
Proof. solve_decision. Defined.

Inductive hash_table_test := HASH_TABLE_EQ | HASH_TABLE_EQL | HASH_TABLE_EQUAL.

(** A slot: [None] when its key word is zero. *)
Definition hentry : Type := Lisp_Object * Lisp_Object.

Record Lisp_Hash_Table := mk_hash_table {
  ht_size : Z;
  ht_count : Z;
  ht_rehash_count : Z;
  ht_rehash_size : double;
  ht_rehash_threshold : double;
  ht_golden_ratio : Z;
  ht_hash_function : option (Lisp_Object -> Z);
  ht_test_function : option (Lisp_Object -> Lisp_Object -> bool);
  ht_hentries : list (option hentry);
  ht_weakness : hash_table_weakness;
}.

Definition set_hentries (ht : Lisp_Hash_Table) (l : list (option hentry)) :=
  mk_hash_table (ht_size ht) (ht_count ht) (ht_rehash_count ht) (ht_rehash_size ht)
    (ht_rehash_threshold ht) (ht_golden_ratio ht) (ht_hash_function ht)
    (ht_test_function ht) l (ht_weakness ht).

Definition set_count (ht : Lisp_Hash_Table) (n : Z) :=
  mk_hash_table (ht_size ht) n (ht_rehash_count ht) (ht_rehash_size ht)
    (ht_rehash_threshold ht) (ht_golden_ratio ht) (ht_hash_function ht)
    (ht_test_function ht) (ht_hentries ht) (ht_weakness ht).

Definition KEYS_EQUAL_P (key1 key2 : Lisp_Object)
    (testfun : option (Lisp_Object -> Lisp_Object -> bool)) : bool :=
  EQ key1 key2 || match testfun with Some f => f key1 key2 | None => false end.

(** [compute_hash_table_derived_values]: REHASH_COUNT and GOLDEN_RATIO. *)
Definition compute_rehash_count (size : Z) (threshold : double) : Z :=
  Z_of_double (dmul (double_of_Z size) threshold).
Definition compute_golden_ratio (size : Z) : Z :=
  Z_of_double (dmul (double_of_Z size)
                 (ddiv (dlit 6180339887 10000000000) (double_of_Z 8))).

Definition compute_hash_table_derived_values (ht : Lisp_Hash_Table) : Lisp_Hash_Table :=
  mk_hash_table (ht_size ht) (ht_count ht)
    (compute_rehash_count (ht_size ht) (ht_rehash_threshold ht)) (ht_rehash_size ht)
    (ht_rehash_threshold ht) (compute_golden_ratio (ht_size ht)) (ht_hash_function ht)
    (ht_test_function ht) (ht_hentries ht) (ht_weakness ht).

(** [xnew_array_and_zero (hentry, size + 1)]. *)
Definition clear_hentries (size : Z) : list (option hentry) :=
  replicate (Z.to_nat (size + 1)) None.

Definition make_general_lisp_hash_table (hash_function : option (Lisp_Object -> Z))
    (test_function : option (Lisp_Object -> Lisp_Object -> bool)) (size : Z)
    (rehash_size rehash_threshold : double) (weakness : hash_table_weakness)
  : option Lisp_Hash_Table :=
  let rs := if SFltb (double_of_Z 1) rehash_size then rehash_size else dlit 13 10 in
  let th := if SFltb (double_of_Z 0) rehash_threshold then rehash_threshold
            else if (size >? 4096) && negb (bool_decide (is_Some test_function))
            then dlit 7 10 else dlit 6 10 in
  let size := if size <? 10 then 10 else size in
  sz ← hash_table_size (Z_of_double (dadd (ddiv (double_of_Z size) th) (double_of_Z 1)));
  Some (compute_hash_table_derived_values
          (mk_hash_table sz 0 0 rs th 0 hash_function test_function
             (clear_hentries sz) weakness)).

(** The tables of the three tests; [internal_equal] and [internal_hash] are those
    of src/src/fns.c and elhash.c at depth 0. *)
Section Standard.
Variable internal_equal : Lisp_Object -> Lisp_Object -> bool.
Variable internal_hash : Lisp_Object -> Z.
Variable LISP_HASH : Lisp_Object -> Z.

Definition FLOATP (x : Lisp_Object) : bool := RECORDP x lrecord_float.

Definition lisp_object_eql_equal (obj1 obj2 : Lisp_Object) : bool :=
  EQ obj1 obj2 || (FLOATP obj1 && internal_equal obj1 obj2).

Definition lisp_object_eql_hash (obj : Lisp_Object) : Z :=
  if FLOATP obj then internal_hash obj else LISP_HASH obj.

Definition lisp_object_equal_equal (obj1 obj2 : Lisp_Object) : bool :=
  internal_equal obj1 obj2.

Definition lisp_object_equal_hash (obj : Lisp_Object) : Z := internal_hash obj.

Definition make_standard_lisp_hash_table (test : hash_table_test) (size : Z)
    (rehash_size rehash_threshold : double) (weakness : hash_table_weakness)
  : option Lisp_Hash_Table :=
  let '(hash_function, test_function) :=
    match test with
    | HASH_TABLE_EQ => (None, None)
    | HASH_TABLE_EQL => (Some lisp_object_eql_hash, Some lisp_object_eql_equal)
    | HASH_TABLE_EQUAL => (Some lisp_object_equal_hash, Some lisp_object_equal_equal)
    end in
  make_general_lisp_hash_table hash_function test_function size rehash_size
    rehash_threshold weakness.

Definition make_lisp_hash_table (size : Z) (weakness : hash_table_weakness)
    (test : hash_table_test) : option Lisp_Hash_Table :=
  make_standard_lisp_hash_table test size (double_of_Z (-1)) (double_of_Z (-1)) weakness.
End Standard.

(** ** Probing *)

(** The condition of [LINEAR_PROBING_LOOP]: the slot PROBE refers to after the
    wrap at the sentinel, and what it holds. *)
Definition linear_probe (entries : list (option hentry)) (size p : Z)
  : option (Z * option hentry) :=
  slot ← zget entries p;
  match slot with
  | Some e => Some (p, Some e)
  | None =>
      if p =? size then (slot ← zget entries 0; Some (0, slot)) else Some (p, None)
  end.

(** [LINEAR_PROBING_LOOP (probe, entries, size) if (stop) break;] *)
Fixpoint probe_loop (fuel : nat) (entries : list (option hentry)) (size : Z)
    (stop : hentry -> bool) (p : Z) : option Z :=
  match fuel with
  | O => None
  | S fuel =>
      '(p, slot) ← linear_probe entries size p;
      match slot with
      | None => Some p
      | Some e => if stop e then Some p else probe_loop fuel entries size stop (p + 1)
      end
  end.

Definition probe_fuel (size : Z) : nat := Z.to_nat size + 2.

(** ** Operations on the slots

    [home] is [HASH_CODE], the slot where the probe sequence of a key starts. *)

Section Slots.
Variable home : Lisp_Object -> Z.
Variable size : Z.

(** The loop of [resize_hash_table] and [pdump_reorganize_hash_table]: every
    entry of the old slots goes to the first clear slot of its sequence. *)
Fixpoint reinsert_all (old new_entries : list (option hentry))
  : option (list (option hentry)) :=
  match old with
  | [] => Some new_entries
  | None :: old => reinsert_all old new_entries
  | Some e :: old =>
      p ← probe_loop (probe_fuel size) new_entries size (fun _ => false) (home e.1);
      reinsert_all old (zset new_entries p (Some e))
  end.

(** The outer loop of [remhash_1]. *)
Fixpoint remhash_loop (fuel : nat) (entries : list (option hentry)) (probe : Z)
  : option (list (option hentry)) :=
  match fuel with
  | O => None
  | S fuel =>
      '(probe, slot) ← linear_probe entries size probe;
      match slot with
      | None => Some entries
      | Some e =>
          probe2 ← probe_loop (probe_fuel size) entries size
                     (fun e2 => EQ e2.1 e.1) (home e.1);
          slot2 ← zget entries probe2;
          match slot2 with
          | Some _ => remhash_loop fuel entries (probe + 1)
          | None =>
              remhash_loop fuel (zset (zset entries probe2 (Some e)) probe None)
                (probe + 1)
          end
      end
  end.
End Slots.

Section Tables.
(** The address of an object, by which [eq] tables hash. *)
Variable LISP_HASH : Lisp_Object -> Z.

Definition HASH_CODE (ht : Lisp_Hash_Table) (key : Lisp_Object) : Z :=
  let h := match ht_hash_function ht with Some f => f key | None => LISP_HASH key end in
  ((h * ht_golden_ratio ht) mod 2 ^ 64) mod ht_size ht.

Definition resize_hash_table (ht : Lisp_Hash_Table) (new_size : Z)
  : option Lisp_Hash_Table :=
  let ht' := compute_hash_table_derived_values
    (mk_hash_table new_size (ht_count ht) (ht_rehash_count ht) (ht_rehash_size ht)
       (ht_rehash_threshold ht) (ht_golden_ratio ht) (ht_hash_function ht)
       (ht_test_function ht) (clear_hentries new_size) (ht_weakness ht)) in
  l ← reinsert_all (HASH_CODE ht') new_size (ztake (ht_size ht) (ht_hentries ht))
        (ht_hentries ht');
  Some (set_hentries ht' l).

(** The slots are overwritten in place, all but the sentinel. *)
Definition pdump_reorganize_hash_table (ht : Lisp_Hash_Table) : option Lisp_Hash_Table :=
  l ← reinsert_all (HASH_CODE ht) (ht_size ht) (ztake (ht_size ht) (ht_hentries ht))
        (clear_hentries (ht_size ht));
  Some (set_hentries ht (ztake (ht_size ht) l ++ zdrop (ht_size ht) (ht_hentries ht))).

Definition enlarge_hash_table (ht : Lisp_Hash_Table) : option Lisp_Hash_Table :=
  new_size ← hash_table_size
    (Z_of_double (dmul (double_of_Z (ht_size ht)) (ht_rehash_size ht)));
  resize_hash_table ht new_size.

Definition find_hentry (key : Lisp_Object) (ht : Lisp_Hash_Table) : option Z :=
  probe_loop (probe_fuel (ht_size ht)) (ht_hentries ht) (ht_size ht)
    (fun e => KEYS_EQUAL_P e.1 key (ht_test_function ht)) (HASH_CODE ht key).

Definition Fgethash (key : Lisp_Object) (ht : Lisp_Hash_Table) (default : Lisp_Object)
  : option Lisp_Object :=
  p ← find_hentry key ht;
  slot ← zget (ht_hentries ht) p;
  Some (match slot with None => default | Some e => e.2 end).

Definition Fputhash (key value : Lisp_Object) (ht : Lisp_Hash_Table)
  : option (Lisp_Object * Lisp_Hash_Table) :=
  p ← find_hentry key ht;
  slot ← zget (ht_hentries ht) p;
  match slot with
  | Some e => Some (value, set_hentries ht (zset (ht_hentries ht) p (Some (e.1, value))))
  | None =>
      let ht := set_hentries ht (zset (ht_hentries ht) p (Some (key, value))) in
      let ht := set_count ht (ht_count ht + 1) in
      if ht_count ht >=? ht_rehash_count ht
      then (ht ← enlarge_hash_table ht; Some (value, ht)) else Some (value, ht)
  end.

Definition remhash_1 (ht : Lisp_Hash_Table) (probe : Z) : option Lisp_Hash_Table :=
  let entries := zset (ht_hentries ht) probe None in
  entries ← remhash_loop (HASH_CODE ht) (ht_size ht) (probe_fuel (ht_size ht)) entries
              (probe + 1);
  Some (set_hentries (set_count ht (ht_count ht - 1)) entries).

Definition Fremhash (key : Lisp_Object) (ht : Lisp_Hash_Table)
  : option (Lisp_Object * Lisp_Hash_Table) :=
  p ← find_hentry key ht;
  slot ← zget (ht_hentries ht) p;
  match slot with
  | None => Some (Qnil, ht)
  | Some _ => ht ← remhash_1 ht p; Some (Qt, ht)
  end.

Definition Fclrhash (ht : Lisp_Hash_Table) : Lisp_Hash_Table :=
  set_count (set_hentries ht
    (map (fun _ => None) (ztake (ht_size ht) (ht_hentries ht))
     ++ zdrop (ht_size ht) (ht_hentries ht))) 0.

(** ** Removal of the entries a predicate selects *)

(** The [again] loop at one slot: a removal may move another entry into it. *)
Fixpoint map_remhash_again (predicate : Lisp_Object -> Lisp_Object -> bool) (fuel : nat)
    (ht : Lisp_Hash_Table) (e : Z) : option Lisp_Hash_Table :=
  match fuel with
  | O => None
  | S fuel =>
      slot ← zget (ht_hentries ht) e;
      match slot with
      | None => Some ht
      | Some (key, value) =>
          if predicate key value
          then (ht ← remhash_1 ht e; map_remhash_again predicate fuel ht e)
          else Some ht
      end
  end.

Fixpoint map_remhash_from (predicate : Lisp_Object -> Lisp_Object -> bool) (n : nat)
    (ht : Lisp_Hash_Table) (e : Z) : option Lisp_Hash_Table :=
  match n with
  | O => Some ht
  | S n =>
      ht ← map_remhash_again predicate (length (ht_hentries ht) + 1) ht e;
      map_remhash_from predicate n ht (e + 1)
  end.

Definition elisp_map_remhash (predicate : Lisp_Object -> Lisp_Object -> bool)
    (ht : Lisp_Hash_Table) : option Lisp_Hash_Table :=
  map_remhash_from predicate (Z.to_nat (ht_size ht)) ht 0.

(** ** Weak tables

    The hash tables of the heap by address, each with its [next_weak] link, and
    the head [Vall_weak_hash_tables] of the chain. *)

Record weak_heap := mk_weak_heap {
  wh_tables : gmap positive (Lisp_Hash_Table * Lisp_Object);
  Vall_weak_hash_tables : Lisp_Object;
}.

Definition XHASH_TABLE (h : weak_heap) (x : Lisp_Object)
  : option (positive * Lisp_Hash_Table * Lisp_Object) :=
  match x with
  | LRec lrecord_hash_table a => '(ht, next) ← wh_tables h !! a; Some (a, ht, next)
  | _ => None
  end.

(** The end of [make_general_lisp_hash_table]: a new table [ht] at the fresh
    address [a], which a weak one enters at the head of the chain. *)
Definition enter_hash_table (h : weak_heap) (a : positive) (ht : Lisp_Hash_Table) : weak_heap :=
  if bool_decide (ht_weakness ht = HASH_TABLE_NON_WEAK)
  then mk_weak_heap (<[a := (ht, Qunbound)]> (wh_tables h)) (Vall_weak_hash_tables h)
  else mk_weak_heap (<[a := (ht, Vall_weak_hash_tables h)]> (wh_tables h))
         (LRec lrecord_hash_table a).

(** [Fcopy_hash_table] into the fresh address [a]. *)
Definition Fcopy_hash_table (h : weak_heap) (a : positive) (hash_table : Lisp_Object)
  : option (Lisp_Object * weak_heap) :=
  '(_, ht, next) ← XHASH_TABLE h hash_table;
  Some (LRec lrecord_hash_table a,
    if EQ next Qunbound
    then mk_weak_heap (<[a := (ht, next)]> (wh_tables h)) (Vall_weak_hash_tables h)
    else mk_weak_heap (<[a := (ht, Vall_weak_hash_tables h)]> (wh_tables h))
           (LRec lrecord_hash_table a)).

(** The loop of [prune_weak_hash_tables]; [prev] is the last table kept. *)
Fixpoint prune_chain (marked_p : Lisp_Object -> bool) (fuel : nat) (h : weak_heap)
    (prev hash_table : Lisp_Object) : option weak_heap :=
  match fuel with
  | O => None
  | S fuel =>
      if NILP hash_table then Some h else
      '(a, ht, next) ← XHASH_TABLE h hash_table;
      if negb (marked_p hash_table) then
        h ← (if NILP prev then Some (mk_weak_heap (wh_tables h) next)
             else '(pa, pht, _) ← XHASH_TABLE h prev;
                  Some (mk_weak_heap (<[pa := (pht, next)]> (wh_tables h))
                          (Vall_weak_hash_tables h)));
        prune_chain marked_p fuel h prev next
      else
        ht ← elisp_map_remhash
               (fun key value => negb (marked_p key) || negb (marked_p value)) ht;
        prune_chain marked_p fuel
          (mk_weak_heap (<[a := (ht, next)]> (wh_tables h)) (Vall_weak_hash_tables h))
          hash_table next
  end.

Definition prune_weak_hash_tables (marked_p : Lisp_Object -> bool) (h : weak_heap)
  : option weak_heap :=
  prune_chain marked_p (S (S (size (wh_tables h)))) h Qnil (Vall_weak_hash_tables h).

(** ** Equality *)

Fixpoint hash_table_equal_loop (internal_equal : Lisp_Object -> Lisp_Object -> bool)
    (entries : list (option hentry)) (ht2 : Lisp_Hash_Table) : option bool :=
  match entries with
  | [] => Some true
  | None :: entries => hash_table_equal_loop internal_equal entries ht2
  | Some (key, value) :: entries =>
      value_in_other ← Fgethash key ht2 Qunbound;
      if UNBOUNDP value_in_other || negb (internal_equal value value_in_other)
      then Some false else hash_table_equal_loop internal_equal entries ht2
  end.

(** [same_test] is the comparison of the two test function pointers. *)
Definition hash_table_equal (internal_equal : Lisp_Object -> Lisp_Object -> bool)
    (same_test : bool) (ht1 ht2 : Lisp_Hash_Table) : option bool :=
  if negb same_test || negb (bool_decide (ht_weakness ht1 = ht_weakness ht2)) ||
     negb (ht_count ht1 =? ht_count ht2)
  then Some false
  else hash_table_equal_loop internal_equal (ztake (ht_size ht1) (ht_hentries ht1)) ht2.

End Tables.

(** ** Theory of the slots *)

Definition slot (l : list (option hentry)) (i : Z) : option hentry := mjoin (zget l i).

(** The occupied slots, in order. *)
Definition contents (l : list (option hentry)) : list hentry := omap id l.

(** [x] steps after [p] on the circle of [n] slots. *)
Definition cyc (n p x : Z) : Z := (p + x) mod n.

Lemma slot_zset_eq l i v : 0 <= i < zlen l -> slot (zset l i v) i = v.
Proof. intros. unfold slot. rewrite zget_zset_eq by done. by destruct v. Qed.

Lemma slot_zset_ne l i j v : i <> j -> slot (zset l i v) j = slot l j.
Proof. intros. unfold slot. by rewrite zget_zset_ne. Qed.

Lemma slot_Some_bound l i e : slot l i = Some e -> 0 <= i < zlen l.
Proof.
  unfold slot. destruct (zget l i) eqn:E; [| done]. intros _. by eapply zget_Some_bound.
Qed.

Lemma zget_slot l i : 0 <= i < zlen l -> zget l i = Some (slot l i).
Proof.
  intros. destruct (zget_is_Some l i) as [v E]; [done |].
  unfold slot. rewrite E. by destruct v.
Qed.

Lemma zset_split {A} (l : list A) i x :
  zget l i = Some x ->
  exists l1 l2, l = l1 ++ x :: l2 /\ i = zlen l1 /\ forall y, zset l i y = l1 ++ y :: l2.
Proof.
  intros Hi. pose proof (zget_Some_bound _ _ _ Hi) as Hb.
  rewrite zget_lookup in Hi by lia. apply list_elem_of_split_length in Hi as (l1 & l2 & -> & E).
  exists l1, l2. repeat split; [lia |]. intros y.
  replace i with (zlen l1) by lia. apply zset_middle.
Qed.

Lemma contents_clear l i e :
  slot l i = Some e -> contents l ≡ₚ e :: contents (zset l i None).
Proof.
  intros Hs. pose proof (slot_Some_bound _ _ _ Hs) as Hb.
  pose proof (zget_slot l i Hb) as Hg. rewrite Hs in Hg.
  destruct (zset_split _ _ _ Hg) as (l1 & l2 & -> & -> & Hz). rewrite Hz.
  unfold contents. rewrite !omap_app. simpl. by rewrite Permutation_middle.
Qed.

Lemma contents_fill l i e :
  0 <= i < zlen l -> slot l i = None -> contents (zset l i (Some e)) ≡ₚ e :: contents l.
Proof.
  intros Hb Hs. pose proof (zget_slot l i Hb) as Hg. rewrite Hs in Hg.
  destruct (zset_split _ _ _ Hg) as (l1 & l2 & -> & -> & Hz). rewrite Hz.
  unfold contents. rewrite !omap_app. simpl. by rewrite Permutation_middle.
Qed.

Lemma contents_slot l e : e ∈ contents l <-> exists i, slot l i = Some e.
Proof.
  unfold contents. rewrite list_elem_of_omap. split.
  - intros (o & Ho & He). apply list_elem_of_lookup in Ho as [i Hi].
    exists (Z.of_nat i). unfold slot. rewrite zget_lookup, Nat2Z.id, Hi by lia.
    simpl in He. by subst.
  - intros [i Hs]. pose proof (slot_Some_bound _ _ _ Hs) as Hb.
    pose proof (zget_slot l i Hb) as Hg. rewrite Hs in Hg.
    exists (Some e). split; [| done]. rewrite zget_lookup in Hg by lia.
    eapply list_elem_of_lookup_2; eauto.
Qed.

Lemma contents_length l : (length (contents l) <= length l)%nat.
Proof. induction l as [| [e |] l IH]; simpl in *; unfold contents in *; simpl; lia. Qed.

(** A table with fewer entries than slots has a clear slot. *)
Lemma clear_slot_exists l n :
  zlen l = n + 1 -> 0 <= n -> zlen (contents l) < n ->
  exists c, 0 <= c < n /\ slot l c = None.
Proof.
  intros Hl Hn Hc.
  destruct (decide (Exists (fun i : nat => slot l (Z.of_nat i) = None) (seq 0 (Z.to_nat n))))
    as [HE | HE].
  - apply Exists_exists in HE as (i & Hi & ?). apply elem_of_seq in Hi.
    exists (Z.of_nat i). split; [lia | done].
  - exfalso.
    assert (forall k, (k <= Z.to_nat n)%nat -> length (contents (take k l)) = k) as Hk.
    { induction k as [| k IH]; intros; [done |].
      assert (exists e, l !! k = Some (Some e)) as [e He].
      { destruct (slot l (Z.of_nat k)) as [e |] eqn:E.
        - exists e. pose proof (slot_Some_bound _ _ _ E) as Hb.
          pose proof (zget_slot l _ Hb) as Hg. rewrite E in Hg.
          by rewrite zget_lookup, Nat2Z.id in Hg by lia.
        - exfalso. apply HE, Exists_exists. exists k. split; [| done].
          apply elem_of_seq. lia. }
      rewrite (take_S_r _ _ _ He). unfold contents in *. rewrite omap_app, length_app.
      rewrite IH by lia. simpl. lia. }
    assert (length (contents l) >= Z.to_nat n)%nat; [| lia].
    rewrite <- (take_drop (Z.to_nat n) l). unfold contents in *.
    rewrite omap_app, length_app, Hk by lia. lia.
Qed.

Section Probing.
Variable n : Z.
Hypothesis n_pos : 0 < n.

Implicit Types l : list (option hentry).

Definition slots_wf l : Prop := zlen l = n + 1 /\ slot l n = None.

Lemma cyc_range p x : 0 <= cyc n p x < n.
Proof. apply Z.mod_pos_bound. lia. Qed.

Lemma cyc_0 p : 0 <= p < n -> cyc n p 0 = p.
Proof. intros. unfold cyc. rewrite Z.add_0_r. by apply Z.mod_small. Qed.

Lemma cyc_add p x y : cyc n (cyc n p x) y = cyc n p (x + y).
Proof. unfold cyc. rewrite Z.add_mod_idemp_l by lia. f_equal. lia. Qed.

Lemma cyc_n x : cyc n n x = cyc n 0 x.
Proof. unfold cyc. rewrite Z.add_0_l, <- (Z.mod_add x 1 n) by lia. f_equal. lia. Qed.

Lemma cyc_wrap p x : cyc n p (x + n) = cyc n p x.
Proof. unfold cyc. rewrite <- (Z.mod_add (p + x) 1 n) by lia. f_equal. lia. Qed.

(** Every slot is reached from every other. *)
Lemma cyc_reach p q : 0 <= q < n -> exists x, 0 <= x < n /\ q = cyc n p x.
Proof.
  intros. exists ((q - p) mod n). split; [apply Z.mod_pos_bound; lia |].
  unfold cyc. rewrite Z.add_mod_idemp_r by lia.
  replace (p + (q - p)) with q by lia. by rewrite Z.mod_small.
Qed.

Lemma cyc_inj p x y : 0 <= x < n -> 0 <= y < n -> cyc n p x = cyc n p y -> x = y.
Proof.
  unfold cyc. intros ? ? E.
  pose proof (Z.div_mod (p + x) n). pose proof (Z.div_mod (p + y) n).
  set (a := (p + x) / n) in *. set (b := (p + y) / n) in *.
  assert (x - y = n * (a - b)) by lia. assert (a = b) by nia. nia.
Qed.

(** Where a probe stops. *)
Definition halts l (stop : hentry -> bool) (i : Z) : bool :=
  match slot l i with None => true | Some e => stop e end.

Lemma linear_probe_eq l p :
  slots_wf l -> 0 <= p <= n -> linear_probe l n p = Some (cyc n p 0, slot l (cyc n p 0)).
Proof.
  intros [Hl Hn] Hp. unfold linear_probe. rewrite (zget_slot l p), (zget_slot l 0) by lia.
  cbn [mbind option_bind]. destruct (decide (p = n)) as [-> | Hne].
  - rewrite Hn, Z.eqb_refl. cbn [mbind option_bind].
    by rewrite cyc_n, cyc_0 by lia.
  - rewrite cyc_0 by lia. destruct (slot l p); [done |]. zcase.
Qed.

Lemma cyc_succ p x y : cyc n (cyc n p x + 1) y = cyc n p (x + 1 + y).
Proof.
  unfold cyc. rewrite <- Z.add_assoc, Z.add_mod_idemp_l by lia. f_equal. lia.
Qed.

Lemma probe_loop_spec l stop : slots_wf l -> forall fuel p x,
  0 <= p <= n -> 0 <= x -> (Z.to_nat x < fuel)%nat ->
  halts l stop (cyc n p x) = true ->
  (forall y, 0 <= y < x -> halts l stop (cyc n p y) = false) ->
  probe_loop fuel l n stop p = Some (cyc n p x).
Proof.
  intros Hwf. induction fuel as [| fuel IH]; intros p x Hp Hx Hf Hhalt Hgo; [lia |].
  cbn [probe_loop]. rewrite (linear_probe_eq l p Hwf Hp). cbn [mbind option_bind].
  destruct (decide (x = 0)) as [-> | Hx0].
  - unfold halts in Hhalt. destruct (slot l (cyc n p 0)); [by rewrite Hhalt | done].
  - pose proof (Hgo 0 ltac:(lia)) as H0. unfold halts in H0.
    destruct (slot l (cyc n p 0)) as [e |]; [| done]. rewrite H0.
    pose proof (cyc_range p 0) as Hr.
    rewrite (IH (cyc n p 0 + 1) (x - 1)); try lia.
    + rewrite cyc_succ. f_equal. f_equal. lia.
    + rewrite cyc_succ. by replace (0 + 1 + (x - 1)) with x by lia.
    + intros y ?. rewrite cyc_succ. apply Hgo. lia.
Qed.

(** A probe in a table with a clear slot stops within one turn. *)
Lemma probe_loop_total l stop p :
  slots_wf l -> (exists c, 0 <= c < n /\ slot l c = None) -> 0 <= p < n ->
  exists x, 0 <= x < n /\ probe_loop (probe_fuel n) l n stop p = Some (cyc n p x) /\
    halts l stop (cyc n p x) = true /\
    forall y, 0 <= y < x -> halts l stop (cyc n p y) = false.
Proof.
  intros Hwf (c & Hc & Hs) Hp. destruct (cyc_reach p c Hc) as (m & Hm & ->).
  destruct (z_least (fun x => halts l stop (cyc n p x)) (Z.to_nat m)) as (x & Hx & Hh & Hl).
  { rewrite Z2Nat.id by lia. unfold halts. by rewrite Hs. }
  exists x. split; [lia |]. split; [| done].
  apply probe_loop_spec; try done; unfold probe_fuel; lia.
Qed.
End Probing.

(** ** Well-formed slots: every entry can be found from its home *)

Section Reach.
Variable n : Z.
Variable home : Lisp_Object -> Z.
Variable keq : Lisp_Object -> Lisp_Object -> bool.
Hypothesis n_pos : 0 < n.
Hypothesis home_range : forall k, 0 <= home k < n.
Hypothesis keq_home : forall a b, keq a b = true -> home a = home b.
Hypothesis keq_refl : forall a, keq a a = true.
Hypothesis keq_sym : forall a b, keq a b = keq b a.

Implicit Types (l : list (option hentry)) (es : list hentry).

(** Slot [i] is on the probe sequence of [k], and every slot before it is taken. *)
Definition reachable l (i : Z) (k : Lisp_Object) : Prop :=
  exists x, 0 <= x < n /\ i = cyc n (home k) x /\
    forall y, 0 <= y < x -> slot l (cyc n (home k) y) <> None.

Definition all_reachable l : Prop :=
  forall i e, slot l i = Some e -> reachable l i e.1.

(** No two entries have keys the table considers equal. *)
Fixpoint keys_distinct es : Prop :=
  match es with
  | [] => True
  | e :: es => Forall (fun e' => keq e.1 e'.1 = false) es /\ keys_distinct es
  end.

Lemma keys_distinct_perm es es' : es ≡ₚ es' -> keys_distinct es -> keys_distinct es'.
Proof.
  induction 1 as [| e es es' Hp IH | e1 e2 es | es1 es2 es3 ? IH1 ? IH2]; simpl; auto.
  - intros [HF ?]. split; [by rewrite <- Hp | auto].
  - rewrite !Forall_cons, (keq_sym e1.1). tauto.
Qed.

Lemma keys_distinct_slots l i j e e' :
  keys_distinct (contents l) -> slot l i = Some e -> slot l j = Some e' ->
  keq e.1 e'.1 = true -> i = j.
Proof.
  intros Hd Hi Hj Hk. destruct (decide (i = j)) as [| Hne]; [done | exfalso].
  apply (keys_distinct_perm _ _ (contents_clear _ _ _ Hi)) in Hd as [HF _].
  rewrite Forall_forall in HF. specialize (HF e'). rewrite HF in Hk; [done |].
  apply contents_slot. exists j. by rewrite slot_zset_ne.
Qed.

Lemma find_slot l key :
  slots_wf n l -> all_reachable l -> (exists c, 0 <= c < n /\ slot l c = None) ->
  exists p, probe_loop (probe_fuel n) l n (fun e => keq e.1 key) (home key) = Some p /\
    0 <= p < n /\
    ((exists e, slot l p = Some e /\ keq e.1 key = true) \/
     (slot l p = None /\ reachable l p key /\
      forall e, e ∈ contents l -> keq e.1 key = false)).
Proof.
  intros Hwf Hr Hc.
  destruct (probe_loop_total n n_pos l (fun e => keq e.1 key) (home key) Hwf Hc
              (home_range key)) as (x & Hx & -> & Hh & Hno).
  eexists. split; [done |]. split; [by apply cyc_range |].
  assert (forall y, 0 <= y < x ->
    exists e, slot l (cyc n (home key) y) = Some e /\ keq e.1 key = false) as Hpath.
  { intros y Hy. specialize (Hno y Hy). unfold halts in Hno.
    destruct (slot l _) as [e |]; [by exists e | done]. }
  unfold halts in Hh. destruct (slot l (cyc n (home key) x)) as [e |] eqn:E; [left; eauto |].
  right. split; [done |]. split.
  { exists x. repeat split; try lia. intros y Hy. by destruct (Hpath y Hy) as (e & -> & _). }
  intros e He. apply contents_slot in He as [i Hi].
  destruct (keq e.1 key) eqn:Ek; [exfalso | done].
  destruct (Hr i e Hi) as (x' & Hx' & -> & Hp'). rewrite (keq_home _ _ Ek) in Hi, Hp'.
  destruct (Z.lt_trichotomy x x') as [Hlt | [-> | Hlt]].
  - exact (Hp' x ltac:(lia) E).
  - by rewrite E in Hi.
  - destruct (Hpath x') as (e' & He' & Hf); [lia |]. congruence.
Qed.

Lemma slots_wf_zset l i v : slots_wf n l -> 0 <= i < n -> slots_wf n (zset l i v).
Proof.
  intros [Hl Hn] Hi. split; [by rewrite zlen_zset |]. by rewrite slot_zset_ne by lia.
Qed.

Lemma reachable_fill l p e i k :
  slots_wf n l -> 0 <= p < n -> reachable l i k -> reachable (zset l p (Some e)) i k.
Proof.
  intros [Hl _] Hp (x & Hx & -> & Hy). exists x. repeat split; try lia.
  intros y Hyx. destruct (decide (p = cyc n (home k) y)) as [<- | Hne].
  - by rewrite slot_zset_eq by lia.
  - rewrite slot_zset_ne by done. by apply Hy.
Qed.

Lemma all_reachable_fill l p e :
  slots_wf n l -> 0 <= p < n -> reachable l p e.1 ->
  all_reachable l -> all_reachable (zset l p (Some e)).
Proof.
  intros Hwf Hp Hr Hall i e' Hi. apply reachable_fill; [done | done |].
  destruct (decide (p = i)) as [-> | Hne].
  - rewrite slot_zset_eq in Hi by (destruct Hwf; lia). by injection Hi as <-.
  - rewrite slot_zset_ne in Hi by done. by apply Hall.
Qed.

(** Storing a value under the key already in the slot changes nothing else. *)
Lemma all_reachable_update l p k v v' :
  slots_wf n l -> slot l p = Some (k, v) ->
  all_reachable l -> all_reachable (zset l p (Some (k, v'))).
Proof.
  intros Hwf Hp Hall. pose proof (slot_Some_bound _ _ _ Hp) as Hb.
  assert (0 <= p < n) as Hpn.
  { destruct Hwf as [Hl Hn]. destruct (decide (p = n)) as [-> |]; [congruence | lia]. }
  apply all_reachable_fill; try done. by apply (Hall p (k, v)).
Qed.

Lemma slots_wf_bound l i e : slots_wf n l -> slot l i = Some e -> 0 <= i < n.
Proof.
  intros [Hl Hn] Hi. pose proof (slot_Some_bound _ _ _ Hi).
  destruct (decide (i = n)) as [-> |]; [congruence | lia].
Qed.

(** ** Reinsertion into fresh slots *)

Lemma reinsert_all_spec old l :
  slots_wf n l -> all_reachable l -> zlen (contents old) + zlen (contents l) < n ->
  exists l', reinsert_all home n old l = Some l' /\ slots_wf n l' /\ all_reachable l' /\
    contents l' ≡ₚ contents old ++ contents l.
Proof.
  revert l. induction old as [| [e |] old IH]; intros l Hwf Hr Hc.
  - by exists l.
  - simpl in Hc. cbn [reinsert_all].
    destruct (probe_loop_total n n_pos l (fun _ => false) (home e.1) Hwf)
      as (x & Hx & -> & Hh & Hno); [| done |].
    { destruct Hwf. apply clear_slot_exists; lia. }
    pose proof (cyc_range n n_pos (home e.1) x) as Hp. cbn [mbind option_bind].
    unfold halts in Hh. destruct (slot l (cyc n (home e.1) x)) eqn:E; [done |].
    assert (contents (zset l (cyc n (home e.1) x) (Some e)) ≡ₚ e :: contents l) as Hperm.
    { apply contents_fill; [destruct Hwf; lia | done]. }
    destruct (IH (zset l (cyc n (home e.1) x) (Some e))) as (l' & -> & ? & ? & Hp').
    + by apply slots_wf_zset.
    + apply all_reachable_fill; try done. exists x. repeat split; try lia.
      intros y Hy Hs. specialize (Hno y Hy). unfold halts in Hno. by rewrite Hs in Hno.
    + rewrite Hperm. simpl. lia.
    + exists l'. do 3 (split; [done |]). rewrite Hp', Hperm.
      change (contents (Some e :: old)) with (e :: contents old). simpl.
      by rewrite Permutation_middle.
  - cbn [reinsert_all]. destruct (IH l Hwf Hr) as (l' & ? & ? & ? & ?); [done |].
    by exists l'.
Qed.

(** ** Deletion

    Coordinates: [at_ l x] is the slot [x] steps after the clear slot [c], and
    [hpos k] where the probe sequence of [k] starts.  No sequence crosses [c],
    so in these coordinates nothing wraps. *)

Section Deletion.
Variable c : Z.
Hypothesis c_range : 0 <= c < n.

Definition at_ l (x : Z) : option hentry := slot l (cyc n c x).
Definition hpos (k : Lisp_Object) : Z := (home k - c) mod n.

Lemma hpos_range k : 0 <= hpos k < n.
Proof. apply Z.mod_pos_bound. lia. Qed.

Lemma home_hpos k : home k = cyc n c (hpos k).
Proof.
  unfold hpos, cyc. rewrite Z.add_mod_idemp_r by lia.
  replace (c + (home k - c)) with (home k) by lia. by rewrite Z.mod_small.
Qed.

Lemma home_at k x : cyc n (home k) x = cyc n c (hpos k + x).
Proof. by rewrite home_hpos, cyc_add. Qed.

Lemma at_0 l : at_ l 0 = slot l c.
Proof. unfold at_. by rewrite cyc_0. Qed.

Lemma at_zset_eq l x v : zlen l = n + 1 -> at_ (zset l (cyc n c x) v) x = v.
Proof. intros. apply slot_zset_eq. pose proof (cyc_range n n_pos c x). lia. Qed.

Lemma at_zset_ne l x y v :
  0 <= x < n -> 0 <= y < n -> x <> y -> at_ (zset l (cyc n c x) v) y = at_ l y.
Proof.
  intros ? ? Hne. apply slot_zset_ne. intros E. by apply (cyc_inj n n_pos) in E.
Qed.

(** The slots [hpos k .. x - 1] are taken, apart from the hole [g]. *)
Definition path_but l (g : Z) (k : Lisp_Object) (x : Z) : Prop :=
  hpos k <= x /\ forall y, hpos k <= y < x -> y <> g -> at_ l y <> None.

Lemma reachable_path l x k :
  slot l c = None -> 0 < x < n -> reachable l (cyc n c x) k <-> path_but l (-1) k x.
Proof.
  intros Hc Hx. pose proof (hpos_range k) as Hh. split.
  - intros (s & Hs & E & Hp). rewrite home_at in E.
    assert (hpos k + s < n) as Hlt.
    { destruct (Z.lt_ge_cases (hpos k + s) n) as [| Hge]; [done | exfalso].
      replace (hpos k + s) with (hpos k + s - n + n) in E by lia.
      rewrite cyc_wrap in E by lia. apply (cyc_inj n n_pos) in E; [| lia | lia].
      apply (Hp (n - hpos k)); [lia |]. rewrite home_at.
      replace (hpos k + (n - hpos k)) with (0 + n) by lia.
      rewrite cyc_wrap, cyc_0 by lia. exact Hc. }
    apply (cyc_inj n n_pos) in E; [| lia | lia].
    split; [lia |]. intros y Hy _. unfold at_.
    specialize (Hp (y - hpos k) ltac:(lia)). rewrite home_at in Hp.
    by replace (hpos k + (y - hpos k)) with y in Hp by lia.
  - intros [Hle Hp]. exists (x - hpos k). split; [lia |]. split.
    + rewrite home_at. f_equal. lia.
    + intros y Hy. rewrite home_at. apply Hp; lia.
Qed.

(** The state of the loop of [remhash_1] when it looks at [x], with a hole at
    [g]: what lies before [x] is in order, the rest is but for the hole. *)
Record hole_inv l (g x : Z) : Prop := {
  hole_wf : slots_wf n l;
  hole_clear : slot l c = None;
  hole_range : 0 < g < x;
  hole_end : x <= n;
  hole_at : at_ l g = None;
  hole_full : forall y, g < y < x -> at_ l y <> None;
  hole_before : forall y e, 0 < y < x -> at_ l y = Some e -> path_but l (-1) e.1 y;
  hole_after : forall y e, x <= y < n -> at_ l y = Some e -> path_but l g e.1 y;
  hole_distinct : keys_distinct (contents l);
}.

Lemma cyc_slot l i e :
  slots_wf n l -> slot l c = None -> slot l i = Some e ->
  exists x, 0 < x < n /\ i = cyc n c x.
Proof.
  intros Hwf Hc Hi. pose proof (slots_wf_bound _ _ _ Hwf Hi) as Hb.
  destruct (cyc_reach n n_pos c i Hb) as (x & Hx & ->). exists x. split; [| done].
  destruct (decide (x = 0)) as [-> |]; [| lia].
  rewrite cyc_0 in Hi by done. congruence.
Qed.

Lemma all_reachable_paths l :
  slots_wf n l -> slot l c = None ->
  all_reachable l <-> forall y e, 0 < y < n -> at_ l y = Some e -> path_but l (-1) e.1 y.
Proof.
  intros Hwf Hc. split.
  - intros Hall y e Hy He. apply reachable_path; try done. by apply Hall.
  - intros Hall i e Hi. destruct (cyc_slot l i e Hwf Hc Hi) as (x & Hx & ->).
    apply reachable_path; try done. by apply Hall.
Qed.

(** Clearing an entry of a table in order makes a hole. *)
Lemma hole_init l g e :
  slots_wf n l -> slot l c = None -> all_reachable l -> keys_distinct (contents l) ->
  0 < g < n -> at_ l g = Some e -> hole_inv (zset l (cyc n c g) None) g (g + 1).
Proof.
  intros Hwf Hc Hall Hd Hg He. assert (Hl : zlen l = n + 1) by apply Hwf.
  rewrite all_reachable_paths in Hall by done.
  pose proof (cyc_range n n_pos c g) as Hr.
  assert (forall y, 0 <= y < n -> y <> g -> at_ (zset l (cyc n c g) None) y = at_ l y) as Hne.
  { intros y ? ?. apply at_zset_ne; lia. }
  constructor; try done.
  - by apply slots_wf_zset.
  - by rewrite <- at_0, Hne, at_0 by lia.
  - lia.
  - lia.
  - by apply at_zset_eq.
  - intros. lia.
  - intros y e' Hy. destruct (decide (y = g)) as [-> | Hyg]; [by rewrite at_zset_eq |].
    rewrite Hne by lia. intros He'. destruct (Hall y e' ltac:(lia) He') as [Hle Hp].
    pose proof (hpos_range e'.1). split; [done |]. intros z Hz _. rewrite Hne by lia.
    apply Hp; lia.
  - intros y e' Hy. rewrite Hne by lia. intros He'.
    destruct (Hall y e' ltac:(lia) He') as [Hle Hp]. pose proof (hpos_range e'.1).
    split; [done |]. intros z Hz Hzg. rewrite Hne by lia. apply Hp; lia.
  - by apply (keys_distinct_perm _ _ (contents_clear _ _ _ He)) in Hd as [_ Hd].
Qed.

(** An entry past the hole whose sequence starts after it stays. *)
Lemma hole_stay l g x e :
  hole_inv l g x -> x < n -> at_ l x = Some e -> g < hpos e.1 -> hole_inv l g (x + 1).
Proof.
  intros [] Hx He Hh. constructor; try done; try lia.
  - intros y Hy. destruct (decide (y = x)) as [-> |]; [congruence |].
    apply hole_full0. lia.
  - intros y e' Hy He'. destruct (decide (y = x)) as [-> |]; [| apply hole_before0; auto; lia].
    assert (e' = e) as -> by congruence. destruct (hole_after0 x e) as [Hle Hp]; [lia | done |].
    split; [done |]. intros z Hz _. apply Hp; lia.
  - intros y e' Hy. apply hole_after0. lia.
Qed.

(** An entry whose sequence crosses the hole fills it and leaves its own. *)
Lemma hole_move l g x e :
  hole_inv l g x -> x < n -> at_ l x = Some e -> hpos e.1 <= g ->
  let l' := zset (zset l (cyc n c g) (Some e)) (cyc n c x) None in
  hole_inv l' x (x + 1) /\ contents l' ≡ₚ contents l.
Proof.
  intros [] Hx He Hh l'. pose proof (hpos_range e.1) as Hhr.
  assert (Hl : zlen l = n + 1) by apply hole_wf0.
  assert (Hl1 : zlen (zset l (cyc n c g) (Some e)) = n + 1) by (by rewrite zlen_zset).
  pose proof (cyc_range n n_pos c g) as Hrg. pose proof (cyc_range n n_pos c x) as Hrx.
  assert (at_ l' x = None) as Hx'. { by apply at_zset_eq. }
  assert (at_ l' g = Some e) as Hg'.
  { unfold l'. rewrite at_zset_ne by lia. by apply at_zset_eq. }
  assert (forall y, 0 <= y < n -> y <> g -> y <> x -> at_ l' y = at_ l y) as Hne.
  { intros y ? ? ?. unfold l'. by rewrite !at_zset_ne by lia. }
  assert (forall k y, 0 <= hpos k -> y <= x -> path_but l g k y -> path_but l' (-1) k y) as Hpath.
  { intros k y Hk Hyx [Hle Hp]. split; [done |]. intros z Hz _.
    destruct (decide (z = g)) as [-> |]; [congruence |]. rewrite Hne by lia. apply Hp; lia. }
  assert (contents l' ≡ₚ contents l) as Hperm.
  { apply (Permutation_cons_inv (a := e)).
    rewrite <- (contents_fill l (cyc n c g) e) by (done || lia).
    unfold l'. symmetry. apply contents_clear. fold (at_ (zset l (cyc n c g) (Some e)) x).
    by rewrite at_zset_ne by lia. }
  split; [| done]. constructor; try done.
  - by repeat apply slots_wf_zset.
  - by rewrite <- at_0, Hne, at_0 by lia.
  - lia.
  - lia.
  - intros. lia.
  - intros y e' Hy He'. pose proof (hpos_range e'.1) as Hhe'.
    destruct (decide (y = x)) as [-> |]; [congruence |].
    destruct (decide (y = g)) as [-> |].
    + assert (e' = e) as -> by congruence. apply Hpath; [lia | lia |].
      destruct (hole_after0 x e) as [_ Hp]; [lia | done |].
      split; [done |]. intros z ? ?. apply Hp; lia.
    + rewrite Hne in He' by lia. apply Hpath; [lia | lia |].
      destruct (hole_before0 y e') as [Hle Hp]; [lia | done |].
      split; [done |]. intros z ? ?. apply Hp; lia.
  - intros y e' Hy He'. pose proof (hpos_range e'.1) as Hhe'. rewrite Hne in He' by lia.
    destruct (hole_after0 y e') as [Hle Hp]; [lia | done |].
    split; [done |]. intros z Hz Hzx. destruct (decide (z = g)) as [-> |]; [congruence |].
    rewrite Hne by lia. apply Hp; lia.
  - eapply keys_distinct_perm; [| done]. by symmetry.
Qed.

(** Once [x] is clear the hole is not on any sequence. *)
Lemma hole_done l g x :
  hole_inv l g x -> x = n \/ at_ l x = None -> all_reachable l.
Proof.
  intros [] Hx. apply all_reachable_paths; [done | done |]. intros y e Hy He.
  destruct (decide (y < x)) as [| Hyx]; [apply hole_before0; auto; lia |].
  destruct Hx as [-> | Hx]; [lia |].
  destruct (decide (y = x)) as [-> |]; [congruence |].
  destruct (hole_after0 y e) as [Hle Hp]; [lia | done |].
  assert (x < hpos e.1).
  { destruct (Z.lt_ge_cases x (hpos e.1)); [done |]. exfalso. apply (Hp x); [lia | lia | done]. }
  split; [done |]. intros z Hz _. apply Hp; lia.
Qed.

(** The inner probe from the home of the entry at [x] finds the hole, or the
    entry itself. *)
Lemma hole_probe l g x e :
  hole_inv l g x -> x < n -> at_ l x = Some e ->
  probe_loop (probe_fuel n) l n (fun e2 => EQ e2.1 e.1) (home e.1) =
  Some (cyc n c (if hpos e.1 <=? g then g else x)).
Proof.
  intros [] Hx He. pose proof (hpos_range e.1) as Hh.
  destruct (hole_after0 x e) as [Hle Hp]; [lia | done |].
  assert (forall y, hpos e.1 <= y < x -> y <> g ->
    halts l (fun e2 => EQ e2.1 e.1) (cyc n c y) = false) as Hno.
  { intros y Hy Hyg. unfold halts. specialize (Hp y Hy Hyg). unfold at_ in *.
    destruct (slot l (cyc n c y)) as [e' |] eqn:Ee; [| done].
    apply EQ_false. intros Heq. assert (y = x); [| lia].
    apply (cyc_inj n n_pos c); [lia | lia |].
    apply (keys_distinct_slots l _ _ e' e); try done. by rewrite Heq. }
  set (z := if hpos e.1 <=? g then g else x).
  assert (hpos e.1 <= z <= x) as Hz by (unfold z; zcase).
  replace z with (hpos e.1 + (z - hpos e.1)) by lia. rewrite <- home_at.
  apply probe_loop_spec; try done.
  - pose proof (home_range e.1). lia.
  - lia.
  - unfold probe_fuel. lia.
  - rewrite home_at. replace (hpos e.1 + (z - hpos e.1)) with z by lia.
    unfold halts, z. ztest; unfold at_ in *; [by rewrite hole_at0 |].
    rewrite He. apply EQ_refl.
  - intros y Hy. rewrite home_at. apply Hno; [lia |]. unfold z in Hy. zcase.
Qed.

(** A move never takes an entry from the slots at and after the one deleted to
    those before it. *)
Lemma cyc_low g0 g x :
  0 <= g0 <= g -> g < x < n -> cyc n c g < cyc n c g0 -> cyc n c x < cyc n c g0.
Proof.
  intros. assert (forall z, 0 <= z < n -> cyc n c z = if c + z <? n then c + z else c + z - n) as E.
  { intros z Hz. unfold cyc. zcase.
    - rewrite Z.mod_small; lia.
    - rewrite <- (Z.mod_add (c + z) (-1) n), Z.mod_small; lia. }
  rewrite !E in * by lia. zcase.
Qed.

Definition low_all (i : Z) (P : hentry -> Prop) l : Prop :=
  forall s e, 0 <= s < i -> slot l s = Some e -> P e.

Lemma low_all_move P l g0 g x e :
  hole_inv l g x -> x < n -> at_ l x = Some e -> 0 <= g0 <= g ->
  low_all (cyc n c g0) P l ->
  low_all (cyc n c g0) P (zset (zset l (cyc n c g) (Some e)) (cyc n c x) None).
Proof.
  intros [] Hx He Hg Hlow s e' Hs. assert (Hl : zlen l = n + 1) by apply hole_wf0.
  pose proof (cyc_range n n_pos c g) as Hrg. pose proof (cyc_range n n_pos c x) as Hrx.
  destruct (decide (s = cyc n c x)) as [-> | Hsx].
  { by rewrite slot_zset_eq by (rewrite zlen_zset; lia). }
  rewrite slot_zset_ne by done. destruct (decide (s = cyc n c g)) as [-> | Hsg].
  - rewrite slot_zset_eq by lia. intros [= <-]. apply (Hlow (cyc n c x)); [| done].
    split; [lia |]. apply (cyc_low g0 g x); lia.
  - rewrite slot_zset_ne by done. by apply Hlow.
Qed.

Lemma remhash_loop_spec fuel l g0 g x :
  hole_inv l g x -> 0 <= g0 <= g -> (Z.to_nat (n - x) < fuel)%nat ->
  exists l', remhash_loop home n fuel l (cyc n c (x - 1) + 1) = Some l' /\
    slots_wf n l' /\ all_reachable l' /\ contents l' ≡ₚ contents l /\
    forall P, low_all (cyc n c g0) P l -> low_all (cyc n c g0) P l'.
Proof.
  revert l g x. induction fuel as [| fuel IH]; intros l g x Hi Hg0 Hf; [lia |].
  assert (slots_wf n l) as Hwf by apply Hi. assert (x <= n) as Hxn by apply Hi.
  assert (g < x) as Hgx by apply Hi.
  pose proof (cyc_range n n_pos c (x - 1)) as Hr.
  cbn [remhash_loop]. rewrite (linear_probe_eq n n_pos) by (done || lia).
  rewrite cyc_succ by lia. replace (x - 1 + 1 + 0) with x by lia.
  cbn [mbind option_bind]. fold (at_ l x).
  destruct (at_ l x) as [e |] eqn:He.
  2: { exists l. split_and!; try done. apply (hole_done l g x Hi). by right. }
  assert (x < n) as Hx.
  { destruct (decide (x = n)) as [-> |]; [exfalso | lia].
    pose proof (cyc_wrap n n_pos c 0) as Hw. rewrite Z.add_0_l, cyc_0 in Hw by lia.
    pose proof (hole_clear l g _ Hi). unfold at_ in He. congruence. }
  rewrite (hole_probe l g x e Hi Hx He). cbn [mbind option_bind].
  replace (cyc n c x + 1) with (cyc n c (x + 1 - 1) + 1) by (do 2 f_equal; lia).
  pose proof (cyc_range n n_pos c (if hpos e.1 <=? g then g else x)) as Hr2.
  rewrite zget_slot by (destruct Hwf; lia). cbn [mbind option_bind].
  destruct (Z.leb_spec (hpos e.1) g) as [Hle | Hgt].
  - fold (at_ l g). rewrite (hole_at l g x Hi).
    destruct (hole_move l g x e Hi Hx He Hle) as [Hi' Hp'].
    destruct (IH _ _ _ Hi') as (l' & -> & ? & ? & Hp & Hlow); [lia | lia |].
    exists l'. do 3 (split; [done |]). rewrite Hp. split; [done |].
    intros P HP. by apply Hlow, low_all_move.
  - fold (at_ l x). rewrite He. apply (IH l g); [by apply (hole_stay l g x e) | lia | lia].
Qed.
End Deletion.

(** Deleting the entry in slot [i]. *)
Lemma remhash_slots l i e :
  slots_wf n l -> all_reachable l -> keys_distinct (contents l) ->
  (exists c, 0 <= c < n /\ slot l c = None) -> slot l i = Some e ->
  exists l', remhash_loop home n (probe_fuel n) (zset l i None) (i + 1) = Some l' /\
    slots_wf n l' /\ all_reachable l' /\ contents l ≡ₚ e :: contents l' /\
    forall P, low_all i P l -> low_all i P l'.
Proof.
  intros Hwf Hall Hd (c & Hc & Hcl) Hi.
  destruct (cyc_slot c Hc l i e Hwf Hcl Hi) as (g & Hg & ->).
  pose proof (hole_init c Hc l g e Hwf Hcl Hall Hd Hg Hi) as Hh.
  destruct (remhash_loop_spec c Hc (probe_fuel n) _ g _ _ Hh) as (l' & E & ? & ? & Hp & Hlow);
    [lia | unfold probe_fuel; lia |].
  replace (g + 1 - 1) with g in E by lia. exists l'. do 3 (split; [done |]).
  rewrite (contents_clear _ _ _ Hi), Hp. split; [done |]. intros P HP. apply Hlow.
  intros s e' Hs. rewrite slot_zset_ne by lia. by apply HP.
Qed.
End Reach.
