(* ===== verification/HashTables.v ===== *)
(** * Correctness of the hash tables of src/src/elhash.c

    A table is a finite map up to its test: [table_lookup] is the map a
    well-formed table stands for ([ht_wf]).  The operations of [ElHash] are shown
    to implement the corresponding operations on maps, to keep tables
    well-formed and to terminate. *)

From Corelib Require Import SpecFloat.
From S2P Require Import Prelude Lisp ElHash.
Local Open Scope xe_scope.

(** ** Association lists up to a test *)

Section Assoc.
Variable keq : Lisp_Object -> Lisp_Object -> bool.
Hypothesis keq_sym : forall a b, keq a b = keq b a.
Hypothesis keq_trans : forall a b c, keq a b = true -> keq b c = true -> keq a c = true.

Fixpoint assoc (es : list hentry) (key : Lisp_Object) : option Lisp_Object :=
  match es with
  | [] => None
  | e :: es => if keq e.1 key then Some e.2 else assoc es key
  end.

Lemma assoc_perm es es' key :
  es ≡ₚ es' -> keys_distinct keq es -> assoc es key = assoc es' key.
Proof.
  induction 1 as [| e es es' Hp IH | e1 e2 es | es1 es2 es3 Hp1 IH1 Hp2 IH2]; simpl.
  - done.
  - intros [_ Hd]. by rewrite IH.
  - intros [HF _]. apply Forall_inv in HF.
    destruct (keq e1.1 key) eqn:E1, (keq e2.1 key) eqn:E2; try done.
    rewrite (keq_trans e2.1 key e1.1) in HF; [done | done | by rewrite keq_sym].
  - intros Hd. rewrite IH1, IH2; try done. by eapply keys_distinct_perm.
Qed.

Lemma assoc_None es key : assoc es key = None <-> Forall (fun e => keq e.1 key = false) es.
Proof.
  induction es as [| e es IH]; simpl; [done |]. rewrite Forall_cons.
  destruct (keq e.1 key); [naive_solver | tauto].
Qed.

Lemma assoc_elem es e key :
  keys_distinct keq es -> e ∈ es -> keq e.1 key = true -> assoc es key = Some e.2.
Proof.
  intros Hd He Hk. apply list_elem_of_split in He as (l1 & l2 & ->).
  rewrite (assoc_perm _ (e :: l1 ++ l2)); [simpl; by rewrite Hk | | done].
  by rewrite Permutation_middle.
Qed.

Lemma assoc_Some es key v :
  assoc es key = Some v -> exists k, (k, v) ∈ es /\ keq k key = true.
Proof.
  induction es as [| [k w] es IH]; simpl; [done |].
  destruct (keq k key) eqn:E.
  - intros [= <-]. exists k. split; [constructor | done].
  - intros H. destruct (IH H) as (k' & ? & ?). exists k'. split; [by constructor | done].
Qed.

Lemma keys_distinct_cons e es :
  keys_distinct keq (e :: es) <-> assoc es e.1 = None /\ keys_distinct keq es.
Proof.
  simpl. rewrite assoc_None. f_equiv. rewrite !Forall_forall.
  split; intros H x Hx; [rewrite keq_sym | rewrite keq_sym]; by apply H.
Qed.
End Assoc.

(** ** Sizes *)

Definition last_prime : Z := 3355070839.

(** Growing a table always gains room, at every size but the last. *)
Definition growth_ok (rehash_size rehash_threshold : double) : bool :=
  forallb (fun p =>
    let rc := compute_rehash_count p rehash_threshold in
    (0 <? rc) && (rc <=? p) &&
    ((p =? last_prime) ||
     match hash_table_size (Z_of_double (dmul (double_of_Z p) rehash_size)) with
     | Some q => (p <? q) && (rc <? compute_rehash_count q rehash_threshold)
     | None => false
     end)) primes.

(** The number of entries beyond which a table no longer grows. *)
Definition capacity (rehash_threshold : double) : Z :=
  compute_rehash_count last_prime rehash_threshold.

Example growth_ok_default : growth_ok (dlit 13 10) (dlit 6 10) = true.
Proof. vm_compute. reflexivity. Qed.

Example growth_ok_default_large : growth_ok (dlit 13 10) (dlit 7 10) = true.
Proof. vm_compute. reflexivity. Qed.

Example capacity_default : capacity (dlit 6 10) = 2013042503.
Proof. vm_compute. reflexivity. Qed.

Example capacity_default_large : capacity (dlit 7 10) = 2348549587.
Proof. vm_compute. reflexivity. Qed.

Lemma zget_elem {A} (l : list A) i x : zget l i = Some x -> x ∈ l.
Proof.
  intros H. pose proof (zget_Some_bound _ _ _ H). rewrite zget_lookup in H by lia.
  by eapply list_elem_of_lookup_2.
Qed.

Lemma primes_sorted i j p q :
  zget primes i = Some p -> zget primes j = Some q -> i < j -> p < q.
Proof.
  assert (forallb (fun i => forallb (fun j =>
    match zget primes i, zget primes j with
    | Some p, Some q => negb (i <? j) || (p <? q) | _, _ => false end)
    (map Z.of_nat (seq 0 (length primes)))) (map Z.of_nat (seq 0 (length primes))) = true)
    as H by (vm_compute; reflexivity).
  intros Hi Hj Hij. pose proof (zget_Some_bound _ _ _ Hi) as Bi.
  pose proof (zget_Some_bound _ _ _ Hj) as Bj.
  assert (forall k, 0 <= k < zlen primes -> In k (map Z.of_nat (seq 0 (length primes)))) as Hin.
  { intros k Hk. apply in_map_iff. exists (Z.to_nat k). split; [lia |]. apply in_seq. lia. }
  rewrite forallb_forall in H. specialize (H i (Hin i Bi)).
  rewrite forallb_forall in H. specialize (H j (Hin j Bj)).
  rewrite Hi, Hj in H. zcase.
Qed.

(** The binary search narrows to the first size that is large enough. *)
Lemma hash_table_size_loop_spec fuel req low high :
  0 <= low < high -> high < zlen primes -> (Z.to_nat (high - low) <= fuel)%nat ->
  (forall i p, 0 < i <= low -> zget primes i = Some p -> p < req) ->
  (forall p, high < zlen primes - 1 -> zget primes high = Some p -> req <= p) ->
  exists i p, hash_table_size_loop fuel req low high = Some p /\ zget primes i = Some p /\
    0 < i /\ (i < zlen primes - 1 -> req <= p) /\
    forall j q, 0 < j < i -> zget primes j = Some q -> q < req.
Proof.
  revert low high. induction fuel as [| fuel IH]; intros low high Hl Hh Hf Hlo Hhi; [lia |].
  cbn [hash_table_size_loop]. rewrite Z.gtb_ltb. destruct (Z.ltb_spec 1 (high - low)).
  - pose proof (Z.div_mod (low + high) 2). pose proof (Z.mod_pos_bound (low + high) 2).
    set (mid := (low + high) / 2) in *.
    destruct (zget_is_Some primes mid) as [p Hp]; [lia |]. rewrite Hp. cbn [mbind option_bind].
    destruct (Z.ltb_spec p req); apply IH; try lia; try done.
    + intros i q Hi Hq. destruct (decide (i = mid)) as [-> |]; [congruence |].
      pose proof (primes_sorted i mid q p Hq Hp). lia.
    + intros q _ Hq. congruence.
  - destruct (zget_is_Some primes high) as [p Hp]; [lia |].
    exists high, p. split_and!; try done; [lia | by intros; apply Hhi |].
    intros j q Hj Hq. apply (Hlo j); [lia | done].
Qed.

Lemma hash_table_size_spec req :
  exists i p, hash_table_size req = Some p /\ zget primes i = Some p /\
    0 < i /\ (i < zlen primes - 1 -> req <= p) /\
    forall j q, 0 < j < i -> zget primes j = Some q -> q < req.
Proof.
  apply hash_table_size_loop_spec; cbn; lia.
Qed.

Lemma primes_pos p : p ∈ primes -> 0 < p.
Proof.
  intros Hp. assert (forallb (fun p => 0 <? p) primes = true) as H by (vm_compute; reflexivity).
  rewrite forallb_forall in H. specialize (H p). rewrite Z.ltb_lt in H.
  by apply H, list_elem_of_In.
Qed.

Lemma growth_ok_prime rs th p :
  growth_ok rs th = true -> p ∈ primes ->
  0 < compute_rehash_count p th <= p /\
  (p <> last_prime ->
   exists q, hash_table_size (Z_of_double (dmul (double_of_Z p) rs)) = Some q /\
     q ∈ primes /\ p < q /\ compute_rehash_count p th < compute_rehash_count q th).
Proof.
  unfold growth_ok. rewrite forallb_forall. intros H Hp.
  specialize (H p (proj1 (list_elem_of_In _ _) Hp)). cbv beta zeta in H.
  apply andb_prop in H as [H Hq]. apply andb_prop in H as [H1 H2].
  split; [zcase |]. intros Hne. apply orb_prop in Hq as [Hq | Hq]; [zcase |].
  destruct (hash_table_size_spec (Z_of_double (dmul (double_of_Z p) rs)))
    as (i & q & E & Hi & _). rewrite E in Hq. exists q.
  split_and!; [done | by eapply zget_elem | zcase | zcase].
Qed.

#[local] Opaque growth_ok compute_rehash_count compute_golden_ratio hash_table_size primes.

(** ** Well-formed tables *)

Section Tables.
Variable LISP_HASH : Lisp_Object -> Z.

Definition keq_of (ht : Lisp_Hash_Table) (a b : Lisp_Object) : bool :=
  KEYS_EQUAL_P a b (ht_test_function ht).

Definition hash_of (ht : Lisp_Hash_Table) (a : Lisp_Object) : Z :=
  match ht_hash_function ht with Some f => f a | None => LISP_HASH a end.

(** What a table relies on: the test is an equivalence, and equal keys have
    equal hash codes.  It holds of an [eq] table without further ado. *)
Record keys_ok (ht : Lisp_Hash_Table) : Prop := {
  keys_sym : forall a b, keq_of ht a b = keq_of ht b a;
  keys_trans : forall a b c,
    keq_of ht a b = true -> keq_of ht b c = true -> keq_of ht a c = true;
  keys_hash : forall a b, keq_of ht a b = true -> hash_of ht a = hash_of ht b;
}.

Record ht_wf (ht : Lisp_Hash_Table) : Prop := {
  wf_keys : keys_ok ht;
  wf_size : ht_size ht ∈ primes;
  wf_slots : slots_wf (ht_size ht) (ht_hentries ht);
  wf_reach : all_reachable (ht_size ht) (HASH_CODE LISP_HASH ht) (ht_hentries ht);
  wf_distinct : keys_distinct (keq_of ht) (contents (ht_hentries ht));
  wf_count : ht_count ht = zlen (contents (ht_hentries ht));
  wf_rehash_count :
    ht_rehash_count ht = compute_rehash_count (ht_size ht) (ht_rehash_threshold ht);
  wf_room : ht_count ht < ht_rehash_count ht;
  wf_growth : growth_ok (ht_rehash_size ht) (ht_rehash_threshold ht) = true;
}.

(** The map a table stands for. *)
Definition table_lookup (ht : Lisp_Hash_Table) (key : Lisp_Object) : option Lisp_Object :=
  assoc (keq_of ht) (contents (ht_hentries ht)) key.

Lemma keys_ok_eq ht :
  ht_test_function ht = None -> keys_ok ht.
Proof.
  intros E. assert (forall a b, keq_of ht a b = EQ a b) as K.
  { intros. unfold keq_of, KEYS_EQUAL_P. rewrite E. apply orb_false_r. }
  constructor; intros until 0; rewrite !K.
  - unfold EQ. by apply bool_decide_ext.
  - rewrite !EQ_true. by intros -> ->.
  - rewrite EQ_true. by intros ->.
Qed.

Lemma keq_refl ht a : keq_of ht a a = true.
Proof. unfold keq_of, KEYS_EQUAL_P. by rewrite EQ_refl. Qed.

Lemma HASH_CODE_range ht k : 0 < ht_size ht -> 0 <= HASH_CODE LISP_HASH ht k < ht_size ht.
Proof. intros. apply Z.mod_pos_bound. lia. Qed.

Lemma HASH_CODE_keq ht a b :
  keys_ok ht -> keq_of ht a b = true -> HASH_CODE LISP_HASH ht a = HASH_CODE LISP_HASH ht b.
Proof.
  intros Hk Hab. unfold HASH_CODE. fold (hash_of ht a). fold (hash_of ht b).
  by rewrite (keys_hash ht Hk a b).
Qed.

Lemma wf_size_pos ht : ht_wf ht -> 0 < ht_size ht.
Proof. intros []. by apply primes_pos. Qed.

Lemma wf_rehash_le ht : ht_wf ht -> ht_rehash_count ht <= ht_size ht.
Proof. intros []. rewrite wf_rehash_count0. by apply (growth_ok_prime (ht_rehash_size ht)). Qed.

Lemma wf_clear ht : ht_wf ht -> exists c, 0 <= c < ht_size ht /\ slot (ht_hentries ht) c = None.
Proof.
  intros Hwf. pose proof (wf_size_pos _ Hwf). pose proof (wf_rehash_le _ Hwf).
  destruct Hwf as [_ _ [Hl _] _ _ ? _ ?]. apply clear_slot_exists; lia.
Qed.

(** What [find_hentry] finds. *)
Lemma find_hentry_spec ht key :
  ht_wf ht ->
  exists p, find_hentry LISP_HASH key ht = Some p /\ 0 <= p < ht_size ht /\
    zget (ht_hentries ht) p = Some (slot (ht_hentries ht) p) /\
    ((exists e, slot (ht_hentries ht) p = Some e /\ keq_of ht e.1 key = true /\
        table_lookup ht key = Some e.2) \/
     (slot (ht_hentries ht) p = None /\ table_lookup ht key = None /\
      reachable (ht_size ht) (HASH_CODE LISP_HASH ht) (ht_hentries ht) p key)).
Proof.
  intros Hwf. pose proof (wf_size_pos _ Hwf) as Hpos. pose proof (wf_clear _ Hwf) as Hc.
  destruct Hwf as [Hk Hs Hsl Hr Hd _ _ _ _].
  destruct (find_slot (ht_size ht) (HASH_CODE LISP_HASH ht) (keq_of ht) Hpos
    (fun k => HASH_CODE_range ht k Hpos) (fun a b => HASH_CODE_keq ht a b Hk)
    (ht_hentries ht) key Hsl Hr Hc) as (p & E & Hp & Hcase).
  exists p. split; [done |]. split; [done |].
  split; [apply zget_slot; destruct Hsl; lia |].
  destruct Hcase as [(e & He & Hek) | (He & Hre & Hno)]; [left | right].
  - exists e. split_and!; try done. apply assoc_elem; try done.
    + apply Hk.
    + apply Hk.
    + apply contents_slot. eauto.
  - split_and!; try done. apply assoc_None, Forall_forall. intros e' He'. by apply Hno.
Qed.

Lemma Fgethash_spec ht key default :
  ht_wf ht ->
  Fgethash LISP_HASH key ht default =
  Some (match table_lookup ht key with Some v => v | None => default end).
Proof.
  intros Hwf. destruct (find_hentry_spec ht key Hwf) as (p & E & _ & Hg & Hcase).
  unfold Fgethash. rewrite E. cbn [mbind option_bind]. rewrite Hg. cbn [mbind option_bind].
  by destruct Hcase as [(e & -> & _ & ->) | (-> & -> & _)].
Qed.

(** ** Fresh slots and rehashing *)

Lemma slots_wf_clear n : 0 < n -> slots_wf n (clear_hentries n).
Proof.
  intros Hn. unfold clear_hentries. split; [rewrite length_replicate; lia |].
  unfold slot. rewrite zget_lookup by lia. by rewrite lookup_replicate_2 by lia.
Qed.

Lemma contents_clear_hentries n : contents (clear_hentries n) = [].
Proof. unfold clear_hentries, contents. by induction (Z.to_nat (n + 1)). Qed.

Lemma contents_take n l : 0 <= n -> slots_wf n l -> contents (ztake n l) = contents l.
Proof.
  intros Hn [Hl Hs]. rewrite <- (take_drop (Z.to_nat n) l) at 2.
  unfold contents. rewrite omap_app.
  assert (exists x, drop (Z.to_nat n) l = [x]) as [x Hx].
  { assert (length (drop (Z.to_nat n) l) = 1%nat) as E by (rewrite length_drop; lia).
    destruct (drop _ _) as [| x [|]]; try done. by exists x. }
  assert (slot l n = x) as Hn'.
  { unfold slot. rewrite zget_lookup by lia. rewrite <- (Nat.add_0_r (Z.to_nat n)).
    rewrite <- lookup_drop, Hx. by destruct x. }
  rewrite Hx. simpl. rewrite <- Hn', Hs. simpl. by rewrite app_nil_r.
Qed.

Lemma clear_reachable n home : all_reachable n home (clear_hentries n).
Proof.
  intros i e Hi. exfalso. assert (e ∈ contents (clear_hentries n)) as He.
  { apply contents_slot. eauto. }
  rewrite contents_clear_hentries in He. by apply not_elem_of_nil in He.
Qed.

(** The entries of a table survive a change of size. *)
Lemma resize_hash_table_spec ht q :
  0 < ht_size ht -> slots_wf (ht_size ht) (ht_hentries ht) ->
  keys_ok ht -> keys_distinct (keq_of ht) (contents (ht_hentries ht)) ->
  ht_count ht = zlen (contents (ht_hentries ht)) ->
  growth_ok (ht_rehash_size ht) (ht_rehash_threshold ht) = true ->
  q ∈ primes -> ht_count ht < compute_rehash_count q (ht_rehash_threshold ht) ->
  exists ht', resize_hash_table LISP_HASH ht q = Some ht' /\ ht_wf ht' /\
    contents (ht_hentries ht') ≡ₚ contents (ht_hentries ht) /\
    ht_count ht' = ht_count ht /\ ht_test_function ht' = ht_test_function ht /\
    ht_size ht' = q /\ ht_rehash_threshold ht' = ht_rehash_threshold ht.
Proof.
  intros Hpos Hsl Hk Hd Hc Hgr Hq Hroom.
  pose proof (primes_pos q Hq) as Hqpos.
  destruct (growth_ok_prime _ _ q Hgr Hq) as [Hrc _].
  unfold resize_hash_table.
  set (ht1 := compute_hash_table_derived_values _).
  destruct (reinsert_all_spec (ht_size ht1) (HASH_CODE LISP_HASH ht1) Hqpos
    (fun k => HASH_CODE_range ht1 k Hqpos) (ztake (ht_size ht) (ht_hentries ht))
    (ht_hentries ht1)) as (l' & E & Hwf' & Hr' & Hp').
  - by apply slots_wf_clear.
  - apply clear_reachable.
  - unfold ht1. cbn [ht_hentries ht_size compute_hash_table_derived_values].
    rewrite contents_clear_hentries, contents_take by (done || lia). simpl. lia.
  - cbn [ht1 ht_size compute_hash_table_derived_values] in E. rewrite E.
    cbn [mbind option_bind]. eexists. split; [done |].
    unfold ht1 in Hp'. cbn [ht_hentries ht_size compute_hash_table_derived_values] in Hp'.
    rewrite contents_clear_hentries, contents_take, app_nil_r in Hp' by (done || lia).
    split; [| done].
    constructor; cbn [set_hentries ht_size ht_count ht_rehash_count ht_hentries
      ht_rehash_size ht_rehash_threshold ht1 compute_hash_table_derived_values]; try done.
    + by destruct Hk.
    + eapply keys_distinct_perm; [apply Hk | symmetry; exact Hp' | done].
    + by rewrite Hp'.
Qed.

(** ** Insertion *)

Lemma table_lookup_put ht ht' key value es :
  keys_ok ht -> keys_distinct (keq_of ht) (contents (ht_hentries ht')) ->
  ht_test_function ht' = ht_test_function ht ->
  contents (ht_hentries ht') ≡ₚ (key, value) :: es ->
  (forall k, keq_of ht key k = false ->
     assoc (keq_of ht) es k = assoc (keq_of ht) (contents (ht_hentries ht)) k) ->
  forall k, table_lookup ht' k = if keq_of ht key k then Some value else table_lookup ht k.
Proof.
  intros Hk Hd Ht Hp Hes k.
  assert (keq_of ht' = keq_of ht) as Hkeq by (unfold keq_of; by rewrite Ht).
  unfold table_lookup. rewrite Hkeq.
  rewrite (assoc_perm _ (keys_sym _ Hk) (keys_trans _ Hk) _ _ k Hp Hd). simpl.
  destruct (keq_of ht key k) eqn:E; [done |]. by apply Hes.
Qed.

Lemma zset_zset {A} (l : list A) i x y : zset (zset l i x) i y = zset l i y.
Proof. unfold zset. destruct (i <? 0); [done |]. apply list_insert_insert_eq. Qed.

(** Filling slot [p] for [key], where an entry of its key is or goes. *)
Lemma fill_spec ht p key value :
  ht_wf ht -> 0 <= p < ht_size ht -> reachable (ht_size ht) (HASH_CODE LISP_HASH ht) (ht_hentries ht) p key ->
  (forall e, slot (ht_hentries ht) p = Some e -> e.1 = key) ->
  (slot (ht_hentries ht) p = None -> table_lookup ht key = None) ->
  let l' := zset (ht_hentries ht) p (Some (key, value)) in
  exists es, contents l' ≡ₚ (key, value) :: es /\
    contents (ht_hentries ht) ≡ₚ
      (match slot (ht_hentries ht) p with Some e => e :: es | None => es end) /\
    slots_wf (ht_size ht) l' /\ all_reachable (ht_size ht) (HASH_CODE LISP_HASH ht) l' /\
    keys_distinct (keq_of ht) (contents l') /\
    (forall k, keq_of ht key k = false ->
      assoc (keq_of ht) es k = assoc (keq_of ht) (contents (ht_hentries ht)) k).
Proof.
  intros Hwf Hp Hre Hkey Hnone l'. pose proof (wf_size_pos _ Hwf) as Hpos.
  destruct Hwf as [Hk _ Hsl Hr Hd _ _ _ _]. assert (Hlen : zlen (ht_hentries ht) = ht_size ht + 1) by apply Hsl.
  set (l0 := zset (ht_hentries ht) p None). exists (contents l0).
  assert (slot l0 p = None) as Hl0 by (apply slot_zset_eq; lia).
  assert (contents l' ≡ₚ (key, value) :: contents l0) as Hp'.
  { unfold l'. rewrite <- (zset_zset _ p None). apply contents_fill; [| done].
    unfold l0. rewrite zlen_zset. lia. }
  assert (contents (ht_hentries ht) ≡ₚ
    match slot (ht_hentries ht) p with Some e => e :: contents l0 | None => contents l0 end) as Hp0.
  { destruct (slot (ht_hentries ht) p) as [e |] eqn:E; [by apply contents_clear |].
    unfold l0. replace (zset (ht_hentries ht) p None) with (ht_hentries ht); [done |].
    unfold zset. destruct (Z.ltb_spec p 0); [done |]. symmetry. apply list_insert_id.
    pose proof (zget_slot (ht_hentries ht) p ltac:(lia)) as Hg.
    by rewrite zget_lookup, E in Hg by lia. }
  assert (keys_distinct (keq_of ht) ((key, value) :: contents l0) /\
    forall k, keq_of ht key k = false ->
      assoc (keq_of ht) (contents l0) k = assoc (keq_of ht) (contents (ht_hentries ht)) k) as [Hd' Ha].
  { destruct (slot (ht_hentries ht) p) as [e |] eqn:E.
    - specialize (Hkey e eq_refl).
      pose proof (keys_distinct_perm _ (keys_sym _ Hk) _ _ Hp0 Hd) as Hd'.
      destruct e as [k0 v0]. cbn in Hkey. subst k0. split; [exact Hd' |].
      intros k Hkk. rewrite (assoc_perm _ (keys_sym _ Hk) (keys_trans _ Hk) _ _ k Hp0 Hd).
      simpl. by rewrite Hkk.
    - split.
      + apply keys_distinct_cons; [apply Hk |]. split.
        * cbn. rewrite <- (assoc_perm _ (keys_sym _ Hk) (keys_trans _ Hk) _ _ key Hp0 Hd).
          by apply Hnone.
        * eapply keys_distinct_perm; [apply Hk | exact Hp0 | done].
      + intros k _. symmetry. apply assoc_perm; try done; apply Hk. }
  split_and!; try done.
  - by apply slots_wf_zset.
  - by apply all_reachable_fill.
  - eapply keys_distinct_perm; [apply Hk | symmetry; exact Hp' | done].
Qed.

Lemma keq_congr ht a b k : keys_ok ht -> keq_of ht a b = true -> keq_of ht a k = keq_of ht b k.
Proof.
  intros Hk Hab. apply eq_true_iff_eq. split; intros H.
  - apply (keys_trans _ Hk b a k); [by rewrite (keys_sym _ Hk) | done].
  - by apply (keys_trans _ Hk a b k).
Qed.

(** Only the slots and the count differ, and the count is still low. *)
Lemma wf_update ht l c :
  ht_wf ht -> slots_wf (ht_size ht) l -> all_reachable (ht_size ht) (HASH_CODE LISP_HASH ht) l ->
  keys_distinct (keq_of ht) (contents l) -> c = zlen (contents l) -> c < ht_rehash_count ht ->
  ht_wf (set_hentries (set_count ht c) l).
Proof. intros [] ? ? ? -> ?. constructor; try done. by destruct wf_keys0. Qed.

Lemma Fputhash_update ht p k0 v0 key value :
  ht_wf ht -> 0 <= p < ht_size ht -> slot (ht_hentries ht) p = Some (k0, v0) ->
  keq_of ht k0 key = true ->
  let ht' := set_hentries ht (zset (ht_hentries ht) p (Some (k0, value))) in
  ht_wf ht' /\
  forall k, table_lookup ht' k = if keq_of ht key k then Some value else table_lookup ht k.
Proof.
  intros Hwf Hp He Hek ht'. pose proof (wf_keys _ Hwf) as Hk.
  destruct (fill_spec ht p k0 value Hwf Hp) as (es & H1 & H2 & H3 & H4 & H5 & H6).
  - by apply (wf_reach _ Hwf p (k0, v0)).
  - rewrite He. by intros ? [= <-].
  - by rewrite He.
  - rewrite He in H2. split.
    + assert (ht' = set_hentries (set_count ht (ht_count ht))
        (zset (ht_hentries ht) p (Some (k0, value)))) as -> by done.
      apply wf_update; try done; [| by destruct Hwf].
      rewrite (wf_count _ Hwf), H1, H2. done.
    + intros k. rewrite <- (keq_congr ht k0 key k Hk Hek).
      by apply (table_lookup_put ht ht' k0 value es).
Qed.

(** [enlarge_hash_table], when the table that fills up is not the largest. *)
Lemma enlarge_hash_table_spec ht :
  keys_ok ht -> ht_size ht ∈ primes -> slots_wf (ht_size ht) (ht_hentries ht) ->
  keys_distinct (keq_of ht) (contents (ht_hentries ht)) ->
  ht_count ht = zlen (contents (ht_hentries ht)) ->
  growth_ok (ht_rehash_size ht) (ht_rehash_threshold ht) = true ->
  ht_size ht <> last_prime ->
  ht_count ht <= compute_rehash_count (ht_size ht) (ht_rehash_threshold ht) ->
  exists ht', enlarge_hash_table LISP_HASH ht = Some ht' /\ ht_wf ht' /\
    contents (ht_hentries ht') ≡ₚ contents (ht_hentries ht) /\
    ht_count ht' = ht_count ht /\ ht_test_function ht' = ht_test_function ht /\
    ht_size ht < ht_size ht' /\ ht_rehash_threshold ht' = ht_rehash_threshold ht.
Proof.
  intros Hk Hs Hsl Hd Hc Hg Hne Hle. pose proof (primes_pos _ Hs).
  destruct (growth_ok_prime _ _ _ Hg Hs) as [_ Hq].
  destruct (Hq Hne) as (q & E & Hqp & Hlt & Hrc).
  destruct (resize_hash_table_spec ht q) as (ht' & Er & ? & ? & ? & ? & Hsz & ?); try done; [lia |].
  exists ht'. unfold enlarge_hash_table. rewrite E. cbn [mbind option_bind].
  rewrite Hsz. by split_and!.
Qed.

Lemma Fputhash_spec ht key value :
  ht_wf ht -> ht_count ht + 1 < capacity (ht_rehash_threshold ht) ->
  exists ht', Fputhash LISP_HASH key value ht = Some (value, ht') /\ ht_wf ht' /\
    ht_test_function ht' = ht_test_function ht /\
    ht_rehash_threshold ht' = ht_rehash_threshold ht /\
    (forall k, table_lookup ht' k = if keq_of ht key k then Some value else table_lookup ht k) /\
    ht_count ht' =
      match table_lookup ht key with Some _ => ht_count ht | None => ht_count ht + 1 end.
Proof.
  intros Hwf Hcap. destruct (find_hentry_spec ht key Hwf) as (p & E & Hp & Hg & Hcase).
  pose proof (wf_keys _ Hwf) as Hk.
  unfold Fputhash. rewrite E. cbn [mbind option_bind]. rewrite Hg. cbn [mbind option_bind].
  destruct Hcase as [([k0 v0] & He & Hek & Hlook) | (He & Hlook & Hre)]; rewrite He, Hlook.
  { destruct (Fputhash_update ht p k0 v0 key value) as [? ?]; try done. eauto 10. }
  destruct (fill_spec ht p key value Hwf Hp Hre) as (es & H1 & H2 & H3 & H4 & H5 & H6);
    [by rewrite He | done |].
  rewrite He in H2. set (l' := zset _ _ _) in *. cbv zeta.
  set (ht1 := set_count (set_hentries ht l') (ht_count (set_hentries ht l') + 1)).
  assert (ht_count ht1 = ht_count ht + 1) as Hc1 by done.
  assert (zlen (contents l') = ht_count ht + 1) as Hlen.
  { rewrite H1, (wf_count _ Hwf), H2. simpl. lia. }
  pose proof (wf_room _ Hwf) as Hroom.
  rewrite Z.geb_leb. destruct (Z.leb_spec (ht_rehash_count ht1) (ht_count ht1)) as [Hfull | Hroom'].
  - assert (ht_rehash_count ht1 = ht_rehash_count ht) as Hrc by done.
    destruct (enlarge_hash_table_spec ht1) as (ht' & -> & Hwf' & Hp' & Hc' & Ht' & _ & Hth).
    + by destruct Hk.
    + by destruct Hwf.
    + done.
    + done.
    + rewrite Hc1. symmetry. exact Hlen.
    + by destruct Hwf.
    + intros Hlast. change (ht_size ht1) with (ht_size ht) in Hlast.
      rewrite Hrc, Hc1, (wf_rehash_count _ Hwf), Hlast in Hfull. unfold capacity in Hcap. lia.
    + change (compute_rehash_count (ht_size ht1) (ht_rehash_threshold ht1))
        with (compute_rehash_count (ht_size ht) (ht_rehash_threshold ht)).
      rewrite <- (wf_rehash_count _ Hwf). lia.
    + exists ht'. cbn [mbind option_bind]. split_and!; try done.
      apply (table_lookup_put ht ht' key value es); try done.
      * eapply keys_distinct_perm; [apply Hk | symmetry; exact Hp' | done].
      * rewrite Hp'. exact H1.
  - exists ht1. split_and!; try done.
    + apply (wf_update ht l' (ht_count ht + 1)); try done.
    + by apply (table_lookup_put ht ht1 key value es).
Qed.

(** ** Deletion *)

(** [remhash_1] on an occupied slot. *)
Lemma remhash_1_spec ht p e :
  ht_wf ht -> slot (ht_hentries ht) p = Some e ->
  exists ht', remhash_1 LISP_HASH ht p = Some ht' /\ ht_wf ht' /\
    contents (ht_hentries ht) ≡ₚ e :: contents (ht_hentries ht') /\
    ht_size ht' = ht_size ht /\ ht_test_function ht' = ht_test_function ht /\
    ht_rehash_threshold ht' = ht_rehash_threshold ht /\ ht_weakness ht' = ht_weakness ht /\
    ht_count ht' = ht_count ht - 1 /\
    forall P, low_all p P (ht_hentries ht) -> low_all p P (ht_hentries ht').
Proof.
  intros Hwf He. pose proof (wf_size_pos _ Hwf) as Hpos. pose proof (wf_clear _ Hwf) as Hc.
  destruct (remhash_slots (ht_size ht) (HASH_CODE LISP_HASH ht) (keq_of ht) Hpos
    (fun k => HASH_CODE_range ht k Hpos) (keq_refl ht) (keys_sym _ (wf_keys _ Hwf))
    (ht_hentries ht) p e (wf_slots _ Hwf) (wf_reach _ Hwf) (wf_distinct _ Hwf) Hc He)
    as (l' & E & Hsl & Hr & Hp & Hlow).
  unfold remhash_1. rewrite E. cbn [mbind option_bind]. eexists. split; [done |].
  split; [| done].
  assert (ht_count ht = zlen (contents l') + 1) as Hcount.
  { rewrite (wf_count _ Hwf), Hp. simpl. lia. }
  apply wf_update; try done; [| lia | pose proof (wf_room _ Hwf); lia].
  pose proof (keys_distinct_perm _ (keys_sym _ (wf_keys _ Hwf)) _ _ Hp (wf_distinct _ Hwf)) as Hd.
  by destruct Hd.
Qed.

Lemma Fremhash_spec ht key :
  ht_wf ht ->
  exists r ht', Fremhash LISP_HASH key ht = Some (r, ht') /\ ht_wf ht' /\
    r = (match table_lookup ht key with Some _ => Qt | None => Qnil end) /\
    ht_test_function ht' = ht_test_function ht /\
    ht_rehash_threshold ht' = ht_rehash_threshold ht /\
    (forall k, table_lookup ht' k = if keq_of ht key k then None else table_lookup ht k) /\
    ht_count ht' <= ht_count ht.
Proof.
  intros Hwf. destruct (find_hentry_spec ht key Hwf) as (p & E & Hp & Hg & Hcase).
  pose proof (wf_keys _ Hwf) as Hk.
  unfold Fremhash. rewrite E. cbn [mbind option_bind]. rewrite Hg. cbn [mbind option_bind].
  destruct Hcase as [([k0 v0] & He & Hek & Hlook) | (He & Hlook & Hre)]; rewrite He, Hlook.
  - destruct (remhash_1_spec ht p _ Hwf He)
      as (ht' & -> & Hwf' & Hp' & _ & Ht & Hth & _ & Hc & _).
    exists Qt, ht'. cbn [mbind option_bind]. split_and!; try done; [| lia].
    intros k. assert (keq_of ht' = keq_of ht) as Hkeq by (unfold keq_of; by rewrite Ht).
    pose proof (keys_distinct_perm _ (keys_sym _ Hk) _ _ Hp' (wf_distinct _ Hwf)) as Hd.
    unfold table_lookup. rewrite Hkeq.
    rewrite (assoc_perm _ (keys_sym _ Hk) (keys_trans _ Hk) _ _ k Hp' (wf_distinct _ Hwf)).
    simpl. rewrite (keq_congr ht k0 key k Hk Hek).
    destruct (keq_of ht key k) eqn:Ek; [| done].
    destruct Hd as [HF _]. apply assoc_None. rewrite Forall_forall in HF |- *.
    intros e' He'. specialize (HF e' He'). cbn in HF.
    rewrite (keys_sym _ Hk), <- (keq_congr ht key k _ Hk Ek), <- HF.
    symmetry. by apply keq_congr.
  - exists Qnil, ht. split_and!; try done. intros k.
    destruct (keq_of ht key k) eqn:Ek; [| done]. unfold table_lookup in *.
    apply assoc_None. rewrite assoc_None, Forall_forall in Hlook. apply Forall_forall.
    intros e' He'. specialize (Hlook e' He').
    by rewrite (keys_sym _ Hk), <- (keq_congr ht key k _ Hk Ek), (keys_sym _ Hk).
Qed.

Lemma Fclrhash_spec ht :
  ht_wf ht -> ht_wf (Fclrhash ht) /\ forall k, table_lookup (Fclrhash ht) k = None.
Proof.
  intros Hwf. pose proof (wf_size_pos _ Hwf) as Hpos. pose proof (wf_slots _ Hwf) as [Hl Hn].
  assert (ht_hentries (Fclrhash ht) = clear_hentries (ht_size ht)) as E.
  { cbn. pose proof (contents_take (ht_size ht) (ht_hentries ht)).
    unfold clear_hentries. apply list_eq. intros i.
    destruct (decide (i < Z.to_nat (ht_size ht))%nat) as [Hi | Hi].
    - rewrite lookup_app_l by (rewrite length_map, length_take; lia).
      rewrite lookup_replicate_2 by lia. rewrite list_lookup_fmap, lookup_take_lt by lia.
      destruct (lookup_lt_is_Some_2 (ht_hentries ht) i) as [x ->]; [lia | done].
    - rewrite lookup_app_r by (rewrite length_map, length_take; lia).
      rewrite length_map, length_take, lookup_drop.
      destruct (decide (i = Z.to_nat (ht_size ht))) as [-> |].
      + rewrite lookup_replicate_2 by lia. unfold slot in Hn. rewrite zget_lookup in Hn by lia.
        replace (Z.to_nat (ht_size ht) + _)%nat with (Z.to_nat (ht_size ht)) by lia.
        destruct (lookup_lt_is_Some_2 (ht_hentries ht) (Z.to_nat (ht_size ht))) as [x Hx];
          [lia |]. rewrite Hx in *. by destruct x.
      + rewrite (lookup_ge_None_2 (ht_hentries ht)) by lia.
        symmetry. apply lookup_replicate_None. lia. }
  assert (contents (ht_hentries (Fclrhash ht)) = []) as Hc.
  { by rewrite E, contents_clear_hentries. }
  split; [| intros k; unfold table_lookup; by rewrite Hc].
  apply (wf_update ht (ht_hentries (Fclrhash ht)) 0); try done.
  - rewrite E. by apply slots_wf_clear.
  - rewrite E. apply clear_reachable.
  - by rewrite Hc.
  - by rewrite Hc.
  - rewrite (wf_rehash_count _ Hwf).
    by apply (growth_ok_prime (ht_rehash_size ht)); destruct Hwf.
Qed.

(** ** Rehashing in place, after the addresses changed *)

Lemma pdump_reorganize_spec ht :
  ht_size ht ∈ primes -> slots_wf (ht_size ht) (ht_hentries ht) ->
  keys_ok ht -> keys_distinct (keq_of ht) (contents (ht_hentries ht)) ->
  ht_count ht = zlen (contents (ht_hentries ht)) ->
  ht_rehash_count ht = compute_rehash_count (ht_size ht) (ht_rehash_threshold ht) ->
  ht_count ht < ht_rehash_count ht ->
  growth_ok (ht_rehash_size ht) (ht_rehash_threshold ht) = true ->
  exists ht', pdump_reorganize_hash_table LISP_HASH ht = Some ht' /\ ht_wf ht' /\
    contents (ht_hentries ht') ≡ₚ contents (ht_hentries ht) /\
    ht_test_function ht' = ht_test_function ht.
Proof.
  intros Hs Hsl Hk Hd Hc Hrc Hroom Hg. pose proof (primes_pos _ Hs) as Hpos.
  destruct (growth_ok_prime _ _ _ Hg Hs) as [Hle _].
  destruct (reinsert_all_spec (ht_size ht) (HASH_CODE LISP_HASH ht) Hpos
    (fun k => HASH_CODE_range ht k Hpos) (ztake (ht_size ht) (ht_hentries ht))
    (clear_hentries (ht_size ht))) as (l' & E & Hwf' & Hr' & Hp').
  { by apply slots_wf_clear. }
  { apply clear_reachable. }
  { rewrite contents_clear_hentries, contents_take by (done || lia). simpl. lia. }
  rewrite contents_clear_hentries, contents_take, app_nil_r in Hp' by (done || lia).
  unfold pdump_reorganize_hash_table. rewrite E. cbn [mbind option_bind].
  assert (ztake (ht_size ht) l' ++ zdrop (ht_size ht) (ht_hentries ht) = l') as ->.
  { destruct Hwf' as [Hl1 Hn1], Hsl as [Hl2 Hn2].
    rewrite <- (take_drop (Z.to_nat (ht_size ht)) l') at 2. f_equal.
    assert (forall l, zlen l = ht_size ht + 1 -> slot l (ht_size ht) = None ->
      zdrop (ht_size ht) l = [None]) as Hdrop; [| by rewrite !Hdrop].
    intros l Hl Hn. pose proof (zget_slot l (ht_size ht) ltac:(lia)) as Hz.
    rewrite Hn, zget_lookup in Hz by lia. rewrite (drop_S _ _ _ Hz).
    by rewrite drop_ge by lia. }
  eexists. split; [done |]. split; [| done].
  constructor; cbn [set_hentries ht_size ht_count ht_rehash_count ht_hentries
    ht_rehash_size ht_rehash_threshold]; try done.
  - by destruct Hk.
  - eapply keys_distinct_perm; [apply Hk | symmetry; exact Hp' | done].
  - by rewrite Hp'.
Qed.

(** ** Removing what a predicate selects *)

Section MapRemhash.
Variable predicate : Lisp_Object -> Lisp_Object -> bool.

Definition keeps (e : hentry) : Prop := predicate e.1 e.2 = false.

#[export] Instance keeps_dec e : Decision (keeps e).
Proof. unfold keeps. apply _. Defined.

(** [ht'] is [ht] less some of the selected entries. *)
Record pruned (ht ht' : Lisp_Hash_Table) : Prop := {
  pruned_wf : ht_wf ht';
  pruned_contents : filter keeps (contents (ht_hentries ht')) ≡ₚ
                    filter keeps (contents (ht_hentries ht));
  pruned_sub : exists removed, contents (ht_hentries ht) ≡ₚ removed ++ contents (ht_hentries ht');
  pruned_size : ht_size ht' = ht_size ht;
  pruned_test : ht_test_function ht' = ht_test_function ht;
  pruned_weakness : ht_weakness ht' = ht_weakness ht;
}.

Lemma pruned_refl ht : ht_wf ht -> pruned ht ht.
Proof. intros. constructor; try done. by exists []. Qed.

Lemma pruned_trans ht1 ht2 ht3 : pruned ht1 ht2 -> pruned ht2 ht3 -> pruned ht1 ht3.
Proof.
  intros [? Hc1 [r1 Hr1] ? ? ?] [? Hc2 [r2 Hr2] ? ? ?]. constructor; try congruence.
  - by rewrite Hc2.
  - exists (r1 ++ r2). by rewrite Hr1, Hr2, (assoc_L (++)).
Qed.

Lemma remhash_1_pruned ht p key value :
  ht_wf ht -> slot (ht_hentries ht) p = Some (key, value) -> predicate key value = true ->
  low_all p keeps (ht_hentries ht) ->
  exists ht', remhash_1 LISP_HASH ht p = Some ht' /\ pruned ht ht' /\
    low_all p keeps (ht_hentries ht') /\ ht_count ht' = ht_count ht - 1.
Proof.
  intros Hwf He Hsel Hlow.
  destruct (remhash_1_spec ht p _ Hwf He) as (ht' & -> & ? & Hp & ? & ? & _ & ? & ? & Hl).
  exists ht'. split; [done |]. split; [| split; [by apply Hl | done]].
  constructor; try done.
  - rewrite Hp, filter_cons_False; [done |]. unfold keeps. cbn. by rewrite Hsel.
  - exists [(key, value)]. by rewrite Hp.
Qed.

Lemma map_remhash_again_spec fuel ht e :
  ht_wf ht -> 0 <= e < ht_size ht -> (Z.to_nat (ht_count ht) < fuel)%nat ->
  low_all e keeps (ht_hentries ht) ->
  exists ht', map_remhash_again LISP_HASH predicate fuel ht e = Some ht' /\ pruned ht ht' /\
    low_all (e + 1) keeps (ht_hentries ht').
Proof.
  revert ht. induction fuel as [| fuel IH]; intros ht Hwf He Hf Hlow; [lia |].
  assert (zlen (ht_hentries ht) = ht_size ht + 1) as Hlen by apply (wf_slots _ Hwf).
  cbn [map_remhash_again]. rewrite zget_slot by lia. cbn [mbind option_bind].
  assert (forall b : bool, (slot (ht_hentries ht) e = None \/ exists x, slot (ht_hentries ht) e = Some x /\ keeps x) ->
    low_all (e + 1) keeps (ht_hentries ht)) as Hstop.
  { intros _ Hs i x Hi Hx. destruct (decide (i = e)) as [-> |]; [| apply (Hlow i x); [lia | done]].
    destruct Hs as [Hs | (y & Hs & Hy)]; congruence. }
  destruct (slot (ht_hentries ht) e) as [[key value] |] eqn:Es.
  2: { exists ht. split; [done |]. split; [by apply pruned_refl | apply (Hstop true); by left]. }
  destruct (predicate key value) eqn:Ep.
  2: { exists ht. split; [done |]. split; [by apply pruned_refl |].
       apply (Hstop true). right. by eexists. }
  destruct (remhash_1_pruned ht e key value Hwf Es Ep Hlow) as (ht1 & -> & Hpr & Hlow1 & Hc1).
  cbn [mbind option_bind].
  assert (0 < ht_count ht) as Hpos.
  { rewrite (wf_count _ Hwf), (contents_clear _ _ _ Es). simpl. lia. }
  destruct (IH ht1) as (ht' & E & Hpr' & Hlow'); try done.
  - apply Hpr.
  - by rewrite (pruned_size _ _ Hpr).
  - lia.
  - exists ht'. split; [done |]. split; [by eapply pruned_trans | done].
Qed.

Lemma map_remhash_from_spec n ht e :
  ht_wf ht -> 0 <= e -> e + Z.of_nat n <= ht_size ht -> low_all e keeps (ht_hentries ht) ->
  exists ht', map_remhash_from LISP_HASH predicate n ht e = Some ht' /\ pruned ht ht' /\
    low_all (e + Z.of_nat n) keeps (ht_hentries ht').
Proof.
  revert ht e. induction n as [| n IH]; intros ht e Hwf He Hn Hlow.
  - exists ht. split; [done |]. split; [by apply pruned_refl |]. by rewrite Z.add_0_r.
  - cbn [map_remhash_from].
    destruct (map_remhash_again_spec (length (ht_hentries ht) + 1) ht e) as (ht1 & -> & Hpr & Hl1);
      try done; [lia | |].
    { rewrite (wf_count _ Hwf). pose proof (contents_length (ht_hentries ht)). lia. }
    cbn [mbind option_bind]. destruct (IH ht1 (e + 1)) as (ht' & -> & Hpr' & Hl').
    + apply Hpr.
    + lia.
    + rewrite (pruned_size _ _ Hpr). lia.
    + done.
    + exists ht'. split; [done |]. split; [by eapply pruned_trans |].
      by replace (e + Z.of_nat (S n)) with (e + 1 + Z.of_nat n) by lia.
Qed.

Lemma elisp_map_remhash_spec ht :
  ht_wf ht ->
  exists ht', elisp_map_remhash LISP_HASH predicate ht = Some ht' /\ pruned ht ht' /\
    contents (ht_hentries ht') ≡ₚ filter keeps (contents (ht_hentries ht)).
Proof.
  intros Hwf. pose proof (wf_size_pos _ Hwf).
  destruct (map_remhash_from_spec (Z.to_nat (ht_size ht)) ht 0) as (ht' & E & Hpr & Hlow);
    try done; [lia | intros ? ? ?; lia |].
  exists ht'. split; [done |]. split; [done |].
  rewrite <- (pruned_contents _ _ Hpr), filter_all; [done |].
  apply Forall_forall. intros e He. apply contents_slot in He as [i Hi].
  apply (Hlow i e); [| done]. pose proof (pruned_wf _ _ Hpr) as Hwf'.
  pose proof (slots_wf_bound _ _ _ _ (wf_slots _ Hwf') Hi).
  rewrite (pruned_size _ _ Hpr) in *. lia.
Qed.
End MapRemhash.

(** ** The chain of weak tables *)

(** The tables [l] are linked from [head] up to [stop]. *)
Fixpoint chain_seg (T : gmap positive (Lisp_Hash_Table * Lisp_Object))
    (head : Lisp_Object) (l : list positive) (stop : Lisp_Object) : Prop :=
  match l with
  | [] => head = stop
  | a :: l => head = LRec lrecord_hash_table a /\
      exists ht next, T !! a = Some (ht, next) /\ chain_seg T next l stop
  end.

Lemma chain_seg_app T (head stop : Lisp_Object) l1 l2 :
  chain_seg T head (l1 ++ l2) stop <-> exists m, chain_seg T head l1 m /\ chain_seg T m l2 stop.
Proof.
  clear LISP_HASH.
  revert head. induction l1 as [| a l1 IH]; intros head; simpl; [naive_solver |].
  setoid_rewrite IH. naive_solver.
Qed.

Lemma chain_seg_insert T (head stop : Lisp_Object) l a x :
  a ∉ l -> chain_seg T head l stop -> chain_seg (<[a := x]> T) head l stop.
Proof.
  clear LISP_HASH.
  revert head. induction l as [| b l IH]; intros head Ha; [done |]. cbn [chain_seg].
  rewrite not_elem_of_cons in Ha. destruct Ha as [Hab Ha].
  intros (-> & ht & next & Hb & Hs). split; [done |]. exists ht, next.
  rewrite lookup_insert_ne by done. eauto.
Qed.

Lemma chain_seg_snoc_insert T head l a ht m :
  a ∉ l -> chain_seg T head l (LRec lrecord_hash_table a) ->
  chain_seg (<[a := (ht, m)]> T) head (l ++ [a]) m.
Proof.
  clear LISP_HASH.
  intros Ha Hs. apply chain_seg_app. exists (LRec lrecord_hash_table a).
  split; [by apply chain_seg_insert |]. simpl. split; [done |].
  exists ht, m. by rewrite lookup_insert_eq.
Qed.

(** The chain [l] is a list without end or loops, and has every weak table. *)
Record chain_ok (h : weak_heap) (l : list positive) : Prop := {
  chain_list : chain_seg (wh_tables h) (Vall_weak_hash_tables h) l Qnil;
  chain_nodup : NoDup l;
  chain_all : forall a ht next, wh_tables h !! a = Some (ht, next) ->
    (a ∈ l <-> next <> Qunbound);
}.

Lemma chain_seg_next T head l stop a ht next :
  chain_seg T head l stop -> T !! a = Some (ht, next) -> a ∈ l ->
  next = stop \/ exists b, next = LRec lrecord_hash_table b.
Proof.
  clear LISP_HASH.
  revert head. induction l as [| b l IH]; intros head; [by intros ? ? ?%not_elem_of_nil |].
  cbn [chain_seg]. intros (-> & ht' & next' & Hb & Hs) Ha Hin.
  apply elem_of_cons in Hin as [-> | Hin]; [| by apply (IH next')].
  rewrite Ha in Hb. injection Hb as <- <-. destruct l; [by left | right].
  cbn in Hs. destruct Hs as [-> _]. eauto.
Qed.

(** A weak table enters at the head, any other leaves the chain as it is. *)
Lemma chain_ok_push h l a ht :
  chain_ok h l -> wh_tables h !! a = None ->
  chain_ok (mk_weak_heap (<[a := (ht, Vall_weak_hash_tables h)]> (wh_tables h))
              (LRec lrecord_hash_table a)) (a :: l).
Proof.
  clear LISP_HASH.
  intros [Hl Hn Hall] Ha.
  assert (a ∉ l) as Hal.
  { clear -Hl Ha. revert Hl. generalize (Vall_weak_hash_tables h).
    induction l as [| b l IH]; intros head; [by intros _ ?%not_elem_of_nil |].
    cbn [chain_seg]. intros (_ & ht' & next & Hb & Hs).
    apply not_elem_of_cons. split; [congruence | by apply (IH next)]. }
  constructor; cbn [wh_tables Vall_weak_hash_tables].
  - cbn [chain_seg]. split; [done |]. exists ht, (Vall_weak_hash_tables h).
    rewrite lookup_insert_eq. split; [done |]. by apply chain_seg_insert.
  - by apply NoDup_cons.
  - intros b htb next Hb. apply lookup_insert_Some in Hb as [[-> Heq] | [Hne Hb]].
    + injection Heq as -> Heq. split; [| intros _; constructor]. intros _ Hu.
      rewrite <- Heq in Hu. destruct l; cbn in Hl; [by rewrite Hl in Hu |].
      destruct Hl as [Hl _]. by rewrite Hl in Hu.
    + rewrite elem_of_cons, <- (Hall b htb next Hb). naive_solver.
Qed.

Lemma chain_ok_other h l a ht :
  chain_ok h l -> wh_tables h !! a = None ->
  chain_ok (mk_weak_heap (<[a := (ht, Qunbound)]> (wh_tables h)) (Vall_weak_hash_tables h)) l.
Proof.
  clear LISP_HASH.
  intros [Hl Hn Hall] Ha.
  assert (a ∉ l) as Hal.
  { clear -Hl Ha. revert Hl. generalize (Vall_weak_hash_tables h).
    induction l as [| b l IH]; intros head; [by intros _ ?%not_elem_of_nil |].
    cbn [chain_seg]. intros (_ & ht' & next & Hb & Hs).
    apply not_elem_of_cons. split; [congruence | by apply (IH next)]. }
  constructor; cbn [wh_tables Vall_weak_hash_tables]; [by apply chain_seg_insert | done |].
  intros b htb next Hb. apply lookup_insert_Some in Hb as [[-> Heq] | [Hne Hb]].
  - injection Heq as -> <-. naive_solver.
  - by apply (Hall b htb).
Qed.

Section Prune.
Variable marked_p : Lisp_Object -> bool.

Definition dead_pair (key value : Lisp_Object) : bool :=
  negb (marked_p key) || negb (marked_p value).

Definition table_marked (a : positive) : bool := marked_p (LRec lrecord_hash_table a).

Definition last_of (l : list positive) : Lisp_Object :=
  match last l with Some a => LRec lrecord_hash_table a | None => Qnil end.

(** [T'] is [T] with the dead pairs of the marked tables of [l] removed. *)
Definition heap_pruned (l : list positive)
    (T T' : gmap positive (Lisp_Hash_Table * Lisp_Object)) : Prop :=
  forall a, match fst <$> T !! a, fst <$> T' !! a with
    | Some ht, Some ht' =>
        if bool_decide (a ∈ l) && table_marked a
        then ht_wf ht' /\ ht_test_function ht' = ht_test_function ht /\
             contents (ht_hentries ht') ≡ₚ
               filter (keeps dead_pair) (contents (ht_hentries ht))
        else ht' = ht
    | None, None => True
    | _, _ => False
    end.

Lemma heap_pruned_nil T T' : (forall a, fst <$> T' !! a = fst <$> T !! a) -> heap_pruned [] T T'.
Proof. intros H a. rewrite H. by destruct (fst <$> T !! a). Qed.

Lemma heap_pruned_skip a l T T' :
  table_marked a = false -> heap_pruned l T T' -> heap_pruned (a :: l) T T'.
Proof.
  intros Hm H b. specialize (H b). destruct (fst <$> T !! b), (fst <$> T' !! b); try done.
  destruct (decide (b = a)) as [-> |].
  - rewrite Hm, andb_false_r. by rewrite Hm, andb_false_r in H.
  - by rewrite (bool_decide_ext (b ∈ a :: l) (b ∈ l)) by set_solver.
Qed.

Lemma heap_pruned_link l T T1 T' :
  (forall a, fst <$> T1 !! a = fst <$> T !! a) -> heap_pruned l T1 T' -> heap_pruned l T T'.
Proof. intros H1 H a. specialize (H a). by rewrite H1 in H. Qed.

Lemma heap_pruned_cons a l T T' ht ht' next :
  a ∉ l -> table_marked a = true -> T !! a = Some (ht, next) ->
  ht_wf ht' -> ht_test_function ht' = ht_test_function ht ->
  contents (ht_hentries ht') ≡ₚ filter (keeps dead_pair) (contents (ht_hentries ht)) ->
  heap_pruned l (<[a := (ht', next)]> T) T' -> heap_pruned (a :: l) T T'.
Proof.
  intros Ha Hm HT Hwf Ht Hp H b. specialize (H b).
  destruct (decide (b = a)) as [-> |].
  - rewrite lookup_insert_eq in H. rewrite HT. cbn in H |- *.
    destruct (fst <$> T' !! a) as [ht2 |]; [| done].
    rewrite (bool_decide_eq_false_2 (a ∈ l)) in H by done. cbn in H. subst ht2.
    rewrite bool_decide_eq_true_2 by set_solver. by rewrite Hm.
  - rewrite lookup_insert_ne in H by done.
    by rewrite (bool_decide_ext (b ∈ a :: l) (b ∈ l)) by set_solver.
Qed.

Lemma fst_insert_same (T : gmap positive (Lisp_Hash_Table * Lisp_Object)) a ht next next' :
  T !! a = Some (ht, next) -> forall b, fst <$> <[a := (ht, next')]> T !! b = fst <$> T !! b.
Proof.
  intros Ha b. destruct (decide (b = a)) as [-> |].
  - by rewrite lookup_insert_eq, Ha.
  - by rewrite lookup_insert_ne.
Qed.

Lemma last_of_snoc l a : last_of (l ++ [a]) = LRec lrecord_hash_table a.
Proof. unfold last_of. by rewrite last_snoc. Qed.

Lemma NILP_table a : NILP (LRec lrecord_hash_table a) = false.
Proof. by apply EQ_false. Qed.

Lemma prune_chain_spec fuel T vall kept rest cur :
  chain_seg T vall kept cur -> chain_seg T cur rest Qnil ->
  NoDup (kept ++ rest) -> (length rest < fuel)%nat ->
  (forall a ht next, a ∈ rest -> T !! a = Some (ht, next) -> ht_wf ht) ->
  exists T' vall',
    prune_chain LISP_HASH marked_p fuel (mk_weak_heap T vall) (last_of kept) cur =
      Some (mk_weak_heap T' vall') /\
    chain_seg T' vall' (kept ++ filter (fun a => table_marked a = true) rest) Qnil /\
    heap_pruned rest T T'.
Proof.
  revert T vall kept rest cur. induction fuel as [| fuel IH];
    intros T vall kept rest cur Hk Hr Hnd Hf Hwf; [lia |].
  cbn [prune_chain]. destruct rest as [| a rest].
  { cbn in Hr. subst cur. exists T, vall. split; [done |]. rewrite app_nil_r.
    split; [done |]. by apply heap_pruned_nil. }
  cbn [chain_seg] in Hr. destruct Hr as (-> & ht & next & Ha & Hr).
  rewrite NILP_table. cbn [XHASH_TABLE]. cbn [wh_tables]. rewrite Ha. cbn [mbind option_bind].
  fold (table_marked a). apply NoDup_app in Hnd as (Hnd1 & Hdis & Hnd2).
  apply NoDup_cons in Hnd2 as [Har Hnd2]. cbn in Hf.
  assert (a ∉ kept) as Hak by (intros ?; apply (Hdis a); set_solver).
  assert (NoDup (kept ++ rest)) as Hnd3.
  { apply NoDup_app. split_and!; try done. set_solver. }
  destruct (table_marked a) eqn:Em; cbn [negb].
  - destruct (elisp_map_remhash_spec dead_pair ht) as (ht' & E & Hpr & Hp);
      [by apply (Hwf a ht next); [set_solver |] |].
    unfold dead_pair in E at 1. rewrite E. cbn [mbind option_bind].
    rewrite <- (last_of_snoc kept a).
    destruct (IH (<[a := (ht', next)]> T) vall (kept ++ [a]) rest next)
      as (T' & vall' & E' & Hc' & Hpr').
    + by apply chain_seg_snoc_insert.
    + by apply chain_seg_insert.
    + rewrite <- (assoc_L (++)). apply NoDup_app. split_and!; try done.
      by apply NoDup_cons.
    + lia.
    + intros b htb nb Hb. rewrite lookup_insert_ne by (intros ->; done).
      apply Hwf. set_solver.
    + exists T', vall'. split; [done |]. split.
      * rewrite filter_cons_True by done. by rewrite <- (assoc_L (++)) in Hc'.
      * eapply heap_pruned_cons; eauto using pruned_wf, pruned_test.
  - rewrite filter_cons_False by (by rewrite Em).
    destruct kept as [| p kept' _] using rev_ind.
    + cbn [last_of last]. cbn [last_of]. cbn in Hk. subst vall.
      change (NILP (last_of [])) with true. cbv iota. cbn [mbind option_bind wh_tables].
      destruct (IH T next [] rest next) as (T' & vall' & E' & Hc' & Hpr'); try done; [lia | |].
      { intros. eapply Hwf; [| done]. set_solver. }
      exists T', vall'. split; [done |]. split; [done |]. by apply heap_pruned_skip.
    + rewrite last_of_snoc, NILP_table. cbn [XHASH_TABLE wh_tables].
      apply chain_seg_app in Hk as (m & Hk & -> & pht & pn & Hpa & Hpn). cbn in Hpn. subst pn.
      rewrite Hpa. cbn [mbind option_bind wh_tables Vall_weak_hash_tables].
      rewrite <- (last_of_snoc kept' p).
      assert (p ∉ kept' /\ p ∉ rest) as [Hp1 Hp2].
      { apply NoDup_app in Hnd1 as (_ & Hd & _). split; set_solver. }
      destruct (IH (<[p := (pht, next)]> T) vall (kept' ++ [p]) rest next)
        as (T' & vall' & E' & Hc' & Hpr'); try done; [| | lia | |].
      * by apply chain_seg_snoc_insert.
      * by apply chain_seg_insert.
      * intros b htb nb Hb. rewrite lookup_insert_ne by (intros ->; done).
        apply Hwf. set_solver.
      * exists T', vall'. split; [done |]. split; [done |].
        apply heap_pruned_skip; [done |].
        eapply heap_pruned_link; [| done]. by eapply fst_insert_same.
Qed.
End Prune.

(** ** Equality of tables *)

(** Distinct keys that all occur in a list no longer than theirs exhaust it. *)
Lemma keys_cover keq es1 es2 :
  (forall a b, keq a b = keq b a) ->
  (forall a b c, keq a b = true -> keq b c = true -> keq a c = true) ->
  keys_distinct keq es1 -> keys_distinct keq es2 ->
  Forall (fun e => assoc keq es2 e.1 <> None) es1 -> (length es2 <= length es1)%nat ->
  Forall (fun e => assoc keq es1 e.1 <> None) es2.
Proof.
  intros Hs Ht. revert es2. induction es1 as [| e es1 IH]; intros es2 Hd1 Hd2 Hall Hlen.
  { destruct es2; [constructor | simpl in Hlen; lia]. }
  apply Forall_cons in Hall as [He Hall].
  destruct (assoc keq es2 e.1) as [v |] eqn:E; [| done].
  apply assoc_Some in E as (k2 & Hin & Hk2).
  apply elem_of_Permutation in Hin as [es2' Hp].
  pose proof (keys_distinct_perm _ Hs _ _ Hp Hd2) as Hd2'.
  destruct Hd1 as [HF Hd1]. rewrite Forall_forall in HF.
  assert (Forall (fun e' => assoc keq es1 e'.1 <> None) es2') as Hcov.
  { apply IH; [done | by destruct Hd2' | | rewrite Hp in Hlen; simpl in Hlen; lia].
    rewrite Forall_forall in Hall |- *. intros e' He'. specialize (Hall e' He').
    rewrite (assoc_perm _ Hs Ht _ _ _ Hp Hd2) in Hall. simpl in Hall.
    destruct (keq k2 e'.1) eqn:Ek; [| done]. exfalso.
    specialize (HF e' He'). rewrite (Ht e.1 k2 e'.1) in HF; [done | by rewrite Hs | done]. }
  assert (Forall (fun e' => assoc keq (e :: es1) e'.1 <> None) ((k2, v) :: es2')) as Hall'.
  { constructor.
    - simpl. by rewrite Hs, Hk2.
    - rewrite Forall_forall in Hcov |- *. intros e' He'. simpl.
      destruct (keq e.1 e'.1); [done | by apply Hcov]. }
  by rewrite Hp.
Qed.

Lemma hash_table_equal_loop_spec internal_equal l ht2 :
  ht_wf ht2 -> (forall k, table_lookup ht2 k <> Some Qunbound) ->
  exists b, hash_table_equal_loop LISP_HASH internal_equal l ht2 = Some b /\
    (b = true <-> Forall (fun e => exists v, table_lookup ht2 e.1 = Some v /\
                                internal_equal e.2 v = true) (contents l)).
Proof.
  intros Hwf Hu. induction l as [| [[key value] |] l IH].
  - exists true. by split.
  - cbn [hash_table_equal_loop]. rewrite Fgethash_spec by done. cbn [mbind option_bind].
    change (contents (Some (key, value) :: l)) with ((key, value) :: contents l).
    setoid_rewrite Forall_cons. cbn [fst snd]. specialize (Hu key).
    destruct (table_lookup ht2 key) as [v |] eqn:E.
    + unfold UNBOUNDP. destruct (EQ v Qunbound) eqn:Eu; [apply EQ_true in Eu; congruence |].
      destruct (internal_equal value v) eqn:Ei; cbn [orb negb].
      * destruct IH as (b & -> & Hb). exists b. split; [done |]. rewrite Hb. naive_solver.
      * exists false. split; [done |]. naive_solver congruence.
    + exists false. split; [done |]. naive_solver.
  - cbn [hash_table_equal_loop]. done.
Qed.

Definition same_mapping (internal_equal : Lisp_Object -> Lisp_Object -> bool)
    (ht1 ht2 : Lisp_Hash_Table) : Prop :=
  forall k, match table_lookup ht1 k, table_lookup ht2 k with
    | Some v1, Some v2 => internal_equal v1 v2 = true
    | None, None => True
    | _, _ => False
    end.

Lemma same_mapping_entries internal_equal ht1 ht2 :
  ht_wf ht1 -> ht_wf ht2 -> ht_test_function ht1 = ht_test_function ht2 ->
  ht_count ht1 = ht_count ht2 ->
  Forall (fun e => exists v, table_lookup ht2 e.1 = Some v /\ internal_equal e.2 v = true)
    (contents (ht_hentries ht1)) <-> same_mapping internal_equal ht1 ht2.
Proof.
  intros Hwf1 Hwf2 Ht Hc. pose proof (wf_keys _ Hwf1) as Hk.
  assert (keq_of ht2 = keq_of ht1) as Hkeq by (unfold keq_of; by rewrite Ht).
  rewrite (wf_count _ Hwf1), (wf_count _ Hwf2) in Hc.
  pose proof (wf_distinct _ Hwf1) as Hd1. pose proof (wf_distinct _ Hwf2) as Hd2.
  unfold same_mapping, table_lookup. rewrite Hkeq in *.
  assert (forall es a b, keq_of ht1 a b = true ->
    assoc (keq_of ht1) es a = assoc (keq_of ht1) es b) as Hcong.
  { intros es a b Hab. induction es as [| e es IH]; [done |]. simpl.
    rewrite (keys_sym _ Hk e.1 a), (keys_sym _ Hk e.1 b), (keq_congr ht1 a b e.1 Hk Hab).
    by rewrite IH. }
  split.
  - intros Hall k.
    assert (Forall (fun e => assoc (keq_of ht1) (contents (ht_hentries ht1)) e.1 <> None)
      (contents (ht_hentries ht2))) as Hcov.
    { apply keys_cover; try done; [apply Hk | apply Hk | | lia].
      eapply Forall_impl; [exact Hall |]. intros e (v & Hv & _). by rewrite Hv. }
    destruct (assoc _ (contents (ht_hentries ht1)) k) as [v1 |] eqn:E1.
    + apply assoc_Some in E1 as (k1 & Hin & Hk1). rewrite Forall_forall in Hall.
      destruct (Hall _ Hin) as (v & Hv & Hi). cbn in Hv. rewrite (Hcong _ k1 k Hk1) in Hv.
      by rewrite Hv.
    + destruct (assoc _ (contents (ht_hentries ht2)) k) as [v2 |] eqn:E2; [| done].
      apply assoc_Some in E2 as (k2 & Hin & Hk2). rewrite Forall_forall in Hcov.
      apply (Hcov _ Hin). cbn. by rewrite (Hcong _ k2 k Hk2).
  - intros Hall. apply Forall_forall. intros e He. specialize (Hall e.1).
    rewrite (assoc_elem _ (keys_sym _ Hk) (keys_trans _ Hk) _ e e.1 Hd1 He) in Hall
      by apply keq_refl.
    destruct (assoc _ _ _) as [v |]; [by exists v | done].
Qed.
End Tables.

(** ** Sequences of operations *)

Inductive ht_op :=
| OpGet (key default : Lisp_Object)
| OpPut (key value : Lisp_Object)
| OpRem (key : Lisp_Object)
| OpClr.

Section Operations.
Variable LISP_HASH : Lisp_Object -> Z.

(** The table as the code runs it; the value of [clrhash] is the table itself. *)
Definition ht_step (op : ht_op) (ht : Lisp_Hash_Table)
  : option (option Lisp_Object * Lisp_Hash_Table) :=
  match op with
  | OpGet key default => v ← Fgethash LISP_HASH key ht default; Some (Some v, ht)
  | OpPut key value => '(v, ht) ← Fputhash LISP_HASH key value ht; Some (Some v, ht)
  | OpRem key => '(v, ht) ← Fremhash LISP_HASH key ht; Some (Some v, ht)
  | OpClr => Some (None, Fclrhash ht)
  end.

Fixpoint ht_run (ops : list ht_op) (ht : Lisp_Hash_Table)
  : option (list (option Lisp_Object) * Lisp_Hash_Table) :=
  match ops with
  | [] => Some ([], ht)
  | op :: ops =>
      '(v, ht) ← ht_step op ht;
      '(vs, ht) ← ht_run ops ht;
      Some (v :: vs, ht)
  end.

(** The specification: a map from keys to values, up to the test. *)
Definition spec_step (keq : Lisp_Object -> Lisp_Object -> bool) (op : ht_op)
    (m : Lisp_Object -> option Lisp_Object)
  : option Lisp_Object * (Lisp_Object -> option Lisp_Object) :=
  match op with
  | OpGet key default => (Some (match m key with Some v => v | None => default end), m)
  | OpPut key value => (Some value, fun k => if keq key k then Some value else m k)
  | OpRem key =>
      (Some (match m key with Some _ => Qt | None => Qnil end),
       fun k => if keq key k then None else m k)
  | OpClr => (None, fun _ => None)
  end.

Fixpoint spec_run (keq : Lisp_Object -> Lisp_Object -> bool) (ops : list ht_op)
    (m : Lisp_Object -> option Lisp_Object) : list (option Lisp_Object) :=
  match ops with
  | [] => []
  | op :: ops => (spec_step keq op m).1 :: spec_run keq ops (spec_step keq op m).2
  end.

Lemma spec_run_ext keq ops m m' :
  (forall k, m k = m' k) -> spec_run keq ops m = spec_run keq ops m'.
Proof.
  revert m m'. induction ops as [| op ops IH]; intros m m' H; [done |].
  cbn [spec_run]. f_equal.
  - destruct op; simpl; by rewrite ?H.
  - apply IH. intros k. destruct op; simpl; by rewrite ?H.
Qed.

Lemma ht_step_spec op ht :
  ht_wf LISP_HASH ht -> ht_count ht + 1 < capacity (ht_rehash_threshold ht) ->
  exists v ht', ht_step op ht = Some (v, ht') /\ ht_wf LISP_HASH ht' /\
    v = (spec_step (keq_of ht) op (table_lookup ht)).1 /\
    (forall k, table_lookup ht' k = (spec_step (keq_of ht) op (table_lookup ht)).2 k) /\
    ht_test_function ht' = ht_test_function ht /\
    ht_rehash_threshold ht' = ht_rehash_threshold ht /\
    ht_count ht' <= ht_count ht + 1.
Proof.
  intros Hwf Hcap. destruct op as [key d | key value | key |]; cbn [ht_step].
  - rewrite Fgethash_spec by done. cbn [mbind option_bind].
    eexists _, ht. split_and!; try done. lia.
  - destruct (Fputhash_spec LISP_HASH ht key value Hwf Hcap)
      as (ht' & -> & ? & ? & ? & ? & Hc). eexists _, ht'. split_and!; try done.
    destruct (table_lookup ht key); lia.
  - destruct (Fremhash_spec LISP_HASH ht key Hwf) as (r & ht' & -> & ? & -> & ? & ? & ? & ?).
    eexists _, ht'. split_and!; try done. lia.
  - destruct (Fclrhash_spec LISP_HASH ht Hwf) as [? ?].
    eexists _, _. split_and!; try done.
    change (ht_count (Fclrhash ht)) with 0. pose proof (wf_count _ _ Hwf). lia.
Qed.

Lemma ht_run_spec ops ht :
  ht_wf LISP_HASH ht -> ht_count ht + zlen ops < capacity (ht_rehash_threshold ht) ->
  exists ht', ht_run ops ht = Some (spec_run (keq_of ht) ops (table_lookup ht), ht') /\
    ht_wf LISP_HASH ht'.
Proof.
  revert ht. induction ops as [| op ops IH]; intros ht Hwf Hcap; [by exists ht |].
  rewrite length_cons in Hcap. cbn [ht_run].
  destruct (ht_step_spec op ht Hwf) as (v & ht1 & -> & Hwf1 & Hv & Hm & Ht & Hth & Hc); [lia |].
  destruct (IH ht1 Hwf1) as (ht' & E & Hwf'); [rewrite Hth; lia |].
  cbn [mbind option_bind]. rewrite E. cbn [mbind option_bind]. exists ht'. split; [| done].
  cbn [spec_run]. rewrite Hv. do 3 f_equal.
  assert (keq_of ht1 = keq_of ht) as -> by (unfold keq_of; by rewrite Ht).
  by apply spec_run_ext.
Qed.
End Operations.

(** ** New tables *)

Lemma make_general_wf LISP_HASH hf tf size rs th w ht :
  make_general_lisp_hash_table hf tf size rs th w = Some ht ->
  growth_ok (ht_rehash_size ht) (ht_rehash_threshold ht) = true ->
  keys_ok LISP_HASH ht -> ht_wf LISP_HASH ht /\ ht_count ht = 0 /\
    (forall k, table_lookup ht k = None) /\ ht_test_function ht = tf.
Proof.
  unfold make_general_lisp_hash_table. cbv zeta.
  destruct (hash_table_size_spec (Z_of_double
    (dadd (ddiv (double_of_Z (if size <? 10 then 10 else size))
       (if SFltb (double_of_Z 0) th then th
        else if (size >? 4096) && negb (bool_decide (is_Some tf)) then dlit 7 10
        else dlit 6 10)) (double_of_Z 1)))) as (i & p & -> & Hi & _).
  cbn [mbind option_bind]. intros [= <-]. cbn [ht_rehash_size ht_rehash_threshold
    compute_hash_table_derived_values]. intros Hg Hk.
  apply zget_elem in Hi. pose proof (primes_pos p Hi) as Hpos.
  destruct (growth_ok_prime _ _ p Hg Hi) as [Hrc _].
  split; [| split_and!; try done].
  - constructor; cbn [ht_size ht_count ht_rehash_count ht_hentries ht_rehash_size
      ht_rehash_threshold compute_hash_table_derived_values];
      rewrite ?contents_clear_hentries; try done; try lia.
    + by apply slots_wf_clear.
    + apply clear_reachable.
  - intros k. unfold table_lookup. cbn [ht_hentries compute_hash_table_derived_values].
    by rewrite contents_clear_hentries.
Qed.

Section StandardTables.
Variable internal_equal : Lisp_Object -> Lisp_Object -> bool.
Variable internal_hash : Lisp_Object -> Z.
Variable LISP_HASH : Lisp_Object -> Z.

(** What the tables rely on: [equal] is an equivalence that separates floats from
    other objects, and equal objects have equal [sxhash]. *)
Record equal_ok : Prop := {
  equal_refl : forall a, internal_equal a a = true;
  equal_sym : forall a b, internal_equal a b = internal_equal b a;
  equal_trans : forall a b c,
    internal_equal a b = true -> internal_equal b c = true -> internal_equal a c = true;
  equal_float : forall a b, internal_equal a b = true -> FLOATP a = FLOATP b;
  equal_hash : forall a b, internal_equal a b = true -> internal_hash a = internal_hash b;
}.

(** The test of a standard table, as a relation on keys. *)
Definition test_equal (test : hash_table_test) (a b : Lisp_Object) : bool :=
  match test with
  | HASH_TABLE_EQ => EQ a b
  | HASH_TABLE_EQL => lisp_object_eql_equal internal_equal a b
  | HASH_TABLE_EQUAL => internal_equal a b
  end.

Lemma make_standard_functions test size rs th w ht :
  make_standard_lisp_hash_table internal_equal internal_hash LISP_HASH test size rs th w = Some ht ->
  ht_test_function ht = (match test with
    | HASH_TABLE_EQ => None
    | HASH_TABLE_EQL => Some (lisp_object_eql_equal internal_equal)
    | HASH_TABLE_EQUAL => Some (lisp_object_equal_equal internal_equal) end) /\
  ht_hash_function ht = (match test with
    | HASH_TABLE_EQ => None
    | HASH_TABLE_EQL => Some (lisp_object_eql_hash internal_hash LISP_HASH)
    | HASH_TABLE_EQUAL => Some (lisp_object_equal_hash internal_hash) end).
Proof.
  unfold make_standard_lisp_hash_table, make_general_lisp_hash_table.
  destruct test; cbv zeta; destruct (hash_table_size _); try done; by intros [= <-].
Qed.

Lemma make_standard_keq test size rs th w ht :
  equal_ok ->
  make_standard_lisp_hash_table internal_equal internal_hash LISP_HASH test size rs th w = Some ht ->
  forall a b, keq_of ht a b = test_equal test a b.
Proof.
  intros Heq Hmk a b. apply make_standard_functions in Hmk as [Ht _].
  unfold keq_of, KEYS_EQUAL_P. rewrite Ht. destruct test; cbn [test_equal].
  - apply orb_false_r.
  - unfold lisp_object_eql_equal. by rewrite orb_assoc, orb_diag.
  - unfold lisp_object_equal_equal. destruct (EQ a b) eqn:E; [| done].
    apply EQ_true in E. subst. by rewrite (equal_refl Heq).
Qed.

Lemma make_standard_keys_ok test size rs th w ht :
  equal_ok ->
  make_standard_lisp_hash_table internal_equal internal_hash LISP_HASH test size rs th w = Some ht ->
  keys_ok LISP_HASH ht.
Proof.
  intros Heq Hmk. pose proof (make_standard_keq _ _ _ _ _ _ Heq Hmk) as Hkeq.
  apply make_standard_functions in Hmk as [Ht Hh].
  destruct Heq as [Hr Hs Htr Hf Hhash].
  constructor; intros until 0; rewrite !Hkeq; unfold hash_of; rewrite ?Hh;
    destruct test; cbn [test_equal]; try done.
  - unfold EQ. by apply bool_decide_ext.
  - unfold lisp_object_eql_equal. rewrite (Hs b a).
    assert (EQ a b = EQ b a) as -> by (by apply bool_decide_ext).
    destruct (internal_equal a b) eqn:E; [by rewrite (Hf a b E) | by rewrite !andb_false_r].
  - rewrite !EQ_true. by intros -> ->.
  - unfold lisp_object_eql_equal. rewrite !orb_true_iff, !andb_true_iff, !EQ_true.
    intros [-> | [Ha Hab]] [<- | [Hb Hbc]]; auto. right. split; [done |].
    by apply (Htr a b c).
  - by apply Htr.
  - rewrite EQ_true. by intros ->.
  - unfold lisp_object_eql_equal, lisp_object_eql_hash.
    rewrite orb_true_iff, andb_true_iff, EQ_true. intros [-> | [Ha Hab]]; [done |].
    by rewrite <- (Hf a b Hab), Ha, (Hhash a b Hab).
  - by apply Hhash.
Qed.

Lemma spec_run_keq keq keq' ops m :
  (forall a b, keq a b = keq' a b) -> spec_run keq ops m = spec_run keq' ops m.
Proof.
  intros H. revert m. induction ops as [| op ops IH]; intros m; [done |].
  cbn [spec_run]. rewrite IH. f_equal; [by destruct op |].
  apply spec_run_ext. intros k. destruct op; simpl; by rewrite ?H.
Qed.

(** The tables [make_lisp_hash_table] makes grow by a factor of 1.3. *)
Lemma make_lisp_hash_table_wf test size w :
  equal_ok -> exists ht,
  make_lisp_hash_table internal_equal internal_hash LISP_HASH size w test = Some ht /\
  ht_wf LISP_HASH ht /\ ht_count ht = 0 /\ (forall k, table_lookup ht k = None) /\
  2013042503 <= capacity (ht_rehash_threshold ht) /\
  forall a b, keq_of ht a b = test_equal test a b.
Proof.
  intros Heq. unfold make_lisp_hash_table.
  assert (exists ht, make_standard_lisp_hash_table internal_equal internal_hash LISP_HASH test
    size (double_of_Z (-1)) (double_of_Z (-1)) w = Some ht /\ ht_rehash_size ht = dlit 13 10 /\
    (ht_rehash_threshold ht = dlit 6 10 \/ ht_rehash_threshold ht = dlit 7 10))
    as (ht & E & Hrs & Hth).
  { unfold make_standard_lisp_hash_table, make_general_lisp_hash_table. cbv zeta.
    assert (SFltb (double_of_Z 1) (double_of_Z (-1)) = false) as -> by reflexivity.
    assert (SFltb (double_of_Z 0) (double_of_Z (-1)) = false) as -> by reflexivity.
    destruct test;
      match goal with |- context [hash_table_size ?x] =>
        destruct (hash_table_size_spec x) as (i & p & -> & _) end;
      (eexists; split; [reflexivity |]); (split; [reflexivity |]);
      cbn [ht_rehash_threshold compute_hash_table_derived_values];
      destruct (_ && _); auto. }
  exists ht. split; [done |].
  assert (growth_ok (ht_rehash_size ht) (ht_rehash_threshold ht) = true) as Hg.
  { rewrite Hrs. by destruct Hth as [-> | ->]; [apply growth_ok_default | apply growth_ok_default_large]. }
  pose proof (make_standard_keys_ok _ _ _ _ _ _ Heq E) as Hk.
  pose proof (make_standard_keq _ _ _ _ _ _ Heq E) as Hkeq.
  assert (exists hf tf, make_general_lisp_hash_table hf tf size (double_of_Z (-1))
    (double_of_Z (-1)) w = Some ht) as (hf & tf & Eg).
  { unfold make_standard_lisp_hash_table in E. destruct test; eauto. }
  destruct (make_general_wf _ _ _ _ _ _ _ _ Eg Hg Hk) as (? & ? & ? & _).
  split_and!; try done. destruct Hth as [-> | ->]; [rewrite capacity_default; lia |].
  rewrite capacity_default_large. lia.
Qed.
End StandardTables.

(** ** A concrete table for the witnesses *)

Definition demo_hash (x : Lisp_Object) : Z :=
  match x with LInt n => 2 * n + 1 | LChar c => c | LRec _ a => Zpos a end.

Definition demo_ops : list ht_op :=
  [OpPut (LInt 1) (LInt 10); OpPut (LInt 30) (LInt 20); OpPut Qt (LInt 30);
   OpPut (LInt 8) Qnil; OpRem (LInt 1)].

Definition demo_ht : option Lisp_Hash_Table :=
  ht ← make_general_lisp_hash_table None None 10 (double_of_Z (-1)) (double_of_Z (-1))
         HASH_TABLE_WEAK;
  '(_, ht) ← ht_run demo_hash demo_ops ht;
  Some ht.

Lemma demo_equal_ok : equal_ok EQ (fun _ => 0).
Proof.
  constructor; intros until 0; rewrite ?EQ_true; try done.
  - unfold EQ. by apply bool_decide_ext.
  - by intros -> ->.
  - by intros ->.
Qed.

Lemma demo_wf : exists ht, demo_ht = Some ht /\ ht_wf demo_hash ht /\
  table_lookup ht (LInt 30) = Some (LInt 20) /\ ht_count ht = 3 /\ ht_size ht = 29 /\
  (forall k, table_lookup ht k <> Some Qunbound).
Proof.
  destruct (make_lisp_hash_table_wf EQ (fun _ => 0) demo_hash HASH_TABLE_EQ 10
    HASH_TABLE_WEAK demo_equal_ok) as (ht & E & Hwf & Hc & Hl & Hcap & Hkeq).
  destruct (ht_run_spec demo_hash demo_ops ht Hwf) as (ht' & Er & Hwf').
  { rewrite Hc. cbn [demo_ops length]. lia. }
  assert (demo_ht = Some ht') as Ed.
  { unfold demo_ht. change (make_general_lisp_hash_table None None 10 (double_of_Z (-1))
      (double_of_Z (-1)) HASH_TABLE_WEAK) with
      (make_lisp_hash_table EQ (fun _ => 0) demo_hash 10 HASH_TABLE_WEAK HASH_TABLE_EQ).
    rewrite E. cbn [mbind option_bind]. by rewrite Er. }
  exists ht'. split; [done |]. split; [done |].
  assert (match demo_ht with Some ht => (table_lookup ht (LInt 30), ht_count ht, ht_size ht,
      contents (ht_hentries ht)) = (Some (LInt 20), 3, 29,
        [(Qt, LInt 30); (LInt 8, Qnil); (LInt 30, LInt 20)])
    | None => False end) as Hv by (vm_compute; reflexivity).
  rewrite Ed in Hv. injection Hv as H1 H2 H3 H4.
  split; [exact H1 |]. split; [exact H2 |]. split; [exact H3 |].
  intros k Hk. apply assoc_Some in Hk as (k' & Hin & _). rewrite H4 in Hin. clear -Hin.
  repeat (apply elem_of_cons in Hin as [Hin | Hin]; [discriminate Hin |]).
  by apply not_elem_of_nil in Hin.
Qed.

(** ** The properties *)

(** C4: a hash table made by [make_lisp_hash_table] with any test, size and
    weakness returns, to any sequence of gethash, puthash, remhash and clrhash,
    what a map over the keys up to the test returns; every probe terminates and
    stays inside the slots while the table grows. *)
Theorem hash_table_refines_map internal_equal internal_hash LISP_HASH test size w ops :
  equal_ok internal_equal internal_hash -> zlen ops < 2013042503 ->
  exists ht ht',
    make_lisp_hash_table internal_equal internal_hash LISP_HASH size w test = Some ht /\
    ht_run LISP_HASH ops ht =
      Some (spec_run (test_equal internal_equal test) ops (fun _ => None), ht').
Proof.
  intros Heq Hn.
  destruct (make_lisp_hash_table_wf internal_equal internal_hash LISP_HASH test size w Heq)
    as (ht & E & Hwf & Hc & Hl & Hcap & Hkeq).
  destruct (ht_run_spec LISP_HASH ops ht Hwf) as (ht' & Er & _); [lia |].
  exists ht, ht'. split; [done |]. rewrite Er. do 2 f_equal.
  rewrite (spec_run_keq _ (test_equal internal_equal test)) by done. by apply spec_run_ext.
Qed.

Example hash_table_refines_map_witness :
  exists ht ht',
    make_lisp_hash_table EQ (fun _ => 0) demo_hash 10 HASH_TABLE_WEAK HASH_TABLE_EQL = Some ht /\
    ht_run demo_hash (demo_ops ++ [OpGet (LInt 30) Qt; OpGet (LInt 1) Qt]) ht =
      Some ([Some (LInt 10); Some (LInt 20); Some (LInt 30); Some Qnil; Some Qt;
             Some (LInt 20); Some Qt], ht').
Proof.
  apply (hash_table_refines_map EQ (fun _ => 0) demo_hash HASH_TABLE_EQL 10 HASH_TABLE_WEAK
    (demo_ops ++ [OpGet (LInt 30) Qt; OpGet (LInt 1) Qt]) demo_equal_ok).
  reflexivity.
Defined.

(** remhash deletes without tombstones: when the key is present it returns t,
    takes exactly one entry out of the slots, an entry of an equal key, and
    leaves a table in which every other entry is still reached from its home
    slot over occupied slots only; otherwise it returns nil and changes nothing. *)
Theorem remhash_keeps_chains LISP_HASH ht key :
  ht_wf LISP_HASH ht ->
  (table_lookup ht key = None /\ Fremhash LISP_HASH key ht = Some (Qnil, ht)) \/
  exists ht' e, Fremhash LISP_HASH key ht = Some (Qt, ht') /\
    keq_of ht e.1 key = true /\ table_lookup ht key = Some e.2 /\
    contents (ht_hentries ht) ≡ₚ e :: contents (ht_hentries ht') /\
    all_reachable (ht_size ht) (HASH_CODE LISP_HASH ht) (ht_hentries ht') /\
    ht_count ht' = ht_count ht - 1 /\ ht_wf LISP_HASH ht'.
Proof.
  intros Hwf. destruct (find_hentry_spec LISP_HASH ht key Hwf) as (p & E & _ & Hg & Hcase).
  unfold Fremhash. rewrite E. cbn [mbind option_bind]. rewrite Hg. cbn [mbind option_bind].
  destruct Hcase as [(e & He & Hek & Hlook) | (He & Hlook & _)]; rewrite He; [right | by left].
  destruct (remhash_slots (ht_size ht) (HASH_CODE LISP_HASH ht) (keq_of ht)
    (wf_size_pos _ _ Hwf) (fun k => HASH_CODE_range LISP_HASH ht k (wf_size_pos _ _ Hwf))
    (keq_refl ht) (keys_sym _ _ (wf_keys _ _ Hwf)) (ht_hentries ht) p e (wf_slots _ _ Hwf)
    (wf_reach _ _ Hwf) (wf_distinct _ _ Hwf) (wf_clear _ _ Hwf) He)
    as (l' & El & _ & Hr & _ & _).
  destruct (remhash_1_spec LISP_HASH ht p e Hwf He)
    as (ht' & Em & Hwf' & Hp & _ & _ & _ & _ & Hc & _).
  exists ht', e. rewrite Em. split_and!; try done.
  unfold remhash_1 in Em. rewrite El in Em. by injection Em as <-.
Qed.

Example remhash_keeps_chains_witness :
  exists ht, demo_ht = Some ht /\
  ((table_lookup ht (LInt 30) = None /\ Fremhash demo_hash (LInt 30) ht = Some (Qnil, ht)) \/
  exists ht' e, Fremhash demo_hash (LInt 30) ht = Some (Qt, ht') /\
    keq_of ht e.1 (LInt 30) = true /\ table_lookup ht (LInt 30) = Some e.2 /\
    contents (ht_hentries ht) ≡ₚ e :: contents (ht_hentries ht') /\
    all_reachable (ht_size ht) (HASH_CODE demo_hash ht) (ht_hentries ht') /\
    ht_count ht' = ht_count ht - 1 /\ ht_wf demo_hash ht').
Proof.
  destruct demo_wf as (ht & E & Hwf & _). exists ht. split; [exact E |].
  apply (remhash_keeps_chains demo_hash ht (LInt 30) Hwf).
Defined.

(** C5: after a dump and a restore the addresses by which an [eq] table hashes
    have all changed; reorganizing the table makes it well-formed again for the
    new ones, with the same entries. *)
Theorem pdump_reorganize_restores LISP_HASH LISP_HASH' ht :
  ht_wf LISP_HASH ht -> keys_ok LISP_HASH' ht ->
  exists ht', pdump_reorganize_hash_table LISP_HASH' ht = Some ht' /\ ht_wf LISP_HASH' ht' /\
    contents (ht_hentries ht') ≡ₚ contents (ht_hentries ht) /\
    forall k default, Fgethash LISP_HASH' k ht' default = Fgethash LISP_HASH k ht default.
Proof.
  intros Hwf Hk'. destruct (pdump_reorganize_spec LISP_HASH' ht) as (ht' & E & Hwf' & Hp & Ht);
    try done; try apply Hwf.
  exists ht'. split_and!; try done. intros k d. rewrite !Fgethash_spec by done.
  unfold table_lookup. replace (keq_of ht') with (keq_of ht) by (unfold keq_of; by rewrite Ht).
  pose proof (wf_keys _ _ Hwf) as Hk.
  by rewrite (assoc_perm _ (keys_sym _ _ Hk) (keys_trans _ _ Hk) _ _ k (symmetry Hp)
                (wf_distinct _ _ Hwf)).
Qed.

Example pdump_reorganize_restores_witness :
  exists ht, demo_ht = Some ht /\
  exists ht', pdump_reorganize_hash_table (fun _ => 7) ht = Some ht' /\
    ht_wf (fun _ => 7) ht' /\
    contents (ht_hentries ht') ≡ₚ contents (ht_hentries ht) /\
    forall k default, Fgethash (fun _ => 7) k ht' default = Fgethash demo_hash k ht default.
Proof.
  destruct demo_wf as (ht & E & Hwf & _). exists ht. split; [exact E |].
  apply (pdump_reorganize_restores demo_hash (fun _ => 7) ht Hwf).
  apply keys_ok_eq. assert (match demo_ht with Some ht => ht_test_function ht = None
    | None => False end) as Hf by (vm_compute; reflexivity).
  rewrite E in Hf. exact Hf.
Defined.

(** C6: at the end of a collection [prune_weak_hash_tables] unlinks exactly the
    unmarked tables from the chain of weak tables, in place, and takes out of
    each marked table exactly the pairs with an unmarked key or value. *)
Theorem prune_weak_hash_tables_correct LISP_HASH marked_p h l :
  chain_seg (wh_tables h) (Vall_weak_hash_tables h) l Qnil -> NoDup l ->
  (forall a ht next, a ∈ l -> wh_tables h !! a = Some (ht, next) -> ht_wf LISP_HASH ht) ->
  exists h', prune_weak_hash_tables LISP_HASH marked_p h = Some h' /\
    chain_seg (wh_tables h') (Vall_weak_hash_tables h')
      (filter (fun a => table_marked marked_p a = true) l) Qnil /\
    heap_pruned LISP_HASH marked_p l (wh_tables h) (wh_tables h').
Proof.
  intros Hch Hnd Hwf. destruct h as [T vall]. cbn [wh_tables Vall_weak_hash_tables] in *.
  assert (length l <= size T)%nat as Hlen.
  { rewrite <- size_dom, <- (size_list_to_set (C := gset positive) l) by done.
    apply subseteq_size. clear Hnd Hwf. revert vall Hch.
    induction l as [| a l IH]; intros vall Hch; [set_solver |].
    destruct Hch as (_ & ht & next & Ha & Hch). specialize (IH next Hch).
    apply elem_of_dom_2 in Ha. set_solver. }
  destruct (prune_chain_spec LISP_HASH marked_p (S (S (size T))) T vall [] l vall)
    as (T' & vall' & E & Hc' & Hp); try done; [lia |].
  exists (mk_weak_heap T' vall'). by split_and!.
Qed.

Example prune_weak_hash_tables_correct_witness :
  exists ht, demo_ht = Some ht /\
  let h := mk_weak_heap
    (<[1%positive := (ht, LRec lrecord_hash_table 2)]> {[2%positive := (ht, Qnil)]})
    (LRec lrecord_hash_table 1) in
  let marked_p := fun x => negb (EQ x (LRec lrecord_hash_table 1) || EQ x (LInt 8)) in
  exists h', prune_weak_hash_tables demo_hash marked_p h = Some h' /\
    chain_seg (wh_tables h') (Vall_weak_hash_tables h')
      (filter (fun a => table_marked marked_p a = true) [1%positive; 2%positive]) Qnil /\
    heap_pruned demo_hash marked_p [1%positive; 2%positive] (wh_tables h) (wh_tables h').
Proof.
  destruct demo_wf as (ht & E & Hwf & _). exists ht. split; [exact E |].
  apply (prune_weak_hash_tables_correct demo_hash _ (mk_weak_heap
    (<[1%positive := (ht, LRec lrecord_hash_table 2)]> {[2%positive := (ht, Qnil)]})
    (LRec lrecord_hash_table 1)) [1%positive; 2%positive]).
  - split; [reflexivity |]. exists ht, (LRec lrecord_hash_table 2). split; [reflexivity |].
    split; [reflexivity |]. exists ht, Qnil. split; reflexivity.
  - apply NoDup_cons; split; [| apply NoDup_singleton].
    rewrite list_elem_of_singleton. discriminate.
  - intros a ht' next _ Ha. cbn [wh_tables] in Ha.
    apply lookup_insert_Some in Ha as [[_ [= <- _]] | [_ Ha]]; [exact Hwf |].
    apply lookup_singleton_Some in Ha as [_ [= <- _]]. exact Hwf.
Defined.

(** [hash_table_equal] answers for tables of the same test whose values are
    proper objects, and answers true exactly when the weaknesses agree and the
    two tables map the same keys to values that [equal] identifies. *)
Theorem hash_table_equal_correct LISP_HASH internal_equal ht1 ht2 :
  ht_wf LISP_HASH ht1 -> ht_wf LISP_HASH ht2 ->
  ht_test_function ht1 = ht_test_function ht2 ->
  (forall k, table_lookup ht2 k <> Some Qunbound) ->
  exists b, hash_table_equal LISP_HASH internal_equal true ht1 ht2 = Some b /\
    (b = true <-> ht_weakness ht1 = ht_weakness ht2 /\ ht_count ht1 = ht_count ht2 /\
                  same_mapping internal_equal ht1 ht2).
Proof.
  intros Hwf1 Hwf2 Ht Hu. unfold hash_table_equal. cbn [negb orb].
  destruct (decide (ht_weakness ht1 = ht_weakness ht2)) as [Hw | Hw].
  2: { rewrite bool_decide_eq_false_2 by done. exists false. split; [done |]. naive_solver. }
  rewrite bool_decide_eq_true_2 by done. cbn [negb orb].
  destruct (Z.eqb_spec (ht_count ht1) (ht_count ht2)) as [Hc | Hc]; cbn [negb].
  2: { exists false. split; [done |]. naive_solver. }
  destruct (hash_table_equal_loop_spec LISP_HASH internal_equal
    (ztake (ht_size ht1) (ht_hentries ht1)) ht2 Hwf2 Hu) as (b & -> & Hb).
  exists b. split; [done |]. pose proof (wf_size_pos _ _ Hwf1).
  rewrite Hb, contents_take by (by apply Hwf1 || lia).
  rewrite (same_mapping_entries LISP_HASH) by done. naive_solver.
Qed.

Example hash_table_equal_correct_witness :
  exists ht, demo_ht = Some ht /\
  exists b, hash_table_equal demo_hash EQ true ht ht = Some b /\
    (b = true <-> ht_weakness ht = ht_weakness ht /\ ht_count ht = ht_count ht /\
                  same_mapping EQ ht ht).
Proof.
  destruct demo_wf as (ht & E & Hwf & _ & _ & _ & Hu). exists ht. split; [exact E |].
  exact (hash_table_equal_correct demo_hash EQ ht ht Hwf Hwf eq_refl Hu).
Defined.

(** [hash_table_size] returns the least size of its list, after the first,
    that is at least the request, whenever the list has one; the search always
    ends with a size of the list. *)
Theorem hash_table_size_least requested_size :
  exists p, hash_table_size requested_size = Some p /\ p ∈ primes /\ p <> 19 /\
    (requested_size <= last_prime ->
     requested_size <= p /\
     forall q, q ∈ primes -> q <> 19 -> requested_size <= q -> p <= q).
Proof.
  destruct (hash_table_size_spec requested_size) as (i & p & -> & Hi & Hpos & Hge & Hlt).
  assert (zget primes 0 = Some 19) as H0 by reflexivity.
  assert (zget primes (zlen primes - 1) = Some last_prime) as Hlast by reflexivity.
  exists p. split; [done |]. split; [by eapply zget_elem |].
  split; [intros ->; pose proof (primes_sorted 0 i 19 19 H0 Hi); lia |].
  intros Hreq. pose proof (zget_Some_bound _ _ _ Hi) as Hb. split.
  - destruct (decide (i < zlen primes - 1)) as [| Hge']; [by apply Hge |].
    replace i with (zlen primes - 1) in Hi by lia. congruence.
  - intros q Hq Hq19 Hle. apply list_elem_of_lookup in Hq as [j Hj].
    assert (zget primes (Z.of_nat j) = Some q) as Hj' by (by rewrite zget_lookup, Nat2Z.id by lia).
    destruct (Z.lt_trichotomy i (Z.of_nat j)) as [Hij | [Hij | Hij]].
    + pose proof (primes_sorted _ _ _ _ Hi Hj' Hij). lia.
    + rewrite <- Hij, Hi in Hj'. injection Hj' as ->. lia.
    + destruct (decide (j = 0%nat)) as [-> |]; [change (Z.of_nat 0) with 0 in Hj'; congruence |].
      pose proof (Hlt (Z.of_nat j) q ltac:(lia) Hj'). lia.
Qed.

Example hash_table_size_least_witness :
  exists p, hash_table_size 100 = Some p /\ p ∈ primes /\ p <> 19 /\
    (100 <= last_prime ->
     100 <= p /\ forall q, q ∈ primes -> q <> 19 -> 100 <= q -> p <= q).
Proof. exact (hash_table_size_least 100). Defined.

(** Without a clear slot a probe for an absent key goes round for ever. *)
Lemma full_table_probe_diverges n l stop fuel p :
  0 < n -> slots_wf n l ->
  (forall i, 0 <= i < n -> exists e, slot l i = Some e /\ stop e = false) ->
  0 <= p <= n -> probe_loop fuel l n stop p = None.
Proof.
  intros Hn Hwf Hfull. revert p. induction fuel as [| fuel IH]; intros p Hp; [done |].
  cbn [probe_loop]. rewrite linear_probe_eq by done. cbn [mbind option_bind].
  pose proof (cyc_range n Hn p 0) as Hr. destruct (Hfull _ Hr) as (e & -> & ->).
  apply IH. lia.
Qed.

Definition small_rehash_ht : option Lisp_Hash_Table :=
  ht ← make_general_lisp_hash_table None None 10 (dlit 101 100) (double_of_Z (-1))
         HASH_TABLE_NON_WEAK;
  '(_, ht) ← ht_run demo_hash
    (map (fun i => OpPut (LInt (Z.of_nat i)) Qt) (seq 0 29)) ht;
  Some ht.

(** with a rehash size of 1.01, which the validation accepts, a table of 29
    slots never grows: [enlarge_hash_table] asks for 29 slots again.  29
    insertions fill it, and then looking up, inserting or removing any absent
    key probes for ever. *)
Theorem small_rehash_size_diverges :
  exists ht, small_rehash_ht = Some ht /\ ht_count ht = 29 /\ ht_size ht = 29 /\
    forall key, (forall i, 0 <= i < 29 -> key <> LInt i) ->
    forall fuel, probe_loop fuel (ht_hentries ht) (ht_size ht)
      (fun e => KEYS_EQUAL_P e.1 key (ht_test_function ht)) (HASH_CODE demo_hash ht key) = None.
Proof.
  assert (match small_rehash_ht with
    | Some ht => ht_count ht = 29 /\ ht_size ht = 29 /\ ht_test_function ht = None /\
        length (ht_hentries ht) = 30%nat /\ slot (ht_hentries ht) 29 = None /\
        forallb (fun i => match slot (ht_hentries ht) (Z.of_nat i) with
          | Some (LInt k, _) => (0 <=? k) && (k <? 29) | _ => false end) (seq 0 29) = true
    | None => False end) as H by (vm_compute; repeat split).
  destruct small_rehash_ht as [ht |]; [| done].
  destruct H as (Hc & Hs & Ht & Hl & Hn & Hfull). exists ht. split_and!; try done.
  intros key Hkey fuel. rewrite Hs. apply full_table_probe_diverges; [lia | | |].
  - split; [lia | done].
  - intros i Hi. rewrite forallb_forall in Hfull. specialize (Hfull (Z.to_nat i)).
    rewrite Z2Nat.id in Hfull by lia. rewrite in_seq in Hfull. specialize (Hfull ltac:(lia)).
    destruct (slot (ht_hentries ht) i) as [[k v] |]; [| done]. exists (k, v). split; [done |].
    unfold KEYS_EQUAL_P. rewrite Ht, orb_false_r. cbn [fst]. destruct k as [z | |]; try done.
    apply EQ_false. intros <-. apply (Hkey z); [zcase | done].
  - pose proof (HASH_CODE_range demo_hash ht key ltac:(lia)). lia.
Qed.

(** making or copying a hash table keeps [Vall_weak_hash_tables] a finite
    chain of distinct tables that holds all weak tables and only those. *)
Theorem new_tables_keep_chain h l a ht hash_table :
  chain_ok h l -> wh_tables h !! a = None ->
  (exists l', chain_ok (enter_hash_table h a ht) l' /\
     l' = if bool_decide (ht_weakness ht = HASH_TABLE_NON_WEAK) then l else a :: l) /\
  (forall x h', Fcopy_hash_table h a hash_table = Some (x, h') ->
     exists l', chain_ok h' l' /\ x = LRec lrecord_hash_table a /\
       option_map fst (wh_tables h' !! a) =
         option_map (fun '(_, ht, _) => ht) (XHASH_TABLE h hash_table) /\
       (a ∈ l' <-> exists b, hash_table = LRec lrecord_hash_table b /\ b ∈ l)).
Proof.
  intros Hok Ha. split.
  - unfold enter_hash_table. destruct (bool_decide _).
    + exists l. split; [by apply chain_ok_other | done].
    + exists (a :: l). split; [by apply chain_ok_push | done].
  - intros x h'. unfold Fcopy_hash_table. destruct (XHASH_TABLE h hash_table) as [[[b htb] next] |] eqn:E; [| done].
    cbn [mbind option_bind]. intros [= <- <-].
    assert (hash_table = LRec lrecord_hash_table b /\ wh_tables h !! b = Some (htb, next)) as [-> Hb].
    { unfold XHASH_TABLE in E. destruct hash_table as [| | [] c]; try done.
      destruct (wh_tables h !! c) as [[? ?] |] eqn:Ec; [| done]. cbn in E. by simplify_eq. }
    pose proof (chain_all _ _ Hok _ _ _ Hb) as Hiff.
    assert (a <> b) as Hab by congruence.
    assert (a ∉ l) as Hal.
    { pose proof (chain_ok_push h l a htb Hok Ha) as [_ Hn _]. by apply NoDup_cons in Hn as [? _]. }
    destruct (EQ next Qunbound) eqn:En.
    + apply EQ_true in En. subst next. exists l. split; [by apply chain_ok_other |].
      split; [done |]. cbn [wh_tables]. rewrite lookup_insert_eq. split; [done |].
      split; [done |]. intros (b' & [= <-] & Hin). tauto.
    + apply EQ_false in En. exists (a :: l). split; [by apply chain_ok_push |].
      split; [done |]. cbn [wh_tables]. rewrite lookup_insert_eq. split; [done |].
      split; [| intros _; constructor]. intros _. exists b. split; [done |]. tauto.
Qed.

Example new_tables_keep_chain_witness :
  exists ht, demo_ht = Some ht /\
  let h := mk_weak_heap {[1%positive := (ht, Qnil)]} (LRec lrecord_hash_table 1) in
  (exists l', chain_ok (enter_hash_table h 2 ht) l' /\
     l' = if bool_decide (ht_weakness ht = HASH_TABLE_NON_WEAK) then [1%positive]
          else [2%positive; 1%positive]) /\
  (forall x h', Fcopy_hash_table h 2 (LRec lrecord_hash_table 1) = Some (x, h') ->
     exists l', chain_ok h' l' /\ x = LRec lrecord_hash_table 2 /\
       option_map fst (wh_tables h' !! 2%positive) =
         option_map (fun '(_, ht, _) => ht) (XHASH_TABLE h (LRec lrecord_hash_table 1)) /\
       (2%positive ∈ l' <->
        exists b, LRec lrecord_hash_table 1 = LRec lrecord_hash_table b /\ b ∈ [1%positive])).
Proof.
  destruct demo_wf as (ht & E & _). exists ht. split; [exact E |].
  apply (new_tables_keep_chain
    (mk_weak_heap {[1%positive := (ht, Qnil)]} (LRec lrecord_hash_table 1)) [1%positive] 2 ht).
  - constructor; cbn [wh_tables Vall_weak_hash_tables].
    + split; [reflexivity |]. exists ht, Qnil. split; reflexivity.
    + apply NoDup_singleton.
    + intros a ht' next Ha. apply lookup_singleton_Some in Ha as [<- [= <- <-]].
      split; [discriminate | intros _; constructor].
  - reflexivity.
Defined.
