(* ===== verification/Buffer.v ===== *)
(** * Buffers: data and basic accessors (src/src/buffer.h, insdel.h, undo.c)

    One block of text and the buffers that share it: the base buffer, first, and
    its indirect children.  A buffer that was killed stays in the list, dead;
    [MAP_INDIRECT_BUFFERS] visits the live ones.  The build is the one without
    Mule, where a character is a byte, so the character position and the byte
    index of each pair of fields (pt and bufpt, z and bufz, ...) are one number.
    Fields of type [int] wrap at 32 bits.

    Code that changes a buffer runs in a monad over the state with two ways to
    leave: a Lisp signal, which keeps the state reached so far, and [Fault], an
    access outside a block of memory or a failed assertion. *)

From S2P Require Import Prelude Lisp.

(** ** Machine integers *)

(** [EMACS_INT_MAX] of a 64-bit build. *)
Definition EMACS_INT_MAX : Z := 2 ^ 62 - 1.

(** ** Data *)

Record Lisp_Marker := mk_marker {
  m_id : positive;
  m_memind : Z;
  m_insertion_type : bool;
}.

Record buffer_text_change_data := mk_text_changes {
  in_multiple_change : Z;
  mc_begin : Z;
  mc_orig_end : Z;
  mc_new_end : Z;
  mc_begin_signaled : bool;
}.

Record each_buffer_change_data := mk_changes {
  begin_unchanged : Z;
  end_unchanged : Z;
  newline_was_deleted : bool;
  begin_extent_unchanged : Z;
  end_extent_unchanged : Z;
}.

(** The block at [beg] is the list of its bytes. *)
Record buffer_text := mk_text {
  t_mem : list Z;
  t_gpt : Z;
  t_z : Z;
  t_gap_size : Z;
  t_end_gap_size : Z;
  t_modiff : Z;
  t_save_modiff : Z;
  t_changes : buffer_text_change_data;
}.

(** The elements of an undo list: nil, an integer, (BEG . END), (STRING . POS),
    (t HIGH . LOW), EXTENT and (EXTENT START END), and any other object. *)
Inductive undo_elt :=
| UBoundary
| UPos (n : Z)
| UInsert (beg end_ : Z)
| UDelete (str : list Z) (pos : Z)
| UTime (high low : Z)
| UAttach (extent : positive)
| UDetach (extent : positive) (start end_ : Z)
| URotten (x : Lisp_Object).

(** [undo_list]: [None] is t, which turns recording off. *)
Definition undo_list : Type := option (list undo_elt).

(** The value of inhibit-read-only in a buffer: a list or not. *)
Inductive inhibit :=
| InhibitList (l : list Lisp_Object)
| InhibitAll.

Record buffer := mk_buffer {
  b_live : bool;
  b_pt : Z;
  b_begv : Z;
  b_zv : Z;
  b_changes : each_buffer_change_data;
  b_markers : list Lisp_Marker;
  b_point_marker : positive;
  b_undo_list : undo_list;
  b_read_only : bool;
  b_inhibit_read_only : inhibit;
  b_filename : bool;
  b_modtime : Z;
  b_point_before_scroll : Lisp_Object;
}.

(** [Vquit_flag]: nil, t or the symbol critical. *)
Inductive quit_flag := QuitNil | QuitT | QuitCritical.

(** Variables of the whole editor. [g_signals] is what the keyboard does: what
    each later check for a quit finds typed since the previous one. *)
Record globals := mk_globals {
  g_quit_flag : quit_flag;
  g_inhibit_quit : bool;
  g_signals : list quit_flag;
  g_inside_change_hook : bool;
  g_in_first_change : bool;
  g_buffers_changed : bool;
  g_point_changed : bool;
  g_last_undo_here : bool;
  g_last_point_position : Z;
  g_last_point_position_buffer : option nat;
  g_inside_undo : bool;
  g_current : nat;
}.

(** The state. [X] is the state of the parts of the editor that are told about
    changes: extents, caches, locks. *)
Record world (X : Type) := mk_world {
  w_text : buffer_text;
  w_bufs : list buffer;
  w_ext : X;
  w_glob : globals;
}.
Arguments mk_world {X}.
Arguments w_text {X}.
Arguments w_bufs {X}.
Arguments w_ext {X}.
Arguments w_glob {X}.

(** *** Settors *)

Definition set_gpt_gap (t : buffer_text) (mem : list Z) (gpt gap end_gap : Z) : buffer_text :=
  mk_text mem gpt (t_z t) gap end_gap (t_modiff t) (t_save_modiff t) (t_changes t).

Definition set_mem (t : buffer_text) (mem : list Z) : buffer_text :=
  set_gpt_gap t mem (t_gpt t) (t_gap_size t) (t_end_gap_size t).

(** [SET_BI_BUF_GPT], [SET_BUF_GAP_SIZE], [SET_BUF_END_GAP_SIZE], [SET_BOTH_BUF_Z]. *)
Definition SET_BI_BUF_GPT (t : buffer_text) (v : Z) : buffer_text :=
  set_gpt_gap t (t_mem t) v (t_gap_size t) (t_end_gap_size t).
Definition SET_BUF_GAP_SIZE (t : buffer_text) (v : Z) : buffer_text :=
  set_gpt_gap t (t_mem t) (t_gpt t) (to_int v) (t_end_gap_size t).
Definition SET_BUF_END_GAP_SIZE (t : buffer_text) (v : Z) : buffer_text :=
  set_gpt_gap t (t_mem t) (t_gpt t) (t_gap_size t) (to_int v).
Definition SET_BOTH_BUF_Z (t : buffer_text) (v : Z) : buffer_text :=
  mk_text (t_mem t) (t_gpt t) v (t_gap_size t) (t_end_gap_size t) (t_modiff t)
    (t_save_modiff t) (t_changes t).
Definition set_modiff (t : buffer_text) (v : Z) : buffer_text :=
  mk_text (t_mem t) (t_gpt t) (t_z t) (t_gap_size t) (t_end_gap_size t) v
    (t_save_modiff t) (t_changes t).
Definition set_save_modiff (t : buffer_text) (v : Z) : buffer_text :=
  mk_text (t_mem t) (t_gpt t) (t_z t) (t_gap_size t) (t_end_gap_size t) (t_modiff t)
    v (t_changes t).
Definition set_text_changes (t : buffer_text) (c : buffer_text_change_data) : buffer_text :=
  mk_text (t_mem t) (t_gpt t) (t_z t) (t_gap_size t) (t_end_gap_size t) (t_modiff t)
    (t_save_modiff t) c.

(** [JUST_SET_POINT], [SET_BOTH_BUF_BEGV] and [SET_BOTH_BUF_ZV]. *)
Definition JUST_SET_POINT (b : buffer) (v : Z) : buffer :=
  mk_buffer (b_live b) v (b_begv b) (b_zv b) (b_changes b) (b_markers b)
    (b_point_marker b) (b_undo_list b) (b_read_only b) (b_inhibit_read_only b)
    (b_filename b) (b_modtime b) (b_point_before_scroll b).
Definition SET_BOTH_BUF_BEGV (b : buffer) (v : Z) : buffer :=
  mk_buffer (b_live b) (b_pt b) v (b_zv b) (b_changes b) (b_markers b)
    (b_point_marker b) (b_undo_list b) (b_read_only b) (b_inhibit_read_only b)
    (b_filename b) (b_modtime b) (b_point_before_scroll b).
Definition SET_BOTH_BUF_ZV (b : buffer) (v : Z) : buffer :=
  mk_buffer (b_live b) (b_pt b) (b_begv b) v (b_changes b) (b_markers b)
    (b_point_marker b) (b_undo_list b) (b_read_only b) (b_inhibit_read_only b)
    (b_filename b) (b_modtime b) (b_point_before_scroll b).
Definition set_markers (b : buffer) (l : list Lisp_Marker) : buffer :=
  mk_buffer (b_live b) (b_pt b) (b_begv b) (b_zv b) (b_changes b) l
    (b_point_marker b) (b_undo_list b) (b_read_only b) (b_inhibit_read_only b)
    (b_filename b) (b_modtime b) (b_point_before_scroll b).
Definition set_changes (b : buffer) (c : each_buffer_change_data) : buffer :=
  mk_buffer (b_live b) (b_pt b) (b_begv b) (b_zv b) c (b_markers b)
    (b_point_marker b) (b_undo_list b) (b_read_only b) (b_inhibit_read_only b)
    (b_filename b) (b_modtime b) (b_point_before_scroll b).
Definition set_undo_list (b : buffer) (l : undo_list) : buffer :=
  mk_buffer (b_live b) (b_pt b) (b_begv b) (b_zv b) (b_changes b) (b_markers b)
    (b_point_marker b) l (b_read_only b) (b_inhibit_read_only b)
    (b_filename b) (b_modtime b) (b_point_before_scroll b).
Definition set_inhibit_read_only (b : buffer) (i : inhibit) : buffer :=
  mk_buffer (b_live b) (b_pt b) (b_begv b) (b_zv b) (b_changes b) (b_markers b)
    (b_point_marker b) (b_undo_list b) (b_read_only b) i
    (b_filename b) (b_modtime b) (b_point_before_scroll b).
Definition set_point_before_scroll (b : buffer) (x : Lisp_Object) : buffer :=
  mk_buffer (b_live b) (b_pt b) (b_begv b) (b_zv b) (b_changes b) (b_markers b)
    (b_point_marker b) (b_undo_list b) (b_read_only b) (b_inhibit_read_only b)
    (b_filename b) (b_modtime b) x.

Definition set_quit (g : globals) (f : quit_flag) (sigs : list quit_flag) : globals :=
  mk_globals f (g_inhibit_quit g) sigs (g_inside_change_hook g) (g_in_first_change g)
    (g_buffers_changed g) (g_point_changed g) (g_last_undo_here g)
    (g_last_point_position g) (g_last_point_position_buffer g) (g_inside_undo g) (g_current g).
Definition set_inhibit_quit (g : globals) (v : bool) : globals :=
  mk_globals (g_quit_flag g) v (g_signals g) (g_inside_change_hook g) (g_in_first_change g)
    (g_buffers_changed g) (g_point_changed g) (g_last_undo_here g)
    (g_last_point_position g) (g_last_point_position_buffer g) (g_inside_undo g) (g_current g).
Definition set_inside_change_hook (g : globals) (v : bool) : globals :=
  mk_globals (g_quit_flag g) (g_inhibit_quit g) (g_signals g) v (g_in_first_change g)
    (g_buffers_changed g) (g_point_changed g) (g_last_undo_here g)
    (g_last_point_position g) (g_last_point_position_buffer g) (g_inside_undo g) (g_current g).
Definition set_in_first_change (g : globals) (v : bool) : globals :=
  mk_globals (g_quit_flag g) (g_inhibit_quit g) (g_signals g) (g_inside_change_hook g) v
    (g_buffers_changed g) (g_point_changed g) (g_last_undo_here g)
    (g_last_point_position g) (g_last_point_position_buffer g) (g_inside_undo g) (g_current g).
Definition set_redisplay (g : globals) (bufs point : bool) : globals :=
  mk_globals (g_quit_flag g) (g_inhibit_quit g) (g_signals g) (g_inside_change_hook g)
    (g_in_first_change g) bufs point (g_last_undo_here g)
    (g_last_point_position g) (g_last_point_position_buffer g) (g_inside_undo g) (g_current g).
Definition set_last_undo_here (g : globals) (v : bool) : globals :=
  mk_globals (g_quit_flag g) (g_inhibit_quit g) (g_signals g) (g_inside_change_hook g)
    (g_in_first_change g) (g_buffers_changed g) (g_point_changed g) v
    (g_last_point_position g) (g_last_point_position_buffer g) (g_inside_undo g) (g_current g).
Definition set_inside_undo (g : globals) (v : bool) : globals :=
  mk_globals (g_quit_flag g) (g_inhibit_quit g) (g_signals g) (g_inside_change_hook g)
    (g_in_first_change g) (g_buffers_changed g) (g_point_changed g) (g_last_undo_here g)
    (g_last_point_position g) (g_last_point_position_buffer g) v (g_current g).
Definition set_current (g : globals) (v : nat) : globals :=
  mk_globals (g_quit_flag g) (g_inhibit_quit g) (g_signals g) (g_inside_change_hook g)
    (g_in_first_change g) (g_buffers_changed g) (g_point_changed g) (g_last_undo_here g)
    (g_last_point_position g) (g_last_point_position_buffer g) (g_inside_undo g) v.

(** ** Effects *)

Inductive outcome (A : Type) :=
| Done (a : A)
| Signal (e : lisp_error)
| Fault.
Arguments Done {A} a.
Arguments Signal {A} e.
Arguments Fault {A}.

Section Effects.
Context {X : Type}.

Definition M (A : Type) : Type := world X -> outcome A * world X.

Definition ret {A} (a : A) : M A := fun w => (Done a, w).
Definition signal {A} (e : lisp_error) : M A := fun w => (Signal e, w).
Definition fault {A} : M A := fun w => (Fault, w).
Definition bind {A B} (m : M A) (k : A -> M B) : M B := fun w =>
  match m w with
  | (Done a, w) => k a w
  | (Signal e, w) => (Signal e, w)
  | (Fault, w) => (Fault, w)
  end.
Definition get {A} (f : world X -> A) : M A := fun w => (Done (f w), w).
Definition upd (f : world X -> world X) : M unit := fun w => (Done tt, f w).
Definition when (c : bool) (m : M unit) : M unit := if c then m else ret tt.
Definition of_option {A} (o : option A) : M A :=
  match o with Some a => ret a | None => fault end.

(** [unbind_to] and every non-local exit run [f]. *)
Definition unwind_protect {A} (m : M A) (f : world X -> world X) : M A := fun w =>
  let '(r, w) := m w in (r, f w).

Definition upd_text (f : buffer_text -> buffer_text) (w : world X) : world X :=
  mk_world (f (w_text w)) (w_bufs w) (w_ext w) (w_glob w).
Definition upd_ext (f : X -> X) (w : world X) : world X :=
  mk_world (w_text w) (w_bufs w) (f (w_ext w)) (w_glob w).
Definition upd_glob (f : globals -> globals) (w : world X) : world X :=
  mk_world (w_text w) (w_bufs w) (w_ext w) (f (w_glob w)).
Definition upd_bufs (f : list buffer -> list buffer) (w : world X) : world X :=
  mk_world (w_text w) (f (w_bufs w)) (w_ext w) (w_glob w).

(** The fields of one buffer. *)
Definition upd_buf (v : nat) (f : buffer -> buffer) : world X -> world X :=
  upd_bufs (alter f v).
Definition get_buf (v : nat) : M buffer := fun w => of_option (w_bufs w !! v) w.

(** [MAP_INDIRECT_BUFFERS] with a body that changes only [mbuf] ... *)
Definition map_indirect (f : nat -> buffer -> buffer) : world X -> world X :=
  upd_bufs (imap (fun v b => if b_live b then f v b else b)).

(** ... or only what is told of changes ... *)
Definition map_indirect_ext (f : nat -> X -> X) (w : world X) : world X :=
  upd_ext (fun x =>
    fold_left (fun x v =>
      match w_bufs w !! v with
      | Some b => if b_live b then f v x else x
      | None => x
      end) (seq 0 (length (w_bufs w))) x) w.

(** ... or that can run Lisp. *)
Fixpoint map_indirect_from (vs : list nat) (f : nat -> M unit) : M unit :=
  match vs with
  | [] => ret tt
  | v :: vs =>
      bind (get_buf v) (fun b =>
      bind (if b_live b then f v else ret tt) (fun _ =>
      map_indirect_from vs f))
  end.
Definition map_indirect_m (f : nat -> M unit) : M unit := fun w =>
  map_indirect_from (seq 0 (length (w_bufs w))) f w.
End Effects.
Arguments M X A : clear implicits.

Notation "'let!' x := m 'in' k" := (bind m (fun x => k))
  (at level 10, x pattern, k at level 200) : xe_scope.
Notation "m ;; k" := (bind m (fun _ => k))
  (at level 100, k at level 200, right associativity) : xe_scope.
#[global] Open Scope xe_scope.

(** ** Quitting *)

Section Quit.
Context {X : Type}.

(** [check_quit] takes note of what was typed. *)
Definition check_quit (g : globals) : globals :=
  match g_signals g with
  | [] => g
  | QuitNil :: sigs => set_quit g (g_quit_flag g) sigs
  | f :: sigs => set_quit g f sigs
  end.

(** A critical quit is not inhibited. *)
Definition should_quit (g : globals) : bool :=
  match g_quit_flag g with
  | QuitNil => false
  | QuitT => negb (g_inhibit_quit g)
  | QuitCritical => true
  end.

Definition QUITP : M X bool :=
  upd (upd_glob check_quit);; get (fun w => should_quit (w_glob w)).

(** [QUIT], with [signal_quit]; the debugger does not continue. *)
Definition QUIT : M X unit :=
  let! q := QUITP in
  if q : bool then
    (upd (upd_glob (fun g => set_quit g QuitNil (g_signals g)));; signal Qquit)
  else ret tt.
End Quit.

(** What the editor runs around a change, in the order of the code: the check of
    read-only extents, the file locking and supersession checks (and the taking
    and releasing of the lock alone), and the change functions; [buf] is the buffer being changed, [mbuf] the one whose functions
    run. *)
Inductive hook :=
| VerifyExtents (mbuf : nat) (from to : Z) (iro : inhibit)
| LockFile (buf : nat)
| SetLock (buf : nat) (lock : bool)
| FirstChange (mbuf : nat)
| BeforeChange (buf mbuf : nat) (start end_ : Z)
| AfterChange (buf mbuf : nat) (start new_end oldlen : Z)
| ReportExtents (mbuf : nat) (start end_ : Z) (afterp : bool).

(** The parts that are told about changes: src/src/extents.c, line-number.c and
    font-lock.c keep their own state up to date; hooks are Lisp code. *)
Class Collaborators (X : Type) := {
  adjust_extents : nat -> Z -> Z -> Z -> X -> X;
  process_extents_for_insertion : nat -> Z -> Z -> X -> X;
  process_extents_for_deletion : nat -> Z -> Z -> bool -> X -> X;
  adjust_extents_for_deletion : nat -> Z -> Z -> Z -> Z -> Z -> X -> X;
  splice_in_string_extents : list Z -> nat -> Z -> Z -> Z -> X -> X;
  insert_invalidate_line_number_cache : Z -> list Z -> X -> X;
  delete_invalidate_line_number_cache : Z -> Z -> X -> X;
  narrow_line_number_cache : nat -> X -> X;
  font_lock_maybe_update_syntactic_caches : nat -> Z -> Z -> Z -> X -> X;
  call_hook : hook -> M X unit;
}.

(** ** Positions and memory indices *)

Definition BUF_BEG : Z := 1.

Definition valid_memind_p (t : buffer_text) (x : Z) : bool :=
  ((1 <=? x) && (x <=? t_gpt t)) ||
  ((t_gpt t + t_gap_size t <? x) && (x <=? t_z t + t_gap_size t)).

Definition bytind_to_memind (t : buffer_text) (x : Z) : Z :=
  if x >? t_gpt t then x + t_gap_size t else x.

Definition memind_to_bytind (t : buffer_text) (x : Z) : Z :=
  if x >? t_gpt t then x - t_gap_size t else x.

(** [BI_BUF_BYTE_ADDRESS], as an offset from [beg]. *)
Definition BI_BUF_BYTE_ADDRESS (t : buffer_text) (pos : Z) : Z :=
  (if pos >=? t_gpt t then pos + t_gap_size t else pos) - 1.

Definition BUF_GPT_ADDR (t : buffer_text) : Z := t_gpt t - 1.

(** [BUF_FETCH_CHAR]. *)
Definition BUF_FETCH_CHAR (t : buffer_text) (pos : Z) : option Z :=
  zget (t_mem t) (BI_BUF_BYTE_ADDRESS t pos).

(** [make_string_from_buffer_1], less the extents. *)
Definition make_string_from_buffer (t : buffer_text) (pos length : Z) : option (list Z) :=
  let len1 := t_gpt t - pos in
  let start1 := BI_BUF_BYTE_ADDRESS t pos in
  if len1 <? 0 then mem_read (t_mem t) start1 length
  else if length <=? len1 then mem_read (t_mem t) start1 length
  else
    s1 ← mem_read (t_mem t) start1 len1;
    s2 ← mem_read (t_mem t) (BI_BUF_BYTE_ADDRESS t (pos + len1)) (length - len1);
    Some (s1 ++ s2).

(** ** The text of a buffer *)

(** The bytes of a block that has a gap of [gap] bytes at [gpt], up to [z]. *)
Definition gap_str (mem : list Z) (gpt gap z : Z) : list Z :=
  ztake (gpt - 1) mem ++ ztake (z - gpt) (zdrop (gpt - 1 + gap) mem).

Definition text_str (t : buffer_text) : list Z :=
  gap_str (t_mem t) (t_gpt t) (t_gap_size t) (t_z t).

Record text_wf (t : buffer_text) : Prop := {
  wf_gpt : 1 <= t_gpt t <= t_z t;
  wf_gap : 0 <= t_gap_size t;
  wf_end_gap : 0 <= t_end_gap_size t;
  wf_mem : zlen (t_mem t) = t_z t - 1 + t_gap_size t + t_end_gap_size t;
  wf_int : zlen (t_mem t) < 2 ^ 31;
}.

(** A slice of a list, by [Z]. *)
Definition slice (l : list Z) (off n : Z) : list Z := ztake n (zdrop off l).

Lemma length_gap_str mem gpt gap z :
  1 <= gpt <= z -> 0 <= gap -> z - 1 + gap <= zlen mem ->
  zlen (gap_str mem gpt gap z) = z - 1.
Proof. intros. unfold gap_str. lens. lia. Qed.

Lemma length_text_str t : text_wf t -> zlen (text_str t) = t_z t - 1.
Proof. intros []. apply length_gap_str; lia. Qed.

Lemma BUF_FETCH_CHAR_str t pos :
  text_wf t -> 1 <= pos < t_z t -> BUF_FETCH_CHAR t pos = zget (text_str t) (pos - 1).
Proof.
  intros [] Hp. unfold BUF_FETCH_CHAR, BI_BUF_BYTE_ADDRESS, text_str, gap_str.
  rewrite zget_app. rewrite length_take, Nat.min_l by lia.
  replace (Z.of_nat (Z.to_nat (t_gpt t - 1))) with (t_gpt t - 1) by lia.
  ztest; try lia; rewrite !zget_lookup by lia.
  all: rewrite lookup_take_lt by lia; rewrite ?lookup_drop; try done; f_equal; lia.
Qed.

Lemma mem_read_Some mem off n :
  0 <= off -> 0 <= n -> off + n <= zlen mem -> mem_read mem off n = Some (slice mem off n).
Proof. intros. unfold mem_read, slice. zcase. Qed.

Lemma length_slice l off n :
  0 <= off -> 0 <= n -> off + n <= zlen l -> zlen (slice l off n) = n.
Proof. intros. unfold slice. lens. lia. Qed.

Lemma slice_app_l l1 l2 off n :
  0 <= off -> 0 <= n -> off + n <= zlen l1 -> slice (l1 ++ l2) off n = slice l1 off n.
Proof. intros. unfold slice. list_ext. Qed.

Lemma slice_app_r l1 l2 off n :
  zlen l1 <= off -> 0 <= n -> slice (l1 ++ l2) off n = slice l2 (off - zlen l1) n.
Proof. intros. unfold slice. list_ext. Qed.

(** A string made from a buffer is the part of its text, wherever the gap is. *)
Lemma make_string_from_buffer_str t pos n :
  text_wf t -> 1 <= pos -> 0 <= n -> pos + n <= t_z t ->
  make_string_from_buffer t pos n = Some (slice (text_str t) (pos - 1) n).
Proof.
  intros [] Hp Hn Hz. unfold make_string_from_buffer, BI_BUF_BYTE_ADDRESS, text_str, gap_str.
  destruct (Z.ltb_spec (t_gpt t - pos) 0); [| destruct (Z.leb_spec n (t_gpt t - pos))].
  - zcase. rewrite mem_read_Some by lia. f_equal. unfold slice. list_ext.
  - zcase; rewrite mem_read_Some by lia; f_equal; unfold slice; list_ext.
  - replace (pos + (t_gpt t - pos)) with (t_gpt t) by lia.
    rewrite (Z.geb_leb (t_gpt t)), Z.leb_refl.
    zcase; rewrite mem_read_Some by lia; cbn [mbind option_bind];
      rewrite mem_read_Some by lia; cbn [mbind option_bind]; f_equal; unfold slice; list_ext.
Qed.

(** ** Memory indices *)

Lemma memind_of_bytind t x :
  text_wf t -> 1 <= x <= t_z t ->
  valid_memind_p t (bytind_to_memind t x) = true /\
  memind_to_bytind t (bytind_to_memind t x) = x.
Proof.
  intros [] Hx. unfold valid_memind_p, memind_to_bytind, bytind_to_memind. zcase.
Qed.

Lemma bytind_of_memind t x :
  text_wf t -> valid_memind_p t x = true ->
  1 <= memind_to_bytind t x <= t_z t /\
  bytind_to_memind t (memind_to_bytind t x) = x.
Proof.
  intros []. unfold valid_memind_p, memind_to_bytind, bytind_to_memind. zcase.
Qed.

(** ** Well-formed states *)

(** A marker as the program sees it. *)
Definition marker_view (t : buffer_text) (m : Lisp_Marker) : positive * Z * bool :=
  (m_id m, memind_to_bytind t (m_memind m), m_insertion_type m).

Record buffer_wf (t : buffer_text) (b : buffer) : Prop := {
  wf_begv : 1 <= b_begv b;
  wf_pt : b_begv b <= b_pt b <= b_zv b;
  wf_zv : b_zv b <= t_z t;
  wf_markers : Forall (fun m => valid_memind_p t (m_memind m) = true) (b_markers b);
}.

(** [uninit_buffer_markers] has run on a dead buffer. *)
Definition live_wf (t : buffer_text) (b : buffer) : Prop :=
  if b_live b then buffer_wf t b else b_markers b = [].

(** Nobody types a critical quit, which works even where quitting is inhibited. *)
Definition quit_ok (g : globals) : Prop :=
  g_quit_flag g <> QuitCritical /\ Forall (fun f => f <> QuitCritical) (g_signals g).

Record world_wf {X} (w : world X) : Prop := {
  wf_text : text_wf (w_text w);
  wf_bufs : Forall (live_wf (w_text w)) (w_bufs w);
  wf_quit : quit_ok (w_glob w);
}.

(** ** The abstract state: what a program sees of the buffers *)

Record abuf := mk_abuf {
  a_live : bool;
  a_pt : Z;
  a_begv : Z;
  a_zv : Z;
  a_markers : list (positive * Z * bool);
  a_point_marker : positive;
  a_undo : undo_list;
  a_modtime : Z;
}.

Record astate := mk_astate {
  a_str : list Z;
  a_bufs : list abuf;
  a_modiff : Z;
  a_save_modiff : Z;
  a_last_undo_here : bool;
  a_last_point_position : Z;
  a_last_point_position_buffer : option nat;
}.

Definition abs_buf (t : buffer_text) (b : buffer) : abuf :=
  mk_abuf (b_live b) (b_pt b) (b_begv b) (b_zv b) (map (marker_view t) (b_markers b))
    (b_point_marker b) (b_undo_list b) (b_modtime b).

Definition abs_world {X} (w : world X) : astate :=
  mk_astate (text_str (w_text w)) (map (abs_buf (w_text w)) (w_bufs w))
    (t_modiff (w_text w)) (t_save_modiff (w_text w)) (g_last_undo_here (w_glob w))
    (g_last_point_position (w_glob w)) (g_last_point_position_buffer (w_glob w)).

(** ** Reasoning about effects *)

Section Wp.
Context {X : Type}.

(** Every outcome of [m] from [w]: [Q] if it returns, [E] if it signals; it never
    faults. *)
Definition wp {A} (m : M X A) (Q : A -> world X -> Prop) (E : lisp_error -> world X -> Prop)
    (w : world X) : Prop :=
  match m w with
  | (Done a, w') => Q a w'
  | (Signal e, w') => E e w'
  | (Fault, _) => False
  end.

Lemma wp_ret {A} (a : A) Q E w : Q a w -> wp (ret a) Q E w.
Proof. done. Qed.

Lemma wp_signal {A} e (Q : A -> world X -> Prop) E w : E e w -> wp (signal e) Q E w.
Proof. done. Qed.

Lemma wp_bind {A B} (m : M X A) (k : A -> M X B) Q E w :
  wp m (fun a => wp (k a) Q E) E w -> wp (bind m k) Q E w.
Proof. unfold wp, bind. by destruct (m w) as [[] ?]. Qed.

Lemma wp_get {A} (f : world X -> A) Q E w : Q (f w) w -> wp (get f) Q E w.
Proof. done. Qed.

Lemma wp_upd f Q E (w : world X) : Q tt (f w) -> wp (upd f) Q E w.
Proof. done. Qed.

Lemma wp_of_option {A} (o : option A) a Q E (w : world X) :
  o = Some a -> Q a w -> wp (of_option o) Q E w.
Proof. by intros ->. Qed.

Lemma wp_get_buf v b Q E (w : world X) : w_bufs w !! v = Some b -> Q b w -> wp (get_buf v) Q E w.
Proof. unfold wp, get_buf. by intros ->. Qed.

Lemma wp_mono {A} (m : M X A) (Q Q' : A -> world X -> Prop) (E E' : lisp_error -> world X -> Prop) w :
  wp m Q E w -> (forall a w, Q a w -> Q' a w) -> (forall e w, E e w -> E' e w) -> wp m Q' E' w.
Proof. unfold wp. destruct (m w) as [[] ?]; auto. Qed.

Lemma wp_unwind {A} (m : M X A) f (Q : A -> world X -> Prop) E w :
  wp m (fun a w => Q a (f w)) (fun e w => E e (f w)) w -> wp (unwind_protect m f) Q E w.
Proof. unfold wp, unwind_protect. by destruct (m w) as [[] ?]. Qed.

(** Quitting changes the quit flag only, and a set flag stays set. *)
Definition quit_only (g g' : globals) : Prop :=
  quit_ok g' /\ g' = set_quit g (g_quit_flag g') (g_signals g') /\
  (g_quit_flag g <> QuitNil -> g_quit_flag g' <> QuitNil).

Lemma quit_only_refl g : quit_ok g -> quit_only g g.
Proof. intros. split_and!; try done. by destruct g. Qed.

Lemma quit_only_trans g1 g2 g3 : quit_only g1 g2 -> quit_only g2 g3 -> quit_only g1 g3.
Proof.
  intros (? & H1 & ?) (? & H2 & ?). split_and!; try done; [| auto].
  rewrite H2. rewrite H1. by destruct g1.
Qed.

Lemma quit_only_should g g' :
  quit_ok g -> quit_only g g' -> should_quit g = true -> should_quit g' = true.
Proof.
  intros [Hg _] ([Hf _] & E & Hn). unfold should_quit.
  assert (g_inhibit_quit g' = g_inhibit_quit g) as -> by (by rewrite E).
  destruct (g_quit_flag g); try done; destruct (g_quit_flag g'); try done.
  exfalso. by apply Hn.
Qed.

Lemma check_quit_only g : quit_ok g -> quit_only g (check_quit g).
Proof.
  intros Hok. pose proof Hok as [Hf Hs]. unfold check_quit.
  destruct (g_signals g) as [| [] sigs] eqn:E; [by apply quit_only_refl | | | ];
    apply Forall_cons in Hs as [Hs1 Hs2]; try done;
    (split_and!; [by split | by destruct g | done]).
Qed.

Lemma inhibited_no_quit g : quit_ok g -> g_inhibit_quit g = true -> should_quit g = false.
Proof. intros [Hf _] Hi. unfold should_quit. rewrite Hi. by destruct (g_quit_flag g). Qed.

Lemma QUITP_spec (w : world X) :
  quit_ok (w_glob w) ->
  exists g', QUITP w = (Done (should_quit g'), upd_glob (fun _ => g') w) /\
    quit_only (w_glob w) g'.
Proof. intros Hq. exists (check_quit (w_glob w)). split; [done | by apply check_quit_only]. Qed.
End Wp.
