(* ===== verification/Scan.v ===== *)
(** * Scanning a buffer for a character (src/src/search.c)

    [bi_scan_buffer] looks for the COUNTth occurrence of a byte, forwards or
    backwards, one contiguous stretch of memory at a time. *)

From S2P Require Import Prelude Lisp Buffer.

(** [BI_BUF_CEILING_OF], [BI_BUF_FLOOR_OF]: how far memory is contiguous. *)
Definition BI_BUF_CEILING_OF (t : buffer_text) (b : buffer) (n : Z) : Z :=
  if (n <? t_gpt t) && (t_gpt t <? b_zv b) then t_gpt t else b_zv b.

Definition BI_BUF_FLOOR_OF (t : buffer_text) (b : buffer) (n : Z) : Z :=
  if (b_begv b <? t_gpt t) && (t_gpt t <? n) then t_gpt t else b_begv b.

Definition BI_BUF_BYTE_ADDRESS_BEFORE (t : buffer_text) (pos : Z) : Z :=
  (if pos >? t_gpt t then pos + t_gap_size t else pos) - 2.

Definition BI_BUF_PTR_BYTE_POS (t : buffer_text) (ptr : Z) : Z :=
  ptr + 1 - (if ptr + 1 >? t_gpt t then t_gap_size t else 0).

(** [memchr]: the offset of the first [target] among the bytes, if any. *)
Fixpoint mem_index (bs : list Z) (target : Z) : option Z :=
  match bs with
  | [] => None
  | x :: bs => if x =? target then Some 0 else option_map Z.succ (mem_index bs target)
  end.

Definition memchr (mem : list Z) (off target n : Z) : option (option Z) :=
  bs ← mem_read mem off n;
  Some (option_map (Z.add off) (mem_index bs target)).

(** The forward loop; the position reached and the count left. *)
Fixpoint scan_forward (fuel : nat) (t : buffer_text) (b : buffer) (target st lim count : Z)
  : option (Z * Z) :=
  match fuel with
  | O => None
  | S fuel =>
      if (st <? lim) && (count >? 0) then
        let ceil := Z.min lim (BI_BUF_CEILING_OF t b st) in
        bufptr ← memchr (t_mem t) (BI_BUF_BYTE_ADDRESS t st) target (ceil - st);
        match bufptr with
        | Some p => scan_forward fuel t b target (BI_BUF_PTR_BYTE_POS t p + 1) lim (count - 1)
        | None => scan_forward fuel t b target ceil lim count
        end
      else Some (st, count)
  end.

(** The inner backward loop: down from [bufptr] to [floorptr]. *)
Fixpoint scan_down (fuel : nat) (mem : list Z) (target st bufptr floorptr : Z)
  : option (Z * bool) :=
  match fuel with
  | O => None
  | S fuel =>
      if bufptr >=? floorptr then
        x ← zget mem bufptr;
        if x =? target then Some (st - 1, true)
        else scan_down fuel mem target (st - 1) (bufptr - 1) floorptr
      else Some (st, false)
  end.

Fixpoint scan_backward (fuel : nat) (t : buffer_text) (b : buffer) (target st lim count : Z)
  : option (Z * Z) :=
  match fuel with
  | O => None
  | S fuel =>
      if (st >? lim) && (count <? 0) then
        let floor := Z.max lim (BI_BUF_FLOOR_OF t b st) in
        '(st, found) ← scan_down (Z.to_nat (st - floor) + 1) (t_mem t) target st
                         (BI_BUF_BYTE_ADDRESS_BEFORE t st) (BI_BUF_BYTE_ADDRESS t floor);
        scan_backward fuel t b target st lim (if found : bool then count + 1 else count)
      else Some (st, count)
  end.

(** [bi_scan_buffer]: the position and [*shortage], before the check for a quit. *)
Definition bi_scan_buffer_1 (t : buffer_text) (b : buffer) (target st en count : Z)
  : option (Z * Z) :=
  if count >? 0 then
    let lim := if en >? 0 then en else b_zv b in
    '(st, count) ← scan_forward (Z.to_nat (lim - st) + 1) t b target st lim count;
    Some (st, count)
  else
    let lim := if en >? 0 then en else b_begv b in
    '(st, count) ← scan_backward (Z.to_nat (st - lim) + 1) t b target st lim count;
    Some (if count =? 0 then st + 1 else st, - count).

Definition scan_buffer {X} (v : nat) (target start end_ count : Z) (allow_quit : bool)
  : M X (Z * Z) :=
  let! t := get w_text in
  let! b := get_buf v in
  let! r := of_option (bi_scan_buffer_1 t b target start end_ count) in
  when allow_quit QUIT;;
  ret r.

(** ** The reference: one byte after the other *)

(** Over the bytes from [pos] on, until [count] of them are [target]. *)
Fixpoint scan_ref (step : Z) (target : Z) (bs : list Z) (pos count : Z) : Z * Z :=
  match bs with
  | [] => (pos, count)
  | x :: bs =>
      if count =? 0 then (pos, count)
      else scan_ref step target bs (pos + step) (if x =? target then count - step else count)
  end.

Lemma scan_ref_0 step target bs pos : scan_ref step target bs pos 0 = (pos, 0).
Proof. by destruct bs. Qed.

(** A first piece without the target, and then the rest. *)
Lemma scan_ref_skip step target bs1 bs2 pos count :
  count <> 0 -> Forall (fun x => x <> target) bs1 ->
  scan_ref step target (bs1 ++ bs2) pos count =
  scan_ref step target bs2 (pos + step * zlen bs1) count.
Proof.
  intros Hc Hall. revert pos. induction Hall as [| x bs1 Hx Hall IH]; intros pos.
  - cbn [app length]. f_equal. lia.
  - cbn [app scan_ref length]. rewrite (proj2 (Z.eqb_neq count 0) Hc), (proj2 (Z.eqb_neq x target) Hx).
    rewrite IH. f_equal. lia.
Qed.

Lemma scan_ref_hit step target bs pos count :
  count <> 0 -> scan_ref step target (target :: bs) pos count =
  scan_ref step target bs (pos + step) (count - step).
Proof. intros Hc. cbn. by rewrite (proj2 (Z.eqb_neq count 0) Hc), Z.eqb_refl. Qed.

Lemma mem_index_spec bs target :
  match mem_index bs target with
  | Some k => exists bs1 bs2, bs = bs1 ++ target :: bs2 /\ zlen bs1 = k /\
                Forall (fun x => x <> target) bs1
  | None => Forall (fun x => x <> target) bs
  end.
Proof.
  induction bs as [| x bs IH]; [constructor |]. cbn [mem_index].
  destruct (Z.eqb_spec x target) as [-> | Hne].
  - by exists [], bs.
  - destruct (mem_index bs target) as [k |]; cbn.
    + destruct IH as (bs1 & bs2 & -> & <- & Hall). exists (x :: bs1), bs2.
      split_and!; [done | cbn; lia | by constructor].
    + by constructor.
Qed.

Lemma mem_read_contiguous t st n :
  text_wf t -> 1 <= st -> 0 <= n -> st + n <= t_z t -> (t_gpt t <= st \/ st + n <= t_gpt t) ->
  mem_read (t_mem t) (BI_BUF_BYTE_ADDRESS t st) n = Some (slice (text_str t) (st - 1) n).
Proof.
  intros [] H1 Hn Hz Hc. unfold BI_BUF_BYTE_ADDRESS, text_str, gap_str. zdec;
    rewrite mem_read_Some by lia; f_equal; unfold slice.
  - rewrite (skipn_app _ (ztake _ _)). rewrite (drop_ge (ztake _ _)) by (lens; lia). cbn [app].
    list_ext.
  - list_ext.
Qed.

Lemma slice_split l off n m :
  0 <= off -> 0 <= n -> 0 <= m -> slice l off (n + m) = slice l off n ++ slice l (off + n) m.
Proof.
  intros. unfold slice. rewrite Z2Nat.inj_add, <- take_take_drop by lia. f_equal.
  rewrite drop_drop. do 2 f_equal. lia.
Qed.

Lemma length_slice_le t st n :
  text_wf t -> 1 <= st -> 0 <= n -> st + n <= t_z t -> zlen (slice (text_str t) (st - 1) n) = n.
Proof. intros Ht ???. apply length_slice; rewrite ?length_text_str by done; lia. Qed.

Section ScanCorrect.
Variables (t : buffer_text) (b : buffer) (target : Z).
Hypothesis Ht : text_wf t.

Definition region (st lim : Z) : list Z := slice (text_str t) (st - 1) (lim - st).

Lemma region_split st mid lim :
  1 <= st -> st <= mid <= lim -> region st lim = region st mid ++ region mid lim.
Proof.
  intros. unfold region. replace (lim - st) with ((mid - st) + (lim - mid)) by lia.
  rewrite slice_split by lia. do 2 f_equal. lia.
Qed.

Lemma scan_forward_ref fuel st lim count :
  1 <= st -> st <= lim -> lim <= b_zv b -> b_zv b <= t_z t -> 0 < count ->
  lim - st < Z.of_nat fuel ->
  scan_forward fuel t b target st lim count = Some (scan_ref 1 target (region st lim) st count).
Proof.
  revert st count. induction fuel as [| fuel IH]; intros st count H1 Hst Hlim Hz Hc Hf; [lia |].
  cbn [scan_forward]. destruct (Z.ltb_spec st lim) as [Hlt | Hge]; cbn [andb].
  2: { unfold region, slice. replace (lim - st) with 0 by lia. done. }
  rewrite (proj2 (Z.gtb_lt count 0)) by lia. cbv zeta.
  set (ceil := Z.min lim (BI_BUF_CEILING_OF t b st)).
  assert (st < ceil <= lim /\ (t_gpt t <= st \/ ceil <= t_gpt t)) as [Hceil Hcont].
  { unfold ceil, BI_BUF_CEILING_OF. destruct Ht. ztest; lia. }
  unfold memchr. rewrite mem_read_contiguous by (done || lia). cbn [mbind option_bind].
  fold (region st ceil). rewrite (region_split st ceil lim) by lia.
  pose proof (mem_index_spec (region st ceil) target) as Hmi.
  destruct (mem_index (region st ceil) target) as [k |]; cbn [option_map].
  - destruct Hmi as (bs1 & bs2 & E & Hk & Hall).
    assert (zlen (region st ceil) = ceil - st) as HL by (apply length_slice_le; (done || lia)).
    rewrite E in HL. rewrite length_app in HL. cbn [length] in HL.
    assert (BI_BUF_PTR_BYTE_POS t (BI_BUF_BYTE_ADDRESS t st + k) = st + k) as ->.
    { unfold BI_BUF_PTR_BYTE_POS, BI_BUF_BYTE_ADDRESS. destruct Ht. zdec; lia. }
    rewrite E, <- (assoc_L (++)), scan_ref_skip by (done || lia). cbn [app].
    rewrite scan_ref_hit by lia. rewrite Hk.
    replace (st + 1 * k + 1) with (st + k + 1) by lia.
    assert (region (st + k + 1) lim = bs2 ++ region ceil lim) as Hrest.
    { rewrite (region_split (st + k + 1) ceil lim) by lia. f_equal.
      rewrite (region_split st (st + k + 1) ceil) in E by lia.
      assert (length (region st (st + k + 1)) = S (length bs1)) as HL2.
      { assert (zlen (region st (st + k + 1)) = k + 1); [| lia].
        unfold region. rewrite length_slice_le by (done || lia). lia. }
      apply (f_equal (drop (S (length bs1)))) in E. rewrite drop_app_exact in E by lia.
      rewrite E. by rewrite (cons_middle target bs1 bs2), (assoc_L (++)),
        drop_app_exact by (rewrite length_app; cbn; lia). }
    rewrite <- Hrest. destruct (Z.eq_dec count 1) as [-> | Hne].
    + rewrite scan_ref_0. destruct fuel; [lia |]. cbn [scan_forward].
      by rewrite andb_false_r.
    + apply IH; lia.
  - rewrite scan_ref_skip by (done || lia).
    assert (zlen (region st ceil) = ceil - st) as -> by (apply length_slice_le; (done || lia)).
    replace (st + 1 * (ceil - st)) with ceil by lia. apply IH; lia.
Qed.

Lemma rev_region_last floor st x :
  1 <= floor -> floor < st -> st <= t_z t -> zget (text_str t) (st - 2) = Some x ->
  rev (region floor st) = x :: rev (region floor (st - 1)).
Proof.
  intros H1 Hlt Hz Hx. rewrite (region_split floor (st - 1) st) by lia. rewrite rev_app_distr.
  assert (region (st - 1) st = [x]) as ->; [| done].
  unfold region, slice. rewrite zget_lookup in Hx by lia.
  rewrite (drop_S _ x) by (replace (st - 1 - 1) with (st - 2) by lia; exact Hx).
  replace (Z.to_nat (st - (st - 1))) with 1%nat by lia. done.
Qed.

Lemma scan_down_spec floor floorptr fuel st ptr :
  1 <= floor -> floor <= st -> st <= t_z t -> st - floor < Z.of_nat fuel ->
  ptr = floorptr + (st - floor) - 1 ->
  (forall i, 0 <= i < st - floor ->
     zget (t_mem t) (floorptr + i) = zget (text_str t) (floor - 1 + i)) ->
  scan_down fuel (t_mem t) target st ptr floorptr =
  Some (match mem_index (rev (region floor st)) target with
        | Some k => (st - k - 1, true)
        | None => (floor, false)
        end).
Proof.
  intros H1 Hst Hz Hf -> Hmem. revert st Hst Hz Hf Hmem.
  induction fuel as [| fuel IH]; intros st Hst Hz Hf Hmem; [lia |]. cbn [scan_down].
  destruct (Z.eq_dec st floor) as [-> | Hne].
  { zdec. unfold region, slice. rewrite Z.sub_diag. done. }
  zdec. pose proof (length_text_str t Ht) as HL.
  destruct (zget_is_Some (text_str t) (st - 2)) as [x Hx]; [lia |].
  replace (floorptr + (st - floor) - 1) with (floorptr + (st - floor - 1)) by lia.
  rewrite (Hmem (st - floor - 1)) by lia.
  replace (floor - 1 + (st - floor - 1)) with (st - 2) by lia. rewrite Hx. cbn [mbind option_bind].
  rewrite (rev_region_last floor st x) by (done || lia). cbn [mem_index].
  destruct (Z.eqb_spec x target); [do 2 f_equal; lia |].
  replace (floorptr + (st - floor - 1) - 1) with (floorptr + (st - 1 - floor) - 1) by lia.
  rewrite IH by (try lia; intros; apply Hmem; lia).
  destruct (mem_index _ _); cbn [option_map]; [do 2 f_equal; lia | done].
Qed.

Lemma scan_backward_ref fuel st lim count :
  1 <= b_begv b -> b_begv b <= lim -> lim <= st -> st <= t_z t -> count < 0 ->
  st - lim < Z.of_nat fuel ->
  scan_backward fuel t b target st lim count =
  Some (scan_ref (-1) target (rev (region lim st)) st count).
Proof.
  revert st count. induction fuel as [| fuel IH]; intros st count H1 Hb Hst Hz Hc Hf; [lia |].
  cbn [scan_backward]. rewrite Z.gtb_ltb. destruct (Z.ltb_spec lim st) as [Hlt | Hge]; cbn [andb].
  2: { unfold region, slice. replace (st - lim) with 0 by lia. done. }
  rewrite (proj2 (Z.ltb_lt count 0)) by lia. cbv zeta.
  set (floor := Z.max lim (BI_BUF_FLOOR_OF t b st)).
  assert (lim <= floor < st /\ (t_gpt t <= floor /\ t_gpt t < st \/ st <= t_gpt t)) as [Hfl Hcont].
  { unfold floor, BI_BUF_FLOOR_OF. destruct Ht. ztest; lia. }
  rewrite (scan_down_spec floor (BI_BUF_BYTE_ADDRESS t floor)); try lia.
  2: { unfold BI_BUF_BYTE_ADDRESS_BEFORE, BI_BUF_BYTE_ADDRESS. zdec; lia. }
  2: { intros i Hi. pose proof (BUF_FETCH_CHAR_str t (floor + i) Ht) as Hc'.
       unfold BUF_FETCH_CHAR in Hc'. replace (floor - 1 + i) with (floor + i - 1) by lia.
       rewrite <- Hc' by lia. f_equal. unfold BI_BUF_BYTE_ADDRESS. zdec; lia. }
  cbn [mbind option_bind]. rewrite (region_split lim floor st), rev_app_distr by lia.
  pose proof (mem_index_spec (rev (region floor st)) target) as Hmi.
  assert (zlen (rev (region floor st)) = st - floor) as HL.
  { rewrite length_rev. apply length_slice_le; (done || lia). }
  destruct (mem_index (rev (region floor st)) target) as [k |].
  - destruct Hmi as (bs1 & bs2 & E & Hk & Hall).
    rewrite E in HL. rewrite length_app in HL. cbn [length] in HL.
    rewrite E, <- (assoc_L (++)), scan_ref_skip by (done || lia). cbn [app].
    rewrite scan_ref_hit by lia. rewrite Hk.
    replace (st + -1 * k + -1) with (st - k - 1) by lia. replace (count - -1) with (count + 1) by lia.
    assert (rev (region lim (st - k - 1)) = bs2 ++ rev (region lim floor)) as Hrest.
    { rewrite (region_split lim floor (st - k - 1)), rev_app_distr by lia. f_equal.
      rewrite (region_split floor (st - k - 1) st), rev_app_distr in E by lia.
      assert (length (rev (region (st - k - 1) st)) = S (length bs1)) as HL2.
      { assert (zlen (rev (region (st - k - 1) st)) = k + 1); [| lia].
        rewrite length_rev. unfold region. rewrite length_slice_le by (done || lia). lia. }
      apply (f_equal (drop (S (length bs1)))) in E. rewrite drop_app_exact in E by lia.
      rewrite E. by rewrite (cons_middle target bs1 bs2), (assoc_L (++)),
        drop_app_exact by (rewrite length_app; cbn; lia). }
    rewrite <- Hrest. destruct (Z.eq_dec count (-1)) as [-> | Hne].
    + change (-1 + 1) with 0. rewrite scan_ref_0. destruct fuel; [lia |]. cbn [scan_backward].
      by rewrite andb_false_r.
    + apply IH; lia.
  - rewrite <- (app_nil_r (rev (region floor st) ++ _)), <- (assoc_L (++)), scan_ref_skip by (done || lia).
    rewrite HL, app_nil_r. replace (st + -1 * (st - floor)) with floor by lia. apply IH; lia.
Qed.
End ScanCorrect.

(** How many of the bytes are [target]. *)
Definition occurrences (target : Z) (bs : list Z) : Z := zlen (filter (eq target) bs).

Lemma scan_ref_spec step target bs pos count :
  (step = 1 /\ 0 < count \/ step = -1 /\ count < 0) ->
  exists bs1 bs2 c, bs = bs1 ++ bs2 /\
    scan_ref step target bs pos count = (pos + step * zlen bs1, c) /\
    occurrences target bs1 = step * (count - c) /\ 0 <= step * c /\
    (c = 0 -> exists bs0, bs1 = bs0 ++ [target]) /\ (c <> 0 -> bs2 = []).
Proof.
  revert pos count. induction bs as [| x bs IH]; intros pos count Hc.
  { exists [], [], count. unfold occurrences.
    split_and!; try done; [cbn; f_equal; lia | cbn; lia | nia | lia]. }
  cbn [scan_ref]. rewrite (proj2 (Z.eqb_neq count 0)) by lia.
  destruct (Z.eqb_spec x target) as [-> | Hne].
  - destruct (Z.eq_dec (count - step) 0) as [E0 | Hn0].
    + rewrite E0, scan_ref_0. exists [target], bs, 0. split_and!; try done.
      * cbn. f_equal. lia.
      * unfold occurrences. rewrite filter_cons_True by done. cbn. lia.
      * lia.
      * intros _. by exists [].
    + destruct (IH (pos + step) (count - step)) as (bs1 & bs2 & c & E1 & E2 & E3 & E4 & E5 & E6); [lia |].
      exists (target :: bs1), bs2, c. split_and!; try done.
      * by rewrite E1.
      * rewrite E2. f_equal. cbn. nia.
      * unfold occurrences in *. rewrite filter_cons_True by done. cbn [length]. nia.
      * intros H0. destruct (E5 H0) as [bs0 ->]. by exists (target :: bs0).
  - destruct (IH (pos + step) count) as (bs1 & bs2 & c & E1 & E2 & E3 & E4 & E5 & E6); [done |].
    exists (x :: bs1), bs2, c. split_and!; try done.
    + by rewrite E1.
    + rewrite E2. f_equal. cbn. lia.
    + unfold occurrences in *. rewrite filter_cons_False by done. done.
    + intros H0. destruct (E5 H0) as [bs0 ->]. by exists (x :: bs0).
Qed.

Lemma occurrences_rev target bs : occurrences target (rev bs) = occurrences target bs.
Proof.
  unfold occurrences. f_equal. apply Permutation_length. by rewrite <- Permutation_rev.
Qed.

(** A prefix of a region is a region. *)
Lemma region_prefix t st lim bs1 bs2 :
  text_wf t -> 1 <= st -> st <= lim -> lim <= t_z t -> region t st lim = bs1 ++ bs2 ->
  st + zlen bs1 <= lim /\ bs1 = region t st (st + zlen bs1).
Proof.
  intros Ht H1 Hst Hlim E.
  assert (zlen (region t st lim) = lim - st) as HL by (apply length_slice_le; (done || lia)).
  pose proof HL as HL'. rewrite E, length_app in HL'. split; [lia |].
  rewrite (region_split t st (st + zlen bs1) lim) in E by lia.
  assert (length (region t st (st + zlen bs1)) = length bs1) as HL2.
  { assert (zlen (region t st (st + zlen bs1)) = zlen bs1); [| lia].
    unfold region. rewrite length_slice_le by (done || lia). lia. }
  apply (f_equal (take (length bs1))) in E. by rewrite !take_app_exact in E.
Qed.

(** What the search promises: the position, after the last occurrence it counted,
    and how many are missing. *)
Definition scan_found (t : buffer_text) (target : Z) (lo hi last count pos shortage : Z) : Prop :=
  lo <= hi /\ occurrences target (region t lo hi) = count - shortage /\ 0 <= shortage /\
  (shortage = 0 -> zget (text_str t) (pos - 2) = Some target) /\ (shortage <> 0 -> pos = last).

Lemma zget_region t lo hi i :
  1 <= lo -> 0 <= i < hi - lo -> zget (region t lo hi) i = zget (text_str t) (lo - 1 + i).
Proof.
  intros. rewrite !zget_lookup by lia. unfold region, slice.
  rewrite lookup_take_lt by lia. rewrite lookup_drop. f_equal. lia.
Qed.

Lemma scan_forward_found t b target st en count :
  let lim := if en >? 0 then en else b_zv b in
  text_wf t -> 1 <= st -> st <= lim -> lim <= b_zv b -> b_zv b <= t_z t -> 0 < count ->
  exists pos shortage, bi_scan_buffer_1 t b target st en count = Some (pos, shortage) /\
    pos <= lim /\ scan_found t target st pos lim count pos shortage.
Proof.
  intros lim Ht H1 Hst Hlim Hz Hc. unfold bi_scan_buffer_1. rewrite (proj2 (Z.gtb_lt count 0)) by lia.
  cbv zeta. fold lim. rewrite scan_forward_ref by (done || lia). cbn [mbind option_bind].
  destruct (scan_ref_spec 1 target (region t st lim) st count) as (bs1 & bs2 & c & E1 & E2 & E3 & E4 & E5 & E6);
    [lia |]. rewrite E2.
  destruct (region_prefix t st lim bs1 bs2) as [Hle Hpre]; try done; [lia |].
  exists (st + 1 * zlen bs1), c. split; [done |]. rewrite !Z.mul_1_l in *. split; [done |].
  unfold scan_found. rewrite <- Hpre. split_and!; try lia.
  - intros H0. destruct (E5 H0) as [bs0 Hbs0].
    assert (zlen bs1 = zlen bs0 + 1) as HL by (rewrite Hbs0, length_app; cbn; lia).
    assert (zget bs1 (zlen bs0) = Some target) as Hg by (rewrite Hbs0; apply zget_middle).
    rewrite Hpre, zget_region in Hg by lia. rewrite <- Hg. f_equal. lia.
  - intros Hn. rewrite (E6 Hn), app_nil_r in E1. rewrite <- E1.
    assert (zlen (region t st lim) = lim - st) as -> by (apply length_slice_le; (done || lia)). lia.
Qed.

Lemma scan_backward_found t b target st en count :
  let lim := if en >? 0 then en else b_begv b in
  text_wf t -> 1 <= b_begv b -> b_begv b <= lim -> lim <= st -> st <= t_z t -> count < 0 ->
  exists pos shortage, bi_scan_buffer_1 t b target st en count = Some (pos, shortage) /\
    lim <= (if shortage =? 0 then pos - 1 else pos) /\
    scan_found t target (if shortage =? 0 then pos - 1 else pos) st lim (- count) pos shortage.
Proof.
  intros lim Ht H1 Hb Hst Hz Hc. unfold bi_scan_buffer_1.
  replace (count >? 0) with false by (symmetry; zdec; lia).
  cbv zeta. fold lim. rewrite scan_backward_ref by (done || lia). cbn [mbind option_bind].
  destruct (scan_ref_spec (-1) target (rev (region t lim st)) st count)
    as (bs1 & bs2 & c & E1 & E2 & E3 & E4 & E5 & E6); [lia |]. rewrite E2.
  assert (zlen (region t lim st) = st - lim) as HL by (apply length_slice_le; (done || lia)).
  apply (f_equal (@rev Z)) in E1. rewrite rev_involutive, rev_app_distr in E1.
  pose proof HL as HL'. rewrite E1, length_app, !length_rev in HL'.
  assert (rev bs1 = region t (st - zlen bs1) st) as Hsuf.
  { rewrite (region_split t lim (st - zlen bs1) st) in E1 by lia.
    assert (zlen (region t lim (st - zlen bs1)) = zlen bs2) as HL2.
    { unfold region. rewrite length_slice_le by (done || lia). lia. }
    apply (f_equal (drop (length bs2))) in E1.
    rewrite drop_app_exact in E1 by lia. rewrite drop_app_exact in E1 by (by rewrite length_rev).
    done. }
  assert (st + -1 * zlen bs1 = st - zlen bs1) as -> by lia.
  eexists _, _. split; [done |].
  assert (forall x : Z, (if - c =? 0 then (if c =? 0 then x + 1 else x) - 1
    else if c =? 0 then x + 1 else x) = x) as Hpos by (intros; zdec; lia).
  rewrite Hpos. split; [lia |]. unfold scan_found.
  rewrite <- Hsuf, occurrences_rev. split_and!; try lia.
  - intros H0. assert (c = 0) as -> by lia. destruct (E5 eq_refl) as [bs0 Hbs0].
    assert (zget (rev bs1) 0 = Some target) as Hg by (rewrite Hbs0, rev_app_distr; done).
    assert (zlen bs1 = zlen bs0 + 1) as HLb by (rewrite Hbs0, length_app; cbn; lia).
    rewrite Hsuf, zget_region in Hg by lia. rewrite <- Hg. f_equal. cbn. lia.
  - intros Hn. rewrite E6 in HL' by lia. cbn in HL'. zdec; lia.
Qed.

(** C15: Searching for the COUNTth occurrence of a byte, forwards for a positive
    COUNT and backwards for a negative one, always ends within the limit and inside
    the block, wherever the gap is.  Shortage 0 means that the position returned is
    just after an occurrence, and that exactly |COUNT| were passed, that one
    included; otherwise the limit was reached with the shortage missing. *)
Theorem scan_buffer_counts t b target st en count :
  let lim := if en >? 0 then en else if count >? 0 then b_zv b else b_begv b in
  text_wf t -> 1 <= b_begv b -> b_zv b <= t_z t -> count <> 0 ->
  (if count >? 0 then 1 <= st <= lim /\ lim <= b_zv b else b_begv b <= lim <= st /\ st <= t_z t) ->
  exists pos shortage, bi_scan_buffer_1 t b target st en count = Some (pos, shortage) /\
    0 <= shortage /\
    (if count >? 0
     then st <= pos <= lim /\ occurrences target (region t st pos) = count - shortage
     else let first := if shortage =? 0 then pos - 1 else pos in
          lim <= first <= st /\ occurrences target (region t first st) = - count - shortage) /\
    (shortage = 0 -> zget (text_str t) (pos - 2) = Some target) /\
    (shortage <> 0 -> pos = lim).
Proof.
  intros lim Ht Hb Hz Hc Hst. subst lim. destruct (Z.gtb_spec count 0) as [Hp | Hn].
  - destruct (scan_forward_found t b target st en count) as (pos & sh & E & Hle & H1 & H2 & H3 & H4 & H5);
      try done; try lia. exists pos, sh. split_and!; done || lia.
  - destruct (scan_backward_found t b target st en count) as (pos & sh & E & Hle & H1 & H2 & H3 & H4 & H5);
      try done; try lia. exists pos, sh. cbv zeta. split_and!; done || lia.
Qed.

(** "a, ten, b, ten, ten" with the gap in the middle. *)
Definition scan_text : buffer_text :=
  mk_text [97; 10; 0; 0; 98; 10; 10] 3 6 2 0 1 0 (mk_text_changes 0 0 0 0 false).

Definition scan_view : buffer :=
  mk_buffer true 1 1 6 (mk_changes 0 0 false 0 0) [] 1 None false (InhibitList []) false 0 Qnil.

Lemma scan_buffer_counts_witness :
  exists pos shortage, bi_scan_buffer_1 scan_text scan_view 10 6 0 (-3) = Some (pos, shortage) /\
    0 <= shortage /\
    (let first := if shortage =? 0 then pos - 1 else pos in
     1 <= first <= 6 /\ occurrences 10 (region scan_text first 6) = 3 - shortage) /\
    (shortage = 0 -> zget (text_str scan_text) (pos - 2) = Some 10) /\
    (shortage <> 0 -> pos = 1).
Proof.
  apply (scan_buffer_counts scan_text scan_view 10 6 0 (-3)); cbn; try lia.
  constructor; cbn; lia.
Defined.
