(* ===== verification/Undo.v ===== *)
(** * Recording changes for undo (src/src/undo.c)

    The functions that put records on the undo list of a buffer before and after
    it changes, and the truncation of a list that has grown too long.  Replaying
    the records is modelled in [UndoReplay].  The cons cell preallocated for the
    next boundary ([pending_boundary]) only avoids an allocation and is left out. *)

From S2P Require Import Prelude Lisp Buffer.

(** ** Recording *)

Definition undo_boundary (l : list undo_elt) : list undo_elt :=
  match l with
  | [] | UBoundary :: _ => l
  | _ => UBoundary :: l
  end.

(** [undo_prelude]: the list and [last_undo_here] after it; [None] when undo is
    disabled.  [last_undo_here] says that [last_undo_buffer] shares this text. *)
Definition undo_prelude (modiff save_modiff modtime : Z) (last_undo_here : bool)
    (undo_list : undo_list) : option (list undo_elt) :=
  match undo_list with
  | None => None
  | Some l =>
      let l := if last_undo_here then l else undo_boundary l in
      Some (if modiff <=? save_modiff
            then UTime (Z.land (Z.shiftr modtime 16) 65535) (Z.land modtime 65535) :: l
            else l)
  end.

(** The list with an insertion recorded: adjacent insertions are combined. *)
Definition push_insert (l : list undo_elt) (beg length : Z) : list undo_elt :=
  match l with
  | UInsert b e :: l' =>
      if e =? beg then UInsert b (beg + length) :: l' else UInsert beg (beg + length) :: l
  | _ => UInsert beg (beg + length) :: l
  end.

Definition at_boundary (l : list undo_elt) : bool :=
  match l with UBoundary :: _ => true | _ => false end.

(** The list with a deletion recorded; [last_point] is [last_point_position] when
    it is about this buffer. *)
Definition push_delete (l : list undo_elt) (pt beg length : Z) (last_point : option Z)
    (str : list Z) : list undo_elt :=
  let sbeg := if pt =? beg + length then - beg else beg in
  let l' :=
    match last_point with
    | Some p => if at_boundary l && negb (p =? sbeg) then UPos p :: l else l
    | None => l
    end in
  UDelete str sbeg :: l'.

Section Recording.
Context {X : Type}.

Definition record_insert (v : nat) (beg length : Z) : M X unit :=
  let! b := get_buf v in
  let! t := get w_text in
  let! g := get w_glob in
  match undo_prelude (t_modiff t) (t_save_modiff t) (b_modtime b) (g_last_undo_here g)
          (b_undo_list b) with
  | None => ret tt
  | Some l =>
      upd (upd_glob (fun g => set_last_undo_here g true));;
      upd (upd_buf v (fun b => set_undo_list b (Some (push_insert l beg length))))
  end.

Definition record_delete (v : nat) (beg length : Z) : M X unit :=
  let! b := get_buf v in
  let! t := get w_text in
  let! g := get w_glob in
  match undo_prelude (t_modiff t) (t_save_modiff t) (b_modtime b) (g_last_undo_here g)
          (b_undo_list b) with
  | None => ret tt
  | Some l =>
      upd (upd_glob (fun g => set_last_undo_here g true));;
      let! str := of_option (make_string_from_buffer t beg length) in
      let last_point :=
        if bool_decide (g_last_point_position_buffer g = Some v)
        then Some (g_last_point_position g) else None in
      upd (upd_buf v (fun b =>
        set_undo_list b (Some (push_delete l (b_pt b) beg length last_point str))))
  end.

Definition record_change (v : nat) (beg length : Z) : M X unit :=
  record_delete v beg length;; record_insert v beg length.

(** The record of an extent that is about to be attached, or detached from
    [start, end_). *)
Definition record_extent (v : nat) (extent : positive) (attached : bool) (start end_ : Z) : M X unit :=
  let! b := get_buf v in
  let! t := get w_text in
  let! g := get w_glob in
  match undo_prelude (t_modiff t) (t_save_modiff t) (b_modtime b) (g_last_undo_here g)
          (b_undo_list b) with
  | None => ret tt
  | Some l =>
      upd (upd_glob (fun g => set_last_undo_here g true));;
      let token := if attached then UAttach extent else UDetach extent start end_ in
      upd (upd_buf v (fun b => set_undo_list b (Some (token :: l))))
  end.

(** [Fundo_boundary], in the current buffer. *)
Definition Fundo_boundary : M X unit :=
  let! v := get (fun w => g_current (w_glob w)) in
  upd (upd_buf v (fun b =>
    match b_undo_list b with
    | None => b
    | Some l => set_undo_list b (Some (undo_boundary l))
    end)).
End Recording.

(** ** Truncation *)

(** [sizeof (Lisp_Cons)] and [sizeof (Lisp_String)] of a 64-bit build. *)
Definition sizeof_cons : Z := 24.
Definition sizeof_string : Z := 32.

(** The space of one element of an undo list and its chain link. *)
Definition undo_elt_size (e : undo_elt) : Z :=
  sizeof_cons +
  match e with
  | UBoundary | UPos _ | UAttach _ | URotten _ => 0
  | UInsert _ _ | UTime _ _ | UDetach _ _ _ => sizeof_cons
  | UDelete str _ => sizeof_cons + (sizeof_string - 1 + zlen str)
  end.

(** [size_so_far] is an [int]: what is added is cut to 32 bits, once or twice the same. *)

(** The second loop: the records up to the first boundary. *)
Fixpoint scan_record (l : list undo_elt) (i : nat) (size : Z)
  : list undo_elt * nat * Z :=
  match l with
  | [] => ([], i, size)
  | UBoundary :: _ => (l, i, size)
  | e :: l => scan_record l (S i) (to_int (size + undo_elt_size e))
  end.

(** The third loop.  [i] cells precede [l]; [last_boundary] is the number of
    cells kept if the list is cut.  The result is [None] when the end is reached. *)
Fixpoint scan_rest (minsize maxsize : Z) (l : list undo_elt) (i : nat) (size : Z)
    (last_boundary : nat) : option nat :=
  match l with
  | [] => None
  | UBoundary :: l' =>
      if (size >? maxsize) && (maxsize >? 0) then Some last_boundary
      else if (size >? minsize) && (minsize >? 0) then Some i
      else scan_rest minsize maxsize l' (S i) (to_int (size + sizeof_cons)) i
  | e :: l' =>
      scan_rest minsize maxsize l' (S i) (to_int (size + undo_elt_size e)) last_boundary
  end.

Definition truncate_undo_list (list : list undo_elt) (minsize maxsize : Z)
  : Datatypes.list undo_elt :=
  let minsize := to_int minsize in
  let maxsize := to_int maxsize in
  if negb ((minsize >? 0) || (maxsize >? 0)) then list else
  let '(next, i, size) :=
    match list with
    | UBoundary :: l => scan_record l 1 sizeof_cons
    | _ => scan_record list 0 0
    end in
  match scan_rest minsize maxsize next i size i with
  | None => list
  | Some n => take n list
  end.

(** ** What truncation keeps *)

Fixpoint total_size (l : list undo_elt) : Z :=
  match l with
  | [] => 0
  | e :: l => undo_elt_size e + total_size l
  end.

(** The records up to the first boundary. *)
Fixpoint until_boundary (l : list undo_elt) : list undo_elt :=
  match l with
  | [] | UBoundary :: _ => []
  | e :: l => e :: until_boundary l
  end.

(** The most recent group of records, with the boundary that closes it. *)
Definition recent (l : list undo_elt) : list undo_elt :=
  match l with
  | UBoundary :: l => UBoundary :: until_boundary l
  | _ => until_boundary l
  end.

(** [pre] is cut off [l] at a boundary. *)
Definition cut_at (pre l : list undo_elt) : Prop := exists rest, l = pre ++ UBoundary :: rest.

Lemma total_size_app l1 l2 : total_size (l1 ++ l2) = total_size l1 + total_size l2.
Proof. induction l1 as [| e l1 IH]; cbn; [done |]. rewrite IH. lia. Qed.

(** What the code takes for the size. *)
Definition int_size (l : list undo_elt) : Z := to_int (total_size l).

Lemma int_size_add l n : to_int (int_size l + n) = to_int (total_size l + n).
Proof. apply to_int_add_l. Qed.

Lemma int_size_snoc l e : to_int (int_size l + undo_elt_size e) = int_size (l ++ [e]).
Proof. rewrite int_size_add. unfold int_size. rewrite total_size_app. cbn. by rewrite Z.add_0_r. Qed.

Lemma total_size_nonneg l : 0 <= total_size l.
Proof. induction l as [| e l IH]; cbn; [done |]. destruct e; unfold undo_elt_size, sizeof_cons, sizeof_string; lia. Qed.

Lemma int_size_small l rest : total_size (l ++ rest) < 2 ^ 31 -> int_size l = total_size l.
Proof.
  intros Hs. rewrite total_size_app in Hs. pose proof (total_size_nonneg l). pose proof (total_size_nonneg rest).
  apply to_int_id. lia.
Qed.

Lemma scan_record_spec l pre :
  exists next, l = until_boundary l ++ next /\ (next = [] \/ exists rest, next = UBoundary :: rest) /\
    scan_record l (length pre) (int_size pre) =
    (next, length (pre ++ until_boundary l), int_size (pre ++ until_boundary l)).
Proof.
  revert pre. induction l as [| e l IH]; intros pre.
  { exists []. cbn. rewrite app_nil_r. split_and!; auto. }
  assert (forall e, e <> UBoundary ->
    exists next, e :: l = (e :: until_boundary l) ++ next /\
      (next = [] \/ exists rest, next = UBoundary :: rest) /\
      scan_record l (S (length pre)) (to_int (int_size pre + undo_elt_size e)) =
      (next, length (pre ++ e :: until_boundary l), int_size (pre ++ e :: until_boundary l))) as Hcons.
  { intros e' _. destruct (IH (pre ++ [e'])) as (next & E & Hn & Es). exists next.
    rewrite length_app, <- int_size_snoc in Es. cbn [length] in Es.
    rewrite Nat.add_1_r, <- (assoc_L (++)) in Es. cbn [app] in *.
    split_and!; [by rewrite <- E | done | done]. }
  destruct e; try (by apply Hcons).
  exists (UBoundary :: l). cbn. rewrite app_nil_r. split_and!; eauto.
Qed.

(** The loop that looks for the place to cut. [pre] has been passed; [last] is the
    last boundary passed that was small enough, or the recent records. *)
(** One group of records with the boundary before it, or nothing. *)
Definition group (g : list undo_elt) : Prop :=
  g = [] \/ exists m, g = UBoundary :: m /\ until_boundary m = m.

Lemma until_boundary_snoc m e :
  until_boundary m = m -> e <> UBoundary -> until_boundary (m ++ [e]) = m ++ [e].
Proof.
  intros Hm He. induction m as [| x m IH]; [by destruct e |].
  destruct x; try discriminate Hm; cbn in *; f_equal; apply IH; congruence.
Qed.

(** What a cut after [r] promises; [fst_] is kept in any case. *)
Definition cut_ok (size : list undo_elt -> Z) (minsize maxsize : Z) (fst_ r l : list undo_elt) : Prop :=
  cut_at r l /\ (r = fst_ \/ (0 < maxsize -> size r <= maxsize)) /\
  (0 < minsize < size r \/
   0 < maxsize /\ exists g, group g /\ maxsize < size (r ++ g) /\ cut_at (r ++ g) l).

(** The loop that looks for the place to cut. [last_ ++ mid] has been passed; the
    list can be cut after [last_]. *)
Lemma scan_rest_spec minsize maxsize l last_ mid fst_ :
  group mid -> (mid = [] -> l = [] \/ exists r, l = UBoundary :: r) ->
  (last_ = fst_ \/ (0 < maxsize -> int_size last_ <= maxsize)) ->
  match scan_rest minsize maxsize l (length (last_ ++ mid)) (int_size (last_ ++ mid)) (length last_) with
  | None => True
  | Some n => exists r, n = length r /\ last_ `prefix_of` r /\
      cut_ok int_size minsize maxsize fst_ r ((last_ ++ mid) ++ l)
  end.
Proof.
  revert last_ mid. induction l as [| e l IH]; intros last_ mid Hmid Hne Hlast; [done |].
  assert (forall e, e <> UBoundary -> mid <> [] ->
    match scan_rest minsize maxsize l (S (length (last_ ++ mid)))
            (to_int (int_size (last_ ++ mid) + undo_elt_size e)) (length last_) with
    | None => True
    | Some n => exists r, n = length r /\ last_ `prefix_of` r /\
        cut_ok int_size minsize maxsize fst_ r ((last_ ++ mid) ++ e :: l)
    end) as Hstep.
  { intros e' He Hm0. specialize (IH last_ (mid ++ [e'])).
    rewrite (assoc_L (++)), length_app, Nat.add_1_r, <- int_size_snoc in IH.
    rewrite <- (assoc_L (++) (last_ ++ mid)) in IH. cbn [app] in IH. apply IH; [| | done].
    - right. destruct Hmid as [-> | (m & -> & Hm)]; [done |]. exists (m ++ [e']).
      split; [done |]. by apply until_boundary_snoc.
    - intros E. by destruct mid. }
  destruct e; cbn [scan_rest]; try (apply Hstep; [done |]; intros ->; destruct Hne as [? | [? ?]]; done).
  destruct ((int_size (last_ ++ mid) >? maxsize) && (maxsize >? 0)) eqn:Emax.
  { apply andb_prop in Emax as [E1%Z.gtb_lt E2%Z.gtb_lt].
    exists last_. split_and!; [done | done |]. split_and!; [| done |].
    - destruct Hmid as [-> | (m & -> & Hm)]; [rewrite app_nil_r; by eexists |].
      rewrite <- !(assoc_L (++)). by eexists.
    - right. split; [done |]. exists mid. split_and!; [done | done | by eexists]. }
  destruct ((int_size (last_ ++ mid) >? minsize) && (minsize >? 0)) eqn:Emin.
  { apply andb_prop in Emin as [E1%Z.gtb_lt E2%Z.gtb_lt].
    exists (last_ ++ mid). split_and!; [done | by eexists |]. split_and!; [by eexists | | by left].
    right. intros Hm. zcase. }
  specialize (IH (last_ ++ mid) [UBoundary]).
  rewrite (length_app (last_ ++ mid)), <- (int_size_snoc (last_ ++ mid)), Nat.add_1_r in IH.
  change (undo_elt_size UBoundary) with (sizeof_cons) in IH.
  rewrite <- (assoc_L (++) (last_ ++ mid)) in IH. cbn [app] in IH.
  destruct (scan_rest _ _ _ _ _ _) as [n |]; [| done].
  destruct IH as (r & -> & Hpre & Hok); [right; by exists [] | done | right; intros; zcase |].
  exists r. split_and!; [done | | done]. etrans; [| exact Hpre]. by eexists.
Qed.

(** A list of less than 2 GB: its sizes are what they are. *)
Lemma cut_ok_small minsize maxsize fst_ r l :
  total_size l < 2 ^ 31 -> cut_ok int_size minsize maxsize fst_ r l -> cut_ok total_size minsize maxsize fst_ r l.
Proof.
  intros Hs (Hcut & H1 & H2). unfold cut_ok.
  assert (forall p, cut_at p l -> int_size p = total_size p) as Hsame
    by (intros p [rest ->]; by apply (int_size_small p (UBoundary :: rest))).
  rewrite (Hsame r Hcut) in H1, H2. split_and!; [done | done |]. destruct H2 as [? | (? & g & ? & Hg & Hgc)]; [by left |].
  right. split; [done |]. exists g. by rewrite (Hsame _ Hgc) in Hg.
Qed.

(** C16: Truncating an undo list leaves a beginning of it: all of it, or it is cut
    in front of a boundary.  A list that is cut keeps the most recent group of
    records; what it keeps is within the upper limit, unless it is that group
    alone; and it was cut because the lower limit was exceeded or because the
    next group would have exceeded the upper limit.  For a list of less than 2 GB the
    sizes in this are its real sizes; for any list they are those sizes cut to 32 bits, as
    the code counts them, so that a longer list may escape the limits. *)
Theorem truncate_undo_list_correct l minsize maxsize :
  let r := truncate_undo_list l minsize maxsize in
  r = l \/
  recent l `prefix_of` r /\ cut_ok int_size (to_int minsize) (to_int maxsize) (recent l) r l /\
    (total_size l < 2 ^ 31 -> cut_ok total_size (to_int minsize) (to_int maxsize) (recent l) r l).
Proof.
  intros r. unfold r, truncate_undo_list. cbv zeta. generalize (to_int minsize), (to_int maxsize). clear minsize maxsize r.
  intros minsize maxsize.
  destruct ((minsize >? 0) || (maxsize >? 0)); cbn [negb]; [| by left].
  assert (exists next, l = recent l ++ next /\ (next = [] \/ exists rest, next = UBoundary :: rest) /\
    match l with UBoundary :: l => scan_record l 1 sizeof_cons | _ => scan_record l 0 0 end =
    (next, length (recent l), int_size (recent l))) as (next & El & Hnext & Es).
  { destruct (scan_record_spec l []) as (next & E & Hn & Es).
    destruct l as [| [] l]; try by exists next.
    destruct (scan_record_spec l [UBoundary]) as (next' & E' & Hn' & Es').
    exists next'. split_and!; [by cbn; rewrite <- E' | done | exact Es']. }
  rewrite Es.
  pose proof (scan_rest_spec minsize maxsize next (recent l) [] (recent l)) as Hr.
  rewrite app_nil_r, <- El in Hr.
  destruct (scan_rest _ _ _ _ _ _) as [n |]; [| by left].
  destruct Hr as (r' & -> & Hpre & Hok); [by left | done | by left |].
  right. pose proof (proj1 Hok) as [rest Hcut].
  assert (take (length r') l = r') as -> by (rewrite Hcut; by apply take_app_exact).
  split_and!; [done | done | intros Hs; by apply cut_ok_small].
Qed.

(** The oldest group is never weighed: a list of one huge command and a small one
    is kept whole, however low the limits are. *)
Example truncation_keeps_oldest_group :
  let l := [UBoundary; UInsert 1 2; UBoundary; UDelete (replicate 10000 65) 1] in
  truncate_undo_list l 100 200 = l /\ total_size l > 10000.
Proof. by vm_compute. Qed.
