(* ===== verification/Insdel.v ===== *)
(** * Insertion, deletion and the gap (src/src/insdel.c)

    Every change to the text of a buffer goes through these functions.  The text
    lies in one block with a gap; a second gap may lie at its end.  The loops
    that move the gap look for a quit before each chunk. *)

From S2P Require Import Prelude Lisp Buffer Scan Undo.

(** ** Points and markers *)

(** [set_buffer_point]. *)
Definition set_buffer_point {X} (v : nat) (pos : Z) : M X unit :=
  let! b := get_buf v in
  if pos =? b_pt b then ret tt else
  (upd (upd_buf v (fun b => JUST_SET_POINT b pos));;
   upd (upd_glob (fun g => set_redisplay g (g_buffers_changed g) true));;
   let! t := get w_text in
   upd (upd_buf v (fun b =>
     set_markers b (map (fun m =>
       if bool_decide (m_id m = b_point_marker b)
       then mk_marker (m_id m) (bytind_to_memind t pos) (m_insertion_type m)
       else m) (b_markers b))))).

Definition do_marker_adjustment (mpos from to amount : Z) : Z :=
  let mpos :=
    if amount >? 0
    then if (mpos >? to) && (mpos <? to + amount) then to + amount else mpos
    else if (mpos >? from + amount) && (mpos <=? from) then from + amount else mpos in
  if (mpos >? from) && (mpos <=? to) then mpos + amount else mpos.

Definition adjust_markers (from to amount : Z) (b : buffer) : buffer :=
  set_markers b (map (fun m =>
    mk_marker (m_id m) (do_marker_adjustment (m_memind m) from to amount)
      (m_insertion_type m)) (b_markers b)).

Definition adjust_markers_for_insert (ind amount : Z) (b : buffer) : buffer :=
  set_markers b (map (fun m =>
    if m_insertion_type m && (m_memind m =? ind)
    then mk_marker (m_id m) (m_memind m + amount) (m_insertion_type m)
    else m) (b_markers b)).

(** ** The gap *)

Definition GAP_MOVE_CHUNK : Z := 300000.

(** [while (--i >= 0) *--to = *--from]. *)
Fixpoint copy_bytes_down (i : nat) (mem : list Z) (to from : Z) : option (list Z) :=
  match i with
  | O => Some mem
  | S i =>
      x ← zget mem (from - 1);
      mem ← mem_write mem (to - 1) [x];
      copy_bytes_down i mem (to - 1) (from - 1)
  end.

(** [while (--i >= 0) *to++ = *from++]. *)
Fixpoint copy_bytes_up (i : nat) (mem : list Z) (to from : Z) : option (list Z) :=
  match i with
  | O => Some mem
  | S i =>
      x ← zget mem from;
      mem ← mem_write mem to [x];
      copy_bytes_up i mem (to + 1) (from + 1)
  end.

Section Insdel.
Context {X : Type} `{Collaborators X}.

(** The copying loop of [gap_left]; the result is where it stopped. *)
Fixpoint gap_left_loop (fuel : nat) (from to new_s1 pos : Z) : M X Z :=
  match fuel with
  | O => fault
  | S fuel =>
      let i := new_s1 - pos in
      if i =? 0 then ret pos else
      let! quit := QUITP in
      if quit : bool then ret new_s1 else
      let i := if i >? GAP_MOVE_CHUNK then GAP_MOVE_CHUNK else i in
      let! t := get w_text in
      let! mem := of_option
        (if i >=? 128 then mem_move (t_mem t) (to - i) (from - i) i
         else copy_bytes_down (Z.to_nat i) (t_mem t) to from) in
      upd (upd_text (fun t => set_mem t mem));;
      gap_left_loop fuel (from - i) (to - i) (new_s1 - i) pos
  end.

Definition gap_left (pos : Z) : M X unit :=
  let! t := get w_text in
  let from := BUF_GPT_ADDR t in
  let to := from + t_gap_size t in
  let new_s1 := t_gpt t in
  let! pos := gap_left_loop (S (Z.to_nat (new_s1 - pos))) from to new_s1 pos in
  upd (map_indirect (fun _ => adjust_markers pos (t_gpt t) (t_gap_size t)));;
  upd (map_indirect_ext (fun v => adjust_extents v pos (t_gpt t) (t_gap_size t)));;
  upd (upd_text (fun t => SET_BI_BUF_GPT t pos));;
  QUIT.

Fixpoint gap_right_loop (fuel : nat) (from to new_s1 pos : Z) : M X Z :=
  match fuel with
  | O => fault
  | S fuel =>
      let i := pos - new_s1 in
      if i =? 0 then ret pos else
      let! quit := QUITP in
      if quit : bool then ret new_s1 else
      let i := if i >? GAP_MOVE_CHUNK then GAP_MOVE_CHUNK else i in
      let! t := get w_text in
      let! mem := of_option
        (if i >=? 128 then mem_move (t_mem t) to from i
         else copy_bytes_up (Z.to_nat i) (t_mem t) to from) in
      upd (upd_text (fun t => set_mem t mem));;
      gap_right_loop fuel (from + i) (to + i) (new_s1 + i) pos
  end.

Definition gap_right (pos : Z) : M X unit :=
  let! t := get w_text in
  let to := BUF_GPT_ADDR t in
  let from := to + t_gap_size t in
  let new_s1 := t_gpt t in
  let! pos := gap_right_loop (S (Z.to_nat (pos - new_s1))) from to new_s1 pos in
  let gsize := to_int (t_gap_size t) in
  upd (map_indirect (fun _ => adjust_markers (t_gpt t + gsize) (pos + gsize) (- gsize)));;
  upd (map_indirect_ext (fun v =>
    adjust_extents v (t_gpt t + gsize) (pos + gsize) (- gsize)));;
  upd (upd_text (fun t => SET_BI_BUF_GPT t pos));;
  upd (upd_text (fun t =>
    if pos =? t_z t
    then SET_BUF_END_GAP_SIZE (SET_BUF_GAP_SIZE t (t_gap_size t + t_end_gap_size t)) 0
    else t));;
  QUIT.

Definition move_gap (pos : Z) : M X unit :=
  let! t := get w_text in
  if pos <? t_gpt t then gap_left pos
  else if pos >? t_gpt t then gap_right pos
  else ret tt.

(** The second half of [make_gap] and [merge_gap_with_end_gap]: the [increment]
    bytes at the end of the block become the gap, which is moved down next to the
    old one, and the two are joined. *)
Definition join_end_gap (increment : Z) : M X unit :=
  let! t := get w_text in
  let! tem := get (fun w => g_inhibit_quit (w_glob w)) in
  upd (upd_glob (fun g => set_inhibit_quit g true));;
  let real_gap_loc := t_gpt t in
  let old_gap_size := t_gap_size t in
  upd (upd_text (fun t =>
    SET_BUF_GAP_SIZE (SET_BI_BUF_GPT t (t_z t + t_gap_size t)) increment));;
  upd (upd_text (fun t => SET_BUF_END_GAP_SIZE t 0));;
  gap_left (real_gap_loc + old_gap_size);;
  upd (upd_text (fun t =>
    SET_BI_BUF_GPT (SET_BUF_GAP_SIZE t (t_gap_size t + old_gap_size)) real_gap_loc));;
  upd (upd_glob (fun g => set_inhibit_quit g tem)).

Definition merge_gap_with_end_gap : M X unit :=
  let! t := get w_text in
  let increment := t_end_gap_size t in
  upd (upd_text (fun t => SET_BUF_END_GAP_SIZE t 0));;
  if increment >? 0 then join_end_gap increment else ret tt.

(** [BUFFER_REALLOC] either fails or leaves [n] new bytes after the block, whose
    contents are what the heap held. *)
Variable realloc : Z -> option (list Z).

Definition make_gap (increment : Z) : M X unit :=
  let! t := get w_text in
  let increment := increment + (2000 + (t_z t - 1) / 8) in
  let! increment :=
    (if increment >? t_end_gap_size t then
       (if t_z t - 1 + t_gap_size t + increment >? EMACS_INT_MAX
        then signal (Qerror "Maximum buffer size exceeded") else ret tt);;
       let n := increment - t_end_gap_size t in
       match realloc n with
       | None => signal (Qerror "Memory exhausted")
       | Some junk =>
           upd (upd_text (fun t =>
             set_mem t (t_mem t ++ ztake n (junk ++ replicate (Z.to_nat n) 0))));;
           ret increment
       end
     else ret (t_end_gap_size t)) in
  join_end_gap increment.

(** ** Before and after a change *)

Definition buffer_signal_changed_region (t : buffer_text) (b : buffer) (start end_ : Z)
  : buffer :=
  let c := b_changes b in
  let bu := if (begin_unchanged c <? 0) || (begin_unchanged c >? start - BUF_BEG)
            then start - BUF_BEG else begin_unchanged c in
  let eu := if (end_unchanged c <? 0) || (end_unchanged c >? t_z t - end_)
            then t_z t - end_ else end_unchanged c in
  set_changes b (mk_changes bu eu (newline_was_deleted c) (begin_extent_unchanged c)
                   (end_extent_unchanged c)).

Definition buffer_extent_signal_changed_region (t : buffer_text) (b : buffer) (start end_ : Z)
  : buffer :=
  let c := b_changes b in
  let bu := if (begin_extent_unchanged c <? 0) || (begin_extent_unchanged c >? start - BUF_BEG)
            then start - BUF_BEG else begin_extent_unchanged c in
  let eu := if (end_extent_unchanged c <? 0) || (end_extent_unchanged c >? t_z t - end_)
            then t_z t - end_ else end_extent_unchanged c in
  set_changes b (mk_changes (begin_unchanged c) (end_unchanged c) (newline_was_deleted c) bu eu).

Definition buffer_reset_changes (b : buffer) : buffer :=
  set_changes b (mk_changes (-1) (-1) false (-1) (-1)).

Definition set_newline_was_deleted (b : buffer) : buffer :=
  let c := b_changes b in
  set_changes b (mk_changes (begin_unchanged c) (end_unchanged c) true
                   (begin_extent_unchanged c) (end_extent_unchanged c)).

(** Code run with [inside_change_hook] set; [change_function_restore] is the
    unwind form. *)
Definition with_change_hook (m : M X unit) : M X unit :=
  let! saved := get (fun w => g_current (w_glob w)) in
  unwind_protect
    (upd (upd_glob (fun g => set_inside_change_hook g true));; m)
    (upd_glob (fun g => set_current (set_inside_change_hook g false) saved)).

(** An endpoint that change functions may have invalidated. *)
Definition clip_endpoint (b : buffer) (pos : Z) : Z :=
  let pos := if pos <? b_begv b then b_begv b else pos in
  if pos >? b_zv b then b_zv b else pos.

Definition in_multiple_change_p (c : buffer_text_change_data) : bool :=
  negb (in_multiple_change c =? 0) && negb (mc_begin c =? 0).

Definition signal_after_change (v : nat) (start orig_end new_end : Z) : M X unit :=
  let! t := get w_text in
  upd (map_indirect (fun _ b => buffer_signal_changed_region t b start new_end));;
  upd (map_indirect_ext (fun m =>
    font_lock_maybe_update_syntactic_caches m start orig_end new_end));;
  let! inside := get (fun w => g_inside_change_hook (w_glob w)) in
  if inside : bool then ret tt else
  let c := t_changes t in
  if in_multiple_change_p c
  then
    upd (upd_text (fun t => set_text_changes t
      (mk_text_changes (in_multiple_change c) (mc_begin c) (mc_orig_end c)
         (mc_new_end c + (new_end - orig_end)) (mc_begin_signaled c))))
  else
    with_change_hook
      (map_indirect_m (fun m =>
         call_hook (AfterChange v m start new_end (orig_end - start)));;
       let! b := get_buf v in
       let start := clip_endpoint b start in
       let new_end := clip_endpoint b new_end in
       map_indirect_m (fun m => call_hook (ReportExtents m start new_end true))).

Definition set_mc_begin (c : buffer_text_change_data) (v : Z) : buffer_text_change_data :=
  mk_text_changes (in_multiple_change c) v (mc_orig_end c) (mc_new_end c) (mc_begin_signaled c).

Definition cancel_multiple_change (v : nat) : M X unit :=
  let! t := get w_text in
  let c := t_changes t in
  upd (upd_text (fun t => set_text_changes t (set_mc_begin (t_changes t) 0)));;
  if negb (mc_begin c =? 0) && mc_begin_signaled c
  then signal_after_change v (mc_begin c) (mc_orig_end c) (mc_new_end c)
  else ret tt.

Definition set_in_multiple_change (c : buffer_text_change_data) (n : Z)
  : buffer_text_change_data :=
  mk_text_changes n (mc_begin c) (mc_orig_end c) (mc_new_end c) (mc_begin_signaled c).

(** The unwind form of a multiple change. *)
Definition multiple_change_finish_up (v : nat) : M X unit :=
  let! b := get_buf v in
  if negb (b_live b) then ret tt else
  (upd (upd_text (fun t => set_text_changes t (set_in_multiple_change (t_changes t) 0)));;
   cancel_multiple_change v).

(** [begin_multiple_change]; the result says whether it began a session, so that
    its unwind form is to be run by the matching [end_multiple_change]. *)
Definition begin_multiple_change (v : nat) (start end_ : Z) : M X bool :=
  let! t := get w_text in
  let c := t_changes t in
  let! began :=
    (if negb (in_multiple_change c =? 0) then
       (if negb (mc_begin c =? 0) && ((start <? mc_begin c) || (end_ >? mc_new_end c))
        then cancel_multiple_change v else ret tt);;
       ret false
     else
       upd (upd_text (fun t => set_text_changes t
         (mk_text_changes (in_multiple_change (t_changes t)) start end_ end_ false)));;
       ret true) in
  upd (upd_text (fun t => set_text_changes t
    (set_in_multiple_change (t_changes t) (in_multiple_change (t_changes t) + 1))));;
  ret began.

Definition end_multiple_change (v : nat) (count : bool) : M X unit :=
  upd (upd_text (fun t => set_text_changes t
    (set_in_multiple_change (t_changes t) (in_multiple_change (t_changes t) - 1))));;
  let! t := get w_text in
  if (in_multiple_change (t_changes t) =? 0) && count
  then multiple_change_finish_up v else ret tt.

Definition signal_first_change (mbuf : nat) : M X unit :=
  let! g := get w_glob in
  if g_in_first_change g then ret tt else
  unwind_protect
    (upd (upd_glob (fun g => set_in_first_change (set_current g mbuf) true));;
     call_hook (FirstChange mbuf))
    (upd_glob (fun g' => set_current (set_in_first_change g' false) (g_current g))).

(** The part of [signal_before_change] that runs when the functions are due. *)
Definition run_before_change (v : nat) (start end_ : Z) : M X unit :=
  let! t := get w_text in
  (if t_save_modiff t >=? t_modiff t
   then map_indirect_m signal_first_change else ret tt);;
  with_change_hook
    (map_indirect_m (fun m => call_hook (BeforeChange v m start end_));;
     let! b := get_buf v in
     let start := clip_endpoint b start in
     let end_ := clip_endpoint b end_ in
     map_indirect_m (fun m => call_hook (ReportExtents m start end_ false)));;
  upd (upd_text (fun t => set_text_changes t
    (let c := t_changes t in
     mk_text_changes (in_multiple_change c) (mc_begin c) (mc_orig_end c) (mc_new_end c) true))).

Definition signal_before_change (v : nat) (start end_ : Z) : M X unit :=
  let! inside := get (fun w => g_inside_change_hook (w_glob w)) in
  if inside : bool then ret tt else
  let! t := get w_text in
  let c := t_changes t in
  if in_multiple_change_p c then
    if (start <? mc_begin c) || (end_ >? mc_new_end c)
    then cancel_multiple_change v;; run_before_change v start end_
    else if mc_begin_signaled c then ret tt
    else run_before_change v (mc_begin c) (mc_new_end c)
  else run_before_change v start end_.

Definition barf_if_buffer_read_only (mbuf : nat) (from to : Z) : M X unit :=
  let! b := get_buf mbuf in
  match b_inhibit_read_only b with
  | InhibitAll => ret tt
  | InhibitList l =>
      if bool_decide (l = []) && b_read_only b
      then signal (Qbuffer_read_only mbuf)
      else if from >? 0
      then call_hook (VerifyExtents mbuf from (if to <? 0 then from else to) (InhibitList l))
      else ret tt
  end.

Definition prepare_to_modify_buffer (v : nat) (start end_ : Z) (lockit : bool) : M X unit :=
  map_indirect_m (fun m => barf_if_buffer_read_only m start end_);;
  let! b := get_buf v in
  let! t := get w_text in
  (if b_filename b && lockit && (t_save_modiff t >=? t_modiff t)
   then call_hook (LockFile v) else ret tt);;
  let! b := get_buf v in
  if negb (b_live b) then ret tt else
  (signal_before_change v start end_;;
   upd (map_indirect (fun _ b => set_point_before_scroll b Qnil))).

(** ** Insertion *)

(** Where inserted bytes come from: constant data or a Lisp string. *)
Inductive str_source :=
| NonReloc (data : list Z)
| Reloc (str : list Z).

Definition source_bytes (src : str_source) : list Z :=
  match src with NonReloc data => data | Reloc str => str end.

Definition STRINGP_source (src : str_source) : bool :=
  match src with NonReloc _ => false | Reloc _ => true end.

(** [strlen]: [None] when nothing terminates the data. *)
Fixpoint strlen (bs : list Z) : option Z :=
  match bs with
  | [] => None
  | x :: bs => if x =? 0 then Some 0 else option_map Z.succ (strlen bs)
  end.

Definition fixup_internal_substring (src : str_source) (offset len : Z) : option Z :=
  if len <? 0 then
    match src with
    | NonReloc data => n ← strlen data; Some (n - offset)
    | Reloc str => Some (zlen str - offset)
    end
  else Some len.

Definition INSDEL_BEFORE_MARKERS : Z := 1.
Definition INSDEL_NO_LOCKING : Z := 2.

Definition GAP_CAN_HOLD_SIZE_P (t : buffer_text) (len : Z) : bool := t_gap_size t >=? len.

(** The gap at [ind], with room for [length] bytes. *)
Definition open_gap (ind length : Z) : M X unit :=
  let! t := get w_text in
  (if negb (ind =? t_gpt t) then move_gap ind else ret tt);;
  let! t := get w_text in
  if negb (GAP_CAN_HOLD_SIZE_P t length)
  then if t_end_gap_size t >=? length then merge_gap_with_end_gap
       else make_gap (length - t_gap_size t)
  else ret tt.

(** [buffer_insert_string_1] once the gap is at [ind]: the change itself. *)
Definition insert_at_gap (v : nat) (src : str_source) (offset ind length : Z)
    (move_point : bool) (flags : Z) : M X unit :=
  let! bytes := of_option (mem_read (source_bytes src) offset length) in
  upd (upd_ext (insert_invalidate_line_number_cache ind bytes));;
  map_indirect_m (fun m => record_insert m ind length);;
  upd (upd_text (fun t => set_modiff t (t_modiff t + 1)));;
  upd (upd_glob (fun g => set_redisplay g true (g_point_changed g)));;
  let! t := get w_text in
  let! mem := of_option (mem_write (t_mem t) (BUF_GPT_ADDR t) bytes) in
  upd (upd_text (fun t => set_mem t mem));;
  upd (upd_text (fun t => SET_BUF_GAP_SIZE t (t_gap_size t - length)));;
  upd (upd_text (fun t => SET_BI_BUF_GPT t (t_gpt t + length)));;
  upd (map_indirect (fun _ b => SET_BOTH_BUF_ZV b (b_zv b + length)));;
  upd (upd_text (fun t => SET_BOTH_BUF_Z t (t_z t + length)));;
  upd (map_indirect_ext (fun m => process_extents_for_insertion m ind length));;
  upd (map_indirect (fun _ => adjust_markers_for_insert ind length));;
  upd (map_indirect (fun _ b =>
    if b_pt b >? ind then JUST_SET_POINT b (b_pt b + length) else b));;
  (if move_point then set_buffer_point v (ind + length) else ret tt);;
  (if STRINGP_source src
   then upd (map_indirect_ext (fun m =>
          splice_in_string_extents (source_bytes src) m ind length offset))
   else ret tt);;
  (if negb (Z.land flags INSDEL_BEFORE_MARKERS =? 0)
   then upd (map_indirect (fun _ => adjust_markers (ind - 1) ind length))
   else ret tt).

Definition buffer_insert_string_1 (v : nat) (pos : Z) (src : str_source)
    (offset length flags : Z) : M X Z :=
  let! b := get_buf v in
  if negb (b_live b) then ret 0 else
  let! length := of_option (fixup_internal_substring src offset length) in
  let move_point := pos =? -1 in
  let pos := if move_point then b_pt b else pos in
  let! t := get w_text in
  if length + t_z t >? EMACS_INT_MAX
  then signal (Qerror "Maximum buffer size exceeded") else
  (prepare_to_modify_buffer v pos pos (Z.land flags INSDEL_NO_LOCKING =? 0);;
   let! b := get_buf v in
   if negb (b_live b) then ret 0 else
   let ind := clip_endpoint b pos in
   open_gap ind length;;
   insert_at_gap v src offset ind length move_point flags;;
   signal_after_change v ind ind (ind + length);;
   ret length).

Definition buffer_insert_raw_string_1 (v : nat) (pos : Z) (data : list Z) (length flags : Z)
  : M X Z :=
  buffer_insert_string_1 v pos (NonReloc data) 0 length flags.

Definition buffer_insert_lisp_string_1 (v : nat) (pos : Z) (str : list Z) (flags : Z)
  : M X Z :=
  buffer_insert_string_1 v pos (Reloc str) 0 (zlen str) flags.

(** The string includes its terminator. *)
Definition buffer_insert_c_string_1 (v : nat) (pos : Z) (s : list Z) (flags : Z) : M X Z :=
  let! n := of_option (strlen s) in
  buffer_insert_string_1 v pos (NonReloc s) 0 n flags.

Definition buffer_insert_emacs_char_1 (v : nat) (pos ch flags : Z) : M X Z :=
  buffer_insert_string_1 v pos (NonReloc [ch]) 0 1 flags.

Definition buffer_insert_c_char_1 (v : nat) (pos c flags : Z) : M X Z :=
  buffer_insert_emacs_char_1 v pos (c mod 256) flags.

(** [buf2] may be another text; its buffer is given by its text. *)
Definition buffer_insert_from_buffer_1 (v : nat) (pos : Z) (text2 : buffer_text)
    (pos2 length flags : Z) : M X Z :=
  let! str := of_option (make_string_from_buffer text2 pos2 length) in
  buffer_insert_string_1 v pos (Reloc str) 0 (zlen str) flags.

(** ** Deletion *)

(** Point, as if it were a marker. *)
Definition point_for_deletion (from to : Z) (b : buffer) : buffer :=
  if from <? b_pt b
  then JUST_SET_POINT b (if b_pt b <? to then from else b_pt b - (to - from))
  else b.

(** Deletion from the end of the buffer, after the gap: the bytes go to the end
    gap and the gap stays where it is. *)
Definition delete_at_end (from to : Z) : M X unit :=
  let numdel := to - from in
  map_indirect_m (fun m => record_delete m from numdel);;
  upd (upd_text (fun t => set_modiff t (t_modiff t + 1)));;
  upd (upd_glob (fun g => set_redisplay g true (g_point_changed g)));;
  upd (map_indirect_ext (fun m => process_extents_for_deletion m from to false));;
  let! t := get w_text in
  upd (map_indirect (fun _ =>
    adjust_markers (to + t_gap_size t) (to + t_gap_size t) (- numdel)));;
  upd (map_indirect_ext (fun m =>
    adjust_extents_for_deletion m from to (t_gap_size t) numdel 0));;
  upd (map_indirect (fun _ => point_for_deletion from to));;
  upd (upd_text (fun t => SET_BUF_END_GAP_SIZE t (t_end_gap_size t + numdel)));;
  upd (map_indirect (fun _ b => SET_BOTH_BUF_ZV b (b_zv b - numdel)));;
  upd (upd_text (fun t => SET_BOTH_BUF_Z t (t_z t - numdel))).

(** Deletion of text next to the gap, which grows over it. *)
Definition delete_at_gap (from to : Z) : M X unit :=
  let numdel := to - from in
  let! t := get w_text in
  (if to <? t_gpt t then gap_left to else ret tt);;
  let! t := get w_text in
  (if from >? t_gpt t then gap_right from else ret tt);;
  map_indirect_m (fun m => record_delete m from numdel);;
  upd (upd_text (fun t => set_modiff t (t_modiff t + 1)));;
  upd (upd_glob (fun g => set_redisplay g true (g_point_changed g)));;
  upd (map_indirect_ext (fun m => process_extents_for_deletion m from to false));;
  let! t := get w_text in
  upd (map_indirect (fun _ =>
    adjust_markers (to + t_gap_size t) (to + t_gap_size t) (- numdel - t_gap_size t)));;
  upd (map_indirect_ext (fun m =>
    adjust_extents_for_deletion m from to (t_gap_size t) numdel (t_gap_size t)));;
  upd (map_indirect (fun _ => point_for_deletion from to));;
  upd (upd_text (fun t => SET_BUF_GAP_SIZE t (t_gap_size t + numdel)));;
  upd (map_indirect (fun _ b => SET_BOTH_BUF_ZV b (b_zv b - numdel)));;
  upd (upd_text (fun t => SET_BOTH_BUF_Z t (t_z t - numdel)));;
  upd (upd_text (fun t => SET_BI_BUF_GPT t from)).

(** The note for redisplay that a newline is being deleted. *)
Definition note_newline_deleted (v : nat) (from to : Z) : M X unit :=
  let! b := get_buf v in
  if newline_was_deleted (b_changes b) then ret tt else
  let! (_, shortage) := scan_buffer v 10 from to 1 true in
  if shortage =? 0
  then upd (map_indirect (fun _ => set_newline_was_deleted)) else ret tt.

(** The range, made valid. *)
Definition clip_range (b : buffer) (from to : Z) : Z * Z :=
  (if from <? b_begv b then b_begv b else from, if to >? b_zv b then b_zv b else to).

Definition buffer_delete_range (v : nat) (from to flags : Z) : M X unit :=
  let! b := get_buf v in
  if negb (b_live b) then ret tt else
  let '(from, to) := clip_range b from to in
  if to - from <=? 0 then ret tt else
  (prepare_to_modify_buffer v from to (Z.land flags INSDEL_NO_LOCKING =? 0);;
   let! b := get_buf v in
   if negb (b_live b) then ret tt else
   let '(from, to) := clip_range b from to in
   if to - from <=? 0 then ret tt else
   (note_newline_deleted v from to;;
    upd (upd_ext (delete_invalidate_line_number_cache from to));;
    let! t := get w_text in
    (if (to =? t_z t) && (from >? t_gpt t)
     then delete_at_end from to else delete_at_gap from to);;
    signal_after_change v from to from)).

(** ** Replacement of a character *)

(** Without Mule every character is one byte, so [curlen == newlen]. *)
Definition buffer_replace_char (v : nat) (pos ch : Z) (not_real_change force_lock_check : bool)
  : M X unit :=
  let! b := get_buf v in
  if negb (b_live b) then ret tt else
  let! t := get w_text in
  let! _ := of_option (BUF_FETCH_CHAR t pos) in
  prepare_to_modify_buffer v pos (pos + 1) (negb not_real_change || force_lock_check);;
  let! b := get_buf v in
  if negb (b_live b) then ret tt else
  let pos := if pos <? b_begv b then b_begv b else pos in
  let pos := if pos >=? b_zv b then b_zv b - 1 else pos in
  if pos <? b_begv b then ret tt else
  let! t := get w_text in
  let! cur := of_option (BUF_FETCH_CHAR t pos) in
  (if cur =? 10 then upd (map_indirect (fun _ => set_newline_was_deleted)) else ret tt);;
  upd (upd_glob (fun g => set_redisplay g true (g_point_changed g)));;
  (if negb not_real_change then
     map_indirect_m (fun m => record_change m pos 1);;
     upd (upd_text (fun t => set_modiff t (t_modiff t + 1)))
   else ret tt);;
  let! t := get w_text in
  let! mem := of_option (mem_write (t_mem t) (BI_BUF_BYTE_ADDRESS t pos) [ch]) in
  upd (upd_text (fun t => set_mem t mem));;
  signal_after_change v pos (pos + 1) (pos + 1).
End Insdel.
