(* ===== verification/Gap.v ===== *)
(** * The gap moves without changing the text (src/src/insdel.c)

    [gap_left], [gap_right], [merge_gap_with_end_gap] and [make_gap] change where
    the bytes of a buffer lie and the memory indices of its markers; the text, the
    positions of the markers and everything else a program sees stay. *)

From S2P Require Import Prelude Lisp Buffer Scan Undo Insdel.

(** ** Copying *)

(** The block with the [n] bytes at [src] copied to [dst]. *)
Definition moved (mem : list Z) (dst src n : Z) : list Z :=
  ztake dst mem ++ slice mem src n ++ zdrop (dst + n) mem.

Lemma mem_move_Some mem dst src n :
  0 <= dst -> 0 <= src -> 0 <= n -> dst + n <= zlen mem -> src + n <= zlen mem ->
  mem_move mem dst src n = Some (moved mem dst src n).
Proof.
  intros. unfold mem_move. rewrite mem_read_Some by lia.
  rewrite mem_write_Some by (rewrite ?length_slice; lia). unfold moved.
  by rewrite length_slice by lia.
Qed.

Lemma length_moved mem dst src n :
  0 <= dst -> 0 <= src -> 0 <= n -> dst + n <= zlen mem -> src + n <= zlen mem ->
  length (moved mem dst src n) = length mem.
Proof. intros. unfold moved, slice. lens. lia. Qed.

Lemma moved_0 mem dst src : 0 <= dst -> moved mem dst src 0 = mem.
Proof.
  intros. unfold moved, slice. rewrite Z.add_0_r. simpl. apply take_drop.
Qed.

Lemma lookup_moved mem dst src n (k : nat) :
  0 <= dst -> 0 <= src -> 0 <= n -> dst + n <= zlen mem -> src + n <= zlen mem ->
  moved mem dst src n !! k =
  if bool_decide (dst <= Z.of_nat k < dst + n)
  then mem !! Z.to_nat (Z.of_nat k - dst + src) else mem !! k.
Proof.
  intros. unfold moved, slice. case_bool_decide.
  - rewrite lookup_app_r by (lens; lia). lens.
    rewrite lookup_app_l by (lens; lia). rewrite lookup_take_lt by lia.
    rewrite lookup_drop. f_equal. lia.
  - destruct (decide (Z.of_nat k < dst)).
    + rewrite lookup_app_l by (lens; lia). by rewrite lookup_take_lt by lia.
    + rewrite lookup_app_r by (lens; lia). lens.
      rewrite lookup_app_r by (lens; lia). lens. rewrite lookup_drop. f_equal. lia.
Qed.

(** Compares two blocks byte by byte. *)
Ltac moved_ext :=
  apply list_eq; intros k_;
  rewrite !lookup_moved by (rewrite ?length_moved; lia);
  repeat case_bool_decide; try (exfalso; lia); try done; f_equal; lia.

(** Moving up by [gap] from the top down, a piece at a time. *)
Lemma moved_up_compose mem p s i gap :
  0 <= p -> p + i <= s -> 0 <= i -> 0 <= gap -> s + gap <= zlen mem ->
  moved (moved mem (s - i + gap) (s - i) i) (p + gap) p (s - i - p) = moved mem (p + gap) p (s - p).
Proof. intros. moved_ext. Qed.

(** Moving down by [gap] from the bottom up. *)
Lemma moved_down_compose mem s i n gap :
  0 <= s -> 0 <= i -> i <= n -> 0 <= gap -> s + gap + n <= zlen mem ->
  moved (moved mem s (s + gap) i) (s + i) (s + i + gap) (n - i) = moved mem s (s + gap) n.
Proof. intros. moved_ext. Qed.

Lemma copy_bytes_down_spec i mem to from :
  from <= to -> Z.of_nat i <= from -> to <= zlen mem ->
  copy_bytes_down i mem to from =
  Some (moved mem (to - Z.of_nat i) (from - Z.of_nat i) (Z.of_nat i)).
Proof.
  revert mem to from. induction i as [| i IH]; intros mem to from Hft Hi Hto.
  { cbn [copy_bytes_down]. by rewrite moved_0 by lia. }
  cbn [copy_bytes_down]. destruct (zget_is_Some mem (from - 1)) as [x Hx]; [lia |].
  rewrite Hx. cbn [mbind option_bind].
  assert (mem_write mem (to - 1) [x] = Some (moved mem (to - 1) (from - 1) 1)) as ->.
  { rewrite mem_write_Some by (cbn; lia). unfold moved, slice. do 3 f_equal.
    rewrite zget_lookup in Hx by lia. by rewrite (drop_S _ _ _ Hx). }
  cbn [mbind option_bind]. rewrite IH by (rewrite ?length_moved; lia). f_equal.
  pose proof (moved_up_compose mem (from - Z.of_nat (S i)) from 1 (to - from)
    ltac:(lia) ltac:(lia) ltac:(lia) ltac:(lia) ltac:(lia)) as Hc.
  etransitivity; [| etransitivity; [exact Hc |]]; f_equal; try lia. f_equal; lia.
Qed.

Lemma copy_bytes_up_spec i mem to from :
  0 <= to <= from -> from + Z.of_nat i <= zlen mem ->
  copy_bytes_up i mem to from = Some (moved mem to from (Z.of_nat i)).
Proof.
  revert mem to from. induction i as [| i IH]; intros mem to from Hft Hi.
  { cbn [copy_bytes_up]. by rewrite moved_0 by lia. }
  cbn [copy_bytes_up]. destruct (zget_is_Some mem from) as [x Hx]; [lia |].
  rewrite Hx. cbn [mbind option_bind].
  assert (mem_write mem to [x] = Some (moved mem to from 1)) as ->.
  { rewrite mem_write_Some by (cbn; lia). unfold moved, slice. do 3 f_equal.
    rewrite zget_lookup in Hx by lia. by rewrite (drop_S _ _ _ Hx). }
  cbn [mbind option_bind]. rewrite IH by (rewrite ?length_moved; lia). f_equal.
  pose proof (moved_down_compose mem to 1 (Z.of_nat (S i)) (from - to)
    ltac:(lia) ltac:(lia) ltac:(lia) ltac:(lia) ltac:(lia)) as Hc.
  etransitivity; [| etransitivity; [exact Hc |]]; f_equal; try lia. f_equal; lia.
Qed.

Section Gap.
Context {X : Type} `{Collaborators X}.

(** The state with other bytes in the block and another quit state. *)
Definition with_mem (w : world X) (mem : list Z) (g : globals) : world X :=
  mk_world (set_mem (w_text w) mem) (w_bufs w) (w_ext w) g.

Lemma with_mem_id (w : world X) : with_mem w (t_mem (w_text w)) (w_glob w) = w.
Proof. by destruct w as [[] ? ? ?]. Qed.

Lemma gap_left_loop_spec fuel (w : world X) new_s1 pos gap :
  quit_ok (w_glob w) -> 1 <= pos <= new_s1 -> 0 <= gap ->
  new_s1 - 1 + gap <= zlen (t_mem (w_text w)) -> (Z.to_nat (new_s1 - pos) < fuel)%nat ->
  exists pos' g', pos <= pos' <= new_s1 /\ quit_only (w_glob w) g' /\
    (pos' = pos \/ should_quit g' = true) /\
    gap_left_loop fuel (new_s1 - 1) (new_s1 - 1 + gap) new_s1 pos w =
      (Done pos', with_mem w (moved (t_mem (w_text w)) (pos' - 1 + gap) (pos' - 1) (new_s1 - pos')) g').
Proof.
  revert w new_s1. induction fuel as [| fuel IH]; intros w new_s1 Hq Hp Hg Hm Hf; [lia |].
  cbn [gap_left_loop]. destruct (Z.eqb_spec (new_s1 - pos) 0) as [Hz | Hz].
  { exists pos, (w_glob w). split; [lia |]. split; [by apply quit_only_refl |].
    split; [by left |]. rewrite Hz, moved_0 by lia. unfold ret. by rewrite with_mem_id. }
  destruct (QUITP_spec w Hq) as (g1 & Eq & Hg1). unfold bind at 1. rewrite Eq.
  destruct (should_quit g1) eqn:Es.
  { exists new_s1, g1. split; [lia |]. split; [done |]. split; [by right |].
    rewrite Z.sub_diag, moved_0 by lia. by destruct w as [[] ? ? ?]. }
  set (i := if new_s1 - pos >? GAP_MOVE_CHUNK then GAP_MOVE_CHUNK else new_s1 - pos).
  assert (0 < i <= new_s1 - pos) as Hi by (unfold i, GAP_MOVE_CHUNK; zcase).
  unfold bind at 1, get. cbn [upd_glob w_text].
  assert ((if i >=? 128 then mem_move (t_mem (w_text w)) (new_s1 - 1 + gap - i) (new_s1 - 1 - i) i
           else copy_bytes_down (Z.to_nat i) (t_mem (w_text w)) (new_s1 - 1 + gap) (new_s1 - 1)) =
    Some (moved (t_mem (w_text w)) (new_s1 - 1 - i + gap) (new_s1 - 1 - i) i)) as ->.
  { destruct (i >=? 128).
    - rewrite mem_move_Some by lia. do 2 f_equal. lia.
    - rewrite copy_bytes_down_spec by lia. rewrite Z2Nat.id by lia. do 2 f_equal. lia. }
  cbn [of_option]. unfold bind at 1, ret. unfold bind at 1, upd.
  set (mem1 := moved _ _ _ _).
  assert (zlen mem1 = zlen (t_mem (w_text w))) as Hlen by (unfold mem1; rewrite length_moved; lia).
  replace (new_s1 - 1 + gap - i) with (new_s1 - i - 1 + gap) by lia.
  replace (new_s1 - 1 - i) with (new_s1 - i - 1) by lia.
  destruct (IH (with_mem w mem1 g1) (new_s1 - i)) as (pos' & g' & Hp' & Hq' & Hor & E).
  - apply Hg1.
  - lia.
  - done.
  - cbn. lia.
  - lia.
  - exists pos', g'. split; [lia |].
    split; [eapply quit_only_trans; [exact Hg1 | exact Hq'] |]. split; [done |].
    change (upd_text (fun t => set_mem t mem1) (upd_glob (fun _ => g1) w)) with (with_mem w mem1 g1).
    assert (moved mem1 (pos' - 1 + gap) (pos' - 1) (new_s1 - i - pos') =
      moved (t_mem (w_text w)) (pos' - 1 + gap) (pos' - 1) (new_s1 - pos')) as Hmv.
    { pose proof (moved_up_compose (t_mem (w_text w)) (pos' - 1) (new_s1 - 1) i gap
        ltac:(lia) ltac:(lia) ltac:(lia) ltac:(lia) ltac:(lia)) as Hc.
      etransitivity; [| etransitivity; [exact Hc |]]; f_equal;
        (lia || (unfold mem1; f_equal; lia)). }
    rewrite E. unfold with_mem. cbn [w_bufs w_ext w_text set_mem set_gpt_gap t_mem].
    by rewrite Hmv.
Qed.

Lemma gap_right_loop_spec fuel (w : world X) new_s1 pos gap :
  quit_ok (w_glob w) -> 1 <= new_s1 <= pos -> 0 <= gap ->
  pos - 1 + gap <= zlen (t_mem (w_text w)) -> (Z.to_nat (pos - new_s1) < fuel)%nat ->
  exists pos' g', new_s1 <= pos' <= pos /\ quit_only (w_glob w) g' /\
    (pos' = pos \/ should_quit g' = true) /\
    gap_right_loop fuel (new_s1 - 1 + gap) (new_s1 - 1) new_s1 pos w =
      (Done pos', with_mem w (moved (t_mem (w_text w)) (new_s1 - 1) (new_s1 - 1 + gap) (pos' - new_s1)) g').
Proof.
  revert w new_s1. induction fuel as [| fuel IH]; intros w new_s1 Hq Hp Hg Hm Hf; [lia |].
  cbn [gap_right_loop]. destruct (Z.eqb_spec (pos - new_s1) 0) as [Hz | Hz].
  { exists pos, (w_glob w). split; [lia |]. split; [by apply quit_only_refl |].
    split; [by left |]. rewrite Hz, moved_0 by lia. unfold ret. by rewrite with_mem_id. }
  destruct (QUITP_spec w Hq) as (g1 & Eq & Hg1). unfold bind at 1. rewrite Eq.
  destruct (should_quit g1) eqn:Es.
  { exists new_s1, g1. split; [lia |]. split; [done |]. split; [by right |].
    rewrite Z.sub_diag, moved_0 by lia. by destruct w as [[] ? ? ?]. }
  set (i := if pos - new_s1 >? GAP_MOVE_CHUNK then GAP_MOVE_CHUNK else pos - new_s1).
  assert (0 < i <= pos - new_s1) as Hi by (unfold i, GAP_MOVE_CHUNK; zcase).
  unfold bind at 1, get. cbn [upd_glob w_text].
  assert ((if i >=? 128 then mem_move (t_mem (w_text w)) (new_s1 - 1) (new_s1 - 1 + gap) i
           else copy_bytes_up (Z.to_nat i) (t_mem (w_text w)) (new_s1 - 1) (new_s1 - 1 + gap)) =
    Some (moved (t_mem (w_text w)) (new_s1 - 1) (new_s1 - 1 + gap) i)) as ->.
  { destruct (i >=? 128).
    - by rewrite mem_move_Some by lia.
    - rewrite copy_bytes_up_spec by lia. by rewrite Z2Nat.id by lia. }
  cbn [of_option]. unfold bind at 1, ret. unfold bind at 1, upd.
  set (mem1 := moved _ _ _ _).
  assert (zlen mem1 = zlen (t_mem (w_text w))) as Hlen by (unfold mem1; rewrite length_moved; lia).
  replace (new_s1 - 1 + gap + i) with (new_s1 + i - 1 + gap) by lia.
  replace (new_s1 - 1 + i) with (new_s1 + i - 1) by lia.
  destruct (IH (with_mem w mem1 g1) (new_s1 + i)) as (pos' & g' & Hp' & Hq' & Hor & E).
  - apply Hg1.
  - lia.
  - done.
  - cbn. lia.
  - lia.
  - exists pos', g'. split; [lia |].
    split; [eapply quit_only_trans; [exact Hg1 | exact Hq'] |]. split; [done |].
    change (upd_text (fun t => set_mem t mem1) (upd_glob (fun _ => g1) w)) with (with_mem w mem1 g1).
    assert (moved mem1 (new_s1 + i - 1) (new_s1 + i - 1 + gap) (pos' - (new_s1 + i)) =
      moved (t_mem (w_text w)) (new_s1 - 1) (new_s1 - 1 + gap) (pos' - new_s1)) as Hmv.
    { pose proof (moved_down_compose (t_mem (w_text w)) (new_s1 - 1) i (pos' - new_s1) gap
        ltac:(lia) ltac:(lia) ltac:(lia) ltac:(lia) ltac:(lia)) as Hc.
      etransitivity; [| etransitivity; [exact Hc |]]; f_equal;
        (lia || (unfold mem1; f_equal; lia)). }
    rewrite E. unfold with_mem. cbn [w_bufs w_ext w_text set_mem set_gpt_gap t_mem].
    by rewrite Hmv.
Qed.

(** ** What the moves preserve *)

Lemma lookup_gap_str mem gpt gap z (k : nat) :
  1 <= gpt <= z -> 0 <= gap -> z - 1 + gap <= zlen mem ->
  gap_str mem gpt gap z !! k =
  if bool_decide (Z.of_nat k < gpt - 1) then mem !! k
  else if bool_decide (Z.of_nat k < z - 1) then mem !! Z.to_nat (Z.of_nat k + gap) else None.
Proof.
  intros. unfold gap_str. repeat case_bool_decide.
  - rewrite lookup_app_l by (lens; lia). by rewrite lookup_take_lt by lia.
  - rewrite lookup_app_r by (lens; lia). lens. rewrite lookup_take_lt by lia.
    rewrite lookup_drop. f_equal. lia.
  - rewrite lookup_app_r by (lens; lia). lens. by rewrite lookup_take_ge by lia.
Qed.

Ltac gap_ext :=
  apply list_eq; intros k_;
  rewrite !lookup_gap_str by (rewrite ?length_moved; lia);
  repeat case_bool_decide; try (exfalso; lia); try done;
  rewrite ?lookup_moved by lia;
  repeat case_bool_decide; try (exfalso; lia); try done; f_equal; lia.

Lemma gap_str_left mem gpt pos gap z :
  1 <= pos <= gpt -> gpt <= z -> 0 <= gap -> z - 1 + gap <= zlen mem ->
  gap_str (moved mem (pos - 1 + gap) (pos - 1) (gpt - pos)) pos gap z = gap_str mem gpt gap z.
Proof. intros. gap_ext. Qed.

Lemma gap_str_right mem gpt pos gap z :
  1 <= gpt <= pos -> pos <= z -> 0 <= gap -> z - 1 + gap <= zlen mem ->
  gap_str (moved mem (gpt - 1) (gpt - 1 + gap) (pos - gpt)) pos gap z = gap_str mem gpt gap z.
Proof. intros. gap_ext. Qed.

(** Memory indices around a gap of [gap] bytes at [gpt], in a text up to [z]. *)
Definition valid_at (gpt gap z x : Z) : Prop :=
  1 <= x <= gpt \/ gpt + gap < x <= z + gap.

Definition bytind_at (gpt gap x : Z) : Z := if x >? gpt then x - gap else x.

Lemma adjust_left_at gpt pos gap z x :
  1 <= pos <= gpt -> gpt <= z -> 0 <= gap -> valid_at gpt gap z x ->
  let x' := do_marker_adjustment x pos gpt gap in
  valid_at pos gap z x' /\ bytind_at pos gap x' = bytind_at gpt gap x.
Proof.
  unfold valid_at, bytind_at, do_marker_adjustment. intros ? ? ? Hv. cbv zeta.
  destruct Hv, (decide (x <= pos)); zdec; split; lia.
Qed.

Lemma adjust_right_at gpt pos gap z x :
  1 <= gpt <= pos -> pos <= z -> 0 <= gap -> valid_at gpt gap z x ->
  let x' := do_marker_adjustment x (gpt + gap) (pos + gap) (- gap) in
  valid_at pos gap z x' /\ bytind_at pos gap x' = bytind_at gpt gap x.
Proof.
  unfold valid_at, bytind_at, do_marker_adjustment. intros ? ? ? Hv. cbv zeta.
  destruct Hv, (decide (x <= pos + gap)); zdec; split; lia.
Qed.

Lemma valid_memind_at t x :
  valid_memind_p t x = true <-> valid_at (t_gpt t) (t_gap_size t) (t_z t) x.
Proof. unfold valid_memind_p, valid_at. zcase; lia. Qed.

(** Two buffers that differ at most in where their markers are in memory. *)
Definition same_buffer (t t' : buffer_text) (b b' : buffer) : Prop :=
  set_markers b' (b_markers b) = b /\
  map (marker_view t') (b_markers b') = map (marker_view t) (b_markers b).

(** [w'] is [w] with its gap elsewhere: the same to the program. *)
Record same_text (w w' : world X) : Prop := {
  same_str : text_str (w_text w') = text_str (w_text w);
  same_fields : w_text w' = set_gpt_gap (w_text w) (t_mem (w_text w')) (t_gpt (w_text w'))
                  (t_gap_size (w_text w')) (t_end_gap_size (w_text w'));
  same_bufs : Forall2 (same_buffer (w_text w) (w_text w')) (w_bufs w) (w_bufs w');
  same_glob : quit_only (w_glob w) (w_glob w');
  same_wf : world_wf w';
}.

Lemma same_buffer_abs t t' b b' : same_buffer t t' b b' -> abs_buf t' b' = abs_buf t b.
Proof.
  intros [Hb Hm]. destruct b, b'. unfold abs_buf. cbn in *. unfold set_markers in Hb.
  cbn in Hb. injection Hb as -> -> -> -> -> -> -> -> -> -> -> ->. by rewrite Hm.
Qed.

Lemma same_text_abs w w' : same_text w w' -> abs_world w' = abs_world w.
Proof.
  intros [Hs Hf Hb (_ & Hg & _) _]. unfold abs_world. rewrite Hs, Hg. f_equal.
  - induction Hb as [| b b' l l' Hbb _ IH]; [done |]. simpl.
    by rewrite (same_buffer_abs _ _ _ _ Hbb), IH.
  - by rewrite Hf.
  - by rewrite Hf.
Qed.

Lemma same_buffer_refl t b : same_buffer t t b b.
Proof. split; [by destruct b | done]. Qed.

Lemma same_text_refl w : world_wf w -> same_text w w.
Proof.
  intros Hwf. constructor; try done.
  - by destruct (w_text w).
  - induction (w_bufs w); constructor; [apply same_buffer_refl | done].
  - apply quit_only_refl, Hwf.
Qed.

Lemma same_buffer_trans t1 t2 t3 b1 b2 b3 :
  same_buffer t1 t2 b1 b2 -> same_buffer t2 t3 b2 b3 -> same_buffer t1 t3 b1 b3.
Proof.
  intros [H1 H2] [H3 H4]. split; [| congruence].
  transitivity (set_markers b2 (b_markers b1)); [| exact H1]. rewrite <- H3. by destruct b3.
Qed.

Lemma same_text_trans w1 w2 w3 : same_text w1 w2 -> same_text w2 w3 -> same_text w1 w3.
Proof.
  intros [H1 H2 H3 H4 _] [H1' H2' H3' H4' ?]. constructor; try done.
  - congruence.
  - rewrite H2'. rewrite H2. done.
  - clear -H3 H3'. revert H3'. generalize (w_bufs w3). induction H3 as [| b b' l l' Hb _ IH];
      intros l3 H3'; inversion H3'; subst; constructor; eauto using same_buffer_trans.
  - by eapply quit_only_trans.
Qed.

(** [map_indirect] with a body that does not depend on the buffer's place. *)
Definition map_live (f : buffer -> buffer) : list buffer -> list buffer :=
  map (fun b => if b_live b then f b else b).

Lemma map_indirect_const f (w : world X) :
  map_indirect (fun _ => f) w = mk_world (w_text w) (map_live f (w_bufs w)) (w_ext w) (w_glob w).
Proof.
  unfold map_indirect, upd_bufs, map_live. f_equal. generalize (w_bufs w). intros l.
  induction l as [| b l IH]; [done |]. cbn [imap map]. f_equal. exact IH.
Qed.

(** How a function that may be stopped by a quit ends. *)
Definition or_quit (w : world X) : outcome unit * world X :=
  if should_quit (w_glob w)
  then (Signal Qquit, upd_glob (fun g => set_quit g QuitNil (g_signals g)) w)
  else (Done tt, w).

Lemma QUIT_spec (w : world X) :
  quit_ok (w_glob w) ->
  exists g', quit_only (w_glob w) g' /\ QUIT w = or_quit (upd_glob (fun _ => g') w).
Proof.
  intros Hq. destruct (QUITP_spec w Hq) as (g' & E & Hg'). exists g'. split; [done |].
  unfold QUIT, bind. rewrite E. unfold or_quit. cbn [w_glob upd_glob].
  by destruct (should_quit g').
Qed.

Lemma gap_left_run (w : world X) pos :
  let t := w_text w in
  quit_ok (w_glob w) -> 1 <= pos <= t_gpt t -> 0 <= t_gap_size t ->
  t_gpt t - 1 + t_gap_size t <= zlen (t_mem t) ->
  exists pos' g' x', pos <= pos' <= t_gpt t /\ quit_only (w_glob w) g' /\
    (pos' = pos \/ should_quit g' = true) /\
    gap_left pos w = or_quit
      (mk_world (set_gpt_gap t (moved (t_mem t) (pos' - 1 + t_gap_size t) (pos' - 1) (t_gpt t - pos'))
                   pos' (t_gap_size t) (t_end_gap_size t))
         (map_live (adjust_markers pos' (t_gpt t) (t_gap_size t)) (w_bufs w)) x' g').
Proof.
  intros t Hq Hp Hg Hm. unfold gap_left, bind at 1, get. fold t. unfold BUF_GPT_ADDR.
  destruct (gap_left_loop_spec (S (Z.to_nat (t_gpt t - pos))) w (t_gpt t) pos (t_gap_size t))
    as (pos' & g1 & Hp' & Hg1 & Hor & E); try done; [lia |].
  unfold bind at 1. rewrite E. unfold bind at 1, upd. rewrite map_indirect_const.
  unfold bind at 1. unfold bind at 1.
  match goal with |- context [QUIT ?w0] => destruct (QUIT_spec w0) as (g2 & Hg2 & ->) end.
  { apply Hg1. }
  eexists pos', g2, _. split; [done |]. split; [by eapply quit_only_trans |].
  split; [destruct Hor; [by left | right; eapply quit_only_should; [apply Hg1 | exact Hg2 | done]] |]. reflexivity.
Qed.

Lemma gap_right_run (w : world X) pos :
  let t := w_text w in
  quit_ok (w_glob w) -> 1 <= t_gpt t <= pos -> 0 <= t_gap_size t < 2 ^ 31 ->
  pos - 1 + t_gap_size t <= zlen (t_mem t) ->
  exists pos' g' x', t_gpt t <= pos' <= pos /\ quit_only (w_glob w) g' /\
    (pos' = pos \/ should_quit g' = true) /\
    gap_right pos w = or_quit
      (mk_world
         (let t' := set_gpt_gap t (moved (t_mem t) (t_gpt t - 1) (t_gpt t - 1 + t_gap_size t)
                      (pos' - t_gpt t)) pos' (t_gap_size t) (t_end_gap_size t) in
          if pos' =? t_z t
          then SET_BUF_END_GAP_SIZE (SET_BUF_GAP_SIZE t' (t_gap_size t + t_end_gap_size t)) 0
          else t')
         (map_live (adjust_markers (t_gpt t + t_gap_size t) (pos' + t_gap_size t) (- t_gap_size t))
            (w_bufs w)) x' g').
Proof.
  intros t Hq Hp Hg Hm. unfold gap_right, bind at 1, get. fold t. unfold BUF_GPT_ADDR.
  destruct (gap_right_loop_spec (S (Z.to_nat (pos - t_gpt t))) w (t_gpt t) pos (t_gap_size t))
    as (pos' & g1 & Hp' & Hg1 & Hor & E); try done; [lia | lia |].
  unfold bind at 1. rewrite E. rewrite to_int_id by lia.
  unfold bind at 1, upd. rewrite map_indirect_const.
  unfold bind at 1. unfold bind at 1. unfold bind at 1.
  match goal with |- context [QUIT ?w0] => destruct (QUIT_spec w0) as (g2 & Hg2 & ->) end.
  { apply Hg1. }
  eexists pos', g2, _. split; [done |]. split; [by eapply quit_only_trans |].
  split; [destruct Hor; [by left | right; eapply quit_only_should; [apply Hg1 | exact Hg2 | done]] |]. reflexivity.
Qed.

Lemma map_live_same t t' f l :
  (forall b, buffer_wf t b -> same_buffer t t' b (f b) /\ buffer_wf t' (f b)) ->
  (forall b, b_live (f b) = b_live b) ->
  Forall (live_wf t) l ->
  Forall2 (same_buffer t t') l (map_live f l) /\ Forall (live_wf t') (map_live f l).
Proof.
  intros Hf Hl. induction 1 as [| b l Hb _ [IH1 IH2]]; [split; constructor |].
  cbn [map_live map]. fold (map_live f l). unfold live_wf in Hb.
  destruct (b_live b) eqn:E.
  - destruct (Hf b Hb). split; constructor; try done. unfold live_wf. by rewrite Hl, E.
  - split; constructor; try done; [| unfold live_wf; by rewrite E].
    split; [by destruct b | by rewrite Hb].
Qed.

Lemma live_wf_ext t t' b :
  t_gpt t' = t_gpt t -> t_gap_size t' = t_gap_size t -> t_z t' = t_z t ->
  live_wf t b -> live_wf t' b.
Proof.
  intros E1 E2 E3. unfold live_wf. destruct (b_live b); [| done]. intros [? ? ? Hm].
  constructor; try done; [by rewrite E3 |]. eapply Forall_impl; [exact Hm |].
  intros m. unfold valid_memind_p. by rewrite E1, E2, E3.
Qed.

(** Adjusting the markers by a function that keeps their positions. *)
Lemma adjust_markers_same t t' from to amount b :
  t_z t' = t_z t ->
  (forall x, valid_memind_p t x = true ->
     valid_memind_p t' (do_marker_adjustment x from to amount) = true /\
     memind_to_bytind t' (do_marker_adjustment x from to amount) = memind_to_bytind t x) ->
  buffer_wf t b ->
  same_buffer t t' b (adjust_markers from to amount b) /\
  buffer_wf t' (adjust_markers from to amount b).
Proof.
  intros Hz Hadj [Hbegv Hpt Hzv Hm]. split.
  - split; [by destruct b |]. cbn. rewrite map_map. apply map_ext_in. intros m Hin.
    rewrite Forall_forall in Hm. apply list_elem_of_In in Hin. specialize (Hm m Hin).
    unfold marker_view. cbn. by destruct (Hadj _ Hm) as [_ ->].
  - constructor; cbn; try done; [by rewrite Hz |]. apply Forall_forall. intros m Hin.
    apply list_elem_of_fmap in Hin as (m0 & -> & Hin). rewrite Forall_forall in Hm. cbn.
    by apply Hadj, Hm.
Qed.

(** A quit that was acted on. *)
Definition quit_from (w w' : world X) : Prop :=
  exists w1, same_text w w1 /\ w' = upd_glob (fun g => set_quit g QuitNil (g_signals g)) w1.

Lemma quit_from_abs w w' : quit_from w w' -> abs_world w' = abs_world w /\ world_wf w'.
Proof.
  intros (w1 & Hs & ->). split; [by rewrite <- (same_text_abs _ _ Hs) |].
  destruct Hs as [_ _ _ _ [? ? [? ?]]]. by constructor.
Qed.

Lemma wp_or_quit w w0 (Q : unit -> world X -> Prop) E (m : M X unit) :
  m w0 = or_quit w ->
  (should_quit (w_glob w) = false -> Q tt w) ->
  (should_quit (w_glob w) = true ->
   E Qquit (upd_glob (fun g => set_quit g QuitNil (g_signals g)) w)) ->
  wp m Q E w0.
Proof. intros Em HQ HE. unfold wp. rewrite Em. unfold or_quit. destruct (should_quit _); auto. Qed.

Lemma gap_left_spec (w : world X) pos :
  world_wf w -> 1 <= pos <= t_gpt (w_text w) ->
  wp (gap_left pos)
    (fun _ w' => same_text w w' /\ t_gpt (w_text w') = pos /\
       t_gap_size (w_text w') = t_gap_size (w_text w) /\
       t_end_gap_size (w_text w') = t_end_gap_size (w_text w))
    (fun e w' => e = Qquit /\ quit_from w w') w.
Proof.
  intros Hwf Hp. destruct Hwf as [Ht Hb Hq]. pose proof Ht as [Hgpt Hgap Hend Hmem Hint].
  destruct (gap_left_run w pos Hq Hp Hgap) as (pos' & g' & x' & Hp' & Hg' & Hor & E); [lia |].
  set (t := w_text w) in *.
  set (t' := set_gpt_gap t _ pos' _ _) in E. set (l' := map_live _ _) in E.
  set (w1 := mk_world t' l' x' g') in E.
  assert (text_str t' = text_str t) as Hstr by (apply (gap_str_left (t_mem t) (t_gpt t) pos' (t_gap_size t) (t_z t)); lia).
  assert (text_wf t') as Ht'.
  { constructor; cbn; rewrite ?length_moved by lia; lia. }
  assert (same_text w w1) as Hsame.
  { destruct (map_live_same t t' (adjust_markers pos' (t_gpt t) (t_gap_size t)) (w_bufs w))
      as [H1 H2]; try done.
    - intros b. apply adjust_markers_same; [done |]. intros x Hx.
      apply valid_memind_at in Hx.
      destruct (adjust_left_at (t_gpt t) pos' (t_gap_size t) (t_z t) x) as [Hv Hbt];
        try done; [lia | lia |]. split; [by apply valid_memind_at | exact Hbt].
    - constructor; try done. constructor; [done | done | apply Hg']. }
  eapply wp_or_quit; [exact E | |].
  - intros Hs. destruct Hor as [-> | Hor]; [done | cbn in Hs; congruence].
  - intros _. split; [done |]. by exists w1.
Qed.

Lemma gap_right_spec (w : world X) pos :
  world_wf w -> t_gpt (w_text w) <= pos <= t_z (w_text w) ->
  wp (gap_right pos)
    (fun _ w' => same_text w w' /\ t_gpt (w_text w') = pos)
    (fun e w' => e = Qquit /\ quit_from w w') w.
Proof.
  intros Hwf Hp. destruct Hwf as [Ht Hb Hq]. pose proof Ht as [Hgpt Hgap Hend Hmem Hint].
  destruct (gap_right_run w pos Hq) as (pos' & g' & x' & Hp' & Hg' & Hor & E); [lia | lia | lia |].
  set (t := w_text w) in *. cbv zeta in E.
  set (l' := map_live _ _) in E.
  set (t1 := set_gpt_gap t _ pos' _ _) in E. set (t' := if pos' =? t_z t then _ else t1) in E.
  set (w1 := mk_world t' l' x' g') in E.
  assert (t' = set_gpt_gap t (t_mem t1) pos' (t_gap_size t')
    (t_end_gap_size t') /\ t_gap_size t <= t_gap_size t' /\ 0 <= t_end_gap_size t' /\
    t_gap_size t' + t_end_gap_size t' = t_gap_size t + t_end_gap_size t /\
    (t_gap_size t' = t_gap_size t \/ pos' = t_z t))
    as (Heq & Hg1 & Hg2 & Hg3 & Hg4).
  { unfold t', SET_BUF_END_GAP_SIZE, SET_BUF_GAP_SIZE.
    destruct (Z.eqb_spec pos' (t_z t)); cbn.
    - change (to_int 0) with 0. rewrite to_int_id by lia. split_and!; done || lia.
    - split_and!; done || lia. }
  assert (text_str t1 = text_str t) as Hstr1 by (apply (gap_str_right (t_mem t) (t_gpt t) pos' (t_gap_size t) (t_z t)); lia).
  assert (zlen (t_mem t1) = zlen (t_mem t)) as Hlen by (cbn; rewrite length_moved; lia).
  assert (text_str t' = text_str t) as Hstr.
  { rewrite <- Hstr1, Heq. unfold text_str. cbn [set_gpt_gap t_mem t_gpt t_gap_size t_z].
    change (t_z t1) with (t_z t). change (t_gpt t1) with pos'. change (t_gap_size t1) with (t_gap_size t).
    destruct Hg4 as [-> | ->]; [done |]. unfold gap_str. f_equal.
    by rewrite Z.sub_diag. }
  assert (t_gpt t' = pos' /\ t_z t' = t_z t /\ t_mem t' = t_mem t1) as (Hgp & Hz & Hme)
    by (by rewrite Heq).
  assert (text_wf t') as Ht'.
  { constructor; rewrite ?Hgp, ?Hz, ?Hme, ?Hlen; lia. }
  assert (same_text w w1) as Hsame.
  { destruct (map_live_same t t'
      (adjust_markers (t_gpt t + t_gap_size t) (pos' + t_gap_size t) (- t_gap_size t)) (w_bufs w))
      as [H1 H2]; try done.
    - intros b. apply adjust_markers_same; [done |]. intros x Hx.
      apply valid_memind_at in Hx.
      destruct (adjust_right_at (t_gpt t) pos' (t_gap_size t) (t_z t) x) as [Hv Hbt];
        try done; [lia | lia |].
      rewrite valid_memind_at. unfold memind_to_bytind. rewrite Hgp, Hz.
      fold (bytind_at (t_gpt t) (t_gap_size t) x). rewrite <- Hbt.
      fold (bytind_at pos' (t_gap_size t') (do_marker_adjustment x (t_gpt t + t_gap_size t)
        (pos' + t_gap_size t) (- t_gap_size t))).
      destruct Hg4 as [-> | ->]; [done |]. unfold valid_at, bytind_at in *. zcase.
    - constructor; try done.
      + cbn [w1 w_text]. rewrite Hgp, Hme. exact Heq.
      + constructor; [done | done | apply Hg']. }
  eapply wp_or_quit; [exact E | |].
  - intros Hs. destruct Hor as [-> | Hor]; [done | cbn in Hs; congruence].
  - intros _. split; [done |]. by exists w1.
Qed.

(** ** Joining the end gap to the gap *)

Lemma join_str mem gpt gap inc z :
  1 <= gpt <= z -> 0 <= gap -> 0 <= inc -> z - 1 + gap + inc <= zlen mem ->
  gap_str (moved mem (gpt + gap - 1 + inc) (gpt + gap - 1) (z + gap - (gpt + gap)))
    gpt (inc + gap) z = gap_str mem gpt gap z.
Proof. intros. gap_ext. Qed.

Lemma adjust_join_at gpt gap inc z x :
  1 <= gpt <= z -> 0 <= gap -> 0 <= inc -> valid_at gpt gap z x ->
  let x' := do_marker_adjustment x (gpt + gap) (z + gap) inc in
  valid_at gpt (inc + gap) z x' /\ bytind_at gpt (inc + gap) x' = bytind_at gpt gap x.
Proof.
  unfold valid_at, bytind_at, do_marker_adjustment. intros ? ? ? Hv. cbv zeta.
  destruct Hv, (decide (x <= z + gap)); zdec; split; lia.
Qed.

(** [join_end_gap] on a block whose last [inc] bytes are free; no quit is acted
    on, and [inhibit-quit] is put back. *)
Lemma join_end_gap_spec (w : world X) inc :
  let t := w_text w in
  quit_ok (w_glob w) -> 1 <= t_gpt t <= t_z t -> 0 <= t_gap_size t -> 0 <= inc ->
  zlen (t_mem t) = t_z t - 1 + t_gap_size t + inc -> zlen (t_mem t) < 2 ^ 31 ->
  Forall (live_wf t) (w_bufs w) ->
  wp (join_end_gap inc)
    (fun _ w' => text_str (w_text w') = text_str t /\
       w_text w' = set_gpt_gap t (t_mem (w_text w')) (t_gpt t) (inc + t_gap_size t) 0 /\
       Forall2 (same_buffer t (w_text w')) (w_bufs w) (w_bufs w') /\
       quit_only (w_glob w) (w_glob w') /\ world_wf w')
    (fun _ _ => False) w.
Proof.
  intros t Hq Hgpt Hgap Hinc Hmem Hint Hb.
  unfold join_end_gap. apply wp_bind, wp_get, wp_bind, wp_get, wp_bind, wp_upd, wp_bind, wp_upd.
  apply wp_bind, wp_upd. fold t.
  match goal with |- wp _ _ _ ?w0 => set (w1 := w0) end.
  assert (quit_ok (w_glob w1)) as Hq1 by exact Hq.
  assert (to_int inc = inc) as Hti by (apply to_int_id; lia).
  assert (w_text w1 = set_gpt_gap t (t_mem t) (t_z t + t_gap_size t) inc 0) as Ht1.
  { cbn. unfold SET_BUF_END_GAP_SIZE, SET_BUF_GAP_SIZE, SET_BI_BUF_GPT, set_gpt_gap. cbn.
    by rewrite Hti. }
  destruct (gap_left_run w1 (t_gpt t + t_gap_size t)) as (pos' & g' & x' & Hp' & Hg' & Hor & E);
    try (rewrite Ht1; cbn; lia); [done |].
  assert (g_inhibit_quit g' = true) as Hin.
  { destruct Hg' as (_ & Hg' & _). rewrite Hg'. done. }
  assert (should_quit g' = false) as Hnq by (apply inhibited_no_quit; [apply Hg' | done]).
  destruct Hor as [-> | Hor]; [| congruence].
  apply wp_bind. unfold wp at 1. rewrite E. unfold or_quit. cbn [w_glob]. rewrite Hnq.
  rewrite Ht1. cbn [t_mem t_gpt t_gap_size t_end_gap_size set_gpt_gap].
  apply wp_bind, wp_upd, wp_upd.
  unfold SET_BUF_GAP_SIZE, SET_BI_BUF_GPT, upd_text, upd_glob.
  cbn [w_text w_bufs w_ext w_glob set_gpt_gap t_mem t_gpt t_z t_gap_size t_end_gap_size].
  rewrite to_int_id by lia.
  set (mem' := moved _ _ _ _). set (t' := set_gpt_gap _ mem' _ _ _).
  assert (text_str t' = text_str t) as Hstr.
  { apply (join_str (t_mem t) (t_gpt t) (t_gap_size t) inc (t_z t)); lia. }
  assert (zlen mem' = zlen (t_mem t)) as Hlen by (unfold mem'; rewrite length_moved; lia).
  assert (text_wf t') as Ht' by (constructor; cbn; lia).
  destruct (map_live_same t t' (adjust_markers (t_gpt t + t_gap_size t)
    (t_z t + t_gap_size t) inc) (w_bufs w)) as [Hs1 Hs2]; try done.
  { intros b. apply adjust_markers_same; [done |]. intros x Hx. apply valid_memind_at in Hx.
    destruct (adjust_join_at (t_gpt t) (t_gap_size t) inc (t_z t) x) as [Hv Hbt]; try done.
    split; [by apply valid_memind_at | exact Hbt]. }
  assert (quit_only (w_glob w) (set_inhibit_quit g' (g_inhibit_quit (w_glob w)))) as Hqo.
  { destruct Hg' as (Hok & Heq & Hfl). split_and!; [done | | exact Hfl].
    rewrite Heq. cbn. by destruct (w_glob w). }
  split_and!; try done. constructor; [done | done | apply Hqo].
Qed.

Lemma same_text_join (w w0 w' : world X) gap end_gap :
  world_wf w ->
  w_text w0 = set_gpt_gap (w_text w) (t_mem (w_text w0)) (t_gpt (w_text w)) (t_gap_size (w_text w))
    (t_end_gap_size (w_text w0)) ->
  w_bufs w0 = w_bufs w -> w_glob w0 = w_glob w -> text_str (w_text w0) = text_str (w_text w) ->
  text_str (w_text w') = text_str (w_text w0) ->
  w_text w' = set_gpt_gap (w_text w0) (t_mem (w_text w')) (t_gpt (w_text w0)) gap end_gap ->
  Forall2 (same_buffer (w_text w0) (w_text w')) (w_bufs w0) (w_bufs w') ->
  quit_only (w_glob w0) (w_glob w') -> world_wf w' -> same_text w w'.
Proof.
  intros Hwf H0 Hb Hg Hs H1 H2 H3 H4 H5. rewrite Hg in H4. rewrite Hb in H3.
  constructor; try done.
  - congruence.
  - rewrite H2. rewrite H0. done.
  - eapply Forall2_impl; [exact H3 |]. intros b b' [Hb1 Hb2]. split; [done |].
    rewrite Hb2. rewrite H0. done.
Qed.

Lemma merge_gap_with_end_gap_spec (w : world X) :
  world_wf w ->
  wp merge_gap_with_end_gap
    (fun _ w' => same_text w w' /\ t_gpt (w_text w') = t_gpt (w_text w) /\
       t_gap_size (w_text w') = t_gap_size (w_text w) + t_end_gap_size (w_text w))
    (fun _ _ => False) w.
Proof.
  intros Hwf. pose proof (wf_text _ Hwf) as [Hgpt Hgap Hend Hmem Hint].
  unfold merge_gap_with_end_gap. apply wp_bind, wp_get, wp_bind, wp_upd.
  set (w0 := upd_text _ w).
  assert (w_text w0 = set_gpt_gap (w_text w) (t_mem (w_text w)) (t_gpt (w_text w))
    (t_gap_size (w_text w)) 0) as H0 by done.
  destruct (Z.gtb_spec (t_end_gap_size (w_text w)) 0) as [Hpos | Hnp].
  - eapply wp_mono; [apply join_end_gap_spec; cbn; try lia | |].
    + apply Hwf.
    + eapply Forall_impl; [apply Hwf |]. intros b. by apply live_wf_ext.
    + intros _ w' (H1 & H2 & H3 & H4 & H5). split_and!.
      * by eapply same_text_join with (w0 := w0).
      * by rewrite H2.
      * rewrite H2. cbn. lia.
    + done.
  - assert (t_end_gap_size (w_text w) = 0) as Hz by lia. apply wp_ret.
    assert (w0 = w) as ->.
    { unfold w0, upd_text, SET_BUF_END_GAP_SIZE. change (to_int 0) with 0. rewrite <- Hz.
      by destruct w as [[] ? ? ?]. }
    split_and!; [by apply same_text_refl | done | lia].
Qed.

(** A state that looks the same to the program. *)
Definition unchanged (w w' : world X) : Prop :=
  abs_world w' = abs_world w /\ world_wf w'.

Lemma same_text_unchanged w w' : same_text w w' -> unchanged w w'.
Proof. intros Hs. split; [by apply same_text_abs | apply Hs]. Qed.

Lemma unchanged_trans w1 w2 w3 : unchanged w1 w2 -> unchanged w2 w3 -> unchanged w1 w3.
Proof. intros [? ?] [? ?]. split; [congruence | done]. Qed.

(** Room to insert [length] bytes: the block, with what [make_gap] adds to it,
    stays within an [int]. *)
Definition fits (t : buffer_text) (length : Z) : Prop :=
  t_z t - 1 + length + (2000 + (t_z t - 1) / 8) < 2 ^ 31.

Variable realloc : Z -> option (list Z).

Lemma make_gap_spec (w : world X) increment :
  world_wf w -> 0 <= increment -> fits (w_text w) (t_gap_size (w_text w) + increment) ->
  wp (make_gap realloc increment)
    (fun _ w' => same_text w w' /\ t_gpt (w_text w') = t_gpt (w_text w) /\
       t_gap_size (w_text w) + increment <= t_gap_size (w_text w'))
    (fun _ w' => same_text w w') w.
Proof.
  intros Hwf Hinc Hfit. pose proof (wf_text _ Hwf) as [Hgpt Hgap Hend Hmem Hint].
  unfold fits in Hfit.
  set (t := w_text w) in *. assert (0 <= (t_z t - 1) / 8) as Hdiv by (apply Z.div_pos; lia).
  unfold make_gap. apply wp_bind, wp_get. fold t.
  set (inc := increment + (2000 + (t_z t - 1) / 8)).
  assert (inc = increment + (2000 + (t_z t - 1) / 8)) as Hi by done.
  apply wp_bind. destruct (Z.gtb_spec inc (t_end_gap_size t)) as [Hgt | Hle].
  - assert ((t_z t - 1 + t_gap_size t + inc >? EMACS_INT_MAX) = false) as ->
      by (unfold EMACS_INT_MAX; zcase).
    apply wp_bind, wp_ret.
    destruct (realloc (inc - t_end_gap_size t)) as [junk |]; [| by apply wp_signal, same_text_refl].
    apply wp_bind, wp_upd, wp_ret. set (w0 := upd_text _ w).
    set (fresh := ztake (inc - t_end_gap_size t)
      (junk ++ replicate (Z.to_nat (inc - t_end_gap_size t)) 0)) in *.
    assert (zlen fresh = inc - t_end_gap_size t) as Hfresh.
    { unfold fresh. rewrite length_take, length_app, length_replicate. lia. }
    assert (w_text w0 = set_mem t (t_mem t ++ fresh)) as Ht0 by done.
    assert (text_str (w_text w0) = text_str t) as Hs0.
    { rewrite Ht0. unfold text_str, gap_str. cbn [set_mem set_gpt_gap t_mem t_gpt t_gap_size t_z].
      f_equal; [by rewrite take_app_le by lia |].
      rewrite drop_app_le by lia. rewrite take_app_le; [done |]. rewrite length_drop. lia. }
    eapply wp_mono; [apply (join_end_gap_spec w0 inc) | |].
    + apply Hwf.
    + rewrite Ht0. cbn. lia.
    + rewrite Ht0. cbn. lia.
    + lia.
    + rewrite Ht0. cbn. rewrite length_app. lia.
    + rewrite Ht0. cbn. rewrite length_app. lia.
    + eapply Forall_impl; [apply Hwf |]. intros b. by apply live_wf_ext.
    + intros _ w' (H1 & H2 & H3 & H4 & H5). split_and!.
      * by eapply same_text_join with (w0 := w0).
      * by rewrite H2.
      * rewrite H2. cbn. fold t. lia.
    + done.
  - apply wp_ret. eapply wp_mono; [apply (join_end_gap_spec w (t_end_gap_size t)) | |]; fold t;
      try lia; try apply Hwf.
    + intros _ w' (H1 & H2 & H3 & H4 & H5). split_and!.
      * eapply same_text_join with (w0 := w); try done. unfold t. by destruct (w_text w).
      * by rewrite H2.
      * rewrite H2. cbn. lia.
    + done.
Qed.

Lemma move_gap_spec (w : world X) pos :
  world_wf w -> 1 <= pos <= t_z (w_text w) ->
  wp (move_gap pos)
    (fun _ w' => same_text w w' /\ t_gpt (w_text w') = pos)
    (fun e w' => e = Qquit /\ quit_from w w') w.
Proof.
  intros Hwf Hp. unfold move_gap. apply wp_bind, wp_get.
  destruct (Z.ltb_spec pos (t_gpt (w_text w))); [| rewrite Z.gtb_ltb;
    destruct (Z.ltb_spec (t_gpt (w_text w)) pos)].
  - eapply wp_mono; [apply gap_left_spec; [done | lia] | | done]. naive_solver.
  - apply gap_right_spec; [done | lia].
  - apply wp_ret. split; [by apply same_text_refl | lia].
Qed.

Lemma same_text_z w w' : same_text w w' -> t_z (w_text w') = t_z (w_text w).
Proof. intros [_ E _ _ _]. by rewrite E. Qed.

(** The gap ends up at [ind] with room for [length] bytes, or nothing the program
    sees has changed. *)
Lemma open_gap_spec (w : world X) ind length :
  world_wf w -> 1 <= ind <= t_z (w_text w) -> 0 <= length -> fits (w_text w) length ->
  wp (open_gap realloc ind length)
    (fun _ w' => same_text w w' /\ t_gpt (w_text w') = ind /\ length <= t_gap_size (w_text w'))
    (fun _ w' => unchanged w w') w.
Proof.
  intros Hwf Hind Hlen Hfit. unfold open_gap. apply wp_bind, wp_get, wp_bind.
  apply wp_mono with
    (Q := fun _ w' => same_text w w' /\ t_gpt (w_text w') = ind)
    (E := fun e w' => e = Qquit /\ quit_from w w').
  { destruct (Z.eqb_spec ind (t_gpt (w_text w))) as [-> | Hne]; cbn [negb].
    - apply wp_ret. split; [by apply same_text_refl | done].
    - by apply move_gap_spec. }
  2: { intros e w' [_ Hq]. by apply quit_from_abs. }
  intros _ w1 [Hs1 Hg1]. pose proof (same_wf _ _ Hs1) as Hwf1.
  apply wp_bind, wp_get. unfold GAP_CAN_HOLD_SIZE_P. rewrite Z.geb_leb.
  destruct (Z.leb_spec length (t_gap_size (w_text w1))) as [Hle | Hgt]; cbn [negb].
  { by apply wp_ret. }
  rewrite Z.geb_leb. destruct (Z.leb_spec length (t_end_gap_size (w_text w1))) as [Hle2 | Hgt2].
  - eapply wp_mono; [by apply merge_gap_with_end_gap_spec | | done].
    intros _ w2 (Hs2 & Hg2 & Hz2). split_and!; [by eapply same_text_trans | congruence |].
    pose proof (wf_gap _ (wf_text _ Hwf1)). lia.
  - pose proof (same_text_z _ _ Hs1) as Hz. eapply wp_mono; [apply make_gap_spec; [done | lia |] | |].
    + unfold fits in *. rewrite Hz. lia.
    + intros _ w2 (Hs2 & Hg2 & Hz2). split_and!; [by eapply same_text_trans | congruence | lia].
    + intros e w2 Hs2. apply same_text_unchanged. by eapply same_text_trans.
Qed.
End Gap.
