(* ===== verification/Hooks.v ===== *)
(** * What runs around a change (src/src/insdel.c)

    [prepare_to_modify_buffer] and [signal_after_change] run Lisp code, which may
    do anything.  The theorems ask of that code only that it leaves the buffers
    well-formed and that what it changes is within a given relation [R], a
    preorder; with equality for [R] it changes nothing that can be seen. *)

From S2P Require Import Prelude Lisp Buffer Scan Undo Insdel Gap.

Section Hooks.
Context {X : Type} `{Collaborators X}.
Variable R : astate -> astate -> Prop.

(** The promise of the code around changes to [insdel.c]. *)
Record hooks_ok : Prop := {
  hooks_refl : forall a, R a a;
  hooks_trans : forall a b c, R a b -> R b c -> R a c;
  hooks_bufs : forall a b, R a b -> length (a_bufs b) = length (a_bufs a);
  hooks_wf : forall h w, world_wf w ->
    wp (call_hook h) (fun _ w' => world_wf w' /\ R (abs_world w) (abs_world w'))
                     (fun _ w' => world_wf w' /\ R (abs_world w) (abs_world w')) w;
}.

Hypothesis Hok : hooks_ok.

(** [w'] is what hooks may have made of [w]. *)
Definition hooked (w w' : world X) : Prop := world_wf w' /\ R (abs_world w) (abs_world w').

Lemma hooked_unchanged w w' : unchanged w w' -> hooked w w'.
Proof. intros [E ?]. split; [done |]. rewrite E. apply Hok. Qed.

Lemma hooked_trans w1 w2 w3 : hooked w1 w2 -> hooked w2 w3 -> hooked w1 w3.
Proof. intros [? ?] [? ?]. split; [done |]. by eapply (hooks_trans Hok). Qed.

Lemma hooked_length w w' : hooked w w' -> length (w_bufs w') = length (w_bufs w).
Proof.
  intros [_ HR]. apply (hooks_bufs Hok) in HR. unfold abs_world in HR. cbn in HR.
  by rewrite !length_map in HR.
Qed.

(** ** Bookkeeping *)

Lemma unchanged_glob f (w : world X) :
  world_wf w ->
  (forall g, f g = mk_globals (g_quit_flag g) (g_inhibit_quit g) (g_signals g)
     (g_inside_change_hook (f g)) (g_in_first_change (f g)) (g_buffers_changed (f g))
     (g_point_changed (f g)) (g_last_undo_here g) (g_last_point_position g)
     (g_last_point_position_buffer g) (g_inside_undo (f g)) (g_current (f g))) ->
  unchanged w (upd_glob f w).
Proof.
  intros [? ? Hq] Hf. split.
  - unfold abs_world. cbn. by rewrite Hf.
  - constructor; [done | done |]. cbn. rewrite Hf. exact Hq.
Qed.

Lemma unchanged_ext f (w : world X) : world_wf w -> unchanged w (upd_ext f w).
Proof. intros [? ? ?]. split; [done |]. by constructor. Qed.

Lemma unchanged_text_changes c (w : world X) :
  world_wf w -> unchanged w (upd_text (fun t => set_text_changes t (c t)) w).
Proof.
  intros [Ht Hb Hq]. split; [done |]. constructor; [by destruct Ht | | done].
  eapply Forall_impl; [exact Hb |]. intros b. by apply live_wf_ext.
Qed.

(** An update of the fields a program does not see. *)
Definition hidden (f : buffer -> buffer) : Prop :=
  forall b, f b = mk_buffer (b_live b) (b_pt b) (b_begv b) (b_zv b) (b_changes (f b))
    (b_markers b) (b_point_marker b) (b_undo_list b) (b_read_only b)
    (b_inhibit_read_only b) (b_filename b) (b_modtime b) (b_point_before_scroll (f b)).

Lemma unchanged_hidden f (w : world X) :
  hidden f -> world_wf w -> unchanged w (map_indirect (fun _ => f) w).
Proof.
  intros Hf [Ht Hb Hq]. rewrite map_indirect_const. split.
  - unfold abs_world. cbn. f_equal. unfold map_live. rewrite map_map. apply map_ext.
    intros b. destruct (b_live b) eqn:E; [| done]. rewrite Hf. unfold abs_buf. cbn. by rewrite E.
  - constructor; [done | | done]. cbn. unfold map_live. apply Forall_fmap.
    eapply Forall_impl; [exact Hb |]. intros b. unfold compose.
    destruct (b_live b) eqn:E; [| done]. unfold live_wf. rewrite E.
    rewrite Hf. cbn. rewrite E. by intros [].
Qed.

Lemma wp_upd_unchanged f (w : world X) (k : unit -> M X unit) Q E :
  unchanged w (f w) ->
  (forall w', unchanged w w' -> wp (k tt) Q E w') ->
  wp (bind (upd f) k) Q E w.
Proof. intros Hu Hk. apply wp_bind, wp_upd. by apply Hk. Qed.

(** ** Loops over the buffers *)

Lemma wp_map_indirect_m f (I : world X -> Prop) (E : lisp_error -> world X -> Prop) n (w : world X) :
  length (w_bufs w) = n -> I w ->
  (forall w', I w' -> length (w_bufs w') = n) ->
  (forall v b w', I w' -> w_bufs w' !! v = Some b -> b_live b = true ->
     wp (f v) (fun _ => I) E w') ->
  wp (map_indirect_m f) (fun _ => I) E w.
Proof.
  intros Hn HI Hlen Hf. unfold wp, map_indirect_m.
  change (wp (map_indirect_from (seq 0 (length (w_bufs w))) f) (fun _ => I) E w).
  assert (forall vs w', I w' -> Forall (fun v => (v < n)%nat) vs ->
    wp (map_indirect_from vs f) (fun _ => I) E w') as Hloop.
  { intros vs. induction vs as [| v vs IH]; intros w' Hw' Hvs; [done |].
    apply Forall_cons in Hvs as [Hv Hvs]. cbn [map_indirect_from].
    destruct (lookup_lt_is_Some_2 (w_bufs w') v) as [b Hb]; [by rewrite Hlen |].
    apply wp_bind. eapply wp_get_buf; [exact Hb |]. apply wp_bind.
    destruct (b_live b) eqn:El.
    - eapply wp_mono; [by apply (Hf v b) | | done]. cbn. intros _ w'' Hw''. by apply IH.
    - apply wp_ret. by apply IH. }
  apply Hloop; [done |]. apply Forall_forall. intros v Hv. apply elem_of_seq in Hv. lia.
Qed.

(** A loop that runs a hook for each buffer. *)
Lemma wp_hooks_loop f (w0 w : world X) :
  hooked w0 w ->
  (forall v w', hooked w0 w' -> wp (f v) (fun _ => hooked w0) (fun _ => hooked w0) w') ->
  wp (map_indirect_m f) (fun _ => hooked w0) (fun _ => hooked w0) w.
Proof.
  intros Hw Hf. apply wp_map_indirect_m with (n := length (w_bufs w0)); try done.
  - by apply hooked_length.
  - intros w'. apply hooked_length.
  - intros v b w' Hw' _ _. by apply Hf.
Qed.

Lemma wp_hook h (w0 w : world X) :
  hooked w0 w -> wp (call_hook h) (fun _ => hooked w0) (fun _ => hooked w0) w.
Proof.
  intros Hw. eapply wp_mono; [apply (hooks_wf Hok); apply Hw | |]; cbn; intros;
    (eapply hooked_trans; [exact Hw | done]).
Qed.

Lemma hooked_upd f (w0 w : world X) : hooked w0 w -> unchanged w (f w) -> hooked w0 (f w).
Proof. intros Hw Hu. eapply hooked_trans; [exact Hw | by apply hooked_unchanged]. Qed.

(** ** Code that only runs hooks and keeps books *)

Section Safe.
Variable w0 : world X.
Variable v : nat.
Hypothesis v_buffer : (v < length (w_bufs w0))%nat.

(** However [m] ends, the state is within [R] of [w0]. *)
Definition safe {A} (m : M X A) : Prop :=
  forall w, hooked w0 w -> wp m (fun _ => hooked w0) (fun _ => hooked w0) w.

Lemma safe_ret {A} (a : A) : safe (ret a).
Proof. by intros w Hw. Qed.

Lemma safe_signal {A} e : safe (A := A) (signal e).
Proof. by intros w Hw. Qed.

Lemma safe_bind {A B} (m : M X A) (k : A -> M X B) :
  safe m -> (forall a, safe (k a)) -> safe (bind m k).
Proof.
  intros Hm Hk w Hw. apply wp_bind. eapply wp_mono; [by apply Hm | | done].
  intros a w' Hw'. by apply Hk.
Qed.

Lemma safe_get {A} (f : world X -> A) : safe (get f).
Proof. by intros w Hw. Qed.

Lemma safe_upd f : (forall w, world_wf w -> unchanged w (f w)) -> safe (upd f).
Proof. intros Hf w Hw. apply wp_upd. apply hooked_upd; [done |]. apply Hf, Hw. Qed.

Lemma safe_get_buf i : (i < length (w_bufs w0))%nat -> safe (get_buf i).
Proof.
  intros Hi w Hw. rewrite <- (hooked_length _ _ Hw) in Hi.
  destruct (lookup_lt_is_Some_2 _ _ Hi) as [b Hb]. by eapply wp_get_buf.
Qed.

Lemma safe_hook h : safe (call_hook h).
Proof. intros w Hw. by apply wp_hook. Qed.

Lemma safe_loop f :
  (forall i, (i < length (w_bufs w0))%nat -> safe (f i)) -> safe (map_indirect_m f).
Proof.
  intros Hf w Hw. apply wp_map_indirect_m with (n := length (w_bufs w0)); try done.
  - by apply hooked_length.
  - intros w'. apply hooked_length.
  - intros i b w' Hw' Hb _. apply Hf; [| done]. apply lookup_lt_Some in Hb.
    by rewrite (hooked_length _ _ Hw') in Hb.
Qed.

Lemma safe_unwind {A} (m : M X A) f :
  safe m -> (forall w, world_wf w -> unchanged w (f w)) -> safe (unwind_protect m f).
Proof.
  intros Hm Hf w Hw. apply wp_unwind. eapply wp_mono; [by apply Hm | |]; cbn;
    intros ? w' Hw'; (apply hooked_upd; [done | apply Hf, Hw']).
Qed.

Ltac safe_books :=
  apply safe_upd; intros w_ Hw_;
  first [ by apply unchanged_glob | by apply unchanged_text_changes
        | by apply unchanged_ext | by apply unchanged_hidden ].

Lemma safe_with_change_hook m : safe m -> safe (with_change_hook m).
Proof.
  intros Hm. unfold with_change_hook. apply safe_bind; [apply safe_get |]. intros saved.
  apply safe_unwind; [| intros; by apply unchanged_glob].
  apply safe_bind; [safe_books | done].
Qed.

Lemma hidden_signal t start end_ :
  hidden (fun b => buffer_signal_changed_region t b start end_).
Proof. intros b. by destruct b. Qed.

Lemma safe_signal_after_change start orig_end new_end :
  safe (signal_after_change v start orig_end new_end).
Proof.
  unfold signal_after_change. apply safe_bind; [apply safe_get |]. intros t.
  apply safe_bind; [apply safe_upd; intros; apply unchanged_hidden; [apply hidden_signal | done] |].
  intros _. apply safe_bind; [apply safe_upd; intros; by apply unchanged_ext |].
  intros _. apply safe_bind; [apply safe_get |]. intros [|]; [apply safe_ret |].
  destruct (in_multiple_change_p (t_changes t)); [safe_books |].
  apply safe_with_change_hook. apply safe_bind; [apply safe_loop; intros; apply safe_hook |].
  intros _. apply safe_bind; [by apply safe_get_buf |]. intros b.
  apply safe_loop. intros. apply safe_hook.
Qed.

Lemma safe_cancel_multiple_change : safe (cancel_multiple_change v).
Proof.
  unfold cancel_multiple_change. apply safe_bind; [apply safe_get |]. intros t.
  apply safe_bind; [safe_books |]. intros _.
  destruct (_ && _); [apply safe_signal_after_change | apply safe_ret].
Qed.

Lemma safe_signal_first_change m : safe (signal_first_change m).
Proof.
  unfold signal_first_change. apply safe_bind; [apply safe_get |]. intros g.
  destruct (g_in_first_change g); [apply safe_ret |].
  apply safe_unwind; [| intros; by apply unchanged_glob].
  apply safe_bind; [safe_books |]. intros _. apply safe_hook.
Qed.

Lemma safe_run_before_change start end_ : safe (run_before_change v start end_).
Proof.
  unfold run_before_change. apply safe_bind; [apply safe_get |]. intros t. apply safe_bind.
  { destruct (_ >=? _); [| apply safe_ret]. apply safe_loop. intros. apply safe_signal_first_change. }
  intros _. apply safe_bind; [| intros _; safe_books].
  apply safe_with_change_hook. apply safe_bind; [apply safe_loop; intros; apply safe_hook |].
  intros _. apply safe_bind; [by apply safe_get_buf |]. intros b.
  apply safe_loop. intros. apply safe_hook.
Qed.

Lemma safe_signal_before_change start end_ : safe (signal_before_change v start end_).
Proof.
  unfold signal_before_change. apply safe_bind; [apply safe_get |].
  intros [|]; [apply safe_ret |]. apply safe_bind; [apply safe_get |]. intros t.
  destruct (in_multiple_change_p _); [| apply safe_run_before_change].
  destruct (_ || _).
  - apply safe_bind; [apply safe_cancel_multiple_change |]. intros _. apply safe_run_before_change.
  - destruct (mc_begin_signaled _); [apply safe_ret | apply safe_run_before_change].
Qed.

Lemma safe_barf m from to : (m < length (w_bufs w0))%nat -> safe (barf_if_buffer_read_only m from to).
Proof.
  intros Hm. unfold barf_if_buffer_read_only. apply safe_bind; [by apply safe_get_buf |].
  intros b. destruct (b_inhibit_read_only b); [| apply safe_ret].
  destruct (_ && _); [apply safe_signal |]. destruct (_ >? _); [apply safe_hook | apply safe_ret].
Qed.

Lemma safe_prepare start end_ lockit : safe (prepare_to_modify_buffer v start end_ lockit).
Proof.
  unfold prepare_to_modify_buffer.
  apply safe_bind; [apply safe_loop; intros; by apply safe_barf |]. intros _.
  apply safe_bind; [by apply safe_get_buf |]. intros b.
  apply safe_bind; [apply safe_get |]. intros t.
  apply safe_bind; [destruct (_ && _); [apply safe_hook | apply safe_ret] |]. intros _.
  apply safe_bind; [by apply safe_get_buf |]. intros b'.
  destruct (b_live b'); cbn [negb]; [| apply safe_ret].
  apply safe_bind; [apply safe_signal_before_change |]. intros _.
  apply safe_upd. intros w Hw. apply unchanged_hidden; [| done]. by intros [].
Qed.
End Safe.
End Hooks.
