(* ===== verification/EditSpec.v ===== *)
(** * What an edit means

    The specification of insertion, deletion and replacement, on the abstract
    state: a string, and for each buffer its point, accessible region, markers
    and undo list.  No gap, no memory indices. *)

From S2P Require Import Prelude Lisp Buffer Undo.

(** ** Recording *)

Definition set_a_undo (b : abuf) (u : undo_list) : abuf :=
  mk_abuf (a_live b) (a_pt b) (a_begv b) (a_zv b) (a_markers b) (a_point_marker b) u (a_modtime b).

(** Each live buffer, in order, records the change with [push]; only the first
    that records can be the first of a new run on this text. *)
Fixpoint record_bufs (push : nat -> abuf -> list undo_elt -> list undo_elt)
    (modiff save_modiff : Z) (i : nat) (here : bool) (bs : list abuf) : list abuf * bool :=
  match bs with
  | [] => ([], here)
  | b :: bs =>
      match (if a_live b then undo_prelude modiff save_modiff (a_modtime b) here (a_undo b)
             else None) with
      | None =>
          let '(bs, here) := record_bufs push modiff save_modiff (S i) here bs in
          (b :: bs, here)
      | Some l =>
          let '(bs, here) := record_bufs push modiff save_modiff (S i) true bs in
          (set_a_undo b (Some (push i b l)) :: bs, here)
      end
  end.

Definition spec_record (push : nat -> abuf -> list undo_elt -> list undo_elt) (s : astate)
  : astate :=
  let '(bs, here) :=
    record_bufs push (a_modiff s) (a_save_modiff s) 0 (a_last_undo_here s) (a_bufs s) in
  mk_astate (a_str s) bs (a_modiff s) (a_save_modiff s) here (a_last_point_position s)
    (a_last_point_position_buffer s).

Definition spec_record_insert (beg length : Z) : astate -> astate :=
  spec_record (fun _ _ l => push_insert l beg length).

Definition spec_record_delete (beg length : Z) (s : astate) : astate :=
  spec_record (fun i b l =>
    push_delete l (a_pt b) beg length
      (if bool_decide (a_last_point_position_buffer s = Some i)
       then Some (a_last_point_position s) else None)
      (slice (a_str s) (beg - 1) length)) s.

(** ** Changes of the text *)

Definition set_a_text (s : astate) (str : list Z) (bs : list abuf) (modiff : Z) : astate :=
  mk_astate str bs modiff (a_save_modiff s) (a_last_undo_here s) (a_last_point_position s)
    (a_last_point_position_buffer s).

Definition map_live_abufs (f : nat -> abuf -> abuf) (bs : list abuf) : list abuf :=
  imap (fun i b => if a_live b then f i b else b) bs.

(** A marker after [n] characters went in at [ind]: it advances if it is after
    [ind], or at [ind] and of the advancing type, or all at [ind] advance. *)
Definition marker_after_insert (ind n : Z) (before_markers : bool)
    (m : positive * Z * bool) : positive * Z * bool :=
  let '(id, p, ty) := m in
  (id, if (p >? ind) || ((p =? ind) && (ty || before_markers)) then p + n else p, ty).

(** One buffer; [target] is the one whose point is to end up after the text. *)
Definition insert_abuf (ind n : Z) (before_markers target : bool) (b : abuf) : abuf :=
  let pt := if a_pt b >? ind then a_pt b + n else a_pt b in
  let moves := target && negb (pt =? ind + n) in
  mk_abuf (a_live b) (if moves then ind + n else pt) (a_begv b) (a_zv b + n)
    (map (fun m =>
       if moves && bool_decide (m.1.1 = a_point_marker b) then (m.1.1, ind + n, m.2)
       else marker_after_insert ind n before_markers m) (a_markers b))
    (a_point_marker b) (a_undo b) (a_modtime b).

Definition spec_insert (v : nat) (ind : Z) (bytes : list Z) (move_point before_markers : bool)
    (s : astate) : astate :=
  let n := zlen bytes in
  let s := spec_record_insert ind n s in
  set_a_text s (ztake (ind - 1) (a_str s) ++ bytes ++ zdrop (ind - 1) (a_str s))
    (map_live_abufs (fun i => insert_abuf ind n before_markers
       (move_point && bool_decide (i = v))) (a_bufs s))
    (a_modiff s + 1).

(** A position after [from, to) is gone. *)
Definition pos_after_delete (from to p : Z) : Z :=
  if p <=? from then p else if p <? to then from else p - (to - from).

Definition delete_abuf (from to : Z) (b : abuf) : abuf :=
  mk_abuf (a_live b) (pos_after_delete from to (a_pt b)) (a_begv b) (a_zv b - (to - from))
    (map (fun m => (m.1.1, pos_after_delete from to m.1.2, m.2)) (a_markers b))
    (a_point_marker b) (a_undo b) (a_modtime b).

Definition spec_delete (from to : Z) (s : astate) : astate :=
  let s := spec_record_delete from (to - from) s in
  set_a_text s (ztake (from - 1) (a_str s) ++ zdrop (to - 1) (a_str s))
    (map_live_abufs (fun _ => delete_abuf from to) (a_bufs s)) (a_modiff s + 1).

(** A change of one character is a deletion and an insertion, recorded buffer by
    buffer. *)
Definition spec_record_change (beg length : Z) (s : astate) : astate :=
  spec_record (fun i b l =>
    let l := push_delete l (a_pt b) beg length
      (if bool_decide (a_last_point_position_buffer s = Some i)
       then Some (a_last_point_position s) else None)
      (slice (a_str s) (beg - 1) length) in
    match undo_prelude (a_modiff s) (a_save_modiff s) (a_modtime b) true (Some l) with
    | Some l => push_insert l beg length
    | None => l
    end) s.

(** [real] is false for a change that is not to be noticed. *)
Definition spec_replace (pos ch : Z) (real : bool) (s : astate) : astate :=
  let s' := if real then spec_record_change pos 1 s else s in
  set_a_text s' (zset (a_str s) (pos - 1) ch) (a_bufs s')
    (if real then a_modiff s + 1 else a_modiff s).

(** The end points of an edit, as the code clips them to a buffer. *)
Definition a_clip (b : abuf) (pos : Z) : Z :=
  let pos := if pos <? a_begv b then a_begv b else pos in
  if pos >? a_zv b then a_zv b else pos.

(** ** Number of buffers *)

Lemma length_record_bufs push modiff save_modiff i here bs :
  length (record_bufs push modiff save_modiff i here bs).1 = length bs.
Proof.
  revert i here. induction bs as [| b bs IH]; intros i here; [done |]. cbn [record_bufs].
  destruct (if a_live b then _ else _);
    [specialize (IH (S i) true) | specialize (IH (S i) here)];
    destruct (record_bufs _ _ _ _ _ _); cbn in *; by f_equal.
Qed.

Lemma length_spec_record push s : length (a_bufs (spec_record push s)) = length (a_bufs s).
Proof.
  unfold spec_record. pose proof (length_record_bufs push (a_modiff s) (a_save_modiff s) 0
    (a_last_undo_here s) (a_bufs s)) as E. by destruct (record_bufs _ _ _ _ _ _).
Qed.

Lemma length_spec_insert v ind bytes mp bm s :
  length (a_bufs (spec_insert v ind bytes mp bm s)) = length (a_bufs s).
Proof. unfold spec_insert. cbn. unfold map_live_abufs. rewrite length_imap. apply length_spec_record. Qed.

Lemma length_spec_delete from to s : length (a_bufs (spec_delete from to s)) = length (a_bufs s).
Proof. unfold spec_delete. cbn. unfold map_live_abufs. rewrite length_imap. apply length_spec_record. Qed.

Lemma length_spec_replace pos ch real s :
  length (a_bufs (spec_replace pos ch real s)) = length (a_bufs s).
Proof. unfold spec_replace, spec_record_change. cbn. destruct real; [apply length_spec_record | done]. Qed.
