(* ===== verification/Edit.v ===== *)
(** * Insertion, deletion and replacement implement their specification

    The functions of [Insdel] on a well-formed state, with the gap anywhere,
    compute on the text, the buffers and the undo lists what [EditSpec] says. *)

From S2P Require Import Prelude Lisp Buffer Scan Undo Insdel Gap Hooks EditSpec.

Section Recording.
Context {X : Type}.

(** A recording function: what it does to buffer [i]. *)
Definition records (t : buffer_text) (g : globals) (op : nat -> M X unit)
    (push : nat -> buffer -> list undo_elt -> list undo_elt) : Prop :=
  forall i b w, w_text w = t -> w_bufs w !! i = Some b ->
    (exists here, w_glob w = set_last_undo_here g here) ->
    op i w =
    match undo_prelude (t_modiff t) (t_save_modiff t) (b_modtime b)
            (g_last_undo_here (w_glob w)) (b_undo_list b) with
    | None => (Done tt, w)
    | Some l => (Done tt,
        mk_world (w_text w) (alter (fun b => set_undo_list b (Some (push i b l))) i (w_bufs w))
          (w_ext w) (set_last_undo_here (w_glob w) true))
    end.

Lemma set_last_undo_here_id g : set_last_undo_here g (g_last_undo_here g) = g.
Proof. by destruct g. Qed.

(** Only the undo lists differ. *)
Definition same_but_undo (b b' : buffer) : Prop := b' = set_undo_list b (b_undo_list b').

Lemma record_loop t g op push apush :
  records t g op push ->
  (forall i b l, push i b l = apush i (abs_buf t b) l) ->
  forall post pre x here,
  exists post' here',
    map_indirect_from (seq (length pre) (length post)) op
      (mk_world t (pre ++ post) x (set_last_undo_here g here)) =
      (Done tt, mk_world t (pre ++ post') x (set_last_undo_here g here')) /\
    record_bufs apush (t_modiff t) (t_save_modiff t) (length pre) here (map (abs_buf t) post) =
      (map (abs_buf t) post', here') /\
    Forall2 same_but_undo post post'.
Proof.
  intros Hop Hpush. induction post as [| b post IH]; intros pre x here.
  { exists [], here. split_and!; [done | done | constructor]. }
  cbn [length seq map_indirect_from map record_bufs]. unfold bind at 1, get_buf.
  cbn [w_bufs]. rewrite list_lookup_middle by done. cbn [of_option ret].
  unfold bind at 1. change (a_live (abs_buf t b)) with (b_live b).
  change (a_modtime (abs_buf t b)) with (b_modtime b).
  change (a_undo (abs_buf t b)) with (b_undo_list b).
  assert (forall b1 here1,
    b1 = set_undo_list b (b_undo_list b1) ->
    exists post' here',
      map_indirect_from (seq (S (length pre)) (length post)) op
        (mk_world t (pre ++ b1 :: post) x (set_last_undo_here g here1)) =
        (Done tt, mk_world t (pre ++ b1 :: post') x (set_last_undo_here g here')) /\
      record_bufs apush (t_modiff t) (t_save_modiff t) (S (length pre)) here1
        (map (abs_buf t) post) = (map (abs_buf t) post', here') /\
      Forall2 same_but_undo (b :: post) (b1 :: post')) as Hnext.
  { intros b1 here1 Hb1. destruct (IH (pre ++ [b1]) x here1) as (post' & here' & E1 & E2 & E3).
    rewrite <- !(assoc_L (++)) in E1. rewrite length_app, Nat.add_1_r in E1, E2.
    exists post', here'. split_and!; [exact E1 | exact E2 |]. by constructor. }
  destruct (b_live b) eqn:El.
  - assert (op (length pre) (mk_world t (pre ++ b :: post) x (set_last_undo_here g here)) =
      match undo_prelude (t_modiff t) (t_save_modiff t) (b_modtime b) here (b_undo_list b) with
      | None => (Done tt, mk_world t (pre ++ b :: post) x (set_last_undo_here g here))
      | Some l => (Done tt, mk_world t (pre ++ set_undo_list b (Some (push (length pre) b l)) :: post)
                     x (set_last_undo_here g true))
      end) as ->.
    { rewrite (Hop (length pre) b); [| done | cbn; by rewrite list_lookup_middle | by exists here].
      cbn [w_text w_bufs w_ext w_glob]. change (g_last_undo_here (set_last_undo_here g here)) with here.
      destruct (undo_prelude _ _ _ _ _); [| done]. do 2 f_equal.
      by rewrite alter_app_r_alt, Nat.sub_diag by lia. }
    destruct (undo_prelude _ _ _ _ _) as [l |].
    + destruct (Hnext (set_undo_list b (Some (push (length pre) b l))) true eq_refl)
        as (post' & here' & E1 & E2 & E3).
      rewrite E1, E2. eexists _, here'. split_and!; [done | | exact E3].
      cbn [map]. do 2 f_equal. unfold abs_buf at 2, set_a_undo. cbn. by rewrite Hpush.
    + destruct (Hnext b here) as (post' & here' & E1 & E2 & E3); [by destruct b |].
      rewrite E1, E2. eexists _, here'. split_and!; [done | done | exact E3].
  - cbn [ret]. destruct (Hnext b here) as (post' & here' & E1 & E2 & E3); [by destruct b |].
    unfold ret. rewrite E1, E2. eexists _, here'. split_and!; [done | done | exact E3].
Qed.

(** The loop over all buffers. *)
Lemma record_all (w : world X) op push apush :
  records (w_text w) (w_glob w) op push ->
  (forall i b l, push i b l = apush i (abs_buf (w_text w) b) l) ->
  exists bufs' here',
    let w' := mk_world (w_text w) bufs' (w_ext w) (set_last_undo_here (w_glob w) here') in
    map_indirect_m op w = (Done tt, w') /\
    abs_world w' = spec_record apush (abs_world w) /\
    Forall2 same_but_undo (w_bufs w) bufs'.
Proof.
  intros Hop Hpush.
  destruct (record_loop _ _ _ _ _ Hop Hpush (w_bufs w) [] (w_ext w) (g_last_undo_here (w_glob w)))
    as (bufs' & here' & E1 & E2 & E3).
  exists bufs', here'. cbv zeta. split_and!; [| | exact E3].
  - unfold map_indirect_m. rewrite set_last_undo_here_id in E1. cbn [app length] in E1.
    destruct w. exact E1.
  - unfold abs_world, spec_record. cbn [a_bufs a_modiff a_save_modiff a_last_undo_here].
    cbn [length] in E2. by rewrite E2.
Qed.

Lemma records_insert t g beg n :
  records t g (fun i => record_insert i beg n) (fun _ _ l => push_insert l beg n).
Proof.
  intros i b w Ht Hb _. unfold record_insert, bind, get_buf, get. rewrite Hb. cbn [of_option ret].
  rewrite Ht. destruct (undo_prelude _ _ _ _ _); [| done].
  unfold upd, upd_glob, upd_buf, upd_bufs. cbn. by rewrite Ht.
Qed.

Definition last_point_of (g : globals) (i : nat) : option Z :=
  if bool_decide (g_last_point_position_buffer g = Some i)
  then Some (g_last_point_position g) else None.

Lemma records_delete t g beg n str :
  make_string_from_buffer t beg n = Some str ->
  records t g (fun i => record_delete i beg n)
    (fun i b l => push_delete l (b_pt b) beg n (last_point_of g i) str).
Proof.
  intros Hstr i b w Ht Hb [here Hg]. unfold record_delete, bind, get_buf, get.
  rewrite Hb. cbn [of_option ret]. rewrite Ht. destruct (undo_prelude _ _ _ _ _); [| done].
  rewrite Hstr. cbn [of_option ret]. unfold upd, upd_glob, upd_buf, upd_bufs. cbn. rewrite Ht.
  by rewrite Hg.
Qed.

Lemma records_change t g beg n str :
  make_string_from_buffer t beg n = Some str ->
  records t g (fun i => record_change i beg n)
    (fun i b l =>
      let l := push_delete l (b_pt b) beg n (last_point_of g i) str in
      match undo_prelude (t_modiff t) (t_save_modiff t) (b_modtime b) true (Some l) with
      | Some l => push_insert l beg n
      | None => l
      end).
Proof.
  intros Hstr i b w Ht Hb [here Hg]. unfold record_change, bind.
  rewrite (records_delete t g beg n str Hstr i b w Ht Hb) by by exists here.
  destruct (undo_prelude _ _ _ (g_last_undo_here (w_glob w)) (b_undo_list b)) as [l |] eqn:El.
  - set (b1 := set_undo_list b (Some (push_delete l (b_pt b) beg n (last_point_of g i) str))).
    erewrite (records_insert t g beg n i b1); cbn [w_text w_bufs w_ext w_glob]; [| done | | ].
    2: { rewrite list_lookup_alter_eq, Hb. done. }
    2: { exists true. rewrite Hg. done. }
    change (g_last_undo_here (set_last_undo_here (w_glob w) true)) with true.
    cbn [b1 set_undo_list b_undo_list b_modtime b_pt].
    unfold undo_prelude at 1. cbn. do 2 f_equal.
    rewrite list_alter_alter_eq. apply list_alter_ext; [| done]. intros b' Hb'.
    rewrite Hb in Hb'. injection Hb' as <-. done.
  - rewrite (records_insert t g beg n i b w Ht Hb) by by exists here.
    destruct (b_undo_list b); [done |]. done.
Qed.
End Recording.

(** ** Insertion at the gap *)

Section InsertMarkers.
Variables (t t' : buffer_text) (ind n : Z).
Hypothesis Ht : text_wf t.
Hypothesis gap_here : t_gpt t = ind.
Hypothesis n_pos : 0 <= n <= t_gap_size t.
Hypothesis gpt' : t_gpt t' = ind + n.
Hypothesis gap' : t_gap_size t' = t_gap_size t - n.
Hypothesis z' : t_z t' = t_z t + n.

(** What the three passes over the markers do to one of them. *)
Definition marker_passes (bm : bool) (m : Lisp_Marker) : Z :=
  let x := if m_insertion_type m && (m_memind m =? ind) then m_memind m + n else m_memind m in
  if bm then do_marker_adjustment x (ind - 1) ind n else x.

Lemma marker_passes_spec bm m :
  valid_memind_p t (m_memind m) = true ->
  valid_memind_p t' (marker_passes bm m) = true /\
  (m_id m, memind_to_bytind t' (marker_passes bm m), m_insertion_type m) =
  marker_after_insert ind n bm (marker_view t m).
Proof.
  destruct Ht as [Hg1 Hg2 Hg3 Hm Hi]. rewrite valid_memind_at. unfold valid_at. intros Hv.
  unfold valid_memind_p, memind_to_bytind, marker_passes, marker_after_insert, marker_view,
    do_marker_adjustment, memind_to_bytind. cbv zeta. cbn [fst snd].
  rewrite gap_here, gpt', gap', z' in *.
  assert (m_memind m < ind \/ m_memind m = ind \/ ind + t_gap_size t < m_memind m)
    as [Hc | [Hc | Hc]] by lia;
    destruct (m_insertion_type m), bm; zdec; (split; [done |]); do 2 f_equal; lia.
Qed.

Lemma point_marker_spec :
  bytind_to_memind t' (ind + n) = ind + n /\
  (forall bm : bool, (if bm then do_marker_adjustment (ind + n) (ind - 1) ind n else ind + n) = ind + n) /\
  valid_memind_p t' (ind + n) = true /\ memind_to_bytind t' (ind + n) = ind + n.
Proof.
  destruct Ht as [Hg1 Hg2 Hg3 Hm Hi].
  unfold bytind_to_memind, do_marker_adjustment, valid_memind_p, memind_to_bytind.
  rewrite gap_here, gpt', gap', z' in *.
  split_and!; [| intros [] | |]; zdec; done || lia.
Qed.
End InsertMarkers.

(** ** Passes over the buffers *)

Section Passes.
Context {X : Type}.

Definition map_live_i (F : nat -> buffer -> buffer) (bs : list buffer) : list buffer :=
  imap (fun i b => if b_live b then F i b else b) bs.

Definition keeps_live (F : nat -> buffer -> buffer) : Prop :=
  forall i b, b_live (F i b) = b_live b.

Lemma map_indirect_i F (w : world X) :
  map_indirect F w = mk_world (w_text w) (map_live_i F (w_bufs w)) (w_ext w) (w_glob w).
Proof. done. Qed.

Lemma map_live_i_compose F G bs :
  keeps_live F -> map_live_i G (map_live_i F bs) = map_live_i (fun i b => G i (F i b)) bs.
Proof.
  intros HF. apply list_eq. intros i. unfold map_live_i. rewrite !list_lookup_imap.
  destruct (bs !! i) as [b |]; [| done]. cbn. destruct (b_live b) eqn:E; [| by rewrite E].
  by rewrite HF, E.
Qed.

Lemma alter_map_live_i f F bs v b :
  bs !! v = Some b -> b_live b = true ->
  alter f v (map_live_i F bs) =
  map_live_i (fun i b => if bool_decide (i = v) then f (F i b) else F i b) bs.
Proof.
  intros Hv Hl. apply list_eq. intros i. unfold map_live_i. rewrite list_lookup_imap.
  case_bool_decide as E.
  - subst. rewrite list_lookup_alter_eq, list_lookup_imap, Hv. cbn. by rewrite Hl.
  - rewrite list_lookup_alter_ne by done. by rewrite list_lookup_imap.
Qed.

Lemma lookup_map_live_i F bs v b :
  bs !! v = Some b -> b_live b = true -> map_live_i F bs !! v = Some (F v b).
Proof. intros Hv Hl. unfold map_live_i. rewrite list_lookup_imap, Hv. cbn. by rewrite Hl. Qed.

(** A pass that does to each live buffer what [G] does abstractly. *)
Lemma pass_spec t t' F G bs :
  Forall (live_wf t) bs ->
  (forall i b, bs !! i = Some b -> b_live b = true -> buffer_wf t b ->
     buffer_wf t' (F i b) /\ b_live (F i b) = true /\ abs_buf t' (F i b) = G i (abs_buf t b)) ->
  Forall (live_wf t') (map_live_i F bs) /\
  map (abs_buf t') (map_live_i F bs) = map_live_abufs G (map (abs_buf t) bs).
Proof.
  intros Hwf HF. split.
  - apply Forall_lookup. intros i b. unfold map_live_i. rewrite list_lookup_imap.
    destruct (bs !! i) as [b0 |] eqn:E; [| done]. cbn. intros [= <-].
    pose proof (Forall_lookup_1 _ _ _ _ Hwf E) as Hb. unfold live_wf in *.
    destruct (b_live b0) eqn:El.
    + destruct (HF i b0 E El Hb) as (H1 & -> & _). exact H1.
    + by rewrite El.
  - apply list_eq. intros i. unfold map_live_abufs, map_live_i.
    rewrite list_lookup_imap. change (@map) with (@fmap list _). 
    rewrite !list_lookup_fmap, list_lookup_imap.
    destruct (bs !! i) as [b0 |] eqn:E; [| done]. cbn. f_equal.
    pose proof (Forall_lookup_1 _ _ _ _ Hwf E) as Hb. unfold live_wf in Hb.
    destruct (b_live b0) eqn:El; cbn.
    + by apply HF.
    + unfold abs_buf. by rewrite Hb.
Qed.

(** Recording leaves everything but the undo lists. *)
Lemma same_but_undo_wf t bs bs' :
  Forall2 same_but_undo bs bs' -> Forall (live_wf t) bs -> Forall (live_wf t) bs'.
Proof.
  induction 1 as [| b b' bs bs' Hb Hbs IH]; intros Hwf; [done |].
  apply Forall_cons in Hwf as [Hw Hwf]. constructor; [| by apply IH].
  rewrite Hb. unfold live_wf in *. cbn. destruct (b_live b); [| exact Hw].
  by destruct Hw.
Qed.

Lemma same_but_undo_lookup bs bs' i b :
  Forall2 same_but_undo bs bs' -> bs !! i = Some b ->
  exists u, bs' !! i = Some (set_undo_list b u).
Proof.
  intros H2 Hb. destruct (Forall2_lookup_l _ _ _ _ _ H2 Hb) as (b' & Hb' & E).
  exists (b_undo_list b'). by rewrite Hb', <- E.
Qed.
End Passes.

(** ** Point *)

Section Point.
Context {X : Type}.

(** Buffer [b] with point at [pos]. *)
Definition point_at (t : buffer_text) (pos : Z) (b : buffer) : buffer :=
  if pos =? b_pt b then b else
  set_markers (JUST_SET_POINT b pos) (map (fun m =>
    if bool_decide (m_id m = b_point_marker b)
    then mk_marker (m_id m) (bytind_to_memind t pos) (m_insertion_type m) else m) (b_markers b)).

Lemma set_buffer_point_run v pos b (w : world X) :
  w_bufs w !! v = Some b ->
  exists g', set_buffer_point v pos w =
    (Done tt, mk_world (w_text w) (alter (point_at (w_text w) pos) v (w_bufs w)) (w_ext w) g') /\
    exists pc, g' = set_redisplay (w_glob w) (g_buffers_changed (w_glob w)) pc.
Proof.
  intros Hb. unfold set_buffer_point, bind, get_buf, get, upd. rewrite Hb. cbn [of_option ret].
  destruct (pos =? b_pt b) eqn:E.
  - exists (w_glob w). split; [| exists (g_point_changed (w_glob w)); by destruct (w_glob w)].
    unfold ret. f_equal. destruct w as [t bs x g]. cbn [w_text w_bufs w_ext w_glob] in *. f_equal.
    rewrite <- (list_alter_id id bs v) at 1 by done. apply list_alter_ext; [| done].
    intros b' Hb'. rewrite Hb in Hb'. injection Hb' as <-. unfold point_at. by rewrite E.
  - eexists. split; [| by eexists]. f_equal. unfold upd_buf, upd_bufs, upd_glob.
    cbn [w_text w_bufs w_ext w_glob]. f_equal. rewrite list_alter_alter_eq.
    apply list_alter_ext; [| done]. intros b' Hb'. rewrite Hb in Hb'. injection Hb' as <-.
    unfold compose, point_at. by rewrite E.
Qed.
End Point.

(** ** One buffer through an insertion *)

Definition insert_passes (t' : buffer_text) (ind n : Z) (move bm : bool) (b : buffer) : buffer :=
  let b := SET_BOTH_BUF_ZV b (b_zv b + n) in
  let b := adjust_markers_for_insert ind n b in
  let b := if b_pt b >? ind then JUST_SET_POINT b (b_pt b + n) else b in
  let b := if move then point_at t' (ind + n) b else b in
  if bm then adjust_markers (ind - 1) ind n b else b.

Lemma if_pt (c : bool) b pt : (if c then JUST_SET_POINT b pt else b) =
  JUST_SET_POINT b (if c then pt else b_pt b).
Proof. destruct c; [done |]. by destruct b. Qed.

Lemma insert_passes_eq t' ind n move bm b :
  let pt := if b_pt b >? ind then b_pt b + n else b_pt b in
  let moves := move && negb (pt =? ind + n) in
  insert_passes t' ind n move bm b =
  mk_buffer (b_live b) (if moves then ind + n else pt) (b_begv b) (b_zv b + n) (b_changes b)
    (map (fun m =>
       mk_marker (m_id m)
         (if moves && bool_decide (m_id m = b_point_marker b)
          then (if bm then do_marker_adjustment (bytind_to_memind t' (ind + n)) (ind - 1) ind n
                else bytind_to_memind t' (ind + n))
          else marker_passes ind n bm m) (m_insertion_type m)) (b_markers b))
    (b_point_marker b) (b_undo_list b) (b_read_only b) (b_inhibit_read_only b) (b_filename b)
    (b_modtime b) (b_point_before_scroll b).
Proof.
  cbv zeta. unfold insert_passes, point_at.
  destruct b as [li pt bv zv ch ms pm ul ro iro fn mt pbs].
  unfold adjust_markers, adjust_markers_for_insert, marker_passes, SET_BOTH_BUF_ZV, set_markers. cbn.
  rewrite if_pt. cbn. set (p := if pt >? ind then pt + n else pt). rewrite (Z.eqb_sym (ind + n)).
  unfold JUST_SET_POINT.
  destruct move, (p =? ind + n), bm; cbn; f_equal; rewrite ?map_map;
    apply map_ext; intros [id x ty]; cbn;
    repeat case_bool_decide; destruct (ty && (x =? ind)); cbn in *; done.
Qed.

Section InsertBuffer.
Variables (t t' : buffer_text) (ind n : Z).
Hypothesis Ht : text_wf t.
Hypothesis gap_here : t_gpt t = ind.
Hypothesis n_pos : 0 <= n <= t_gap_size t.
Hypothesis gpt' : t_gpt t' = ind + n.
Hypothesis gap' : t_gap_size t' = t_gap_size t - n.
Hypothesis z' : t_z t' = t_z t + n.

Lemma insert_passes_spec move bm b :
  buffer_wf t b -> (move = true -> b_begv b <= ind <= b_zv b) ->
  buffer_wf t' (insert_passes t' ind n move bm b) /\
  abs_buf t' (insert_passes t' ind n move bm b) = insert_abuf ind n bm move (abs_buf t b).
Proof.
  intros [Hb1 Hb2 Hb3 Hb4] Hmove. rewrite insert_passes_eq. cbv zeta.
  destruct (point_marker_spec t t' ind n Ht gap_here n_pos gpt' gap' z') as (E1 & E2 & E3 & E4).
  rewrite E1, E2. set (pt := if b_pt b >? ind then b_pt b + n else b_pt b).
  assert (b_begv b <= pt <= b_zv b + n) as Hpt by (unfold pt; zdec; lia).
  assert (forall m (c : bool), valid_memind_p t (m_memind m) = true ->
    valid_memind_p t' (if c then ind + n else marker_passes ind n bm m) = true /\
    (m_id m, memind_to_bytind t' (if c then ind + n else marker_passes ind n bm m),
       m_insertion_type m) =
    (if c then (m_id m, ind + n, m_insertion_type m)
     else marker_after_insert ind n bm (marker_view t m))) as Hm.
  { intros m [|] Hv; [by rewrite E4 |]. by apply marker_passes_spec. }
  set (moves := move && negb (pt =? ind + n)).
  assert (b_begv b <= (if moves then ind + n else pt) <= b_zv b + n) as Hnew.
  { unfold moves. destruct move; [specialize (Hmove eq_refl) |]; cbn [andb]; [| lia].
    destruct (pt =? ind + n); cbn [negb]; lia. }
  split.
  - constructor; cbn [b_begv b_pt b_zv b_markers]; [lia | lia | lia |].
    apply Forall_map. eapply Forall_impl; [exact Hb4 |]. intros m Hv. by apply Hm.
  - unfold abs_buf, insert_abuf. cbn [b_live b_pt b_begv b_zv b_markers b_point_marker b_undo_list
      b_modtime a_live a_pt a_begv a_zv a_markers a_point_marker a_undo a_modtime].
    fold pt moves. f_equal. rewrite !map_map. apply map_ext_in. intros m Hin.
    rewrite Forall_forall in Hb4. apply list_elem_of_In, Hb4 in Hin.
    exact (proj2 (Hm m (moves && bool_decide (m_id m = b_point_marker b)) Hin)).
Qed.
End InsertBuffer.

(** ** The whole change at the gap *)

Lemma insert_str t mem' bytes :
  text_wf t -> zlen bytes <= t_gap_size t ->
  mem_write (t_mem t) (BUF_GPT_ADDR t) bytes = Some mem' ->
  gap_str mem' (t_gpt t + zlen bytes) (t_gap_size t - zlen bytes) (t_z t + zlen bytes) =
  ztake (t_gpt t - 1) (text_str t) ++ bytes ++ zdrop (t_gpt t - 1) (text_str t).
Proof.
  intros [] Hn. unfold BUF_GPT_ADDR. rewrite mem_write_Some by lia. intros [= <-].
  unfold text_str, gap_str.
  set (p := ztake (t_gpt t - 1) (t_mem t)).
  assert (zlen p = t_gpt t - 1) as Hp by (unfold p; lens; lia).
  rewrite (assoc_L (++) p bytes).
  rewrite (take_app_exact (p ++ bytes)), (drop_app_ge (p ++ bytes)) by (rewrite length_app; lia).
  rewrite (take_app_exact p), (drop_app_exact p) by lia.
  rewrite drop_drop, <- (assoc_L (++)). do 2 f_equal.
  f_equal; [lia |]. f_equal. rewrite length_app. lia.
Qed.

(** One unconditional update, with the state kept in normal form. *)
Ltac wsimpl :=
  unfold upd_text, upd_glob; rewrite ?map_indirect_i; cbn [w_text w_bufs w_ext w_glob].
Ltac wstep := apply wp_bind, wp_upd; wsimpl.
Ltac wlast := apply wp_upd; wsimpl.

Section InsertAtGap.
Context {X : Type} `{Collaborators X}.

Definition bm_flag (flags : Z) : bool := negb (Z.land flags INSDEL_BEFORE_MARKERS =? 0).

Lemma wp_bind_eq {A B} (m : M X A) (k : A -> M X B) a w w' Q E :
  m w = (Done a, w') -> wp (k a) Q E w' -> wp (bind m k) Q E w.
Proof. intros Hm. unfold wp, bind. by rewrite Hm. Qed.

(** Updates of what the caches and the extents know. *)
Lemma wp_ext_if (c : bool) f (w : world X) (k : unit -> M X unit) Q E :
  (forall x, wp (k tt) Q E (mk_world (w_text w) (w_bufs w) x (w_glob w))) ->
  wp (bind (if c then upd (map_indirect_ext f) else ret tt) k) Q E w.
Proof. intros Hk. destruct c; apply wp_bind; [apply wp_upd | apply wp_ret; destruct w]; apply Hk. Qed.

Lemma wp_ext_upd f (w : world X) (k : unit -> M X unit) Q E :
  (forall x, wp (k tt) Q E (mk_world (w_text w) (w_bufs w) x (w_glob w))) ->
  wp (bind (upd (map_indirect_ext f)) k) Q E w.
Proof. intros Hk. apply wp_bind, wp_upd, Hk. Qed.

(** The pass that moves point, in one buffer only. *)
Lemma wp_move_point (move : bool) v pos b (t : buffer_text) bs F x g (k : unit -> M X unit) Q E :
  bs !! v = Some b -> b_live b = true ->
  (forall g', (exists pc, g' = set_redisplay g (g_buffers_changed g) pc) ->
     wp (k tt) Q E (mk_world t (map_live_i (fun i b =>
       if move && bool_decide (i = v) then point_at t pos (F i b) else F i b) bs) x g')) ->
  wp (bind (if move then set_buffer_point v pos else ret tt) k) Q E
    (mk_world t (map_live_i F bs) x g).
Proof.
  intros Hb Hl Hk. destruct move; cbn [andb] in *.
  - destruct (set_buffer_point_run v pos (F v b) (mk_world t (map_live_i F bs) x g))
      as (g' & Hrun & Hg'); [by apply lookup_map_live_i |].
    eapply wp_bind_eq; [exact Hrun |]. cbn [w_text w_bufs w_ext w_glob] in *.
    rewrite (alter_map_live_i _ _ _ _ b) by done. by apply Hk.
  - apply wp_bind, wp_ret. apply Hk. exists (g_point_changed g). by destruct g.
Qed.

(** The pass for [INSDEL_BEFORE_MARKERS]. *)
Lemma wp_last_pass (c : bool) f t bs F x g (Q : unit -> world X -> Prop) E :
  keeps_live F ->
  Q tt (mk_world t (map_live_i (fun i b => if c then f (F i b) else F i b) bs) x g) ->
  wp (if c then upd (map_indirect (fun _ => f)) else ret tt) Q E (mk_world t (map_live_i F bs) x g).
Proof.
  intros HF HQ. destruct c; [| done]. apply wp_upd. rewrite map_indirect_i.
  cbn [w_text w_bufs w_ext w_glob]. by rewrite map_live_i_compose.
Qed.

Lemma insert_at_gap_spec v b src offset ind length move flags bytes (w : world X) :
  world_wf w -> w_bufs w !! v = Some b -> b_live b = true ->
  t_gpt (w_text w) = ind -> length <= t_gap_size (w_text w) ->
  mem_read (source_bytes src) offset length = Some bytes ->
  (move = true -> b_begv b <= ind <= b_zv b) ->
  wp (insert_at_gap v src offset ind length move flags)
    (fun _ w' => abs_world w' = spec_insert v ind bytes move (bm_flag flags) (abs_world w) /\
       world_wf w')
    (fun _ _ => False) w.
Proof.
  intros Hwf Hb Hlive Hgpt Hlen Hsrc Hmove. pose proof (wf_text _ Hwf) as Ht.
  pose proof Ht as [Hg1 Hg2 Hg3 Hm Hi]. pose proof (mem_read_length _ _ _ _ Hsrc) as Hlb.
  set (t := w_text w) in *. unfold insert_at_gap.
  apply wp_bind, (wp_of_option _ _ _ _ _ Hsrc), wp_bind, wp_upd.
  set (w0 := upd_ext _ w).
  destruct (record_all w0 (fun m => record_insert m ind length)
    (fun _ _ l => push_insert l ind length) (fun _ _ l => push_insert l ind length))
    as (bufs1 & here & Hrun & Habs & Hsame); [apply records_insert | done |].
  cbv zeta in Hrun. change (w_text w0) with t in Hrun, Habs.
  eapply wp_bind_eq; [exact Hrun |]. clear Hrun.
  set (g1 := set_last_undo_here (w_glob w0) here) in *.
  wstep. wstep. apply wp_bind, wp_get.
  destruct (mem_write_ok (t_mem t) (BUF_GPT_ADDR t) bytes) as (mem' & Hw & Hlm);
    [unfold BUF_GPT_ADDR; lia | unfold BUF_GPT_ADDR; lia |].
  apply wp_bind. eapply wp_of_option; [exact Hw |]. do 5 wstep.
  set (t' := SET_BOTH_BUF_Z _ _).
  assert (t' = mk_text mem' (ind + length) (t_z t + length) (t_gap_size t - length)
    (t_end_gap_size t) (t_modiff t + 1) (t_save_modiff t) (t_changes t)) as Ht'.
  { unfold t', SET_BOTH_BUF_Z, SET_BI_BUF_GPT, SET_BUF_GAP_SIZE, set_mem, set_modiff, set_gpt_gap.
    cbn. rewrite to_int_id by lia. by rewrite Hgpt. }
  clearbody t'. apply wp_ext_upd. intros x1. cbn [w_text w_bufs w_ext w_glob].
  wstep. wstep.
  rewrite !map_live_i_compose by (intros ? []; cbn; repeat case_match; done).
  destruct (same_but_undo_lookup _ _ _ _ Hsame Hb) as (u & Hb1).
  eapply wp_move_point; [exact Hb1 | exact Hlive |]. intros g2 [pc Hg2'].
  apply wp_ext_if. intros x2. cbn [w_text w_bufs w_ext w_glob].
  apply wp_last_pass.
  { intros i []. unfold point_at. cbn. repeat case_match; done. }
  assert (Forall (live_wf t) bufs1) as Hwf1.
  { eapply same_but_undo_wf; [exact Hsame | apply Hwf]. }
  destruct (pass_spec t t' (fun i => insert_passes t' ind length (move && bool_decide (i = v))
    (bm_flag flags)) (fun i => insert_abuf ind length (bm_flag flags) (move && bool_decide (i = v)))
    bufs1) as [Hwf2 Habs2]; [done | |].
  { intros i b' Hb' Hl' Hw'.
    destruct (insert_passes_spec t t' ind length Ht Hgpt ltac:(lia) ltac:(by rewrite Ht')
      ltac:(by rewrite Ht') ltac:(by rewrite Ht') (move && bool_decide (i = v)) (bm_flag flags) b')
      as [H1 H2]; [done | |].
    { intros [-> Hiv%bool_decide_eq_true]%andb_prop. subst i. rewrite Hb1 in Hb'.
      injection Hb' as <-. by apply Hmove. }
    split_and!; [exact H1 | by rewrite insert_passes_eq | exact H2]. }
  assert (text_wf t') as Htw by (rewrite Ht'; constructor; cbn; lia).
  change (map_live_i _ bufs1) with (map_live_i (fun i => insert_passes t' ind length
    (move && bool_decide (i = v)) (bm_flag flags)) bufs1).
  split.
  - unfold spec_insert, spec_record_insert. rewrite Hlb.
    change (abs_world w) with (abs_world w0). rewrite <- Habs.
    unfold abs_world, set_a_text. cbn [w_text w_bufs w_ext w_glob a_str a_bufs a_modiff a_save_modiff
      a_last_undo_here a_last_point_position a_last_point_position_buffer].
    rewrite Habs2, Hg2', Ht'. f_equal.
    pose proof (insert_str t mem' bytes Ht ltac:(lia) Hw) as Hstr.
    rewrite Hlb, Hgpt in Hstr. exact Hstr.
  - constructor; cbn [w_text w_bufs w_glob]; [done | exact Hwf2 |].
    rewrite Hg2'. destruct Hwf as [_ _ Hq]. exact Hq.
Qed.
End InsertAtGap.
