(* ===== verification/Insertion.v ===== *)
(** * Insertion into a buffer

    [buffer_insert_string_1] with everything it calls implements [spec_insert],
    whatever the hooks do within the relation [R], and does all of it or nothing. *)

From S2P Require Import Prelude Lisp Buffer Scan Undo Insdel Gap Hooks EditSpec Edit.

Section Insertion.
Context {X : Type} `{Collaborators X}.
Variable realloc : Z -> option (list Z).
Variable R : astate -> astate -> Prop.
Hypothesis Hok : hooks_ok (X := X) R.

(** Room for [n] more characters, in any state that hooks may leave. *)
Definition room (a0 : astate) (n : Z) : Prop :=
  forall a, R a0 a -> zlen (a_str a) + n + (2000 + zlen (a_str a) / 8) < 2 ^ 31.

Lemma room_fits (w0 w : world X) n :
  room (abs_world w0) n -> hooked R w0 w -> fits (w_text w) n.
Proof.
  intros Hr [Hwf HR]. specialize (Hr _ HR). unfold abs_world in Hr. cbn [a_str] in Hr.
  rewrite length_text_str in Hr by apply Hwf. unfold fits. lia.
Qed.

(** What an edit that was asked for in the state [a0] has become: nothing yet, or
    the edit of a state that hooks made of [a0], with hooks run after it. *)
Definition undone (a0 : astate) (w : world X) : Prop := world_wf w /\ R a0 (abs_world w).

Definition edited (a0 : astate) (v : nat) (edit : abuf -> astate -> astate) (w : world X) : Prop :=
  world_wf w /\ exists a b, R a0 a /\ a_bufs a !! v = Some b /\ a_live b = true /\
    R (edit b a) (abs_world w).

(** The buffer was killed by a hook. *)
Definition killed (a0 : astate) (v : nat) (w : world X) : Prop :=
  undone a0 w /\ exists b, a_bufs (abs_world w) !! v = Some b /\ a_live b = false.

Lemma clip_endpoint_abs t b pos : clip_endpoint b pos = a_clip (abs_buf t b) pos.
Proof. done. Qed.

Lemma abs_lookup (w : world X) v b :
  w_bufs w !! v = Some b -> a_bufs (abs_world w) !! v = Some (abs_buf (w_text w) b).
Proof. intros Hb. unfold abs_world. cbn. change (@map) with (@fmap list _). by rewrite list_lookup_fmap, Hb. Qed.

Lemma length_abs (w : world X) : length (a_bufs (abs_world w)) = length (w_bufs w).
Proof. unfold abs_world. cbn. apply length_map. Qed.

(** Hooks that run after an edit. *)
Lemma after_edit (w : world X) (a0 : astate) v edit start orig_end new_end :
  (v < length (w_bufs w))%nat -> edited a0 v edit w ->
  wp (signal_after_change v start orig_end new_end) (fun _ => edited a0 v edit)
    (fun _ => edited a0 v edit) w.
Proof.
  intros Hv [Hwf (a & b & E1 & E2 & E3 & E4)].
  assert (forall w', hooked R w w' -> edited a0 v edit w') as Hw.
  { intros w' [Hwf' HR']. split; [done |]. exists a, b. split_and!; try done.
    by eapply (hooks_trans _ Hok). }
  eapply wp_mono; [apply (safe_signal_after_change R Hok w v Hv) | |].
  - split; [done | apply Hok].
  - intros [] w'. apply Hw.
  - intros e w'. apply Hw.
Qed.

Lemma insertion v pos src offset length flags n bytes b (w : world X) :
  world_wf w -> w_bufs w !! v = Some b -> b_live b = true ->
  fixup_internal_substring src offset length = Some n ->
  mem_read (source_bytes src) offset n = Some bytes ->
  room (abs_world w) n ->
  let edit b' := spec_insert v (a_clip b' (if pos =? -1 then b_pt b else pos)) bytes
                   (pos =? -1) (bm_flag flags) in
  wp (buffer_insert_string_1 realloc v pos src offset length flags)
    (fun r w' => r = n /\ edited (abs_world w) v edit w' \/
                 r = 0 /\ killed (abs_world w) v w')
    (fun _ w' => undone (abs_world w) w' \/ edited (abs_world w) v edit w') w.
Proof.
  intros Hwf Hb Hlive Hfix Hsrc Hroom edit. unfold buffer_insert_string_1.
  assert (hooked R w w) as Hw0 by (split; [done | apply Hok]).
  assert (0 <= n) as Hn by (apply mem_read_length in Hsrc; lia).
  pose proof (wf_text _ Hwf) as Ht.
  pose proof (room_fits _ _ _ Hroom Hw0) as Hfit0. unfold fits in Hfit0.
  assert (0 <= (t_z (w_text w) - 1) / 8) by (apply Z.div_pos; destruct Ht; lia).
  apply wp_bind. eapply wp_get_buf; [exact Hb |]. rewrite Hlive. cbn [negb].
  apply wp_bind. eapply wp_of_option; [exact Hfix |]. cbv zeta.
  set (pos' := if pos =? -1 then b_pt b else pos) in *.
  apply wp_bind, wp_get.
  assert ((n + t_z (w_text w) >? EMACS_INT_MAX) = false) as -> by (unfold EMACS_INT_MAX; zdec; lia).
  apply wp_bind. eapply wp_mono.
  { apply (safe_prepare R Hok w v); [by eapply lookup_lt_Some | exact Hw0]. }
  2: { intros e w1 Hw1. by left. }
  intros [] w1 Hw1. pose proof Hw1 as [Hwf1 HR1].
  assert (v < Datatypes.length (w_bufs w1))%nat as Hv1.
  { rewrite (hooked_length _ Hok _ _ Hw1). by eapply lookup_lt_Some. }
  destruct (lookup_lt_is_Some_2 _ _ Hv1) as [b1 Hb1].
  apply wp_bind. eapply wp_get_buf; [exact Hb1 |].
  destruct (b_live b1) eqn:Hl1; cbn [negb].
  2: { apply wp_ret. right. split; [done |]. split; [done |]. eexists.
       split; [by apply abs_lookup | done]. }
  pose proof (Forall_lookup_1 _ _ _ _ (wf_bufs _ Hwf1) Hb1) as Hwb1. unfold live_wf in Hwb1.
  rewrite Hl1 in Hwb1. destruct Hwb1 as [Hbv Hpt Hzv _].
  set (ind := clip_endpoint b1 pos').
  assert (b_begv b1 <= ind <= b_zv b1) as Hind by (unfold ind, clip_endpoint; zdec; lia).
  apply wp_bind. eapply wp_mono.
  { apply (open_gap_spec realloc w1 ind n); try done; [lia |]. by apply (room_fits w w1). }
  2: { intros e w2 [Ha2 Hwf2]. left. split; [done |]. by rewrite Ha2. }
  intros [] w2 (Hs2 & Hg2 & Hgap2). pose proof (same_text_abs _ _ Hs2) as Ha2.
  pose proof (same_wf _ _ Hs2) as Hwf2.
  assert (exists b2, w_bufs w2 !! v = Some b2 /\ abs_buf (w_text w2) b2 = abs_buf (w_text w1) b1)
    as (b2 & Hb2 & Hab2).
  { apply abs_lookup in Hb1. rewrite <- Ha2 in Hb1. unfold abs_world in Hb1. cbn [a_bufs] in Hb1.
    change (@map) with (@fmap list _) in Hb1. apply list_lookup_fmap_Some in Hb1 as (b2 & E & Hb2).
    by exists b2. }
  pose proof Hab2 as Hab. injection Hab2 as El Ep Ebv Ezv _ _ _ _.
  apply wp_bind. eapply wp_mono.
  { apply (insert_at_gap_spec v b2 src offset ind n (pos =? -1) flags bytes w2); try done;
      [by rewrite El | intros; lia]. }
  2: done.
  intros [] w3 [Ha3 Hwf3]. apply wp_bind. eapply wp_mono.
  { apply (after_edit w3 (abs_world w) v edit).
    - rewrite <- (length_abs w3), Ha3, length_spec_insert, Ha2, length_abs. done.
    - split; [done |]. exists (abs_world w2), (abs_buf (w_text w2) b2).
      split_and!; [by rewrite Ha2 | by apply abs_lookup | by rewrite <- Hl1 |].
      rewrite Ha3, Hab. apply Hok. }
  - intros [] w4 He. by apply wp_ret; left.
  - intros e w4 He. by right.
Qed.
End Insertion.
