(* ===== verification/Deletion.v ===== *)
(** * Deletion from a buffer, and replacement of a character

    [buffer_delete_range] and [buffer_replace_char], with everything they call,
    implement [spec_delete] and [spec_replace]. *)

From S2P Require Import Prelude Lisp Buffer Scan Undo Insdel Gap Hooks EditSpec Edit Insertion.

(** ** One buffer through a deletion *)

(** The passes of both forms of deletion; [lo] and [hi] bound the memory indices
    that are to become [lo]. *)
Definition delete_passes (from to hi amount : Z) (b : buffer) : buffer :=
  let b := adjust_markers hi hi amount b in
  let b := point_for_deletion from to b in
  SET_BOTH_BUF_ZV b (b_zv b - (to - from)).

Section DeleteBuffer.
Variables (t t' : buffer_text) (from to hi amount : Z).
Hypothesis Ht : text_wf t.
Hypothesis from_to : from < to <= t_z t.

(** What becomes of a marker. *)
Definition marker_deleted (x : Z) : Z := do_marker_adjustment x hi hi amount.

Hypothesis markers_ok : forall x, valid_memind_p t x = true ->
  valid_memind_p t' (marker_deleted x) = true /\
  memind_to_bytind t' (marker_deleted x) = pos_after_delete from to (memind_to_bytind t x).
Hypothesis z' : t_z t' = t_z t - (to - from).

Lemma delete_passes_spec b :
  buffer_wf t b -> b_begv b <= from -> to <= b_zv b ->
  buffer_wf t' (delete_passes from to hi amount b) /\
  b_live (delete_passes from to hi amount b) = b_live b /\
  abs_buf t' (delete_passes from to hi amount b) = delete_abuf from to (abs_buf t b).
Proof.
  intros [Hb1 Hb2 Hb3 Hb4] Hf Hz.
  assert (delete_passes from to hi amount b =
    mk_buffer (b_live b) (pos_after_delete from to (b_pt b)) (b_begv b) (b_zv b - (to - from))
      (b_changes b)
      (map (fun m => mk_marker (m_id m) (marker_deleted (m_memind m)) (m_insertion_type m)) (b_markers b))
      (b_point_marker b) (b_undo_list b) (b_read_only b) (b_inhibit_read_only b) (b_filename b)
      (b_modtime b) (b_point_before_scroll b)) as ->.
  { unfold delete_passes, point_for_deletion, pos_after_delete. destruct b. cbn.
    zdec; done. }
  split_and!; [| done |].
  - constructor; cbn [b_begv b_pt b_zv b_markers]; [lia | unfold pos_after_delete; zdec; lia | lia |].
    apply Forall_map. eapply Forall_impl; [exact Hb4 |]. intros m Hv. by apply markers_ok.
  - unfold abs_buf, delete_abuf. cbn [b_live b_pt b_begv b_zv b_markers b_point_marker b_undo_list
      b_modtime a_live a_pt a_begv a_zv a_markers a_point_marker a_undo a_modtime].
    f_equal. rewrite !map_map. apply map_ext_in. intros m Hin.
    rewrite Forall_forall in Hb4. apply list_elem_of_In, Hb4, markers_ok in Hin as [_ Hin].
    unfold marker_view. cbn. by rewrite Hin.
Qed.
End DeleteBuffer.

(** Markers when the text up to the end of the buffer goes to the end gap. *)
Lemma marker_deleted_end t t' from to x :
  text_wf t -> t_gpt t < from -> from < to -> to = t_z t ->
  t_gpt t' = t_gpt t -> t_gap_size t' = t_gap_size t -> t_z t' = t_z t - (to - from) ->
  valid_memind_p t x = true ->
  let y := marker_deleted (to + t_gap_size t) (- (to - from)) x in
  valid_memind_p t' y = true /\
  memind_to_bytind t' y = pos_after_delete from to (memind_to_bytind t x).
Proof.
  intros [] Hg Hft Hz E1 E2 E3. cbv zeta. rewrite !valid_memind_at. unfold valid_at.
  unfold marker_deleted, do_marker_adjustment, pos_after_delete, memind_to_bytind.
  rewrite E1, E2, E3. intros Hv.
  destruct (decide (x <= t_gpt t)); [| destruct (decide (x <= from + t_gap_size t))];
    zdec; split; lia.
Qed.

(** Markers when the gap grows over the text. *)
Lemma marker_deleted_gap t t' from to x :
  text_wf t -> from <= t_gpt t <= to -> 1 <= from -> from < to -> to <= t_z t ->
  t_gpt t' = from -> t_gap_size t' = t_gap_size t + (to - from) -> t_z t' = t_z t - (to - from) ->
  valid_memind_p t x = true ->
  let y := marker_deleted (to + t_gap_size t) (- (to - from) - t_gap_size t) x in
  valid_memind_p t' y = true /\
  memind_to_bytind t' y = pos_after_delete from to (memind_to_bytind t x).
Proof.
  intros [] Hg H1 Hft Hz E1 E2 E3. cbv zeta. rewrite !valid_memind_at. unfold valid_at.
  unfold marker_deleted, do_marker_adjustment, pos_after_delete, memind_to_bytind.
  rewrite E1, E2, E3. intros Hv.
  destruct (decide (x <= from)); [| destruct (decide (x <= t_gpt t));
    [| destruct (decide (x <= to + t_gap_size t))]]; zdec; split; lia.
Qed.

(** ** The text *)

Lemma delete_end_str t from :
  text_wf t -> t_gpt t < from <= t_z t ->
  gap_str (t_mem t) (t_gpt t) (t_gap_size t) from = ztake (from - 1) (text_str t).
Proof.
  intros [] Hf. unfold text_str, gap_str.
  rewrite take_app_ge by (lens; lia). f_equal. rewrite take_take. f_equal. lens. lia.
Qed.

Lemma delete_gap_str t from to :
  text_wf t -> 1 <= from -> from <= t_gpt t <= to -> to <= t_z t ->
  gap_str (t_mem t) from (t_gap_size t + (to - from)) (t_z t - (to - from)) =
  ztake (from - 1) (text_str t) ++ zdrop (to - 1) (text_str t).
Proof.
  intros [] H1 Hg Hz. unfold text_str, gap_str. f_equal.
  - rewrite take_app_le by (lens; lia). rewrite take_take. f_equal. lia.
  - rewrite drop_app_ge by (lens; lia). rewrite skipn_take_comm || idtac.
    list_ext.
Qed.

(** ** The two forms of deletion *)

Section DeleteRuns.
Context {X : Type} `{Collaborators X}.

(** The range lies in the accessible region of every live buffer. *)
Definition whole (a : astate) (from to : Z) : Prop :=
  forall i b, a_bufs a !! i = Some b -> a_live b = true -> a_begv b <= from /\ to <= a_zv b.

Lemma whole_wf (w : world X) from to i b :
  whole (abs_world w) from to -> w_bufs w !! i = Some b -> b_live b = true ->
  b_begv b <= from /\ to <= b_zv b.
Proof. intros Hw Hb Hl. apply abs_lookup in Hb. by apply (Hw i _ Hb). Qed.

Lemma same_but_undo_lookup_r bs bs' i b' :
  Forall2 same_but_undo bs bs' -> bs' !! i = Some b' ->
  exists b, bs !! i = Some b /\ b' = set_undo_list b (b_undo_list b').
Proof.
  intros H2 Hb. destruct (Forall2_lookup_r _ _ _ _ _ H2 Hb) as (b & Hb' & E). by exists b.
Qed.

(** The deletion proper, once the records are made: [t'] is the text after it. *)
Lemma deletion_done (w : world X) bufs1 (x1 x2 : X) here from to hi amount t' g2 :
  world_wf w -> 1 <= from -> from < to <= t_z (w_text w) -> whole (abs_world w) from to ->
  Forall2 same_but_undo (w_bufs w) bufs1 ->
  abs_world (mk_world (w_text w) bufs1 x1 (set_last_undo_here (w_glob w) here)) =
    spec_record_delete from (to - from) (abs_world w) ->
  t_modiff t' = t_modiff (w_text w) + 1 -> t_save_modiff t' = t_save_modiff (w_text w) ->
  t_z t' = t_z (w_text w) - (to - from) ->
  text_wf t' -> text_str t' = ztake (from - 1) (text_str (w_text w)) ++ zdrop (to - 1) (text_str (w_text w)) ->
  (forall x, valid_memind_p (w_text w) x = true ->
     valid_memind_p t' (marker_deleted hi amount x) = true /\
     memind_to_bytind t' (marker_deleted hi amount x) =
       pos_after_delete from to (memind_to_bytind (w_text w) x)) ->
  g2 = set_redisplay (set_last_undo_here (w_glob w) here) true
         (g_point_changed (set_last_undo_here (w_glob w) here)) ->
  let w' := mk_world t' (map_live_i (fun _ => delete_passes from to hi amount) bufs1) x2 g2 in
  abs_world w' = spec_delete from to (abs_world w) /\ world_wf w'.
Proof.
  intros Hwf H1 Hft Hwhole Hsame Habs Em Es Ez Htw Hstr Hmk -> w'.
  assert (Forall (live_wf (w_text w)) bufs1) as Hwf1.
  { eapply same_but_undo_wf; [exact Hsame | apply Hwf]. }
  destruct (pass_spec (w_text w) t' (fun _ => delete_passes from to hi amount)
    (fun _ => delete_abuf from to) bufs1) as [Hwf2 Habs2]; [done | |].
  { intros i b Hb Hl Hw. destruct (same_but_undo_lookup_r _ _ _ _ Hsame Hb) as (b0 & Hb0 & Eb).
    destruct (whole_wf w from to i b0 Hwhole Hb0) as [Hf Hz]; [by rewrite Eb in Hl |].
    destruct (delete_passes_spec (w_text w) t' from to hi amount Hft Hmk Ez b) as (P1 & P2 & P3);
      [done | rewrite Eb; exact Hf | rewrite Eb; exact Hz |].
    split_and!; [exact P1 | by rewrite P2 | exact P3]. }
  split.
  - unfold spec_delete. rewrite <- Habs. unfold abs_world, set_a_text, w'.
    cbn [w_text w_bufs w_ext w_glob a_str a_bufs a_modiff a_save_modiff a_last_undo_here
      a_last_point_position a_last_point_position_buffer].
    by rewrite Hstr, Habs2, Em, Es.
  - constructor; cbn [w_text w_bufs w_glob]; [done | exact Hwf2 |]. destruct Hwf as [_ _ Hq]. exact Hq.
Qed.

(** Recording the deletion. *)
Lemma record_delete_all (w : world X) from n :
  world_wf w -> 1 <= from -> 0 <= n -> from + n <= t_z (w_text w) ->
  exists bufs' here,
    map_indirect_m (fun m => record_delete m from n) w =
      (Done tt, mk_world (w_text w) bufs' (w_ext w) (set_last_undo_here (w_glob w) here)) /\
    abs_world (mk_world (w_text w) bufs' (w_ext w) (set_last_undo_here (w_glob w) here)) =
      spec_record_delete from n (abs_world w) /\
    Forall2 same_but_undo (w_bufs w) bufs'.
Proof.
  intros Hwf H1 Hn Hz.
  pose proof (make_string_from_buffer_str (w_text w) from n (wf_text _ Hwf) H1 Hn Hz) as Hs.
  apply (record_all w _ _ (fun i b l => push_delete l (a_pt b) from n (last_point_of (w_glob w) i)
    (slice (text_str (w_text w)) (from - 1) n)) (records_delete _ (w_glob w) _ _ _ Hs)). done.
Qed.

Lemma delete_at_end_spec from to (w : world X) :
  world_wf w -> t_gpt (w_text w) < from -> from < to -> to = t_z (w_text w) ->
  whole (abs_world w) from to ->
  wp (delete_at_end from to)
    (fun _ w' => abs_world w' = spec_delete from to (abs_world w) /\ world_wf w')
    (fun _ _ => False) w.
Proof.
  intros Hwf Hg Hft Hz Hwhole. pose proof (wf_text _ Hwf) as Ht. pose proof Ht as [Hg1 Hg2 Hg3 Hm Hi].
  destruct (record_delete_all w from (to - from)) as (bufs1 & here & Hrun & Habs & Hsame); [done | lia.. |].
  unfold delete_at_end. eapply wp_bind_eq; [exact Hrun |]. clear Hrun.
  wstep. wstep. apply wp_ext_upd. intros x1. apply wp_bind, wp_get. wstep.
  apply wp_ext_upd. intros x2. wstep. wstep. wstep. wlast.
  rewrite !map_live_i_compose by (intros ? []; unfold point_for_deletion; cbn; repeat case_match; done).
  cbn [t_gap_size set_modiff].
  apply (deletion_done w bufs1 (w_ext w) x2 here); try done; try lia.
  - constructor; cbn; rewrite ?to_int_id by lia; lia.
  - unfold text_str at 1. cbn. rewrite Hz. replace (t_z (w_text w) - (t_z (w_text w) - from)) with from by lia.
    rewrite delete_end_str by (done || lia).
    rewrite (drop_ge (text_str (w_text w))); [by rewrite app_nil_r |].
    pose proof (length_text_str _ Ht). lia.
  - intros x Hx. by apply marker_deleted_end.
Qed.

(** Gap motion that brings the gap into the range. *)
Lemma gap_into_range (w : world X) from to (k : unit -> unit -> M X unit) Q E :
  world_wf w -> 1 <= from -> from < to <= t_z (w_text w) ->
  (forall w', same_text w w' -> from <= t_gpt (w_text w') <= to -> wp (k tt tt) Q E w') ->
  (forall e w', unchanged w w' -> E e w') ->
  wp (let! t := get w_text in
      let! a := (if to <? t_gpt t then gap_left to else ret tt) in
      let! t := get w_text in
      let! b := (if from >? t_gpt t then gap_right from else ret tt) in k a b) Q E w.
Proof.
  intros Hwf H1 Hft Hk HE. apply wp_bind, wp_get, wp_bind.
  assert (forall e w', e = Qquit /\ quit_from w w' -> E e w') as HE1.
  { intros e w' [_ Hq]. by apply HE, quit_from_abs. }
  apply wp_mono with (Q := fun _ w' => same_text w w' /\ t_gpt (w_text w') <= to)
    (E := fun e w' => e = Qquit /\ quit_from w w'); [| | exact HE1].
  { destruct (Z.ltb_spec to (t_gpt (w_text w))).
    - eapply wp_mono; [apply gap_left_spec; [done | lia] | | done].
      intros _ w' (Hs & Hg & _). split; [done | lia].
    - apply wp_ret. split; [by apply same_text_refl | lia]. }
  intros [] w1 [Hs1 Hg1]. pose proof (same_wf _ _ Hs1) as Hwf1. pose proof (same_text_z _ _ Hs1) as Hz1.
  apply wp_bind, wp_get, wp_bind.
  apply wp_mono with (Q := fun _ w' => same_text w1 w' /\ from <= t_gpt (w_text w') <= to)
    (E := fun e w' => e = Qquit /\ quit_from w1 w').
  { rewrite Z.gtb_ltb. destruct (Z.ltb_spec (t_gpt (w_text w1)) from).
    - eapply wp_mono; [apply gap_right_spec; [done | lia] | | done].
      intros _ w' (Hs & Hg). split; [done | lia].
    - apply wp_ret. split; [by apply same_text_refl | lia]. }
  - intros [] w2 [Hs2 Hg2]. apply Hk; [by eapply same_text_trans | done].
  - intros e w2 [_ Hq]. apply HE. eapply unchanged_trans; [by apply same_text_unchanged |].
    by apply quit_from_abs.
Qed.

Lemma delete_at_gap_spec from to (w : world X) :
  world_wf w -> 1 <= from -> from < to <= t_z (w_text w) -> whole (abs_world w) from to ->
  wp (delete_at_gap from to)
    (fun _ w' => abs_world w' = spec_delete from to (abs_world w) /\ world_wf w')
    (fun _ w' => unchanged w w') w.
Proof.
  intros Hwf H1 Hft Hwhole. unfold delete_at_gap.
  apply (gap_into_range w from to (fun _ _ => _)); try done. clear Hwf.
  intros w1 Hs1 Hg. pose proof (same_wf _ _ Hs1) as Hwf. pose proof (same_text_z _ _ Hs1) as Hz1.
  rewrite <- (same_text_abs _ _ Hs1) in *. rewrite <- Hz1 in Hft.
  generalize (unchanged w) as E. clear Hs1 Hz1 w. rename w1 into w. intros E.
  pose proof (wf_text _ Hwf) as Ht. pose proof Ht as [Hg1 Hg2 Hg3 Hm Hi].
  destruct (record_delete_all w from (to - from)) as (bufs1 & here & Hrun & Habs & Hsame); [done | lia.. |].
  eapply wp_bind_eq; [exact Hrun |]. clear Hrun.
  wstep. wstep. apply wp_ext_upd. intros x1. apply wp_bind, wp_get. wstep.
  apply wp_ext_upd. intros x2. wstep. wstep. wstep. wstep. wlast.
  rewrite !map_live_i_compose by (intros ? []; unfold point_for_deletion; cbn; repeat case_match; done).
  cbn [t_gap_size set_modiff].
  apply (deletion_done w bufs1 (w_ext w) x2 here); try done; try lia.
  - constructor; cbn; rewrite ?to_int_id by lia; lia.
  - unfold text_str at 1. cbn. rewrite to_int_id by lia. apply delete_gap_str; done || lia.
  - intros x Hx. apply marker_deleted_gap; try done; try lia. cbn. by rewrite to_int_id by lia.
Qed.
End DeleteRuns.

(** ** The whole of a deletion *)

Section Deletion.
Context {X : Type} `{Collaborators X}.
Variable R : astate -> astate -> Prop.
Hypothesis Hok : hooks_ok (X := X) R.

Lemma quit_unchanged (w : world X) g :
  world_wf w -> quit_only (w_glob w) g -> unchanged w (upd_glob (fun _ => g) w).
Proof.
  intros [Ht Hb Hq] (Hok' & E & _). split; [| by constructor].
  unfold abs_world. cbn. by rewrite E.
Qed.

Lemma wp_QUIT (w : world X) (Q : unit -> world X -> Prop) (E : lisp_error -> world X -> Prop) :
  world_wf w -> (forall w', unchanged w w' -> w_bufs w' = w_bufs w -> Q tt w') ->
  (forall e w', unchanged w w' -> E e w') -> wp QUIT Q E w.
Proof.
  intros Hwf HQ HE. unfold QUIT. apply wp_bind.
  destruct (QUITP_spec w) as (g' & Eq & Hg); [apply Hwf |].
  pose proof (quit_unchanged w g' Hwf Hg) as Hu.
  unfold wp at 1. rewrite Eq. destruct (should_quit g').
  - apply wp_bind, wp_upd, wp_signal. apply HE. eapply unchanged_trans; [exact Hu |].
    destruct Hu as [_ [Ht Hb Hq]]. split; [done |]. constructor; [done | done |].
    destruct Hq as [_ Hs]. by split.
  - apply wp_ret. by apply HQ.
Qed.

Lemma note_newline_deleted_spec v b from to (w : world X) (Q : unit -> world X -> Prop)
    (E : lisp_error -> world X -> Prop) :
  world_wf w -> w_bufs w !! v = Some b -> b_live b = true ->
  b_begv b <= from -> from < to -> to <= b_zv b ->
  (forall w', unchanged w w' -> Q tt w') -> (forall e w', unchanged w w' -> E e w') ->
  wp (note_newline_deleted v from to) Q E w.
Proof.
  intros Hwf Hb Hl Hf Hft Hz HQ HE.
  pose proof (Forall_lookup_1 _ _ _ _ (wf_bufs _ Hwf) Hb) as Hwb. unfold live_wf in Hwb.
  rewrite Hl in Hwb. destruct Hwb as [Hb1 Hb2 Hb3 _].
  assert (forall w' : world X, world_wf w' -> unchanged w' w') as Hrefl by (intros; by split).
  unfold note_newline_deleted. apply wp_bind. eapply wp_get_buf; [exact Hb |].
  destruct (newline_was_deleted (b_changes b)); [by apply wp_ret, HQ, Hrefl |].
  apply wp_bind. unfold scan_buffer. apply wp_bind, wp_get, wp_bind. eapply wp_get_buf; [exact Hb |].
  destruct (scan_forward_found (w_text w) b 10 from to 1) as (pos & sh & Escan & _);
    [apply Hwf | lia | destruct (to >? 0) eqn:?; lia | destruct (to >? 0) eqn:?; lia | lia | lia |].
  apply wp_bind. eapply wp_of_option; [exact Escan |]. apply wp_bind. unfold when.
  apply wp_QUIT; [done | | done]. intros w1 Hu1 _. apply wp_ret. cbn.
  destruct (sh =? 0); [| by apply wp_ret, HQ].
  apply wp_upd, HQ. eapply unchanged_trans; [exact Hu1 |].
  apply unchanged_hidden; [by intros [] | apply Hu1].
Qed.

(** The range of an edit in a buffer. *)
Definition a_clip_range (b : abuf) (r : Z * Z) : Z * Z :=
  (Z.max r.1 (a_begv b), Z.min r.2 (a_zv b)).

Lemma clip_range_abs t b from to : clip_range b from to = a_clip_range (abs_buf t b) (from, to).
Proof. unfold clip_range, a_clip_range. cbn. f_equal; zdec; lia. Qed.

(** A deletion of what is left of [r] in buffer [b]. *)
Definition delete_edit (r : Z * Z) (b : abuf) (a : astate) : astate :=
  let '(from, to) := a_clip_range b r in spec_delete from to a.

(** Nothing of the range is in the buffer. *)
Definition nothing_to_delete (a : astate) (v : nat) (r : Z * Z) : Prop :=
  exists b, a_bufs a !! v = Some b /\ (a_clip_range b r).2 <= (a_clip_range b r).1.

(** The range is accessible in every live buffer that shares the text, in any
    state that hooks may leave. *)
Definition shared_range (a0 : astate) (v : nat) (r : Z * Z) : Prop :=
  forall a b, R a0 a -> a_bufs a !! v = Some b -> a_live b = true ->
    whole a (a_clip_range b r).1 (a_clip_range b r).2.

Lemma deletion v from to flags b (w : world X) :
  world_wf w -> w_bufs w !! v = Some b -> b_live b = true ->
  let r := a_clip_range (abs_buf (w_text w) b) (from, to) in
  shared_range (abs_world w) v r ->
  wp (buffer_delete_range v from to flags)
    (fun _ w' => edited R (abs_world w) v (delete_edit r) w' \/
       killed R (abs_world w) v w' \/
       undone R (abs_world w) w' /\ nothing_to_delete (abs_world w') v r)
    (fun _ w' => undone R (abs_world w) w' \/ edited R (abs_world w) v (delete_edit r) w') w.
Proof.
  intros Hwf Hb Hlive r Hshared. unfold buffer_delete_range.
  assert (hooked R w w) as Hw0 by (split; [done | apply Hok]).
  apply wp_bind. eapply wp_get_buf; [exact Hb |]. rewrite Hlive. cbn [negb].
  rewrite (clip_range_abs (w_text w)). fold r.
  destruct r as [from1 to1] eqn:Er. cbv beta iota.
  destruct (Z.leb_spec (to1 - from1) 0) as [Hle | Hgt].
  { apply wp_ret. right. right. split; [done |]. eexists. split; [by apply abs_lookup |].
    unfold r in Er. unfold a_clip_range in *. cbn in *. injection Er as <- <-. lia. }
  apply wp_bind. eapply wp_mono.
  { apply (safe_prepare R Hok w v); [by eapply lookup_lt_Some | exact Hw0]. }
  2: { intros e w1 Hw1. by left. }
  intros [] w1 Hw1. pose proof Hw1 as [Hwf1 HR1].
  assert (v < Datatypes.length (w_bufs w1))%nat as Hv1.
  { rewrite (hooked_length _ Hok _ _ Hw1). by eapply lookup_lt_Some. }
  destruct (lookup_lt_is_Some_2 _ _ Hv1) as [b1 Hb1].
  apply wp_bind. eapply wp_get_buf; [exact Hb1 |].
  destruct (b_live b1) eqn:Hl1; cbn [negb].
  2: { apply wp_ret. right. left. split; [done |]. eexists.
       split; [by apply abs_lookup | done]. }
  pose proof (Hshared _ _ HR1 (abs_lookup _ _ _ Hb1) Hl1) as Hwhole.
  assert (r = (from1, to1)) as Hr by done.
  rewrite (clip_range_abs (w_text w1)) by done.
  destruct (a_clip_range (abs_buf (w_text w1) b1) (from1, to1)) as [from2 to2] eqn:Er2.
  cbn [fst snd] in Hwhole. cbv beta iota.
  destruct (Z.leb_spec (to2 - from2) 0) as [Hle | Hgt2].
  { apply wp_ret. right. right. split; [done |]. eexists. split; [by apply abs_lookup |].
    rewrite Er2. cbn. lia. }
  pose proof (Forall_lookup_1 _ _ _ _ (wf_bufs _ Hwf1) Hb1) as Hwb1. unfold live_wf in Hwb1.
  rewrite Hl1 in Hwb1. destruct Hwb1 as [Hbv Hpt Hzv _].
  assert (b_begv b1 <= from2 /\ to2 <= b_zv b1) as [Hf2 Ht2].
  { unfold a_clip_range in Er2. cbn in Er2. injection Er2 as <- <-. lia. }
  apply wp_bind. apply (note_newline_deleted_spec v b1); try done; [lia | | ].
  2: { intros e w2 [Ha2 Hwf2]. left. split; [done |]. by rewrite Ha2. }
  intros w2 Hu2. apply wp_bind, wp_upd.
  assert (unchanged w1 (upd_ext (delete_invalidate_line_number_cache from2 to2) w2)) as Hu3.
  { eapply unchanged_trans; [exact Hu2 |]. apply unchanged_ext, Hu2. }
  revert Hu3. generalize (upd_ext (delete_invalidate_line_number_cache from2 to2) w2).
  clear Hu2 w2. intros w3 Hu3. destruct Hu3 as [Ha3 Hwf3].
  assert (t_z (w_text w3) = t_z (w_text w1)) as Hz3.
  { pose proof (f_equal (fun a => zlen (a_str a)) Ha3) as E. unfold abs_world in E. cbn in E.
    rewrite !length_text_str in E by apply Hwf3 || apply Hwf1. lia. }
  rewrite <- Ha3 in Hwhole. apply wp_bind, wp_get, wp_bind.
  apply wp_mono with (Q := fun _ w' => abs_world w' = spec_delete from2 to2 (abs_world w3) /\ world_wf w')
    (E := fun _ w' => unchanged w3 w').
  { destruct (Z.eqb_spec to2 (t_z (w_text w3))); cbn [andb];
      [rewrite Z.gtb_ltb; destruct (Z.ltb_spec (t_gpt (w_text w3)) from2) |].
    - eapply wp_mono; [by apply delete_at_end_spec; try done; lia | done | done].
    - apply delete_at_gap_spec; try done; lia.
    - apply delete_at_gap_spec; try done; lia. }
  2: { intros e w4 [Ha4 Hwf4]. left. split; [done |]. by rewrite Ha4, Ha3. }
  intros [] w4 [Ha4 Hwf4]. rewrite Ha3 in Ha4.
  assert (edited R (abs_world w) v (delete_edit (from1, to1)) w4) as Hed.
  { split; [done |]. exists (abs_world w1), (abs_buf (w_text w1) b1).
    split_and!; [done | by apply abs_lookup | done |]. unfold delete_edit. rewrite Er2, Ha4. apply Hok. }
  eapply wp_mono; [apply (after_edit R Hok w4); [| exact Hed] | |].
  - rewrite <- (length_abs w4), Ha4, length_spec_delete, length_abs. done.
  - intros [] w5 Hw5. by left.
  - intros e w5 Hw5. by right.
Qed.
End Deletion.

(** ** Replacement *)

Lemma gap_str_set t pos ch mem' :
  text_wf t -> 1 <= pos < t_z t ->
  mem_write (t_mem t) (BI_BUF_BYTE_ADDRESS t pos) [ch] = Some mem' ->
  gap_str mem' (t_gpt t) (t_gap_size t) (t_z t) = zset (text_str t) (pos - 1) ch /\
  zlen mem' = zlen (t_mem t).
Proof.
  intros Ht Hp Hw. pose proof (mem_write_length _ _ _ _ Hw) as Hl. split; [| lia].
  destruct Ht as [Hg1 Hg2 Hg3 Hm Hi].
  assert (exists a, BI_BUF_BYTE_ADDRESS t pos = a /\ 0 <= a < zlen (t_mem t) /\
    (pos < t_gpt t /\ a = pos - 1 \/ t_gpt t <= pos /\ a = pos - 1 + t_gap_size t))
    as (a & Ea & Ha & Hpos).
  { eexists. split; [done |]. unfold BI_BUF_BYTE_ADDRESS. zdec; lia. }
  assert (mem' = <[Z.to_nat a := ch]> (t_mem t)) as ->.
  { revert Hw. unfold mem_write. rewrite Ea. cbn [length]. zdec; [| done..]. intros [= <-].
    rewrite insert_take_drop by lia. cbn. do 2 f_equal. f_equal. lia. }
  assert (forall k : nat, <[Z.to_nat a := ch]> (t_mem t) !! k =
    if decide (k = Z.to_nat a) then Some ch else t_mem t !! k) as Hins.
  { intros k. case_decide as E; [subst; apply list_lookup_insert_eq; lia |].
    by apply list_lookup_insert_ne. }
  unfold zset. rewrite (proj2 (Z.ltb_ge (pos - 1) 0)) by lia.
  apply list_eq. intros k. rewrite lookup_gap_str by lia.
  destruct (decide (k = Z.to_nat (pos - 1))) as [-> | Hne].
  - rewrite !Hins, list_lookup_insert_eq
      by (pose proof (length_gap_str (t_mem t) (t_gpt t) (t_gap_size t) (t_z t)); unfold text_str; lia).
    repeat case_bool_decide; try lia; repeat case_decide; done || lia.
  - rewrite !Hins, list_lookup_insert_ne by congruence. unfold text_str.
    rewrite lookup_gap_str by lia. repeat case_bool_decide; try lia; repeat case_decide; done || lia.
Qed.

Section Replacement.
Context {X : Type} `{Collaborators X}.
Variable R : astate -> astate -> Prop.
Hypothesis Hok : hooks_ok (X := X) R.

(** The position of a character in a buffer, as the code clips it. *)
Definition a_clip_char (b : abuf) (pos : Z) : Z := Z.min (Z.max pos (a_begv b)) (a_zv b - 1).

Definition replace_edit (pos ch : Z) (real : bool) (b : abuf) (a : astate) : astate :=
  if a_clip_char b pos <? a_begv b then a else spec_replace (a_clip_char b pos) ch real a.

Lemma wp_record_change (real : bool) pos (w : world X) (k : unit -> M X unit) Q E :
  world_wf w -> 1 <= pos < t_z (w_text w) ->
  (forall bufs' g',
     let s := abs_world w in
     let s' := if real then spec_record_change pos 1 s else s in
     let t' := if real then set_modiff (w_text w) (t_modiff (w_text w) + 1) else w_text w in
     let w' := mk_world t' bufs' (w_ext w) g' in
     abs_world w' = set_a_text s' (a_str s) (a_bufs s')
       (if real then a_modiff s + 1 else a_modiff s) ->
     world_wf w' -> wp (k tt) Q E w') ->
  wp (bind (if real then (map_indirect_m (fun m => record_change m pos 1);;
        upd (upd_text (fun t => set_modiff t (t_modiff t + 1)))) else ret tt) k) Q E w.
Proof.
  intros Hwf Hp Hk. destruct real.
  - pose proof (make_string_from_buffer_str (w_text w) pos 1 (wf_text _ Hwf) ltac:(lia) ltac:(lia)
      ltac:(lia)) as Hs.
    destruct (record_all w _ _ (fun i b l =>
      let l := push_delete l (a_pt b) pos 1 (last_point_of (w_glob w) i)
        (slice (text_str (w_text w)) (pos - 1) 1) in
      match undo_prelude (t_modiff (w_text w)) (t_save_modiff (w_text w)) (a_modtime b) true (Some l) with
      | Some l => push_insert l pos 1
      | None => l
      end) (records_change _ (w_glob w) _ _ _ Hs)) as (bufs' & here & Hrun & Habs & Hsame); [done |].
    cbv zeta in Hrun, Habs. apply wp_bind. eapply wp_bind_eq; [exact Hrun |]. apply wp_upd. wsimpl.
    apply Hk.
    + change (spec_record_change pos 1 (abs_world w)) with
        (spec_record (fun i b l =>
          let l := push_delete l (a_pt b) pos 1 (last_point_of (w_glob w) i)
            (slice (text_str (w_text w)) (pos - 1) 1) in
          match undo_prelude (t_modiff (w_text w)) (t_save_modiff (w_text w)) (a_modtime b) true (Some l)
          with Some l => push_insert l pos 1 | None => l end) (abs_world w)).
      cbv zeta. rewrite <- Habs. done.
    + destruct Hwf as [Ht Hb Hq]. constructor; cbn [w_text w_bufs w_glob]; [by destruct Ht | | exact Hq].
      apply (same_but_undo_wf (w_text w)) in Hsame; [| done].
      eapply Forall_impl; [exact Hsame |]. intros b. by apply live_wf_ext.
  - apply wp_bind, wp_ret. destruct w as [t bs x g]. by apply (Hk bs g).
Qed.

Lemma replacement v pos ch not_real force b (w : world X) :
  world_wf w -> w_bufs w !! v = Some b -> b_live b = true -> 1 <= pos < t_z (w_text w) ->
  wp (buffer_replace_char v pos ch not_real force)
    (fun _ w' => edited R (abs_world w) v (replace_edit pos ch (negb not_real)) w' \/
       killed R (abs_world w) v w')
    (fun _ w' => undone R (abs_world w) w' \/
       edited R (abs_world w) v (replace_edit pos ch (negb not_real)) w') w.
Proof.
  intros Hwf Hb Hlive Hpos. pose proof (lookup_lt_Some _ _ _ Hb) as Hv. unfold buffer_replace_char.
  assert (hooked R w w) as Hw0 by (split; [done | apply Hok]).
  apply wp_bind. eapply wp_get_buf; [exact Hb |]. rewrite Hlive. cbn [negb].
  apply wp_bind, wp_get, wp_bind.
  pose proof (length_text_str _ (wf_text _ Hwf)) as HL.
  destruct (zget_is_Some (text_str (w_text w)) (pos - 1)) as [x Hx]; [lia |].
  eapply wp_of_option; [rewrite BUF_FETCH_CHAR_str; [exact Hx | apply Hwf | lia] |].
  apply wp_bind. eapply wp_mono; [by apply (safe_prepare R Hok w v) | | by left].
  intros [] w1 Hw1. pose proof Hw1 as [Hwf1 HR1].
  assert (v < Datatypes.length (w_bufs w1))%nat as Hv1 by by rewrite (hooked_length _ Hok _ _ Hw1).
  destruct (lookup_lt_is_Some_2 _ _ Hv1) as [b1 Hb1].
  apply wp_bind. eapply wp_get_buf; [exact Hb1 |].
  destruct (b_live b1) eqn:Hl1; cbn [negb].
  2: { apply wp_ret. right. split; [done |]. eexists. split; [by apply abs_lookup | done]. }
  pose proof (Forall_lookup_1 _ _ _ _ (wf_bufs _ Hwf1) Hb1) as Hwb1. unfold live_wf in Hwb1.
  rewrite Hl1 in Hwb1. destruct Hwb1 as [Hbv Hpt Hzv _].
  assert ((let pos := if pos <? b_begv b1 then b_begv b1 else pos in
    if pos >=? b_zv b1 then b_zv b1 - 1 else pos) = a_clip_char (abs_buf (w_text w1) b1) pos) as Hclip.
  { unfold a_clip_char. cbn. zdec; lia. }
  cbv zeta in Hclip |- *. rewrite Hclip. clear Hclip.
  set (p := a_clip_char (abs_buf (w_text w1) b1) pos) in *.
  change (b_begv b1) with (a_begv (abs_buf (w_text w1) b1)).
  set (b2 := abs_buf (w_text w1) b1) in *.
  assert (forall w4 : world X, world_wf w4 -> abs_world w4 = replace_edit pos ch (negb not_real) b2 (abs_world w1) ->
    edited R (abs_world w) v (replace_edit pos ch (negb not_real)) w4) as Hdone.
  { intros w4 Hwf4 Ha4. split; [done |]. exists (abs_world w1), b2.
    split_and!; [done | by apply abs_lookup | done |]. rewrite Ha4. apply Hok. }
  unfold replace_edit at 1 in Hdone. fold p in Hdone.
  destruct (Z.ltb_spec p (a_begv b2)) as [Hlt | Hge].
  { apply wp_ret. left. by apply Hdone. }
  assert (1 <= p < t_z (w_text w1)) as Hp.
  { unfold p, b2, a_clip_char in *. cbn in *. lia. }
  pose proof (length_text_str _ (wf_text _ Hwf1)) as HL1.
  destruct (zget_is_Some (text_str (w_text w1)) (p - 1)) as [x1 Hx1]; [lia |].
  apply wp_bind, wp_get, wp_bind.
  eapply wp_of_option; [rewrite BUF_FETCH_CHAR_str; [exact Hx1 | apply Hwf1 | lia] |].
  apply wp_bind. apply wp_mono with
    (Q := fun _ w' => unchanged w1 w' /\ w_text w' = w_text w1) (E := fun _ _ => False); [| | done].
  { destruct (x1 =? 10).
    - apply wp_upd. split; [| done]. apply unchanged_hidden; [by intros [] | done].
    - by apply wp_ret. }
  intros [] w2 [[Ha2 Hwf2] Ht2]. apply wp_bind, wp_upd.
  set (w2' := upd_glob _ w2).
  assert (unchanged w2 w2') as [Ha2' Hwf2'] by by apply unchanged_glob.
  assert (w_text w2' = w_text w1) as Ht2' by done. clearbody w2'.
  rewrite Ha2 in Ha2'. apply wp_record_change; [done | by rewrite Ht2' |].
  intros bufs3 g3. cbv zeta. rewrite Ha2', Ht2'. intros Ha3 Hwf3.
  set (t3 := if negb not_real then _ else w_text w1) in *.
  apply wp_bind, wp_get. cbn [w_text].
  assert (t_mem t3 = t_mem (w_text w1) /\ t_gpt t3 = t_gpt (w_text w1) /\
    t_gap_size t3 = t_gap_size (w_text w1) /\ t_z t3 = t_z (w_text w1)) as (E1 & E2 & E3 & E4).
  { unfold t3. by destruct (negb not_real). }
  pose proof (wf_text _ Hwf3) as Htw3. cbn [w_text] in Htw3.
  destruct (mem_write_ok (t_mem t3) (BI_BUF_BYTE_ADDRESS t3 p) [ch]) as (mem' & Hw & _).
  1,2: unfold BI_BUF_BYTE_ADDRESS; destruct Htw3; cbn [length]; zdec; lia.
  apply wp_bind. eapply wp_of_option; [exact Hw |].
  destruct (gap_str_set t3 p ch mem') as [Hstr Hlen]; [done | lia | done |].
  wstep. set (w4 := mk_world _ _ _ _).
  assert (edited R (abs_world w) v (replace_edit pos ch (negb not_real)) w4) as Hed.
  { apply Hdone.
    - destruct Hwf3 as [_ Hb3 Hq3]. cbn [w_text w_bufs w_glob] in *. constructor; [| | done].
      + destruct Htw3. constructor; cbn; lia.
      + eapply Forall_impl; [exact Hb3 |]. intros b'. by apply live_wf_ext.
    - unfold spec_replace. unfold abs_world at 1, w4. cbn [w_text w_bufs w_glob].
      unfold abs_world at 1 in Ha3. cbn [w_text w_bufs w_glob] in Ha3. injection Ha3 as F1 F2 F3 F4 F5 F6 F7.
      unfold set_a_text at 1. f_equal; try done.
      change (text_str (set_mem t3 mem')) with (gap_str mem' (t_gpt t3) (t_gap_size t3) (t_z t3)).
      rewrite Hstr. f_equal. done. }
  eapply wp_mono; [apply (after_edit R Hok w4); [| exact Hed] | |].
  - destruct Hed as [_ _]. apply (f_equal (fun a => Datatypes.length (a_bufs a))) in Ha3.
    unfold abs_world at 1, set_a_text in Ha3. cbn [a_bufs w_bufs] in Ha3. rewrite length_map in Ha3.
    unfold w4. cbn [w_bufs]. rewrite Ha3.
    destruct (negb not_real); unfold spec_record_change; rewrite ?length_spec_record, length_abs; done.
  - intros [] w5 Hw5. by left.
  - intros e w5 Hw5. by right.
Qed.
End Replacement.
