(* ===== verification/Editing.v ===== *)
(** * The editing primitives are correct

    The theorems about [src/src/insdel.c]: each editing function does what
    [EditSpec] says or nothing, keeps the buffers well-formed, never reaches
    outside the block of text, and the gap cannot be seen. *)

From S2P Require Import Prelude Lisp Buffer Scan Undo Insdel Gap Hooks EditSpec Edit.
From S2P Require Import Insertion Deletion.

(** ** A concrete editor, for witnesses

    The hooks do nothing, and nobody else is told of changes. *)

#[local] Instance quiet : Collaborators unit := {|
  adjust_extents := fun _ _ _ _ x => x;
  process_extents_for_insertion := fun _ _ _ x => x;
  process_extents_for_deletion := fun _ _ _ _ x => x;
  adjust_extents_for_deletion := fun _ _ _ _ _ _ x => x;
  splice_in_string_extents := fun _ _ _ _ _ x => x;
  insert_invalidate_line_number_cache := fun _ _ x => x;
  delete_invalidate_line_number_cache := fun _ _ x => x;
  narrow_line_number_cache := fun _ x => x;
  font_lock_maybe_update_syntactic_caches := fun _ _ _ _ x => x;
  call_hook := fun _ => ret tt;
|}.

Definition no_text_changes : buffer_text_change_data := mk_text_changes 0 0 0 0 false.
Definition no_buf_changes : each_buffer_change_data := mk_changes (-1) (-1) false (-1) (-1).

Definition idle (sigs : list quit_flag) : globals :=
  mk_globals QuitNil false sigs false false false false false 0 None false 0.

Definition plain_buffer (pt begv zv : Z) (markers : list Lisp_Marker) (u : undo_list) : buffer :=
  mk_buffer true pt begv zv no_buf_changes markers 1 u false (InhibitList []) false 0 Qnil.

(** "hello", with a gap of three bytes after the second, and room at the end. *)
Definition hello_text : buffer_text :=
  mk_text [104; 101; 0; 0; 0; 108; 108; 111; 0; 0] 3 6 3 2 1 0 no_text_changes.

Definition hello : world unit :=
  mk_world hello_text
    [plain_buffer 3 1 6 [mk_marker 1 3 false; mk_marker 2 8 false; mk_marker 3 3 true] (Some [])]
    tt (idle []).

Lemma quiet_hooks_ok : hooks_ok (X := unit) eq.
Proof.
  constructor; [done | by intros ? ? ? -> | by intros ? ? -> |].
  intros h w Hw. by apply wp_ret.
Qed.

Lemma hello_wf : world_wf hello.
Proof.
  constructor.
  - constructor; cbn; lia.
  - repeat constructor; cbn; lia || done.
  - repeat constructor. done.
Qed.

(** Hooks that do nothing leave exactly the specified state. *)
Lemma edited_eq {X} `{Collaborators X} a0 v b edit (w : world X) :
  edited eq a0 v edit w -> a_bufs a0 !! v = Some b -> abs_world w = edit b a0 /\ world_wf w.
Proof. intros (Hwf & a & b' & <- & Hb' & _ & <-) Hb. naive_solver. Qed.

(** ** Each primitive implements its specification *)

Section Primitives.
Context {X : Type} `{Collaborators X}.
Variable realloc : Z -> option (list Z).
Variable R : astate -> astate -> Prop.
Hypothesis Hok : hooks_ok (X := X) R.

(** C7: Insertion, of any kind of string, with the gap and the end gap anywhere
    and whatever the hooks do within [R]: the function returns, having inserted
    exactly the bytes at the position clipped to the buffer, recorded the change,
    and adjusted points, markers and narrowing of all buffers on the text, or
    having found the buffer killed; or it signals, with the whole insertion done
    or none of it.  It never reaches outside the block. *)
Theorem buffer_insert_string_1_correct v b pos src offset length flags n bytes (w : world X) :
  world_wf w -> w_bufs w !! v = Some b -> b_live b = true ->
  fixup_internal_substring src offset length = Some n ->
  mem_read (source_bytes src) offset n = Some bytes ->
  room R (abs_world w) n ->
  let edit b' := spec_insert v (a_clip b' (if pos =? -1 then b_pt b else pos)) bytes
                   (pos =? -1) (bm_flag flags) in
  wp (buffer_insert_string_1 realloc v pos src offset length flags)
    (fun r w' => r = n /\ edited R (abs_world w) v edit w' \/
                 r = 0 /\ killed R (abs_world w) v w')
    (fun _ w' => undone R (abs_world w) w' \/ edited R (abs_world w) v edit w') w.
Proof. intros. by eapply insertion. Qed.

(** C8: Deletion: the range, clipped to the buffer, is gone from the text, points
    and markers in it are at its start and later ones moved down, in every buffer
    on the text, provided the range is accessible in all of them; or nothing is
    done, because the range is empty, the buffer was killed or a signal came. *)
Theorem buffer_delete_range_correct v b from to flags (w : world X) :
  world_wf w -> w_bufs w !! v = Some b -> b_live b = true ->
  let r := a_clip_range (abs_buf (w_text w) b) (from, to) in
  shared_range R (abs_world w) v r ->
  wp (buffer_delete_range v from to flags)
    (fun _ w' => edited R (abs_world w) v (delete_edit r) w' \/
       killed R (abs_world w) v w' \/
       undone R (abs_world w) w' /\ nothing_to_delete (abs_world w') v r)
    (fun _ w' => undone R (abs_world w) w' \/ edited R (abs_world w) v (delete_edit r) w') w.
Proof. intros. by apply deletion. Qed.

(** Replacement changes one character in place: the text has the new byte at
    the clipped position, no marker, point or narrowing changes, and unless the
    change is not real it is recorded as a deletion and an insertion. *)
Theorem buffer_replace_char_correct v b pos ch not_real force (w : world X) :
  world_wf w -> w_bufs w !! v = Some b -> b_live b = true -> 1 <= pos < t_z (w_text w) ->
  wp (buffer_replace_char v pos ch not_real force)
    (fun _ w' => edited R (abs_world w) v (replace_edit pos ch (negb not_real)) w' \/
       killed R (abs_world w) v w')
    (fun _ w' => undone R (abs_world w) w' \/
       edited R (abs_world w) v (replace_edit pos ch (negb not_real)) w') w.
Proof. intros. by eapply replacement. Qed.
End Primitives.

Lemma hello_room n : n <= 1000 -> room eq (abs_world hello) n.
Proof. intros Hn a <-. change (zlen (a_str (abs_world hello))) with 5. change (5 / 8) with 0. lia. Qed.

(** Inserting "ab" before the last character of "hello": the gap moves. *)
Lemma buffer_insert_string_1_correct_witness :
  wp (buffer_insert_string_1 (fun _ => None) 0 5 (Reloc [97; 98; 99]) 0 2 0)
    (fun r w' => r = 2 /\ edited eq (abs_world hello) 0 (fun b' => spec_insert 0 (a_clip b' 5) [97; 98] false false) w' \/
                 r = 0 /\ killed eq (abs_world hello) 0 w')
    (fun _ w' => undone eq (abs_world hello) w' \/
       edited eq (abs_world hello) 0 (fun b' => spec_insert 0 (a_clip b' 5) [97; 98] false false) w') hello.
Proof.
  exact (buffer_insert_string_1_correct (fun _ => None) eq quiet_hooks_ok 0 _ 5 (Reloc [97; 98; 99])
    0 2 0 2 [97; 98] hello hello_wf eq_refl eq_refl eq_refl eq_refl (hello_room 2 ltac:(lia))).
Defined.

Lemma hello_shared from to : 1 <= from -> to <= 6 -> shared_range eq (abs_world hello) 0 (from, to).
Proof.
  intros Hf Ht a b <- Hb _ [| i] b' Hb' _; [| done]. injection Hb as <-. injection Hb' as <-.
  cbn -[Z.max Z.min]. lia.
Qed.

Lemma buffer_delete_range_correct_witness :
  wp (buffer_delete_range 0 (-4) 4 0)
    (fun _ w' => edited eq (abs_world hello) 0 (delete_edit (1, 4)) w' \/
       killed eq (abs_world hello) 0 w' \/
       undone eq (abs_world hello) w' /\ nothing_to_delete (abs_world w') 0 (1, 4))
    (fun _ w' => undone eq (abs_world hello) w' \/
       edited eq (abs_world hello) 0 (delete_edit (1, 4)) w') hello.
Proof.
  exact (buffer_delete_range_correct eq quiet_hooks_ok 0 _ (-4) 4 0 hello hello_wf eq_refl eq_refl
    (hello_shared 1 4 ltac:(lia) ltac:(lia))).
Defined.

Lemma buffer_replace_char_correct_witness :
  wp (buffer_replace_char 0 3 10 false false)
    (fun _ w' => edited eq (abs_world hello) 0 (replace_edit 3 10 true) w' \/
       killed eq (abs_world hello) 0 w')
    (fun _ w' => undone eq (abs_world hello) w' \/
       edited eq (abs_world hello) 0 (replace_edit 3 10 true) w') hello.
Proof.
  apply (buffer_replace_char_correct eq quiet_hooks_ok 0 (plain_buffer 3 1 6
    [mk_marker 1 3 false; mk_marker 2 8 false; mk_marker 3 3 true] (Some [])) 3 10 false false hello hello_wf);
    [done | done |]. cbn. lia.
Defined.

(** ** The gap cannot be seen *)

(** However the gap is moved, opened or enlarged, with quits typed at any time
    between the chunks of a copy and the heap returning any block or none, the
    text, the points, the markers and the narrowings read the same afterwards,
    also when the operation is abandoned in the middle; when it is not, the gap is
    where it was asked for. *)
Theorem gap_operations_invisible {X} `{Collaborators X} realloc pos ind length inc (w : world X) :
  world_wf w -> 1 <= pos <= t_z (w_text w) -> 1 <= ind <= t_z (w_text w) ->
  0 <= length -> fits (w_text w) length ->
  0 <= inc -> fits (w_text w) (t_gap_size (w_text w) + inc) ->
  wp (move_gap pos) (fun _ w' => unchanged w w' /\ t_gpt (w_text w') = pos)
    (fun e w' => e = Qquit /\ unchanged w w') w /\
  wp merge_gap_with_end_gap
    (fun _ w' => unchanged w w' /\ t_gpt (w_text w') = t_gpt (w_text w) /\
       t_gap_size (w_text w') = t_gap_size (w_text w) + t_end_gap_size (w_text w))
    (fun _ _ => False) w /\
  wp (make_gap realloc inc)
    (fun _ w' => unchanged w w' /\ t_gpt (w_text w') = t_gpt (w_text w) /\
       t_gap_size (w_text w) + inc <= t_gap_size (w_text w'))
    (fun _ w' => unchanged w w') w /\
  wp (open_gap realloc ind length)
    (fun _ w' => unchanged w w' /\ t_gpt (w_text w') = ind /\ length <= t_gap_size (w_text w'))
    (fun _ w' => unchanged w w') w.
Proof.
  intros Hwf Hp Hi Hl Hf Hinc Hf2. split_and!.
  - eapply wp_mono; [by apply move_gap_spec | |].
    + intros _ w' [Hs E]. split; [by apply same_text_unchanged | done].
    + intros e w' [E Hq]. split; [done | by apply quit_from_abs].
  - eapply wp_mono; [by apply merge_gap_with_end_gap_spec | | done].
    intros _ w' [Hs E]. split; [by apply same_text_unchanged | done].
  - eapply wp_mono; [by apply make_gap_spec | |].
    + intros _ w' [Hs E]. split; [by apply same_text_unchanged | done].
    + intros e w' Hs. by apply same_text_unchanged.
  - eapply wp_mono; [by apply open_gap_spec | | done].
    intros _ w' [Hs E]. split; [by apply same_text_unchanged | done].
Qed.

(** A quit typed while the gap of "hello" moves to the end. *)
Definition hello_quit : world unit :=
  mk_world hello_text (w_bufs hello) tt (idle [QuitNil; QuitT]).

Lemma hello_quit_wf : world_wf hello_quit.
Proof. destruct hello_wf as [H1 H2 _]. constructor; [exact H1 | exact H2 |]. repeat constructor; done. Qed.

Lemma gap_operations_invisible_witness :
  wp (move_gap 6) (fun _ w' => unchanged hello_quit w' /\ t_gpt (w_text w') = 6)
    (fun e w' => e = Qquit /\ unchanged hello_quit w') hello_quit.
Proof.
  exact (proj1 (gap_operations_invisible (fun _ => None) 6 3 4 2 hello_quit hello_quit_wf
    ltac:(cbn; lia) ltac:(cbn; lia) ltac:(lia) ltac:(by vm_compute) ltac:(lia)
    ltac:(by vm_compute))).
Defined.

(** Reading does not depend on the gap either: a character, and a string made
    from the buffer, is the corresponding part of the text; memory indices and
    positions are in bijection. *)
Theorem access_independent_of_gap t pos n x :
  text_wf t -> 1 <= pos -> 0 <= n -> pos + n <= t_z t ->
  make_string_from_buffer t pos n = Some (slice (text_str t) (pos - 1) n) /\
  (pos < t_z t -> BUF_FETCH_CHAR t pos = zget (text_str t) (pos - 1)) /\
  valid_memind_p t (bytind_to_memind t pos) = true /\
  memind_to_bytind t (bytind_to_memind t pos) = pos /\
  (valid_memind_p t x = true ->
     1 <= memind_to_bytind t x <= t_z t /\ bytind_to_memind t (memind_to_bytind t x) = x).
Proof.
  intros Ht H1 Hn Hz. split_and!.
  - by apply make_string_from_buffer_str.
  - intros. by apply BUF_FETCH_CHAR_str.
  - apply memind_of_bytind; [done | lia].
  - apply memind_of_bytind; [done | lia].
  - by apply bytind_of_memind.
Qed.

Lemma access_independent_of_gap_witness :
  make_string_from_buffer hello_text 2 3 = Some [101; 108; 108].
Proof. apply (access_independent_of_gap hello_text 2 3 8 (wf_text _ hello_wf)); cbn; lia. Defined.

(** ** Errors *)

(** When the first buffer on a text is read-only and nothing inhibits that,
    every attempt to insert, delete or replace through any buffer on the text is
    refused with that error, and the whole state is exactly as before. *)
Theorem read_only_refuses {X} `{Collaborators X} realloc v b b0 (w : world X)
    pos src offset length n flags from to ch not_real force x :
  w_bufs w !! 0%nat = Some b0 -> b_live b0 = true -> b_read_only b0 = true ->
  b_inhibit_read_only b0 = InhibitList [] ->
  w_bufs w !! v = Some b -> b_live b = true ->
  fixup_internal_substring src offset length = Some n -> n + t_z (w_text w) <= EMACS_INT_MAX ->
  Z.max from (b_begv b) < Z.min to (b_zv b) -> BUF_FETCH_CHAR (w_text w) pos = Some x ->
  buffer_insert_string_1 realloc v pos src offset length flags w = (Signal (Qbuffer_read_only 0), w) /\
  buffer_delete_range v from to flags w = (Signal (Qbuffer_read_only 0), w) /\
  buffer_replace_char v pos ch not_real force w = (Signal (Qbuffer_read_only 0), w).
Proof.
  intros H0 Hl0 Hro Hi Hb Hl Hfix Hmax Hr Hx.
  assert (forall s e lockit, prepare_to_modify_buffer v s e lockit w = (Signal (Qbuffer_read_only 0), w))
    as Hprep.
  { intros s e lockit. unfold prepare_to_modify_buffer, bind at 1, map_indirect_m.
    destruct (w_bufs w) as [| b1 bs] eqn:Ew; [done |]. injection H0 as ->.
    cbn [Datatypes.length seq map_indirect_from]. unfold bind, get_buf. rewrite Ew.
    cbn [lookup list_lookup of_option ret]. rewrite Hl0.
    unfold barf_if_buffer_read_only, bind, get_buf. rewrite Ew. cbn [lookup list_lookup of_option ret].
    by rewrite Hi, Hro, bool_decide_true. }
  split_and!.
  - unfold buffer_insert_string_1, bind, get_buf. rewrite Hb. cbn [of_option ret]. rewrite Hl, Hfix.
    cbn [negb of_option ret get]. zdec; by rewrite Hprep.
  - unfold buffer_delete_range, clip_range, bind, get_buf. rewrite Hb. cbn [of_option ret]. rewrite Hl.
    cbn [negb]. zdec; by rewrite Hprep || lia.
  - unfold buffer_replace_char, bind, get_buf. rewrite Hb. cbn [of_option ret get]. rewrite Hl.
    cbn [negb ret]. rewrite Hx. cbn [of_option ret]. by rewrite Hprep.
Qed.

(** "hello", read-only. *)
Definition hello_read_only : world unit :=
  mk_world hello_text
    [mk_buffer true 3 1 6 no_buf_changes [] 1 None true (InhibitList []) false 0 Qnil]
    tt (idle []).

Lemma read_only_refuses_witness :
  buffer_insert_string_1 (fun _ => None) 0 2 (NonReloc [65; 0]) 0 (-1) 0 hello_read_only =
    (Signal (Qbuffer_read_only 0), hello_read_only).
Proof.
  apply (read_only_refuses (fun _ => None) 0
    (mk_buffer true 3 1 6 no_buf_changes [] 1 None true (InhibitList []) false 0 Qnil)
    (mk_buffer true 3 1 6 no_buf_changes [] 1 None true (InhibitList []) false 0 Qnil)
    hello_read_only 2 (NonReloc [65; 0]) 0 (-1) 1 0 2 3 65 false false 101); try reflexivity.
  unfold EMACS_INT_MAX. cbn. lia.
Defined.

(** ** Insertion and deletion are inverse *)

(** A buffer without its undo list. *)
Definition strip (b : abuf) : abuf := set_a_undo b None.

(** What a program sees of the text and the buffers, less the undo lists. *)
Definition visible (a : astate) : list Z * list abuf := (a_str a, map strip (a_bufs a)).

Lemma strip_record push s : map strip (a_bufs (spec_record push s)) = map strip (a_bufs s).
Proof.
  assert (forall bs i here, map strip (record_bufs push (a_modiff s) (a_save_modiff s) i here bs).1 =
    map strip bs) as Hb.
  { induction bs as [| b bs IH]; intros i here; [done |]. cbn [record_bufs].
    destruct (if a_live b then _ else _);
      [specialize (IH (S i) true) | specialize (IH (S i) here)];
      destruct (record_bufs _ _ _ _ _ _); cbn in *; by f_equal. }
  unfold spec_record. specialize (Hb (a_bufs s) 0%nat (a_last_undo_here s)).
  by destruct (record_bufs _ _ _ _ _ _).
Qed.

Lemma a_str_record push s : a_str (spec_record push s) = a_str s.
Proof. unfold spec_record. by destruct (record_bufs _ _ _ _ _ _). Qed.

Lemma strip_map_live F bs :
  (forall i b, strip (F i b) = F i (strip b)) ->
  map strip (map_live_abufs F bs) = map_live_abufs F (map strip bs).
Proof.
  intros HF. apply list_eq. intros i. change (@map) with (@fmap list _). unfold map_live_abufs.
  rewrite list_lookup_fmap, !list_lookup_imap, list_lookup_fmap.
  destruct (bs !! i) as [b |]; [| done]. cbn. destruct (a_live b); [| done]. by rewrite HF.
Qed.

(** Deleting what was inserted at [ind]. *)
Lemma spec_insert_delete v ind bytes bm s :
  0 < ind -> ind - 1 <= zlen (a_str s) -> 0 < zlen bytes ->
  visible (spec_delete ind (ind + zlen bytes) (spec_insert v ind bytes false bm s)) = visible s.
Proof.
  intros H1 Hl Hn. unfold visible. f_equal.
  - unfold spec_delete, spec_insert, spec_record_delete, spec_record_insert.
    cbn [a_str set_a_text]. rewrite !a_str_record. cbn [a_str set_a_text]. rewrite ?a_str_record.
    set (n := zlen bytes) in *. assert (n = zlen bytes) as En by done. clearbody n.
    rewrite take_app_exact by (lens; lia). rewrite (assoc_L (++)), drop_app_exact by (lens; lia).
    apply take_drop.
  - unfold spec_delete, spec_insert. cbn [a_bufs set_a_text].
    rewrite strip_map_live by done. unfold spec_record_delete. rewrite strip_record.
    cbn [a_bufs set_a_text]. rewrite strip_map_live by done.
    unfold spec_record_insert. rewrite strip_record.
    apply list_eq. intros i. unfold map_live_abufs. rewrite !list_lookup_imap.
    destruct (map strip (a_bufs s) !! i) as [b |]; [| done]. cbn.
    destruct (a_live b) eqn:El; cbn; rewrite ?El; [| done]. f_equal.
    destruct b as [li pt bv zv ms pm un mt]. unfold delete_abuf, insert_abuf, pos_after_delete. cbn.
    f_equal; [zdec; lia | lia |].
    rewrite map_map. etransitivity; [| apply map_id]. apply map_ext. intros [[id p] ty]. cbn. do 2 f_equal.
    destruct (p =? ind) eqn:Ep; destruct (ty || bm); zdec; lia.
Qed.

(** The buffers after an insertion. *)
Lemma spec_insert_lookup v ind bytes mp bm s i a :
  a_bufs (spec_insert v ind bytes mp bm s) !! i = Some a ->
  exists a0, a_bufs s !! i = Some a0 /\ a_live a = a_live a0 /\
    (a_live a0 = true -> a_begv a = a_begv a0 /\ a_zv a = a_zv a0 + zlen bytes).
Proof.
  intros Hi. pose proof (strip_record (fun _ _ l => push_insert l ind (zlen bytes)) s) as Es.
  apply (f_equal (.!! i)) in Es. unfold spec_insert, spec_record_insert in Hi.
  cbn [a_bufs set_a_text] in Hi. unfold map_live_abufs in Hi. rewrite list_lookup_imap in Hi.
  change (@map) with (@fmap list _) in Es. rewrite !list_lookup_fmap in Es.
  destruct (a_bufs (spec_record _ s) !! i) as [a1 |]; [| done].
  destruct (a_bufs s !! i) as [a0 |]; [| done]. cbn in Es, Hi.
  injection Es as E1 E2 E3 E4 E5 E6 E7. injection Hi as <-. exists a0.
  rewrite <- E1, <- E3, <- E4. split; [done |]. by destruct (a_live a1) eqn:El; cbn; rewrite ?El.
Qed.

Lemma whole_insert v ind bytes mp bm s :
  whole s ind ind -> whole (spec_insert v ind bytes mp bm s) ind (ind + zlen bytes).
Proof.
  intros Hw i a Hi Hl. destruct (spec_insert_lookup _ _ _ _ _ _ _ _ Hi) as (a0 & H0 & El & Ez).
  rewrite El in Hl. destruct (Ez Hl) as [-> ->]. destruct (Hw i a0 H0 Hl). lia.
Qed.

(** Inserting a string at a position and deleting it again gives back the
    text, and every point, marker and narrowing, in every buffer on the text, if
    the hooks are silent and the position is accessible in all the buffers. *)
Theorem insert_delete_restores {X} `{Collaborators X} realloc v b pos src offset length n flags flags2
    bytes (w : world X) :
  hooks_ok (X := X) eq -> world_wf w -> w_bufs w !! v = Some b -> b_live b = true ->
  fixup_internal_substring src offset length = Some n ->
  mem_read (source_bytes src) offset n = Some bytes -> 0 < n ->
  room eq (abs_world w) n -> pos <> -1 ->
  let ind := a_clip (abs_buf (w_text w) b) pos in
  whole (abs_world w) ind ind ->
  wp (buffer_insert_string_1 realloc v pos src offset length flags;;
      buffer_delete_range v ind (ind + n) flags2)
    (fun _ w' => visible (abs_world w') = visible (abs_world w) /\ world_wf w')
    (fun _ w' => world_wf w') w.
Proof.
  intros Hok Hwf Hb Hl Hfix Hsrc Hn Hroom Hpos ind Hwhole.
  pose proof (mem_read_length _ _ _ _ Hsrc) as Hlen.
  pose proof (Forall_lookup_1 _ _ _ _ (wf_bufs _ Hwf) Hb) as Hwb. unfold live_wf in Hwb.
  rewrite Hl in Hwb. destruct Hwb as [Hb1 Hb2 Hb3 _].
  assert (b_begv b <= ind <= b_zv b) as Hind by (unfold ind, a_clip; cbn; zdec; lia).
  pose proof (abs_lookup _ _ _ Hb) as Hab.
  apply wp_bind. eapply wp_mono; [by eapply (insertion realloc eq Hok v pos src offset length flags) | |];
    cbv zeta; rewrite (proj2 (Z.eqb_neq pos (-1))) by done.
  2: { intros e w1 [[? ?] | [? ?]]; done. }
  intros r w1 [[-> He] | [_ [[_ Ha] (b' & Hb' & Hd)]]].
  2: { rewrite <- Ha, Hab in Hb'. injection Hb' as <-. cbn in Hd. congruence. }
  destruct (edited_eq _ _ _ _ _ He Hab) as [Ha1 Hwf1]. fold ind in Ha1.
  assert (v < Datatypes.length (w_bufs w1))%nat as Hv.
  { rewrite <- length_abs, Ha1, length_spec_insert, length_abs. by eapply lookup_lt_Some. }
  destruct (lookup_lt_is_Some_2 _ _ Hv) as [b1 Hb1'].
  pose proof (abs_lookup _ _ _ Hb1') as Hab1. pose proof Hab1 as Hsp. rewrite Ha1 in Hsp.
  apply spec_insert_lookup in Hsp as (a0 & Ha0 & El & Ez).
  rewrite Hab in Ha0. injection Ha0 as <-. cbn in El, Ez. rewrite Hl in El.
  destruct (Ez Hl) as [Ebv Ezv]. rewrite Hlen in Ezv.
  assert (a_clip_range (abs_buf (w_text w1) b1) (ind, ind + n) = (ind, ind + n)) as Hr.
  { unfold a_clip_range. cbn. f_equal; lia. }
  eapply wp_mono; [eapply (deletion eq Hok v ind (ind + n) flags2 b1); try done | |]; rewrite ?Hr.
  - intros a ba <- Hba Hla. rewrite Hab1 in Hba. injection Hba as <-. rewrite Hr, Ha1, <- Hlen.
    by apply whole_insert.
  - intros _ w2 [He2 | [[[_ Ha2] (b' & Hb' & Hd)] | [[_ Ha2] (b' & Hb' & Hd)]]].
    + destruct (edited_eq _ _ _ _ _ He2 Hab1) as [Ha2 Hwf2]. split; [| done].
      rewrite Ha2. unfold delete_edit. rewrite Hr, Ha1, <- Hlen. apply spec_insert_delete; [lia | | lia].
      unfold abs_world. cbn. rewrite length_text_str by apply Hwf. lia.
    + rewrite <- Ha2, Hab1 in Hb'. injection Hb' as <-. cbn in Hd. congruence.
    + rewrite <- Ha2, Hab1 in Hb'. injection Hb' as <-. rewrite Hr in Hd. cbn in Hd. lia.
  - intros e w2 [[? ?] | [? ?]]; done.
Qed.

Lemma insert_delete_restores_witness :
  wp (buffer_insert_string_1 (fun _ => Some []) 0 4 (NonReloc [65; 66; 67; 68; 69]) 1 4 1;;
      buffer_delete_range 0 4 (4 + 4) 0)
    (fun _ w' => visible (abs_world w') = visible (abs_world hello) /\ world_wf w')
    (fun _ w' => world_wf w') hello.
Proof.
  apply (insert_delete_restores (fun _ => Some []) 0
    (plain_buffer 3 1 6 [mk_marker 1 3 false; mk_marker 2 8 false; mk_marker 3 3 true] (Some []))
    4 (NonReloc [65; 66; 67; 68; 69]) 1 4 4 1 0 [66; 67; 68; 69] hello quiet_hooks_ok hello_wf);
    try reflexivity; try lia; [by apply hello_room |].
  intros [| i] b Hb _; [| done]. injection Hb as <-. by vm_compute.
Defined.

(** ** Sessions *)

Section Sessions.
Context {X : Type} `{Collaborators X}.
Variable realloc : Z -> option (list Z).
Variable R : astate -> astate -> Prop.

(** What may be asked of [insdel.c]. *)
Inductive request :=
| Insert (v : nat) (pos : Z) (str : list Z) (flags : Z)
| InsertFrom (v : nat) (pos pos2 length flags : Z)
| Delete (v : nat) (from to flags : Z)
| Replace (v : nat) (pos ch : Z) (not_real force : bool).

Definition run (r : request) : M X unit :=
  match r with
  | Insert v pos str flags => buffer_insert_lisp_string_1 realloc v pos str flags;; ret tt
  | InsertFrom v pos pos2 length flags =>
      let! t := get w_text in
      buffer_insert_from_buffer_1 realloc v pos t pos2 length flags;; ret tt
  | Delete v from to flags => buffer_delete_range v from to flags
  | Replace v pos ch not_real force => buffer_replace_char v pos ch not_real force
  end.

(** The requests that callers make: of existing buffers, with room for the text,
    of positions that exist, and deletions accessible to all the buffers. *)
Definition valid_request (w : world X) (r : request) : Prop :=
  match r with
  | Insert v _ str _ => (v < length (w_bufs w))%nat /\ room R (abs_world w) (zlen str)
  | InsertFrom v _ pos2 n _ =>
      (v < length (w_bufs w))%nat /\ room R (abs_world w) n /\
      1 <= pos2 /\ 0 <= n /\ pos2 + n <= t_z (w_text w)
  | Delete v from to _ =>
      exists b, w_bufs w !! v = Some b /\
        shared_range R (abs_world w) v (a_clip_range (abs_buf (w_text w) b) (from, to))
  | Replace v pos _ _ _ => (v < length (w_bufs w))%nat /\ 1 <= pos < t_z (w_text w)
  end.

(** The states an editing session can reach; a request may end in any way. *)
Inductive session (w0 : world X) : world X -> Prop :=
| session_start : session w0 w0
| session_step w r o w' :
    session w0 w -> valid_request w r -> run r w = (o, w') -> session w0 w'.

Hypothesis Hok : hooks_ok (X := X) R.

Lemma wp_run_wf r (w : world X) :
  world_wf w -> valid_request w r -> wp (run r) (fun _ => world_wf) (fun _ => world_wf) w.
Proof.
  intros Hwf Hr.
  assert (forall v b pos str flags, w_bufs w !! v = Some b -> room R (abs_world w) (zlen str) ->
    wp (buffer_insert_lisp_string_1 realloc v pos str flags;; ret tt)
      (fun _ => world_wf) (fun _ => world_wf) w) as Hins.
  { intros v b pos str flags Hb Hroom. apply wp_bind. unfold buffer_insert_lisp_string_1.
    destruct (b_live b) eqn:El.
    - eapply wp_mono; [eapply (insertion realloc R Hok v pos (Reloc str) 0 (zlen str) flags (zlen str)) | |];
        try done.
      + unfold fixup_internal_substring. zdec. done.
      + unfold mem_read. cbn [source_bytes]. zdec. rewrite drop_0, take_ge by lia. done.
      + intros r' w' [[_ [? _]] | [_ [[? _] _]]]; by apply wp_ret.
      + intros e w' [[? _] | [? _]]; done.
    - unfold buffer_insert_string_1. apply wp_bind. eapply wp_get_buf; [exact Hb |]. rewrite El.
      by apply wp_ret, wp_ret. }
  destruct r as [v pos str flags | v pos pos2 n flags | v from to flags | v pos ch nr force];
    cbn [run valid_request] in *.
  - destruct Hr as [Hv Hroom]. destruct (lookup_lt_is_Some_2 _ _ Hv) as [b Hb]. by eapply Hins.
  - destruct Hr as (Hv & Hroom & H1 & Hn & Hz). destruct (lookup_lt_is_Some_2 _ _ Hv) as [b Hb].
    apply wp_bind, wp_get. unfold buffer_insert_from_buffer_1.
    rewrite make_string_from_buffer_str by (done || apply Hwf). 
    eapply Hins; [exact Hb |]. rewrite length_slice; [done | lia.. |].
    rewrite length_text_str by apply Hwf. lia.
  - destruct Hr as (b & Hb & Hs). destruct (b_live b) eqn:El.
    + eapply wp_mono; [by eapply (deletion R Hok v from to flags b) | |].
      * intros _ w' [[? _] | [[[? _] _] | [[? _] _]]]; done.
      * intros e w' [[? _] | [? _]]; done.
    + unfold buffer_delete_range. apply wp_bind. eapply wp_get_buf; [exact Hb |]. rewrite El. by apply wp_ret.
  - destruct Hr as (Hv & Hp). destruct (lookup_lt_is_Some_2 _ _ Hv) as [b Hb]. destruct (b_live b) eqn:El.
    + eapply wp_mono; [by eapply (replacement R Hok v pos ch nr force b) | |].
      * intros _ w' [[? _] | [[? _] _]]; done.
      * intros e w' [[? _] | [? _]]; done.
    + unfold buffer_replace_char. apply wp_bind. eapply wp_get_buf; [exact Hb |]. rewrite El. by apply wp_ret.
Qed.

Lemma session_wf w0 w : world_wf w0 -> session w0 w -> world_wf w.
Proof.
  intros H0. induction 1 as [| w r o w' Hs IH Hr E]; [done |].
  pose proof (wp_run_wf r w IH Hr) as Hw. unfold wp in Hw. rewrite E in Hw. by destruct o.
Qed.

(** C9: In every state an editing session can reach, through edits that succeed,
    are refused, are interrupted or run out of memory, the block, the gap, points,
    narrowings and markers are well-formed; and no request made in such a state
    reaches outside the block of text. *)
Theorem sessions_are_safe w0 w r :
  world_wf w0 -> session w0 w -> valid_request w r ->
  world_wf w /\ (run r w).1 <> Fault /\ world_wf (run r w).2.
Proof.
  intros H0 Hs Hr. pose proof (session_wf _ _ H0 Hs) as Hwf.
  pose proof (wp_run_wf r w Hwf Hr) as Hw. unfold wp in Hw.
  destruct (run r w) as [[] w']; done.
Qed.
End Sessions.
Arguments Insert v pos str flags : assert.

(** After a first edit that is interrupted while the gap moves. *)
Lemma sessions_are_safe_witness :
  let w := (run (fun _ => None) (Insert 0 6 [33] 0) hello_quit).2 in
  world_wf w /\ (run (fun _ => None) (Delete 0 2 4 0) w).1 <> Fault /\
  world_wf (run (fun _ => None) (Delete 0 2 4 0) w).2.
Proof.
  intros w. apply (sessions_are_safe (fun _ => None) eq quiet_hooks_ok hello_quit w (Delete 0 2 4 0)
    hello_quit_wf).
  - eapply session_step with (r := Insert 0 6 [33] 0); [apply session_start | | apply surjective_pairing].
    split; [cbn; lia |]. intros a <-. by vm_compute.
  - eexists. split; [reflexivity |]. intros a b <- Hb _ [| i] b' Hb' _; [| done].
    injection Hb as <-. injection Hb' as <-. cbn -[Z.max Z.min]. lia.
Defined.

(** ** Where the hypotheses are needed *)

(** "hello" and an indirect buffer narrowed to nothing between its "h" and "e". *)
Definition narrowed : world unit :=
  mk_world hello_text [plain_buffer 3 1 6 [] None; plain_buffer 2 2 2 [] None] tt (idle []).

(** A deletion outside the accessible part of an indirect buffer still takes its
    length from the end of that part, which then lies before its beginning. *)
Example deletion_breaks_narrowed_indirect_buffer :
  world_wf narrowed /\
  exists w' b', buffer_delete_range 0 4 6 0 narrowed = (Done tt, w') /\
    w_bufs w' !! 1%nat = Some b' /\ b_begv b' = 2 /\ b_pt b' = 2 /\ b_zv b' = 0.
Proof.
  split; [| by eexists _, _; split_and!; vm_compute].
  constructor; [apply hello_wf | | apply hello_wf].
  repeat constructor; cbn; lia || done.
Qed.

(** A critical quit typed before the gap is enlarged. *)
Definition hello_critical : world unit :=
  mk_world hello_text (w_bufs hello) tt (idle [QuitCritical]).

(** The gap motion in the middle of [make_gap] counts on quitting being
    inhibited; a critical quit is not, and leaves the new gap where it was put:
    the text now holds the old gap, and quitting stays inhibited for good. *)
Example critical_quit_corrupts_text :
  text_str hello_text = [104; 101; 108; 108; 111] /\
  exists w', buffer_insert_string_1 (fun _ => Some []) 0 3 (Reloc [120; 121; 122; 123]) 0 4 0 hello_critical =
    (Signal Qquit, w') /\
    text_str (w_text w') = [104; 101; 0; 0; 0; 108; 108; 111] /\ t_z (w_text w') = 6 /\
    ztake 5 (text_str (w_text w')) <> text_str hello_text /\
    g_inhibit_quit (w_glob w') = true.
Proof. split; [done |]. eexists. split_and!; try (by vm_compute). Qed.

(** An insertion before markers in the base buffer moves the point marker of an
    indirect buffer, but not its point. *)
Example before_markers_splits_point_from_its_marker :
  let w := mk_world hello_text [plain_buffer 1 1 6 [] None;
             plain_buffer 3 1 6 [mk_marker 1 3 false] None] tt (idle []) in
  exists w' b', buffer_insert_string_1 (fun _ => None) 0 3 (Reloc [120]) 0 1 INSDEL_BEFORE_MARKERS w =
    (Done 1, w') /\ w_bufs w' !! 1%nat = Some b' /\ b_pt b' = 3 /\
    map (marker_view (w_text w')) (b_markers b') = [(1%positive, 4, false)].
Proof. eexists _, _. split_and!; by vm_compute. Qed.
