(* ===== verification/Marker.v ===== *)
(** * Markers (src/src/marker.c)

    The marker objects in memory, the doubly-linked chain that leads from a buffer
    to its markers, and the operations that move markers between chains.  [Insdel]
    and [Buffer] see the chain as a list: the theorems here are that it is one. *)

From S2P Require Import Prelude Lisp Buffer.

(** ** Memory *)

Record marker_rec := mk_marker_rec {
  mr_next : option positive;
  mr_prev : option positive;
  mr_buffer : option nat;
  mr_memind : Z;
  mr_insertion_type : bool;
}.

(** What the operations read and write of a buffer. *)
Record mbuf := mk_mbuf {
  mb_live : bool;
  mb_text : buffer_text;
  mb_pt : Z;
  mb_begv : Z;
  mb_zv : Z;
  mb_head : option positive;
  mb_point_marker : positive;
  mb_mark : positive;
}.

Record store := mk_store {
  s_markers : gmap positive marker_rec;
  s_bufs : gmap nat mbuf;
  s_current : nat;
}.

Definition set_next (m : marker_rec) (n : option positive) : marker_rec :=
  mk_marker_rec n (mr_prev m) (mr_buffer m) (mr_memind m) (mr_insertion_type m).
Definition set_prev (m : marker_rec) (p : option positive) : marker_rec :=
  mk_marker_rec (mr_next m) p (mr_buffer m) (mr_memind m) (mr_insertion_type m).
Definition set_buffer (m : marker_rec) (b : option nat) : marker_rec :=
  mk_marker_rec (mr_next m) (mr_prev m) b (mr_memind m) (mr_insertion_type m).
Definition set_memind (m : marker_rec) (x : Z) : marker_rec :=
  mk_marker_rec (mr_next m) (mr_prev m) (mr_buffer m) x (mr_insertion_type m).
Definition set_insertion_type (m : marker_rec) (t : bool) : marker_rec :=
  mk_marker_rec (mr_next m) (mr_prev m) (mr_buffer m) (mr_memind m) t.
Definition set_head (b : mbuf) (h : option positive) : mbuf :=
  mk_mbuf (mb_live b) (mb_text b) (mb_pt b) (mb_begv b) (mb_zv b) h (mb_point_marker b) (mb_mark b).
Definition set_pt (b : mbuf) (pt : Z) : mbuf :=
  mk_mbuf (mb_live b) (mb_text b) pt (mb_begv b) (mb_zv b) (mb_head b) (mb_point_marker b) (mb_mark b).
Definition set_point_marker (b : mbuf) (m : positive) : mbuf :=
  mk_mbuf (mb_live b) (mb_text b) (mb_pt b) (mb_begv b) (mb_zv b) (mb_head b) m (mb_mark b).
Definition set_mark (b : mbuf) (m : positive) : mbuf :=
  mk_mbuf (mb_live b) (mb_text b) (mb_pt b) (mb_begv b) (mb_zv b) (mb_head b) (mb_point_marker b) m.

(** Code that reads and writes memory, and may signal; a dangling pointer is a
    fault. *)
Definition op (A : Type) : Type := store -> outcome A * store.

#[export] Instance op_ret : MRet op := fun A a s => (Done a, s).
#[export] Instance op_bind : MBind op := fun A B k m s =>
  match m s with
  | (Done a, s) => k a s
  | (Signal e, s) => (Signal e, s)
  | (Fault, s) => (Fault, s)
  end.

Definition raise {A} (e : lisp_error) : op A := fun s => (Signal e, s).
Definition read {A} (f : store -> option A) : op A := fun s =>
  match f s with Some a => (Done a, s) | None => (Fault, s) end.
Definition the_marker (id : positive) : op marker_rec := read (fun s => s_markers s !! id).
Definition the_buf (v : nat) : op mbuf := read (fun s => s_bufs s !! v).
Definition upd_marker (id : positive) (f : marker_rec -> marker_rec) : op unit := fun s =>
  match s_markers s !! id with
  | Some m => (Done tt, mk_store (<[id := f m]> (s_markers s)) (s_bufs s) (s_current s))
  | None => (Fault, s)
  end.
Definition upd_mbuf (v : nat) (f : mbuf -> mbuf) : op unit := fun s =>
  match s_bufs s !! v with
  | Some b => (Done tt, mk_store (s_markers s) (<[v := f b]> (s_bufs s)) (s_current s))
  | None => (Fault, s)
  end.

(** ** Positions *)

Definition bi_marker_position (id : positive) : op Z :=
  m ← the_marker id;
  match mr_buffer m with
  | None => raise (Qerror "Marker does not point anywhere")
  | Some v => b ← the_buf v; mret (memind_to_bytind (mb_text b) (mr_memind m))
  end.

Definition marker_position (id : positive) : op Z :=
  m ← the_marker id;
  match mr_buffer m with
  | None => raise (Qerror "Marker does not point anywhere")
  | Some _ => bi_marker_position id
  end.

Definition set_bi_marker_position (id : positive) (pos : Z) : op unit :=
  m ← the_marker id;
  match mr_buffer m with
  | None => raise (Qerror "Marker does not point anywhere")
  | Some v =>
      b ← the_buf v; upd_marker id (fun m => set_memind m (bytind_to_memind (mb_text b) pos))
  end.

Definition set_marker_position (id : positive) (pos : Z) : op unit :=
  m ← the_marker id;
  match mr_buffer m with
  | None => raise (Qerror "Marker does not point anywhere")
  | Some _ => set_bi_marker_position id pos
  end.

Definition CHECK_MARKER (x : Lisp_Object) : op positive :=
  match x with
  | LRec lrecord_marker id => mret id
  | _ => raise (Qwrong_type_argument "markerp" x)
  end.

Definition Fmarker_buffer (marker : Lisp_Object) : op (option nat) :=
  id ← CHECK_MARKER marker;
  m ← the_marker id;
  match mr_buffer m with
  | None => mret None
  | Some v => b ← the_buf v; mret (if mb_live b then Some v else None)
  end.

Definition Fmarker_position (marker : Lisp_Object) : op (option Z) :=
  id ← CHECK_MARKER marker;
  m ← the_marker id;
  match mr_buffer m with
  | None => mret None
  | Some _ => p ← marker_position id; mret (Some p)
  end.

Definition Fmarker_insertion_type (marker : Lisp_Object) : op bool :=
  id ← CHECK_MARKER marker; m ← the_marker id; mret (mr_insertion_type m).

Definition Fset_marker_insertion_type (marker type : Lisp_Object) : op Lisp_Object :=
  id ← CHECK_MARKER marker;
  _ ← upd_marker id (fun m => set_insertion_type m (negb (NILP type)));
  mret type.

(** Two markers are [equal] if they are at one place, or both nowhere. *)
Definition marker_equal (id1 id2 : positive) : op bool :=
  m1 ← the_marker id1;
  m2 ← the_marker id2;
  mret (bool_decide (mr_buffer m1 = mr_buffer m2) &&
        ((mr_memind m1 =? mr_memind m2) || bool_decide (mr_buffer m1 = None))).

(** The hash is made of the address of the buffer, in unsigned 64-bit arithmetic. *)
Definition GOOD_HASH : Z := 65599.
Definition HASH2 (a b : Z) : Z := (GOOD_HASH * a + b) mod 2 ^ 64.

Definition marker_hash (address : nat -> Z) (id : positive) : op Z :=
  m ← the_marker id;
  mret (match mr_buffer m with
        | None => 0
        | Some v => if address v =? 0 then 0 else HASH2 (address v) (mr_memind m)
        end).

(** ** Chains *)

Definition unchain_marker (id : positive) : op unit :=
  m ← the_marker id;
  match mr_buffer m with
  | None => mret tt
  | Some v =>
      _ ← match mr_next m with
          | Some n => upd_marker n (fun m' => set_prev m' (mr_prev m))
          | None => mret tt
          end;
      _ ← match mr_prev m with
          | Some p => upd_marker p (fun m' => set_next m' (mr_next m))
          | None => upd_mbuf v (fun b => set_head b (mr_next m))
          end;
      upd_marker id (fun m => set_buffer m None)
  end.

(** [set_buffer_point]. *)
Definition BUF_SET_PT (v : nat) (pos : Z) : op unit :=
  b ← the_buf v;
  if pos =? mb_pt b then mret tt else
  _ ← upd_mbuf v (fun b => set_pt b pos);
  upd_marker (mb_point_marker b) (fun m => set_memind m (bytind_to_memind (mb_text b) pos)).

Definition POINT_MARKER_P (id : positive) : op bool :=
  m ← the_marker id;
  match mr_buffer m with
  | None => mret false
  | Some v => b ← the_buf v; mret (bool_decide (id = mb_point_marker b))
  end.

(** The position argument, when it is one. *)
Definition CHECK_INT_COERCE_MARKER (x : Lisp_Object) : op Z :=
  match x with
  | LInt n => mret n
  | LRec lrecord_marker id => marker_position id
  | _ => raise (Qwrong_type_argument "integer-or-marker-p" x)
  end.

(** The end of [set_marker_internal]: the marker joins the chain of [v]. *)
Definition join_chain (id : positive) (v : nat) : op unit :=
  b ← the_buf v;
  _ ← upd_marker id (fun m => set_prev (set_next (set_buffer m (Some v)) (mb_head b)) None);
  _ ← match mb_head b with
      | Some h => upd_marker h (fun m => set_prev m (Some id))
      | None => mret tt
      end;
  upd_mbuf v (fun b => set_head b (Some id)).

Definition clip (lo hi x : Z) : Z :=
  let x := if x <? lo then lo else x in if x >? hi then hi else x.

(** The buffer argument: nil, a buffer, or something else. *)
Definition LBuffer (v : nat) : Lisp_Object := LRec lrecord_buffer (Pos.of_succ_nat v).

Definition decode_marker_buffer (buffer : Lisp_Object) : op nat :=
  if NILP buffer then fun s => (Done (s_current s), s)
  else match buffer with
  | LRec lrecord_buffer p => mret (pred (Pos.to_nat p))
  | _ => raise (Qwrong_type_argument "bufferp" buffer)
  end.

Definition set_marker_internal (marker position buffer : Lisp_Object) (restricted_p : bool)
  : op Lisp_Object :=
  id ← CHECK_MARKER marker;
  point_p ← POINT_MARKER_P id;
  nowhere ← (if NILP position then mret true
             else match position with
             | LRec lrecord_marker p => m ← the_marker p; mret (bool_decide (mr_buffer m = None))
             | _ => mret false
             end);
  if nowhere : bool then
    if point_p : bool then raise (Qerror "Can't make point-marker point nowhere")
    else _ ← unchain_marker id; mret marker
  else
  charno ← CHECK_INT_COERCE_MARKER position;
  v ← decode_marker_buffer buffer;
  b ← the_buf v;
  if negb (NILP buffer) && negb (mb_live b) then
    if point_p : bool then raise (Qerror "Can't move point-marker in a killed buffer")
    else _ ← unchain_marker id; mret marker
  else
  let charno := if restricted_p then clip (mb_begv b) (mb_zv b) charno
                else clip BUF_BEG (t_z (mb_text b)) charno in
  _ ← (if point_p : bool then BUF_SET_PT v charno
       else upd_marker id (fun m => set_memind m (bytind_to_memind (mb_text b) charno)));
  m ← the_marker id;
  if bool_decide (mr_buffer m = Some v) then mret marker
  else if point_p : bool then raise (Qerror "Can't change buffer of point-marker")
  else
    _ ← unchain_marker id;
    _ ← join_chain id v;
    mret marker.

Definition Fset_marker (marker position buffer : Lisp_Object) : op Lisp_Object :=
  set_marker_internal marker position buffer false.

Definition set_marker_restricted (marker position buffer : Lisp_Object) : op Lisp_Object :=
  set_marker_internal marker position buffer true.

(** [Fmake_marker]; memory that is free is used. *)
Definition Fmake_marker : op positive := fun s =>
  let id := fresh (dom (s_markers s)) in
  (Done id, mk_store (<[id := mk_marker_rec None None None 0 false]> (s_markers s)) (s_bufs s)
              (s_current s)).

Definition copy_marker_1 (marker type : Lisp_Object) : op positive :=
  match marker with
  | LInt _ | LRec lrecord_marker _ =>
      new ← Fmake_marker;
      buffer ← match marker with
               | LRec lrecord_marker _ =>
                   v ← Fmarker_buffer marker;
                   mret (match v with Some v => LBuffer v | None => Qnil end)
               | _ => mret Qnil
               end;
      _ ← Fset_marker (LRec lrecord_marker new) marker buffer;
      _ ← upd_marker new (fun m => set_insertion_type m (negb (NILP type)));
      mret new
  | _ => raise (Qwrong_type_argument "integer-or-marker-p" marker)
  end.

Definition Fcopy_marker (marker_or_integer marker_type : Lisp_Object) : op positive :=
  copy_marker_1 marker_or_integer marker_type.

(** ** Buffers *)

Definition init_buffer_markers (v : nat) (base_buffer : bool) : op unit :=
  mark ← Fmake_marker;
  _ ← upd_mbuf v (fun b => set_mark b mark);
  _ ← upd_mbuf v (fun b => set_head b None);
  pm ← Fmake_marker;
  _ ← upd_mbuf v (fun b => set_point_marker b pm);
  b ← the_buf v;
  _ ← Fset_marker (LRec lrecord_marker pm) (LInt (if base_buffer then mb_pt b else 1)) (LBuffer v);
  mret tt.

Fixpoint uninit_loop (fuel : nat) (m : option positive) : op unit :=
  match m with
  | None => mret tt
  | Some id =>
      match fuel with
      | O => fun s => (Fault, s)
      | S fuel =>
          _ ← upd_marker id (fun m => set_buffer m None);
          m ← the_marker id;
          let next := mr_next m in
          _ ← upd_marker id (fun m => set_prev (set_next m None) None);
          uninit_loop fuel next
      end
  end.

(** A chain has at most as many markers as there are. *)
Definition uninit_buffer_markers (v : nat) : op unit :=
  b ← the_buf v;
  n ← (fun s => (Done (size (s_markers s)), s));
  _ ← uninit_loop n (mb_head b);
  upd_mbuf v (fun b => set_head b None).

(** ** Chains as lists *)

(** The first marker of [l], or what comes after it; the last, or what comes before. *)
Definition hd_or (l : list positive) (n : option positive) : option positive :=
  match l with [] => n | id :: _ => Some id end.

Fixpoint last_or (p : option positive) (l : list positive) : option positive :=
  match l with [] => p | id :: l => last_or (Some id) l end.

(** The markers [l] are linked one after the other, between [p] and [n]. *)
Fixpoint seg (ms : gmap positive marker_rec) (p : option positive) (l : list positive)
    (n : option positive) : Prop :=
  match l with
  | [] => True
  | id :: l =>
      exists m, ms !! id = Some m /\ mr_prev m = p /\ mr_next m = hd_or l n /\ seg ms (Some id) l n
  end.

Lemma hd_or_app l1 l2 n : hd_or (l1 ++ l2) n = hd_or l1 (hd_or l2 n).
Proof. by destruct l1. Qed.

Lemma seg_app ms p l1 l2 n :
  seg ms p (l1 ++ l2) n <-> seg ms p l1 (hd_or l2 n) /\ seg ms (last_or p l1) l2 n.
Proof.
  revert p. induction l1 as [| id l1 IH]; intros p; cbn; [tauto |].
  setoid_rewrite IH. setoid_rewrite hd_or_app. naive_solver.
Qed.

Lemma seg_ext ms ms' p l n :
  (forall id, id ∈ l -> ms' !! id = ms !! id) -> seg ms p l n -> seg ms' p l n.
Proof.
  revert p. induction l as [| id l IH]; intros p E; [done |]. cbn.
  intros (m & Hm & Hp & Hn & Hs). exists m. rewrite E by set_solver.
  split_and!; try done. apply IH; [set_solver | done].
Qed.

Lemma seg_insert ms p l n id m : id ∉ l -> seg ms p l n -> seg (<[id := m]> ms) p l n.
Proof.
  intros Hid. apply seg_ext. intros j Hj. apply lookup_insert_ne. intros ->. done.
Qed.

Lemma seg_lookup ms p l n id : seg ms p l n -> id ∈ l -> is_Some (ms !! id).
Proof.
  revert p. induction l as [| j l IH]; intros p; [set_solver |]. cbn.
  intros (m & Hm & _ & _ & Hs) Hin. apply elem_of_cons in Hin as [-> | Hin]; [by eexists | by eapply IH].
Qed.

(** The end of a chain gets another successor, the beginning another predecessor. *)
Lemma seg_set_next ms p l k n n' m :
  k ∉ l -> seg ms p (l ++ [k]) n -> ms !! k = Some m ->
  seg (<[k := set_next m n']> ms) p (l ++ [k]) n'.
Proof.
  intros Hk Hs Hm. apply seg_app in Hs as [H1 (m' & Hm' & Hp & Hn & _)]. rewrite Hm in Hm'.
  injection Hm' as <-. apply seg_app. split; [by apply seg_insert |].
  exists (set_next m n'). rewrite lookup_insert_eq. done.
Qed.

Lemma seg_set_prev ms p p' l k n m :
  k ∉ l -> seg ms p (k :: l) n -> ms !! k = Some m ->
  seg (<[k := set_prev m p']> ms) p' (k :: l) n.
Proof.
  intros Hk (m' & Hm' & Hp & Hn & Hs) Hm. rewrite Hm in Hm'. injection Hm' as <-.
  exists (set_prev m p'). rewrite lookup_insert_eq. split_and!; try done. by apply seg_insert.
Qed.

(** ** What a program sees *)

Definition view (m : marker_rec) : option nat * Z * bool :=
  (mr_buffer m, mr_memind m, mr_insertion_type m).

Definition visible (s : store) : gmap positive (option nat * Z * bool) := view <$> s_markers s.

Lemma view_insert (ms : gmap positive marker_rec) id m m' :
  ms !! id = Some m -> view m' = view m -> view <$> <[id := m']> ms = view <$> ms.
Proof.
  intros Hm E. rewrite fmap_insert, insert_id; [done |]. by rewrite lookup_fmap, Hm, E.
Qed.

(** The chain of every buffer. *)
Record chains_wf (s : store) (chains : nat -> list positive) : Prop := {
  wf_seg v b : s_bufs s !! v = Some b ->
    mb_head b = hd_or (chains v) None /\ seg (s_markers s) None (chains v) None /\ NoDup (chains v);
  wf_in v id : id ∈ chains v <-> exists x, visible s !! id = Some x /\ x.1.1 = Some v;
  wf_home v id : id ∈ chains v -> is_Some (s_bufs s !! v);
}.

(** Markers are in the text, and point markers at point. *)
Record store_wf (s : store) (chains : nat -> list positive) : Prop := {
  wf_chains : chains_wf s chains;
  wf_mbuf v b : s_bufs s !! v = Some b ->
    text_wf (mb_text b) /\ 1 <= mb_begv b /\ mb_begv b <= mb_zv b /\ mb_zv b <= t_z (mb_text b);
  wf_place v id x b : visible s !! id = Some x -> x.1.1 = Some v -> s_bufs s !! v = Some b ->
    valid_memind_p (mb_text b) x.1.2 = true;
  wf_point v b : s_bufs s !! v = Some b -> mb_live b = true ->
    exists ty, visible s !! mb_point_marker b = Some (Some v, bytind_to_memind (mb_text b) (mb_pt b), ty);
}.

Definition remove (id : positive) (l : list positive) : list positive := filter (fun j => j <> id) l.

Lemma remove_notin id l : id ∉ l -> remove id l = l.
Proof.
  unfold remove. induction l as [| j l IH]; intros Hid; [done |].
  rewrite filter_cons_True by set_solver. f_equal. apply IH. set_solver.
Qed.

Lemma remove_split id l1 l2 : NoDup (l1 ++ id :: l2) -> remove id (l1 ++ id :: l2) = l1 ++ l2.
Proof.
  intros Hd. apply NoDup_app in Hd as (_ & H1 & [H2 _]%NoDup_cons). unfold remove.
  rewrite filter_app, filter_cons_False by naive_solver.
  fold (remove id l1) (remove id l2). rewrite !remove_notin; [done | done |].
  intros Hin. by apply (H1 id Hin), elem_of_cons; left.
Qed.

Lemma elem_of_remove id j l : j ∈ remove id l <-> j <> id /\ j ∈ l.
Proof. unfold remove. by rewrite list_elem_of_filter. Qed.

(** ** Running an operation *)

Lemma the_marker_run id m s : s_markers s !! id = Some m -> the_marker id s = (Done m, s).
Proof. unfold the_marker, read. by intros ->. Qed.

Lemma the_buf_run v b s : s_bufs s !! v = Some b -> the_buf v s = (Done b, s).
Proof. unfold the_buf, read. by intros ->. Qed.

Lemma upd_marker_run id m f s :
  s_markers s !! id = Some m ->
  upd_marker id f s = (Done tt, mk_store (<[id := f m]> (s_markers s)) (s_bufs s) (s_current s)).
Proof. unfold upd_marker. by intros ->. Qed.

Lemma upd_mbuf_run v b f s :
  s_bufs s !! v = Some b ->
  upd_mbuf v f s = (Done tt, mk_store (s_markers s) (<[v := f b]> (s_bufs s)) (s_current s)).
Proof. unfold upd_mbuf. by intros ->. Qed.

Lemma op_bind_run {A B} (m : op A) (k : A -> op B) s a s' :
  m s = (Done a, s') -> (m ≫= k) s = k a s'.
Proof. unfold mbind, op_bind. by intros ->. Qed.

Lemma op_seq_run (m1 m2 f : op unit) s s' :
  (_ ← m1; m2) s = (Done tt, s') -> (_ ← m1; _ ← m2; f) s = f s'.
Proof.
  unfold mbind, op_bind. destruct (m1 s) as [[[] | |] s1]; [| done | done].
  by intros ->.
Qed.

(** The links around [id] after it is taken out, and its links as they were. *)
Lemma unlink_seg ms l1 id l2 m :
  ms !! id = Some m -> NoDup (l1 ++ id :: l2) -> seg ms None (l1 ++ id :: l2) None ->
  exists ms', (forall bufs c v b, bufs !! v = Some b ->
      ((_ ← match mr_next m with
            | Some n => upd_marker n (fun m' => set_prev m' (mr_prev m))
            | None => mret tt
            end;
        match mr_prev m with
        | Some p => upd_marker p (fun m' => set_next m' (mr_next m))
        | None => upd_mbuf v (fun b => set_head b (mr_next m))
        end) (mk_store ms bufs c) =
       (Done tt, mk_store ms'
          (match l1 with [] => <[v := set_head b (hd_or l2 None)]> bufs | _ => bufs end) c))) /\
    view <$> ms' = view <$> ms /\ ms' !! id = Some m /\ seg ms' None (l1 ++ l2) None /\
    (forall j, j ∉ l1 ++ l2 -> ms' !! j = ms !! j).
Proof.
  intros Hm Hd Hs. apply seg_app in Hs as [H1 (m0 & Hm0 & Hp & Hn & H2)].
  rewrite Hm in Hm0. injection Hm0 as <-. cbn [hd_or] in H1.
  apply NoDup_app in Hd as (Hd1 & Hd12 & [Hid2 Hd2]%NoDup_cons).
  assert (id ∉ l1) as Hid1 by (intros Hin; apply (Hd12 id Hin); set_solver).
  rewrite Hp, Hn.
  (* the next marker *)
  set (ms1 := match l2 with
              | n :: _ => match ms !! n with Some mn => <[n := set_prev mn (last_or None l1)]> ms | None => ms end
              | [] => ms end).
  assert (view <$> ms1 = view <$> ms /\ seg ms1 None l1 (Some id) /\ seg ms1 (last_or None l1) l2 None /\
    ms1 !! id = Some m /\ (forall j, j ∉ l2 -> ms1 !! j = ms !! j) /\
    (forall bufs c, match hd_or l2 None with
      | Some n => upd_marker n (fun m' => set_prev m' (last_or None l1)) | None => mret tt end
      (mk_store ms bufs c) = (Done tt, mk_store ms1 bufs c))) as (V1 & S1 & S2 & I1 & O1 & R1).
  { destruct l2 as [| n l2]; [done |]. destruct (seg_lookup _ _ _ _ n H2) as [mn Hmn]; [set_solver |].
    unfold ms1. rewrite Hmn. apply NoDup_cons in Hd2 as [Hn2 _]. split_and!.
    - by eapply view_insert.
    - apply seg_insert; [| done]. intros Hin. apply (Hd12 n Hin). set_solver.
    - by eapply seg_set_prev.
    - rewrite lookup_insert_ne; [done | set_solver].
    - intros j Hj. apply lookup_insert_ne. set_solver.
    - intros bufs c. cbn [hd_or]. by erewrite upd_marker_run. }
  (* the previous one *)
  destruct l1 as [| p0 l1] using rev_ind.
  - exists ms1. cbn [app last_or] in *. split_and!; try done.
    intros bufs c v b Hb. erewrite op_bind_run by apply R1. by erewrite upd_mbuf_run.
  - clear IHl1. apply NoDup_app in Hd1 as (_ & Hp0 & _).
    assert (p0 ∉ l1) as Hpl by (intros Hin; apply (Hp0 p0 Hin); set_solver).
    assert (p0 ∉ l2) as Hpl2 by (intros Hin; apply (Hd12 p0); set_solver).
    assert (last_or None (l1 ++ [p0]) = Some p0) as Elast
      by (generalize (@None positive); clear; induction l1 as [| x l1 IH]; intros q; [done | apply IH]).
    destruct (seg_lookup _ _ _ _ p0 S1) as [mp Hmp]; [set_solver |]. rewrite Elast in *.
    exists (<[p0 := set_next mp (hd_or l2 None)]> ms1). split_and!.
    + intros bufs c v b Hb. erewrite op_bind_run by apply R1. erewrite upd_marker_run by done.
      by destruct l1.
    + rewrite <- V1. by eapply view_insert.
    + rewrite lookup_insert_ne; [done | set_solver].
    + apply seg_app. split; [by eapply seg_set_next |]. rewrite Elast. by apply seg_insert.
    + intros j Hj. rewrite lookup_insert_ne by set_solver. apply O1. set_solver.
Qed.

(** A buffer apart from where its chain begins. *)
Definition headless (bufs : gmap nat mbuf) : gmap nat mbuf := (fun b => set_head b None) <$> bufs.

Lemma headless_insert (bufs : gmap nat mbuf) v b h :
  bufs !! v = Some b -> headless (<[v := set_head b h]> bufs) = headless bufs.
Proof.
  intros Hb. unfold headless. rewrite fmap_insert, insert_id; [done |]. by rewrite lookup_fmap, Hb.
Qed.

Lemma headless_lookup bufs bufs' v b :
  headless bufs' = headless bufs -> bufs' !! v = Some b ->
  exists b0, bufs !! v = Some b0 /\ b = set_head b0 (mb_head b).
Proof.
  intros E Hb. apply (f_equal (.!! v)) in E. unfold headless in E. rewrite !lookup_fmap, Hb in E.
  destruct (bufs !! v) as [b0 |]; [| done]. injection E as E1 E2 E3 E4 E5 E6 E7. exists b0.
  split; [done |]. destruct b, b0. unfold set_head. cbn in *. by subst.
Qed.

Lemma wf_disjoint s chains u v id : chains_wf s chains -> id ∈ chains u -> id ∈ chains v -> u = v.
Proof.
  intros Hwf Hu Hv. apply (wf_in _ _ Hwf) in Hu as (x & Hx & Eu), Hv as (y & Hy & Ev). congruence.
Qed.

(** The chains when [id] is where [place] says. *)
Definition move (id : positive) (place : option nat) (chains : nat -> list positive) (v : nat)
  : list positive :=
  if bool_decide (place = Some v)
  then if bool_decide (id ∈ chains v) then chains v else id :: chains v
  else remove id (chains v).

Lemma chains_moved s chains s' id x :
  chains_wf s chains -> headless (s_bufs s') = headless (s_bufs s) ->
  visible s' = <[id := x]> (visible s) ->
  (forall v, x.1.1 = Some v -> is_Some (s_bufs s !! v)) ->
  (forall v b, s_bufs s' !! v = Some b ->
     mb_head b = hd_or (move id x.1.1 chains v) None /\
     seg (s_markers s') None (move id x.1.1 chains v) None) ->
  chains_wf s' (move id x.1.1 chains).
Proof.
  intros Hwf Hh Hv Hx Hs. unfold move in *. constructor.
  - intros v b Hb. destruct (Hs v b Hb) as [H1 H2]. split_and!; [done | done |].
    destruct (headless_lookup _ _ _ _ Hh Hb) as (b0 & Hb0 & _).
    destruct (wf_seg _ _ Hwf _ _ Hb0) as (_ & _ & Hd).
    case_bool_decide; [case_bool_decide; [done | by constructor] | by apply NoDup_filter].
  - intros v j. rewrite Hv. destruct (decide (j = id)) as [-> | Hne].
    + rewrite lookup_insert_eq. case_bool_decide as E.
      * split; [by eexists |]. intros _. case_bool_decide; set_solver.
      * rewrite elem_of_remove. split; [by intros [? _] |]. intros (y & [= <-] & E'). done.
    + rewrite lookup_insert_ne, <- (wf_in _ _ Hwf) by done.
      case_bool_decide; [case_bool_decide; set_solver |]. rewrite elem_of_remove. naive_solver.
  - intros v j Hj. assert (is_Some (s_bufs s !! v)) as [b0 Hb0].
    { case_bool_decide as E; [by apply Hx |].
      apply elem_of_remove in Hj as [_ Hj]. by eapply (wf_home _ _ Hwf). }
    apply (f_equal (.!! v)) in Hh. unfold headless in Hh. rewrite !lookup_fmap, Hb0 in Hh.
    by destruct (s_bufs s' !! v).
Qed.

(** The marker [id] is nobody's point marker. *)
Definition not_point (s : store) (id : positive) : Prop :=
  forall v b, s_bufs s !! v = Some b -> mb_point_marker b <> id.

(** A well-formed store after a marker that is no point marker moved. *)
Lemma wf_moved s chains s' chains' id x :
  store_wf s chains -> not_point s id -> headless (s_bufs s') = headless (s_bufs s) ->
  visible s' = <[id := x]> (visible s) ->
  (forall v b, x.1.1 = Some v -> s_bufs s !! v = Some b -> valid_memind_p (mb_text b) x.1.2 = true) ->
  chains_wf s' chains' -> store_wf s' chains'.
Proof.
  intros Hwf Hnp Hh Hv Hp Hc. constructor; [done | | |].
  - intros v b Hb. destruct (headless_lookup _ _ _ _ Hh Hb) as (b0 & Hb0 & ->).
    apply (wf_mbuf _ _ Hwf _ _ Hb0).
  - intros v j y b Hy Ey Hb. destruct (headless_lookup _ _ _ _ Hh Hb) as (b0 & Hb0 & ->). rewrite Hv in Hy.
    destruct (decide (j = id)) as [-> | Hne].
    + rewrite lookup_insert_eq in Hy. injection Hy as <-. exact (Hp v b0 Ey Hb0).
    + rewrite lookup_insert_ne in Hy by done. exact (wf_place _ _ Hwf v j y b0 Hy Ey Hb0).
  - intros v b Hb Hl. destruct (headless_lookup _ _ _ _ Hh Hb) as (b0 & Hb0 & E).
    assert (mb_live b0 = true) as Hl0 by (by rewrite E in Hl).
    destruct (wf_point _ _ Hwf _ _ Hb0 Hl0) as [ty Hty]. exists ty.
    rewrite Hv, E. cbn [mb_point_marker mb_text mb_pt set_head].
    rewrite lookup_insert_ne; [done |]. intros Eid. by apply (Hnp v b0).
Qed.

Lemma unchain_run s chains id m :
  chains_wf s chains -> s_markers s !! id = Some m ->
  exists s', unchain_marker id s = (Done tt, s') /\ chains_wf s' (move id None chains) /\
    visible s' = <[id := (None, mr_memind m, mr_insertion_type m)]> (visible s) /\
    headless (s_bufs s') = headless (s_bufs s) /\ s_current s' = s_current s /\
    (exists m', s_markers s' !! id = Some m' /\ view m' = (None, mr_memind m, mr_insertion_type m)).
Proof.
  intros Hwf Hm. unfold unchain_marker. rewrite (op_bind_run _ _ _ _ _ (the_marker_run _ _ _ Hm)).
  destruct (mr_buffer m) as [v |] eqn:Eb.
  - assert (id ∈ chains v) as Hin.
    { apply (wf_in _ _ Hwf). exists (view m). unfold visible. by rewrite lookup_fmap, Hm. }
    destruct (wf_home _ _ Hwf _ _ Hin) as [b Hb]. destruct (wf_seg _ _ Hwf _ _ Hb) as (Hh & Hs & Hd).
    apply list_elem_of_split in Hin as (l1 & l2 & El). rewrite El in Hh, Hs, Hd.
    destruct (unlink_seg _ _ _ _ _ Hm Hd Hs) as (ms' & R & V & I & S & O).
    specialize (R (s_bufs s) (s_current s) v b Hb). destruct s as [ms bufs c]. cbn [s_markers s_bufs s_current] in *.
    rewrite (op_seq_run _ _ _ _ _ R). erewrite upd_marker_run by exact I. cbn [s_markers s_bufs s_current].
    set (bufs' := match l1 with [] => _ | _ => _ end).
    assert (headless bufs' = headless bufs) as Hhl
      by (unfold bufs'; destruct l1; [by apply headless_insert | done]).
    eexists. split; [reflexivity |].
    assert (view <$> <[id := set_buffer m None]> ms' =
      <[id := (None, mr_memind m, mr_insertion_type m)]> (view <$> ms)) as HV
      by (by rewrite fmap_insert, V).
    split_and!; try done; [| exists (set_buffer m None); cbn; by rewrite lookup_insert_eq].
    apply (chains_moved _ _ (mk_store (<[id := set_buffer m None]> ms') bufs' c) id _ Hwf Hhl HV);
      [done |]. cbn [s_bufs s_markers fst]. unfold move. intros u. rewrite bool_decide_eq_false_2 by done.
    intros bu Hbu. destruct (decide (u = v)) as [-> | Hne].
    + rewrite El, remove_split by done. split.
      * unfold bufs' in Hbu. destruct l1 as [| p l1]; cbn [app hd_or] in *.
        -- rewrite lookup_insert_eq in Hbu. by injection Hbu as <-.
        -- rewrite Hb in Hbu. injection Hbu as <-. done.
      * apply seg_insert; [| done]. apply NoDup_app in Hd as (_ & H1 & [H2 _]%NoDup_cons). set_solver.
    + assert (bufs !! u = Some bu) as Hbu' by (unfold bufs' in Hbu; destruct l1;
        [by rewrite lookup_insert_ne in Hbu | done]).
      destruct (wf_seg _ _ Hwf _ _ Hbu') as (Hh' & Hs' & _).
      assert (forall j, j ∈ chains u -> j ∉ chains v) as Hdis
        by (intros j Hj Hj'; apply Hne; by eapply wf_disjoint).
      rewrite remove_notin by (intros Hin; apply (Hdis id Hin); rewrite El; set_solver).
      split; [done |]. eapply seg_ext; [| exact Hs']. cbn. intros j Hj. specialize (Hdis j Hj). rewrite El in Hdis.
      rewrite lookup_insert_ne by set_solver. apply O. set_solver.
  - assert (visible s = <[id := (None, mr_memind m, mr_insertion_type m)]> (visible s)) as HV.
    { rewrite insert_id; [done |]. unfold visible. rewrite lookup_fmap, Hm. unfold view. cbn. by rewrite Eb. }
    exists s. split_and!; [done | | done | done | done |].
    + apply (chains_moved _ _ _ id _ Hwf eq_refl HV); [done |]. cbn [fst]. unfold move. intros u.
      rewrite bool_decide_eq_false_2 by done.
      intros bu Hbu. destruct (wf_seg _ _ Hwf _ _ Hbu) as (Hh & Hs & _).
      rewrite remove_notin; [done |]. intros Hin. apply (wf_in _ _ Hwf) in Hin as (x & Hx & Ex).
      unfold visible in Hx. rewrite lookup_fmap, Hm in Hx. injection Hx as <-. cbn in Ex. congruence.
    + exists m. split; [done |]. unfold view. by rewrite Eb.
Qed.

Lemma unchained_nowhere s chains id m v :
  chains_wf s chains -> s_markers s !! id = Some m -> mr_buffer m = None -> id ∉ chains v.
Proof.
  intros Hwf Hm Eb Hin. apply (wf_in _ _ Hwf) in Hin as (x & Hx & Ex).
  unfold visible in Hx. rewrite lookup_fmap, Hm in Hx. injection Hx as <-. cbn in Ex. congruence.
Qed.

Lemma join_run s chains id m v b :
  chains_wf s chains -> s_markers s !! id = Some m -> mr_buffer m = None -> s_bufs s !! v = Some b ->
  exists s', join_chain id v s = (Done tt, s') /\ chains_wf s' (move id (Some v) chains) /\
    visible s' = <[id := (Some v, mr_memind m, mr_insertion_type m)]> (visible s) /\
    headless (s_bufs s') = headless (s_bufs s) /\ s_current s' = s_current s.
Proof.
  intros Hwf Hm Eb Hb. destruct (wf_seg _ _ Hwf _ _ Hb) as (Hh & Hs & Hd).
  assert (forall u, id ∉ chains u) as Hno by (intros u; by eapply unchained_nowhere).
  unfold join_chain. rewrite (op_bind_run _ _ _ _ _ (the_buf_run _ _ _ Hb)).
  erewrite op_bind_run by by apply upd_marker_run. destruct s as [ms bufs c].
  cbn [s_markers s_bufs s_current] in *.
  set (m1 := set_prev (set_next (set_buffer m (Some v)) (mb_head b)) None).
  assert (exists ms2, (match mb_head b with Some h => upd_marker h (fun m => set_prev m (Some id)) | None => mret tt end)
      (mk_store (<[id := m1]> ms) bufs c) = (Done tt, mk_store ms2 bufs c) /\
    view <$> ms2 = <[id := (Some v, mr_memind m, mr_insertion_type m)]> (view <$> ms) /\
    seg ms2 None (id :: chains v) None /\ (forall j, j <> id -> j ∉ chains v -> ms2 !! j = ms !! j))
    as (ms2 & R & V & S & O).
  { rewrite Hh. destruct (chains v) as [| h l] eqn:El; cbn [hd_or].
    - exists (<[id := m1]> ms). split_and!; [done | by rewrite fmap_insert | |].
      + exists m1. rewrite lookup_insert_eq. unfold m1. by rewrite Hh.
      + intros j Hj _. by rewrite lookup_insert_ne.
    - destruct (seg_lookup _ _ _ _ h Hs) as [mh Hmh]; [set_solver |].
      assert (h <> id) as Hne by (intros ->; apply (Hno v); rewrite El; set_solver).
      assert (<[id := m1]> ms !! h = Some mh) as Hmh' by (by rewrite lookup_insert_ne).
      exists (<[h := set_prev mh (Some id)]> (<[id := m1]> ms)). split_and!.
      + by erewrite upd_marker_run.
      + erewrite view_insert; [by rewrite fmap_insert | exact Hmh' | done].
      + exists m1. rewrite lookup_insert_ne, lookup_insert_eq by done. split_and!; [done | done | |].
        * unfold m1. cbn. by rewrite Hh.
        * apply NoDup_cons in Hd as [Hd _]. eapply (seg_set_prev _ None); [done | | exact Hmh'].
          apply seg_insert; [| done]. rewrite <- El. apply Hno.
      + intros j Hj Hj'. rewrite !lookup_insert_ne by set_solver. done. }
  rewrite (op_bind_run _ _ _ _ _ R). erewrite upd_mbuf_run by exact Hb. cbn [s_markers s_bufs s_current].
  eexists. split; [reflexivity |].
  assert (headless (<[v := set_head b (Some id)]> bufs) = headless bufs) as Hhl by by apply headless_insert.
  split_and!; [| exact V | exact Hhl | done].
  apply (chains_moved _ _ (mk_store ms2 (<[v := set_head b (Some id)]> bufs) c) id _ Hwf Hhl V).
  { intros u [= <-]. by eexists. }
  cbn [s_bufs s_markers fst]. unfold move. intros u bu Hbu. rewrite (bool_decide_eq_false_2 (id ∈ _)) by apply Hno.
  destruct (decide (u = v)) as [-> | Hne].
  - rewrite bool_decide_eq_true_2 by done. rewrite lookup_insert_eq in Hbu. injection Hbu as <-. done.
  - rewrite bool_decide_eq_false_2 by congruence. rewrite lookup_insert_ne in Hbu by done.
    destruct (wf_seg _ _ Hwf _ _ Hbu) as (Hh' & Hs' & _). rewrite remove_notin by apply Hno.
    split; [done |]. eapply seg_ext; [| exact Hs']. intros j Hj. apply O.
    + intros ->. by apply (Hno u).
    + intros Hj'. apply Hne. by eapply wf_disjoint.
Qed.

(** ** Moving a marker *)

Lemma seg_same_links ms p l n id m m' :
  ms !! id = Some m -> mr_prev m' = mr_prev m -> mr_next m' = mr_next m ->
  seg ms p l n -> seg (<[id := m']> ms) p l n.
Proof.
  intros Hm Ep En. revert p. induction l as [| j l IH]; intros p; [done |]. cbn.
  intros (mj & Hj & Hp & Hn & Hs). destruct (decide (j = id)) as [-> | Hne].
  - rewrite Hm in Hj. injection Hj as <-. exists m'. rewrite lookup_insert_eq.
    split_and!; [done | congruence.. | by apply IH].
  - exists mj. rewrite lookup_insert_ne by done. split_and!; try done. by apply IH.
Qed.

Lemma chains_memind s chains id m x :
  chains_wf s chains -> s_markers s !! id = Some m ->
  chains_wf (mk_store (<[id := set_memind m x]> (s_markers s)) (s_bufs s) (s_current s)) chains.
Proof.
  intros Hwf Hm. constructor; cbn.
  - intros v b Hb. destruct (wf_seg _ _ Hwf _ _ Hb) as (H1 & H2 & H3). split_and!; [done | | done].
    by eapply seg_same_links.
  - intros v j. rewrite (wf_in _ _ Hwf). unfold visible. cbn. rewrite !lookup_fmap.
    destruct (decide (j = id)) as [-> | Hne].
    + rewrite lookup_insert_eq, Hm. cbn. split; intros (y & [= <-] & E); by eexists.
    + by rewrite lookup_insert_ne.
  - apply (wf_home _ _ Hwf).
Qed.

Lemma chains_ext s chains chains' :
  (forall v, chains' v = chains v) -> chains_wf s chains -> chains_wf s chains'.
Proof.
  intros E Hwf. constructor; intros v; rewrite E; [apply (wf_seg _ _ Hwf) | apply (wf_in _ _ Hwf) |].
  apply (wf_home _ _ Hwf).
Qed.

(** The position where a marker is put. *)
Definition marker_target (restricted_p : bool) (b : mbuf) (p : Z) : Z :=
  if restricted_p then clip (mb_begv b) (mb_zv b) p else clip BUF_BEG (t_z (mb_text b)) p.

Lemma marker_target_bounds s chains v b r p :
  store_wf s chains -> s_bufs s !! v = Some b -> 1 <= marker_target r b p <= t_z (mb_text b).
Proof.
  intros Hwf Hb. destruct (wf_mbuf _ _ Hwf _ _ Hb) as (Ht & H1 & H2 & H3). destruct Ht as [Hg _ _ _ _].
  unfold marker_target, clip, BUF_BEG. destruct r; zcase.
Qed.

(** The marker after its memory index is set, in its chain or in none. *)
Lemma rechain_run s chains id m v b x :
  chains_wf s chains -> s_markers s !! id = Some m -> s_bufs s !! v = Some b ->
  let s1 := mk_store (<[id := set_memind m x]> (s_markers s)) (s_bufs s) (s_current s) in
  exists s', (if bool_decide (mr_buffer m = Some v) then (Done tt, s1)
              else (_ ← unchain_marker id; join_chain id v) s1) = (Done tt, s') /\
    chains_wf s' (move id (Some v) chains) /\
    visible s' = <[id := (Some v, x, mr_insertion_type m)]> (visible s) /\
    headless (s_bufs s') = headless (s_bufs s).
Proof.
  intros Hwf Hm Hb s1. pose proof (chains_memind _ _ _ _ x Hwf Hm) as Hwf1. fold s1 in Hwf1.
  assert (visible s1 = <[id := (mr_buffer m, x, mr_insertion_type m)]> (visible s)) as V1
    by (unfold visible, s1; cbn; by rewrite fmap_insert).
  assert (forall u, id ∈ chains u <-> mr_buffer m = Some u) as Hin.
  { intros u. rewrite (wf_in _ _ Hwf). unfold visible. rewrite lookup_fmap, Hm. cbn.
    split; [by intros (y & [= <-] & E) | intros E; by eexists]. }
  case_bool_decide as E.
  - exists s1. split_and!; [done | | by rewrite V1, E | done].
    apply (chains_ext _ chains); [| done]. intros u. unfold move. case_bool_decide as Eu.
    + by rewrite bool_decide_eq_true_2 by (apply Hin; congruence).
    + apply remove_notin. rewrite Hin. congruence.
  - destruct (unchain_run s1 chains id (set_memind m x) Hwf1) as (s2 & R2 & Hwf2 & V2 & H2 & _ & m2 & Hm2 & Vm2).
    { unfold s1. cbn. by rewrite lookup_insert_eq. }
    injection Vm2 as Em1 Em2 Em3.
    destruct (headless_lookup (s_bufs s2) (s_bufs s1) v b) as (b2 & Hb2 & _); [done | done |].
    destruct (join_run s2 _ id m2 v b2 Hwf2 Hm2 Em1 Hb2) as (s3 & R3 & Hwf3 & V3 & H3 & _).
    exists s3. split_and!.
    + by rewrite (op_bind_run _ _ _ _ _ R2).
    + apply (chains_ext _ (move id (Some v) (move id None chains))); [| done]. intros u. unfold move.
      rewrite !(bool_decide_eq_false_2 (None = Some _)) by done. case_bool_decide as Eu.
      * injection Eu as <-. assert (id ∉ chains v) as Hno by (by rewrite Hin).
        rewrite (remove_notin _ _ Hno). done.
      * rewrite (remove_notin id (remove id _)); [done |]. rewrite elem_of_remove. naive_solver.
    + by rewrite V3, V2, V1, !insert_insert_eq, Em2, Em3.
    + by rewrite H3, H2.
Qed.

Lemma point_p_false s chains id m :
  store_wf s chains -> s_markers s !! id = Some m -> not_point s id -> POINT_MARKER_P id s = (Done false, s).
Proof.
  intros Hwf Hm Hnp. unfold POINT_MARKER_P. rewrite (op_bind_run _ _ _ _ _ (the_marker_run _ _ _ Hm)).
  destruct (mr_buffer m) as [u |] eqn:Eb; [| done].
  assert (id ∈ chains u) as Hin.
  { apply (wf_in _ _ (wf_chains _ _ Hwf)). exists (view m). unfold visible. by rewrite lookup_fmap, Hm. }
  destruct (wf_home _ _ (wf_chains _ _ Hwf) _ _ Hin) as [bu Hbu].
  rewrite (op_bind_run _ _ _ _ _ (the_buf_run _ _ _ Hbu)).
  rewrite bool_decide_eq_false_2; [done |]. intros ->. by apply (Hnp u bu).
Qed.

(** C11: set-marker puts a marker, other than a point marker, at the given position of
    the given buffer, clipped to the buffer's text or accessible part: it is taken out of
    the chain it was in and put in front of the other buffer's, all chains stay
    well-linked, no other marker is changed, and its position is read back. *)
Theorem set_marker_moves s chains id m position p buffer v b restricted_p :
  store_wf s chains -> s_markers s !! id = Some m -> not_point s id ->
  CHECK_INT_COERCE_MARKER position s = (Done p, s) ->
  decode_marker_buffer buffer s = (Done v, s) -> s_bufs s !! v = Some b ->
  NILP buffer = true \/ mb_live b = true ->
  let pos := marker_target restricted_p b p in
  exists s', set_marker_internal (LRec lrecord_marker id) position buffer restricted_p s =
      (Done (LRec lrecord_marker id), s') /\
    store_wf s' (move id (Some v) chains) /\
    visible s' = <[id := (Some v, bytind_to_memind (mb_text b) pos, mr_insertion_type m)]> (visible s) /\
    headless (s_bufs s') = headless (s_bufs s) /\
    marker_position id s' = (Done pos, s').
Proof.
  intros Hwf Hm Hnp Hp Hv Hb Hlive pos.
  pose proof (marker_target_bounds _ _ _ _ restricted_p p Hwf Hb) as Hpos. fold pos in Hpos.
  destruct (wf_mbuf _ _ Hwf _ _ Hb) as [Htext _].
  destruct (memind_of_bytind (mb_text b) pos Htext Hpos) as [Hvalid Hback].
  destruct (rechain_run s chains id m v b (bytind_to_memind (mb_text b) pos) (wf_chains _ _ Hwf) Hm Hb)
    as (s' & R & Hc & V & Hh).
  exists s'. assert (store_wf s' (move id (Some v) chains)) as Hwf'.
  { eapply wf_moved; try done. cbn. intros u bu [= <-] Hbu. rewrite Hb in Hbu. by injection Hbu as <-. }
  split_and!; try done.
  - unfold set_marker_internal. rewrite (op_bind_run _ _ s id s) by done.
    rewrite (op_bind_run _ _ _ _ _ (point_p_false _ _ _ _ Hwf Hm Hnp)).
    rewrite (op_bind_run _ _ s false s).
    2: { destruct position as [n | c | [] q]; try done. cbn in Hp.
      assert (NILP (LRec lrecord_marker q) = false) as -> by done.
      destruct (s_markers s !! q) as [mq |] eqn:Eq.
      - rewrite (op_bind_run _ _ _ _ _ (the_marker_run _ _ _ Eq)). unfold marker_position in Hp.
        rewrite (op_bind_run _ _ _ _ _ (the_marker_run _ _ _ Eq)) in Hp.
        destruct (mr_buffer mq); [done | discriminate].
      - unfold marker_position, mbind, op_bind, the_marker, read in Hp. by rewrite Eq in Hp. }
    rewrite (op_bind_run _ _ _ _ _ Hp), (op_bind_run _ _ _ _ _ Hv), (op_bind_run _ _ _ _ _ (the_buf_run _ _ _ Hb)).
    assert (negb (NILP buffer) && negb (mb_live b) = false) as -> by (destruct Hlive as [-> | ->]; by rewrite ?andb_false_r).
    cbv zeta. fold (marker_target restricted_p b p). fold pos.
    rewrite (op_bind_run _ _ _ _ _ (upd_marker_run id m _ s Hm)).
    erewrite op_bind_run by (apply the_marker_run; cbn; by rewrite lookup_insert_eq).
    cbn [mr_buffer set_memind]. case_bool_decide as E.
    + injection R as <-. done.
    + unfold mbind, op_bind in R |- *. cbv beta in R |- *.
      destruct (unchain_marker id _) as [[[] | |] s2]; try done.
      destruct (join_chain id v s2) as [[[] | |] s3]; try done. by injection R as <-.
  - pose proof V as Vi. apply (f_equal (.!! id)) in Vi. unfold visible in Vi.
    rewrite lookup_fmap, lookup_insert_eq in Vi. destruct (s_markers s' !! id) as [m' |] eqn:Em; [| done].
    injection Vi as E1 E2 E3. unfold marker_position, bi_marker_position.
    rewrite (op_bind_run _ _ _ _ _ (the_marker_run _ _ _ Em)), E1,
      (op_bind_run _ _ _ _ _ (the_marker_run _ _ _ Em)), E1.
    destruct (headless_lookup (s_bufs s') (s_bufs s) v b) as (b' & Hb' & E'); [done | done |].
    rewrite (op_bind_run _ _ _ _ _ (the_buf_run _ _ _ Hb')), E2.
    assert (mb_text b' = mb_text b) as -> by (by rewrite E'). by rewrite Hback.
Qed.

(** ** Taking a buffer's markers away *)

Definition cleared (m : marker_rec) : marker_rec :=
  mk_marker_rec None None None (mr_memind m) (mr_insertion_type m).

Lemma uninit_loop_run fuel p l s :
  (length l <= fuel)%nat -> NoDup l -> seg (s_markers s) p l None ->
  exists ms', uninit_loop fuel (hd_or l None) s = (Done tt, mk_store ms' (s_bufs s) (s_current s)) /\
    (forall j, ms' !! j = (if bool_decide (j ∈ l) then cleared else id) <$> s_markers s !! j).
Proof.
  revert fuel p s. induction l as [| id l IH]; intros fuel p s Hf Hd Hs.
  { exists (s_markers s). split; [by destruct fuel, s |]. intros j.
    rewrite bool_decide_eq_false_2 by set_solver. by destruct (s_markers s !! j). }
  destruct Hs as (m & Hm & Hp & Hn & Hs). apply NoDup_cons in Hd as [Hid Hd].
  destruct fuel as [| fuel]; [cbn in Hf; lia |]. cbn [hd_or uninit_loop].
  rewrite (op_bind_run _ _ _ _ _ (upd_marker_run id _ _ s Hm)).
  erewrite op_bind_run by (apply the_marker_run; cbn; by rewrite lookup_insert_eq).
  cbv zeta. cbn [mr_next set_buffer]. rewrite Hn.
  erewrite op_bind_run by (apply upd_marker_run; cbn; by rewrite lookup_insert_eq).
  set (s1 := mk_store _ _ _).
  assert (seg (s_markers s1) (Some id) l None) as Hs1.
  { eapply seg_ext; [| exact Hs]. intros j Hj. unfold s1. cbn. rewrite !lookup_insert_ne; [done | set_solver..]. }
  destruct (IH fuel (Some id) s1) as (ms' & R & E); [cbn in Hf; lia | done | done |].
  exists ms'. split; [exact R |]. intros j. rewrite E. unfold s1. cbn [s_markers].
  destruct (decide (j = id)) as [-> | Hne].
  - rewrite lookup_insert_eq, Hm, (bool_decide_eq_true_2 (id ∈ id :: l)), (bool_decide_eq_false_2 (id ∈ l)) by set_solver.
    done.
  - rewrite !lookup_insert_ne by done.
    assert (bool_decide (j ∈ id :: l) = bool_decide (j ∈ l)) as -> by (apply bool_decide_ext; set_solver). done.
Qed.

Lemma chain_size s chains v b :
  chains_wf s chains -> s_bufs s !! v = Some b -> (length (chains v) <= size (s_markers s))%nat.
Proof.
  intros Hwf Hb. destruct (wf_seg _ _ Hwf _ _ Hb) as (_ & Hs & Hd).
  rewrite <- (size_list_to_set (C := gset positive)), <- size_dom by done.
  apply subseteq_size. intros j Hj. apply elem_of_list_to_set in Hj. apply elem_of_dom. by eapply seg_lookup.
Qed.

(** Killing a buffer takes its markers away: [uninit_buffer_markers] follows the
    chain to its end, every marker of the buffer points nowhere and into no chain, the
    buffer has none, and all other markers and chains are as they were. *)
Theorem uninit_buffer_markers_clears s chains v b :
  chains_wf s chains -> s_bufs s !! v = Some b ->
  exists s', uninit_buffer_markers v s = (Done tt, s') /\
    chains_wf s' (fun u => if bool_decide (u = v) then [] else chains u) /\
    (forall j, visible s' !! j =
       (fun x => if bool_decide (j ∈ chains v) then (None, x.1.2, x.2) else x) <$> visible s !! j) /\
    headless (s_bufs s') = headless (s_bufs s).
Proof.
  intros Hwf Hb. destruct (wf_seg _ _ Hwf _ _ Hb) as (Hh & Hs & Hd).
  destruct (uninit_loop_run (size (s_markers s)) None (chains v) s (chain_size _ _ _ _ Hwf Hb) Hd Hs)
    as (ms' & R & E).
  assert (forall j, (view <$> ms') !! j =
    (fun x => if bool_decide (j ∈ chains v) then (None, x.1.2, x.2) else x) <$> visible s !! j) as V.
  { intros j. unfold visible. rewrite !lookup_fmap, E. destruct (s_markers s !! j); [| done]. cbn. by case_bool_decide. }
  eexists. split.
  { unfold uninit_buffer_markers. rewrite (op_bind_run _ _ _ _ _ (the_buf_run _ _ _ Hb)).
    rewrite (op_bind_run _ _ s (size (s_markers s)) s) by done. rewrite Hh, (op_bind_run _ _ _ _ _ R).
    by erewrite upd_mbuf_run. }
  cbn [s_bufs s_current s_markers].
  assert (headless (<[v := set_head b None]> (s_bufs s)) = headless (s_bufs s)) as Hhl by by apply headless_insert.
  split_and!; [constructor; cbn [s_bufs s_markers] | exact V | exact Hhl].
  - intros u bu Hbu. case_bool_decide as Eu.
    + subst u. rewrite lookup_insert_eq in Hbu. injection Hbu as <-. split_and!; [done | done | constructor].
    + rewrite lookup_insert_ne in Hbu by done. destruct (wf_seg _ _ Hwf _ _ Hbu) as (Hh' & Hs' & Hd').
      split_and!; [done | | done]. eapply seg_ext; [| exact Hs']. intros j Hj. rewrite E.
      rewrite bool_decide_eq_false_2; [by destruct (s_markers s !! j) |].
      intros Hj'. apply Eu. by eapply wf_disjoint.
  - intros u j. unfold visible at 1. cbn [s_markers]. rewrite V. case_bool_decide as Eu.
    + subst u. split; [set_solver |]. intros (x & Hx & Ex). destruct (visible s !! j) as [y |] eqn:Ey; [| done].
      cbn in Hx. case_bool_decide as Ej; injection Hx as <-; [done |].
      destruct Ej. apply (wf_in _ _ Hwf). by exists y.
    + rewrite (wf_in _ _ Hwf). split.
      * intros (y & Hy & Ey). exists y. rewrite Hy. cbn. rewrite bool_decide_eq_false_2; [done |].
        intros Hj. apply (wf_in _ _ Hwf) in Hj as (z & Hz & Ez). congruence.
      * intros (x & Hx & Ex). destruct (visible s !! j) as [y |] eqn:Ey; [| done].
        cbn in Hx. case_bool_decide; injection Hx as <-; [done |]. by exists y.
  - intros u j Hj. case_bool_decide as Eu; [set_solver |]. rewrite lookup_insert_ne by done.
    by eapply (wf_home _ _ Hwf).
Qed.

(** ** The theorems at work *)

(** Two buffers with the text "hello", the first narrowed to "el"; markers 1 and 3 are
    their point markers, marker 2 is in the first, marker 4 nowhere. *)
Definition sample_text : buffer_text :=
  mk_text [104; 101; 108; 108; 111] 6 6 0 0 1 0 (mk_text_changes 0 0 0 0 false).

Definition sample_markers : gmap positive marker_rec :=
  list_to_map [(1%positive, mk_marker_rec None (Some 2%positive) (Some 0%nat) 3 false);
               (2%positive, mk_marker_rec (Some 1%positive) None (Some 0%nat) 4 true);
               (3%positive, mk_marker_rec None None (Some 1%nat) 1 false);
               (4%positive, mk_marker_rec None None None 0 false)].

Definition sample_bufs : gmap nat mbuf :=
  list_to_map [(0%nat, mk_mbuf true sample_text 3 2 4 (Some 2%positive) 1 4);
               (1%nat, mk_mbuf true sample_text 1 1 6 (Some 3%positive) 3 4)].

Definition sample : store := mk_store sample_markers sample_bufs 0.

Definition sample_chains (v : nat) : list positive :=
  match v with 0%nat => [2; 1]%positive | 1%nat => [3%positive] | _ => [] end.

Lemma sample_buf v b :
  s_bufs sample !! v = Some b ->
  v = 0%nat /\ b = mk_mbuf true sample_text 3 2 4 (Some 2%positive) 1 4 \/
  v = 1%nat /\ b = mk_mbuf true sample_text 1 1 6 (Some 3%positive) 3 4.
Proof.
  cbn [s_bufs sample]. unfold sample_bufs. cbn [list_to_map foldr fst snd]. intros H.
  apply lookup_insert_Some in H as [[<- <-] | [_ H]]; [by left |].
  apply lookup_insert_Some in H as [[<- <-] | [_ H]]; [by right |]. by rewrite lookup_empty in H.
Qed.

Lemma sample_marker id x :
  visible sample !! id = Some x ->
  (id, x) ∈ [(1%positive, (Some 0%nat, 3, false)); (2%positive, (Some 0%nat, 4, true));
             (3%positive, (Some 1%nat, 1, false)); (4%positive, (None, 0, false))].
Proof.
  intros H. apply elem_of_map_to_list in H. revert H. rewrite !list_elem_of_In. vm_compute. tauto.
Qed.

Lemma sample_wf : store_wf sample sample_chains.
Proof.
  constructor; [constructor | | |].
  - intros v b [[-> ->] | [-> ->]]%sample_buf; (split_and!; [done | | repeat constructor; set_solver]);
      cbn [seg sample_chains]; repeat (eexists; split_and!; [vm_compute; reflexivity | done | done |]); done.
  - intros v id. split.
    + intros Hid. destruct v as [| [| v]]; cbn in Hid; [| | set_solver]; set_unfold in Hid;
        destruct_or! Hid; subst; by (eexists; split; [vm_compute; reflexivity |]).
    + intros (x & Hx%sample_marker & Ex). set_unfold in Hx. destruct_or! Hx; simplify_eq/=; set_solver.
  - intros [| [| v]] id Hid; cbn in Hid; [by eexists.. | set_solver].
  - intros v b [[-> ->] | [-> ->]]%sample_buf; (split; [constructor; cbn; lia | cbn; lia]).
  - intros v id x b Hx%sample_marker Ex [[-> ->] | [-> ->]]%sample_buf; set_unfold in Hx;
      destruct_or! Hx; by simplify_eq/=.
  - intros v b [[-> ->] | [-> ->]]%sample_buf _; by (eexists; vm_compute).
Qed.

(** The marker in the first buffer goes to the second, far beyond its end. *)
Lemma set_marker_moves_witness :
  exists s', set_marker_internal (LRec lrecord_marker 2) (LInt 100) (LBuffer 1) false sample =
      (Done (LRec lrecord_marker 2), s') /\
    store_wf s' (move 2 (Some 1%nat) sample_chains) /\
    visible s' = <[2%positive := (Some 1%nat, 6, true)]> (visible sample) /\
    headless (s_bufs s') = headless (s_bufs sample) /\
    marker_position 2 s' = (Done 6, s').
Proof.
  refine (set_marker_moves sample sample_chains 2 _ (LInt 100) 100 (LBuffer 1) 1 _ false sample_wf
    eq_refl _ eq_refl eq_refl eq_refl _); [| by right].
  intros v b [[-> ->] | [-> ->]]%sample_buf; done.
Defined.

Lemma uninit_buffer_markers_clears_witness :
  exists s', uninit_buffer_markers 0 sample = (Done tt, s') /\
    chains_wf s' (fun u => if bool_decide (u = 0%nat) then [] else sample_chains u) /\
    (forall j, visible s' !! j =
       (fun x => if bool_decide (j ∈ [2; 1]%positive) then (None, x.1.2, x.2) else x) <$> visible sample !! j) /\
    headless (s_bufs s') = headless (s_bufs sample).
Proof. exact (uninit_buffer_markers_clears sample sample_chains 0 _ (wf_chains _ _ sample_wf) eq_refl). Defined.

(** Through its point marker, point can be put outside the accessible part of a
    narrowed buffer; and an attempt to take the point marker into another buffer signals,
    but only after it has moved point there. *)
Example set_marker_on_point_marker :
  (exists s' b, Fset_marker (LRec lrecord_marker 1) (LInt 6) Qnil sample = (Done (LRec lrecord_marker 1), s') /\
     s_bufs s' !! 0%nat = Some b /\ mb_pt b = 6 /\ mb_zv b = 4) /\
  (exists s' b, Fset_marker (LRec lrecord_marker 1) (LInt 5) (LBuffer 1) sample =
     (Signal (Qerror "Can't change buffer of point-marker"), s') /\
     s_bufs s' !! 1%nat = Some b /\ mb_pt b = 5).
Proof. split; eexists _, _; split_and!; vm_compute; reflexivity. Qed.
