(* ===== verification/Editfns.v ===== *)
(** * Editing commands (src/src/insdel.c, editfns.c, buffer.c)

    The decoding of position arguments, and the Lisp functions that read and edit
    a buffer through [Insdel].  A buffer argument is given already decoded, as the
    number of the buffer; a Lisp string by its address.  The flags that tell
    redisplay that a mode line or a narrowing changed are left out, and so is the
    cache of the current column. *)

From S2P Require Import Prelude Lisp Buffer Scan Undo Insdel.

(** ** Position arguments *)

Definition bufpos_clip_to_bounds (lower num upper : Z) : Z :=
  if num <? lower then lower else if num >? upper then upper else num.

Definition GB_ALLOW_PAST_ACCESSIBLE : Z := Z.shiftl 1 0.
Definition GB_ALLOW_NIL : Z := Z.shiftl 1 1.
Definition GB_CHECK_ORDER : Z := Z.shiftl 1 2.
Definition GB_COERCE_RANGE : Z := Z.shiftl 1 3.
Definition GB_NO_ERROR_IF_BAD : Z := Z.shiftl 1 4.
Definition GB_NEGATIVE_FROM_END : Z := Z.shiftl 1 5.
Definition GB_HISTORICAL_STRING_BEHAVIOR : Z := Z.lor GB_NEGATIVE_FROM_END GB_ALLOW_NIL.

Definition flag (flags f : Z) : bool := negb (Z.land flags f =? 0).

(** [get_string_pos_char_1]. *)
Definition get_string_pos_char_1 (string pos : Lisp_Object) (flags known_length : Z) : result Z :=
  match pos with
  | LInt n =>
      let min_allowed := 0 in
      let max_allowed := known_length in
      let ccpos := if (n <? 0) && flag flags GB_NEGATIVE_FROM_END then n + max_allowed else n in
      if (ccpos <? min_allowed) || (ccpos >? max_allowed) then
        if flag flags GB_COERCE_RANGE
        then Ok (if ccpos <? min_allowed then min_allowed else max_allowed)
        else if flag flags GB_NO_ERROR_IF_BAD then Ok (-1)
        else Err (Qargs_out_of_range [string; pos])
      else Ok ccpos
  | _ => Err (Qwrong_type_argument "integerp" pos)
  end.

(** The common end of the functions that decode a range. *)
Definition order_range (from_out to_out flags : Z) : result (Z * Z) :=
  if (from_out >=? 0) && (to_out >=? 0) && (from_out >? to_out) then
    if flag flags GB_CHECK_ORDER
    then Err (Qerror "start greater than end")
    else Ok (to_out, from_out)
  else Ok (from_out, to_out).

Section Strings.
(** The contents of the Lisp strings. *)
Variable string_data : positive -> list Z.

Definition XSTRING_CHAR_LENGTH (s : positive) : Z := zlen (string_data s).

Definition get_string_pos_char (s : positive) (pos : Lisp_Object) (flags : Z) : result Z :=
  get_string_pos_char_1 (LRec lrecord_string s) pos flags (XSTRING_CHAR_LENGTH s).

Definition get_string_range_char (s : positive) (from to : Lisp_Object) (flags : Z)
  : result (Z * Z) :=
  let min_allowed := 0 in
  let max_allowed := XSTRING_CHAR_LENGTH s in
  let string := LRec lrecord_string s in
  let? from_out :=
    (if NILP from && flag flags GB_ALLOW_NIL then Ok min_allowed
     else get_string_pos_char_1 string from (Z.lor flags GB_NO_ERROR_IF_BAD) max_allowed) in
  let? to_out :=
    (if NILP to && flag flags GB_ALLOW_NIL then Ok max_allowed
     else get_string_pos_char_1 string to (Z.lor flags GB_NO_ERROR_IF_BAD) max_allowed) in
  if ((from_out <? 0) || (to_out <? 0)) && negb (flag flags GB_NO_ERROR_IF_BAD)
  then Err (Qargs_out_of_range [string; from; to])
  else order_range from_out to_out flags.

Section Commands.
Context {X : Type} `{Collaborators X}.
Variable realloc : Z -> option (list Z).

(** The position of a marker into another text. *)
Variable foreign_marker_position : positive -> option Z.

Definition lift {A} (r : result A) : M X A :=
  match r with Ok a => ret a | Err e => signal e end.

(** [marker_position]; a marker of these buffers is found in its buffer. *)
Definition find_marker (bs : list buffer) (id : positive) : option Lisp_Marker :=
  list_find (fun m => m_id m = id) (concat (map b_markers bs)) ≫= fun '(_, m) => Some m.

Definition marker_position (id : positive) : M X Z :=
  let! bs := get w_bufs in
  let! t := get w_text in
  match find_marker bs id with
  | Some m => ret (memind_to_bytind t (m_memind m))
  | None =>
      match foreign_marker_position id with
      | Some p => ret p
      | None => signal (Qerror "Marker does not point anywhere")
      end
  end.

Definition CHECK_INT_COERCE_MARKER (x : Lisp_Object) : M X Z :=
  match x with
  | LInt n => ret n
  | LRec lrecord_marker id => marker_position id
  | _ => signal (Qwrong_type_argument "integer-or-marker-p" x)
  end.

Definition make_buffer (v : nat) : Lisp_Object := LRec lrecord_buffer (Pos.of_succ_nat v).

(** The bounds of the positions allowed. *)
Definition allowed (t : buffer_text) (b : buffer) (flags : Z) : Z * Z :=
  if flag flags GB_ALLOW_PAST_ACCESSIBLE then (BUF_BEG, t_z t) else (b_begv b, b_zv b).

Definition get_buffer_pos_char (v : nat) (pos : Lisp_Object) (flags : Z) : M X Z :=
  let! ind := CHECK_INT_COERCE_MARKER pos in
  let! t := get w_text in
  let! b := get_buf v in
  let '(min_allowed, max_allowed) := allowed t b flags in
  if (ind <? min_allowed) || (ind >? max_allowed) then
    if flag flags GB_COERCE_RANGE
    then ret (if ind <? min_allowed then min_allowed else max_allowed)
    else if flag flags GB_NO_ERROR_IF_BAD then ret (-1)
    else signal (Qargs_out_of_range [make_buffer v; LInt ind])
  else ret ind.

Definition get_buffer_range_char (v : nat) (from to : Lisp_Object) (flags : Z) : M X (Z * Z) :=
  let! t := get w_text in
  let! b := get_buf v in
  let '(min_allowed, max_allowed) := allowed t b flags in
  let! from_out :=
    (if NILP from && flag flags GB_ALLOW_NIL then ret min_allowed
     else get_buffer_pos_char v from (Z.lor flags GB_NO_ERROR_IF_BAD)) in
  let! to_out :=
    (if NILP to && flag flags GB_ALLOW_NIL then ret max_allowed
     else get_buffer_pos_char v to (Z.lor flags GB_NO_ERROR_IF_BAD)) in
  if ((from_out <? 0) || (to_out <? 0)) && negb (flag flags GB_NO_ERROR_IF_BAD)
  then signal (Qargs_out_of_range [make_buffer v; from; to])
  else lift (order_range from_out to_out flags).

(** A buffer or a string. *)
Inductive object := OBuffer (v : nat) | OString (s : positive).

Definition get_buffer_or_string_pos_char (o : object) (pos : Lisp_Object) (flags : Z) : M X Z :=
  match o with
  | OString s => lift (get_string_pos_char s pos flags)
  | OBuffer v => get_buffer_pos_char v pos flags
  end.

Definition get_buffer_or_string_range_char (o : object) (from to : Lisp_Object) (flags : Z)
  : M X (Z * Z) :=
  match o with
  | OString s => lift (get_string_range_char s from to flags)
  | OBuffer v => get_buffer_range_char v from to flags
  end.

Definition buffer_or_string_accessible_begin_char (o : object) : M X Z :=
  match o with OString _ => ret 0 | OBuffer v => let! b := get_buf v in ret (b_begv b) end.
Definition buffer_or_string_accessible_end_char (o : object) : M X Z :=
  match o with
  | OString s => ret (XSTRING_CHAR_LENGTH s)
  | OBuffer v => let! b := get_buf v in ret (b_zv b)
  end.
Definition buffer_or_string_absolute_begin_char (o : object) : M X Z :=
  match o with OString _ => ret 0 | OBuffer v => ret BUF_BEG end.
Definition buffer_or_string_absolute_end_char (o : object) : M X Z :=
  match o with
  | OString s => ret (XSTRING_CHAR_LENGTH s)
  | OBuffer v => let! t := get w_text in ret (t_z t)
  end.

(** Byte positions: without Mule a character is a byte. *)
Definition get_buffer_pos_byte (v : nat) (pos : Lisp_Object) (flags : Z) : M X Z :=
  let! bpos := get_buffer_pos_char v pos flags in
  if bpos <? 0 then ret (-1) else ret bpos.

Definition get_buffer_range_byte (v : nat) (from to : Lisp_Object) (flags : Z) : M X (Z * Z) :=
  let! (s, e) := get_buffer_range_char v from to flags in
  ret (if s >=? 0 then s else -1, if e >=? 0 then e else -1).

(** ** Reading *)

Definition Fpoint (v : nat) : M X Z := let! b := get_buf v in ret (b_pt b).
Definition Fbuffer_size (v : nat) : M X Z := let! t := get w_text in ret (t_z t - BUF_BEG).
Definition Fpoint_min (v : nat) : M X Z := let! b := get_buf v in ret (b_begv b).
Definition Fpoint_max (v : nat) : M X Z := let! b := get_buf v in ret (b_zv b).

Definition FETCH (pos : Z) : M X Z := let! t := get w_text in of_option (BUF_FETCH_CHAR t pos).

Definition Ffollowing_char (v : nat) : M X Lisp_Object :=
  let! b := get_buf v in
  if b_pt b >=? b_zv b then ret (LInt 0)
  else let! c := FETCH (b_pt b) in ret (LChar c).

Definition Fpreceding_char (v : nat) : M X Lisp_Object :=
  let! b := get_buf v in
  if b_pt b <=? b_begv b then ret (LInt 0)
  else let! c := FETCH (b_pt b - 1) in ret (LChar c).

Definition Fbobp (v : nat) : M X bool := let! b := get_buf v in ret (b_pt b =? b_begv b).
Definition Feobp (v : nat) : M X bool := let! b := get_buf v in ret (b_pt b =? b_zv b).

Definition beginning_of_line_p (v : nat) (pt : Z) : M X bool :=
  let! b := get_buf v in
  if pt <=? b_begv b then ret true
  else let! c := FETCH (pt - 1) in ret (c =? 10).

Definition Fbolp (v : nat) : M X bool := let! b := get_buf v in beginning_of_line_p v (b_pt b).

Definition Feolp (v : nat) : M X bool :=
  let! b := get_buf v in
  if b_pt b =? b_zv b then ret true
  else let! c := FETCH (b_pt b) in ret (c =? 10).

Definition Fchar_after (v : nat) (pos : Lisp_Object) : M X Lisp_Object :=
  let! n := (if NILP pos then Fpoint v else get_buffer_pos_char v pos GB_NO_ERROR_IF_BAD) in
  let! b := get_buf v in
  if (n <? 0) || (n =? b_zv b) then ret Qnil
  else let! c := FETCH n in ret (LChar c).

Definition Fchar_before (v : nat) (pos : Lisp_Object) : M X Lisp_Object :=
  let! n := (if NILP pos then Fpoint v else get_buffer_pos_char v pos GB_NO_ERROR_IF_BAD) in
  let! b := get_buf v in
  let n := n - 1 in
  if n <? b_begv b then ret Qnil
  else let! c := FETCH n in ret (LChar c).

Definition Fbuffer_substring (v : nat) (start end_ : Lisp_Object) : M X (list Z) :=
  let! (begv, zv) := get_buffer_range_char v start end_ GB_ALLOW_NIL in
  let! t := get w_text in
  of_option (make_string_from_buffer t begv (zv - begv)).

(** The comparison loop; [trt] is the case table's canonical mapping. *)
Fixpoint compare_chars (n : nat) (i begp1 begp2 : Z) (trt : option (Z -> Z)) : M X (option Z) :=
  match n with
  | O => ret None
  | S n =>
      let! c1 := FETCH (begp1 + i) in
      let! c2 := FETCH (begp2 + i) in
      let c1 := match trt with Some f => f c1 | None => c1 end in
      let c2 := match trt with Some f => f c2 | None => c2 end in
      if c1 <? c2 then ret (Some (-1 - i))
      else if c1 >? c2 then ret (Some (i + 1))
      else compare_chars n (i + 1) begp1 begp2 trt
  end.

(** Both buffers on this text. *)
Definition Fcompare_buffer_substrings (v1 : nat) (start1 end1 : Lisp_Object) (v2 : nat)
    (start2 end2 : Lisp_Object) (trt : option (Z -> Z)) : M X Z :=
  let! (begp1, endp1) := get_buffer_range_char v1 start1 end1 GB_ALLOW_NIL in
  let! (begp2, endp2) := get_buffer_range_char v2 start2 end2 GB_ALLOW_NIL in
  let len1 := endp1 - begp1 in
  let len2 := endp2 - begp2 in
  let length := if len2 <? len1 then len2 else len1 in
  let! r := compare_chars (Z.to_nat length) 0 begp1 begp2 trt in
  match r with
  | Some r => ret r
  | None =>
      if length <? len1 then ret (length + 1)
      else if length <? len2 then ret (- length - 1)
      else ret 0
  end.

(** ** Point and narrowing *)

Definition Fgoto_char (v : nat) (position : Lisp_Object) : M X Z :=
  let! n := get_buffer_pos_char v position GB_COERCE_RANGE in
  set_buffer_point v n;;
  ret n.

Definition widen_buffer (v : nat) : M X unit :=
  let! t := get w_text in
  upd (upd_buf v (fun b => SET_BOTH_BUF_ZV (SET_BOTH_BUF_BEGV b BUF_BEG) (t_z t)));;
  upd (upd_ext (narrow_line_number_cache v)).

Definition Fwiden (v : nat) : M X unit := widen_buffer v.

Definition Fnarrow_to_region (v : nat) (start end_ : Lisp_Object) : M X unit :=
  let! (bp_start, bp_end) := get_buffer_range_char v start end_ GB_ALLOW_PAST_ACCESSIBLE in
  upd (upd_buf v (fun b => SET_BOTH_BUF_BEGV b bp_start));;
  upd (upd_buf v (fun b => SET_BOTH_BUF_ZV b bp_end));;
  let! b := get_buf v in
  (if b_pt b <? bp_start then set_buffer_point v bp_start else ret tt);;
  let! b := get_buf v in
  (if b_pt b >? bp_end then set_buffer_point v bp_end else ret tt);;
  upd (upd_ext (narrow_line_number_cache v)).

(** The buffer, and how much is hidden before and after its accessible part. *)
Definition save_restriction_save : M X (nat * Z * Z) :=
  let! v := get (fun w => g_current (w_glob w)) in
  let! t := get w_text in
  let! b := get_buf v in
  ret (v, b_begv b - BUF_BEG, t_z t - b_zv b).

Definition save_restriction_restore (data : nat * Z * Z) : M X unit :=
  let '(v, newhead, newtail) := data in
  let! b := get_buf v in
  if negb (b_live b) then ret tt else
  let! t := get w_text in
  let '(newhead, newtail) :=
    if newhead + newtail >? t_z t - BUF_BEG then (0, 0) else (newhead, newtail) in
  let start := BUF_BEG + newhead in
  let end_ := t_z t - newtail in
  (if negb (b_begv b =? start)
   then (upd (upd_buf v (fun b => SET_BOTH_BUF_BEGV b start));;
         upd (upd_ext (narrow_line_number_cache v))) else ret tt);;
  (if negb (b_zv b =? end_)
   then upd (upd_buf v (fun b => SET_BOTH_BUF_ZV b end_)) else ret tt);;
  let! b := get_buf v in
  set_buffer_point v (bufpos_clip_to_bounds (b_begv b) (b_pt b) (b_zv b)).

(** The restoration runs however the body ends. *)
Definition Fsave_restriction {A} (body : M X A) : M X A :=
  let! data := save_restriction_save in
  fun w =>
    let '(r, w) := body w in
    match save_restriction_restore data w with
    | (Done _, w) => (r, w)
    | (Signal e, w) => (Signal e, w)
    | (Fault, w) => (Fault, w)
    end.

(** ** Editing *)

(** [buffer_insert1]: a character, as such or as an integer, or a string. *)
Definition CHAR_OR_CHAR_INTP (x : Lisp_Object) : bool :=
  match x with
  | LChar _ => true
  | LInt n => (0 <=? n) && (n <=? 255)
  | _ => false
  end.

Definition XCHAR_OR_CHAR_INT (x : Lisp_Object) : Z :=
  match x with LChar c => c | LInt n => n | _ => 0 end.

Definition buffer_insert1 (v : nat) (arg : Lisp_Object) (flags : Z) : M X unit :=
  if CHAR_OR_CHAR_INTP arg
  then (buffer_insert_emacs_char_1 realloc v (-1) (XCHAR_OR_CHAR_INT arg) flags;; ret tt)
  else match arg with
  | LRec lrecord_string s =>
      (buffer_insert_lisp_string_1 realloc v (-1) (string_data s) flags;; ret tt)
  | _ => signal (Qwrong_type_argument "char-or-string-p" arg)
  end.

Fixpoint insert_args (v : nat) (args : list Lisp_Object) (flags : Z) : M X unit :=
  match args with
  | [] => ret tt
  | arg :: args => (buffer_insert1 v arg flags;; insert_args v args flags)
  end.

Definition Finsert (args : list Lisp_Object) : M X unit :=
  let! v := get (fun w => g_current (w_glob w)) in insert_args v args 0.

Definition Finsert_before_markers (args : list Lisp_Object) : M X unit :=
  let! v := get (fun w => g_current (w_glob w)) in insert_args v args INSDEL_BEFORE_MARKERS.

Definition Finsert_string (v : nat) (s : positive) : M X unit :=
  buffer_insert_lisp_string_1 realloc v (-1) (string_data s) 0;; ret tt.

(** [CHECK_CHAR_COERCE_INT]. *)
Definition CHECK_CHAR_COERCE_INT (x : Lisp_Object) : M X Z :=
  if CHAR_OR_CHAR_INTP x then ret (XCHAR_OR_CHAR_INT x)
  else signal (Qwrong_type_argument "characterp" x).

(** Whole chunks first. *)
Fixpoint insert_chunks (fuel : nat) (v : nat) (c n slen : Z) : M X Z :=
  match fuel with
  | O => fault
  | S fuel =>
      if n >=? slen then
        (buffer_insert_raw_string_1 realloc v (-1) (replicate (Z.to_nat slen) c) slen 0;;
         insert_chunks fuel v c (n - slen) slen)
      else ret n
  end.

Definition Finsert_char (character : Lisp_Object) (count : Lisp_Object) (v : nat) : M X unit :=
  let! c := CHECK_CHAR_COERCE_INT character in
  let! cou :=
    (match count with
     | LInt n => ret (to_int n)
     | _ => if NILP count then ret 1 else signal (Qwrong_type_argument "integerp" count)
     end) in
  let n := cou in
  if n <=? 0 then ret tt else
  let slen := Z.min n 768 in
  let! n := insert_chunks (S (Z.to_nat n)) v c n slen in
  if n >? 0
  then (buffer_insert_raw_string_1 realloc v (-1) (replicate (Z.to_nat n) c) n 0;; ret tt)
  else ret tt.

Definition Finsert_buffer_substring (v2 : nat) (start end_ : Lisp_Object) : M X unit :=
  let! (b, e) := get_buffer_range_char v2 start end_ GB_ALLOW_NIL in
  let! v := get (fun w => g_current (w_glob w)) in
  let! t := get w_text in
  if b <? e then (buffer_insert_from_buffer_1 realloc v (-1) t b (e - b) 0;; ret tt) else ret tt.

Definition Fdelete_region (start end_ : Lisp_Object) (v : nat) : M X unit :=
  let! (bp_start, bp_end) := get_buffer_range_char v start end_ 0 in
  buffer_delete_range v bp_start bp_end 0.

Definition Ftranspose_regions (start1 end1 start2 end2 : Lisp_Object) : M X unit :=
  let! v := get (fun w => g_current (w_glob w)) in
  let! (startr1, endr1) := get_buffer_range_char v start1 end1 0 in
  let! (startr2, endr2) := get_buffer_range_char v start2 end2 0 in
  let len1 := endr1 - startr1 in
  let len2 := endr2 - startr2 in
  if startr2 <? endr1 then signal (Qerror "transposed regions not properly ordered")
  else if (startr1 =? endr1) || (startr2 =? endr2)
  then signal (Qerror "transposed region may not be of length 0")
  else
    let! t := get w_text in
    let! string1 := of_option (make_string_from_buffer t startr1 len1) in
    let! string2 := of_option (make_string_from_buffer t startr2 len2) in
    buffer_delete_range v startr2 endr2 0;;
    buffer_insert_lisp_string_1 realloc v startr2 string1 0;;
    buffer_delete_range v startr1 endr1 0;;
    buffer_insert_lisp_string_1 realloc v startr1 string2 0;;
    ret tt.

(** [Fset_buffer_modified_p], with the locking of a build with CLASH_DETECTION. *)
Definition Fbuffer_modified_p (v : nat) : M X bool :=
  let! t := get w_text in ret (t_save_modiff t <? t_modiff t).

Definition Fset_buffer_modified_p (flag : bool) (v : nat) : M X unit :=
  let! t := get w_text in
  let already := t_save_modiff t <? t_modiff t in
  (if Bool.eqb already (negb flag) then call_hook (SetLock v flag) else ret tt);;
  upd (upd_text (fun t => set_modiff t (t_modiff t + 1)));;
  upd (upd_text (fun t => set_save_modiff t (if flag then 0 else t_modiff t))).

(** Code run in a multiple-change session. *)
Definition in_multiple_change_session (v : nat) (start end_ : Z) {A} (m : M X A) : M X A :=
  let! count := begin_multiple_change v start end_ in
  fun w =>
    match m w with
    | (Done a, w) =>
        match end_multiple_change v count w with
        | (Done _, w) => (Done a, w)
        | (Signal e, w) => (Signal e, w)
        | (Fault, w) => (Fault, w)
        end
    | (Signal e, w) =>
        if count : bool then
          match multiple_change_finish_up v w with
          | (Fault, w) => (Fault, w)
          | (Signal e', w) => (Signal e', w)
          | (Done _, w) => (Signal e, w)
          end
        else (Signal e, w)
    | (Fault, w) => (Fault, w)
    end.

Fixpoint subst_loop (n : nat) (v : nat) (pos fromc toc : Z) (noundo : bool) : M X unit :=
  match n with
  | O => ret tt
  | S n =>
      let! c := FETCH pos in
      (if c =? fromc then
         buffer_replace_char v pos toc noundo false;;
         (if noundo
          then let! m := Fbuffer_modified_p v in Fset_buffer_modified_p m v
          else ret tt)
       else ret tt);;
      subst_loop n v (pos + 1) fromc toc noundo
  end.

Definition set_filename (b : buffer) (f : bool) : buffer :=
  mk_buffer (b_live b) (b_pt b) (b_begv b) (b_zv b) (b_changes b) (b_markers b)
    (b_point_marker b) (b_undo_list b) (b_read_only b) (b_inhibit_read_only b)
    f (b_modtime b) (b_point_before_scroll b).

Definition Fsubst_char_in_region (start end_ fromchar tochar : Lisp_Object) (noundo : bool)
  : M X unit :=
  let! v := get (fun w => g_current (w_glob w)) in
  let! (pos, stop) := get_buffer_range_char v start end_ 0 in
  let! fromc := CHECK_CHAR_COERCE_INT fromchar in
  let! toc := CHECK_CHAR_COERCE_INT tochar in
  let body :=
    in_multiple_change_session v pos stop
      (subst_loop (Z.to_nat (stop - pos)) v pos fromc toc noundo) in
  if noundo then
    let! b := get_buf v in
    unwind_protect
      (upd (upd_buf v (fun b => set_undo_list b None));;
       upd (upd_buf v (fun b => set_filename b false));;
       body)
      (fun w => upd_buf v (fun b' => set_undo_list b' (b_undo_list b))
                  (upd_buf v (fun b' => set_filename b' (b_filename b)) w))
  else body.

(** The tables of [Ftranslate_region]; a char table is what [get_char_table] looks
    up in it. *)
Inductive translation :=
| StringTable (s : positive)
| VectorTable (elts : list Lisp_Object)
| CharTable (get_char_table : Z -> Lisp_Object)
| BadTable (x : Lisp_Object).

(** What the table says of a character; [None] is no replacement at all. *)
Definition translate_char (table : translation) (oc : Z) : option Lisp_Object :=
  match table with
  | StringTable s => LChar <$> zget (string_data s) oc
  | VectorTable elts => zget elts oc
  | CharTable get_char_table => Some (get_char_table oc)
  | BadTable _ => None
  end.

(** One character; the result is how much longer the text became, and whether a
    substitution was made. *)
Definition translate_one (v : nat) (table : translation) (pos : Z) : M X (Z * Z) :=
  let! oc := FETCH pos in
  match translate_char table oc with
  | None => ret (0, 0)
  | Some replacement =>
      if CHAR_OR_CHAR_INTP replacement then
        let nc := XCHAR_OR_CHAR_INT replacement in
        if nc =? oc then ret (0, 0)
        else (buffer_replace_char v pos nc false false;; ret (0, 1))
      else match replacement with
      | LRec lrecord_string s =>
          (buffer_delete_range v pos (pos + 1) 0;;
           buffer_insert_lisp_string_1 realloc v pos (string_data s) 0;;
           ret (XSTRING_CHAR_LENGTH s - 1, 1))
      | _ =>
          if NILP replacement then ret (0, 0)
          else signal (Qwrong_type_argument "char-or-string-p" replacement)
      end
  end.

(** [pos] and [stop] move by the same amount when the text grows, so there are as
    many steps as characters. *)
Fixpoint translate_loop (n : nat) (v : nat) (table : translation) (pos cnt : Z) : M X Z :=
  match n with
  | O => ret cnt
  | S n =>
      let! (incr, c) := translate_one v table pos in
      translate_loop n v table (pos + incr + 1) (cnt + c)
  end.

Definition Ftranslate_region (start end_ : Lisp_Object) (table : translation) : M X Z :=
  let! v := get (fun w => g_current (w_glob w)) in
  let! (pos, stop) := get_buffer_range_char v start end_ 0 in
  in_multiple_change_session v pos stop
    (match table with
     | BadTable x => signal (Qwrong_type_argument "stringp" x)
     | _ => translate_loop (Z.to_nat (stop - pos)) v table pos 0
     end).
End Commands.
End Strings.
