(* ===== verification/Commands.v ===== *)
(** * The editing commands are correct

    Theorems about the commands of [Editfns]: what they make of their arguments,
    and what they do to the text when the hooks are silent. *)

From S2P Require Import Prelude Lisp Buffer Scan Undo Insdel Gap Hooks EditSpec Edit.
From S2P Require Import Insertion Deletion Editing Editfns.

(** ** Edits with silent hooks *)

Section Silent.
Context {X : Type} `{Collaborators X}.
Variable realloc : Z -> option (list Z).
Hypothesis silent : hooks_ok (X := X) eq.

(** The end of an edit that cannot go wrong half-way. *)
Definition becomes (a : astate) (w : world X) : Prop := abs_world w = a /\ world_wf w.

Lemma insert_string_silent v b pos src offset length flags n bytes (w : world X) :
  world_wf w -> w_bufs w !! v = Some b -> b_live b = true ->
  fixup_internal_substring src offset length = Some n ->
  mem_read (source_bytes src) offset n = Some bytes -> room eq (abs_world w) n ->
  wp (buffer_insert_string_1 realloc v pos src offset length flags)
    (fun _ => becomes (spec_insert v (a_clip (abs_buf (w_text w) b) (if pos =? -1 then b_pt b else pos))
                         bytes (pos =? -1) (bm_flag flags) (abs_world w)))
    (fun _ => world_wf) w.
Proof.
  intros Hwf Hb Hl Hn Hm Hroom. pose proof (abs_lookup _ _ _ Hb) as Hab.
  eapply wp_mono; [eapply (insertion realloc eq silent v pos src offset length flags) | |]; try done.
  - intros r w' [[_ He] | [_ [[_ Ha] (b' & Hb' & Hd)]]].
    + by apply (edited_eq _ _ _ _ _ He Hab).
    + rewrite <- Ha, Hab in Hb'. injection Hb' as <-. cbn in Hd. congruence.
  - intros e w' [[? _] | [? _]]; done.
Qed.

Lemma source_all (str : list Z) :
  fixup_internal_substring (Reloc str) 0 (zlen str) = Some (zlen str) /\
  fixup_internal_substring (NonReloc str) 0 (zlen str) = Some (zlen str) /\
  mem_read str 0 (zlen str) = Some str.
Proof.
  unfold fixup_internal_substring, mem_read. zdec. by rewrite drop_0, take_ge by lia.
Qed.

Lemma insert_silent v b pos str flags (w : world X) :
  world_wf w -> w_bufs w !! v = Some b -> b_live b = true -> room eq (abs_world w) (zlen str) ->
  wp (buffer_insert_lisp_string_1 realloc v pos str flags)
    (fun _ => becomes (spec_insert v (a_clip (abs_buf (w_text w) b) (if pos =? -1 then b_pt b else pos))
                         str (pos =? -1) (bm_flag flags) (abs_world w)))
    (fun _ => world_wf) w.
Proof. destruct (source_all str) as (? & _ & ?). intros. by eapply insert_string_silent. Qed.

Lemma insert_raw_silent v b pos str flags (w : world X) :
  world_wf w -> w_bufs w !! v = Some b -> b_live b = true -> room eq (abs_world w) (zlen str) ->
  wp (buffer_insert_raw_string_1 realloc v pos str (zlen str) flags)
    (fun _ => becomes (spec_insert v (a_clip (abs_buf (w_text w) b) (if pos =? -1 then b_pt b else pos))
                         str (pos =? -1) (bm_flag flags) (abs_world w)))
    (fun _ => world_wf) w.
Proof. destruct (source_all str) as (_ & ? & ?). intros. by eapply insert_string_silent. Qed.

Lemma delete_silent v b from to flags (w : world X) :
  world_wf w -> w_bufs w !! v = Some b -> b_live b = true ->
  b_begv b <= from -> from < to -> to <= b_zv b -> whole (abs_world w) from to ->
  wp (buffer_delete_range v from to flags)
    (fun _ => becomes (spec_delete from to (abs_world w))) (fun _ => world_wf) w.
Proof.
  intros Hwf Hb Hl Hf Hft Hz Hwhole. pose proof (abs_lookup _ _ _ Hb) as Hab.
  assert (a_clip_range (abs_buf (w_text w) b) (from, to) = (from, to)) as Hr.
  { unfold a_clip_range. cbn. f_equal; lia. }
  eapply wp_mono; [eapply (deletion eq silent v from to flags b) | |]; try done; rewrite ?Hr.
  - intros a ba <- Hba _. rewrite Hab in Hba. injection Hba as <-. by rewrite Hr.
  - intros _ w' [He | [[[_ Ha] (b' & Hb' & Hd)] | [[_ Ha] (b' & Hb' & Hd)]]].
    + destruct (edited_eq _ _ _ _ _ He Hab) as [Ha ?]. split; [| done].
      rewrite Ha. unfold delete_edit. by rewrite Hr.
    + rewrite <- Ha, Hab in Hb'. injection Hb' as <-. cbn in Hd. congruence.
    + rewrite <- Ha, Hab in Hb'. injection Hb' as <-. rewrite Hr in Hd. cbn in Hd. lia.
  - intros e w' [[? _] | [? _]]; done.
Qed.

Lemma replace_silent v b pos ch not_real force (w : world X) :
  world_wf w -> w_bufs w !! v = Some b -> b_live b = true -> b_begv b <= pos < b_zv b ->
  wp (buffer_replace_char v pos ch not_real force)
    (fun _ => becomes (spec_replace pos ch (negb not_real) (abs_world w)))
    (fun _ w' => world_wf w' /\ length (w_bufs w') = length (w_bufs w)) w.
Proof.
  intros Hwf Hb Hl Hp. pose proof (abs_lookup _ _ _ Hb) as Hab.
  pose proof (Forall_lookup_1 _ _ _ _ (wf_bufs _ Hwf) Hb) as Hwb. unfold live_wf in Hwb.
  rewrite Hl in Hwb. destruct Hwb as [Hb1 Hb2 Hb3 _].
  eapply wp_mono; [eapply (replacement eq silent v pos ch not_real force b) | |]; try done; [lia | |].
  - intros _ w' [He | [[_ Ha] (b' & Hb' & Hd)]].
    + destruct (edited_eq _ _ _ _ _ He Hab) as [Ha ?]. split; [| done]. rewrite Ha.
      unfold replace_edit, a_clip_char. cbn [a_begv a_zv abs_buf].
      replace (Z.min (Z.max pos (b_begv b)) (b_zv b - 1)) with pos by lia. by zdec.
    + rewrite <- Ha, Hab in Hb'. injection Hb' as <-. cbn in Hd. congruence.
  - intros e w' [Hu | He].
    + split; [apply Hu | by apply (hooked_length eq silent)].
    + destruct (edited_eq _ _ _ _ _ He Hab) as [Ha ?]. split; [done |].
      rewrite <- !length_abs, Ha. unfold replace_edit. case_match; [done | apply length_spec_replace].
Qed.
End Silent.

(** ** Position arguments *)

Section Arguments.
Context {X : Type} `{Collaborators X}.
Variable foreign : positive -> option Z.

(** What a position argument stands for: an integer, or a marker's position. *)
Definition position_of (w : world X) (x : Lisp_Object) (p : Z) : Prop :=
  CHECK_INT_COERCE_MARKER foreign x w = (Done p, w).

Lemma position_of_int (w : world X) n : position_of w (LInt n) n.
Proof. done. Qed.

Lemma position_of_NILP (w : world X) x p : position_of w x p -> NILP x = false.
Proof.
  unfold position_of, NILP. intros E. apply EQ_false. intros ->. discriminate.
Qed.

Lemma pos_char_run v b x p flags (w : world X) :
  w_bufs w !! v = Some b -> position_of w x p ->
  let '(lo, hi) := allowed (w_text w) b flags in
  get_buffer_pos_char foreign v x flags w =
  (if (p <? lo) || (p >? hi) then
     if flag flags GB_COERCE_RANGE then Done (if p <? lo then lo else hi)
     else if flag flags GB_NO_ERROR_IF_BAD then Done (-1)
     else Signal (Qargs_out_of_range [make_buffer v; LInt p])
   else Done p, w).
Proof.
  intros Hb Hp. destruct (allowed (w_text w) b flags) as [lo hi] eqn:Ea.
  unfold get_buffer_pos_char, bind. rewrite Hp. unfold get, get_buf. rewrite Hb. cbn [of_option ret].
  rewrite Ea. by repeat case_match.
Qed.

Lemma flag_lor flags f g : flag (Z.lor flags f) g = flag flags g || flag f g.
Proof.
  unfold flag. rewrite Z.land_lor_distr_l.
  assert ((Z.lor (Z.land flags g) (Z.land f g) =? 0) =
    (Z.land flags g =? 0) && (Z.land f g =? 0)) as ->; [| by destruct (_ =? 0), (_ =? 0)].
  apply Bool.eq_iff_eq_true. rewrite andb_true_iff, !Z.eqb_eq. apply Z.lor_eq_0_iff.
Qed.

Lemma allowed_lor t b flags : allowed t b (Z.lor flags GB_NO_ERROR_IF_BAD) = allowed t b flags.
Proof. unfold allowed. rewrite flag_lor. by destruct (flag flags _). Qed.

(** Both positions of a range. *)
Lemma range_arguments v b from to f t flags (w : world X) :
  world_wf w -> w_bufs w !! v = Some b -> b_live b = true ->
  position_of w from f -> position_of w to t ->
  flag flags GB_COERCE_RANGE = false -> flag flags GB_NO_ERROR_IF_BAD = false ->
  let '(lo, hi) := allowed (w_text w) b flags in
  1 <= lo <= hi /\
  get_buffer_range_char foreign v from to flags w =
  (if (lo <=? f) && (f <=? hi) && (lo <=? t) && (t <=? hi) then
     if f <=? t then Done (f, t)
     else if flag flags GB_CHECK_ORDER then Signal (Qerror "start greater than end")
     else Done (t, f)
   else Signal (Qargs_out_of_range [make_buffer v; from; to]), w).
Proof.
  intros Hwf Hb Hl Hf Ht Hc Hn.
  pose proof (Forall_lookup_1 _ _ _ _ (wf_bufs _ Hwf) Hb) as Hwb. unfold live_wf in Hwb.
  rewrite Hl in Hwb. destruct Hwb as [Hb1 Hb2 Hb3 _]. destruct (wf_text _ Hwf) as [Hg _ _ _ _].
  destruct (allowed (w_text w) b flags) as [lo hi] eqn:Ea.
  assert (1 <= lo <= hi) as Hlo.
  { unfold allowed, BUF_BEG in Ea.
    destruct (flag flags GB_ALLOW_PAST_ACCESSIBLE); injection Ea as <- <-; lia. }
  split; [done |]. unfold get_buffer_range_char, bind at 1 2, get, get_buf. rewrite Hb.
  cbn [of_option ret]. rewrite Ea, (position_of_NILP _ _ _ Hf), (position_of_NILP _ _ _ Ht).
  cbn [andb].
  pose proof (pos_char_run v b from f (Z.lor flags GB_NO_ERROR_IF_BAD) w Hb Hf) as Ef.
  pose proof (pos_char_run v b to t (Z.lor flags GB_NO_ERROR_IF_BAD) w Hb Ht) as Et.
  rewrite allowed_lor, Ea, !flag_lor, Hc, Hn in Ef, Et.
  change (flag GB_NO_ERROR_IF_BAD GB_COERCE_RANGE) with false in Ef, Et.
  change (flag GB_NO_ERROR_IF_BAD GB_NO_ERROR_IF_BAD) with true in Ef, Et. cbn [orb] in Ef, Et.
  assert (forall p, (p <? lo) || (p >? hi) = negb ((lo <=? p) && (p <=? hi))) as Hneg.
  { intros p. rewrite Z.gtb_ltb, negb_andb, <- Z.ltb_antisym, <- Z.ltb_antisym. done. }
  rewrite Hneg in Ef, Et. unfold bind. rewrite Ef, Hn. cbn [negb andb].
  destruct ((lo <=? f) && (f <=? hi)) eqn:E1; cbn [negb andb] in *; rewrite Et;
    [destruct (lo <=? t) eqn:E2; cbn [andb negb] in *; [destruct (t <=? hi) eqn:E3; cbn [negb] in * |] |].
  - apply andb_prop in E1 as [E1 _]. rewrite (proj2 (Z.ltb_ge f 0)), (proj2 (Z.ltb_ge t 0)) by lia.
    unfold order_range, lift. rewrite !(proj2 (Z.geb_le _ _)) by lia. cbn [orb andb].
    rewrite Z.gtb_ltb. destruct (Z.leb_spec f t); [by rewrite (proj2 (Z.ltb_ge t f)) by lia |].
    rewrite (proj2 (Z.ltb_lt t f)) by lia. by destruct (flag flags GB_CHECK_ORDER).
  - change (-1 <? 0) with true. by rewrite orb_true_r.
  - change (-1 <? 0) with true. by rewrite orb_true_r.
  - change (-1 <? 0) with true. by destruct ((lo <=? t) && (t <=? hi)).
Qed.

(** The two positions of a range, integers or markers, decoded without flags
    that ask for anything else: if both are in the accessible part (or, with
    GB_ALLOW_PAST_ACCESSIBLE, in the text), the range comes out in ascending
    order, or, with GB_CHECK_ORDER, a descending one is refused; if one is outside,
    an error names the buffer and both; and in no case does the state change. *)
Theorem buffer_range_arguments v b from to f t flags (w : world X) :
  world_wf w -> w_bufs w !! v = Some b -> b_live b = true ->
  position_of w from f -> position_of w to t ->
  flag flags GB_COERCE_RANGE = false -> flag flags GB_NO_ERROR_IF_BAD = false ->
  let '(lo, hi) := allowed (w_text w) b flags in
  1 <= lo <= hi /\
  get_buffer_range_char foreign v from to flags w =
  (if (lo <=? f) && (f <=? hi) && (lo <=? t) && (t <=? hi) then
     if f <=? t then Done (f, t)
     else if flag flags GB_CHECK_ORDER then Signal (Qerror "start greater than end")
     else Done (t, f)
   else Signal (Qargs_out_of_range [make_buffer v; from; to]), w).
Proof. apply range_arguments. Qed.

Lemma coerce_state (w : world X) x r w' : CHECK_INT_COERCE_MARKER foreign x w = (r, w') -> w' = w.
Proof.
  unfold CHECK_INT_COERCE_MARKER, marker_position, bind, get, ret, signal.
  destruct x as [n | c | [] id]; try (by intros [= _ <-]).
  destruct (find_marker _ _); [by intros [= _ <-] |].
  by destruct (foreign id); intros [= _ <-].
Qed.

Lemma pos_char_Done v b x flags (w w' : world X) r :
  w_bufs w !! v = Some b -> flag flags GB_COERCE_RANGE = false ->
  get_buffer_pos_char foreign v x flags w = (Done r, w') ->
  let '(lo, hi) := allowed (w_text w) b flags in
  w' = w /\ (lo <= r <= hi \/ r = -1).
Proof.
  intros Hb Hc E. unfold get_buffer_pos_char, bind in E.
  destruct (CHECK_INT_COERCE_MARKER foreign x w) as [r1 w1] eqn:E1.
  apply coerce_state in E1 as ->. destruct r1 as [p | |]; [| done | done].
  unfold get, get_buf in E. rewrite Hb in E. cbn [of_option ret] in E.
  destruct (allowed (w_text w) b flags) as [lo hi]. rewrite Hc in E.
  destruct ((p <? lo) || (p >? hi)) eqn:Ep.
  - destruct (flag flags GB_NO_ERROR_IF_BAD); [| done]. injection E as <- <-. auto.
  - injection E as <- <-. split; [done |]. left. zcase.
Qed.

(** A range that was decoded. *)
Lemma range_char_Done v b from to flags (w w' : world X) r :
  world_wf w -> w_bufs w !! v = Some b -> b_live b = true ->
  flag flags GB_COERCE_RANGE = false -> flag flags GB_NO_ERROR_IF_BAD = false ->
  get_buffer_range_char foreign v from to flags w = (Done r, w') ->
  let '(lo, hi) := allowed (w_text w) b flags in
  w' = w /\ 1 <= lo /\ lo <= r.1 /\ r.1 <= r.2 /\ r.2 <= hi /\ hi <= t_z (w_text w).
Proof.
  intros Hwf Hb Hl Hc Hn E.
  pose proof (Forall_lookup_1 _ _ _ _ (wf_bufs _ Hwf) Hb) as Hwb. unfold live_wf in Hwb.
  rewrite Hl in Hwb. destruct Hwb as [Hb1 Hb2 Hb3 _]. destruct (wf_text _ Hwf) as [Hg _ _ _ _].
  assert (forall x w0 p, get_buffer_pos_char foreign v x (Z.lor flags GB_NO_ERROR_IF_BAD) w = (Done p, w0) ->
    let '(lo, hi) := allowed (w_text w) b flags in w0 = w /\ (lo <= p <= hi \/ p = -1)) as Hpos.
  { intros x w0 p Ex. apply (pos_char_Done v b) in Ex; [| done |].
    - rewrite allowed_lor in Ex. done.
    - rewrite flag_lor, Hc. done. }
  destruct (allowed (w_text w) b flags) as [lo hi] eqn:Ea.
  assert (1 <= lo <= hi /\ hi <= t_z (w_text w)) as [Hlo Hhi].
  { unfold allowed, BUF_BEG in Ea.
    destruct (flag flags GB_ALLOW_PAST_ACCESSIBLE); injection Ea as <- <-; lia. }
  unfold get_buffer_range_char, bind at 1 2, get, get_buf in E. rewrite Hb in E.
  cbn [of_option ret] in E. rewrite Ea in E.
  assert (forall x dflt w0 p, lo <= dflt <= hi ->
    (if NILP x && flag flags GB_ALLOW_NIL then ret dflt
     else get_buffer_pos_char foreign v x (Z.lor flags GB_NO_ERROR_IF_BAD)) w = (Done p, w0) ->
    w0 = w /\ (lo <= p <= hi \/ p = -1)) as Hout.
  { intros x dflt w0 p Hd. destruct (NILP x && _); [| apply Hpos]. intros [= <- <-]. auto. }
  unfold bind at 1 in E. destruct ((if NILP from && flag flags GB_ALLOW_NIL then ret lo
    else get_buffer_pos_char foreign v from (Z.lor flags GB_NO_ERROR_IF_BAD)) w) as [[f | |] w1] eqn:E1; try done.
  apply Hout in E1 as [-> Hf]; [| lia].
  unfold bind in E. destruct ((if NILP to && flag flags GB_ALLOW_NIL then ret hi
    else get_buffer_pos_char foreign v to (Z.lor flags GB_NO_ERROR_IF_BAD)) w) as [[g | |] w1] eqn:E2; try done.
  apply Hout in E2 as [-> Ht]; [| lia]. rewrite Hn in E. cbn [negb] in E. rewrite andb_true_r in E.
  destruct ((f <? 0) || (g <? 0)) eqn:E3; [done |]. apply orb_false_iff in E3 as [E3 E4].
  apply Z.ltb_ge in E3, E4. unfold order_range, lift in E.
  rewrite (proj2 (Z.geb_le f 0)), (proj2 (Z.geb_le g 0)), Z.gtb_ltb in E by lia. cbn [andb] in E.
  destruct (Z.ltb_spec g f); [destruct (flag flags GB_CHECK_ORDER); [done |] |];
    injection E as <- <-; cbn [fst snd]; split; [done | lia | done | lia].
Qed.
End Arguments.

(** ** Comparison *)

(** The comparison of the texts: the sign says which is less, the size after how
    many equal characters, counted from 1. *)
Fixpoint compare_ref (l1 l2 : list Z) (i : Z) : Z :=
  match l1, l2 with
  | [], [] => 0
  | [], _ => - i - 1
  | _, [] => i + 1
  | c1 :: l1, c2 :: l2 =>
      if c1 <? c2 then -1 - i else if c1 >? c2 then i + 1 else compare_ref l1 l2 (i + 1)
  end.

Section Comparison.
Context {X : Type}.

Lemma FETCH_run pos (w : world X) c :
  world_wf w -> 1 <= pos < t_z (w_text w) -> zget (text_str (w_text w)) (pos - 1) = Some c ->
  FETCH pos w = (Done c, w).
Proof.
  intros Hwf Hp Hc. unfold FETCH, bind, get. by rewrite BUF_FETCH_CHAR_str, Hc by (done || apply Hwf).
Qed.

Lemma region_cons (t : buffer_text) pos lim :
  text_wf t -> 1 <= pos < lim -> lim <= t_z t ->
  exists c, zget (text_str t) (pos - 1) = Some c /\ region t pos lim = c :: region t (pos + 1) lim.
Proof.
  intros Ht Hp Hl. pose proof (length_text_str t Ht) as HL.
  destruct (zget_is_Some (text_str t) (pos - 1)) as [c Hc]; [lia |]. exists c. split; [done |].
  unfold region, slice. rewrite zget_lookup in Hc by lia. rewrite (drop_S _ c) by done.
  replace (Z.to_nat (lim - pos)) with (S (Z.to_nat (lim - (pos + 1)))) by lia. cbn [take].
  replace (S (Z.to_nat (pos - 1))) with (Z.to_nat (pos + 1 - 1)) by lia. done.
Qed.

Lemma region_nil (t : buffer_text) pos : region t pos pos = [].
Proof. unfold region, slice. by rewrite Z.sub_diag. Qed.

Lemma compare_chars_spec n i p1 q1 p2 q2 trt (w : world X) :
  let f := match trt with Some f => f | None => fun c => c end in
  let t := w_text w in
  world_wf w -> 0 <= i -> 1 <= p1 -> 1 <= p2 -> q1 <= t_z t -> q2 <= t_z t ->
  p1 + i <= q1 -> p2 + i <= q2 -> Z.of_nat n = Z.min (q1 - p1 - i) (q2 - p2 - i) ->
  exists r, compare_chars n i p1 p2 trt w = (Done r, w) /\
    compare_ref (map f (region t (p1 + i) q1)) (map f (region t (p2 + i) q2)) i =
    match r with
    | Some r => r
    | None => if i + Z.of_nat n <? q1 - p1 then i + Z.of_nat n + 1
              else if i + Z.of_nat n <? q2 - p2 then - (i + Z.of_nat n) - 1 else 0
    end.
Proof.
  intros f t Hwf. revert i. induction n as [| n IH]; intros i Hi H1 H2 Hq1 Hq2 Hr1 Hr2 Hn.
  - exists None. split; [done |]. rewrite Z.add_0_r.
    destruct (decide (p1 + i = q1)) as [E1 | E1]; destruct (decide (p2 + i = q2)) as [E2 | E2]; try lia.
    + rewrite E1, E2, !region_nil. zdec. done.
    + destruct (region_cons t (p2 + i) q2) as (c & _ & ->); [apply Hwf | lia | lia |].
      rewrite E1, region_nil. cbn. zdec. done.
    + destruct (region_cons t (p1 + i) q1) as (c & _ & ->); [apply Hwf | lia | lia |].
      rewrite E2, region_nil. cbn. zdec. done.
  - destruct (region_cons t (p1 + i) q1) as (c1 & Hc1 & ->); [apply Hwf | lia | lia |].
    destruct (region_cons t (p2 + i) q2) as (c2 & Hc2 & ->); [apply Hwf | lia | lia |].
    cbn [compare_chars map compare_ref]. unfold bind.
    rewrite (FETCH_run _ w c1), (FETCH_run _ w c2) by (done || (unfold t in *; lia)).
    assert (forall c, match trt with Some f => f c | None => c end = f c) as Hf by (by destruct trt).
    rewrite !Hf. destruct (f c1 <? f c2); [by eexists |]. destruct (f c1 >? f c2); [by eexists |].
    destruct (IH (i + 1)) as (r & E & Hr); [lia.. |]. exists r. split; [exact E |].
    rewrite !Z.add_assoc in Hr. rewrite Hr. destruct r; [done |].
    replace (i + 1 + Z.of_nat n) with (i + Z.of_nat (S n)) by lia. done.
Qed.
End Comparison.

(** compare-buffer-substrings compares the two parts of the text as sequences
    of characters, after the case table when there is one: the first difference
    decides, and a proper beginning is less; the number is its place.  The text is
    only read. *)
Theorem compare_buffer_substrings_lexicographic {X} foreign v1 b1 s1 e1 v2 b2 s2 e2 trt p1 q1 p2 q2
    (w : world X) :
  world_wf w -> w_bufs w !! v1 = Some b1 -> b_live b1 = true -> w_bufs w !! v2 = Some b2 -> b_live b2 = true ->
  get_buffer_range_char foreign v1 s1 e1 GB_ALLOW_NIL w = (Done (p1, q1), w) ->
  get_buffer_range_char foreign v2 s2 e2 GB_ALLOW_NIL w = (Done (p2, q2), w) ->
  let f := match trt with Some f => f | None => fun c => c end in
  Fcompare_buffer_substrings foreign v1 s1 e1 v2 s2 e2 trt w =
  (Done (compare_ref (map f (slice (text_str (w_text w)) (p1 - 1) (q1 - p1)))
                     (map f (slice (text_str (w_text w)) (p2 - 1) (q2 - p2))) 0), w).
Proof.
  intros Hwf Hb1 Hl1 Hb2 Hl2 E1 E2 f.
  pose proof (range_char_Done foreign v1 b1 s1 e1 GB_ALLOW_NIL _ _ _ Hwf Hb1 Hl1 eq_refl eq_refl E1) as R1.
  pose proof (range_char_Done foreign v2 b2 s2 e2 GB_ALLOW_NIL _ _ _ Hwf Hb2 Hl2 eq_refl eq_refl E2) as R2.
  unfold allowed in R1, R2. change (flag GB_ALLOW_NIL GB_ALLOW_PAST_ACCESSIBLE) with false in R1, R2.
  cbn [fst snd] in R1, R2. destruct R1 as (_ & R1), R2 as (_ & R2). unfold Fcompare_buffer_substrings, bind. rewrite E1, E2.
  destruct (compare_chars_spec (Z.to_nat (if q2 - p2 <? q1 - p1 then q2 - p2 else q1 - p1)) 0 p1 q1 p2 q2 trt w)
    as (r & E & Hr); [done | lia.. | |].
  { destruct (Z.ltb_spec (q2 - p2) (q1 - p1)); lia. }
  rewrite E, !Z.add_0_r, !Z.add_0_l in *. unfold region in Hr. fold f in Hr. rewrite Hr.
  destruct r; [done |].
  rewrite Z2Nat.id by (destruct (q2 - p2 <? q1 - p1); lia).
  destruct (Z.ltb_spec (q2 - p2) (q1 - p1)); by repeat case_match.
Qed.

(** ** Restrictions *)

Section Restriction.
Context {X : Type} `{Collaborators X}.

Lemma point_at_wf t b pos :
  text_wf t -> 1 <= b_begv b -> b_begv b <= pos <= b_zv b -> b_zv b <= t_z t ->
  Forall (fun m => valid_memind_p t (m_memind m) = true) (b_markers b) ->
  buffer_wf t (point_at t pos b) /\ b_pt (point_at t pos b) = pos /\
  b_live (point_at t pos b) = b_live b /\ b_begv (point_at t pos b) = b_begv b /\
  b_zv (point_at t pos b) = b_zv b.
Proof.
  intros Ht H1 Hp Hz Hm. unfold point_at. destruct (Z.eqb_spec pos (b_pt b)) as [-> | Hne].
  - by split_and!.
  - split_and!; try done. constructor; cbn; try done.
    apply Forall_map. eapply Forall_impl; [exact Hm |]. intros m Hv.
    case_bool_decide; [| done]. cbn. apply memind_of_bytind; [done | lia].
Qed.

(** The restriction recorded by [head] and [tail], in a text that ends at [z]. *)
Definition restriction (head tail z : Z) : Z * Z :=
  if head + tail >? z - BUF_BEG then (BUF_BEG, z) else (BUF_BEG + head, z - tail).

Lemma restriction_ordered head tail z :
  0 <= head -> 0 <= tail -> 1 <= z ->
  1 <= (restriction head tail z).1 <= (restriction head tail z).2 /\
  (restriction head tail z).2 <= z.
Proof.
  intros. unfold restriction, BUF_BEG. destruct (Z.gtb_spec (head + tail) (z - 1)); cbn; lia.
Qed.

(** Buffer [v] is [b], in a world that is [w] otherwise (but for redisplay). *)
Definition only_buffer (v : nat) (b : buffer) (w w' : world X) : Prop :=
  w_text w' = w_text w /\ w_bufs w' = <[v := b]> (w_bufs w) /\
  exists bc pc, w_glob w' = set_redisplay (w_glob w) bc pc.

Lemma only_buffer_here v b (w w' : world X) :
  only_buffer v b w w' -> (v < length (w_bufs w))%nat -> w_bufs w' !! v = Some b.
Proof. intros (_ & -> & _) Hv. by apply list_lookup_insert_eq. Qed.

Lemma only_buffer_refl v b (w : world X) : w_bufs w !! v = Some b -> only_buffer v b w w.
Proof.
  intros Hb. split_and!; [done | by rewrite list_insert_id |].
  exists (g_buffers_changed (w_glob w)), (g_point_changed (w_glob w)). by destruct (w_glob w).
Qed.

Lemma only_buffer_upd v f b (w w' : world X) :
  only_buffer v b w w' -> (v < length (w_bufs w))%nat ->
  only_buffer v (f b) w (upd_buf v f w').
Proof.
  intros Ho Hv. pose proof (only_buffer_here _ _ _ _ Ho Hv) as Hb. destruct Ho as (Ht & Hbs & Hg).
  split_and!; cbn; [done | | done].
  apply list_eq. intros i. rewrite list_lookup_alter. destruct (decide (v = i)) as [<- |].
  - rewrite Hb. by rewrite list_lookup_insert_eq.
  - rewrite Hbs. by rewrite !list_lookup_insert_ne.
Qed.

Lemma only_buffer_ext v f b (w w' : world X) :
  only_buffer v b w w' -> only_buffer v b w (upd_ext f w').
Proof. done. Qed.

(** What is left to run of a command, from a world where only buffer [v] changed. *)
Lemma wp_upd_if {B} (c : bool) (m : M X unit) v b b' (k : M X B) Q E (w w' : world X) :
  only_buffer v b w w' ->
  (c = false -> b' = b) ->
  (c = true -> forall w', only_buffer v b w w' ->
     exists w'', m w' = (Done tt, w'') /\ only_buffer v b' w w'') ->
  (forall w'', only_buffer v b' w w'' -> wp k Q E w'') ->
  wp (bind (if c then m else ret tt) (fun _ => k)) Q E w'.
Proof.
  intros Ho Hf Ht Hk. unfold wp, bind. destruct c.
  - destruct (Ht eq_refl w' Ho) as (w'' & -> & Ho'). by apply Hk.
  - cbn. rewrite <- (Hf eq_refl) in Ho. by apply Hk.
Qed.

(** The restoration puts the restriction back, brings point into it, and does
    nothing else. *)
Lemma restore_run v head tail b (w : world X) :
  world_wf w -> w_bufs w !! v = Some b -> b_live b = true -> 0 <= head -> 0 <= tail ->
  wp (save_restriction_restore (v, head, tail))
    (fun _ w' => world_wf w' /\ exists b', only_buffer v b' w w' /\ b_live b' = true /\
       (b_begv b', b_zv b') = restriction head tail (t_z (w_text w)) /\
       b_pt b' = bufpos_clip_to_bounds (b_begv b') (b_pt b) (b_zv b'))
    (fun _ _ => False) w.
Proof.
  intros Hwf Hb Hl Hh Ht.
  pose proof (wf_text _ Hwf) as Htw. pose proof (Forall_lookup_1 _ _ _ _ (wf_bufs _ Hwf) Hb) as Hwb.
  unfold live_wf in Hwb. rewrite Hl in Hwb. destruct Hwb as [Hb1 Hb2 Hb3 Hb4].
  pose proof (lookup_lt_Some _ _ _ Hb) as Hv.
  destruct (restriction_ordered head tail (t_z (w_text w))) as [Hr1 Hr2]; [lia.. | by destruct Htw; lia |].
  unfold save_restriction_restore. apply wp_bind. eapply wp_get_buf; [done |]. rewrite Hl. cbn [negb].
  apply wp_bind, wp_get. fold (restriction head tail (t_z (w_text w))).
  set (start := (restriction head tail (t_z (w_text w))).1) in *.
  set (end_ := (restriction head tail (t_z (w_text w))).2) in *.
  replace (if head + tail >? t_z (w_text w) - BUF_BEG then (0, 0) else (head, tail))
    with (start - BUF_BEG, t_z (w_text w) - end_)
    by (subst start end_; unfold restriction, BUF_BEG; case_match; cbn; f_equal; lia).
  cbv beta iota zeta. replace (BUF_BEG + (start - BUF_BEG)) with start by lia.
  replace (t_z (w_text w) - (t_z (w_text w) - end_)) with end_ by lia.
  eapply (wp_upd_if _ _ v b (SET_BOTH_BUF_BEGV b start)).
  { by apply only_buffer_refl. }
  { intros E. destruct (Z.eqb_spec (b_begv b) start) as [<- |]; [by destruct b | done]. }
  { intros _ w1 Ho. eexists. split; [reflexivity |]. apply only_buffer_ext.
    by apply (only_buffer_upd v (fun b => SET_BOTH_BUF_BEGV b start)). }
  intros w1 Ho1. eapply (wp_upd_if _ _ v _ (SET_BOTH_BUF_ZV (SET_BOTH_BUF_BEGV b start) end_)).
  { done. }
  { intros E. destruct (Z.eqb_spec (b_zv b) end_) as [<- |]; [by destruct b | done]. }
  { intros _ w2 Ho. eexists. split; [reflexivity |].
    by apply (only_buffer_upd v (fun b => SET_BOTH_BUF_ZV b end_)). }
  intros w2 Ho2. set (b2 := SET_BOTH_BUF_ZV _ _) in *.
  pose proof (only_buffer_here _ _ _ _ Ho2 Hv) as Hb2'.
  apply wp_bind. eapply wp_get_buf; [done |].
  destruct (set_buffer_point_run v (bufpos_clip_to_bounds (b_begv b2) (b_pt b2) (b_zv b2)) b2 w2 Hb2')
    as (g & E & pc & Hg).
  unfold wp. rewrite E. set (pos := bufpos_clip_to_bounds _ _ _).
  assert (start <= pos <= end_) as Hpos
    by (unfold pos, bufpos_clip_to_bounds; cbn [b_begv b_zv b2 SET_BOTH_BUF_ZV SET_BOTH_BUF_BEGV]; zdec; lia).
  destruct Ho2 as (Ht2 & Hbs2 & Hg2).
  destruct (point_at_wf (w_text w) b2 pos) as (Hw1 & Hp1 & Hl1 & Hv1 & Hz1);
    [done | cbn; lia.. | done |].
  assert (only_buffer v (point_at (w_text w) pos b2) w
            (mk_world (w_text w2) (alter (point_at (w_text w2) pos) v (w_bufs w2)) (w_ext w2) g)) as Ho3.
  { rewrite Ht2. pose proof (only_buffer_upd v (point_at (w_text w) pos) b2 w w2) as (Ht3 & Hbs3 & _);
      [done.. |].
    split_and!; [done | exact Hbs3 |]. destruct Hg2 as (bc & pc' & Hg2). exists bc, pc.
    cbn. rewrite Hg, Hg2. by destruct (w_glob w). }
  split.
  - destruct Ho3 as (Ht3 & Hbs3 & Hg3). constructor.
    + by rewrite Ht3.
    + rewrite Ht3, Hbs3. apply Forall_insert; [apply (wf_bufs _ Hwf) |].
      unfold live_wf. rewrite Hl1. change (b_live b2) with (b_live b). by rewrite Hl.
    + destruct Hg3 as (bc & pc' & ->). apply (wf_quit _ Hwf).
  - exists (point_at (w_text w) pos b2). rewrite Hl1, Hv1, Hz1, Hp1. split_and!; try done.
    subst start end_. cbn. by destruct (restriction _ _ _).
Qed.
End Restriction.

(** [save-restriction] puts the restriction back however its body ends, and its
    value or error is the body's.  What was hidden before and after the accessible
    part is hidden again, whatever the body did to the text or the restriction
    (unless the text became shorter than that), point is brought into
    it, and nothing else is touched; a buffer that the body killed is left alone. *)
Theorem save_restriction_restores {X} `{Collaborators X} {A} (body : M X A) v b b1 (w w1 : world X) r :
  world_wf w -> g_current (w_glob w) = v -> w_bufs w !! v = Some b -> b_live b = true ->
  body w = (r, w1) -> r <> Fault -> world_wf w1 -> w_bufs w1 !! v = Some b1 ->
  exists w2, Fsave_restriction body w = (r, w2) /\ world_wf w2 /\
    if b_live b1 then
      exists b2, only_buffer v b2 w1 w2 /\ b_live b2 = true /\
        b_pt b2 = bufpos_clip_to_bounds (b_begv b2) (b_pt b1) (b_zv b2) /\
        (b_zv b - b_begv b + (t_z (w_text w1) - t_z (w_text w)) >= 0 ->
         b_begv b2 = b_begv b /\ b_zv b2 = b_zv b + (t_z (w_text w1) - t_z (w_text w))) /\
        (b_zv b - b_begv b + (t_z (w_text w1) - t_z (w_text w)) < 0 ->
         b_begv b2 = 1 /\ b_zv b2 = t_z (w_text w1))
    else w2 = w1.
Proof.
  intros Hwf <- Hb Hl Eb Hr Hwf1 Hb1.
  pose proof (Forall_lookup_1 _ _ _ _ (wf_bufs _ Hwf) Hb) as Hwb. unfold live_wf in Hwb.
  rewrite Hl in Hwb. destruct Hwb as [H1 H2 H3 _].
  unfold Fsave_restriction, save_restriction_save, bind, get, get_buf. rewrite Hb. cbn [of_option ret].
  rewrite Eb. destruct (b_live b1) eqn:Hl1.
  - pose proof (restore_run _ (b_begv b - BUF_BEG) (t_z (w_text w) - b_zv b) b1 w1 Hwf1 Hb1 Hl1) as R.
    unfold wp, BUF_BEG in *. destruct (save_restriction_restore _ w1) as [[] w2] eqn:E;
      [| destruct R; lia..].
    destruct R as (Hwf2 & b2 & Ho & Hl2 & Er & Hp); [lia.. |].
    exists w2. split_and!; [done.. |]. exists b2. split_and!; try done;
      unfold restriction, BUF_BEG in Er;
      destruct (Z.gtb_spec (b_begv b - 1 + (t_z (w_text w) - b_zv b)) (t_z (w_text w1) - 1));
      injection Er as -> ->; lia.
  - exists w1. unfold save_restriction_restore, bind, get_buf. rewrite Hb1. cbn [of_option ret].
    by rewrite Hl1.
Qed.

(** ** The theorems at work *)

#[local] Existing Instance quiet.

(** Positions 5 and a marker at 3, in descending order. *)
Lemma buffer_range_arguments_witness :
  let w := hello in
  let '(lo, hi) := (1, 6) in
  1 <= lo <= hi /\
  get_buffer_range_char (fun _ => None) 0 (LInt 5) (LRec lrecord_marker 3) 0 w =
  (if (lo <=? 5) && (5 <=? hi) && (lo <=? 3) && (3 <=? hi) then
     if 5 <=? 3 then Done (5, 3)
     else if flag 0 GB_CHECK_ORDER then Signal (Qerror "start greater than end")
     else Done (3, 5)
   else Signal (Qargs_out_of_range [make_buffer 0; LInt 5; LRec lrecord_marker 3]), w).
Proof.
  exact (buffer_range_arguments (fun _ => None) 0 _ (LInt 5) (LRec lrecord_marker 3) 5 3 0 hello
    hello_wf eq_refl eq_refl eq_refl eq_refl eq_refl eq_refl).
Defined.

(** "he" against "hello", character case aside. *)
Lemma compare_buffer_substrings_lexicographic_witness :
  let f c := if c <? 97 then c + 32 else c in
  Fcompare_buffer_substrings (fun _ => None) 0 (LInt 1) (LInt 3) 0 Qnil Qnil (Some f) hello =
  (Done (compare_ref (map f [104; 101]) (map f [104; 101; 108; 108; 111]) 0), hello).
Proof.
  exact (compare_buffer_substrings_lexicographic (fun _ => None) 0 _ (LInt 1) (LInt 3) 0 _ Qnil Qnil
    (Some (fun c => if c <? 97 then c + 32 else c)) 1 3 1 6 hello
    hello_wf eq_refl eq_refl eq_refl eq_refl eq_refl eq_refl).
Defined.

(** A body that narrows the buffer and then quits. *)
Definition narrow_and_quit : M unit unit :=
  Fnarrow_to_region (fun _ => None) 0 (LInt 4) (LInt 5);; signal Qquit.

Lemma save_restriction_restores_witness :
  let '(r, w1) := narrow_and_quit hello in
  exists w2, Fsave_restriction narrow_and_quit hello = (r, w2) /\ world_wf w2 /\
    if true then
      exists b2, only_buffer 0 b2 w1 w2 /\ b_live b2 = true /\
        b_pt b2 = bufpos_clip_to_bounds (b_begv b2) 4 (b_zv b2) /\
        (6 - 1 + (6 - 6) >= 0 -> b_begv b2 = 1 /\ b_zv b2 = 6 + (6 - 6)) /\
        (6 - 1 + (6 - 6) < 0 -> b_begv b2 = 1 /\ b_zv b2 = 6)
    else w2 = w1.
Proof.
  destruct (narrow_and_quit hello) as [r w1] eqn:E.
  assert (r <> Fault /\ world_wf w1 /\ exists b1, w_bufs w1 !! 0%nat = Some b1 /\
    b_live b1 = true /\ b_pt b1 = 4 /\ t_z (w_text w1) = 6) as (Hr & Hwf & b1 & Hb1 & Hl & Hp & Hz).
  { vm_compute in E. injection E as <- <-. split_and!; [done | |].
    - constructor; [constructor; cbn; lia | repeat constructor; cbn; lia || done | repeat constructor; done].
    - eexists. by split_and!. }
  pose proof (save_restriction_restores narrow_and_quit 0 _ b1 hello w1 r hello_wf eq_refl eq_refl
    eq_refl E Hr Hwf Hb1) as R.
  rewrite Hl, Hp, Hz in R. exact R.
Defined.
