(* ===== verification/TextCommands.v ===== *)
(** * What the commands make of the text

    The commands that are built of several edits, with silent hooks: each makes
    the text it promises, or signals and leaves the buffers well-formed. *)

From S2P Require Import Prelude Lisp Buffer Scan Undo Insdel Gap Hooks EditSpec Edit.
From S2P Require Import Insertion Deletion Editing Editfns Commands.

(** ** Sequences of edits *)

(** Buffer [v] is there and live. *)
Definition live_at (a : astate) (v : nat) : Prop :=
  exists b, a_bufs a !! v = Some b /\ a_live b = true.

(** The buffers after a deletion. *)
Lemma spec_delete_lookup from to s i a :
  a_bufs (spec_delete from to s) !! i = Some a ->
  exists a0, a_bufs s !! i = Some a0 /\ a_live a = a_live a0 /\
    (a_live a0 = true -> a_begv a = a_begv a0 /\ a_zv a = a_zv a0 - (to - from)).
Proof.
  intros Hi. unfold spec_delete, spec_record_delete in Hi. cbn [a_bufs set_a_text] in Hi.
  match type of Hi with context [spec_record ?f s] => pose proof (strip_record f s) as Es end.
  apply (f_equal (.!! i)) in Es. unfold map_live_abufs in Hi. rewrite list_lookup_imap in Hi.
  change (@map) with (@fmap list _) in Es. rewrite !list_lookup_fmap in Es.
  destruct (a_bufs (spec_record _ s) !! i) as [a1 |]; [| done].
  destruct (a_bufs s !! i) as [a0 |]; [| done]. cbn in Es, Hi.
  injection Es as E1 E2 E3 E4 E5 E6 E7. injection Hi as <-. exists a0.
  rewrite <- E1, <- E3, <- E4. split; [done |]. by destruct (a_live a1) eqn:El; cbn; rewrite ?El.
Qed.

Lemma live_at_back bs bs' v :
  length bs' = length bs ->
  (forall i a, bs' !! i = Some a -> exists a0 : abuf, bs !! i = Some a0 /\ a_live a = a_live a0) ->
  (exists b, bs !! v = Some b /\ a_live b = true) ->
  exists b, bs' !! v = Some b /\ a_live b = true.
Proof.
  intros HL Hb (b & Hv & Hl). destruct (lookup_lt_is_Some_2 bs' v) as [b' Hb'].
  { rewrite HL. by eapply lookup_lt_Some. }
  destruct (Hb _ _ Hb') as (b0 & Hb0 & E). rewrite Hv in Hb0. injection Hb0 as <-.
  exists b'. by rewrite E.
Qed.

Lemma live_at_insert v ind bytes mp bm s u : live_at s u -> live_at (spec_insert v ind bytes mp bm s) u.
Proof.
  apply live_at_back; [apply length_spec_insert |].
  intros i a (a0 & ? & ? & _)%spec_insert_lookup. eauto.
Qed.

Lemma live_at_delete from to s u : live_at s u -> live_at (spec_delete from to s) u.
Proof.
  apply live_at_back; [apply length_spec_delete |].
  intros i a (a0 & ? & ? & _)%spec_delete_lookup. eauto.
Qed.

Lemma whole_after_insert v ind bytes mp bm s p q :
  whole s p q -> whole (spec_insert v ind bytes mp bm s) p (q + zlen bytes).
Proof.
  intros Hw i a (a0 & H0 & El & Ez)%spec_insert_lookup Hl. rewrite El in Hl.
  destruct (Ez Hl) as [-> ->]. destruct (Hw i a0 H0 Hl). lia.
Qed.

Lemma whole_after_delete from to s p q :
  whole s p q -> whole (spec_delete from to s) p (q - (to - from)).
Proof.
  intros Hw i a (a0 & H0 & El & Ez)%spec_delete_lookup Hl. rewrite El in Hl.
  destruct (Ez Hl) as [-> ->]. destruct (Hw i a0 H0 Hl). lia.
Qed.

Lemma whole_weaken s p q p' q' : whole s p q -> p <= p' -> q' <= q -> whole s p' q'.
Proof. intros Hw ? ? i a Hi Hl. destruct (Hw i a Hi Hl). lia. Qed.

(** The text after an edit. *)
Lemma a_str_insert v ind bytes mp bm s :
  a_str (spec_insert v ind bytes mp bm s) =
  ztake (ind - 1) (a_str s) ++ bytes ++ zdrop (ind - 1) (a_str s).
Proof. unfold spec_insert, spec_record_insert. cbn [a_str set_a_text]. by rewrite a_str_record. Qed.

Lemma a_str_delete from to s :
  a_str (spec_delete from to s) = ztake (from - 1) (a_str s) ++ zdrop (to - 1) (a_str s).
Proof. unfold spec_delete, spec_record_delete. cbn [a_str set_a_text]. by rewrite a_str_record. Qed.

Lemma zlen_cut (s : list Z) from to :
  1 <= from -> from <= to -> to - 1 <= zlen s ->
  zlen (ztake (from - 1) s ++ zdrop (to - 1) s) = zlen s - (to - from).
Proof. intros. lens. lia. Qed.

Lemma zlen_put (s bytes : list Z) ind :
  1 <= ind -> ind - 1 <= zlen s ->
  zlen (ztake (ind - 1) s ++ bytes ++ zdrop (ind - 1) s) = zlen s + zlen bytes.
Proof. intros. lens. lia. Qed.

Section Sequences.
Context {X : Type} `{Collaborators X}.
Variable realloc : Z -> option (list Z).
Hypothesis silent : hooks_ok (X := X) eq.

Lemma live_at_world (w : world X) v :
  live_at (abs_world w) v -> exists b, w_bufs w !! v = Some b /\ b_live b = true.
Proof.
  intros (a & Ha & Hl). unfold abs_world in Ha. cbn [a_bufs] in Ha.
  change (@map) with (@fmap list _) in Ha. rewrite list_lookup_fmap in Ha.
  destruct (w_bufs w !! v) as [b |]; [| done]. injection Ha as <-. by exists b.
Qed.

Lemma wp_delete v from to flags a (w : world X) :
  becomes a w -> live_at a v -> from < to -> whole a from to ->
  wp (buffer_delete_range v from to flags)
    (fun _ => becomes (spec_delete from to a)) (fun _ => world_wf) w.
Proof.
  intros [<- Hwf] (b & Hb & Hl)%live_at_world Hft Hw.
  destruct (Hw v _ (abs_lookup _ _ _ Hb) Hl). by eapply delete_silent.
Qed.

Lemma wp_insert v pos str flags a (w : world X) :
  becomes a w -> live_at a v -> pos <> -1 -> whole a pos pos -> room eq a (zlen str) ->
  wp (buffer_insert_lisp_string_1 realloc v pos str flags)
    (fun _ => becomes (spec_insert v pos str false (bm_flag flags) a)) (fun _ => world_wf) w.
Proof.
  intros [<- Hwf] (b & Hb & Hl)%live_at_world Hpos Hw Hr.
  destruct (Hw v _ (abs_lookup _ _ _ Hb) Hl).
  eapply wp_mono; [by eapply insert_silent | | done].
  rewrite (proj2 (Z.eqb_neq pos (-1))) by done.
  assert (a_clip (abs_buf (w_text w) b) pos = pos) as -> by (unfold a_clip; cbn in *; zdec; lia).
  done.
Qed.

(** ** Transposition *)

Lemma transposed_text (s : list Z) s1 e1 s2 e2 :
  1 <= s1 -> s1 < e1 -> e1 <= s2 -> s2 < e2 -> e2 - 1 <= zlen s ->
  let x := slice s (s1 - 1) (e1 - s1) in
  let y := slice s (s2 - 1) (e2 - s2) in
  let t1 := ztake (s2 - 1) s ++ zdrop (e2 - 1) s in
  let t2 := ztake (s2 - 1) t1 ++ x ++ zdrop (s2 - 1) t1 in
  let t3 := ztake (s1 - 1) t2 ++ zdrop (e1 - 1) t2 in
  ztake (s1 - 1) t3 ++ y ++ zdrop (s1 - 1) t3 =
  ztake (s1 - 1) s ++ y ++ slice s (e1 - 1) (s2 - e1) ++ x ++ zdrop (e2 - 1) s.
Proof.
  intros H1 H2 H3 H4 H5. cbv zeta.
  assert (exists A B C D E, s = A ++ B ++ C ++ D ++ E /\ zlen A = s1 - 1 /\ zlen B = e1 - s1 /\
    zlen C = s2 - e1 /\ zlen D = e2 - s2) as (A & B & C & D & E & -> & HA & HB & HC & HD).
  { exists (ztake (s1 - 1) s), (slice s (s1 - 1) (e1 - s1)), (slice s (e1 - 1) (s2 - e1)),
      (slice s (s2 - 1) (e2 - s2)), (zdrop (e2 - 1) s).
    split_and!; [| unfold slice; lens; lia..]. unfold slice.
    rewrite <- (take_drop (Z.to_nat (s1 - 1)) s) at 1. f_equal.
    rewrite <- (take_drop (Z.to_nat (e1 - s1)) (zdrop (s1 - 1) s)) at 1. f_equal. rewrite drop_drop.
    replace (Z.to_nat (s1 - 1) + Z.to_nat (e1 - s1))%nat with (Z.to_nat (e1 - 1)) by lia.
    rewrite <- (take_drop (Z.to_nat (s2 - e1)) (zdrop (e1 - 1) s)) at 1. f_equal. rewrite drop_drop.
    replace (Z.to_nat (e1 - 1) + Z.to_nat (s2 - e1))%nat with (Z.to_nat (s2 - 1)) by lia.
    rewrite <- (take_drop (Z.to_nat (e2 - s2)) (zdrop (s2 - 1) s)) at 1. f_equal. rewrite drop_drop.
    f_equal. lia. }
  assert (forall P Q : list Z, slice (A ++ P ++ Q) (s1 - 1) (zlen P) = P) as Sl.
  { intros P Q. unfold slice. rewrite drop_app_exact by lia. by rewrite take_app_exact by lia. }
  assert (slice (A ++ B ++ C ++ D ++ E) (s1 - 1) (e1 - s1) = B) as -> by (rewrite <- HB; apply Sl).
  assert (slice (A ++ B ++ C ++ D ++ E) (e1 - 1) (s2 - e1) = C) as ->.
  { unfold slice. rewrite !(assoc_L (++) A), drop_app_exact by (lens; lia).
    by rewrite take_app_exact by lia. }
  assert (slice (A ++ B ++ C ++ D ++ E) (s2 - 1) (e2 - s2) = D) as ->.
  { unfold slice. rewrite !(assoc_L (++) B), !(assoc_L (++) A), drop_app_exact by (lens; lia).
    by rewrite take_app_exact by lia. }
  assert (ztake (s2 - 1) (A ++ B ++ C ++ D ++ E) = A ++ B ++ C) as ->.
  { rewrite !(assoc_L (++) B), !(assoc_L (++) A), take_app_exact by (lens; lia). done. }
  assert (zdrop (e2 - 1) (A ++ B ++ C ++ D ++ E) = E) as ->.
  { rewrite !(assoc_L (++) C), !(assoc_L (++) B), !(assoc_L (++) A), drop_app_exact by (lens; lia). done. }
  rewrite (take_app_exact (A ++ B ++ C) E), (drop_app_exact (A ++ B ++ C) E) by (lens; lia).
  rewrite <- !(assoc_L (++)). rewrite !(take_app_exact A (B ++ _)) by lia.
  assert (zdrop (e1 - 1) (A ++ B ++ C ++ B ++ E) = C ++ B ++ E) as ->.
  { rewrite (assoc_L (++) A), drop_app_exact by (lens; lia). done. }
  by rewrite (take_app_exact A (C ++ _)), (drop_app_exact A (C ++ _)) by lia.
Qed.

(** C17: transpose-regions exchanges two regions of the current buffer, given in
    order and not empty: the text has the second, what was between them, and the
    first; or it signals (memory, a quit) with the buffers well-formed.  Regions that
    overlap or are empty are refused before anything is changed.  The regions
    must be accessible in every buffer on the text, and the hooks silent. *)
Theorem transpose_regions_swaps foreign v b start1 end1 start2 end2 s1 e1 s2 e2 (w : world X) :
  world_wf w -> g_current (w_glob w) = v -> w_bufs w !! v = Some b -> b_live b = true ->
  get_buffer_range_char foreign v start1 end1 0 w = (Done (s1, e1), w) ->
  get_buffer_range_char foreign v start2 end2 0 w = (Done (s2, e2), w) ->
  whole (abs_world w) s1 e2 -> room eq (abs_world w) (e1 - s1) ->
  let s := text_str (w_text w) in
  if (e1 <=? s2) && (s1 <? e1) && (s2 <? e2) then
    wp (Ftranspose_regions realloc foreign start1 end1 start2 end2)
      (fun _ w' => world_wf w' /\ text_str (w_text w') =
         ztake (s1 - 1) s ++ slice s (s2 - 1) (e2 - s2) ++ slice s (e1 - 1) (s2 - e1) ++
         slice s (s1 - 1) (e1 - s1) ++ zdrop (e2 - 1) s)
      (fun _ => world_wf) w
  else exists message,
    Ftranspose_regions realloc foreign start1 end1 start2 end2 w = (Signal (Qerror message), w).
Proof.
  intros Hwf <- Hb Hl E1 E2 Hw Hroom s.
  pose proof (range_char_Done foreign _ b _ _ 0 _ _ _ Hwf Hb Hl eq_refl eq_refl E1) as R1.
  pose proof (range_char_Done foreign _ b _ _ 0 _ _ _ Hwf Hb Hl eq_refl eq_refl E2) as R2.
  unfold allowed in R1, R2. change (flag 0 GB_ALLOW_PAST_ACCESSIBLE) with false in R1, R2.
  cbn [fst snd] in R1, R2. destruct R1 as (_ & R1), R2 as (_ & R2).
  pose proof (length_text_str _ (wf_text _ Hwf)) as Hs. fold s in Hs.
  destruct ((e1 <=? s2) && (s1 <? e1) && (s2 <? e2)) eqn:Eord.
  2: { unfold Ftranspose_regions, bind, get. rewrite E1, E2.
    destruct (Z.ltb_spec s2 e1); [by eexists |]. rewrite (proj2 (Z.leb_le e1 s2)) in Eord by lia.
    destruct (Z.eqb_spec s1 e1); [by eexists |]. rewrite (proj2 (Z.ltb_lt s1 e1)) in Eord by lia.
    destruct (Z.eqb_spec s2 e2); [by eexists |]. rewrite (proj2 (Z.ltb_lt s2 e2)) in Eord by lia.
    done. }
  apply andb_prop in Eord as [[Ho1 Ho2]%andb_prop Ho3].
  apply Z.leb_le in Ho1. apply Z.ltb_lt in Ho2, Ho3.
  unfold Ftranspose_regions. apply wp_bind, wp_get, wp_bind. unfold wp at 1. rewrite E1.
  apply wp_bind. unfold wp at 1. rewrite E2. cbv zeta.
  rewrite (proj2 (Z.ltb_ge s2 e1)), (proj2 (Z.eqb_neq s1 e1)), (proj2 (Z.eqb_neq s2 e2)) by lia.
  cbn [orb]. apply wp_bind, wp_get, wp_bind.
  eapply wp_of_option; [apply make_string_from_buffer_str; [apply Hwf | lia..] |]. apply wp_bind.
  eapply wp_of_option; [apply make_string_from_buffer_str; [apply Hwf | lia..] |]. fold s.
  set (v := g_current (w_glob w)) in *. set (a := abs_world w) in *.
  assert (live_at a v) as Hv by (exists (abs_buf (w_text w) b); split; [by apply abs_lookup | done]).
  assert (zlen (slice s (s1 - 1) (e1 - s1)) = e1 - s1) as L1 by (apply length_slice; lia).
  assert (zlen (slice s (s2 - 1) (e2 - s2)) = e2 - s2) as L2 by (apply length_slice; lia).
  specialize (Hroom a eq_refl). change (a_str a) with s in Hroom.
  apply wp_bind. eapply wp_mono; [apply (wp_delete v s2 e2 0 a);
    [by split | done | lia | eapply whole_weaken; [exact Hw | lia..]] | | done].
  intros ? w1 H1. pose proof (a_str_delete s2 e2 a) as T1. change (a_str a) with s in T1.
  apply wp_bind. eapply wp_mono; [eapply (wp_insert v s2 _ 0 _ _ H1); [by apply live_at_delete | lia | |] | | done].
  { eapply whole_weaken; [apply whole_after_delete, Hw | lia..]. }
  { intros a' <-. rewrite T1, L1, zlen_cut by lia.
    pose proof (Z.div_le_mono (zlen s - (e2 - s2)) (zlen s) 8). lia. }
  intros ? w2 H2. pose proof (a_str_insert v s2 (slice s (s1 - 1) (e1 - s1)) false (bm_flag 0)
    (spec_delete s2 e2 a)) as T2. rewrite T1 in T2.
  apply wp_bind. eapply wp_mono; [eapply (wp_delete v s1 e1 0 _ _ H2); [by apply live_at_insert, live_at_delete | lia |] | | done].
  { eapply whole_weaken; [apply whole_after_insert, whole_after_delete, Hw | lia..]. }
  intros ? w3 H3. apply wp_bind.
  eapply wp_mono; [eapply (wp_insert v s1 _ 0 _ _ H3);
    [by apply live_at_delete, live_at_insert, live_at_delete | lia | |] | | done].
  { eapply whole_weaken; [apply whole_after_delete, whole_after_insert, whole_after_delete, Hw | lia..]. }
  { intros a' <-. rewrite a_str_delete, T2, L2, zlen_cut by (rewrite ?zlen_put, ?zlen_cut by (rewrite ?zlen_cut by lia; lia); lia).
    rewrite zlen_put, zlen_cut, L1 by (rewrite ?zlen_cut by lia; lia).
    replace (_ - (e1 - s1)) with (zlen s - (e2 - s2)) by lia.
    pose proof (Z.div_le_mono (zlen s - (e2 - s2)) (zlen s) 8). lia. }
  intros ? w4 [H4 Hwf4]. apply wp_ret. split; [done |].
  change (text_str (w_text w4)) with (a_str (abs_world w4)). rewrite H4, a_str_insert, a_str_delete, T2.
  apply transposed_text; lia.
Qed.
End Sequences.

(** ** Substitution *)

(** The text with [f] applied to the characters from [p] to [q]. *)
Definition map_region (f : Z -> Z) (p q : Z) (s : list Z) : list Z :=
  imap (fun i c => if (p - 1 <=? Z.of_nat i) && (Z.of_nat i <? q - 1) then f c else c) s.

Definition substitute (fromc toc c : Z) : Z := if c =? fromc then toc else c.

Lemma map_region_nil f p q s : q <= p -> map_region f p q s = s.
Proof.
  intros Hq. apply list_eq. intros i. unfold map_region. rewrite list_lookup_imap.
  destruct (s !! i); [| done]. cbn.
  by destruct (Z.leb_spec (p - 1) (Z.of_nat i)), (Z.ltb_spec (Z.of_nat i) (q - 1)); try lia.
Qed.

Lemma length_map_region f p q s : length (map_region f p q s) = length s.
Proof. apply length_imap. Qed.

Lemma zget_map_region f p q s i :
  zget (map_region f p q s) i =
  (fun c => if (p - 1 <=? i) && (i <? q - 1) then f c else c) <$> zget s i.
Proof.
  unfold zget, map_region. destruct (Z.ltb_spec i 0); [done |]. rewrite list_lookup_imap.
  by replace (Z.of_nat (Z.to_nat i)) with i by lia.
Qed.

Lemma map_region_step f p q s c :
  1 <= p -> p <= q -> zget s (q - 1) = Some c ->
  map_region f p (q + 1) s = zset (map_region f p q s) (q - 1) (f c).
Proof.
  intros Hp Hq Hc. apply list_eq. intros i. pose proof (zget_Some_bound _ _ _ Hc).
  rewrite zget_lookup in Hc by lia. unfold zset. rewrite (proj2 (Z.ltb_ge _ _)) by lia.
  destruct (decide (i = Z.to_nat (q - 1))) as [-> | Hne].
  - rewrite list_lookup_insert_eq by (rewrite length_map_region; lia).
    unfold map_region. rewrite list_lookup_imap, Hc. cbn. zdec. done.
  - rewrite list_lookup_insert_ne by done. unfold map_region. rewrite !list_lookup_imap.
    destruct (s !! i); [| done]. cbn. f_equal.
    destruct (Z.leb_spec (p - 1) (Z.of_nat i)); [| done].
    by destruct (Z.ltb_spec (Z.of_nat i) (q - 1)), (Z.ltb_spec (Z.of_nat i) (q + 1 - 1)); try lia.
Qed.

Section Substitution.
Context {X : Type} `{Collaborators X}.
Variable realloc : Z -> option (list Z).
Hypothesis silent : hooks_ok (X := X) eq.

Lemma hooked_becomes (w0 w : world X) : hooked eq w0 w <-> becomes (abs_world w0) w.
Proof. unfold hooked, becomes. split; intros []; done. Qed.

(** The bookkeeping of a multiple-change session. *)
Section Session.
Variable w0 : world X.
Variable v : nat.
Hypothesis v_buffer : (v < length (w_bufs w0))%nat.

Lemma safe_text_changes c : safe eq w0 (upd (upd_text (fun t => set_text_changes t (c t)))).
Proof. apply safe_upd; [done |]. intros. by apply unchanged_text_changes. Qed.

Lemma safe_finish_up : safe eq w0 (multiple_change_finish_up v).
Proof.
  unfold multiple_change_finish_up. apply safe_bind; [by apply (safe_get_buf eq silent) |]. intros b.
  destruct (b_live b); cbn [negb]; [| apply safe_ret].
  apply safe_bind; [apply safe_text_changes |]. intros _. by apply safe_cancel_multiple_change.
Qed.

Lemma safe_begin start end_ : safe eq w0 (begin_multiple_change v start end_).
Proof.
  unfold begin_multiple_change. apply safe_bind; [apply safe_get |]. intros t.
  apply safe_bind; [| intros began; apply safe_bind; [apply safe_text_changes | intros _; apply safe_ret]].
  destruct (negb _).
  - apply safe_bind; [| intros _; apply safe_ret].
    destruct (_ && _); [by apply safe_cancel_multiple_change | apply safe_ret].
  - apply safe_bind; [apply safe_text_changes | intros _; apply safe_ret].
Qed.

Lemma safe_end count : safe eq w0 (end_multiple_change v count).
Proof.
  unfold end_multiple_change. apply safe_bind; [apply safe_text_changes |]. intros _.
  apply safe_bind; [apply safe_get |]. intros t.
  destruct (_ && _); [apply safe_finish_up | apply safe_ret].
Qed.
End Session.

(** A session around [m]. *)
Lemma wp_session {A} v start end_ (m : M X A) (Q : A -> astate -> Prop) (w : world X) :
  world_wf w -> (v < length (w_bufs w))%nat ->
  (forall w', becomes (abs_world w) w' ->
     wp m (fun a w'' => world_wf w'' /\ length (w_bufs w'') = length (w_bufs w) /\ Q a (abs_world w''))
       (fun _ w'' => world_wf w'' /\ length (w_bufs w'') = length (w_bufs w)) w') ->
  wp (in_multiple_change_session v start end_ m)
    (fun a w' => world_wf w' /\ Q a (abs_world w')) (fun _ => world_wf) w.
Proof.
  intros Hwf Hv Hm. unfold in_multiple_change_session. apply wp_bind.
  eapply wp_mono; [by apply (safe_begin w v Hv start end_ w) | |].
  2: { intros e w1 [? _]. done. }
  intros count w1 Hw1. pose proof (Hm w1 (proj1 (hooked_becomes _ _) Hw1)) as Hm1.
  unfold wp in Hm1 |- *. destruct (m w1) as [[a | e |] w2]; [| | done].
  - destruct Hm1 as (Hwf2 & HL & HQ).
    pose proof (safe_end w2 v ltac:(by rewrite HL) count w2 ltac:(by split)) as He.
    unfold wp in He. destruct (end_multiple_change v count w2) as [[] w3]; [| by destruct He | done].
    destruct He as [Hwf3 He]. by rewrite <- He.
  - destruct Hm1 as (Hwf2 & HL). destruct count; [| done].
    pose proof (safe_finish_up w2 v ltac:(by rewrite HL) w2 ltac:(by split)) as He.
    unfold wp in He. by destruct (multiple_change_finish_up v w2) as [[] w3]; destruct He.
Qed.

(** The modification flag. *)
Definition modified (a : astate) : bool := a_save_modiff a <? a_modiff a.

Definition marked (m : bool) (a : astate) : astate :=
  mk_astate (a_str a) (a_bufs a) (a_modiff a + 1) (if m then 0 else a_modiff a + 1)
    (a_last_undo_here a) (a_last_point_position a) (a_last_point_position_buffer a).

Lemma modified_marked m a : 0 <= a_modiff a -> modified (marked m a) = m.
Proof. intros. unfold modified. cbn. destruct m; zdec; done. Qed.

Lemma wp_set_modified m v a (w : world X) :
  becomes a w ->
  wp (Fset_buffer_modified_p m v) (fun _ => becomes (marked m a)) (fun _ => becomes a) w.
Proof.
  intros [<- Hwf]. unfold Fset_buffer_modified_p. apply wp_bind, wp_get. apply wp_bind.
  assert (hooked eq w w) as Hw by done.
  eapply wp_mono with (Q := fun _ => hooked eq w) (E := fun _ => hooked eq w).
  { destruct (Bool.eqb _ _); [by apply wp_hook | by apply wp_ret]. }
  2: { intros e w' [? ?]. done. }
  intros [] w1 [Hwf1 ->]. apply wp_bind, wp_upd, wp_upd. split; [done |].
  destruct Hwf1 as [Ht Hb Hq]. constructor; [by destruct Ht | | done].
  eapply Forall_impl; [exact Hb |]. intros b. by apply live_wf_ext.
Qed.

(** Positions up to [q] are done. *)
Definition substituted (a0 : astate) (f : Z -> Z) (noundo : bool) (p q : Z) (w : world X) : Prop :=
  world_wf w /\
  a_str (abs_world w) = map_region f p q (a_str a0) /\
  map strip (a_bufs (abs_world w)) = map strip (a_bufs a0) /\
  (noundo = true -> a_bufs (abs_world w) = a_bufs a0 /\ 0 <= a_modiff (abs_world w) /\
     modified (abs_world w) = modified a0).

Lemma strip_lookup (bs bs' : list abuf) v b :
  map strip bs' = map strip bs -> bs !! v = Some b ->
  exists b', bs' !! v = Some b' /\ a_live b' = a_live b /\ a_begv b' = a_begv b /\ a_zv b' = a_zv b.
Proof.
  intros E Hb. apply (f_equal (.!! v)) in E. change (@map) with (@fmap list _) in E.
  rewrite !list_lookup_fmap, Hb in E. destruct (bs' !! v) as [b' |]; [| done].
  injection E as E1 E2 E3 E4 _ _ _. exists b'. done.
Qed.

(** One substitution. *)
Lemma wp_substitute_one a0 f v b noundo p q c ch (w : world X) :
  substituted a0 f noundo p q w -> a_bufs a0 !! v = Some b -> a_live b = true ->
  1 <= p -> p <= q -> a_begv b <= q < a_zv b ->
  zget (a_str a0) (q - 1) = Some c -> f c = ch ->
  wp (buffer_replace_char v q ch noundo false;;
      (if noundo then let! m := Fbuffer_modified_p v in Fset_buffer_modified_p m v else ret tt))
    (fun _ => substituted a0 f noundo p (q + 1))
    (fun _ w' => world_wf w' /\ length (w_bufs w') = length (a_bufs a0)) w.
Proof.
  intros (Hwf & Hs & Hbs & Hn) Hb Hl Hp Hq Hz Hc Hf.
  destruct (strip_lookup _ _ _ _ Hbs Hb) as (b' & Hb' & El & Ev & Ez). rewrite Hl in El.
  assert (exists bw, w_bufs w !! v = Some bw /\ b' = abs_buf (w_text w) bw) as (bw & Hbw & ->).
  { unfold abs_world in Hb'. cbn [a_bufs] in Hb'. change (@map) with (@fmap list _) in Hb'.
    rewrite list_lookup_fmap in Hb'. destruct (w_bufs w !! v); [| done]. injection Hb' as <-. eauto. }
  apply wp_bind. eapply wp_mono; [eapply (replace_silent silent v bw q ch noundo false); try done; cbn in *; lia | |].
  2: { intros e w1 [? HL]. split; [done |]. rewrite HL, <- (length_abs w).
    apply (f_equal length) in Hbs. by rewrite !length_map in Hbs. }
  intros _ w1 [E1 Hwf1]. set (a := abs_world w) in *.
  assert (a_str (abs_world w1) = map_region f p (q + 1) (a_str a0)) as Hs1.
  { rewrite E1. unfold spec_replace. cbn [a_str set_a_text]. rewrite Hs, <- Hf.
    by rewrite (map_region_step _ _ _ _ c). }
  assert (map strip (a_bufs (abs_world w1)) = map strip (a_bufs a0)) as Hbs1.
  { rewrite E1, <- Hbs. unfold spec_replace. cbn [a_bufs set_a_text]. destruct noundo; [done |].
    apply strip_record. }
  destruct noundo; [| by apply wp_ret].
  destruct (Hn eq_refl) as (Hn1 & Hn2 & Hn3).
  assert (a_bufs (abs_world w1) = a_bufs a0 /\ 0 <= a_modiff (abs_world w1) /\
    modified (abs_world w1) = modified a0) as (M1 & M2 & M3) by (rewrite E1; done).
  apply wp_bind. apply wp_bind, wp_get, wp_ret.
  change (t_save_modiff (w_text w1) <? t_modiff (w_text w1)) with (modified (abs_world w1)). rewrite M3.
  eapply wp_mono; [by apply (wp_set_modified _ _ (abs_world w1)) | |].
  2: { intros e w2 [E2 ?]. split; [done |]. rewrite <- (length_abs w2), E2.
    apply (f_equal length) in Hbs1. by rewrite !length_map in Hbs1. }
  intros _ w2 [E2 Hwf2]. split_and!; [done | rewrite E2; exact Hs1 | rewrite E2; exact Hbs1 |]. intros _.
  rewrite E2. split_and!; [exact M1 | unfold marked; cbn [a_modiff]; lia | by apply modified_marked].
Qed.

Lemma wp_subst_loop n a0 fromc toc v b noundo p q (w : world X) :
  substituted a0 (substitute fromc toc) noundo p q w -> a_bufs a0 !! v = Some b -> a_live b = true ->
  1 <= p -> p <= q -> a_begv b <= p -> q + Z.of_nat n <= a_zv b -> a_zv b - 1 <= zlen (a_str a0) ->
  wp (subst_loop n v q fromc toc noundo)
    (fun _ => substituted a0 (substitute fromc toc) noundo p (q + Z.of_nat n))
    (fun _ w' => world_wf w' /\ length (w_bufs w') = length (a_bufs a0)) w.
Proof.
  revert q w. induction n as [| n IH]; intros q w Hw Hb Hl Hp Hpq Hv Hz Hs.
  { rewrite Z.add_0_r. by apply wp_ret. }
  destruct (zget_is_Some (a_str a0) (q - 1)) as [c Hc]; [lia |].
  pose proof Hw as (Hwf & Hstr & _).
  assert (zget (text_str (w_text w)) (q - 1) = Some c) as Hc'.
  { change (text_str (w_text w)) with (a_str (abs_world w)). rewrite Hstr, zget_map_region, Hc.
    cbn. by rewrite (proj2 (Z.ltb_ge (q - 1) (q - 1))), andb_false_r by lia. }
  pose proof (zget_Some_bound _ _ _ Hc') as Hlt. rewrite length_text_str in Hlt by apply Hwf.
  cbn [subst_loop]. apply wp_bind. unfold wp at 1. rewrite (FETCH_run q w c) by (done || lia).
  apply wp_bind.
  assert (forall w', substituted a0 (substitute fromc toc) noundo p (q + 1) w' ->
    wp (subst_loop n v (q + 1) fromc toc noundo)
      (fun _ => substituted a0 (substitute fromc toc) noundo p (q + Z.of_nat (S n)))
      (fun _ w' => world_wf w' /\ length (w_bufs w') = length (a_bufs a0)) w') as Hrest.
  { intros w' Hw'. replace (q + Z.of_nat (S n)) with (q + 1 + Z.of_nat n) by lia.
    apply IH; (done || lia). }
  destruct (c =? fromc) eqn:Ec.
  - eapply wp_mono; [eapply wp_substitute_one; try done; [..| unfold substitute; by rewrite Ec]; lia | | done].
    intros ? w'. apply Hrest.
  - apply wp_ret, Hrest. destruct Hw as (_ & _ & Hbs & Hn). split_and!; try done.
    rewrite Hstr, (map_region_step _ _ _ _ c) by (done || lia).
    assert (substitute fromc toc c = c) as -> by (unfold substitute; by rewrite Ec).
    unfold zset. rewrite (proj2 (Z.ltb_ge _ _)) by lia. rewrite list_insert_id; [done |].
    rewrite <- zget_lookup by lia. rewrite <- Hc', <- Hstr. done.
Qed.

(** Fields of a buffer that matter to nobody's well-formedness. *)
Lemma wf_field f v (w : world X) :
  (forall t b, live_wf t b -> live_wf t (f b)) -> world_wf w -> world_wf (upd_buf v f w).
Proof.
  intros Hf [Ht Hb Hq]. constructor; [done | | done].
  apply Forall_alter; [done |]. intros b _. apply Hf.
Qed.

Lemma wf_undo_field v u (w : world X) :
  world_wf w -> world_wf (upd_buf v (fun b => set_undo_list b u) w).
Proof. apply wf_field. intros t b. unfold live_wf. cbn. destruct (b_live b); [by intros [] | done]. Qed.

Lemma wf_filename_field v f (w : world X) :
  world_wf w -> world_wf (upd_buf v (fun b => set_filename b f) w).
Proof. apply wf_field. intros t b. unfold live_wf. cbn. destruct (b_live b); [by intros [] | done]. Qed.

Lemma abs_upd_buf f g v (w : world X) :
  (forall b, abs_buf (w_text w) (f b) = g (abs_buf (w_text w) b)) ->
  a_bufs (abs_world (upd_buf v f w)) = alter g v (a_bufs (abs_world w)).
Proof.
  intros Hf. unfold abs_world. cbn. change (@map) with (@fmap list _).
  apply list_eq. intros i. rewrite list_lookup_fmap. destruct (decide (v = i)) as [<- |].
  - rewrite !list_lookup_alter, !decide_True, list_lookup_fmap by done.
    destruct (w_bufs w !! v); [| done]. cbn. by rewrite Hf.
  - by rewrite !list_lookup_alter_ne, list_lookup_fmap.
Qed.

Lemma strip_alter_undo u v bs : map strip (alter (fun b => set_a_undo b u) v bs) = map strip bs.
Proof.
  change (@map) with (@fmap list _). apply list_eq. intros i. rewrite !list_lookup_fmap.
  destruct (decide (v = i)) as [<- | Hne].
  - rewrite list_lookup_alter, decide_True by done. by destruct (bs !! v).
  - by rewrite list_lookup_alter_ne.
Qed.

(** The loop in its session. *)
Lemma wp_subst_session v b fromc toc noundo p q (w : world X) :
  world_wf w -> a_bufs (abs_world w) !! v = Some b -> a_live b = true ->
  1 <= a_begv b -> a_begv b <= p -> p <= q -> q <= a_zv b ->
  a_zv b - 1 <= zlen (a_str (abs_world w)) -> 0 <= a_modiff (abs_world w) ->
  wp (in_multiple_change_session v p q (subst_loop (Z.to_nat (q - p)) v p fromc toc noundo))
    (fun _ => substituted (abs_world w) (substitute fromc toc) noundo p q) (fun _ => world_wf) w.
Proof.
  intros Hwf Hb Hl H1 Hp Hpq Hq Hs Hm. pose proof (lookup_lt_Some _ _ _ Hb) as Hv.
  unfold abs_world in Hv. cbn [a_bufs] in Hv. rewrite length_map in Hv.
  set (a := abs_world w) in *.
  eapply wp_mono; [apply (wp_session v p q _ (fun _ a' =>
    a_str a' = map_region (substitute fromc toc) p q (a_str a) /\
    map strip (a_bufs a') = map strip (a_bufs a) /\
    (noundo = true -> a_bufs a' = a_bufs a /\ 0 <= a_modiff a' /\ modified a' = modified a)) w Hwf Hv)
    | by intros ? w' | done].
  intros w1 [E1 Hwf1]. eapply wp_mono.
  - eapply (wp_subst_loop (Z.to_nat (q - p)) a fromc toc v b noundo p p w1); try done; try lia.
    split_and!; try done; rewrite E1; [by rewrite map_region_nil by lia | done | done].
  - rewrite Z2Nat.id by lia. replace (p + (q - p)) with q by lia.
    intros ? w2 (Hwf2 & Hs2 & Hb2 & Hn2). split_and!; try done.
    apply (f_equal length) in Hb2. rewrite !length_map in Hb2.
    by rewrite <- (length_abs w2), <- (length_abs w).
  - intros e w2 [Hwf2 HL]. split; [done |]. rewrite HL. apply length_abs.
Qed.

(** C18: subst-char-in-region puts [tochar] for every [fromchar] between its
    positions and changes no other character, and no point, marker or narrowing
    of any buffer on the text.  Without undo no undo list changes
    either, even the current buffer's, which is switched off meanwhile, and the
    text counts as modified if and only if it did before. *)
Theorem subst_char_in_region_substitutes foreign v b start end_ fromchar tochar noundo p q fromc toc
    (w : world X) :
  world_wf w -> g_current (w_glob w) = v -> w_bufs w !! v = Some b -> b_live b = true ->
  get_buffer_range_char foreign v start end_ 0 w = (Done (p, q), w) ->
  CHECK_CHAR_COERCE_INT (X := X) fromchar w = (Done fromc, w) ->
  CHECK_CHAR_COERCE_INT (X := X) tochar w = (Done toc, w) ->
  0 <= t_modiff (w_text w) ->
  wp (Fsubst_char_in_region foreign start end_ fromchar tochar noundo)
    (fun _ w' => world_wf w' /\
       text_str (w_text w') = map_region (substitute fromc toc) p q (text_str (w_text w)) /\
       map strip (a_bufs (abs_world w')) = map strip (a_bufs (abs_world w)) /\
       (noundo = true -> a_bufs (abs_world w') = a_bufs (abs_world w) /\
          modified (abs_world w') = modified (abs_world w)))
    (fun _ => world_wf) w.
Proof.
  intros Hwf <- Hb Hl Er Ef Et Hm.
  pose proof (range_char_Done foreign _ b _ _ 0 _ _ _ Hwf Hb Hl eq_refl eq_refl Er) as R1.
  unfold allowed in R1. change (flag 0 GB_ALLOW_PAST_ACCESSIBLE) with false in R1.
  cbn [fst snd] in R1. destruct R1 as (_ & R1). pose proof (length_text_str _ (wf_text _ Hwf)) as Hs.
  pose proof (abs_lookup _ _ _ Hb) as Hab.
  unfold Fsubst_char_in_region. apply wp_bind, wp_get. set (v := g_current (w_glob w)) in *.
  apply wp_bind. unfold wp at 1. rewrite Er. apply wp_bind. unfold wp at 1. rewrite Ef.
  apply wp_bind. unfold wp at 1. rewrite Et. cbv zeta. destruct noundo.
  - apply wp_bind. eapply wp_get_buf; [done |]. apply wp_unwind, wp_bind, wp_upd, wp_bind, wp_upd.
    set (w1 := upd_buf v (fun b => set_filename b false) (upd_buf v (fun b => set_undo_list b None) w)).
    assert (a_bufs (abs_world w1) = alter (fun b => set_a_undo b None) v (a_bufs (abs_world w))) as Hb1.
    { unfold w1. rewrite (abs_upd_buf _ id) by done. rewrite (abs_upd_buf _ (fun b => set_a_undo b None)) by done.
      by rewrite list_alter_id. }
    eapply wp_mono; [eapply (wp_subst_session v (set_a_undo (abs_buf (w_text w) b) None) fromc toc true p q w1) | |];
      try (cbn; lia).
    + by apply wf_filename_field, wf_undo_field.
    + rewrite Hb1, list_lookup_alter, decide_True by done. by rewrite Hab.
    + done.
    + intros _ w2 (Hwf2 & Hs2 & Hb2 & Hn2). destruct (Hn2 eq_refl) as (E2 & _ & M2).
      set (w3 := upd_buf v (fun b' => set_undo_list b' (b_undo_list b)) _).
      assert (a_bufs (abs_world w3) = a_bufs (abs_world w)) as Hb3.
      { unfold w3. rewrite (abs_upd_buf _ (fun b' => set_a_undo b' (b_undo_list b))) by done.
        rewrite (abs_upd_buf _ id) by done. rewrite (list_alter_id id), E2, Hb1 by done.
        apply list_eq. intros i. destruct (decide (v = i)) as [<- |]; [| by rewrite !list_lookup_alter_ne].
        by rewrite !list_lookup_alter, !decide_True, Hab by done. }
      split_and!; [by apply wf_undo_field, wf_filename_field | exact Hs2 | by rewrite Hb3 |].
      intros _. split; [exact Hb3 | exact M2].
    + intros e w2 Hwf2. by apply wf_undo_field, wf_filename_field.
  - eapply wp_mono; [eapply (wp_subst_session v (abs_buf (w_text w) b)); cbn; try done; lia | | done].
    intros ? w2 (Hwf2 & Hs2 & Hb2 & _). done.
Qed.
End Substitution.

(** ** The theorems at work *)

#[local] Existing Instance quiet.

Lemma hello_whole p q : 1 <= p -> q <= 6 -> whole (abs_world hello) p q.
Proof. intros ? ? [| i] b Hb _; [| done]. injection Hb as <-. cbn. lia. Qed.

(** "hello" becomes "lohel": the regions touch. *)
Lemma transpose_regions_swaps_witness :
  wp (Ftranspose_regions (fun _ => None) (fun _ => None) (LInt 1) (LInt 4) (LInt 6) (LInt 4))
    (fun _ w' => world_wf w' /\ text_str (w_text w') = [108; 111; 104; 101; 108])
    (fun _ => world_wf) hello.
Proof.
  pose proof (transpose_regions_swaps (fun _ => None) quiet_hooks_ok (fun _ => None) 0 _
    (LInt 1) (LInt 4) (LInt 6) (LInt 4) 1 4 4 6 hello hello_wf eq_refl eq_refl eq_refl eq_refl eq_refl
    (hello_whole 1 6 ltac:(lia) ltac:(lia)) (hello_room 3 ltac:(lia))) as T. cbv zeta in T.
  assert ((4 <=? 4) && (1 <? 4) && (4 <? 6) = true) as C by reflexivity. rewrite C in T.
  eapply wp_mono; [exact T | | intros ? ? W; exact W]. cbv beta. intros ? w [Hw E]. split; [exact Hw |]. rewrite E. reflexivity.
Defined.

(** "hello" becomes "heLLo", without undo. *)
Lemma subst_char_in_region_substitutes_witness :
  wp (Fsubst_char_in_region (fun _ => None) (LInt 2) (LInt 5) (LChar 108) (LInt 76) true)
    (fun _ w' => world_wf w' /\ text_str (w_text w') = [104; 101; 76; 76; 111] /\
       map strip (a_bufs (abs_world w')) = map strip (a_bufs (abs_world hello)) /\
       (true = true -> a_bufs (abs_world w') = a_bufs (abs_world hello) /\
          modified (abs_world w') = true))
    (fun _ => world_wf) hello.
Proof.
  pose proof (subst_char_in_region_substitutes quiet_hooks_ok (fun _ => None) 0 _
    (LInt 2) (LInt 5) (LChar 108) (LInt 76) true 2 5 108 76 hello hello_wf eq_refl eq_refl eq_refl
    eq_refl eq_refl eq_refl ltac:(cbn; lia)) as T.
  eapply wp_mono; [exact T | | intros ? ? W; exact W]. cbv beta. intros ? w (Hw & E & Es & En).
  split_and!; [exact Hw | rewrite E; reflexivity | exact Es | exact En].
Defined.
