(* ===== verification/Syntax.v ===== *)
(** * Syntax tables and motion over words (src/src/syntax.c, syntax.h, chartab.c)

    A char table has an object for each of the 256 characters; the mirror table of a
    syntax table has the syntax codes themselves.  Syntax is taken from the table of the
    buffer
    ([lookup_syntax_properties] is off, as it is by default).  Each word is preceded by a
    check for a quit, and so is the way over it. *)

From S2P Require Import Prelude Lisp Buffer Scan Undo Insdel Gap Hooks EditSpec Edit.
From S2P Require Import Insertion Deletion Editing Editfns Commands.

(** ** Char tables *)

Record Lisp_Char_Table (A : Type) := mk_char_table { ascii : Z -> A }.
Arguments mk_char_table {A} _.
Arguments ascii {A} _ _.

Definition get_char_table {A} (ch : Z) (ct : Lisp_Char_Table A) : A := ascii ct (Z.land ch 255).

(** ** Syntax codes *)

Inductive syntaxcode :=
| Swhitespace | Spunct | Sword | Ssymbol | Sopen | Sclose | Squote | Sstring | Smath | Sescape
| Scharquote | Scomment | Sendcomment | Sinherit | Scomment_fence | Sstring_fence | Smax.

#[export] Instance syntaxcode_eq_dec : EqDecision syntaxcode.
Proof. solve_decision. Defined.

Definition syntax_codes : list syntaxcode :=
  [Swhitespace; Spunct; Sword; Ssymbol; Sopen; Sclose; Squote; Sstring; Smath; Sescape;
   Scharquote; Scomment; Sendcomment; Sinherit; Scomment_fence; Sstring_fence].

(** A number beyond the last code is none of them. *)
Definition SYNTAX_FROM_CODE (code : Z) : syntaxcode := default Smax (zget syntax_codes (Z.land code 127)).

(** A mirror table holds integers only. *)
Definition SYNTAX_CODE (table : Lisp_Char_Table Z) (c : Z) : Z := get_char_table c table.
Definition SYNTAX (table : Lisp_Char_Table Z) (c : Z) : syntaxcode := SYNTAX_FROM_CODE (SYNTAX_CODE table c).
Definition WORD_SYNTAX_P (table : Lisp_Char_Table Z) (c : Z) : bool := bool_decide (SYNTAX table c = Sword).

(** ** Words *)

Section Words.
Context {X : Type}.
Variable mirrortab : Lisp_Char_Table Z.
Variable words_include_escapes : bool.

(** What both loops of each direction ask of a character. *)
Definition in_word (c : Z) : bool :=
  let code := SYNTAX mirrortab c in
  (words_include_escapes && (bool_decide (code = Sescape) || bool_decide (code = Scharquote))) ||
  bool_decide (code = Sword).

(** One step forward or back, and the character on the way. *)
Definition step_from (forward : bool) (from : Z) : Z := if forward then from + 1 else from - 1.
Definition char_at_step (forward : bool) (from : Z) : M X Z := FETCH (if forward then from else from - 1).

(** To the first word character and over it; [None] when the limit comes first. *)
Fixpoint seek_word (fuel : nat) (forward : bool) (from limit : Z) : M X (option Z) :=
  match fuel with
  | O => of_option None
  | S fuel =>
      if from =? limit then ret None else
      let! ch := char_at_step forward from in
      let from := step_from forward from in
      if in_word ch then ret (Some from) else seek_word fuel forward from limit
  end.

(** Over the rest of the word. *)
Fixpoint pass_word (fuel : nat) (forward : bool) (from limit : Z) : M X Z :=
  match fuel with
  | O => of_option None
  | S fuel =>
      if from =? limit then ret from else
      let! ch := char_at_step forward from in
      if in_word ch then pass_word fuel forward (step_from forward from) limit else ret from
  end.

Fixpoint words_loop (fuel : nat) (forward : bool) (count from limit : Z) : M X Z :=
  match fuel with
  | O => of_option None
  | S fuel =>
      if count =? 0 then ret from else
      let n := S (Z.to_nat (Z.abs (limit - from))) in
      QUIT;;
      let! found := seek_word n forward from limit in
      match found with
      | None => ret 0
      | Some from =>
          QUIT;;
          let! from := pass_word n forward from limit in
          words_loop fuel forward (if forward then count - 1 else count + 1) from limit
      end
  end.

(** [count] is an [int].  Each word takes up a character, so the words that are passed are
    no more than the characters up to the limit. *)
Definition scan_words (v : nat) (from count : Z) : M X Z :=
  let count := to_int count in
  let! b := get_buf v in
  let limit := if count >? 0 then b_zv b else b_begv b in
  words_loop (S (S (Z.to_nat (Z.abs (limit - from))))) (count >? 0) count from limit.

(** The result tells whether there were so many words. *)
Definition Fforward_word (count : option Lisp_Object) (v : nat) : M X bool :=
  let! n :=
    match count with
    | None => ret 1
    | Some (LInt n) => ret n
    | Some x => signal (Qwrong_type_argument "integerp" x)
    end in
  let! b := get_buf v in
  let! val := scan_words v (b_pt b) n in
  let! b := get_buf v in
  if negb (val =? 0) then (set_buffer_point v val;; ret true)
  else (set_buffer_point v (if n >? 0 then b_zv b else b_begv b);; ret false).
End Words.

(** ** What words are *)

(** The places where a word ends, in a line of characters that are in words or not:
    behind a character of a word that none follows. *)
Definition word_ends (l : list bool) : list nat :=
  filter (fun k => l !! pred k = Some true /\ l !! k <> Some true) (seq 1 (length l)).

Lemma filter_map_S (P Q : nat -> Prop) `{!forall n, Decision (P n), !forall n, Decision (Q n)} (l : list nat) :
  (forall k, k ∈ l -> P (S k) <-> Q k) -> filter P (S <$> l) = S <$> filter Q l.
Proof.
  induction l as [| k l IH]; intros HPQ; [done |]. cbn [fmap list_fmap]. rewrite !filter_cons.
  assert (P (S k) <-> Q k) as Hk by (apply HPQ; set_solver). specialize (IH ltac:(intros; apply HPQ; set_solver)).
  destruct (decide (P (S k))), (decide (Q k)); try tauto; cbn; by rewrite IH.
Qed.

Lemma word_ends_cons b l :
  word_ends (b :: l) =
    (if b && negb (default false (head l)) then [1%nat] else []) ++ (S <$> word_ends l).
Proof.
  unfold word_ends. cbn [length seq]. rewrite filter_cons, <- (seq_shift (length l) 1).
  change (@map nat nat) with (@fmap list _ nat nat). assert (forall k, k ∈ seq 1 (length l) ->
    ((b :: l) !! pred (S k) = Some true /\ (b :: l) !! S k <> Some true <-> l !! pred k = Some true /\ l !! k <> Some true)) as Hk.
  { intros k Hk. apply elem_of_seq in Hk. destruct k; [lia |]. done. }
  assert ((if b && negb (default false (head l)) then [1%nat] else []) =
    if decide ((b :: l) !! pred 1 = Some true /\ (b :: l) !! 1%nat <> Some true) then [1%nat] else []) as ->.
  { cbn. destruct b, l as [| [] l]; cbn; case_decide; try done; naive_solver. }
  rewrite (filter_map_S _ (fun k => l !! pred k = Some true /\ l !! k <> Some true)) by exact Hk.
  by case_decide.
Qed.

(** Over what is in no word, and over a word. *)
Lemma word_ends_outside i l : word_ends (replicate i false ++ l) = (fun k => (i + k)%nat) <$> word_ends l.
Proof.
  induction i as [| i IH]; cbn [replicate app]; [by rewrite list_fmap_id |].
  rewrite word_ends_cons, IH, <- list_fmap_compose. done.
Qed.

Lemma word_ends_word j l :
  head l <> Some true -> word_ends (replicate (S j) true ++ l) = (S j) :: ((fun k => (S j + k)%nat) <$> word_ends l).
Proof.
  intros Hl. induction j as [| j IH].
  - cbn [replicate app]. rewrite word_ends_cons. by destruct l as [| [] l].
  - change (replicate (S (S j)) true ++ l) with (true :: (replicate (S j) true ++ l)). rewrite word_ends_cons, IH.
    cbn. f_equal. rewrite <- list_fmap_compose. done.
Qed.

(** A line has no word, or a first word. *)
Lemma first_word l :
  l = replicate (length l) false \/
  exists i j l', l = replicate i false ++ replicate (S j) true ++ l' /\ head l' <> Some true.
Proof.
  induction l as [| b l IH]; [by left |]. destruct b.
  - right. exists 0%nat. destruct IH as [-> | (i & j & l' & -> & Hl')].
    + exists 0%nat, (replicate (length l) false). split; [done |]. by destruct (length l).
    + destruct i as [| i]; [by exists (S j), l' |].
      by exists 0%nat, (replicate (S i) false ++ replicate (S j) true ++ l').
  - destruct IH as [E | (i & j & l' & -> & Hl')]; [left; cbn; by f_equal | right].
    by exists (S i), j, l'.
Qed.

(** ** What the loops find *)

Section Scan.
Context {X : Type}.
Variable mirrortab : Lisp_Char_Table Z.
Variable words_include_escapes : bool.
Variable w : world X.
Variable forward : bool.

Abbreviation in_word := (in_word mirrortab words_include_escapes).

(** The place [k] characters on. *)
Definition along (from : Z) (k : nat) : Z := if forward then from + Z.of_nat k else from - Z.of_nat k.

(** The characters from [from] to [limit]. *)
Definition line (from limit : Z) (l : list bool) : Prop :=
  limit = along from (length l) /\
  forall k b, l !! k = Some b -> exists c, char_at_step forward (along from k) w = (Done c, w) /\ in_word c = b.

Lemma along_0 from : along from 0 = from.
Proof. unfold along. destruct forward; lia. Qed.

Lemma along_along from i k : along (along from i) k = along from (i + k).
Proof. unfold along. destruct forward; lia. Qed.

Lemma along_step from : step_from forward from = along from 1.
Proof. by unfold along, step_from; destruct forward. Qed.

Lemma line_app from limit l1 l2 : line from limit (l1 ++ l2) -> line (along from (length l1)) limit l2.
Proof.
  intros [-> H]. split; [by rewrite along_along, length_app |]. intros k b Hk. rewrite along_along. apply H.
  rewrite lookup_app_r by lia. by replace (length l1 + k - length l1)%nat with k by lia.
Qed.

Lemma line_cons from limit b l : line from limit (b :: l) ->
  (from =? limit) = false /\ (exists c, char_at_step forward from w = (Done c, w) /\ in_word c = b) /\
  line (step_from forward from) limit l.
Proof.
  intros H. split_and!.
  - destruct H as [-> _]. unfold along. cbn. destruct forward; zdec; lia.
  - destruct H as [_ H]. specialize (H 0%nat b eq_refl). by rewrite along_0 in H.
  - rewrite along_step. by apply (line_app from limit [b] l).
Qed.

Lemma line_nil from limit : line from limit [] -> (from =? limit) = true.
Proof. intros [-> _]. rewrite along_0. apply Z.eqb_refl. Qed.

Abbreviation seek := (seek_word mirrortab words_include_escapes).
Abbreviation pass := (pass_word mirrortab words_include_escapes).

Lemma seek_none fuel from limit n :
  line from limit (replicate n false) -> (n < fuel)%nat -> seek fuel forward from limit w = (Done None, w).
Proof.
  revert from fuel. induction n as [| n IH]; intros from [| fuel] Hl Hf; try lia; cbn [seek_word].
  - by rewrite (line_nil _ _ Hl).
  - cbn [replicate] in Hl. destruct (line_cons _ _ _ _ Hl) as (-> & (c & Ec & Hc) & Hl'). unfold bind. rewrite Ec.
    cbv zeta. rewrite Hc. apply IH; [done | lia].
Qed.

Lemma seek_some fuel from limit i l :
  line from limit (replicate i false ++ true :: l) -> (i < fuel)%nat ->
  seek fuel forward from limit w = (Done (Some (along from (S i))), w).
Proof.
  revert from fuel. induction i as [| i IH]; intros from [| fuel] Hl Hf; try lia; cbn [seek_word]; cbn [replicate app] in Hl;
    destruct (line_cons _ _ _ _ Hl) as (-> & (c & Ec & Hc) & Hl'); unfold bind; rewrite Ec; cbv zeta; rewrite Hc, ?along_step.
  - done.
  - rewrite along_step in Hl'. rewrite IH by (done || lia). by rewrite along_along.
Qed.

Lemma pass_run fuel from limit j l :
  line from limit (replicate j true ++ l) -> head l <> Some true -> (j + length l < fuel)%nat ->
  pass fuel forward from limit w = (Done (along from j), w).
Proof.
  revert from fuel. induction j as [| j IH]; intros from [| fuel] Hl Hh Hf; try lia; cbn [pass_word]; cbn [replicate app] in Hl.
  - rewrite along_0. destruct l as [| b l]; [by rewrite (line_nil _ _ Hl) |].
    destruct (line_cons _ _ _ _ Hl) as (-> & (c & Ec & Hc) & Hl'). unfold bind. rewrite Ec, Hc. by destruct b.
  - destruct (line_cons _ _ _ _ Hl) as (-> & (c & Ec & Hc) & Hl'). unfold bind. rewrite Ec, Hc. rewrite along_step in *.
    rewrite IH by (done || lia). by rewrite along_along.
Qed.

(** After [count] words, or nowhere. *)
Definition after_words (from : Z) (l : list bool) (count : nat) : Z :=
  match count with
  | O => from
  | S n => match word_ends l !! n with Some k => along from k | None => 0 end
  end.

End Scan.

(** ** Checks for a quit *)

(** [n] checks one after the other: whether one of them quits, and what the globals are
    then. *)
Fixpoint poll (n : nat) (g : globals) : bool * globals :=
  match n with
  | O => (false, g)
  | S n =>
      let g := check_quit g in
      if should_quit g then (true, set_quit g QuitNil (g_signals g)) else poll n g
  end.

Abbreviation with_glob g w := (upd_glob (fun _ => g) w).

Lemma QUIT_run {X} g (w : world X) :
  QUIT (with_glob g w) =
    (if should_quit (check_quit g)
     then (Signal Qquit, with_glob (set_quit (check_quit g) QuitNil (g_signals (check_quit g))) w)
     else (Done tt, with_glob (check_quit g) w)).
Proof. unfold QUIT, QUITP, bind, upd, get. cbn. by destruct (should_quit (check_quit g)). Qed.

(** Only the quit flag and what is still to be typed change; where quitting is inhibited
    no check quits. *)
Lemma poll_spec n g : quit_ok g ->
  quit_ok (poll n g).2 /\ (poll n g).2 = set_quit g (g_quit_flag (poll n g).2) (g_signals (poll n g).2) /\
  (g_inhibit_quit g = true -> (poll n g).1 = false).
Proof.
  revert g. induction n as [| n IH]; intros g Hg; cbn [poll]; [split_and!; [done | by destruct g | done] |].
  destruct (check_quit_only g Hg) as (Hok & Ec & _). destruct (should_quit (check_quit g)) eqn:Es; cbn [fst snd].
  - split_and!; [destruct Hok; split; [done | done] | rewrite Ec; by destruct g |].
    intros Hi. rewrite inhibited_no_quit in Es; [done | done | by rewrite Ec].
  - destruct (IH (check_quit g) Hok) as (H1 & H2 & H3). split_and!; [done | | intros Hi; apply H3; by rewrite Ec].
    rewrite H2 at 1. rewrite Ec. by destruct g.
Qed.

(** How often it is checked: before each word that is looked for, and in each that is found. *)
Definition quit_checks (count words : nat) : nat :=
  if (count <=? words)%nat then (2 * count)%nat else S (2 * words).

Section Loop.
Context {X : Type}.
Variable mirrortab : Lisp_Char_Table Z.
Variable words_include_escapes : bool.
Variable forward : bool.
Abbreviation line := (line mirrortab words_include_escapes).

Lemma line_glob g (w : world X) from limit l : line w forward from limit l -> line (with_glob g w) forward from limit l.
Proof.
  intros [E H]. split; [exact E |]. intros k b Hk. destruct (H k b Hk) as (c & Hc & Hw). exists c. split; [| done].
  revert Hc. unfold char_at_step, FETCH, bind, get, of_option. cbn. destruct (BUF_FETCH_CHAR _ _); [| done]. by intros [= ->].
Qed.

Lemma words_loop_run fuel g (w : world X) from limit l count :
  line w forward from limit l -> (length l < fuel)%nat -> (if forward then 0 <= count else count <= 0) ->
  let n := Z.to_nat (Z.abs count) in
  let r := poll (quit_checks n (length (word_ends l))) g in
  words_loop mirrortab words_include_escapes fuel forward count from limit (with_glob g w) =
    (if r.1 then Signal Qquit else Done (after_words forward from l n), with_glob r.2 w).
Proof.
  revert g from l count. induction fuel as [| fuel IH]; intros g from l count Hl Hf Hc; [lia |]. cbv zeta. cbn [words_loop].
  destruct (Z.eqb_spec count 0) as [-> | Hc0]; [done |]. cbv zeta.
  destruct (Z.to_nat (Z.abs count)) as [| n] eqn:En; [lia |]. cbn [after_words].
  assert (Z.to_nat (Z.abs (limit - from)) = length l) as ->
    by (destruct Hl as [-> _]; unfold along; destruct forward; lia).
  unfold bind at 1. rewrite QUIT_run.
  destruct (first_word l) as [E | (i & j & l' & -> & Hh)].
  - assert (word_ends l = []) as -> by (by rewrite E, <- (app_nil_r (replicate _ _)), word_ends_outside).
    unfold quit_checks. cbn [Nat.leb length poll Nat.mul]. destruct (should_quit (check_quit g)); [done |].
    unfold bind. rewrite E in Hl.
    by rewrite (seek_none _ _ _ _ _ _ _ (length l) (line_glob (check_quit g) _ _ _ _ Hl)) by lia.
  - rewrite word_ends_outside, word_ends_word by done. cbn [fmap list_fmap length]. rewrite !length_fmap.
    assert (quit_checks (S n) (S (length (word_ends l'))) = S (S (quit_checks n (length (word_ends l'))))) as ->
      by (unfold quit_checks; cbn [Nat.leb]; destruct (_ <=? _)%nat; lia).
    cbn [poll]. destruct (should_quit (check_quit g)); [done |]. set (g1 := check_quit g).
    unfold bind at 1.
    rewrite (seek_some _ _ _ _ _ _ _ i (replicate j true ++ l') (line_glob g1 _ _ _ _ Hl))
      by (rewrite length_app, length_replicate; lia).
    cbv iota beta. unfold bind at 1. rewrite QUIT_run. destruct (should_quit (check_quit g1)); [done |]. set (g2 := check_quit g1).
    unfold bind.
    assert (line w forward (along forward from (S i)) limit (replicate j true ++ l')) as Hl2.
    { replace (S i) with (length (replicate i false ++ [true])) by (rewrite length_app, length_replicate; cbn; lia).
      apply line_app. by rewrite <- app_assoc. }
    rewrite (pass_run _ _ _ _ _ _ _ j l' (line_glob g2 _ _ _ _ Hl2)) by (done || (rewrite !length_app, !length_replicate; cbn; lia)).
    rewrite along_along.
    assert (line w forward (along forward from (S i + j)) limit l') as Hl3.
    { rewrite <- along_along. rewrite <- (length_replicate j true) at 1. by apply line_app. }
    rewrite (IH g2 _ l') by (done || (revert Hf; rewrite !length_app, !length_replicate; cbn; lia) || (destruct forward; lia)).
    assert (Z.to_nat (Z.abs (if forward then count - 1 else count + 1)) = n) as -> by (destruct forward; lia).
    f_equal. destruct (poll _ g2).1; [done |]. f_equal. unfold after_words. destruct n as [| n].
    + cbn. f_equal. lia.
    + rewrite lookup_cons. rewrite !list_lookup_fmap. destruct (word_ends l' !! n); [| done]. cbn.
      rewrite along_along. f_equal. lia.
Qed.
End Loop.

(** ** In a buffer *)

Section Buffers.
Context {X : Type}.
Variable mirrortab : Lisp_Char_Table Z.
Variable words_include_escapes : bool.
Abbreviation in_word := (in_word mirrortab words_include_escapes).

(** The characters from [from] to the end of the accessible part, or back from [from] to
    its beginning, in the order of the search: which of them are in words. *)
Definition words_along (w : world X) (b : buffer) (from : Z) (forward : bool) : list bool :=
  in_word <$>
    (if forward then slice (text_str (w_text w)) (from - 1) (b_zv b - from)
     else reverse (slice (text_str (w_text w)) (b_begv b - 1) (from - b_begv b))).

(** Where the [count]th word on the way ends; 0 when there are not so many. *)
Definition nth_word (w : world X) (b : buffer) (from count : Z) : Z :=
  if count =? 0 then from
  else match word_ends (words_along w b from (count >? 0)) !! Z.to_nat (Z.abs count - 1) with
       | Some k => if count >? 0 then from + Z.of_nat k else from - Z.of_nat k
       | None => 0
       end.

Lemma buffer_line (w : world X) b from forward :
  world_wf w -> buffer_wf (w_text w) b -> b_begv b <= from <= b_zv b ->
  line mirrortab words_include_escapes w forward from (if forward then b_zv b else b_begv b) (words_along w b from forward).
Proof.
  intros Hwf [H1 _ H2 _] Hf. pose proof (length_text_str _ (wf_text _ Hwf)) as Hs. unfold words_along. split.
  - rewrite length_fmap. destruct forward; rewrite ?length_reverse; unfold along.
    + rewrite length_slice by lia. lia.
    + rewrite length_slice by lia. lia.
  - intros k b' Hk. apply list_lookup_fmap_Some in Hk as (c & -> & Hc). exists c. split; [| done]. unfold char_at_step, along.
    assert (slice (text_str (w_text w)) (from - 1) (b_zv b - from) !! k = Some c -> zget (text_str (w_text w)) (from + Z.of_nat k - 1) = Some c /\
      from + Z.of_nat k < b_zv b) as Hfw.
    { intros E. pose proof (lookup_lt_Some _ _ _ E) as Hlt. assert (zlen (slice (text_str (w_text w)) (from - 1) (b_zv b - from)) = b_zv b - from)
        by (apply length_slice; lia). split; [| lia]. revert E. unfold slice. rewrite lookup_take_lt, lookup_drop by lia.
      rewrite zget_lookup by lia. by replace (Z.to_nat (from + Z.of_nat k - 1)) with (Z.to_nat (from - 1) + k)%nat by lia. }
    destruct forward.
    + destruct (Hfw Hc). apply FETCH_run; [done | lia | done].
    + set (l := slice _ _ _) in Hc. assert (zlen l = from - b_begv b) as Hl by (apply length_slice; lia).
      pose proof (lookup_lt_Some _ _ _ Hc) as Hlt. rewrite length_reverse in Hlt. rewrite reverse_lookup in Hc by done.
      apply FETCH_run; [done | lia |]. assert (length l - S k < Z.to_nat (from - b_begv b))%nat as Hi by lia.
      assert (Z.to_nat (b_begv b - 1) + (length l - S k) = Z.to_nat (from - Z.of_nat k - 1 - 1))%nat as Ei by lia.
      revert Hi Ei Hc. generalize (length l - S k)%nat as i. intros i Hi Ei. unfold l, slice.
      rewrite lookup_take_lt, lookup_drop, Ei by done. by rewrite zget_lookup by lia.
Qed.

(** The checks on the way. *)
Definition checks_along (w : world X) (b : buffer) (from count : Z) : nat :=
  quit_checks (Z.to_nat (Z.abs count)) (length (word_ends (words_along w b from (count >? 0)))).

Lemma scan_words_run (w : world X) v b from count :
  world_wf w -> w_bufs w !! v = Some b -> b_live b = true -> b_begv b <= from <= b_zv b ->
  let r := poll (checks_along w b from (to_int count)) (w_glob w) in
  scan_words mirrortab words_include_escapes v from count w =
    (if r.1 then Signal Qquit else Done (nth_word w b from (to_int count)), with_glob r.2 w).
Proof.
  intros Hwf Hb Hl Hf. pose proof (Forall_lookup_1 _ _ _ _ (wf_bufs _ Hwf) Hb) as Hbw. unfold live_wf in Hbw. rewrite Hl in Hbw.
  unfold scan_words, bind, get_buf, get. rewrite Hb. cbn [of_option ret]. cbv zeta. set (n := to_int count).
  pose proof (buffer_line w b from (n >? 0) Hwf Hbw Hf) as Hline.
  assert (with_glob (w_glob w) w = w) as Ew by (by destruct w).
  pose proof (words_loop_run mirrortab words_include_escapes (n >? 0) (S (S (Z.to_nat (Z.abs ((if n >? 0 then b_zv b else b_begv b) - from)))))
    (w_glob w) w from _ _ n Hline) as E. cbv zeta in E. rewrite Ew in E. rewrite E; clear E.
  - unfold checks_along. destruct (poll _ _) as [[] g]; [done |]. cbn [fst snd]. do 2 f_equal. unfold nth_word.
    destruct (Z.eqb_spec n 0) as [-> |]; [done |].
    destruct (Z.to_nat (Z.abs n)) as [| k] eqn:Ek; [lia |]. cbn [after_words].
    replace (Z.to_nat (Z.abs n - 1)) with k by lia. done.
  - destruct Hline as [E _]. unfold along in E. destruct (n >? 0); lia.
  - destruct (Z.gtb_spec n 0); lia.
Qed.

Lemma with_glob_wf g (w : world X) : world_wf w -> quit_ok g -> world_wf (with_glob g w).
Proof. by intros [Ht Hb _] Hg. Qed.

Lemma nth_word_bounds (w : world X) b from count :
  world_wf w -> buffer_wf (w_text w) b -> b_begv b <= from <= b_zv b ->
  nth_word w b from count = 0 \/ b_begv b <= nth_word w b from count <= b_zv b.
Proof.
  intros Hwf Hbw Hf. unfold nth_word. destruct (count =? 0); [by right |].
  destruct (buffer_line w b from (count >? 0) Hwf Hbw Hf) as [E _]. unfold along in E.
  destruct (word_ends _ !! _) as [k |] eqn:Ek; [right | by left].
  apply list_elem_of_lookup_2 in Ek. apply list_elem_of_filter in Ek as [_ Hk%elem_of_seq].
  destruct (count >? 0); lia.
Qed.

(** Point goes behind the words, or to the end that was reached. *)
Lemma forward_word_moves (w : world X) v b count n :
  world_wf w -> w_bufs w !! v = Some b -> b_live b = true ->
  count = Some (LInt n) \/ count = None /\ n = 1 ->
  let p := nth_word w b (b_pt b) (to_int n) in
  let r := poll (checks_along w b (b_pt b) (to_int n)) (w_glob w) in
  exists w', Fforward_word mirrortab words_include_escapes count v w =
      (if r.1 then Signal Qquit else Done (negb (p =? 0)), w') /\
    w_text w' = w_text w /\
    b_pt <$> w_bufs w' !! v =
      Some (if r.1 then b_pt b else if p =? 0 then if n >? 0 then b_zv b else b_begv b else p).
Proof.
  intros Hwf Hb Hl Hn p r. pose proof (Forall_lookup_1 _ _ _ _ (wf_bufs _ Hwf) Hb) as Hbw. unfold live_wf in Hbw. rewrite Hl in Hbw.
  unfold Fforward_word. assert ((match count with
    | None => ret 1 | Some (LInt n) => ret n | Some x => signal (Qwrong_type_argument "integerp" x) end) w = (Done n, w)) as En
    by (by destruct Hn as [-> | [-> ->]]).
  unfold bind at 1. rewrite En. unfold bind at 1, get_buf at 1, bind at 1, get. rewrite Hb. cbn [of_option ret].
  unfold bind at 1. rewrite (scan_words_run w v b (b_pt b) n Hwf Hb Hl) by apply Hbw. cbv zeta. fold p r.
  destruct r as [[] g]; cbn [fst snd].
  { eexists. split; [done |]. cbn. by rewrite Hb. }
  set (w1 := with_glob g w). assert (w_bufs w1 !! v = Some b) as Hb1 by done.
  unfold bind at 1, get_buf, bind at 1, get. rewrite Hb1. cbn [of_option ret].
  assert (forall pos, exists w', set_buffer_point v pos w1 = (Done tt, w') /\ w_text w' = w_text w /\
    b_pt <$> w_bufs w' !! v = Some pos) as Hset.
  { intros pos. destruct (set_buffer_point_run v pos b w1 Hb1) as (g1 & E & _). eexists. split; [exact E |]. split; [done |].
    cbn. rewrite list_lookup_alter_eq, Hb. cbn. f_equal. unfold point_at. by destruct (Z.eqb_spec pos (b_pt b)). }
  destruct (p =? 0); cbn [negb]; [destruct (Hset (if n >? 0 then b_zv b else b_begv b)) as (w' & E & Hrest) | destruct (Hset p) as (w' & E & Hrest)];
    exists w'; (split; [unfold bind; by rewrite E | exact Hrest]).
Qed.
End Buffers.

(** C12: From any accessible position, wherever the gap is, scan_words comes to an end,
    without reading outside of the accessible part.  It checks for a quit before each word
    it looks for and again before it passes one that it found.  If one of these checks
    quits it signals so, which none does where quitting is inhibited; otherwise the result
    is where the [count]th word in that direction ends (for a negative count, begins), or 0
    exactly if there are not so many words.  Nothing changes but the record of what was typed.
    The count is cut to 32 bits. *)
Theorem scan_words_finds {X} mirrortab words_include_escapes (w : world X) v b from count :
  world_wf w -> w_bufs w !! v = Some b -> b_live b = true -> b_begv b <= from <= b_zv b ->
  let p := nth_word mirrortab words_include_escapes w b from (to_int count) in
  let '(quits, g) := poll (checks_along mirrortab words_include_escapes w b from (to_int count)) (w_glob w) in
  scan_words mirrortab words_include_escapes v from count w =
    (if quits then Signal Qquit else Done p, with_glob g w) /\
  (p = 0 \/ b_begv b <= p <= b_zv b) /\
  (g_inhibit_quit (w_glob w) = true -> quits = false) /\ g = set_quit (w_glob w) (g_quit_flag g) (g_signals g).
Proof.
  intros Hwf Hb Hl Hf p. pose proof (Forall_lookup_1 _ _ _ _ (wf_bufs _ Hwf) Hb) as Hbw. unfold live_wf in Hbw. rewrite Hl in Hbw.
  pose proof (scan_words_run mirrortab words_include_escapes w v b from count Hwf Hb Hl Hf) as E. fold p in E.
  pose proof (poll_spec (checks_along mirrortab words_include_escapes w b from (to_int count)) _ (wf_quit _ Hwf)) as (_ & Hg & Hi).
  destruct (poll _ _) as [quits g]. split_and!; [exact E | by apply nth_word_bounds | exact Hi | exact Hg].
Qed.

(** "h-l o", with letters in words and an escape before the o. *)
Definition letters : Lisp_Char_Table Z :=
  mk_char_table (fun c => if (97 <=? c) && (c <=? 122) then 2 else if c =? 92 then 9 else 0).
Definition words_text : buffer_text :=
  mk_text ([97; 98; 32] ++ [0; 0; 0; 0] ++ [99; 92; 100; 32; 101; 32]) 4 10 4 0 1 1 (mk_text_changes 0 0 0 0 false).
Definition typed (sigs : list quit_flag) : world unit := mk_world words_text [plain_buffer 2 1 10 [] None] tt (idle sigs).
Definition words_world : world unit := typed [].

Lemma typed_wf sigs : Forall (fun f => f <> QuitCritical) sigs -> world_wf (typed sigs).
Proof.
  constructor.
  - constructor; cbn; lia.
  - repeat constructor; cbn; lia || done.
  - by repeat constructor.
Qed.

Lemma words_world_wf : world_wf words_world.
Proof. by apply typed_wf. Qed.

(** In the last two something is typed after two and after three checks. *)
Lemma scan_words_finds_witness :
  scan_words letters true 0 2 2 words_world = (Done 7, words_world) /\
  scan_words letters false 0 2 2 words_world = (Done 5, words_world) /\
  scan_words letters true 0 10 (-2) words_world = (Done 4, words_world) /\
  scan_words letters true 0 2 4 words_world = (Done 0, words_world) /\
  scan_words letters true 0 2 2 (typed [QuitNil; QuitNil; QuitT]) = (Signal Qquit, words_world) /\
  scan_words letters true 0 2 1 (typed [QuitNil; QuitNil; QuitT]) = (Done 3, typed [QuitT]).
Proof.
  assert (forall esc from count sigs, 1 <= from <= 10 -> Forall (fun f => f <> QuitCritical) sigs ->
    let r := poll (checks_along letters esc (typed sigs) (plain_buffer 2 1 10 [] None) from (to_int count)) (idle sigs) in
    scan_words letters esc 0 from count (typed sigs) =
      (if r.1 then Signal Qquit
       else Done (nth_word letters esc (typed sigs) (plain_buffer 2 1 10 [] None) from (to_int count)), with_glob r.2 (typed sigs))) as H.
  { intros esc from count sigs Hf Hs.
    pose proof (scan_words_finds letters esc (typed sigs) 0 (plain_buffer 2 1 10 [] None) from count
      (typed_wf sigs Hs) eq_refl eq_refl Hf) as T.
    cbv zeta in T |- *. change (w_glob (typed sigs)) with (idle sigs) in T. destruct (poll _ _) as [quits g]. exact (proj1 T). }
  unfold words_world. split_and!; (rewrite H; [vm_compute; reflexivity | lia | repeat constructor; discriminate]).
Defined.

(** The number of words is cut to 32 bits: 2^32 words forward are none, and they are found. *)
Example forward_word_cuts_count :
  (fun '(r, w) => (r, b_pt <$> w_bufs w !! 0%nat)) (Fforward_word letters true (Some (LInt (2 ^ 32))) 0 words_world) =
    (Done true, Some 2).
Proof. vm_compute. reflexivity. Qed.
