(* ===== verification/Casefiddle.v ===== *)
(** * Case conversion (src/src/casefiddle.c, and the case tables of buffer.h)

    Characters, strings, regions and words in upper, lower and capitalized form.  The case
    table and the syntax table of the buffer are arguments and do not change meanwhile. *)

From S2P Require Import Prelude Lisp Buffer Scan Undo Insdel Gap Hooks EditSpec Edit.
From S2P Require Import Insertion Deletion Editing Editfns Commands TextCommands Syntax.

(** ** Case tables *)

(** For each character nil or a character. *)
Abbreviation trt_table := (Lisp_Char_Table (option Z)).

Definition TRT_TABLE_OF (trt : trt_table) (c : Z) : Z := default c (get_char_table c trt).

Record case_table := mk_case_table {
  CASE_TABLE_DOWNCASE : trt_table;
  CASE_TABLE_UPCASE : trt_table;
}.

Definition DOWNCASE (ct : case_table) (ch : Z) : Z := TRT_TABLE_OF (CASE_TABLE_DOWNCASE ct) ch.
Definition UPCASE (ct : case_table) (ch : Z) : Z :=
  if DOWNCASE ct ch =? ch then TRT_TABLE_OF (CASE_TABLE_UPCASE ct) ch else ch.

(** ** The commands *)

Inductive case_action := CASE_UP | CASE_DOWN | CASE_CAPITALIZE | CASE_CAPITALIZE_UP.

(** A Lisp character or a new string. *)
Inductive cased := CasedChar (c : Z) | CasedString (data : list Z).

Section Casefiddle.
Context {X : Type} `{Collaborators X}.
Variable ct : case_table.
Variable syntax_table : Lisp_Char_Table Z.
Variable words_include_escapes : bool.
Variable foreign_marker_position : positive -> option Z.
Variable string_data : positive -> list Z.

(** The switch of both loops: whether a word goes on, and the new character. *)
Definition casify_char (flag : case_action) (wordp : bool) (c : Z) : bool * Z :=
  match flag with
  | CASE_UP => (wordp, UPCASE ct c)
  | CASE_DOWN => (wordp, DOWNCASE ct c)
  | CASE_CAPITALIZE | CASE_CAPITALIZE_UP =>
      let wordp_prev := wordp in
      let wordp := WORD_SYNTAX_P syntax_table c in
      if negb wordp then (wordp, c)
      else if wordp_prev then
        (wordp, match flag with CASE_CAPITALIZE => DOWNCASE ct c | _ => c end)
      else (wordp, UPCASE ct c)
  end.

(** Up to the first null character: the string ends with one. *)
Fixpoint casify_string (flag : case_action) (wordp : bool) (oldp : list Z) : list Z :=
  match oldp with
  | [] => []
  | c :: oldp =>
      if c =? 0 then [] else
      let '(wordp, c) := casify_char flag wordp c in
      c :: casify_string flag wordp oldp
  end.

Definition casify_object (flag : case_action) (string_or_char : Lisp_Object) : M X cased :=
  if CHAR_OR_CHAR_INTP string_or_char then
    let! c := CHECK_CHAR_COERCE_INT string_or_char in
    ret (CasedChar (match flag with CASE_DOWN => DOWNCASE ct c | _ => UPCASE ct c end))
  else match string_or_char with
  | LRec lrecord_string s => ret (CasedString (casify_string flag false (string_data s)))
  | _ => signal (Qwrong_type_argument "char-or-string-p" string_or_char)
  end.

Definition Fupcase := casify_object CASE_UP.
Definition Fdowncase := casify_object CASE_DOWN.
Definition Fcapitalize := casify_object CASE_CAPITALIZE.
Definition Fupcase_initials := casify_object CASE_CAPITALIZE_UP.

Fixpoint casify_region_loop (n : nat) (flag : case_action) (v : nat) (s pos : Z) (wordp : bool) : M X unit :=
  match n with
  | O => ret tt
  | S n =>
      let! oldc := FETCH pos in
      let '(wordp, c) := casify_char flag wordp oldc in
      (if oldc =? c then ret tt
       else (buffer_replace_char v pos c true (pos =? s);;
             upd (upd_text (fun t => set_modiff t (t_modiff t + 1)))));;
      casify_region_loop n flag v s (pos + 1) wordp
  end.

Definition casify_region_internal (flag : case_action) (start end_ : Lisp_Object) (v : nat) : M X unit :=
  if EQ start end_ then ret tt else
  let! (s, e) := get_buffer_range_char foreign_marker_position v start end_ 0 in
  in_multiple_change_session v s e
    (record_change v s (e - s);;
     casify_region_loop (Z.to_nat (e - s)) flag v s s false).

Definition Fupcase_region := casify_region_internal CASE_UP.
Definition Fdowncase_region := casify_region_internal CASE_DOWN.
Definition Fcapitalize_region := casify_region_internal CASE_CAPITALIZE.
Definition Fupcase_initials_region := casify_region_internal CASE_CAPITALIZE_UP.

Definition casify_word (flag : case_action) (arg : Lisp_Object) (v : nat) : M X unit :=
  match arg with
  | LInt n =>
      let! b := get_buf v in
      let! farend := scan_words syntax_table words_include_escapes v (b_pt b) n in
      let farend := if farend =? 0 then if n >? 0 then b_zv b else b_begv b else farend in
      casify_region_internal flag (LInt (b_pt b)) (LInt farend) v;;
      let! b := get_buf v in
      set_buffer_point v (Z.max (b_pt b) farend)
  | _ => signal (Qwrong_type_argument "integerp" arg)
  end.

Definition Fupcase_word := casify_word CASE_UP.
Definition Fdowncase_word := casify_word CASE_DOWN.
Definition Fcapitalize_word := casify_word CASE_CAPITALIZE.
End Casefiddle.

(** ** The form of a text *)

Section Form.
Variables (ct : case_table) (syntax_table : Lisp_Char_Table Z).
Abbreviation casify_char := (casify_char ct syntax_table).
Abbreviation word c := (WORD_SYNTAX_P syntax_table c).

Fixpoint cased_text (flag : case_action) (wordp : bool) (l : list Z) : list Z :=
  match l with
  | [] => []
  | c :: l => (casify_char flag wordp c).2 :: cased_text flag (casify_char flag wordp c).1 l
  end.

(** What a character becomes, by whether one of a word is before it. *)
Definition cased_after (flag : case_action) (in_word : bool) (c : Z) : Z :=
  match flag with
  | CASE_UP => UPCASE ct c
  | CASE_DOWN => DOWNCASE ct c
  | CASE_CAPITALIZE => if word c then if in_word then DOWNCASE ct c else UPCASE ct c else c
  | CASE_CAPITALIZE_UP => if word c && negb in_word then UPCASE ct c else c
  end.

Lemma length_cased_text flag wordp l : length (cased_text flag wordp l) = length l.
Proof. revert wordp. induction l as [| c l IH]; intros wordp; cbn; [done | by rewrite IH]. Qed.

Lemma casify_char_state flag wordp c :
  (casify_char flag wordp c).1 = (match flag with CASE_UP | CASE_DOWN => wordp | _ => word c end) /\
  (casify_char flag wordp c).2 = cased_after flag wordp c.
Proof. destruct flag, wordp; cbn; try done; by destruct (word c). Qed.

Lemma cased_text_lookup flag wordp l i c :
  l !! i = Some c ->
  cased_text flag wordp l !! i =
    Some (cased_after flag (match i with O => wordp | S j => default false ((fun c => word c) <$> l !! j) end) c).
Proof.
  revert wordp i. induction l as [| x l IH]; intros wordp [| i] Hc; cbn in Hc |- *; [done.. | |].
  - injection Hc as ->. f_equal. apply casify_char_state.
  - rewrite (IH _ _ Hc). f_equal. destruct i as [| i]; [| done]. cbn. rewrite (proj1 (casify_char_state _ _ _)).
    by destruct flag.
Qed.

Lemma casify_string_text flag wordp l : Forall (fun c => c <> 0) l -> forall rest,
  casify_string ct syntax_table flag wordp (l ++ 0 :: rest) = cased_text flag wordp l /\
  casify_string ct syntax_table flag wordp l = cased_text flag wordp l.
Proof.
  intros Hl rest. revert wordp. induction Hl as [| c l Hc Hl IH]; intros wordp; [done |]. cbn [casify_string app cased_text].
  rewrite (proj2 (Z.eqb_neq c 0)) by done. destruct (casify_char flag wordp c) as [wordp' c']. cbn [fst snd].
  destruct (IH wordp') as [E1 E2]. by rewrite E1, E2.
Qed.
End Form.

(** ** In a region *)

(** The text with the characters from [p] to [q] in another form. *)
Definition cased_region (ct : case_table) (syntax_table : Lisp_Char_Table Z) (flag : case_action) (p q : Z) (s : list Z) : list Z :=
  ztake (p - 1) s ++ cased_text ct syntax_table flag false (slice s (p - 1) (q - p)) ++ zdrop (q - 1) s.

(** One buffer records a change of [n] characters from [beg]. *)
Definition change_recorded (i : nat) (a : astate) (beg n : Z) (b : abuf) : abuf :=
  match undo_prelude (a_modiff a) (a_save_modiff a) (a_modtime b) (a_last_undo_here a) (a_undo b) with
  | None => b
  | Some l =>
      let l := push_delete l (a_pt b) beg n
        (if bool_decide (a_last_point_position_buffer a = Some i) then Some (a_last_point_position a) else None)
        (slice (a_str a) (beg - 1) n) in
      set_a_undo b (Some
        match undo_prelude (a_modiff a) (a_save_modiff a) (a_modtime b) true (Some l) with
        | Some l => push_insert l beg n
        | None => l
        end)
  end.

Lemma strip_change_recorded i a beg n v bs :
  map strip (alter (change_recorded i a beg n) v bs) = map strip bs.
Proof.
  change (@map) with (@fmap list _). apply list_eq. intros j. rewrite !list_lookup_fmap.
  destruct (decide (v = j)) as [<- | Hn]; [| by rewrite list_lookup_alter_ne].
  rewrite list_lookup_alter_eq. destruct (bs !! v); [| done]. cbn. f_equal. unfold change_recorded.
  by destruct (undo_prelude _ _ _ _ _).
Qed.

Section Region.
Context {X : Type} `{Collaborators X}.
Hypothesis silent : hooks_ok (X := X) eq.
Variables (ct : case_table) (syntax_table : Lisp_Char_Table Z).

Lemma record_change_run v b beg n (w : world X) :
  world_wf w -> w_bufs w !! v = Some b -> 1 <= beg -> 0 <= n -> beg + n <= t_z (w_text w) ->
  exists w', record_change v beg n w = (Done tt, w') /\ world_wf w' /\ length (w_bufs w') = length (w_bufs w) /\
    a_str (abs_world w') = a_str (abs_world w) /\
    a_bufs (abs_world w') = alter (change_recorded v (abs_world w) beg n) v (a_bufs (abs_world w)).
Proof.
  intros Hwf Hb H1 Hn Hz.
  pose proof (make_string_from_buffer_str (w_text w) beg n (wf_text _ Hwf) ltac:(lia) ltac:(lia) ltac:(lia)) as Hs.
  pose proof (records_change (w_text w) (w_glob w) beg n _ Hs v b w eq_refl Hb
    ltac:(exists (g_last_undo_here (w_glob w)); symmetry; apply set_last_undo_here_id)) as E.
  pose proof (abs_lookup _ _ _ Hb) as Hab.
  destruct (undo_prelude _ _ _ (g_last_undo_here (w_glob w)) (b_undo_list b)) as [l |] eqn:El.
  - eexists. split; [exact E |]. split_and!.
    + destruct Hwf as [Ht Hbs Hq]. constructor; [done | | exact Hq]. cbn. apply Forall_alter; [exact Hbs |].
      intros b' _. unfold live_wf. cbn. destruct (b_live b'); [by intros [] | done].
    + cbn. apply length_alter.
    + done.
    + cbn [abs_world a_bufs w_text w_bufs]. change (@map) with (@fmap list _). apply list_eq. intros i.
      destruct (decide (v = i)) as [<- | Hne].
      * rewrite list_lookup_fmap, !list_lookup_alter_eq, list_lookup_fmap, Hb. cbn. f_equal. unfold change_recorded. cbn.
        cbn in El. rewrite El. done.
      * by rewrite list_lookup_fmap, !list_lookup_alter_ne, list_lookup_fmap by done.
  - eexists. split; [exact E |]. split_and!; [done.. |]. symmetry. apply list_eq. intros i.
    destruct (decide (v = i)) as [<- | Hne]; [| by rewrite list_lookup_alter_ne by done].
    rewrite list_lookup_alter_eq, Hab. cbn. f_equal. unfold change_recorded. cbn. cbn in El. by rewrite El.
Qed.

(** The state in the loop. *)
Definition in_loop (str : list Z) (bs : list abuf) (w : world X) : Prop :=
  world_wf w /\ a_str (abs_world w) = str /\ a_bufs (abs_world w) = bs.

Lemma wp_case_one v b bs c c' pre l s pos (w : world X) :
  in_loop (pre ++ c :: l) bs w -> bs !! v = Some b -> a_live b = true -> pos = zlen pre + 1 -> a_begv b <= pos < a_zv b ->
  wp (if c =? c' then ret tt
      else (buffer_replace_char v pos c' true (pos =? s);; upd (upd_text (fun t => set_modiff t (t_modiff t + 1)))))
    (fun _ => in_loop (pre ++ c' :: l) bs) (fun _ w' => world_wf w' /\ length (w_bufs w') = length bs) w.
Proof.
  intros (Hwf & Hs & Hbs) Hb Hl Hpos Hp. destruct (Z.eqb_spec c c') as [-> | Hc]; [by apply wp_ret |].
  assert (exists bw, w_bufs w !! v = Some bw /\ b = abs_buf (w_text w) bw) as (bw & Hbw & ->).
  { rewrite <- Hbs in Hb. unfold abs_world in Hb. cbn [a_bufs] in Hb. change (@map) with (@fmap list _) in Hb.
    rewrite list_lookup_fmap in Hb. destruct (w_bufs w !! v); [| done]. injection Hb as <-. eauto. }
  apply wp_bind. eapply wp_mono; [eapply (replace_silent silent v bw pos c' true (pos =? s)); try done | |].
  2: { intros e w1 [? HL]. split; [done |]. by rewrite HL, <- (length_abs w), Hbs. }
  intros [] w1 [E1 Hwf1]. apply wp_upd. split_and!.
  - destruct Hwf1 as [Ht Hb1 Hq]. constructor; [by destruct Ht | | done].
    eapply Forall_impl; [exact Hb1 |]. intros b0. by apply live_wf_ext.
  - change (a_str (abs_world w1) = pre ++ c' :: l). rewrite E1. cbn. change (text_str (w_text w)) with (a_str (abs_world w)).
    rewrite Hs. unfold zset. rewrite (proj2 (Z.ltb_ge _ _)) by lia. replace (Z.to_nat (pos - 1)) with (length pre) by lia.
    by rewrite insert_app_r_alt, Nat.sub_diag by done.
  - change (a_bufs (abs_world w1) = bs). rewrite E1. exact Hbs.
Qed.

Lemma wp_case_loop n flag v b bs s : forall pos wordp pre l (w : world X),
  in_loop (pre ++ l) bs w -> bs !! v = Some b -> a_live b = true -> pos = zlen pre + 1 ->
  a_begv b <= pos -> pos + Z.of_nat n <= a_zv b -> (n <= length l)%nat ->
  wp (casify_region_loop ct syntax_table n flag v s pos wordp)
    (fun _ => in_loop (pre ++ cased_text ct syntax_table flag wordp (take n l) ++ drop n l) bs)
    (fun _ w' => world_wf w' /\ length (w_bufs w') = length bs) w.
Proof.
  induction n as [| n IH]; intros pos wordp pre l w Hw Hb Hl Hpos Hv Hz Hn; [by apply wp_ret |].
  destruct l as [| c l]; [cbn in Hn; lia |]. cbn [casify_region_loop]. pose proof Hw as (Hwf & Hs & _).
  assert (zget (text_str (w_text w)) (pos - 1) = Some c) as Hc.
  { change (text_str (w_text w)) with (a_str (abs_world w)). rewrite Hs, zget_lookup by lia.
    rewrite lookup_app_r by lia. by replace (Z.to_nat (pos - 1) - length pre)%nat with 0%nat by lia. }
  pose proof (zget_Some_bound _ _ _ Hc) as Hlt. rewrite length_text_str in Hlt by apply Hwf.
  apply wp_bind. unfold wp at 1. rewrite (FETCH_run pos w c) by (done || lia).
  cbn [take drop cased_text]. destruct (casify_char ct syntax_table flag wordp c) as [wordp' c'] eqn:Ecase. cbn [fst snd].
  apply wp_bind. eapply wp_mono; [by apply (wp_case_one v b bs c c' pre l s pos w); lia || done | | done].
  intros ? w1 Hw1. cbv beta in Hw1. replace (pre ++ (c' :: cased_text ct syntax_table flag wordp' (take n l)) ++ drop n l)
    with ((pre ++ [c']) ++ cased_text ct syntax_table flag wordp' (take n l) ++ drop n l) by (by rewrite <- app_assoc).
  apply IH; [by rewrite <- app_assoc | done | done | lens; lia | lia | lia | cbn in Hn; lia].
Qed.

Lemma wp_case_session flag v b p q (w : world X) :
  world_wf w -> w_bufs w !! v = Some b -> b_live b = true -> 1 <= b_begv b -> b_begv b <= p -> p <= q -> q <= b_zv b ->
  b_zv b <= t_z (w_text w) ->
  wp (in_multiple_change_session v p q
        (record_change v p (q - p);; casify_region_loop ct syntax_table (Z.to_nat (q - p)) flag v p p false))
    (fun _ w' => world_wf w' /\
       text_str (w_text w') = cased_region ct syntax_table flag p q (text_str (w_text w)) /\
       a_bufs (abs_world w') = alter (change_recorded v (abs_world w) p (q - p)) v (a_bufs (abs_world w)))
    (fun _ => world_wf) w.
Proof.
  intros Hwf Hb Hl H1 Hp Hpq Hq Hz. pose proof (lookup_lt_Some _ _ _ Hb) as Hv.
  pose proof (length_text_str _ (wf_text _ Hwf)) as Hs. set (a := abs_world w). set (str := text_str (w_text w)) in *.
  assert (ztake (p - 1) str ++ zdrop (p - 1) str = str) as Estr by apply take_drop.
  assert (zlen (ztake (p - 1) str) = p - 1) as Hpre by (lens; lia).
  eapply wp_mono; [apply (wp_session silent v p q _ (fun _ a' =>
    a_str a' = cased_region ct syntax_table flag p q str /\
    a_bufs a' = alter (change_recorded v a p (q - p)) v (a_bufs a)) w Hwf Hv)
    | by intros ? w' | done].
  intros w1 [E1 Hwf1]. fold a in E1.
  assert (exists b1, w_bufs w1 !! v = Some b1) as [b1 Hb1].
  { apply lookup_lt_is_Some. rewrite <- (length_abs w1), E1. unfold a. by rewrite length_abs. }
  assert (t_z (w_text w1) = t_z (w_text w)) as Hz1.
  { apply (f_equal a_str) in E1. pose proof (length_text_str _ (wf_text _ Hwf1)) as Hs1.
    change (text_str (w_text w1) = str) in E1. rewrite E1 in Hs1. lia. }
  destruct (record_change_run v b1 p (q - p) w1 Hwf1 Hb1) as (w2 & Er & Hwf2 & HL2 & Hs2 & Hbs2); [lia.. |].
  apply wp_bind. unfold wp at 1. rewrite Er. rewrite E1 in Hs2, Hbs2. set (bs := alter _ v (a_bufs a)) in *.
  pose proof (abs_lookup _ _ _ Hb) as Hab. fold a in Hab.
  assert (length bs = length (w_bufs w)) as Hlen by (unfold bs; rewrite length_alter; apply length_abs).
  assert (exists b2, bs !! v = Some b2 /\ a_live b2 = true /\ a_begv b2 = b_begv b /\ a_zv b2 = b_zv b) as (b2 & Hb2 & El2 & Ev2 & Ez2).
  { unfold bs. rewrite list_lookup_alter_eq, Hab. eexists. split; [done |]. unfold change_recorded.
    by destruct (undo_prelude _ _ _ _ _). }
  eapply wp_mono.
  - apply (wp_case_loop (Z.to_nat (q - p)) flag v b2 bs p p false (ztake (p - 1) str) (zdrop (p - 1) str) w2);
      [split_and!; [done | by rewrite Estr, Hs2 | done] | done | done | lia | lia | lia | lens; lia].
  - intros ? w3 (Hwf3 & Hs3 & Hb3). split; [done |]. split; [by rewrite <- (length_abs w3), Hb3 |]. split; [| done].
    rewrite Hs3. unfold cased_region, slice. do 2 f_equal. rewrite drop_drop. f_equal. lia.
  - intros e w3 [Hwf3 HL3]. split; [done |]. by rewrite HL3.
Qed.
End Region.

(** C13: Case conversion of a region runs over it once, gives exactly its characters the form
    asked for, a word being known by the characters before it in the region, changes no
    other character and no point, marker or narrowing, and records one change of the whole
    region, in the undo list of this buffer only: other buffers that share the text have
    no record of it. *)
Theorem casify_region_changes {X} `{Collaborators X} ct syntax_table foreign flag v b start end_ p q (w : world X) :
  hooks_ok (X := X) eq ->
  world_wf w -> w_bufs w !! v = Some b -> b_live b = true -> start <> end_ ->
  get_buffer_range_char foreign v start end_ 0 w = (Done (p, q), w) ->
  wp (casify_region_internal ct syntax_table foreign flag start end_ v)
    (fun _ w' => world_wf w' /\
       text_str (w_text w') = cased_region ct syntax_table flag p q (text_str (w_text w)) /\
       map strip (a_bufs (abs_world w')) = map strip (a_bufs (abs_world w)) /\
       (forall i, i <> v -> a_bufs (abs_world w') !! i = a_bufs (abs_world w) !! i) /\
       a_bufs (abs_world w') !! v = Some (change_recorded v (abs_world w) p (q - p) (abs_buf (w_text w) b)))
    (fun _ => world_wf) w.
Proof.
  intros silent Hwf Hb Hl Hne Er.
  pose proof (range_char_Done foreign _ b _ _ 0 _ _ _ Hwf Hb Hl eq_refl eq_refl Er) as R1.
  unfold allowed in R1. change (Editfns.flag 0 GB_ALLOW_PAST_ACCESSIBLE) with false in R1. cbn [fst snd] in R1.
  pose proof (Forall_lookup_1 _ _ _ _ (wf_bufs _ Hwf) Hb) as Hbw. unfold live_wf in Hbw. rewrite Hl in Hbw. destruct Hbw as [B1 _ B2 _].
  pose proof (abs_lookup _ _ _ Hb) as Hab.
  unfold casify_region_internal. unfold EQ. rewrite bool_decide_eq_false_2 by done. apply wp_bind. unfold wp at 1. rewrite Er.
  eapply wp_mono; [apply (wp_case_session silent ct syntax_table flag v b p q w); (done || lia) | | done].
  intros ? w' (Hwf' & Hs & Hbs). split_and!; [done | done | | |].
  - rewrite Hbs. apply strip_change_recorded.
  - intros i Hi. rewrite Hbs. by apply list_lookup_alter_ne.
  - by rewrite Hbs, list_lookup_alter_eq, Hab.
Qed.

(** ** Words *)

Section WordForm.
Context {X : Type} `{Collaborators X}.
Hypothesis silent : hooks_ok (X := X) eq.
Variables (ct : case_table) (syntax_table : Lisp_Char_Table Z) (words_include_escapes : bool).
Variable foreign : positive -> option Z.

Lemma cased_region_nil flag p s : 1 <= p -> cased_region ct syntax_table flag p p s = s.
Proof. intros. unfold cased_region, slice. rewrite Z.sub_diag. cbn. apply take_drop. Qed.

Lemma cased_between flag v b s e (w : world X) :
  world_wf w -> w_bufs w !! v = Some b -> b_live b = true -> b_begv b <= s <= b_zv b -> b_begv b <= e <= b_zv b ->
  wp (casify_region_internal ct syntax_table foreign flag (LInt s) (LInt e) v)
    (fun _ w' => world_wf w' /\
       text_str (w_text w') = cased_region ct syntax_table flag (Z.min s e) (Z.max s e) (text_str (w_text w)) /\
       map strip (a_bufs (abs_world w')) = map strip (a_bufs (abs_world w)))
    (fun _ => world_wf) w.
Proof.
  intros Hwf Hb Hl Hs He. pose proof (Forall_lookup_1 _ _ _ _ (wf_bufs _ Hwf) Hb) as Hbw. unfold live_wf in Hbw. rewrite Hl in Hbw.
  destruct Hbw as [B1 _ B2 _]. unfold casify_region_internal, EQ. case_bool_decide as Ese.
  { injection Ese as <-. apply wp_ret. rewrite Z.min_id, Z.max_id, cased_region_nil by lia. done. }
  apply wp_bind. unfold wp at 1.
  pose proof (range_arguments foreign v b (LInt s) (LInt e) s e 0 w Hwf Hb Hl (position_of_int _ _ _) (position_of_int _ _ _) eq_refl eq_refl) as R.
  unfold allowed in R. change (Editfns.flag 0 GB_ALLOW_PAST_ACCESSIBLE) with false in R. destruct R as [_ ->].
  change (Editfns.flag 0 GB_CHECK_ORDER) with false. rewrite !(proj2 (Z.leb_le _ _)) by lia. cbn [andb].
  assert ((if s <=? e then @Done (Z * Z) (s, e) else Done (e, s)) = Done (Z.min s e, Z.max s e)) as ->.
  { destruct (Z.leb_spec s e); do 2 f_equal; lia. }
  eapply wp_mono; [apply (wp_case_session silent ct syntax_table flag v b _ _ w); (done || lia) | | done].
  intros ? w' (Hwf' & Hstr & Hbs). split_and!; [done | done |]. rewrite Hbs. apply strip_change_recorded.
Qed.
End WordForm.

(** A command on words runs scan_words from point, which may quit before anything is
    changed, gives the characters between point and where that ends (or the end of the
    accessible part) the form asked for, and changes no other; point moves over them
    forward and stays for a negative count. *)
Theorem casify_word_changes {X} `{Collaborators X} ct syntax_table esc foreign flag v b n (w : world X) :
  hooks_ok (X := X) eq -> world_wf w -> w_bufs w !! v = Some b -> b_live b = true ->
  let p := nth_word syntax_table esc w b (b_pt b) (to_int n) in
  let farend := if p =? 0 then if n >? 0 then b_zv b else b_begv b else p in
  wp (casify_word ct syntax_table esc foreign flag (LInt n) v)
    (fun _ w' =>
       text_str (w_text w') = cased_region ct syntax_table flag (Z.min (b_pt b) farend) (Z.max (b_pt b) farend) (text_str (w_text w)) /\
       b_pt <$> w_bufs w' !! v = Some (Z.max (b_pt b) farend))
    (fun _ => world_wf) w.
Proof.
  intros silent Hwf Hb Hl p farend. pose proof (Forall_lookup_1 _ _ _ _ (wf_bufs _ Hwf) Hb) as Hbw. unfold live_wf in Hbw. rewrite Hl in Hbw.
  assert (b_begv b <= farend <= b_zv b) as Hfar.
  { destruct (nth_word_bounds syntax_table esc w b (b_pt b) (to_int n) Hwf Hbw) as [E | E]; [by destruct Hbw | |]; fold p in E;
      unfold farend; clear farend; clearbody p; destruct Hbw as [? ? ? ?], (Z.eqb_spec p 0), (n >? 0); lia. }
  unfold casify_word. apply wp_bind. eapply wp_get_buf; [done |]. apply wp_bind. unfold wp at 1.
  rewrite (scan_words_run _ _ w v b) by (done || apply Hbw). fold p. cbv zeta. fold farend.
  pose proof (poll_spec (checks_along syntax_table esc w b (b_pt b) (to_int n)) _ (wf_quit _ Hwf)) as (Hq & _).
  destruct (poll _ _) as [[] g]; cbn [fst snd] in *; [by apply with_glob_wf |].
  set (w0 := upd_glob (fun _ => g) w). apply wp_bind.
  eapply wp_mono; [by apply (cased_between silent ct syntax_table foreign flag v b _ _ w0);
    [by apply with_glob_wf | .. | apply Hbw | apply Hfar] | | done].
  intros ? w1 (Hwf1 & Hs1 & Hb1). change (w_text w0) with (w_text w) in Hs1.
  assert (exists b1, w_bufs w1 !! v = Some b1 /\ b_pt b1 = b_pt b) as (b1 & Hb1' & Ep).
  { apply (f_equal (.!! v)) in Hb1. unfold abs_world in Hb1. cbn [a_bufs] in Hb1. change (@map) with (@fmap list _) in Hb1.
    rewrite !list_lookup_fmap in Hb1. change (w_bufs w0) with (w_bufs w) in Hb1. rewrite Hb in Hb1. destruct (w_bufs w1 !! v) as [b1 |]; [| done]. injection Hb1 as _ E _ _ _ _. by exists b1. }
  apply wp_bind. eapply wp_get_buf; [done |]. unfold wp. fold farend.
  destruct (set_buffer_point_run v (Z.max (b_pt b1) farend) b1 w1 Hb1') as (g1 & -> & _). split; [exact Hs1 |].
  cbn. rewrite list_lookup_alter_eq, Hb1'. cbn. f_equal. rewrite Ep. unfold point_at. rewrite Ep. by destruct (Z.eqb_spec (Z.max (b_pt b) farend) (b_pt b)) as [-> |].
Qed.

(** C14: The form of a string, up to its first null character, where the new string ends: as
    long as that part, and each character has the form that the character before it asks
    for; a region with the same characters becomes the same. *)
Theorem casify_string_forms {X} (w : world X) ct syntax_table string_data flag s l rest :
  string_data s = l ++ rest -> Forall (fun c => c <> 0) l -> head rest = None \/ head rest = Some 0 ->
  let out := cased_text ct syntax_table flag false l in
  casify_object ct syntax_table string_data flag (LRec lrecord_string s) w = (Done (CasedString out), w) /\
  length out = length l /\
  (forall i c, l !! i = Some c -> out !! i =
     Some (cased_after ct syntax_table flag
       (match i with O => false | S j => default false (WORD_SYNTAX_P syntax_table <$> l !! j) end) c)) /\
  cased_region ct syntax_table flag 1 (zlen l + 1) l = out.
Proof.
  intros Es Hl Hr out. unfold out. split_and!.
  - unfold casify_object. cbn [CHAR_OR_CHAR_INTP]. rewrite Es. unfold ret. do 3 f_equal.
    destruct rest as [| x rest]; [rewrite app_nil_r; by destruct (casify_string_text ct syntax_table flag false l Hl []) |].
    destruct Hr as [? | [= ->]]; [done |]. by destruct (casify_string_text ct syntax_table flag false l Hl rest).
  - apply length_cased_text.
  - intros i c. apply cased_text_lookup.
  - unfold cased_region, slice. rewrite Z.add_simpl_r, Z.sub_diag, !Nat2Z.id, drop_all, drop_0, firstn_all.
    apply app_nil_r.
Qed.

(** ** The theorems at work *)

(** A to Z and a to z. *)
Definition ascii_case : case_table :=
  mk_case_table (mk_char_table (fun c => if (65 <=? c) && (c <=? 90) then Some (c + 32) else None))
    (mk_char_table (fun c => if (97 <=? c) && (c <=? 122) then Some (c - 32) else None)).
Definition ascii_letters : Lisp_Char_Table Z :=
  mk_char_table (fun c => if (65 <=? c) && (c <=? 90) || (97 <=? c) && (c <=? 122) then 2 else if c =? 92 then 9 else 0).

#[local] Existing Instance quiet.

(** "hello" becomes "hEllo": the region begins inside of the word. *)
Lemma casify_region_changes_witness :
  wp (casify_region_internal ascii_case ascii_letters (fun _ => None) CASE_CAPITALIZE (LInt 5) (LInt 2) 0)
    (fun _ w' => text_str (w_text w') = [104; 69; 108; 108; 111] /\
       map strip (a_bufs (abs_world w')) = map strip (a_bufs (abs_world hello)))
    (fun _ => world_wf) hello.
Proof.
  pose proof (casify_region_changes ascii_case ascii_letters (fun _ => None) CASE_CAPITALIZE 0 _ (LInt 5) (LInt 2) 2 5 hello
    quiet_hooks_ok hello_wf eq_refl eq_refl ltac:(discriminate) eq_refl) as T.
  eapply wp_mono; [exact T | | intros ? ? W; exact W]. cbv beta. intros ? w (_ & E & Es & _).
  split; [rewrite E; reflexivity | exact Es].
Defined.

(** Two words from inside of the first: "ab c\d e " becomes "aB C\D e ". *)
Lemma casify_word_changes_witness :
  wp (casify_word ascii_case ascii_letters true (fun _ => None) CASE_CAPITALIZE (LInt 2) 0)
    (fun _ w' => text_str (w_text w') = [97; 66; 32; 67; 92; 68; 32; 101; 32] /\ b_pt <$> w_bufs w' !! 0%nat = Some 7)
    (fun _ => world_wf) words_world.
Proof.
  pose proof (casify_word_changes ascii_case ascii_letters true (fun _ => None) CASE_CAPITALIZE 0 _ 2 words_world
    quiet_hooks_ok words_world_wf eq_refl eq_refl) as T. cbv zeta in T.
  eapply wp_mono; [exact T | | intros ? ? W; exact W]. cbv beta. intros ? w [E Ep]. rewrite E, Ep. vm_compute. split; reflexivity.
Defined.

(** What is behind a null character is lost. *)
Lemma casify_string_forms_witness :
  casify_object (X := unit) ascii_case ascii_letters (fun _ => [97; 66; 32; 99; 0; 100]) CASE_CAPITALIZE (LRec lrecord_string 1) words_world =
    (Done (CasedString [65; 98; 32; 67]), words_world).
Proof.
  pose proof (casify_string_forms words_world ascii_case ascii_letters (fun _ => [97; 66; 32; 99; 0; 100]) CASE_CAPITALIZE 1
    [97; 66; 32; 99] [0; 100] eq_refl ltac:(repeat constructor; discriminate) ltac:(right; reflexivity)) as T. cbv zeta in T.
  exact (proj1 T).
Defined.
