(* ===== verification/CurrentBuffer.v ===== *)
(** * What keeps the current buffer

    The change functions put the current buffer back ([change_function_restore]),
    and nothing else in [insdel.c] changes it: an editing primitive leaves it as
    it was if the hooks do. *)

From S2P Require Import Prelude Lisp Buffer Scan Undo Insdel Editfns.

(** ** Code that ends in the buffer it began in *)

Class Keeps {X A} (m : M X A) : Prop :=
  keeps w : g_current (w_glob (m w).2) = g_current (w_glob w).

(** Updates of the globals, and of worlds. *)
Class KeepsG (f : globals -> globals) : Prop := keeps_g g : g_current (f g) = g_current g.
Class KeepsW {X} (f : world X -> world X) : Prop :=
  keeps_w w : g_current (w_glob (f w)) = g_current (w_glob w).

#[global] Hint Opaque bind upd get ret signal fault of_option get_buf unwind_protect
  upd_text upd_buf upd_bufs upd_ext upd_glob map_indirect map_indirect_ext map_indirect_m
  : typeclass_instances.
#[global] Hint Extern 1 (KeepsG _) => (intros ?; reflexivity) : typeclass_instances.

Section Combinators.
Context {X : Type}.

#[global] Instance KeepsW_text f : KeepsW (X := X) (upd_text f).
Proof. done. Qed.
#[global] Instance KeepsW_bufs f : KeepsW (X := X) (upd_bufs f).
Proof. done. Qed.
#[global] Instance KeepsW_buf v f : KeepsW (X := X) (upd_buf v f).
Proof. done. Qed.
#[global] Instance KeepsW_ext f : KeepsW (X := X) (upd_ext f).
Proof. done. Qed.
#[global] Instance KeepsW_indirect f : KeepsW (X := X) (map_indirect f).
Proof. done. Qed.
#[global] Instance KeepsW_indirect_ext f : KeepsW (X := X) (map_indirect_ext f).
Proof. done. Qed.
#[global] Instance KeepsW_glob f : KeepsG f -> KeepsW (X := X) (upd_glob f).
Proof. intros Hf w. apply Hf. Qed.

#[global] Instance Keeps_ret {A} (a : A) : Keeps (X := X) (ret a).
Proof. done. Qed.
#[global] Instance Keeps_fault {A} : Keeps (X := X) (A := A) fault.
Proof. done. Qed.
#[global] Instance Keeps_signal {A} e : Keeps (X := X) (A := A) (signal e).
Proof. done. Qed.
#[global] Instance Keeps_get {A} (f : world X -> A) : Keeps (get f).
Proof. done. Qed.
#[global] Instance Keeps_of_option {A} (o : option A) : Keeps (X := X) (of_option o).
Proof. by destruct o. Qed.
#[global] Instance Keeps_get_buf v : Keeps (X := X) (get_buf v).
Proof. intros w. unfold get_buf. by destruct (w_bufs w !! v). Qed.
#[global] Instance Keeps_upd (f : world X -> world X) : KeepsW f -> Keeps (upd f).
Proof. intros Hf w. apply Hf. Qed.
#[global] Instance Keeps_bind {A B} (m : M X A) (k : A -> M X B) :
  Keeps m -> (forall a, Keeps (k a)) -> Keeps (bind m k).
Proof.
  intros Hm Hk w. unfold bind. pose proof (Hm w) as E. destruct (m w) as [[a | |] w']; cbn in *; [| done | done].
  rewrite Hk. exact E.
Qed.

(** Code that is put back, whatever it did. *)
Lemma Keeps_restoring {A} (m : M X A) (f : nat -> world X -> world X) :
  (forall c w, g_current (w_glob (f c w)) = c) ->
  Keeps (let! saved := get (fun w => g_current (w_glob w)) in unwind_protect m (f saved)).
Proof.
  intros Hf w. unfold bind, get, unwind_protect. destruct (m w) as [r w']. apply Hf.
Qed.
End Combinators.

(** Any test the code makes. *)
Ltac keeps_case :=
  match goal with
  | |- Keeps (if ?c then _ else _) => destruct c
  | |- Keeps (match ?c with _ => _ end) => destruct c
  | |- Keeps (let x := _ in _) => cbv zeta
  end.
#[global] Hint Extern 3 (Keeps _) => keeps_case : typeclass_instances.

Ltac keeps_solve := typeclasses eauto.

(** ** The editing primitives *)

Section Primitives.
Context {X : Type} `{Collaborators X}.

(** The promise of the hooks. *)
Hypothesis hooks_keep : forall h, Keeps (call_hook h).
#[local] Existing Instance hooks_keep.

#[local] Instance Keeps_map_indirect_from vs f :
  (forall v, Keeps (f v)) -> Keeps (X := X) (map_indirect_from vs f).
Proof. intros Hf. induction vs; cbn [map_indirect_from]; keeps_solve. Qed.

#[local] Instance Keeps_map_indirect_m f : (forall v, Keeps (f v)) -> Keeps (X := X) (map_indirect_m f).
Proof. intros Hf w. by apply Keeps_map_indirect_from. Qed.

#[local] Instance Keeps_with_change_hook m : Keeps (with_change_hook (X := X) m).
Proof. apply Keeps_restoring. done. Qed.

#[local] Instance Keeps_signal_after_change v s o n : Keeps (signal_after_change v s o n).
Proof. unfold signal_after_change. keeps_solve. Qed.

#[local] Instance Keeps_cancel v : Keeps (cancel_multiple_change v).
Proof. unfold cancel_multiple_change. keeps_solve. Qed.

#[local] Instance Keeps_signal_first_change m : Keeps (signal_first_change m).
Proof.
  unfold signal_first_change. intros w. unfold bind at 1, get. destruct (g_in_first_change (w_glob w)); [done |].
  unfold unwind_protect. by destruct (bind _ _ w).
Qed.

#[local] Instance Keeps_run_before_change v s e : Keeps (run_before_change v s e).
Proof. unfold run_before_change. keeps_solve. Qed.

#[local] Instance Keeps_signal_before_change v s e : Keeps (signal_before_change v s e).
Proof. unfold signal_before_change. keeps_solve. Qed.

#[global] Instance Keeps_barf m f t : Keeps (barf_if_buffer_read_only m f t).
Proof. unfold barf_if_buffer_read_only. keeps_solve. Qed.

#[local] Instance Keeps_prepare v s e l : Keeps (prepare_to_modify_buffer v s e l).
Proof. unfold prepare_to_modify_buffer. keeps_solve. Qed.

#[local] Instance Keeps_QUITP : Keeps (X := X) QUITP.
Proof.
  unfold QUITP. apply Keeps_bind; [| keeps_solve]. apply Keeps_upd, KeepsW_glob.
  intros g. unfold check_quit. by destruct (g_signals g) as [| [] ?].
Qed.

#[local] Instance Keeps_QUIT : Keeps (X := X) QUIT.
Proof. unfold QUIT. keeps_solve. Qed.

#[local] Instance Keeps_gap_left_loop n f t s p : Keeps (X := X) (gap_left_loop n f t s p).
Proof. revert f t s. induction n; intros; cbn [gap_left_loop]; keeps_solve. Qed.

#[local] Instance Keeps_gap_right_loop n f t s p : Keeps (X := X) (gap_right_loop n f t s p).
Proof. revert f t s. induction n; intros; cbn [gap_right_loop]; keeps_solve. Qed.

#[local] Instance Keeps_gap_left p : Keeps (gap_left p).
Proof. unfold gap_left. keeps_solve. Qed.

#[local] Instance Keeps_gap_right p : Keeps (gap_right p).
Proof. unfold gap_right. keeps_solve. Qed.

#[local] Instance Keeps_join_end_gap n : Keeps (join_end_gap n).
Proof. unfold join_end_gap. keeps_solve. Qed.

#[local] Instance Keeps_open_gap realloc i n : Keeps (open_gap realloc i n).
Proof. unfold open_gap, move_gap, merge_gap_with_end_gap, make_gap. keeps_solve. Qed.

#[global] Instance Keeps_set_buffer_point v p : Keeps (X := X) (set_buffer_point v p).
Proof. unfold set_buffer_point. keeps_solve. Qed.

#[local] Instance Keeps_record_insert v b n : Keeps (X := X) (record_insert v b n).
Proof. unfold record_insert. keeps_solve. Qed.

#[local] Instance Keeps_record_delete v b n : Keeps (X := X) (record_delete v b n).
Proof. unfold record_delete. keeps_solve. Qed.

#[local] Instance Keeps_insert_at_gap v src o i n mp fl : Keeps (insert_at_gap v src o i n mp fl).
Proof. unfold insert_at_gap. keeps_solve. Qed.

(** Insertion ends in the buffer it began in. *)
Lemma insert_keeps realloc v p str fl : Keeps (buffer_insert_lisp_string_1 realloc v p str fl).
Proof. unfold buffer_insert_lisp_string_1, buffer_insert_string_1. keeps_solve. Qed.

Lemma insert_raw_keeps realloc v p data n fl : Keeps (buffer_insert_raw_string_1 realloc v p data n fl).
Proof. unfold buffer_insert_raw_string_1, buffer_insert_string_1. keeps_solve. Qed.

#[local] Instance Keeps_scan_buffer v c s e n q : Keeps (X := X) (scan_buffer v c s e n q).
Proof. unfold scan_buffer, when. keeps_solve. Qed.

#[local] Instance Keeps_delete_at_gap f t : Keeps (delete_at_gap f t).
Proof. unfold delete_at_gap. keeps_solve. Qed.

#[local] Instance Keeps_delete_at_end f t : Keeps (delete_at_end f t).
Proof. unfold delete_at_end. keeps_solve. Qed.

Lemma delete_keeps v f t fl : Keeps (buffer_delete_range v f t fl).
Proof. unfold buffer_delete_range, note_newline_deleted. keeps_solve. Qed.

#[local] Instance Keeps_record_change v b n : Keeps (X := X) (record_change v b n).
Proof. unfold record_change. keeps_solve. Qed.

Lemma replace_keeps v p ch nr f : Keeps (buffer_replace_char v p ch nr f).
Proof. unfold buffer_replace_char. keeps_solve. Qed.

Lemma set_modified_keeps m v : Keeps (Fset_buffer_modified_p m v).
Proof. unfold Fset_buffer_modified_p. keeps_solve. Qed.
End Primitives.
