(* ===== verification/LineNumber.v ===== *)
(** * The cache of line numbers (src/src/line-number.c)

    A ring of eight markers with the numbers of their lines.  It belongs to a text;
    its markers are in the chains of the buffers, where insertion and deletion
    adjust them.  The cache is the part [w_ext] of the state. *)

From S2P Require Import Prelude Lisp Buffer Scan EditSpec.

(** ** State *)

Definition LINE_NUMBER_RING_SIZE : Z := 8.
Definition LINE_NUMBER_FAR : Z := 16384.
Definition LINE_NUMBER_LARGE_STRING : Z := 256.

(** The ring is a vector; nil or a marker and its line.  [lc_begv] is the line of
    the beginning of the accessible part, -1 when it is not known. *)
Record line_cache := mk_cache {
  lc_ring : list (option (positive * Z));
  lc_begv : Z;
}.

(** [line_number_cache] is nil until it is needed. *)
Abbreviation L := (M (option line_cache)).
Abbreviation lworld := (world (option line_cache)).

Definition get_cache : L line_cache := let! c := get w_ext in of_option c.
Definition set_cache (c : line_cache) : L unit := upd (upd_ext (fun _ => Some c)).
Definition LINE_NUMBER_RING : L (list (option (positive * Z))) := let! c := get_cache in ret (lc_ring c).
Definition LINE_NUMBER_BEGV : L Z := let! c := get_cache in ret (lc_begv c).
Definition set_ring (ring : list (option (positive * Z))) : L unit :=
  let! c := get_cache in set_cache (mk_cache ring (lc_begv c)).
Definition set_begv (line : Z) : L unit :=
  let! c := get_cache in set_cache (mk_cache (lc_ring c) line).

(** ** Markers of the ring

    The chains of markers are lists here, as for insertion and deletion. *)

(** The place of a marker, among markers as the program sees them. *)
Fixpoint pos_of (m : positive) (l : list (positive * Z * bool)) : option Z :=
  match l with
  | [] => None
  | (id, p, _) :: l => if bool_decide (id = m) then Some p else pos_of m l
  end.

Definition live_markers (w : lworld) : list Lisp_Marker :=
  mjoin ((fun b => if b_live b then b_markers b else []) <$> w_bufs w).

Definition marker_place (w : lworld) (m : positive) : option Z :=
  pos_of m (marker_view (w_text w) <$> live_markers w).

Definition marker_position (m : positive) : L Z := fun w =>
  match marker_place w m with
  | Some p => (Done p, w)
  | None => (Signal (Qerror "Marker does not point anywhere"), w)
  end.

(** [Fset_marker (m, Qnil, Qnil)]. *)
Definition set_marker_nowhere (m : positive) : L unit :=
  upd (upd_bufs (map (fun b => set_markers b (filter (fun x => m_id x <> m) (b_markers b))))).

(** [Fset_marker (Fmake_marker (), pos, make_buffer (v))]. *)
Definition make_marker_at (v : nat) (pos : Z) : L positive :=
  let! b := get_buf v in
  let! t := get w_text in
  let! used := get (fun w => (m_id <$> mjoin (b_markers <$> w_bufs w)) ++ (b_point_marker <$> w_bufs w)) in
  let id := fresh (list_to_set used : gset positive) in
  let pos := if pos <? BUF_BEG then BUF_BEG else pos in
  let pos := if pos >? t_z t then t_z t else pos in
  when (b_live b) (upd (upd_buf v (fun b =>
    set_markers b (mk_marker id (bytind_to_memind t pos) false :: b_markers b))));;
  ret id.

(** ** Operations *)

Definition narrow_line_number_cache (v : nat) : L unit :=
  let! c := get w_ext in
  match c with
  | None => ret tt
  | Some _ =>
      let! b := get_buf v in
      set_begv (if BUF_BEG =? b_begv b then 0 else -1)
  end.

Definition allocate_line_number_cache (v : nat) : L unit :=
  set_cache (mk_cache (replicate (Z.to_nat LINE_NUMBER_RING_SIZE) None) 0);;
  narrow_line_number_cache v.

Definition CONSP_slot (x : option (positive * Z)) : bool := match x with Some _ => true | None => false end.

(** The inner loop of [invalidate_line_number_cache]. *)
Fixpoint shift_ring (fuel : nat) (ring : list (option (positive * Z))) (j : Z)
    : option (list (option (positive * Z))) :=
  x ← zget ring j;
  if CONSP_slot x && (j <? LINE_NUMBER_RING_SIZE - 1) then
    match fuel with
    | O => None
    | S fuel => y ← zget ring (j + 1); shift_ring fuel (zset ring j y) (j + 1)
    end
  else Some (zset ring j None).

(** Each turn passes an element or takes one out. *)
Fixpoint invalidate_loop (fuel : nat) (i pos : Z) : L unit :=
  if i <? LINE_NUMBER_RING_SIZE then
    let! ring := LINE_NUMBER_RING in
    let! x := of_option (zget ring i) in
    match x with
    | None => ret tt
    | Some (m, _) =>
        match fuel with
        | O => fault
        | S fuel =>
            let! p := marker_position m in
            if p >=? pos then
              (set_marker_nowhere m;;
               let! ring := of_option (shift_ring (Z.to_nat LINE_NUMBER_RING_SIZE) ring i) in
               set_ring ring;;
               invalidate_loop fuel i pos)
            else invalidate_loop fuel (i + 1) pos
        end
    end
  else ret tt.

Definition invalidate_line_number_cache (pos : Z) : L unit :=
  invalidate_loop (Z.to_nat LINE_NUMBER_RING_SIZE) 0 pos.

(** [memchr] over the bytes inserted. *)
Definition insert_invalidate_line_number_cache (pos : Z) (bytes : list Z) : L unit :=
  let! c := get w_ext in
  match c with
  | None => ret tt
  | Some _ =>
      when ((zlen bytes >? LINE_NUMBER_LARGE_STRING) || existsb (Z.eqb 10) bytes)
        (invalidate_line_number_cache pos)
  end.

Definition delete_invalidate_line_number_cache (v : nat) (from to : Z) : L unit :=
  let! c := get w_ext in
  match c with
  | None => ret tt
  | Some _ =>
      if to - from >? LINE_NUMBER_LARGE_STRING then invalidate_line_number_cache from
      else
        let! (_, shortage) := scan_buffer v 10 from to 1 false in
        when (shortage =? 0) (invalidate_line_number_cache from)
  end.

(** [get_nearest_line_number]: the position and its line. *)
Fixpoint nearest_loop (fuel : nat) (ring : list (option (positive * Z))) (i beg pos line length : Z)
    : L (Z * Z) :=
  if i <? LINE_NUMBER_RING_SIZE then
    let! x := of_option (zget ring i) in
    match x with
    | None => ret (beg, line)
    | Some (m, line') =>
        match fuel with
        | O => fault
        | S fuel =>
            let! newpos := marker_position m in
            let howfar := Z.abs (newpos - pos) in
            if howfar <? length then nearest_loop fuel ring (i + 1) newpos pos line' howfar
            else nearest_loop fuel ring (i + 1) beg pos line length
        end
    end
  else ret (beg, line).

Definition get_nearest_line_number (beg pos line : Z) : L (Z * Z) :=
  let! ring := LINE_NUMBER_RING in
  nearest_loop (Z.to_nat LINE_NUMBER_RING_SIZE) ring 0 beg pos line (Z.abs (pos - beg)).

(** The loop that rotates the ring, for [i] down to 1. *)
Fixpoint rotate_ring (i : nat) (ring : list (option (positive * Z))) : option (list (option (positive * Z))) :=
  match i with
  | O => Some ring
  | S i' => x ← zget ring (Z.of_nat i'); rotate_ring i' (zset ring (Z.of_nat i) x)
  end.

Definition add_position_to_cache (v : nat) (pos line : Z) : L unit :=
  let! ring := LINE_NUMBER_RING in
  let! x := of_option (zget ring (LINE_NUMBER_RING_SIZE - 1)) in
  (match x with Some (m, _) => set_marker_nowhere m | None => ret tt end);;
  let! ring := of_option (rotate_ring (Z.to_nat (LINE_NUMBER_RING_SIZE - 1)) ring) in
  let! m := make_marker_at v pos in
  set_ring (zset ring 0 (Some (m, line))).

(** [buffer_line_number]; it calls itself at most once, for a position that is not
    far. *)
Fixpoint buffer_line_number (fuel : nat) (v : nat) (pos : Z) (cachep : bool) : L Z :=
  match fuel with
  | O => fault
  | S fuel =>
      let! b := get_buf v in
      let beg := b_begv b in
      let cachep := if Z.abs (pos - beg) <=? LINE_NUMBER_FAR then false else cachep in
      let! (beg, cached_lines) :=
        (if cachep : bool then
           (let! c := get w_ext in
            match c with None => allocate_line_number_cache v | Some _ => ret tt end);;
           (let! line := LINE_NUMBER_BEGV in
            if line =? -1 then
              (set_begv 0;;
               let! n := buffer_line_number fuel v (b_begv b) true in
               set_begv n)
            else ret tt);;
           let! line := LINE_NUMBER_BEGV in
           get_nearest_line_number beg pos line
         else ret (beg, 0)) in
      let! (_, shortage) :=
        scan_buffer v 10 beg pos (if pos >? beg then EMACS_INT_MAX else - EMACS_INT_MAX) false in
      let line := EMACS_INT_MAX - shortage in
      let line := (if beg >? pos then - line else line) + cached_lines in
      if cachep then
        when (Z.abs (pos - beg) >? LINE_NUMBER_FAR) (add_position_to_cache v pos line);;
        let! begv_line := LINE_NUMBER_BEGV in
        ret (line - begv_line)
      else ret line
  end.
