(* ===== verification/LineCache.v ===== *)
(** * The cache of line numbers is right

    While the beginning of the accessible part stays where it is, every entry of the
    ring has the number of newlines between that place and its marker; so a line
    number is the number of newlines, whether the cache is used or not.  Insertion
    and deletion, with the invalidation that precedes them, keep it so; narrowing
    and the replacement of a character do not. *)

From S2P Require Import Prelude Lisp Buffer Scan Undo Insdel EditSpec Editing LineNumber.

(** ** Counting newlines *)

Definition newlines (s : list Z) (p : Z) : Z := occurrences 10 (ztake (p - 1) s).

Lemma occurrences_app target l1 l2 :
  occurrences target (l1 ++ l2) = occurrences target l1 + occurrences target l2.
Proof. unfold occurrences. rewrite filter_app, length_app. lia. Qed.

Lemma occurrences_bound target l : 0 <= occurrences target l <= zlen l.
Proof. unfold occurrences. pose proof (length_filter (eq target) l). lia. Qed.

Lemma newlines_split s p q : 1 <= p <= q -> newlines s q = newlines s p + occurrences 10 (slice s (p - 1) (q - p)).
Proof.
  intros Hp. unfold newlines. rewrite <- occurrences_app. f_equal. unfold slice.
  replace (Z.to_nat (q - 1)) with (Z.to_nat (p - 1) + Z.to_nat (q - p))%nat by lia.
  by rewrite take_take_drop.
Qed.

Lemma newlines_mono s p q : 1 <= p <= q -> newlines s p <= newlines s q.
Proof. intros Hp. rewrite (newlines_split s p q Hp). pose proof (occurrences_bound 10 (slice s (p - 1) (q - p))). lia. Qed.

(** After an insertion, and after a deletion. *)
Lemma newlines_insert_before s ind bytes p :
  p <= ind -> ind <= zlen s + 1 ->
  newlines (ztake (ind - 1) s ++ bytes ++ zdrop (ind - 1) s) p = newlines s p.
Proof.
  intros Hp Hi. unfold newlines. f_equal. destruct (Z.le_gt_cases p 1).
  - replace (Z.to_nat (p - 1)) with 0%nat by lia. done.
  - rewrite take_app_le by (rewrite length_take; lia). rewrite take_take. f_equal. lia.
Qed.

Lemma newlines_insert_after s ind bytes p :
  1 <= ind <= p -> p <= zlen s + 1 ->
  newlines (ztake (ind - 1) s ++ bytes ++ zdrop (ind - 1) s) (p + zlen bytes) =
  newlines s p + occurrences 10 bytes.
Proof.
  intros Hi Hp. rewrite (newlines_split s ind p Hi). unfold newlines, slice.
  rewrite take_app_ge by (rewrite length_take; lia). rewrite occurrences_app.
  rewrite take_app_ge by (rewrite length_take; lia). rewrite occurrences_app.
  replace (Z.to_nat (p + zlen bytes - 1) - length (ztake (ind - 1) s) - length bytes)%nat
    with (Z.to_nat (p - ind)) by (rewrite length_take; lia).
  lia.
Qed.

Lemma newlines_delete_before s from to p :
  p <= from -> from <= zlen s + 1 -> newlines (ztake (from - 1) s ++ zdrop (to - 1) s) p = newlines s p.
Proof.
  intros Hp Hf. unfold newlines. f_equal. destruct (Z.le_gt_cases p 1).
  - replace (Z.to_nat (p - 1)) with 0%nat by lia. done.
  - rewrite take_app_le by (rewrite length_take; lia). rewrite take_take. f_equal. lia.
Qed.

Lemma newlines_delete_after s from to p :
  1 <= from <= to -> to <= p -> p <= zlen s + 1 ->
  newlines (ztake (from - 1) s ++ zdrop (to - 1) s) (p - (to - from)) =
  newlines s p - (newlines s to - newlines s from).
Proof.
  intros Hf Ht Hp. rewrite (newlines_split s to p) by lia. unfold newlines, slice.
  rewrite take_app_ge by (rewrite length_take; lia). rewrite occurrences_app.
  replace (Z.to_nat (p - (to - from) - 1) - length (ztake (from - 1) s))%nat with (Z.to_nat (p - to))
    by (rewrite length_take; lia).
  lia.
Qed.

(** [scan_buffer] without a limit on the count. *)
Lemma scan_all t b beg pos :
  text_wf t -> 1 <= b_begv b -> b_zv b <= t_z t ->
  b_begv b <= pos <= b_zv b -> 1 <= beg <= t_z t ->
  exists stop, bi_scan_buffer_1 t b 10 beg pos (if pos >? beg then EMACS_INT_MAX else - EMACS_INT_MAX) =
    Some (stop, EMACS_INT_MAX - Z.abs (newlines (text_str t) pos - newlines (text_str t) beg)).
Proof.
  intros Ht Hb Hz Hpos Hbeg. pose proof (wf_int _ Ht). pose proof (wf_mem _ Ht). pose proof (wf_gap _ Ht).
  pose proof (wf_end_gap _ Ht).
  assert (forall lo hi, 1 <= lo <= hi -> hi <= t_z t ->
    occurrences 10 (region t lo hi) = newlines (text_str t) hi - newlines (text_str t) lo /\
    0 <= occurrences 10 (region t lo hi) < EMACS_INT_MAX) as Hocc.
  { intros lo hi Hlo Hhi. pose proof (newlines_split (text_str t) lo hi Hlo). unfold region.
    pose proof (occurrences_bound 10 (slice (text_str t) (lo - 1) (hi - lo))).
    assert (zlen (slice (text_str t) (lo - 1) (hi - lo)) = hi - lo)
      by (apply length_slice; rewrite ?length_text_str by done; lia).
    unfold EMACS_INT_MAX. lia. }
  rewrite Z.gtb_ltb. destruct (Z.ltb_spec beg pos) as [Hlt | Hge].
  - destruct (scan_forward_found t b 10 beg pos EMACS_INT_MAX) as (p & sh & E & Hle & F1 & F2 & F3 & F4 & F5);
      try done; try (rewrite ?(proj2 (Z.gtb_lt pos 0)) by lia; lia). rewrite E.
    rewrite (proj2 (Z.gtb_lt pos 0)) in * by lia. destruct (Hocc beg p) as [Ho Ho']; [lia | lia |].
    assert (p = pos) as -> by (apply F5; lia). exists pos. do 2 f_equal. lia.
  - destruct (scan_backward_found t b 10 beg pos (- EMACS_INT_MAX)) as (p & sh & E & Hle & F1 & F2 & F3 & F4 & F5);
      try done; try (rewrite ?(proj2 (Z.gtb_lt pos 0)) by lia; lia). rewrite E.
    rewrite (proj2 (Z.gtb_lt pos 0)) in * by lia.
    destruct (Hocc (if sh =? 0 then p - 1 else p) beg) as [Ho Ho']; [lia | lia |].
    destruct (Z.eqb_spec sh 0); [lia |]. assert (p = pos) as -> by (by apply F5).
    eexists. do 2 f_equal. lia.
Qed.

(** ** The ring as a list *)

Abbreviation entry := (positive * Z)%type.

(** The ring that holds the entries [l]. *)
Definition ring_of (l : list entry) : list (option entry) :=
  (Some <$> l) ++ replicate (8 - length l) None.

Lemma ring_lookup l1 l2 :
  (length (l1 ++ l2) <= 8)%nat -> zlen l1 < LINE_NUMBER_RING_SIZE ->
  zget (ring_of (l1 ++ l2)) (zlen l1) = Some (head l2).
Proof.
  unfold LINE_NUMBER_RING_SIZE. intros Hl H1. rewrite length_app in Hl. unfold ring_of.
  rewrite zget_lookup, Nat2Z.id by lia. rewrite fmap_app, length_app, <- (assoc_L (++)).
  rewrite lookup_app_r by (rewrite length_fmap; lia). rewrite length_fmap, Nat.sub_diag.
  destruct l2 as [| e l2]; [| done]. simpl in *. apply lookup_replicate. split; [done | lia].
Qed.

Lemma zget_after {A} (pre l : list A) x y : zget (pre ++ x :: y :: l) (zlen pre + 1) = Some y.
Proof.
  rewrite zget_lookup by lia. rewrite lookup_app_r by lia.
  by replace (Z.to_nat (zlen pre + 1) - length pre)%nat with 1%nat by lia.
Qed.

(** The markers of a ring. *)
Definition ring_markers (ring : list (option entry)) : list positive := omap (option_map fst) ring.

Lemma ring_markers_of l : ring_markers (ring_of l) = l.*1.
Proof.
  unfold ring_markers, ring_of. rewrite omap_app. assert (omap (option_map fst) (Some <$> l) = l.*1) as ->.
  { induction l as [| e l IH]; [done |]. csimpl. by rewrite IH. }
  assert (omap (option_map fst) (replicate (8 - length l) (@None entry)) = []) as ->; [| apply app_nil_r].
  induction (8 - length l)%nat as [| n IH]; [done | exact IH].
Qed.

(** Shifting a ring takes out the element it begins at. *)
Lemma shift_ring_list fuel pre e l2 n :
  (length pre + length (e :: l2) + n = 8)%nat -> (length l2 < fuel)%nat ->
  shift_ring fuel (pre ++ (Some <$> e :: l2) ++ replicate n None) (zlen pre) =
  Some (pre ++ (Some <$> l2) ++ replicate (S n) None).
Proof.
  revert fuel pre e. induction l2 as [| e' l2 IH]; intros [| fuel] pre e Hl Hf; simpl in Hf; try lia; simpl in Hl.
  - cbn [shift_ring]. simpl. rewrite zget_middle. simpl. unfold LINE_NUMBER_RING_SIZE.
    destruct (Z.ltb_spec (zlen pre) (8 - 1)).
    + destruct n as [| n]; [lia |]. simpl. rewrite zget_after. simpl. rewrite zset_middle.
      destruct fuel as [| fuel]; cbn [shift_ring].
      all: rewrite zget_after; simpl.
      all: f_equal; replace (pre ++ None :: None :: replicate n None) with ((pre ++ [None]) ++ None :: replicate n None)
        by (by rewrite <- (assoc_L (++))).
      all: replace (zlen pre + 1) with (zlen (pre ++ [None])) by (rewrite length_app; simpl; lia).
      all: by rewrite zset_middle, <- (assoc_L (++)).
    + by rewrite zset_middle.
  - cbn [shift_ring]. simpl. rewrite zget_middle. simpl. unfold LINE_NUMBER_RING_SIZE.
    destruct (Z.ltb_spec (zlen pre) (8 - 1)); [| lia].
    rewrite zget_after. simpl. rewrite zset_middle.
    specialize (IH fuel (pre ++ [Some e']) e'). rewrite <- !(assoc_L (++)) in IH. simpl in IH.
    replace (zlen (pre ++ [Some e'])) with (zlen pre + 1) in IH by (rewrite length_app; simpl; lia).
    rewrite IH; [done | rewrite length_app; simpl; lia | lia].
Qed.

Lemma shift_ring_of l1 e l2 :
  (length (l1 ++ e :: l2) <= 8)%nat ->
  shift_ring (Z.to_nat LINE_NUMBER_RING_SIZE) (ring_of (l1 ++ e :: l2)) (zlen l1) = Some (ring_of (l1 ++ l2)).
Proof.
  intros Hl. rewrite length_app in Hl. simpl in Hl. unfold ring_of. rewrite !fmap_app, <- !(assoc_L (++)).
  replace (zlen l1) with (zlen (Some <$> l1)) by (by rewrite length_fmap).
  rewrite shift_ring_list; [| rewrite length_fmap; simpl; rewrite length_app; simpl; lia |
    unfold LINE_NUMBER_RING_SIZE; lia].
  do 4 f_equal. rewrite !length_app. simpl. lia.
Qed.

(** Rotation puts a new element in front and loses the last. *)
Lemma rotate_ring_of l e :
  (length l <= 8)%nat -> exists ring, rotate_ring (Z.to_nat (LINE_NUMBER_RING_SIZE - 1)) (ring_of l) = Some ring /\
  zset ring 0 (Some e) = ring_of (e :: take 7 l).
Proof.
  intros Hl. do 8 (destruct l as [| ? l]; [eexists; split; reflexivity |]).
  destruct l as [| ? l]; [eexists; split; reflexivity | simpl in Hl; lia].
Qed.

Lemma ring_last l :
  (length l <= 8)%nat -> zget (ring_of l) (LINE_NUMBER_RING_SIZE - 1) = Some (l !! 7%nat).
Proof.
  intros Hl. do 8 (destruct l as [| ? l]; [reflexivity |]). destruct l as [| ? l]; [done | simpl in Hl; lia].
Qed.

(** ** Places of markers *)

Lemma pos_of_filter m m' (t : buffer_text) l :
  m <> m' -> pos_of m (marker_view t <$> filter (fun x => m_id x <> m') l) = pos_of m (marker_view t <$> l).
Proof.
  intros Hm. induction l as [| x l IH]; [done |]. rewrite filter_cons, fmap_cons.
  destruct (decide (m_id x <> m')) as [Hx | Hx]; [rewrite fmap_cons |]; cbn [pos_of marker_view].
  { by rewrite IH. }
  apply dec_stable in Hx. rewrite bool_decide_eq_false_2 by congruence. apply IH.
Qed.

Definition a_live_markers (s : astate) : list (positive * Z * bool) :=
  mjoin ((fun b => if a_live b then a_markers b else []) <$> a_bufs s).

Lemma place_abs (w : lworld) m : marker_place w m = pos_of m (a_live_markers (abs_world w)).
Proof.
  unfold marker_place, live_markers, a_live_markers. simpl. f_equal.
  induction (w_bufs w) as [| b bs IH]; [done |]. csimpl. rewrite fmap_app, IH. f_equal. by destruct (b_live b).
Qed.

(** ** What the operations leave alone *)

Definition strip_markers (w : lworld) : list buffer := (fun b => set_markers b []) <$> w_bufs w.

(** Only markers of which [D] holds were moved, and the cache changed. *)
Record kept (D : positive -> Prop) (w w' : lworld) : Prop := {
  kept_text : w_text w' = w_text w;
  kept_glob : w_glob w' = w_glob w;
  kept_bufs : strip_markers w' = strip_markers w;
  kept_place m p : ~ D m -> marker_place w m = Some p -> marker_place w' m = Some p;
}.

Lemma kept_refl D w : kept D w w.
Proof. by split. Qed.

Lemma kept_trans (D : positive -> Prop) w1 w2 w3 : kept D w1 w2 -> kept D w2 w3 -> kept D w1 w3.
Proof.
  intros [] []. split; [congruence | congruence | congruence |]. intros. auto.
Qed.

Lemma kept_mono (D D' : positive -> Prop) w w' : kept D w w' -> (forall m, D m -> D' m) -> kept D' w w'.
Proof. intros [] HD. split; auto. Qed.

Lemma kept_cache D w c : kept D w (upd_ext (fun _ => c) w).
Proof. by split. Qed.

Lemma kept_nowhere m w :
  exists w', set_marker_nowhere m w = (Done tt, w') /\ w_ext w' = w_ext w /\ kept (eq m) w w'.
Proof.
  eexists. split; [done |]. split; [done |]. split; [done | done | |].
  - unfold strip_markers. simpl. rewrite <- list_fmap_compose. apply list_fmap_ext. by intros.
  - intros m' p Hm. intros <-. unfold marker_place.
    rewrite <- (pos_of_filter m' m (w_text w) (live_markers w)) by congruence. unfold live_markers. simpl. do 2 f_equal.
    induction (w_bufs w) as [| b bs IH]; [done |]. csimpl. rewrite IH, filter_app. f_equal. by destruct (b_live b).
Qed.

(** ** Entries *)

(** The beginning of the accessible part is [o]. *)
Section Origin.
Variable o : Z.

Record entry_ok (w : lworld) (e : entry) : Prop := {
  entry_place : exists p, marker_place w e.1 = Some p /\ o <= p <= t_z (w_text w) /\
    e.2 = newlines (text_str (w_text w)) p - newlines (text_str (w_text w)) o;
  entry_free : Forall (fun b => b_point_marker b <> e.1) (strip_markers w);
}.

Record ring_ok (w : lworld) (l : list entry) : Prop := {
  ring_length : (length l <= 8)%nat;
  ring_nodup : NoDup l.*1;
  ring_entries : Forall (entry_ok w) l;
}.

Definition cache_ok (w : lworld) : Prop :=
  match w_ext w with
  | None => True
  | Some c => exists l, lc_ring c = ring_of l /\ ring_ok w l /\ (lc_begv c = 0 \/ lc_begv c = -1)
  end.

Lemma entry_ok_kept (D : positive -> Prop) w w' e : kept D w w' -> ~ D e.1 -> entry_ok w e -> entry_ok w' e.
Proof.
  intros [Ht _ Hb Hp] HD [(p & H1 & H2 & H3) H4]. split; [| by rewrite Hb].
  exists p. rewrite Ht. auto.
Qed.

Lemma ring_ok_drop (D : positive -> Prop) w w' l1 e l2 :
  kept D w w' -> (forall m, D m -> m = e.1) -> ring_ok w (l1 ++ e :: l2) -> ring_ok w' (l1 ++ l2).
Proof.
  intros Hk HD [Hl Hn He]. rewrite length_app in Hl. simpl in Hl.
  rewrite fmap_app, fmap_cons in Hn. apply NoDup_app in Hn as (Hn1 & Hd & Hn2). apply NoDup_cons in Hn2 as [Hne Hn2].
  split.
  - rewrite length_app. lia.
  - rewrite fmap_app. apply NoDup_app. split_and!; [done | | done]. intros m Hm Hm'. apply (Hd m Hm). by right.
  - apply Forall_app in He as [He1 [_ He2]%Forall_cons].
    apply Forall_app. split; apply Forall_forall; intros e' Hin; eapply entry_ok_kept; try done.
    + intros Hm%HD. apply (Hd e'.1); [by apply list_elem_of_fmap_2 | rewrite Hm; by left].
    + by eapply Forall_forall in He1.
    + intros Hm%HD. apply Hne. rewrite <- Hm. by apply list_elem_of_fmap_2.
    + by eapply Forall_forall in He2.
Qed.

Lemma marker_position_run w m p : marker_place w m = Some p -> marker_position m w = (Done p, w).
Proof. intros Hp. unfold marker_position. by rewrite Hp. Qed.

(** ** Running the operations *)

Lemma bind_run {A B} (m : L A) (k : A -> L B) w a w' : m w = (Done a, w') -> bind m k w = k a w'.
Proof. unfold bind. by intros ->. Qed.

Lemma bind_assoc {A B C} (m : L A) (k : A -> L B) (k' : B -> L C) w :
  bind m (fun a => bind (k a) k') w = bind (bind m k) k' w.
Proof. unfold bind. by destruct (m w) as [[] ?]. Qed.

Lemma ring_run w c : w_ext w = Some c -> LINE_NUMBER_RING w = (Done (lc_ring c), w).
Proof. intros Hc. unfold LINE_NUMBER_RING, get_cache, bind, get. by rewrite Hc. Qed.

Lemma begv_run w c : w_ext w = Some c -> LINE_NUMBER_BEGV w = (Done (lc_begv c), w).
Proof. intros Hc. unfold LINE_NUMBER_BEGV, get_cache, bind, get. by rewrite Hc. Qed.

Lemma set_ring_run w c ring : w_ext w = Some c ->
  set_ring ring w = (Done tt, upd_ext (fun _ => Some (mk_cache ring (lc_begv c))) w).
Proof. intros Hc. unfold set_ring, get_cache, bind, get. by rewrite Hc. Qed.

Lemma set_begv_run w c line : w_ext w = Some c ->
  set_begv line w = (Done tt, upd_ext (fun _ => Some (mk_cache (lc_ring c) line)) w).
Proof. intros Hc. unfold set_begv, get_cache, bind, get. by rewrite Hc. Qed.

Lemma option_run {A} (x : option A) a (w : lworld) : x = Some a -> of_option x w = (Done a, w).
Proof. by intros ->. Qed.

(** ** Invalidation *)

Lemma invalidate_loop_ok fuel l1 l2 pos w begv :
  w_ext w = Some (mk_cache (ring_of (l1 ++ l2)) begv) -> ring_ok w (l1 ++ l2) -> (length l2 <= fuel)%nat ->
  exists w' l2', invalidate_loop fuel (zlen l1) pos w = (Done tt, w') /\
    w_ext w' = Some (mk_cache (ring_of (l1 ++ l2')) begv) /\ ring_ok w' (l1 ++ l2') /\
    Forall (fun e => exists p, marker_place w' e.1 = Some p /\ p < pos) l2' /\
    kept (fun m => m ∈ l2.*1) w w'.
Proof.
  revert fuel l1 w. induction l2 as [| e l2 IH]; intros fuel l1 w Hc Hr Hf; simpl in Hf.
  - exists w, []. split; [| split_and!; try done; apply kept_refl].
    destruct fuel as [| fuel]; cbn [invalidate_loop];
      (destruct (Z.ltb_spec (zlen l1) LINE_NUMBER_RING_SIZE); [| done]).
    all: erewrite bind_run by (by eapply ring_run).
    all: erewrite bind_run by (by apply option_run, ring_lookup; [apply Hr |]).
    all: done.
  - destruct fuel as [| fuel]; [lia |]. cbn [invalidate_loop].
    pose proof (ring_length _ _ Hr) as Hlen. rewrite length_app in Hlen. simpl in Hlen.
    rewrite (proj2 (Z.ltb_lt _ _)) by (unfold LINE_NUMBER_RING_SIZE; lia).
    erewrite bind_run by (by eapply ring_run).
    erewrite bind_run by (by apply option_run, ring_lookup; [apply Hr | unfold LINE_NUMBER_RING_SIZE; lia]).
    destruct e as [m line]. pose proof (ring_entries _ _ Hr) as He. apply Forall_app in He as [He1 [Hm He2]%Forall_cons].
    destruct (entry_place _ _ Hm) as (p & Hp & Hop & Hline). cbn [head].
    erewrite bind_run by (by apply marker_position_run).
    rewrite Z.geb_leb. destruct (Z.leb_spec pos p).
    + destruct (kept_nowhere m w) as (w1 & E1 & Hc1 & Hk1). erewrite bind_run by exact E1.
      erewrite bind_run by (by apply option_run, shift_ring_of; rewrite length_app; simpl; lia).
      erewrite bind_run by (eapply set_ring_run; by rewrite Hc1).
      set (w2 := upd_ext _ w1). assert (kept (eq m) w w2) as Hk2 by (eapply kept_trans; [exact Hk1 | apply kept_cache]).
      destruct (IH fuel l1 w2) as (w' & l2' & E & Hc' & Hr' & Hlt & Hk); [done | | lia |].
      { eapply (ring_ok_drop _ _ _ _ (m, line)); [exact Hk2 | by intros ? <- | done]. }
      exists w', l2'. split; [exact E |]. split_and!; try done.
      eapply kept_trans; eapply kept_mono; [exact Hk2 | intros ? <-; by left | exact Hk | intros ? ?; by right].
    + destruct (IH fuel (l1 ++ [(m, line)]) w) as (w' & l2' & E & Hc' & Hr' & Hlt & Hk);
        rewrite <- ?(assoc_L (++)); try done; [lia |]. rewrite <- (assoc_L (++)) in *.
      exists w', ((m, line) :: l2'). rewrite length_app, Nat2Z.inj_add in E. split; [exact E |]. split_and!; try done.
      * apply Forall_cons. split; [| done]. exists p. split; [| done]. apply (kept_place _ _ _ Hk); [| done].
        pose proof (ring_nodup _ _ Hr) as Hn. rewrite fmap_app in Hn. apply NoDup_app in Hn as (_ & _ & Hn).
        by apply NoDup_cons in Hn as [Hn _].
      * eapply kept_mono; [exact Hk |]. intros ? ?. by right.
Qed.

(** A right cache with entries of which [P] holds. *)
Definition cache_with (w : lworld) (P : entry -> Prop) : Prop :=
  match w_ext w with
  | None => True
  | Some c => exists l, lc_ring c = ring_of l /\ ring_ok w l /\ (lc_begv c = 0 \/ lc_begv c = -1) /\ Forall P l
  end.

Lemma cache_with_all w (P : entry -> Prop) : cache_ok w -> (forall e, P e) -> cache_with w P.
Proof.
  unfold cache_ok, cache_with. destruct (w_ext w) as [c |]; [| done]. intros (l & H1 & H2 & H3) HP.
  exists l. split_and!; try done. by apply Forall_forall.
Qed.

Definition cache_markers (w : lworld) : list positive :=
  match w_ext w with Some c => ring_markers (lc_ring c) | None => [] end.

Lemma invalidate_ok pos w c :
  w_ext w = Some c -> cache_ok w ->
  exists w', invalidate_line_number_cache pos w = (Done tt, w') /\
    cache_with w' (fun e => exists p, marker_place w' e.1 = Some p /\ p < pos) /\
    kept (fun m => m ∈ cache_markers w) w w'.
Proof.
  intros Hc Hok. unfold cache_ok, cache_markers in *. rewrite Hc in *. destruct Hok as (l & Hring & Hr & Hb).
  destruct c as [ring begv]. simpl in *. subst ring.
  destruct (invalidate_loop_ok (Z.to_nat LINE_NUMBER_RING_SIZE) [] l pos w begv) as (w' & l' & E & Hc' & Hr' & Hlt & Hk);
    [done | done | apply Hr |].
  exists w'. split_and!; [done | |].
  - unfold cache_with. rewrite Hc'. by exists l'.
  - eapply kept_mono; [exact Hk |]. intros m Hm. by rewrite ring_markers_of.
Qed.

(** ** The nearest known line *)

Definition known (w : lworld) (pos line : Z) : Prop :=
  o <= pos <= t_z (w_text w) /\ line = newlines (text_str (w_text w)) pos - newlines (text_str (w_text w)) o.

Lemma nearest_loop_known fuel l1 l2 w beg pos line len :
  ring_ok w (l1 ++ l2) -> (length l2 <= fuel)%nat -> known w beg line ->
  exists beg' line', nearest_loop fuel (ring_of (l1 ++ l2)) (zlen l1) beg pos line len w = (Done (beg', line'), w) /\
    known w beg' line'.
Proof.
  revert fuel l1 beg line len. induction l2 as [| e l2 IH]; intros fuel l1 beg line len Hr Hf Hk; simpl in Hf.
  - exists beg, line. split; [| done]. destruct fuel as [| fuel]; cbn [nearest_loop];
      (destruct (Z.ltb_spec (zlen l1) LINE_NUMBER_RING_SIZE); [| done]).
    all: by erewrite bind_run by (by apply option_run, ring_lookup; [apply Hr |]).
  - destruct fuel as [| fuel]; [lia |]. cbn [nearest_loop].
    pose proof (ring_length _ _ Hr) as Hlen. rewrite length_app in Hlen. simpl in Hlen.
    rewrite (proj2 (Z.ltb_lt _ _)) by (unfold LINE_NUMBER_RING_SIZE; lia).
    erewrite bind_run by (by apply option_run, ring_lookup; [apply Hr | unfold LINE_NUMBER_RING_SIZE; lia]).
    destruct e as [m line']. pose proof (ring_entries _ _ Hr) as He. apply Forall_app in He as [_ [Hm _]%Forall_cons].
    destruct (entry_place _ _ Hm) as (p & Hp & Hop & Hline). cbn [head].
    erewrite bind_run by (by apply marker_position_run).
    replace (ring_of (l1 ++ (m, line') :: l2)) with (ring_of ((l1 ++ [(m, line')]) ++ l2)) by (by rewrite <- (assoc_L (++))).
    replace (zlen l1 + 1) with (zlen (l1 ++ [(m, line')])) by (rewrite length_app; simpl; lia).
    assert (ring_ok w ((l1 ++ [(m, line')]) ++ l2)) as Hr' by (by rewrite <- (assoc_L (++))).
    destruct (_ <? len); apply IH; try done; lia.
Qed.

(** ** A new entry *)

Lemma pos_of_app m l1 l2 :
  pos_of m (l1 ++ l2) = match pos_of m l1 with Some p => Some p | None => pos_of m l2 end.
Proof. induction l1 as [| [[id p] ty] l1 IH]; [done |]. simpl. by destruct (bool_decide _). Qed.

Lemma pos_of_absent m t l : m ∉ m_id <$> l -> pos_of m (marker_view t <$> l) = None.
Proof.
  induction l as [| x l IH]; [done |]. csimpl. intros [Hx Hl]%not_elem_of_cons.
  rewrite bool_decide_eq_false_2 by congruence. by apply IH.
Qed.

Lemma live_markers_subset (w : lworld) x : x ∈ live_markers w -> x ∈ mjoin (b_markers <$> w_bufs w).
Proof.
  unfold live_markers. induction (w_bufs w) as [| b bs IH]; [done |]. csimpl. rewrite !elem_of_app.
  destruct (b_live b); [tauto |]. intros [Hx | Hx]; [by apply elem_of_nil in Hx | auto].
Qed.

(** A marker in front of a chain. *)
Lemma place_in_front (w : lworld) v b id mem ty m :
  w_bufs w !! v = Some b -> b_live b = true -> id ∉ m_id <$> mjoin (b_markers <$> w_bufs w) ->
  marker_place (upd_buf v (fun b => set_markers b (mk_marker id mem ty :: b_markers b)) w) m =
  if bool_decide (id = m) then Some (memind_to_bytind (w_text w) mem) else marker_place w m.
Proof.
  intros Hv Hb Hid. unfold marker_place, live_markers. simpl.
  assert (id ∉ m_id <$> live_markers w) as Hid'.
  { intros (x & -> & Hx)%list_elem_of_fmap. apply Hid, list_elem_of_fmap. exists x.
    split; [done | by apply live_markers_subset]. }
  unfold live_markers in Hid'. clear Hid. revert Hv Hid'. generalize (w_bufs w) (w_text w). intros bs t Hv.
  apply list_elem_of_split_length in Hv as (bs1 & bs2 & -> & ->). induction bs1 as [| b1 bs1 IH]; csimpl; intros Hid.
  - rewrite Hb in *. csimpl. by case_bool_decide.
  - rewrite fmap_app in Hid. apply not_elem_of_app in Hid as [Hid1 Hid2].
    rewrite !(fmap_app (marker_view t)), !pos_of_app, IH by done.
    case_bool_decide; [subst m | done]. by rewrite pos_of_absent.
Qed.

Lemma make_marker_at_run v w b pos :
  w_bufs w !! v = Some b -> b_live b = true -> text_wf (w_text w) -> 1 <= pos <= t_z (w_text w) ->
  exists id w', make_marker_at v pos w = (Done id, w') /\ w_ext w' = w_ext w /\
    kept (fun _ => False) w w' /\ marker_place w' id = Some pos /\ marker_place w id = None /\
    Forall (fun b => b_point_marker b <> id) (strip_markers w).
Proof.
  intros Hv Hb Ht Hpos. unfold make_marker_at.
  erewrite bind_run by (unfold get_buf; rewrite Hv; done). do 2 (erewrite bind_run by done).
  set (used := _ ++ _). set (id := fresh _).
  assert (id ∉ used) as Hid by (rewrite <- (elem_of_list_to_set (C := gset positive)); apply is_fresh).
  subst used. apply not_elem_of_app in Hid as [Hid1 Hid2].
  unfold BUF_BEG. rewrite (proj2 (Z.ltb_ge pos 1)), Z.gtb_ltb, (proj2 (Z.ltb_ge (t_z (w_text w)) pos)) by lia.
  rewrite Hb. eexists id, _. split; [done |]. split; [done |]. unfold when, upd.
  assert (forall m, marker_place
    (upd_buf v (fun b => set_markers b (mk_marker id (bytind_to_memind (w_text w) pos) false :: b_markers b)) w) m =
    if bool_decide (id = m) then Some pos else marker_place w m) as Hplace.
  { intros m. rewrite (place_in_front _ _ b) by done. destruct (memind_of_bytind (w_text w) pos Ht Hpos) as [_ ->]. done. }
  assert (marker_place w id = None) as Hnone.
  { apply pos_of_absent. intros (x & -> & Hx)%list_elem_of_fmap. apply Hid1, list_elem_of_fmap. exists x.
    split; [done | by apply live_markers_subset]. }
  split_and!.
  - split; [done | done | |].
    + unfold strip_markers. simpl. apply list_eq. intros i. rewrite !list_lookup_fmap.
      destruct (decide (i = v)) as [-> | Hi]; [rewrite list_lookup_alter_eq | by rewrite list_lookup_alter_ne].
      rewrite Hv. done.
    + intros m p _ Hp. rewrite Hplace, bool_decide_eq_false_2; [done |]. by intros <-; rewrite Hnone in Hp.
  - by rewrite Hplace, bool_decide_eq_true_2.
  - done.
  - unfold strip_markers. apply Forall_fmap, Forall_forall. intros b' Hb' Hx. apply Hid2, list_elem_of_fmap. by exists b'.
Qed.

Lemma kept_buf D w w' v b :
  kept D w w' -> w_bufs w !! v = Some b ->
  exists b', w_bufs w' !! v = Some b' /\ set_markers b' [] = set_markers b [].
Proof.
  intros Hk Hv. pose proof (f_equal (.!! v) (kept_bufs _ _ _ Hk)) as E. unfold strip_markers in E.
  rewrite !list_lookup_fmap, Hv in E. destruct (w_bufs w' !! v) as [b' |]; [| done].
  apply Some_inj in E. by exists b'.
Qed.

Lemma ring_ok_cons w w' id line pos l :
  kept (fun _ => False) w w' -> (length l <= 7)%nat -> ring_ok w l ->
  marker_place w id = None -> marker_place w' id = Some pos -> known w pos line ->
  Forall (fun b => b_point_marker b <> id) (strip_markers w) -> ring_ok w' ((id, line) :: l).
Proof.
  intros Hk Hl [_ Hn He] Hid Hid' [Hpos Hline] Hfree. split; [simpl; lia | |].
  - csimpl. apply NoDup_cons. split; [| done]. intros ([m line'] & Hm & Hin)%list_elem_of_fmap. simpl in Hm. subst m.
    eapply Forall_forall in He; [| done]. destruct (entry_place _ _ He) as (p & Hp & _). simpl in Hp. congruence.
  - apply Forall_cons. split.
    + split; [exists pos; rewrite (kept_text _ _ _ Hk); done | by rewrite (kept_bufs _ _ _ Hk)].
    + eapply Forall_impl; [exact He |]. intros e He'. eapply entry_ok_kept; [exact Hk | by intros [] | done].
Qed.

Lemma add_position_ok v w c l b pos line :
  w_ext w = Some c -> lc_ring c = ring_of l -> ring_ok w l -> (lc_begv c = 0 \/ lc_begv c = -1) ->
  w_bufs w !! v = Some b -> b_live b = true -> text_wf (w_text w) -> 1 <= o -> known w pos line ->
  exists w' c', add_position_to_cache v pos line w = (Done tt, w') /\ w_ext w' = Some c' /\ lc_begv c' = lc_begv c /\
    cache_ok w' /\ kept (fun m => m ∈ l.*1) w w'.
Proof.
  intros Hc Hring Hr Hbegv Hv Hb Ht Ho Hpos. unfold add_position_to_cache. pose proof (ring_length _ _ Hr) as Hl.
  erewrite bind_run by (by eapply ring_run). rewrite Hring. erewrite bind_run by (by apply option_run, ring_last).
  assert (exists w1, (match l !! 7%nat with Some (m, _) => set_marker_nowhere m | None => ret tt end) w = (Done tt, w1) /\
    w_ext w1 = Some c /\ kept (fun m => m ∈ l.*1) w w1 /\ ring_ok w1 (take 7 l)) as (w1 & E1 & Hc1 & Hk1 & Hr1).
  { destruct (l !! 7%nat) as [[m line'] |] eqn:E.
    - destruct (kept_nowhere m w) as (w1 & E1 & Hc1 & Hk1). exists w1. split_and!; [done | congruence | |].
      + eapply kept_mono; [exact Hk1 |]. intros ? <-. apply list_elem_of_fmap. exists (m, line').
        split; [done | by eapply list_elem_of_lookup_2].
      + assert (l = take 7 l ++ [(m, line')]) as El.
        { rewrite <- (take_drop 7 l) at 1. f_equal. apply (drop_S _ (m, line')) in E. rewrite E.
          by rewrite drop_ge by lia. }
        rewrite El in Hr. rewrite <- (app_nil_r (take 7 l)).
        eapply (ring_ok_drop _ _ _ _ (m, line')); [exact Hk1 | by intros ? <- | done].
    - exists w. split_and!; [done | done | apply kept_refl |]. apply lookup_ge_None in E. by rewrite take_ge by lia. }
  erewrite bind_run by exact E1. destruct (rotate_ring_of l (1%positive, 0) Hl) as (ring & Erot & _).
  erewrite bind_run by (apply option_run; exact Erot).
  destruct (kept_buf _ _ _ _ _ Hk1 Hv) as (b1 & Hv1 & Eb).
  assert (b_live b1 = true) as Hb1 by (by rewrite <- Hb; apply (f_equal b_live) in Eb).
  assert (known w1 pos line) as Hpos1 by (unfold known; by rewrite (kept_text _ _ _ Hk1)).
  destruct (make_marker_at_run v w1 b1 pos) as (id & w2 & E2 & Hc2 & Hk2 & Hid2 & Hid1 & Hfree); try done.
  { by rewrite (kept_text _ _ _ Hk1). }
  { destruct Hpos1. lia. }
  erewrite bind_run by exact E2. erewrite set_ring_run by (by rewrite Hc2).
  assert (zset ring 0 (Some (id, line)) = ring_of ((id, line) :: take 7 l)) as Hz.
  { destruct (rotate_ring_of l (id, line) Hl) as (ring' & Erot' & Ez). congruence. }
  eexists _, _. split; [done |]. split; [done |]. split; [done |]. split.
  - unfold cache_ok. simpl. exists ((id, line) :: take 7 l). split; [done |]. split; [| done].
    assert (ring_ok w2 ((id, line) :: take 7 l)) as [] by
      (eapply (ring_ok_cons w1 w2 id line pos); [done | rewrite length_take; lia | done..]). split; [done | done |].
    eapply Forall_impl; [done |]. intros e He'. eapply entry_ok_kept; [apply (kept_cache (fun _ => False)) | by intros [] | done].
  - eapply kept_trans; [exact Hk1 |]. eapply kept_trans; [eapply kept_mono; [exact Hk2 | done] | apply kept_cache].
Qed.
End Origin.

(** ** The number of a line *)

Section Query.
Variables (v : nat) (b : buffer).

(** The buffer [v], in the state [w], is [b] up to its markers. *)
Record asked (w : lworld) : Prop := {
  asked_buf : exists b', w_bufs w !! v = Some b' /\ set_markers b' [] = set_markers b [];
  asked_live : b_live b = true;
  asked_text : text_wf (w_text w);
  asked_begv : 1 <= b_begv b <= b_zv b;
  asked_zv : b_zv b <= t_z (w_text w);
}.

Lemma asked_kept D w w' : kept D w w' -> asked w -> asked w'.
Proof.
  intros Hk [(b1 & Hv & Hb) Hl Ht H1 H2]. rewrite <- (kept_text _ _ _ Hk) in Ht, H2. split; try done.
  destruct (kept_buf _ _ _ _ _ Hk Hv) as (b2 & Hv2 & E). exists b2. split; [done | congruence].
Qed.

Lemma asked_run w : asked w -> exists b', get_buf v w = (Done b', w) /\ b_begv b' = b_begv b /\ b_zv b' = b_zv b /\
  b_live b' = true.
Proof.
  intros [(b' & Hv & E) Hl _ _ _]. exists b'. unfold get_buf. rewrite Hv. split_and!; [done | | |].
  - by apply (f_equal b_begv) in E.
  - by apply (f_equal b_zv) in E.
  - rewrite <- Hl. by apply (f_equal b_live) in E.
Qed.

Lemma scan_run w beg pos : asked w -> b_begv b <= pos <= b_zv b -> 1 <= beg <= t_z (w_text w) ->
  exists stop, scan_buffer v 10 beg pos (if pos >? beg then EMACS_INT_MAX else - EMACS_INT_MAX) false w =
    (Done (stop, EMACS_INT_MAX - Z.abs (newlines (text_str (w_text w)) pos - newlines (text_str (w_text w)) beg)), w).
Proof.
  intros Ha Hpos Hbeg. destruct (asked_run w Ha) as (b' & Eb & E1 & E2 & _). destruct Ha as [_ _ Ht H1 H2].
  destruct (scan_all (w_text w) b' beg pos) as [stop E]; try done; try lia.
  exists stop. unfold scan_buffer. erewrite bind_run by done. erewrite bind_run by exact Eb.
  erewrite bind_run by (by apply option_run). by erewrite bind_run by done.
Qed.

Lemma near_line fuel w pos cachep :
  asked w -> b_begv b <= pos <= b_zv b -> Z.abs (pos - b_begv b) <= LINE_NUMBER_FAR \/ cachep = false ->
  buffer_line_number (S fuel) v pos cachep w =
    (Done (newlines (text_str (w_text w)) pos - newlines (text_str (w_text w)) (b_begv b)), w).
Proof.
  intros Ha Hpos Hnear. cbn [buffer_line_number]. destruct (asked_run w Ha) as (b' & Eb & E1 & _ & _).
  erewrite bind_run by exact Eb. cbv zeta. rewrite E1.
  assert ((if Z.abs (pos - b_begv b) <=? LINE_NUMBER_FAR then false else cachep) = false) as ->.
  { destruct (Z.leb_spec (Z.abs (pos - b_begv b)) LINE_NUMBER_FAR); [done |]. destruct Hnear; [lia | done]. }
  erewrite bind_run by done. pose proof (asked_begv _ Ha). pose proof (asked_zv _ Ha).
  destruct (scan_run w (b_begv b) pos) as [stop E]; [done | done | lia |]. erewrite bind_run by exact E.
  pose proof (newlines_mono (text_str (w_text w)) (b_begv b) pos ltac:(lia)).
  unfold ret. do 2 f_equal. rewrite Z.gtb_ltb, (proj2 (Z.ltb_ge _ _)) by lia. lia.
Qed.

(** The cache is there, with the line of the beginning. *)
Lemma cache_ready w :
  asked w -> cache_ok (b_begv b) w ->
  exists w' c l,
    ((let! c := get w_ext in match c with None => allocate_line_number_cache v | Some _ => ret tt end);;
     (let! line := LINE_NUMBER_BEGV in
      if line =? -1 then
        (set_begv 0;; let! n := buffer_line_number 1 v (b_begv b) true in set_begv n)
      else ret tt)) w = (Done tt, w') /\
    w_ext w' = Some c /\ lc_ring c = ring_of l /\ ring_ok (b_begv b) w' l /\ lc_begv c = 0 /\
    l.*1 = cache_markers w /\ kept (fun _ => False) w w'.
Proof.
  intros Ha Hok.
  assert (exists w1 c l, (let! c := get w_ext in
      match c with None => allocate_line_number_cache v | Some _ => ret tt end) w = (Done tt, w1) /\
    w_ext w1 = Some c /\ lc_ring c = ring_of l /\ ring_ok (b_begv b) w1 l /\ (lc_begv c = 0 \/ lc_begv c = -1) /\
    l.*1 = cache_markers w /\ kept (fun _ => False) w w1) as (w1 & c & l & E1 & Hc & Hring & Hr & Hb & Hl & Hk).
  { erewrite bind_run by done. unfold cache_ok, cache_markers in *. destruct (w_ext w) as [c |] eqn:Hc.
    - destruct Hok as (l & Hring & Hr & Hb). exists w, c, l. split_and!; try done.
      by rewrite Hring, ring_markers_of.
    - unfold allocate_line_number_cache, set_cache. erewrite bind_run by done.
      set (w1 := upd_ext _ w). assert (kept (fun _ => False) w w1) as Hk by apply kept_cache.
      unfold narrow_line_number_cache. erewrite bind_run by done.
      replace (w_ext w1) with (Some (mk_cache (replicate (Z.to_nat LINE_NUMBER_RING_SIZE) None) 0)) by done.
      destruct (asked_run w1 (asked_kept _ _ _ Hk Ha)) as (b' & Eb & _). erewrite bind_run by exact Eb.
      erewrite set_begv_run by done. eexists _, _, []. split; [done |]. split; [done |]. split; [done |].
      split_and!; [split; simpl; [lia | by apply NoDup_nil | by apply Forall_nil] | | done |].
      + cbn [lc_begv]. case_match; auto.
      + eapply kept_trans; [exact Hk | apply kept_cache]. }
  erewrite bind_run by exact E1. erewrite bind_run by (by apply begv_run).
  destruct Hb as [Hb | Hb]; rewrite Hb; [by exists w1, c, l | rewrite Z.eqb_refl].
  erewrite bind_run by (by apply set_begv_run). set (w2 := upd_ext _ w1).
  assert (kept (fun _ => False) w1 w2) as Hk2 by apply kept_cache.
  assert (asked w2) as Ha2 by (eapply asked_kept; [exact Hk2 |]; by eapply asked_kept).
  erewrite bind_run; [| apply near_line; [done | pose proof (asked_begv _ Ha); lia | left; unfold LINE_NUMBER_FAR; lia]].
  rewrite Z.sub_diag. erewrite set_begv_run by done. eexists _, _, l. split; [done |]. split; [done |].
  split; [done |]. split_and!; try done.
  - destruct Hr as [Hr1 Hr2 Hr3]. split; [done | done |]. eapply Forall_impl; [exact Hr3 |].
    intros e He. eapply (entry_ok_kept _ (fun _ => False)); [| by intros [] | exact He].
    eapply kept_trans; [exact Hk2 | apply kept_cache].
  - eapply kept_trans; [exact Hk |]. eapply kept_trans; [exact Hk2 | apply kept_cache].
Qed.

(** A far line, with the cache. *)
Lemma far_line w pos :
  asked w -> cache_ok (b_begv b) w -> b_begv b <= pos <= b_zv b -> LINE_NUMBER_FAR < Z.abs (pos - b_begv b) ->
  exists w', buffer_line_number 2 v pos true w =
      (Done (newlines (text_str (w_text w)) pos - newlines (text_str (w_text w)) (b_begv b)), w') /\
    cache_ok (b_begv b) w' /\ kept (fun m => m ∈ cache_markers w) w w'.
Proof.
  intros Ha Hok Hpos Hfar. destruct (asked_run w Ha) as (b' & Eb & E1 & _ & _).
  pose proof (asked_begv _ Ha) as Hbegv. pose proof (asked_zv _ Ha) as Hzv.
  destruct (cache_ready w Ha Hok) as (w1 & c & l & Er & Hc & Hring & Hr & Hb0 & Hl & Hk).
  remember 1%nat as one eqn:Eone. cbn [buffer_line_number]. erewrite bind_run by exact Eb. cbv zeta. rewrite E1.
  rewrite (proj2 (Z.leb_gt _ _)) by lia. subst one.
  pose proof (asked_kept _ _ _ Hk Ha) as Ha1. pose proof (kept_text _ _ _ Hk) as Ht.
  destruct (nearest_loop_known (b_begv b) (Z.to_nat LINE_NUMBER_RING_SIZE) [] l w1 (b_begv b) pos 0
              (Z.abs (pos - b_begv b)) Hr) as (beg & line & En & Hkn & Hline).
  { apply Hr. }
  { split; [rewrite Ht; lia | lia]. }
  erewrite bind_run;
    [| rewrite bind_assoc; erewrite bind_run by exact Er; erewrite bind_run by (by apply begv_run); rewrite Hb0; unfold get_nearest_line_number;
       erewrite bind_run by (by apply ring_run); rewrite Hring; exact En].
  cbv beta iota. destruct (scan_run w1 beg pos) as [stop Es]; [done | done | lia |].
  erewrite bind_run by exact Es. cbv beta iota zeta.
  match goal with |- context [add_position_to_cache v pos ?n] => set (line' := n) end.
  assert (line' = newlines (text_str (w_text w1)) pos - newlines (text_str (w_text w1)) (b_begv b)) as Hline'.
  { subst line'. rewrite Z.gtb_ltb. destruct (Z.ltb_spec pos beg).
    - pose proof (newlines_mono (text_str (w_text w1)) pos beg ltac:(lia)). lia.
    - pose proof (newlines_mono (text_str (w_text w1)) beg pos ltac:(lia)). lia. }
  assert (exists w2 c2, when (Z.abs (pos - beg) >? LINE_NUMBER_FAR) (add_position_to_cache v pos line') w1 = (Done tt, w2) /\
    w_ext w2 = Some c2 /\ lc_begv c2 = 0 /\ cache_ok (b_begv b) w2 /\ kept (fun m => m ∈ l.*1) w1 w2)
    as (w2 & c2 & E2 & Hc2 & Hb2 & Hok2 & Hk2).
  { clearbody line'. destruct (Z.abs (pos - beg) >? LINE_NUMBER_FAR); cbn [when].
    - destruct (asked_buf _ Ha1) as (b1 & Hv1 & Eb1).
      destruct (add_position_ok (b_begv b) v w1 c l b1 pos line') as (w2 & c2 & E2 & Hc2 & Hb2 & Hok2 & Hk2); auto; [| | lia | |].
      + rewrite <- (asked_live _ Ha1). by apply (f_equal b_live) in Eb1.
      + apply Ha1.
      + split; [rewrite Ht; lia | done].
      + exists w2, c2. split_and!; [done | done | congruence | done | done].
    - exists w1, c. split_and!; try done. unfold cache_ok. rewrite Hc. exists l. auto. }
  erewrite bind_run by exact E2. erewrite bind_run by (by apply begv_run). rewrite Hb2, Z.sub_0_r, Hline', Ht.
  exists w2. split; [done |]. split; [done |]. rewrite <- Hl.
  eapply kept_trans; [eapply kept_mono; [exact Hk | done] | exact Hk2].
Qed.
End Query.

(** C23: [buffer_line_number] of a position in the accessible part always returns,
    and returns the number of newlines between the beginning of the accessible part
    and the position, with the cache or without, whatever it has kept; the text and
    the buffers stay the same, also the markers that are not the cache's own, and
    the cache stays right. *)
Theorem buffer_line_number_counts v b w pos cachep
    (Hv : w_bufs w !! v = Some b) (Hlive : b_live b = true) (Htext : text_wf (w_text w))
    (Hbegv : 1 <= b_begv b <= pos) (Hzv : pos <= b_zv b <= t_z (w_text w))
    (Hcache : cache_ok (b_begv b) w) :
  exists w', buffer_line_number 2 v pos cachep w =
      (Done (newlines (text_str (w_text w)) pos - newlines (text_str (w_text w)) (b_begv b)), w') /\
    cache_ok (b_begv b) w' /\
    w_text w' = w_text w /\ w_glob w' = w_glob w /\ strip_markers w' = strip_markers w /\
    forall m p, m ∉ cache_markers w -> marker_place w m = Some p -> marker_place w' m = Some p.
Proof.
  assert (asked v b w) as Ha by (split; [by exists b | done | done | lia | lia]).
  destruct (Z.le_gt_cases (Z.abs (pos - b_begv b)) LINE_NUMBER_FAR) as [Hnear | Hfar]; [| destruct cachep].
  - exists w. rewrite near_line with (b := b) by (auto; lia). done.
  - destruct (far_line v b w pos) as (w' & E & Hok & []); try done; [lia |]. exists w'. done.
  - exists w. rewrite near_line with (b := b) by (auto; lia). done.
Qed.

(** ** Edits *)

(** An entry, for the text and the buffers as a program sees them. *)
Definition bufs_markers (bs : list abuf) : list (positive * Z * bool) :=
  mjoin ((fun b => if a_live b then a_markers b else []) <$> bs).

Definition a_entry_ok (o : Z) (str : list Z) (bs : list abuf) (e : entry) : Prop :=
  (exists p, pos_of e.1 (bufs_markers bs) = Some p /\ o <= p <= zlen str + 1 /\
     e.2 = newlines str p - newlines str o) /\
  Forall (fun b => a_point_marker b <> e.1) bs.

Lemma entry_abs o w e :
  text_wf (w_text w) -> entry_ok o w e <-> a_entry_ok o (a_str (abs_world w)) (a_bufs (abs_world w)) e.
Proof.
  intros Ht. pose proof (length_text_str _ Ht) as Hl.
  assert (Forall (fun b => b_point_marker b <> e.1) (strip_markers w) <->
    Forall (fun b => a_point_marker b <> e.1) (a_bufs (abs_world w))) as Hf.
  { unfold strip_markers. simpl. change (@map) with (@fmap list _). by rewrite !Forall_fmap. }
  assert (forall p, marker_place w e.1 = Some p <-> pos_of e.1 (bufs_markers (a_bufs (abs_world w))) = Some p) as Hp
    by (intros p; by rewrite place_abs).
  split.
  - intros [(p & H1 & H2 & H3) H4]. split; [| by apply Hf]. exists p. split; [by apply Hp |]. simpl. split; [lia | done].
  - intros [(p & H1 & H2 & H3) H4]. split; [| by apply Hf]. exists p. split; [by apply Hp |]. simpl in *.
    split; [lia | done].
Qed.

Lemma a_entry_strip o str bs bs' e : map strip bs = map strip bs' -> a_entry_ok o str bs e -> a_entry_ok o str bs' e.
Proof.
  assert (forall bs, bufs_markers (map strip bs) = bufs_markers bs) as Hm.
  { intros bs0. unfold bufs_markers. change (@map) with (@fmap list _). by rewrite <- list_fmap_compose. }
  assert (forall bs, Forall (fun b => a_point_marker b <> e.1) (map strip bs) <->
    Forall (fun b => a_point_marker b <> e.1) bs) as Hf.
  { intros bs0. change (@map) with (@fmap list _). by rewrite Forall_fmap. }
  intros E [(p & H1 & H2) H3]. split.
  - exists p. split; [| done]. by rewrite <- Hm, <- E, Hm.
  - by apply Hf; rewrite <- E; apply Hf.
Qed.

(** What an edit does to each buffer moves a marker from [p] to a place [R p]. *)
Lemma pos_of_edit (F : nat -> abuf -> abuf) (R : Z -> Z -> Prop) m bs p :
  (forall i b, a_live (F i b) = a_live b) ->
  (forall i b, b ∈ bs -> match pos_of m (a_markers b) with
    | Some p => exists p', pos_of m (a_markers (F i b)) = Some p' /\ R p p'
    | None => pos_of m (a_markers (F i b)) = None end) ->
  pos_of m (bufs_markers bs) = Some p ->
  exists p', pos_of m (bufs_markers (map_live_abufs F bs)) = Some p' /\ R p p'.
Proof.
  intros Hlive. revert F Hlive. induction bs as [| b bs IH]; intros F Hlive HF; [done |].
  unfold map_live_abufs. rewrite imap_cons. unfold bufs_markers. csimpl. fold (bufs_markers bs).
  rewrite !pos_of_app. specialize (IH (F ∘ S) ltac:(intros; apply Hlive)).
  unfold map_live_abufs, bufs_markers in IH. pose proof (HF 0%nat b ltac:(by left)) as Hb.
  destruct (a_live b) eqn:E; [rewrite Hlive, E | rewrite E].
  - destruct (pos_of m (a_markers b)) as [q |].
    + intros [= <-]. destruct Hb as (p' & -> & HR). by exists p'.
    + rewrite Hb. apply IH. intros i b' Hb'. apply HF. by right.
  - apply IH. intros i b' Hb'. apply HF. by right.
Qed.

Definition moved_by_insert (ind n p p' : Z) : Prop :=
  (p < ind /\ p' = p) \/ (ind < p /\ p' = p + n) \/ (p = ind /\ (p' = p \/ p' = p + n)).

Lemma insert_abuf_pos ind n bm target b m :
  a_point_marker b <> m ->
  match pos_of m (a_markers b) with
  | Some p => exists p', pos_of m (a_markers (insert_abuf ind n bm target b)) = Some p' /\ moved_by_insert ind n p p'
  | None => pos_of m (a_markers (insert_abuf ind n bm target b)) = None
  end.
Proof.
  intros Hm. unfold insert_abuf. cbn [a_markers]. set (moves := _ && negb _).
  induction (a_markers b) as [| [[id p] ty] l IH]; [done |]. cbn [map pos_of].
  destruct (bool_decide_reflect (id = m)) as [-> | Hid].
  - cbn [fst snd]. rewrite (bool_decide_eq_false_2 (m = a_point_marker b)), andb_false_r by congruence.
    cbn. rewrite bool_decide_eq_true_2 by done. eexists. split; [done |]. unfold moved_by_insert.
    rewrite Z.gtb_ltb. destruct (Z.ltb_spec ind p), (Z.eqb_spec p ind); simpl; try lia.
    destruct (_ || _); lia.
  - cbn [fst snd marker_after_insert]. destruct (moves && bool_decide (id = a_point_marker b)); cbn [pos_of];
      rewrite (bool_decide_eq_false_2 (id = m)) by done; apply IH.
Qed.

Lemma delete_abuf_pos from to b m :
  pos_of m (a_markers (delete_abuf from to b)) = option_map (pos_after_delete from to) (pos_of m (a_markers b)).
Proof.
  unfold delete_abuf. cbn [a_markers]. induction (a_markers b) as [| [[id p] ty] l IH]; [done |].
  cbn. by destruct (bool_decide _).
Qed.

Lemma point_markers_edit (F : nat -> abuf -> abuf) m bs :
  (forall i b, a_point_marker (F i b) = a_point_marker b) ->
  Forall (fun b => a_point_marker b <> m) bs -> Forall (fun b => a_point_marker b <> m) (map_live_abufs F bs).
Proof.
  intros HF Hbs. apply Forall_lookup. intros i b'. unfold map_live_abufs. rewrite list_lookup_imap.
  intros (b & E & Hb)%fmap_Some. rewrite Forall_lookup in Hbs. specialize (Hbs _ _ E). subst b'.
  destruct (a_live b); [by rewrite HF | done].
Qed.

Lemma entry_insert o v ind bytes mp bm s e :
  o <= ind -> 1 <= o -> ind <= zlen (a_str s) + 1 ->
  a_entry_ok o (a_str s) (a_bufs s) e ->
  (occurrences 10 bytes = 0 \/ exists p, pos_of e.1 (bufs_markers (a_bufs s)) = Some p /\ p < ind) ->
  let s' := spec_insert v ind bytes mp bm s in a_entry_ok o (a_str s') (a_bufs s') e.
Proof.
  intros Hoi Ho Hi [(p & Hp & Hop & Hline) Hfree] Hsafe s'. subst s'. unfold spec_insert. cbn [a_str a_bufs set_a_text].
  unfold spec_record_insert. rewrite a_str_record. set (F := fun i => insert_abuf _ _ _ _).
  apply (a_entry_strip _ _ (map_live_abufs F (a_bufs s))).
  { rewrite !strip_map_live by done. by rewrite strip_record. }
  split; [| by apply point_markers_edit].
  destruct (pos_of_edit F (moved_by_insert ind (zlen bytes)) e.1 (a_bufs s) p) as (p' & Hp' & HR); [done | | done |].
  { intros i b Hb. apply insert_abuf_pos. by eapply Forall_forall in Hfree. }
  set (str' := _ ++ _). assert (zlen str' = zlen (a_str s) + zlen bytes) as Hlen by (subst str'; lens; lia).
  assert (newlines str' o = newlines (a_str s) o) as Hno by (apply newlines_insert_before; lia).
  exists p'. split; [done |]. rewrite Hno, Hlen.
  assert (forall q, ind <= q <= zlen (a_str s) + 1 ->
    newlines str' (q + zlen bytes) = newlines (a_str s) q + occurrences 10 bytes) as Hafter
    by (intros q Hq; apply newlines_insert_after; lia).
  assert (forall q, q <= ind -> newlines str' q = newlines (a_str s) q) as Hbefore
    by (intros q Hq; apply newlines_insert_before; lia).
  unfold moved_by_insert in HR. assert (p < ind \/ occurrences 10 bytes = 0) as Hs.
  { destruct Hsafe as [? | (q & Hq & ?)]; [by right | left]. rewrite Hp in Hq. by injection Hq as ->. }
  split; [lia |].
  destruct HR as [[? ->] | [[? ->] | [-> [-> | ->]]]]; rewrite ?Hafter, ?Hbefore by lia; lia.
Qed.

Lemma entry_delete o from to s e :
  1 <= o <= from -> from <= to -> to <= zlen (a_str s) + 1 ->
  a_entry_ok o (a_str s) (a_bufs s) e ->
  (newlines (a_str s) from = newlines (a_str s) to \/
   exists p, pos_of e.1 (bufs_markers (a_bufs s)) = Some p /\ p < from) ->
  let s' := spec_delete from to s in a_entry_ok o (a_str s') (a_bufs s') e.
Proof.
  intros Ho Hft Hto [(p & Hp & Hop & Hline) Hfree] Hsafe s'. subst s'. unfold spec_delete. cbn [a_str a_bufs set_a_text].
  unfold spec_record_delete. rewrite a_str_record. set (F := fun _ => delete_abuf from to).
  apply (a_entry_strip _ _ (map_live_abufs F (a_bufs s))).
  { rewrite !strip_map_live by done. by rewrite strip_record. }
  split; [| by apply point_markers_edit].
  destruct (pos_of_edit F (fun p p' => p' = pos_after_delete from to p) e.1 (a_bufs s) p) as (p' & Hp' & ->); [done | | done |].
  { intros i b Hb. unfold F. rewrite delete_abuf_pos. destruct (pos_of e.1 (a_markers b)); [| done]. eauto. }
  set (str' := _ ++ _). assert (zlen str' = zlen (a_str s) - (to - from)) as Hlen by (subst str'; lens; lia).
  assert (newlines str' o = newlines (a_str s) o) as Hno by (apply newlines_delete_before; lia).
  assert (forall q, q <= from -> newlines str' q = newlines (a_str s) q) as Hbefore
    by (intros q Hq; apply newlines_delete_before; lia).
  eexists. split; [done |]. rewrite Hno, Hlen. unfold pos_after_delete.
  destruct (Z.leb_spec p from); [rewrite Hbefore by lia; lia |].
  assert (newlines (a_str s) from = newlines (a_str s) to) as Hs.
  { destruct Hsafe as [? | (q & Hq & ?)]; [done |]. rewrite Hp in Hq. injection Hq as ->. lia. }
  destruct (Z.ltb_spec p to).
  - pose proof (newlines_mono (a_str s) from p ltac:(lia)). pose proof (newlines_mono (a_str s) p to ltac:(lia)).
    rewrite Hbefore by lia. lia.
  - unfold str'. rewrite newlines_delete_after by lia. lia.
Qed.

(** The cache that goes with a change of the text. *)
Lemma cache_ok_edit o w1 w2 (P : entry -> Prop) :
  text_wf (w_text w1) -> text_wf (w_text w2) -> w_ext w2 = w_ext w1 -> cache_with o w1 P ->
  (forall e, P e -> a_entry_ok o (a_str (abs_world w1)) (a_bufs (abs_world w1)) e ->
     a_entry_ok o (a_str (abs_world w2)) (a_bufs (abs_world w2)) e) -> cache_ok o w2.
Proof.
  intros Ht1 Ht2 Hc2. unfold cache_with, cache_ok. rewrite Hc2. destruct (w_ext w1) as [c |]; [| done].
  intros (l & Hring & [Hl Hn He] & Hb & HP) Hedit. exists l. split; [done |]. split; [| done]. split; [done | done |].
  rewrite Forall_forall in HP. rewrite Forall_forall in He. apply Forall_forall. intros e Hin.
  pose proof (HP e Hin). pose proof (He e Hin).
  apply entry_abs; [done |]. apply Hedit; [done |]. by apply entry_abs.
Qed.

Lemma no_newline bytes : existsb (Z.eqb 10) bytes = false -> occurrences 10 bytes = 0.
Proof.
  induction bytes as [| x bytes IH]; [done |]. cbn [existsb]. intros [Hx%Z.eqb_neq Hb]%orb_false_iff.
  unfold occurrences in *. rewrite filter_cons_False; [by apply IH | done].
Qed.

Definition before (w : lworld) (pos : Z) (e : entry) : Prop := exists p, marker_place w e.1 = Some p /\ p < pos.

(** The invalidation before an insertion: the entries that stay are before it, or no
    newline is inserted. *)
Lemma insert_invalidate_ok o ind bytes w :
  cache_ok o w ->
  exists w1, insert_invalidate_line_number_cache ind bytes w = (Done tt, w1) /\
    cache_with o w1 (fun e => occurrences 10 bytes = 0 \/ before w1 ind e) /\
    kept (fun m => m ∈ cache_markers w) w w1.
Proof.
  intros Hok. unfold insert_invalidate_line_number_cache. erewrite bind_run by done.
  destruct (w_ext w) as [c |] eqn:Hc; [| exists w; split_and!; try done; unfold cache_with; by rewrite Hc].
  destruct (_ || _) eqn:E; cbn [when].
  - destruct (invalidate_ok o ind w c Hc Hok) as (w1 & E1 & Hw & Hk). exists w1. split_and!; try done.
    unfold cache_with in *. destruct (w_ext w1) as [c1 |]; [| done]. destruct Hw as (l & H1 & H2 & H3 & H4).
    exists l. split_and!; try done. eapply Forall_impl; [exact H4 |]. intros e He. by right.
  - exists w. split_and!; try done. apply cache_with_all; [done |]. intros e. left. apply no_newline.
    by apply orb_false_iff in E as [_ ?].
Qed.

(** And before a deletion. *)
Lemma delete_invalidate_ok o v b from to w :
  cache_ok o w -> w_bufs w !! v = Some b -> text_wf (w_text w) -> 1 <= b_begv b -> b_zv b <= t_z (w_text w) ->
  1 <= from < to -> to <= b_zv b ->
  exists w1, delete_invalidate_line_number_cache v from to w = (Done tt, w1) /\
    cache_with o w1 (fun e =>
      newlines (text_str (w_text w)) from = newlines (text_str (w_text w)) to \/ before w1 from e) /\
    kept (fun m => m ∈ cache_markers w) w w1.
Proof.
  intros Hok Hv Ht Hb Hz Hf Hto. unfold delete_invalidate_line_number_cache. erewrite bind_run by done.
  destruct (w_ext w) as [c |] eqn:Hc; [| exists w; split_and!; try done; unfold cache_with; by rewrite Hc].
  assert (exists w1, invalidate_line_number_cache from w = (Done tt, w1) /\
    cache_with o w1 (fun e =>
      newlines (text_str (w_text w)) from = newlines (text_str (w_text w)) to \/ before w1 from e) /\
    kept (fun m => m ∈ cache_markers w) w w1) as Hinv.
  { destruct (invalidate_ok o from w c Hc Hok) as (w1 & E1 & Hw & Hk). exists w1. split_and!; try done.
    unfold cache_with in *. destruct (w_ext w1) as [c1 |]; [| done]. destruct Hw as (l & H1 & H2 & H3 & H4).
    exists l. split_and!; try done. eapply Forall_impl; [exact H4 |]. intros e He. by right. }
  destruct (_ >? _); [done |].
  destruct (scan_forward_found (w_text w) b 10 from to 1) as (p & sh & E & Hle & F1 & F2 & F3 & F4 & F5);
    rewrite ?(proj2 (Z.gtb_lt to 0)) by lia; try done; try lia. rewrite (proj2 (Z.gtb_lt to 0)) in * by lia.
  erewrite bind_run.
  2: { unfold scan_buffer. erewrite bind_run by done. erewrite bind_run by (unfold get_buf; by rewrite Hv).
       erewrite bind_run by (by apply option_run). by erewrite bind_run by done. }
  cbv beta iota. destruct (Z.eqb_spec sh 0); cbn [when]; [done |].
  exists w. split_and!; try done. apply cache_with_all; [done |]. intros e. left. rewrite F5 in F2 by done.
  pose proof (occurrences_bound 10 (region (w_text w) from to)). unfold region in *.
  rewrite (newlines_split (text_str (w_text w)) from to) by lia. lia.
Qed.

(** C24: The cache stays right when the text is edited after the beginning of the
    accessible part.  The invalidation before an insertion or a deletion always
    returns, and touches the cache and its markers only; and any state that the
    change then leads to, with the markers adjusted the way the specification of
    the change says, has again a cache in which every entry has the number of
    newlines before its marker. *)
Theorem edits_keep_line_cache o w (Hcache : cache_ok o w) (Htext : text_wf (w_text w)) (Ho : 1 <= o) :
  (forall ind bytes, o <= ind <= t_z (w_text w) ->
     exists w1, insert_invalidate_line_number_cache ind bytes w = (Done tt, w1) /\
       w_text w1 = w_text w /\ strip_markers w1 = strip_markers w /\
       forall v move_point before_markers w2, text_wf (w_text w2) -> w_ext w2 = w_ext w1 ->
         abs_world w2 = spec_insert v ind bytes move_point before_markers (abs_world w1) -> cache_ok o w2) /\
  (forall v b from to, w_bufs w !! v = Some b -> 1 <= b_begv b -> b_zv b <= t_z (w_text w) ->
     o <= from < to -> to <= b_zv b ->
     exists w1, delete_invalidate_line_number_cache v from to w = (Done tt, w1) /\
       w_text w1 = w_text w /\ strip_markers w1 = strip_markers w /\
       forall w2, text_wf (w_text w2) -> w_ext w2 = w_ext w1 ->
         abs_world w2 = spec_delete from to (abs_world w1) -> cache_ok o w2).
Proof.
  pose proof (length_text_str _ Htext) as Hlen. split.
  - intros ind bytes Hind. destruct (insert_invalidate_ok o ind bytes w Hcache) as (w1 & E & Hw & [Ht _ Hs _]).
    exists w1. split_and!; try done. intros v mp bm w2 Ht2 Hc2 Ha.
    eapply cache_ok_edit; [by rewrite Ht | done | done | exact Hw |]. intros e HP He. rewrite Ha.
    apply entry_insert; [lia | lia | simpl; rewrite Ht; lia | done |].
    destruct HP as [? | (p & Hp & ?)]; [by left | right]. exists p. by rewrite place_abs in Hp.
  - intros v b from to Hv Hb Hz Hf Hto.
    destruct (delete_invalidate_ok o v b from to w) as (w1 & E & Hw & [Ht _ Hs _]); try done; [lia |].
    exists w1. split_and!; try done. intros w2 Ht2 Hc2 Ha.
    eapply cache_ok_edit; [by rewrite Ht | done | done | exact Hw |]. intros e HP He. rewrite Ha.
    apply entry_delete; [lia | lia | simpl; rewrite Ht; lia | done |].
    destruct HP as [? | (p & Hp & ?)]; [left; simpl; by rewrite Ht | right]. exists p. by rewrite place_abs in Hp.
Qed.

(** ** A text of many lines *)

(** Forty lines of a thousand characters, the gap in front. *)
Definition many_lines : buffer_text :=
  mk_text (replicate 20 0 ++ mjoin (replicate 40 (replicate 999 97 ++ [10]))) 1 40001 20 0 1 0 no_text_changes.

Definition many_world : lworld := mk_world many_lines [plain_buffer 1 1 40001 [] (Some [])] None (idle []).

Lemma many_lines_wf : text_wf many_lines.
Proof.
  assert (zlen (t_mem many_lines) = 40020) as Hl by (vm_compute; reflexivity).
  constructor; rewrite ?Hl; cbn [t_gpt t_z t_gap_size t_end_gap_size many_lines]; lia.
Qed.

Lemma buffer_line_number_counts_witness :
  exists w', buffer_line_number 2 0 30001 true many_world =
      (Done (newlines (text_str many_lines) 30001 - newlines (text_str many_lines) 1), w') /\
    cache_ok 1 w' /\ w_text w' = many_lines.
Proof.
  destruct (buffer_line_number_counts 0 (plain_buffer 1 1 40001 [] (Some [])) many_world 30001 true)
    as (w' & E & Hok & Ht & _); cbn [b_begv b_zv b_live plain_buffer w_text many_world t_z many_lines];
    [reflexivity | reflexivity | apply many_lines_wf | lia | lia | exact I |].
  exists w'. split; [exact E |]. split; [exact Hok | exact Ht].
Defined.

(** The ring of [many_world] after a query; the marker is the one it made. *)
Definition one_entry : lworld :=
  mk_world many_lines [plain_buffer 1 1 40001 [mk_marker 2 30021 false] (Some [])]
    (Some (mk_cache (ring_of [(2%positive, 30)]) 0)) (idle []).

Lemma one_entry_ok : cache_ok 1 one_entry.
Proof.
  exists [(2%positive, 30)]. split; [reflexivity |]. split; [| left; reflexivity].
  split; [simpl; lia | apply NoDup_singleton | apply Forall_singleton]. split.
  - exists 30001. split; [vm_compute; reflexivity |]. split; [vm_compute; split; discriminate | vm_compute; reflexivity].
  - repeat constructor. discriminate.
Qed.

Lemma edits_keep_line_cache_witness :
  exists w1, LineNumber.delete_invalidate_line_number_cache 0 1000 1001 one_entry = (Done tt, w1) /\
    w_text w1 = many_lines /\
    forall w2, text_wf (w_text w2) -> w_ext w2 = w_ext w1 ->
      abs_world w2 = spec_delete 1000 1001 (abs_world w1) -> cache_ok 1 w2.
Proof.
  destruct (edits_keep_line_cache 1 one_entry one_entry_ok many_lines_wf ltac:(lia)) as [_ Hd].
  destruct (Hd 0%nat (plain_buffer 1 1 40001 [mk_marker 2 30021 false] (Some [])) 1000 1001)
    as (w1 & E & Ht & _ & Hok); cbn [b_begv b_zv plain_buffer w_text one_entry t_z many_lines];
    [reflexivity | lia | lia | lia | lia |].
  exists w1. split; [exact E |]. split; [exact Ht | exact Hok].
Defined.

(** ** What spoils the cache *)

Definition ask (pos : Z) (w : lworld) : outcome Z * lworld := buffer_line_number 2 0 pos true w.
Definition narrow (begv : Z) (w : lworld) : lworld :=
  (LineNumber.narrow_line_number_cache 0 (upd_buf 0 (fun b => SET_BOTH_BUF_BEGV b begv) w)).2.

(** The line of the beginning of a narrowed buffer is taken to be 0, as it is asked
    for with lines counted from there.  So what was cached while the buffer was
    narrowed is wrong after it is widened: line 30 is said to be line 20. *)
Example narrowing_spoils_cache :
  let '(r1, w1) := ask 30001 (narrow 10001 many_world) in
  r1 = Done 20 /\ (ask 30001 (narrow 1 w1)).1 = Done 20 /\ (ask 30001 (narrow 1 many_world)).1 = Done 30.
Proof. vm_compute. split_and!; reflexivity. Qed.

#[local] Instance quiet_cache : Collaborators (option line_cache) := {|
  adjust_extents := fun _ _ _ _ x => x;
  process_extents_for_insertion := fun _ _ _ x => x;
  process_extents_for_deletion := fun _ _ _ _ x => x;
  adjust_extents_for_deletion := fun _ _ _ _ _ _ x => x;
  splice_in_string_extents := fun _ _ _ _ _ x => x;
  Buffer.insert_invalidate_line_number_cache := fun _ _ x => x;
  Buffer.delete_invalidate_line_number_cache := fun _ _ x => x;
  Buffer.narrow_line_number_cache := fun _ x => x;
  font_lock_maybe_update_syntactic_caches := fun _ _ _ _ x => x;
  call_hook := fun _ => ret tt;
|}.

(** [buffer_replace_char] tells the cache nothing: after a newline was replaced, the
    lines behind it are off by one. *)
Example replacing_a_newline_spoils_cache :
  let w1 := (ask 30001 many_world).2 in
  let '(r, w2) := buffer_replace_char 0 1000 120 false false w1 in
  r = Done tt /\ (ask 30001 w2).1 = Done 30 /\
  newlines (text_str (w_text w2)) 30001 - newlines (text_str (w_text w2)) 1 = 29.
Proof. vm_compute. split_and!; reflexivity. Qed.

(** The markers made for an indirect buffer are nowhere once it is killed; then no
    line of the base buffer that is far can be told any more. *)
Definition two_buffers : lworld :=
  mk_world many_lines [plain_buffer 1 1 40001 [] (Some []); plain_buffer 1 1 40001 [] (Some [])] None (idle []).

Definition kill (v : nat) : lworld -> lworld := upd_buf v (fun b =>
  mk_buffer false (b_pt b) (b_begv b) (b_zv b) (b_changes b) [] (b_point_marker b) (b_undo_list b) (b_read_only b)
    (b_inhibit_read_only b) (b_filename b) (b_modtime b) (b_point_before_scroll b)).

Example killed_buffer_spoils_cache :
  let w1 := (buffer_line_number 2 1 30001 true two_buffers).2 in
  (ask 30001 w1).1 = Done 30 /\
  (ask 30001 (kill 1 w1)).1 = Signal (Qerror "Marker does not point anywhere").
Proof. vm_compute. split_and!; reflexivity. Qed.
