(* ===== verification/UndoTheory.v ===== *)
(** * The records undo the changes

    The records that insertion, deletion and replacement make, on a text with one
    live buffer: replaying them, newest first, leads from the text after the
    changes to the text before; and [primitive-undo] replays them. *)

From S2P Require Import Prelude Lisp Buffer Scan Undo Insdel Gap Hooks EditSpec Edit.
From S2P Require Import Insertion Deletion Editing Editfns Commands TextCommands CurrentBuffer UndoReplay.

(** ** What the records of a group mean *)

Definition cut (s : list Z) (b e : Z) : list Z := ztake (b - 1) s ++ zdrop (e - 1) s.
Definition put (s : list Z) (p : Z) (str : list Z) : list Z :=
  ztake (p - 1) s ++ str ++ zdrop (p - 1) s.

(** The records lead from text [s], accessible from [begv] to [zv], to [s0] and
    [zv0], always within the accessible part. *)
Inductive replays (begv modtime : Z) (s0 : list Z) (zv0 : Z) : list undo_elt -> list Z -> Z -> Prop :=
| replays_nil : replays begv modtime s0 zv0 [] s0 zv0
| replays_insert b e l s zv :
    begv <= b -> b <= e -> e <= zv -> replays begv modtime s0 zv0 l (cut s b e) (zv - (e - b)) ->
    replays begv modtime s0 zv0 (UInsert b e :: l) s zv
| replays_delete str p l s zv :
    begv <= Z.abs p -> Z.abs p <= zv ->
    replays begv modtime s0 zv0 l (put s (Z.abs p) str) (zv + zlen str) ->
    replays begv modtime s0 zv0 (UDelete str p :: l) s zv
| replays_pos n l s zv :
    replays begv modtime s0 zv0 l s zv -> replays begv modtime s0 zv0 (UPos n :: l) s zv
| replays_time high low l s zv :
    to_int (Z.shiftl high 16 + low) = modtime ->
    replays begv modtime s0 zv0 l s zv -> replays begv modtime s0 zv0 (UTime high low :: l) s zv.

(** The end of a group. *)
Definition group_end (l : list undo_elt) : Prop := l = [] \/ exists l', l = UBoundary :: l'.

Section Texts.
Implicit Types s str : list Z.

Lemma cut_put s p str : 1 <= p -> p - 1 <= zlen s -> cut (put s p str) p (p + zlen str) = s.
Proof.
  intros. unfold cut, put. rewrite take_app_exact by (lens; lia).
  rewrite (assoc_L (++)), drop_app_exact by (lens; lia). apply take_drop.
Qed.

(** A second insertion right after the first. *)
Lemma cut_put_join s b p str :
  1 <= b -> b <= p -> p - 1 <= zlen s -> cut (put s p str) b (p + zlen str) = cut s b p.
Proof.
  intros. unfold cut, put. f_equal.
  - rewrite take_app_le by (lens; lia). rewrite take_take. f_equal. lia.
  - rewrite (assoc_L (++)), drop_app_exact by (lens; lia). done.
Qed.

Lemma put_cut s p n :
  1 <= p -> 0 <= n -> p + n - 1 <= zlen s -> put (cut s p (p + n)) p (slice s (p - 1) n) = s.
Proof.
  intros. unfold cut, put, slice. rewrite take_app_exact, drop_app_exact by (lens; lia).
  replace (zdrop (p + n - 1) s) with (zdrop n (zdrop (p - 1) s)) by (rewrite drop_drop; f_equal; lia).
  by rewrite !take_drop.
Qed.
End Texts.

(** ** Recording on a text with one live buffer *)

Definition alone (a : astate) (v : nat) (b : abuf) : Prop :=
  a_bufs a !! v = Some b /\ a_live b = true /\
  forall i b', a_bufs a !! i = Some b' -> a_live b' = true -> i = v.

Lemma record_bufs_dead push m sm i here bs :
  Forall (fun b => a_live b = false) bs -> record_bufs push m sm i here bs = (bs, here).
Proof.
  revert i. induction bs as [| b bs IH]; intros i Hd; [done |]. apply Forall_cons in Hd as [Hb Hd].
  cbn [record_bufs]. by rewrite Hb, IH.
Qed.

Lemma record_bufs_one push m sm i here bs k b l0 l :
  bs !! k = Some b -> a_live b = true ->
  (forall j b', bs !! j = Some b' -> a_live b' = true -> j = k) ->
  a_undo b = Some l0 -> undo_prelude m sm (a_modtime b) here (Some l0) = Some l ->
  record_bufs push m sm i here bs = (<[k := set_a_undo b (Some (push (i + k)%nat b l))]> bs, true).
Proof.
  revert i k. induction bs as [| b0 bs IH]; intros i k Hk Hl Hone Hu Hp; [done |]. cbn [record_bufs].
  destruct k as [| k].
  - injection Hk as ->. rewrite Hl, Hu, Hp, record_bufs_dead.
    + by rewrite Nat.add_0_r.
    + apply Forall_lookup. intros j b' Hj. destruct (a_live b') eqn:E; [| done].
      specialize (Hone (S j) b' Hj E). lia.
  - destruct (a_live b0) eqn:E0; [by specialize (Hone 0%nat b0 eq_refl E0) |].
    rewrite (IH (S i) k); try done.
    + by rewrite Nat.add_succ_comm.
    + intros j b' Hj E. specialize (Hone (S j) b' Hj E). lia.
Qed.

(** A record made by the live buffer. *)
Lemma spec_record_alone push v a b l0 l :
  alone a v b -> a_undo b = Some l0 ->
  undo_prelude (a_modiff a) (a_save_modiff a) (a_modtime b) (a_last_undo_here a) (Some l0) = Some l ->
  spec_record push a =
  mk_astate (a_str a) (<[v := set_a_undo b (Some (push v b l))]> (a_bufs a)) (a_modiff a)
    (a_save_modiff a) true (a_last_point_position a) (a_last_point_position_buffer a).
Proof.
  intros (Hv & Hl & Hone) Hu Hp. unfold spec_record.
  by erewrite (record_bufs_one push _ _ 0 _ _ v b l0 l).
Qed.

(** ** The records of a group, as the list grows *)

Section Growth.
Variables begv modtime zv0 : Z.
Variable s0 : list Z.
Variable tail : list undo_elt.
Hypothesis tail_end : group_end tail.
Hypothesis modtime_int : - 2 ^ 31 <= modtime < 2 ^ 31.

Lemma time_roundtrip :
  to_int (Z.shiftl (Z.land (Z.shiftr modtime 16) 65535) 16 + Z.land modtime 65535) = modtime.
Proof.
  change 65535 with (Z.ones 16). rewrite !Z.land_ones, Z.shiftl_mul_pow2, Z.shiftr_div_pow2 by lia.
  change (2 ^ 16) with 65536. unfold to_int.
  assert ((modtime / 65536) mod 65536 * 65536 + modtime mod 65536 = modtime mod 2 ^ 32) as ->.
  { change (2 ^ 32) with (65536 * 65536). rewrite Z.rem_mul_r by lia. lia. }
  rewrite Zplus_mod_idemp_l, Z.mod_small by lia. lia.
Qed.

(** The list before a change is recorded. *)
Lemma prelude_replays m sm here recs s zv :
  replays begv modtime s0 zv0 recs s zv -> recs = [] \/ here = true ->
  exists recs', undo_prelude m sm modtime here (Some (recs ++ tail)) = Some (recs' ++ tail) /\
    replays begv modtime s0 zv0 recs' s zv.
Proof.
  intros Hr Hh. unfold undo_prelude.
  assert ((if here then recs ++ tail else undo_boundary (recs ++ tail)) = recs ++ tail) as ->.
  { destruct here; [done |]. destruct Hh as [-> | ?]; [| done].
    by destruct tail_end as [-> | [l' ->]]. }
  destruct (m <=? sm).
  - eexists (_ :: recs). split; [done |]. constructor; [apply time_roundtrip | done].
  - by exists recs.
Qed.

Lemma push_insert_replays recs s zv p str :
  replays begv modtime s0 zv0 recs s zv -> 1 <= begv -> begv <= p -> p <= zv -> p - 1 <= zlen s ->
  exists recs', push_insert (recs ++ tail) p (zlen str) = recs' ++ tail /\ recs' <> [] /\
    replays begv modtime s0 zv0 recs' (put s p str) (zv + zlen str).
Proof.
  intros Hr Hb Hp Hz Hs.
  assert (replays begv modtime s0 zv0 (UInsert p (p + zlen str) :: recs) (put s p str) (zv + zlen str))
    as Hnew.
  { constructor; try lia. rewrite cut_put by lia.
    by replace (zv + zlen str - (p + zlen str - p)) with zv by lia. }
  assert (push_insert (recs ++ tail) p (zlen str) = UInsert p (p + zlen str) :: recs ++ tail \/
    exists b r, recs = UInsert b p :: r /\
      push_insert (recs ++ tail) p (zlen str) = UInsert b (p + zlen str) :: r ++ tail) as [-> | (b & r & -> & ->)].
  { destruct recs as [| [] r]; cbn [push_insert app]; try by left.
    - destruct tail_end as [-> | [l' ->]]; by left.
    - destruct (Z.eqb_spec end_ p) as [-> |]; [right; eauto | by left]. }
  - by exists (UInsert p (p + zlen str) :: recs).
  - exists (UInsert b (p + zlen str) :: r). split_and!; [done | done |].
    inversion_clear Hr as [| ? ? ? ? ? Hb1 Hb2 Hb3 Hr' | | |]. constructor; try lia.
    rewrite cut_put_join by lia. by replace (zv + zlen str - (p + zlen str - b)) with (zv - (p - b)) by lia.
Qed.

Lemma push_delete_replays recs s zv pt p n last :
  replays begv modtime s0 zv0 recs s zv -> 1 <= begv -> begv <= p -> 0 <= n -> p + n <= zv ->
  p + n - 1 <= zlen s ->
  exists recs', push_delete (recs ++ tail) pt p n last (slice s (p - 1) n) = recs' ++ tail /\ recs' <> [] /\
    replays begv modtime s0 zv0 recs' (cut s p (p + n)) (zv - n).
Proof.
  intros Hr Hb Hp Hn Hz Hs. unfold push_delete. cbv zeta.
  set (sbeg := if pt =? p + n then - p else p).
  assert (Z.abs sbeg = p) as Ep by (unfold sbeg; destruct (_ =? _); lia).
  assert (forall recs1, replays begv modtime s0 zv0 recs1 s zv ->
    replays begv modtime s0 zv0 (UDelete (slice s (p - 1) n) sbeg :: recs1) (cut s p (p + n)) (zv - n)) as Hd.
  { intros recs1 H1. constructor; rewrite ?Ep; try lia. rewrite put_cut by lia.
    rewrite length_slice by lia. by replace (zv - n + n) with zv by lia. }
  destruct last as [q |]; [destruct (_ && _) |].
  - exists (UDelete (slice s (p - 1) n) sbeg :: UPos q :: recs). split_and!; [done.. |].
    by apply Hd, replays_pos.
  - exists (UDelete (slice s (p - 1) n) sbeg :: recs). split_and!; [done.. | by apply Hd].
  - exists (UDelete (slice s (p - 1) n) sbeg :: recs). split_and!; [done.. | by apply Hd].
Qed.

(** The state of a buffer whose records [recs], made since the list was [tail],
    lead back to [s0] and [zv0]. *)
Record recorded (v : nat) (recs : list undo_elt) (a : astate) (b : abuf) : Prop := {
  rec_alone : alone a v b;
  rec_begv : a_begv b = begv;
  rec_modtime : a_modtime b = modtime;
  rec_undo : a_undo b = Some (recs ++ tail);
  rec_here : recs = [] \/ a_last_undo_here a = true;
  rec_replays : replays begv modtime s0 zv0 recs (a_str a) (a_zv b);
  rec_bounds : 1 <= begv /\ begv <= a_zv b /\ a_zv b - 1 <= zlen (a_str a);
}.

(** The one buffer after a change. *)
Lemma alone_map F v b bs (a a' : astate) b1 :
  alone a v b -> bs = <[v := b1]> (a_bufs a) -> a_bufs a' = map_live_abufs F bs ->
  a_live b1 = true -> a_live (F v b1) = true -> (forall i b, a_live (F i b) = a_live b) ->
  alone a' v (F v b1).
Proof.
  intros (Hv & Hl & Hone) -> Ha' Hl1 HlF HF. pose proof (lookup_lt_Some _ _ _ Hv) as Hlt.
  assert (forall i, a_bufs a' !! i = (fun b => if a_live b then F i b else b) <$> <[v := b1]> (a_bufs a) !! i) as E.
  { intros i. rewrite Ha'. unfold map_live_abufs. by rewrite list_lookup_imap. }
  split_and!; [| done |].
  - rewrite E, list_lookup_insert_eq by done. cbn. by rewrite Hl1.
  - intros i b' Hb' Hlb'. rewrite E in Hb'. destruct (decide (v = i)) as [<- | Hne]; [done |].
    rewrite list_lookup_insert_ne in Hb' by done.
    destruct (a_bufs a !! i) as [b0 |] eqn:E0; [| done]. cbn in Hb'. injection Hb' as <-.
    destruct (a_live b0) eqn:El; [| by rewrite El in Hlb']. by apply (Hone i b0).
Qed.

Lemma recorded_insert v u recs a b ind str mp bm :
  recorded v recs a b -> begv <= ind -> ind <= a_zv b ->
  exists recs' b', recorded v recs' (spec_insert u ind str mp bm a) b'.
Proof.
  intros [Ha Hbv Hm Hu Hh Hr Hb] Hi Hz.
  destruct (prelude_replays (a_modiff a) (a_save_modiff a) _ _ _ _ Hr Hh) as (recs1 & Ep & Hr1).
  rewrite <- Hm in Ep.
  destruct (push_insert_replays _ _ _ ind str Hr1) as (recs2 & E2 & Hne & Hr2); [lia.. |].
  pose proof (spec_record_alone (fun _ _ l => push_insert l ind (zlen str)) _ _ _ _ _ Ha Hu Ep) as Es.
  set (b1 := set_a_undo b (Some (push_insert (recs1 ++ tail) ind (zlen str)))) in *.
  set (F := fun i => insert_abuf ind (zlen str) bm (mp && bool_decide (i = u))).
  assert (alone (spec_insert u ind str mp bm a) v (F v b1)) as Ha'.
  { eapply (alone_map F v b (<[v := b1]> (a_bufs a)) a); [exact Ha | done | | apply Ha.. | done].
    unfold spec_insert, spec_record_insert. cbv zeta. by rewrite Es. }
  exists recs2, (F v b1). split; try done; unfold spec_insert, spec_record_insert; cbv zeta; rewrite ?Es; cbn.
  - by rewrite E2.
  - by right.
  - exact Hr2.
  - lens. lia.
Qed.

Lemma recorded_delete v recs a b from to :
  recorded v recs a b -> begv <= from -> from <= to -> to <= a_zv b ->
  exists recs' b', recorded v recs' (spec_delete from to a) b'.
Proof.
  intros [Ha Hbv Hm Hu Hh Hr Hb] Hf Hft Hz.
  destruct (prelude_replays (a_modiff a) (a_save_modiff a) _ _ _ _ Hr Hh) as (recs1 & Ep & Hr1).
  rewrite <- Hm in Ep.
  destruct (push_delete_replays _ _ _ (a_pt b) from (to - from) 
    (if bool_decide (a_last_point_position_buffer a = Some v) then Some (a_last_point_position a) else None) Hr1)
    as (recs2 & E2 & Hne & Hr2); [lia.. |].
  pose proof (spec_record_alone (fun i b l => push_delete l (a_pt b) from (to - from)
    (if bool_decide (a_last_point_position_buffer a = Some i) then Some (a_last_point_position a) else None)
    (slice (a_str a) (from - 1) (to - from))) _ _ _ _ _ Ha Hu Ep) as Es.
  cbv beta in Es. rewrite E2 in Es. set (b1 := set_a_undo b (Some (recs2 ++ tail))) in *.
  set (F := fun _ : nat => delete_abuf from to).
  assert (alone (spec_delete from to a) v (F v b1)) as Ha'.
  { eapply (alone_map F v b (<[v := b1]> (a_bufs a)) a); [exact Ha | done | | apply Ha.. | done].
    unfold spec_delete, spec_record_delete. cbv zeta.  by rewrite Es. }
  replace (from + (to - from)) with to in Hr2 by lia.
  exists recs2, (F v b1).
  split; try done; unfold spec_delete, spec_record_delete; cbv zeta;  rewrite ?Es; cbn.
  - by right.
  - exact Hr2.
  - lens. lia.
Qed.

Lemma put_cut_one s p ch :
  1 <= p -> p <= zlen s -> put (cut s p (p + 1)) p [ch] = zset s (p - 1) ch.
Proof.
  intros. unfold put, cut. rewrite take_app_exact, drop_app_exact by (lens; lia).
  unfold zset. rewrite (proj2 (Z.ltb_ge _ _)) by lia.
  rewrite insert_take_drop by lia. do 3 f_equal. lia.
Qed.

Lemma recorded_replace v recs a b pos ch :
  recorded v recs a b -> begv <= pos -> pos < a_zv b ->
  exists recs' b', recorded v recs' (spec_replace pos ch true a) b'.
Proof.
  intros [Ha Hbv Hm Hu Hh Hr Hb] Hp Hz.
  destruct (prelude_replays (a_modiff a) (a_save_modiff a) _ _ _ _ Hr Hh) as (recs1 & Ep & Hr1).
  rewrite <- Hm in Ep.
  destruct (push_delete_replays _ _ _ (a_pt b) pos 1
    (if bool_decide (a_last_point_position_buffer a = Some v) then Some (a_last_point_position a) else None) Hr1)
    as (recs2 & E2 & _ & Hr2); [lia.. |].
  destruct (prelude_replays (a_modiff a) (a_save_modiff a) true _ _ _ Hr2 ltac:(by right))
    as (recs3 & Ep3 & Hr3). rewrite <- Hm in Ep3.
  destruct (push_insert_replays _ _ _ pos [ch] Hr3) as (recs4 & E4 & _ & Hr4); [lia.. | unfold cut; lens; lia |].
  rewrite put_cut_one in Hr4 by lia. change (zlen [ch]) with 1 in *.
  pose proof (spec_record_alone (fun i b l =>
    let l := push_delete l (a_pt b) pos 1
      (if bool_decide (a_last_point_position_buffer a = Some i) then Some (a_last_point_position a) else None)
      (slice (a_str a) (pos - 1) 1) in
    match undo_prelude (a_modiff a) (a_save_modiff a) (a_modtime b) true (Some l) with
    | Some l => push_insert l pos 1 | None => l end) _ _ _ _ _ Ha Hu Ep) as Es.
  cbv beta zeta in Es. rewrite E2, Ep3, E4 in Es. set (b1 := set_a_undo b (Some (recs4 ++ tail))) in *.
  assert (a_bufs (spec_replace pos ch true a) = <[v := b1]> (a_bufs a)) as Eb.
  { unfold spec_replace, spec_record_change. cbv zeta. by rewrite Es. }
  exists recs4, b1. split; try done.
  - destruct Ha as (Hv & Hl & Hone). split_and!; rewrite ?Eb; [| done |].
    + apply list_lookup_insert_eq. by eapply lookup_lt_Some.
    + intros i b' Hb' Hl'. destruct (decide (v = i)) as [<- |]; [done |].
      rewrite list_lookup_insert_ne in Hb' by done. by eapply Hone.
  - right. unfold spec_replace, spec_record_change. cbv zeta. by rewrite Es.
  - unfold spec_replace. cbn [a_str set_a_text]. by replace (a_zv b1) with (a_zv b - 1 + 1) by (cbn; lia).
  - unfold spec_replace. cbn. rewrite zlen_zset. lia.
Qed.
End Growth.
