(* ===== verification/Undoing.v ===== *)
(** * primitive-undo undoes the edits

    [primitive-undo] executes the records of a group as [UndoTheory] reads them, so
    that undoing what a sequence of edits recorded gives back the text. *)

From S2P Require Import Prelude Lisp Buffer Scan Undo Insdel Gap Hooks EditSpec Edit.
From S2P Require Import Insertion Deletion Editing Editfns Commands TextCommands CurrentBuffer UndoReplay.
From S2P Require Import UndoTheory.

(** How many bytes a group puts back. *)
Fixpoint restored (l : list undo_elt) : Z :=
  match l with
  | [] | UBoundary :: _ => 0
  | UDelete str _ :: l => zlen str + restored l
  | _ :: l => restored l
  end.

Lemma restored_nonneg l : 0 <= restored l.
Proof. induction l as [| [] l IH]; cbn; lia. Qed.

(** Room for a text of [n] bytes. *)
Definition holds (n : Z) : Prop := n + (2000 + n / 8) < 2 ^ 31.

Lemma holds_le n n' : holds n -> n' <= n -> holds n'.
Proof. unfold holds. intros ? ?. pose proof (Z.div_le_mono n' n 8). lia. Qed.

(** The one live buffer after an edit, up to its undo list. *)
Lemma alone_strip F a a' v b :
  alone a v b -> map strip (a_bufs a') = map_live_abufs F (map strip (a_bufs a)) ->
  (forall i b, a_live (F i b) = a_live b) ->
  exists b', alone a' v b' /\ strip b' = F v (strip b).
Proof.
  intros (Hv & Hl & Hone) E HF.
  assert (forall i, strip <$> a_bufs a' !! i =
    (fun b => if a_live b then F i b else b) <$> (strip <$> a_bufs a !! i)) as Ei.
  { intros i. apply (f_equal (.!! i)) in E. unfold map_live_abufs in E. rewrite list_lookup_imap in E.
    change (@map) with (@fmap list _) in E. by rewrite !list_lookup_fmap in E. }
  pose proof (Ei v) as Ev. rewrite Hv in Ev. cbn in Ev. rewrite Hl in Ev.
  destruct (a_bufs a' !! v) as [b' |] eqn:Eb'; [| done]. cbn in Ev. injection Ev as Ev.
  assert (forall c, a_live (strip c) = a_live c) as Hs by done.
  exists b'. split; [| exact Ev]. split_and!; [done | |].
  - by rewrite <- Hs, Ev, HF, Hs.
  - intros i c Hc Hlc. specialize (Ei i). rewrite Hc in Ei. cbn in Ei.
    destruct (a_bufs a !! i) as [c0 |] eqn:E0; [| done]. cbn in Ei. injection Ei as Ei.
    apply (Hone i c0); [done |]. destruct (a_live c0) eqn:Ec; [done |].
    by rewrite <- Hs, Ei, Hs, Ec in Hlc.
Qed.

Lemma alone_delete from to a v b :
  alone a v b -> exists b', alone (spec_delete from to a) v b' /\ strip b' = delete_abuf from to (strip b).
Proof.
  intros Ha. eapply (alone_strip (fun _ => delete_abuf from to)); [exact Ha | | done].
  unfold spec_delete, spec_record_delete. cbn [a_bufs set_a_text].
  rewrite strip_map_live by done. by rewrite strip_record.
Qed.

Lemma alone_insert u ind str mp bm a v b :
  alone a v b ->
  exists b', alone (spec_insert u ind str mp bm a) v b' /\
    strip b' = insert_abuf ind (zlen str) bm (mp && bool_decide (v = u)) (strip b).
Proof.
  intros Ha.
  refine (alone_strip (fun i => insert_abuf ind (zlen str) bm (mp && bool_decide (i = u))) _ _ _ _ Ha _ _);
    [| done].
  unfold spec_insert, spec_record_insert. cbn [a_bufs set_a_text].
  rewrite strip_map_live by done. by rewrite strip_record.
Qed.

Section Execution.
Context {X : Type} `{Collaborators X}.
Variable realloc : Z -> option (list Z).
Variable set_extent_endpoints : positive -> Z -> Z -> nat -> M X unit.
Variable detach_extent : positive -> M X unit.
Variable foreign : positive -> option Z.
Hypothesis silent : hooks_ok (X := X) eq.
Hypothesis hooks_keep : forall h, Keeps (X := X) (call_hook h).

(** The world during the replay. *)
Variable v : nat.
Variables begv modtime : Z.

Record viewing (s : list Z) (zv : Z) (w : world X) : Prop := {
  vw_wf : world_wf w;
  vw_current : g_current (w_glob w) = v;
  vw_buf : exists b, w_bufs w !! v = Some b /\ alone (abs_world w) v (abs_buf (w_text w) b) /\
    b_begv b = begv /\ b_zv b = zv /\ b_modtime b = modtime;
  vw_str : text_str (w_text w) = s;
}.

Lemma wp_keeps {A} (m : M X A) Q E (w : world X) :
  Keeps m -> wp m Q E w ->
  wp m (fun a w' => Q a w' /\ g_current (w_glob w') = g_current (w_glob w)) E w.
Proof.
  intros Hk Hm. pose proof (Hk w) as Ec. unfold wp in *.
  destruct (m w) as [[a | e |] w']; [by split | done | done].
Qed.

Lemma alone_buf a (w : world X) b' :
  becomes a w -> alone a v b' -> exists b, w_bufs w !! v = Some b /\ b' = abs_buf (w_text w) b.
Proof.
  intros [<- _] (Hv & _ & _). unfold abs_world in Hv. cbn [a_bufs] in Hv.
  change (@map) with (@fmap list _) in Hv. rewrite list_lookup_fmap in Hv.
  destruct (w_bufs w !! v) as [b |]; [| done]. injection Hv as <-. eauto.
Qed.

(** What an edit leaves. *)
Lemma becomes_viewing a (w : world X) b' s zv :
  becomes a w -> g_current (w_glob w) = v -> alone a v b' -> a_begv b' = begv -> a_zv b' = zv ->
  a_modtime b' = modtime -> a_str a = s -> viewing s zv w.
Proof.
  intros Hw Hc Ha Hb Hz Hm Hs. destruct (alone_buf _ _ _ Hw Ha) as (b & Eb & ->).
  destruct Hw as [<- Hwf]. split; try done. by exists b.
Qed.

(** The text, the end of the accessible part and point. *)
Definition at_point (s : list Z) (zv pt : Z) (w : world X) : Prop :=
  viewing s zv w /\ exists b, w_bufs w !! v = Some b /\ b_pt b = pt.

Lemma becomes_at_point a (w w0 : world X) b' s zv pt :
  becomes a w -> g_current (w_glob w) = g_current (w_glob w0) -> g_current (w_glob w0) = v ->
  alone a v b' -> a_begv b' = begv -> a_zv b' = zv ->
  a_modtime b' = modtime -> a_pt b' = pt -> a_str a = s -> at_point s zv pt w.
Proof.
  intros Hw Hc Hc0 Ha Hb Hz Hm Hp Hs. split; [eapply becomes_viewing; try done; congruence |].
  destruct (alone_buf _ _ _ Hw Ha) as (b & Eb & ->). by exists b.
Qed.

Lemma viewing_bounds s zv (w : world X) :
  viewing s zv w -> 1 <= begv /\ begv <= zv /\ zv - 1 <= zlen s /\ zlen s = t_z (w_text w) - 1.
Proof.
  intros [Hwf _ (b & Hb & (_ & Hl & _) & <- & <- & _) <-].
  pose proof (Forall_lookup_1 _ _ _ _ (wf_bufs _ Hwf) Hb) as Hwb. unfold live_wf in Hwb.
  cbn in Hl. rewrite Hl in Hwb. destruct Hwb. rewrite length_text_str by apply Hwf. lia.
Qed.

Lemma viewing_whole s zv (w : world X) p q :
  viewing s zv w -> begv <= p -> q <= zv -> whole (abs_world w) p q.
Proof.
  intros [_ _ (b & Hb & (Hv & _ & Hone) & <- & <- & _) _] Hp Hq i a Ha Hla.
  rewrite (Hone i a Ha Hla), Hv in Ha. injection Ha as <-. cbn. lia.
Qed.

(** Moving point. *)
Lemma wp_goto s zv pos (w : world X) :
  viewing s zv w -> begv <= pos <= zv ->
  wp (set_buffer_point v pos)
    (fun _ w' => viewing s zv w' /\ exists b, w_bufs w' !! v = Some b /\ b_pt b = pos)
    (fun _ => world_wf) w.
Proof.
  intros Hw Hp. pose proof (viewing_bounds _ _ _ Hw) as Hbd.
  destruct Hw as [Hwf Hc (b & Hb & (Hv & Hl & Hone) & Eb & Ez & Em) Hs].
  pose proof (Forall_lookup_1 _ _ _ _ (wf_bufs _ Hwf) Hb) as Hwb. unfold live_wf in Hwb.
  change (b_live b = true) in Hl. rewrite Hl in Hwb. destruct Hwb as [Hb1 Hb2 Hb3 Hb4].
  destruct (set_buffer_point_run v pos b w Hb) as (g & E & pc & Eg). unfold wp. rewrite E.
  destruct (point_at_wf (w_text w) b pos) as (Hw1 & Hp1 & Hl1 & Hv1 & Hz1); [apply Hwf | lia.. | done |].
  set (w' := mk_world _ _ _ _).
  assert (w_bufs w' !! v = Some (point_at (w_text w) pos b)) as Hb'.
  { cbn. by rewrite list_lookup_alter, decide_True, Hb by done. }
  assert (viewing s zv w').
  { split; try done.
    - destruct Hwf as [Ht Hbs Hq]. constructor; [done | | cbn; by rewrite Eg]. cbn.
      apply Forall_alter; [done |]. intros b0 Hb0 _. rewrite Hb in Hb0. injection Hb0 as <-.
      unfold live_wf. by rewrite Hl1, Hl.
    - cbn. by rewrite Eg.
    - exists (point_at (w_text w) pos b). split_and!; try done; try congruence.
      + split_and!; [by apply (abs_lookup w') | by cbn; rewrite Hl1 |].
        intros i a Ha Hla. destruct (decide (v = i)) as [<- | Hne]; [done |].
        apply (Hone i a); [| done]. unfold abs_world in *. cbn in *. change (@map) with (@fmap list _) in *.
        rewrite list_lookup_fmap in *. by rewrite list_lookup_alter_ne in Ha.
      + unfold point_at. by case_match. }
  split; [done |]. by exists (point_at (w_text w) pos b).
Qed.

(** Deleting what is there, inserting at point. *)
Lemma wp_cut_point s zv pt b e (w : world X) :
  at_point s zv pt w -> begv <= b -> b <= e -> e <= zv ->
  wp (buffer_delete_range v b e 0)
    (fun _ => at_point (cut s b e) (zv - (e - b)) (pos_after_delete b e pt)) (fun _ => world_wf) w.
Proof.
  intros [Hw (bf & Hbf & Hpt)] Hb Hbe He. pose proof (viewing_bounds _ _ _ Hw) as Hbd.
  pose proof (viewing_whole _ _ _ b e Hw Hb He) as Hwhole.
  destruct Hw as [Hwf Hc (bf' & Hbf' & Ha & Eb & Ez & Em) Hs].
  rewrite Hbf in Hbf'. injection Hbf' as <-. assert (b_live bf = true) as Hl by apply Ha.
  destruct (decide (b = e)) as [-> | Hne].
  - unfold buffer_delete_range. apply wp_bind. eapply wp_get_buf; [done |]. rewrite Hl. cbn [negb].
    unfold clip_range. zdec. apply wp_ret. unfold cut. rewrite take_drop, Z.sub_diag, Z.sub_0_r.
    assert (pos_after_delete e e pt = pt) as -> by (unfold pos_after_delete; zdec; lia).
    split; [split; try done; by exists bf | by exists bf].
  - eapply wp_mono; [apply wp_keeps; [by apply delete_keeps |];
      eapply (wp_delete silent v b e 0 (abs_world w)); [by split | by exists (abs_buf (w_text w) bf); split; apply Ha | lia | done] | | done].
    intros ? w' [Hw' Hc']. destruct (alone_delete b e _ _ _ Ha) as (b' & Ha' & Es).
    eapply (becomes_at_point _ _ w b'); [exact Hw' | done | done | exact Ha' | ..].
    + apply (f_equal a_begv) in Es. cbn in Es. congruence.
    + apply (f_equal a_zv) in Es. cbn in Es. lia.
    + apply (f_equal a_modtime) in Es. cbn in Es. congruence.
    + apply (f_equal a_pt) in Es. cbn -[pos_after_delete] in Es. by rewrite Hpt in Es.
    + rewrite a_str_delete. cbn [a_str abs_world]. by rewrite Hs.
Qed.

Lemma wp_cut s zv b e (w : world X) :
  viewing s zv w -> begv <= b -> b <= e -> e <= zv ->
  wp (buffer_delete_range v b e 0) (fun _ => viewing (cut s b e) (zv - (e - b))) (fun _ => world_wf) w.
Proof.
  intros Hw Hb Hbe He. pose proof Hw as [_ _ (bf & Hbf & _) _].
  eapply wp_mono; [eapply (wp_cut_point s zv (b_pt bf) b e); [split; [done | by exists bf] | done..] | | done].
  by intros ? w' [? _].
Qed.

Lemma wp_put s zv p str (w : world X) :
  viewing s zv w -> (exists b, w_bufs w !! v = Some b /\ b_pt b = p) ->
  holds (zlen s + zlen str) ->
  wp (buffer_insert_lisp_string_1 realloc v (-1) str 0)
    (fun _ => viewing (put s p str) (zv + zlen str)) (fun _ => world_wf) w.
Proof.
  intros Hw (bf & Hbf & Hp) Hroom. pose proof (viewing_bounds _ _ _ Hw) as Hbd.
  destruct Hw as [Hwf Hc (bf' & Hbf' & Ha & Eb & Ez & Em) Hs].
  rewrite Hbf in Hbf'. injection Hbf' as <-. assert (b_live bf = true) as Hl by apply Ha.
  pose proof (Forall_lookup_1 _ _ _ _ (wf_bufs _ Hwf) Hbf) as Hwb. unfold live_wf in Hwb.
  rewrite Hl in Hwb. destruct Hwb as [Hb1 Hb2 Hb3 Hb4].
  eapply wp_mono; [apply wp_keeps; [by apply insert_keeps |];
    eapply (insert_silent realloc silent v bf (-1) str 0 w); try done | | done].
  { intros a <-. change (a_str (abs_world w)) with (text_str (w_text w)). rewrite Hs.
    unfold holds in Hroom. pose proof (Z.div_le_mono (zlen s) (zlen s + zlen str) 8). lia. }
  intros ? w' [Hw' Hc']. change (-1 =? -1) with true in Hw'. cbv iota in Hw'.
  assert (a_clip (abs_buf (w_text w) bf) (b_pt bf) = p) as Ec by (unfold a_clip; cbn; zdec; lia).
  rewrite Ec in Hw'. destruct (alone_insert v p str true (bm_flag 0) _ _ _ Ha) as (b' & Ha' & Es).
  eapply (becomes_viewing _ _ b'); [exact Hw' | congruence | exact Ha' | | | |].
  + apply (f_equal a_begv) in Es. cbn in Es. congruence.
  + apply (f_equal a_zv) in Es. cbn in Es. lia.
  + apply (f_equal a_modtime) in Es. cbn in Es. congruence.
  + rewrite a_str_insert. cbn [a_str abs_world]. by rewrite Hs.
Qed.

Abbreviation run_record := (undo_record realloc set_extent_endpoints detach_extent foreign).
Abbreviation run_group := (undo_group realloc set_extent_endpoints detach_extent foreign).

Variable s0 : list Z.
Variable zv0 : Z.

(** A record was executed, and the group goes on with [l]. *)
Definition executed (l : list undo_elt) (n : Z) (r : bool) (w : world X) : Prop :=
  r = true /\ exists s zv, viewing s zv w /\ replays begv modtime s0 zv0 l s zv /\ zlen s + restored l <= n.

Lemma viewing_get s zv (w : world X) :
  viewing s zv w -> exists b, w_bufs w !! v = Some b /\ b_live b = true /\ b_begv b = begv /\
    b_zv b = zv /\ b_modtime b = modtime.
Proof. intros [_ _ (b & Hb & (_ & Hl & _) & E1 & E2 & E3) _]. by exists b. Qed.

Lemma wp_undo_insert l s zv b e (w : world X) :
  viewing s zv w -> begv <= b -> b <= e -> e <= zv ->
  replays begv modtime s0 zv0 l (cut s b e) (zv - (e - b)) ->
  wp (run_record (UInsert b e)) (executed l (zlen s + restored l)) (fun _ => world_wf) w.
Proof.
  intros Hw Hb Hbe He Hr. pose proof (viewing_bounds _ _ _ Hw) as Hbd.
  destruct (viewing_get _ _ _ Hw) as (bf & Hbf & Hl & Eb & Ez & Em).
  pose proof Hw as [Hwf Hc _ _]. unfold undo_record.
  apply wp_bind, wp_get. rewrite Hc. apply wp_bind. eapply wp_get_buf; [done |]. rewrite Eb, Ez.
  assert ((b <? begv) || (e >? zv) = false) as -> by (zdec; done). apply wp_bind, wp_ret.
  apply wp_bind. unfold Fgoto_char. apply wp_bind.
  pose proof (pos_char_run foreign v bf (LInt b) b GB_COERCE_RANGE w Hbf (position_of_int foreign w b)) as Ep.
  unfold allowed in Ep. change (flag GB_COERCE_RANGE GB_ALLOW_PAST_ACCESSIBLE) with false in Ep.
  rewrite Eb, Ez in Ep. assert ((b <? begv) || (b >? zv) = false) as E0 by (zdec; done). rewrite E0 in Ep.
  unfold wp at 1. rewrite Ep. apply wp_bind.
  eapply wp_mono; [eapply (wp_goto s zv b); [done | lia] | | done].
  intros ? w1 [Hw1 _]. apply wp_ret. unfold Fdelete_region. apply wp_bind, wp_bind.
  destruct (viewing_get _ _ _ Hw1) as (b1 & Hb1 & Hl1 & Eb1 & Ez1 & Em1).
  pose proof (range_arguments foreign v b1 (LInt b) (LInt e) b e 0 w1 (vw_wf _ _ _ Hw1) Hb1 Hl1
    (position_of_int foreign w1 b) (position_of_int foreign w1 e) eq_refl eq_refl) as R.
  unfold allowed in R. change (flag 0 GB_ALLOW_PAST_ACCESSIBLE) with false in R. cbv beta iota in R.
  rewrite Eb1, Ez1 in R. destruct R as [_ R]. rewrite !(proj2 (Z.leb_le _ _)) in R by lia. cbn [andb] in R.
  unfold wp at 1. rewrite R. eapply wp_mono; [by eapply (wp_cut s zv b e) | | done].
  intros ? w2 Hw2. apply wp_ret. split; [done |]. exists (cut s b e), (zv - (e - b)). split_and!; [done.. |].
  unfold cut. lens. lia.
Qed.

Lemma wp_undo_delete l s zv str p (w : world X) :
  viewing s zv w -> begv <= Z.abs p -> Z.abs p <= zv ->
  replays begv modtime s0 zv0 l (put s (Z.abs p) str) (zv + zlen str) ->
  holds (zlen s + restored (UDelete str p :: l)) ->
  wp (run_record (UDelete str p)) (executed l (zlen s + restored (UDelete str p :: l)))
    (fun _ => world_wf) w.
Proof.
  intros Hw Hb Hz Hr Hroom. pose proof (viewing_bounds _ _ _ Hw) as Hbd. cbn [restored] in *.
  pose proof (restored_nonneg l) as Hn.
  assert (holds (zlen s + zlen str)) as Hroom1 by (eapply holds_le; [exact Hroom | lia]).
  assert (to_int p = p) as Ep.
  { apply to_int_id. unfold holds in Hroom1. assert (0 <= (zlen s + zlen str) / 8) by (apply Z.div_pos; lia). lia. }
  destruct (viewing_get _ _ _ Hw) as (bf & Hbf & Hl & Eb & Ez & Em). pose proof Hw as [Hwf Hc _ _].
  assert (forall w', viewing (put s (Z.abs p) str) (zv + zlen str) w' ->
    executed l (zlen s + (zlen str + restored l)) true w') as Hdone.
  { intros w' Hw'. split; [done |]. exists (put s (Z.abs p) str), (zv + zlen str). split_and!; [done.. |].
    unfold put. lens. lia. }
  unfold undo_record. apply wp_bind, wp_get. rewrite Hc. apply wp_bind. eapply wp_get_buf; [done |].
  rewrite Eb, Ez, Ep. cbv zeta. destruct (Z.ltb_spec p 0).
  - replace (- p) with (Z.abs p) by lia.
    assert ((Z.abs p <? begv) || (Z.abs p >? zv) = false) as -> by (zdec; done). apply wp_bind, wp_ret.
    apply wp_bind. eapply wp_mono; [eapply (wp_goto s zv (Z.abs p)); [done | lia] | | done].
    intros ? w1 [Hw1 Hp1]. apply wp_bind, wp_get. rewrite (vw_current _ _ _ Hw1). apply wp_bind.
    eapply wp_mono; [by eapply (wp_put s zv (Z.abs p) str) | | done].
    intros ? w2 Hw2. apply wp_ret. by apply Hdone.
  - replace p with (Z.abs p) by lia.
    assert ((Z.abs p <? begv) || (Z.abs p >? zv) = false) as -> by (zdec; done). apply wp_bind, wp_ret.
    apply wp_bind. eapply wp_mono; [eapply (wp_goto s zv (Z.abs p)); [done | lia] | | done].
    intros ? w1 [Hw1 Hp1]. apply wp_bind, wp_get. rewrite (vw_current _ _ _ Hw1). apply wp_bind.
    eapply wp_mono; [by eapply (wp_put s zv (Z.abs p) str) | | done].
    intros ? w2 Hw2. apply wp_bind, wp_get. rewrite (vw_current _ _ _ Hw2). apply wp_bind.
    eapply wp_mono; [eapply (wp_goto _ _ (Z.abs p)); [exact Hw2 | lia] | | done].
    intros ? w3 [Hw3 _]. apply wp_ret. by apply Hdone.
Qed.

Lemma wp_undo_pos l s zv n (w : world X) :
  viewing s zv w -> replays begv modtime s0 zv0 l s zv ->
  wp (run_record (UPos n)) (executed l (zlen s + restored l)) (fun _ => world_wf) w.
Proof.
  intros Hw Hr. pose proof (viewing_bounds _ _ _ Hw) as Hbd.
  destruct (viewing_get _ _ _ Hw) as (bf & Hbf & Hl & Eb & Ez & Em). unfold undo_record.
  apply wp_bind, wp_get. rewrite (vw_current _ _ _ Hw). apply wp_bind. eapply wp_get_buf; [done |].
  apply wp_bind. eapply wp_mono; [apply (wp_goto s zv); [done |] | | done].
  { unfold bufpos_clip_to_bounds. rewrite Eb, Ez. zdec; lia. }
  intros ? w1 [Hw1 _]. apply wp_ret. split; [done |]. exists s, zv. split_and!; [done.. |]. lia.
Qed.

Lemma wp_undo_time l s zv high low (w : world X) :
  viewing s zv w -> to_int (Z.shiftl high 16 + low) = modtime -> replays begv modtime s0 zv0 l s zv ->
  wp (run_record (UTime high low)) (executed l (zlen s + restored l)) (fun _ => world_wf) w.
Proof.
  intros Hw Ht Hr. destruct (viewing_get _ _ _ Hw) as (bf & Hbf & Hl & Eb & Ez & Em).
  pose proof Hw as [Hwf Hc _ _]. unfold undo_record.
  apply wp_bind, wp_get. rewrite Hc. apply wp_bind. eapply wp_get_buf; [done |].
  rewrite Ht, Em, Z.eqb_refl. cbn [negb]. apply wp_bind, wp_get, wp_bind.
  assert (forall a w', becomes a w' -> g_current (w_glob w') = v -> a_str a = a_str (abs_world w) ->
    a_bufs a = a_bufs (abs_world w) -> viewing s zv w') as Hview.
  { intros a w' Hw' Hc' Es Eb'.
    destruct Hw as [_ _ (b & Hb & Ha & E1 & E2 & E3) Hs].
    eapply (becomes_viewing _ _ (abs_buf (w_text w) b)); [exact Hw' | done | | done.. | by rewrite Es].
    unfold alone in *. by rewrite Eb'. }
  eapply wp_mono with (Q := fun _ w' => becomes (abs_world w) w' /\ g_current (w_glob w') = g_current (w_glob w))
    (E := fun _ => world_wf).
  { destruct (_ <? _); [| by apply wp_ret]. apply wp_keeps; [apply hooks_keep |].
    eapply wp_mono; [apply (wp_hook eq silent _ w w); by split | |]; by intros ? w1 [? ?]. }
  2: done.
  intros ? w1 [Hw1 Hc1]. apply wp_bind, wp_get, wp_bind. rewrite Hc1, Hc.
  eapply wp_mono; [apply wp_keeps; [by apply set_modified_keeps | by apply wp_set_modified] | |].
  2: { intros e w2 [_ ?]. done. }
  intros ? w2 [Hw2 Hc2]. apply wp_ret. split; [done |]. exists s, zv.
  split_and!; [| done | lia]. eapply Hview; [exact Hw2 | congruence | done | done].
Qed.

(** A whole group. *)
Lemma wp_undo_group tail recs s zv n (w : world X) :
  group_end tail -> viewing s zv w -> replays begv modtime s0 zv0 recs s zv ->
  zlen s + restored recs <= n -> holds n ->
  wp (run_group (recs ++ tail))
    (fun rest w' => rest = List.tl tail /\ viewing s0 zv0 w') (fun _ => world_wf) w.
Proof.
  intros Ht. revert s zv w. induction recs as [| e l IH]; intros s zv w Hw Hr Hle Hn.
  { inversion Hr; subst. by destruct Ht as [-> | [l ->]]. }
  assert (wp (bind (run_record e) (fun go_on => if go_on then run_group (l ++ tail) else ret (l ++ tail)))
    (fun rest w' => rest = List.tl tail /\ viewing s0 zv0 w') (fun _ => world_wf) w) as Hstep.
  { apply wp_bind.
    eapply wp_mono with (Q := executed l (zlen s + restored (e :: l))) (E := fun _ => world_wf); [| | done].
    - inversion Hr; subst; cbn [restored].
      + by eapply wp_undo_insert.
      + eapply wp_undo_delete; try done. by eapply holds_le.
      + by eapply wp_undo_pos.
      + by eapply wp_undo_time.
    - intros r w1 (-> & s1 & zv1 & Hw1 & Hr1 & Hle1). apply (IH s1 zv1 w1); (done || lia). }
  destruct e; try exact Hstep. inversion Hr.
Qed.

Lemma restored_app tail recs s zv :
  group_end tail -> replays begv modtime s0 zv0 recs s zv -> restored (recs ++ tail) = restored recs.
Proof.
  intros Ht Hr. revert s zv Hr. induction recs as [| e l IH]; intros s zv Hr.
  { by destruct Ht as [-> | [l ->]]. }
  inversion Hr; subst; cbn; by erewrite IH.
Qed.

(** ** The command *)

Variable shared : nat -> bool.
Abbreviation primitive_undo :=
  (Fprimitive_undo realloc set_extent_endpoints detach_extent foreign shared).

(** Only inhibit-read-only and [inside_undo] change. *)
Lemma viewing_bind s zv u i (w : world X) :
  viewing s zv w -> viewing s zv (bind_inhibit_read_only shared u i w).
Proof.
  intros [Hwf Hc (b & Hb & Ha & Eb & Ez & Em) Hs].
  set (F := fun j b => if bool_decide (j = u) || (shared u && shared j) then set_inhibit_read_only b i else b).
  assert (abs_world (bind_inhibit_read_only shared u i w) = abs_world w) as Ew.
  { unfold abs_world. cbn. f_equal. apply list_eq. intros j. change (@map) with (@fmap list _).
    rewrite !list_lookup_fmap, list_lookup_imap. destruct (w_bufs w !! j); [| done]. cbn. by case_match. }
  split; [| done | | done].
  - destruct Hwf as [Ht Hbs Hq]. constructor; [done | | done]. cbn. apply Forall_lookup. intros j b' Hj.
    rewrite list_lookup_imap in Hj. destruct (w_bufs w !! j) as [b0 |] eqn:E0; [| done]. injection Hj as <-.
    pose proof (Forall_lookup_1 _ _ _ _ Hbs E0) as Hb0. case_match; [| done].
    unfold live_wf in *. cbn. destruct (b_live b0); [by destruct Hb0 | done].
  - exists (F v b). unfold F. cbn. rewrite list_lookup_imap, Hb. rewrite Ew.
    split_and!; [done | by case_match | by case_match..].
Qed.

Lemma viewing_inside s zv x (w : world X) :
  viewing s zv w -> viewing s zv (upd_glob (fun g => set_inside_undo g x) w).
Proof. intros [[Ht Hbs Hq] Hc Hb Hs]. by split. Qed.

Lemma wf_bind u i (w : world X) : world_wf w -> world_wf (bind_inhibit_read_only shared u i w).
Proof.
  intros [Ht Hbs Hq]. constructor; [done | | done]. cbn. apply Forall_lookup. intros j b' Hj.
  rewrite list_lookup_imap in Hj. destruct (w_bufs w !! j) as [b0 |] eqn:E0; [| done]. injection Hj as <-.
  pose proof (Forall_lookup_1 _ _ _ _ Hbs E0) as Hb0. case_match; [| done].
  unfold live_wf in *. cbn. destruct (b_live b0); [by destruct Hb0 | done].
Qed.

Lemma wp_primitive_undo tail recs s zv (w : world X) :
  group_end tail -> viewing s zv w -> replays begv modtime s0 zv0 recs s zv ->
  holds (zlen s + restored recs) ->
  wp (primitive_undo (LInt 1) (recs ++ tail))
    (fun rest w' => rest = List.tl tail /\ viewing s0 zv0 w') (fun _ => world_wf) w.
Proof.
  intros Ht Hw Hr Hn. unfold Fprimitive_undo. apply wp_bind, wp_get, wp_unwind, wp_bind, wp_upd.
  apply (viewing_inside _ _ true) in Hw. set (w1 := upd_glob _ w) in *.
  assert (forall w', viewing s zv w' ->
    wp (undo_groups realloc set_extent_endpoints detach_extent foreign (Z.to_nat (to_int 1)) (recs ++ tail))
      (fun rest w' => rest = List.tl tail /\ viewing s0 zv0 w') (fun _ => world_wf) w') as Hgroups.
  { intros w' Hw'. change (Z.to_nat (to_int 1)) with 1%nat. cbn [undo_groups]. apply wp_bind.
    eapply wp_mono; [by eapply wp_undo_group | | done]. intros rest w2 Hw2. by apply wp_ret. }
  cbv zeta. apply wp_bind, wp_get. rewrite (vw_current _ _ _ Hw). apply wp_bind.
  destruct (viewing_get _ _ _ Hw) as (bf & Hbf & _). eapply wp_get_buf; [done |].
  destruct (b_read_only bf).
  - eapply wp_mono; [by apply Hgroups | |]; cbn.
    + intros rest w2 [-> Hw2]. split; [done |]. by apply viewing_inside.
    + intros e w2 [? ? ?]. by constructor.
  - apply wp_unwind, wp_bind, wp_upd. eapply wp_mono; [by apply Hgroups, viewing_bind | |]; cbn.
    + intros rest w2 [-> Hw2]. split; [done |]. by apply viewing_inside, viewing_bind.
    + intros e w2 Hw2. apply (wf_bind v (b_inhibit_read_only bf)) in Hw2. destruct Hw2. by constructor.
Qed.
End Execution.

(** ** Edits and their undoing *)

Section Roundtrip.
Context {X : Type} `{Collaborators X}.
Variable realloc : Z -> option (list Z).
Hypothesis silent : hooks_ok (X := X) eq.
Hypothesis hooks_keep : forall h, Keeps (X := X) (call_hook h).
Variable v : nat.

(** Edits of buffer [v] that succeed, within its accessible part. *)
Inductive edits : world X -> world X -> Prop :=
| edits_done w : edits w w
| edits_insert w pos str flags r w1 w2 :
    room eq (abs_world w) (zlen str) ->
    buffer_insert_lisp_string_1 realloc v pos str flags w = (Done r, w1) ->
    edits w1 w2 -> edits w w2
| edits_delete w b from to flags w1 w2 :
    w_bufs w !! v = Some b -> b_begv b <= from -> from < to -> to <= b_zv b ->
    buffer_delete_range v from to flags w = (Done tt, w1) ->
    edits w1 w2 -> edits w w2
| edits_replace w b pos ch force w1 w2 :
    w_bufs w !! v = Some b -> b_begv b <= pos < b_zv b ->
    buffer_replace_char v pos ch false force w = (Done tt, w1) ->
    edits w1 w2 -> edits w w2.

Lemma wp_Done {A} (m : M X A) Q E (w w' : world X) a : wp m Q E w -> m w = (Done a, w') -> Q a w'.
Proof. unfold wp. intros Hm E'. by rewrite E' in Hm. Qed.

Variables begv modtime zv0 : Z.
Variable s0 : list Z.
Variable tail : list undo_elt.
Hypothesis tail_end : group_end tail.
Hypothesis modtime_int : - 2 ^ 31 <= modtime < 2 ^ 31.

(** A world whose newest records lead back to the beginning. *)
Definition tracked (w : world X) : Prop :=
  world_wf w /\ exists recs b, recorded begv modtime zv0 s0 tail v recs (abs_world w) b.

Lemma tracked_buf (w : world X) :
  tracked w -> exists recs b, w_bufs w !! v = Some b /\ b_live b = true /\
    buffer_wf (w_text w) b /\
    recorded begv modtime zv0 s0 tail v recs (abs_world w) (abs_buf (w_text w) b).
Proof.
  intros [Hwf (recs & b' & Hr)].
  destruct (alone_buf v (abs_world w) w b') as (b & Hb & ->); [done | apply Hr |].
  exists recs, b. pose proof (Forall_lookup_1 _ _ _ _ (wf_bufs _ Hwf) Hb) as Hwb. unfold live_wf in Hwb.
  pose proof (rec_alone _ _ _ _ _ _ _ _ _ Hr) as (_ & Hl & _). cbn in Hl. rewrite Hl in Hwb. done.
Qed.

Lemma edits_tracked (w w' : world X) :
  edits w w' -> tracked w -> tracked w' /\ g_current (w_glob w') = g_current (w_glob w).
Proof.
  induction 1 as [w | w pos str flags r w1 w2 Hroom E _ IH | w b from to flags w1 w2 Hb Hf Hft Ht E _ IH
    | w b pos ch force w1 w2 Hb Hp E _ IH]; intros Hw; [done | | |];
    destruct (tracked_buf _ Hw) as (recs & bf & Hbf & Hl & [Hw1 Hw2 Hw3 _] & Hr); pose proof Hw as [Hwf _];
    pose proof (rec_begv _ _ _ _ _ _ _ _ _ Hr) as Ebv; cbn in Ebv.
  - pose proof (wp_Done _ _ _ _ _ _ (wp_keeps _ _ _ _ (insert_keeps hooks_keep realloc v pos str flags)
      (insert_silent realloc silent v bf pos str flags w Hwf Hbf Hl Hroom)) E) as [[Ea Hwf1] Hc].
    rewrite <- Hc. apply IH. split; [done |]. rewrite Ea.
    eapply recorded_insert; [done | done | exact Hr | |]; unfold a_clip; cbn; zdec; lia.
  - rewrite Hbf in Hb. injection Hb as <-.
    pose proof (wp_Done _ _ _ _ _ _ (wp_keeps _ _ _ _ (delete_keeps hooks_keep v from to flags)
      (wp_delete silent v from to flags (abs_world w) w ltac:(by split)
         ltac:(by exists (abs_buf (w_text w) bf); split; apply Hr) Hft
         ltac:(intros i a Ha Hla; pose proof (rec_alone _ _ _ _ _ _ _ _ _ Hr) as (Hv & _ & Hone);
               rewrite (Hone i a Ha Hla), Hv in Ha; injection Ha as <-; cbn; lia))) E) as [[Ea Hwf1] Hc].
    rewrite <- Hc. apply IH. split; [done |]. rewrite Ea.
    eapply recorded_delete; [done | done | exact Hr | | |]; cbn; lia.
  - rewrite Hbf in Hb. injection Hb as <-.
    pose proof (wp_Done _ _ _ _ _ _ (wp_keeps _ _ _ _ (replace_keeps hooks_keep v pos ch false force)
      (replace_silent silent v bf pos ch false force w Hwf Hbf Hl Hp)) E) as [[Ea Hwf1] Hc].
    rewrite <- Hc. apply IH. split; [done |]. rewrite Ea.
    eapply recorded_replace; [done | done | exact Hr | |]; cbn; lia.
Qed.

End Roundtrip.

(** C10: Undoing gives back the text.  After any insertions, deletions and
    replacements in a buffer, made since a boundary, primitive-undo of one group of
    its undo list leaves the text and the accessible part as they were before
    them, and returns what was on the list before; or it signals (a quit, no memory)
    with the buffer well-formed.  The buffer is the only live one on its text, the
    hooks are silent and keep the current buffer, and the visited file's modtime
    stays the same. *)
Theorem undo_restores_text {X} `{Collaborators X} realloc set_extent_endpoints detach_extent foreign
    shared v b b1 tail l1 (w w1 : world X) :
  hooks_ok (X := X) eq -> (forall h, Keeps (X := X) (call_hook h)) ->
  world_wf w -> g_current (w_glob w) = v -> w_bufs w !! v = Some b -> b_live b = true ->
  (forall i b', w_bufs w !! i = Some b' -> b_live b' = true -> i = v) ->
  - 2 ^ 31 <= b_modtime b < 2 ^ 31 ->
  b_undo_list b = Some tail -> group_end tail ->
  edits realloc v w w1 ->
  w_bufs w1 !! v = Some b1 -> b_undo_list b1 = Some l1 ->
  holds (zlen (text_str (w_text w1)) + restored l1) ->
  wp (Fprimitive_undo realloc set_extent_endpoints detach_extent foreign shared (LInt 1) l1)
    (fun rest w2 => rest = List.tl tail /\ world_wf w2 /\ text_str (w_text w2) = text_str (w_text w) /\
       exists b2, w_bufs w2 !! v = Some b2 /\ b_begv b2 = b_begv b /\ b_zv b2 = b_zv b)
    (fun _ => world_wf) w1.
Proof.
  intros silent hooks_keep Hwf Hc Hb Hl Hone Hm Hu Htail Hed Hb1 Hu1 Hroom.
  pose proof (Forall_lookup_1 _ _ _ _ (wf_bufs _ Hwf) Hb) as Hwb. unfold live_wf in Hwb.
  rewrite Hl in Hwb. destruct Hwb as [Hw1 Hw2 Hw3 _].
  assert (tracked v (b_begv b) (b_modtime b) (b_zv b) (text_str (w_text w)) tail w) as Ht0.
  { split; [done |]. exists [], (abs_buf (w_text w) b). split; cbn; try done.
    - split_and!; [by apply abs_lookup | done |]. intros i a Ha Hla. unfold abs_world in Ha. cbn in Ha.
      change (@map) with (@fmap list _) in Ha. rewrite list_lookup_fmap in Ha.
      destruct (w_bufs w !! i) as [b' |] eqn:Eb'; [| done]. injection Ha as <-. by apply (Hone i b').
    - by left.
    - constructor.
    - rewrite length_text_str by apply Hwf. lia. }
  destruct (edits_tracked _ silent hooks_keep v _ _ _ _ _ Htail Hm _ _ Hed Ht0) as [Ht1 Hc1].
  destruct (tracked_buf _ _ _ _ _ _ _ Ht1) as (recs & b1' & Hb1' & Hl1 & _ & Hr).
  rewrite Hb1 in Hb1'. injection Hb1' as <-.
  pose proof (rec_undo _ _ _ _ _ _ _ _ _ Hr) as El. cbn in El. rewrite Hu1 in El. injection El as ->.
  pose proof (rec_replays _ _ _ _ _ _ _ _ _ Hr) as Hrep. rewrite (restored_app _ _ _ _ _ _ _ _ Htail Hrep) in Hroom.
  eapply wp_mono; [eapply (wp_primitive_undo realloc set_extent_endpoints detach_extent foreign silent
    hooks_keep v (b_begv b) (b_modtime b) _ _ shared tail recs _ _ w1); [done | | exact Hrep | exact Hroom] | | done].
  - eapply (becomes_viewing _ _ _ (abs_world w1)); [split; [done | apply Ht1] | congruence | apply Hr | | | |]; try done.
    + exact (rec_begv _ _ _ _ _ _ _ _ _ Hr).
    + exact (rec_modtime _ _ _ _ _ _ _ _ _ Hr).
  - intros rest w2 [-> [Hwf2 _ (b2 & Hb2 & _ & E1 & E2 & _) Hs]]. split_and!; [done.. |]. by exists b2.
Qed.

(** ** The theorem at work *)

#[local] Existing Instance quiet.

(** "hello", "heabllo", "hbllo", "hbl0o". *)
Definition hello1 : world unit := (buffer_insert_lisp_string_1 (fun _ => None) 0 3 [97; 98] 0 hello).2.
Definition hello2 : world unit := (buffer_delete_range 0 2 4 0 hello1).2.
Definition hello3 : world unit := (buffer_replace_char 0 4 48 false false hello2).2.

Definition hello3_undo : list undo_elt :=
  [UInsert 4 5; UDelete [108] 4; UDelete [101; 97] 2; UInsert 3 5].

Lemma undo_restores_text_witness :
  wp (Fprimitive_undo (fun _ => None) (fun _ _ _ _ => ret tt) (fun _ => ret tt) (fun _ => None)
        (fun _ => true) (LInt 1) hello3_undo)
    (fun rest w => rest = [] /\ world_wf w /\ text_str (w_text w) = [104; 101; 108; 108; 111] /\
       exists b, w_bufs w !! 0%nat = Some b /\ b_begv b = 1 /\ b_zv b = 6)
    (fun _ => world_wf) hello3.
Proof.
  refine (undo_restores_text (fun _ => None) (fun _ _ _ _ => ret tt) (fun _ => ret tt) (fun _ => None)
    (fun _ => true) 0 _ _ [] hello3_undo hello hello3 quiet_hooks_ok _ hello_wf eq_refl eq_refl eq_refl
    _ _ eq_refl _ _ _ _ _).
  - intros [| i] b' Hb' _; [done | discriminate Hb'].
  - cbn. lia.
  - by left.
  - eapply (edits_insert _ _ hello 3 [97; 98] 0 2 hello1); [apply (hello_room 2); lia | vm_compute; reflexivity |].
    eapply (edits_delete _ _ hello1 _ 2 4 0 hello2); [vm_compute; reflexivity | cbn; lia.. | vm_compute; reflexivity |].
    eapply (edits_replace _ _ hello2 _ 4 48 false hello3); [vm_compute; reflexivity | cbn; lia | vm_compute; reflexivity |].
    apply edits_done.
  - vm_compute. reflexivity.
  - vm_compute. reflexivity.
  - unfold holds. vm_compute. reflexivity.
Defined.

(** The record of a save that is obsolete ends the undoing: the older records of
    its group are not undone but left at the front of the list that is returned, as
    if a boundary preceded them. *)
Example obsolete_save_cuts_group_short :
  exists w, Fprimitive_undo (fun _ => None) (fun _ _ _ _ => ret tt) (fun _ => ret tt) (fun _ => None)
      (fun _ => true) (LInt 1) [UInsert 1 2; UTime 1 7; UInsert 4 5; UBoundary; UPos 1] hello =
    (Done [UInsert 4 5; UBoundary; UPos 1], w) /\
    text_str (w_text w) = [101; 108; 108; 111].
Proof. eexists. split; vm_compute; reflexivity. Qed.
