(* ===== verification/Bytecode.v ===== *)
(** * Byte code and its optimizer (src/src/bytecode.c)

    The first call of a byte-compiled function rewrites its byte string: operands
    take as few bytes as they can, references to constants and variables are
    checked, and jumps become relative to the place of their operand, one byte
    wide where the distance allows it.  The offsets are of type [int] in the code;
    they are integers here, which is the same for strings below 2^30 bytes. *)

From S2P Require Import Prelude Lisp.

(** ** Opcodes *)

Definition Bvarref : Z := 8.
Definition Bvarset : Z := 16.
Definition Bvarbind : Z := 24.
Definition Bcall : Z := 32.
Definition Bunbind : Z := 40.
Definition Bconstant2 : Z := 129.
Definition Bgoto : Z := 130.
Definition Bgotoifnonnilelsepop : Z := 134.
Definition Bdiscard : Z := 136.
Definition BRgoto : Z := 170.
Definition BRgotoifnonnilelsepop : Z := 174.
Definition BlistN : Z := 175.
Definition BconcatN : Z := 176.
Definition BinsertN : Z := 177.
Definition Bassq : Z := 183.
Definition Bconstant : Z := 192.

Definition UCHAR_MAX : Z := 255.
Definition SCHAR_MIN : Z := - 128.
Definition SCHAR_MAX : Z := 127.

(** The eight opcodes from [base] on share an operation: the operand is in the
    opcode, or in the next byte, or in the next two. *)
Definition in_group (base opcode : Z) : bool := (base <=? opcode) && (opcode <=? base + 7).

Definition is_goto (opcode : Z) : bool := (Bgoto <=? opcode) && (opcode <=? Bgotoifnonnilelsepop).
Definition is_rgoto (opcode : Z) : bool := (BRgoto <=? opcode) && (opcode <=? BRgotoifnonnilelsepop).
Definition is_N (opcode : Z) : bool := (BlistN <=? opcode) && (opcode <=? BinsertN).

(** ** Errors *)

(** What [invalid_byte_code_error] is told. *)
Inductive byte_code_error :=
| invalid_opcode (opcode : Z)
| constant_out_of_range (idx last : Z)
| reference_to_non_symbol (val : Lisp_Object)
| reference_to_constant_symbol (val : Lisp_Object)
| set_non_symbol (val : Lisp_Object)
| set_constant_symbol (val : Lisp_Object)
| bind_non_symbol (val : Lisp_Object)
| bind_constant_symbol (val : Lisp_Object)
| goto_own_target.

(** How the code goes wrong: a read of memory that was not written or lies
    outside the block, a write outside the block, a call of [ABORT], and a loop
    that does not end. *)
Inductive trouble := bad_read | bad_write | aborted | no_fuel.

Inductive bc_result (A : Type) :=
| Good (a : A)
| Invalid (e : byte_code_error)
| Bad (why : trouble).
Arguments Good {A} a.
Arguments Invalid {A} e.
Arguments Bad {A} why.

Definition bc_bind {A B} (m : bc_result A) (k : A -> bc_result B) : bc_result B :=
  match m with Good a => k a | Invalid e => Invalid e | Bad why => Bad why end.

Definition access {A} (why : trouble) (o : option A) : bc_result A :=
  match o with Some a => Good a | None => Bad why end.

Declare Scope bc_scope.
Notation "'let*' x := m 'in' k" := (bc_bind m (fun x => k))
  (at level 10, x pattern, k at level 200) : bc_scope.
Local Open Scope bc_scope.

(** [check_opcode]. *)
Definition check_opcode (opcode : Z) : bc_result unit :=
  if (opcode <? Bvarref) || (opcode =? 169) || ((opcode >? Bassq) && (opcode <? Bconstant))
  then Invalid (invalid_opcode opcode) else Good tt.

(** [check_constants_index]. *)
Definition check_constants_index (idx : Z) (constants : list Lisp_Object) : bc_result unit :=
  if (idx <? 0) || (idx >=? zlen constants)
  then Invalid (constant_out_of_range idx (zlen constants - 1)) else Good tt.

(** ** Translating the instructions *)

(** An entry of the table of jumps. *)
Record jump := mk_jump { j_from : Z; j_to : Z }.

(** The local variables of [optimize_byte_code]: the place in the instructions,
    the program written so far, the offset in it at which each character was
    read, the jumps, and the number of bindings. *)
Record opt_state := mk_opt {
  o_ptr : Z;
  o_program : list Z;
  o_icounts : list Z;
  o_jumps : list jump;
  o_varbinds : Z;
}.

Definition O (A : Type) : Type := opt_state -> bc_result (A * opt_state).
Definition o_ret {A} (a : A) : O A := fun s => Good (a, s).
Definition o_bind {A B} (m : O A) (k : A -> O B) : O B := fun s =>
  let* (a, s) := m s in k a s.
Definition o_lift {A} (r : bc_result A) : O A := fun s => let* a := r in Good (a, s).

Notation "x <<- m ; k" := (o_bind m (fun x => k))
  (at level 100, m at next level, k at level 200, right associativity) : bc_scope.
Notation "m ;;> k" := (o_bind m (fun _ => k))
  (at level 100, k at level 200, right associativity) : bc_scope.

Section Optimize.
(** [SYMBOL_IS_KEYWORD] asks the table of interned symbols. *)
Variable SYMBOL_IS_KEYWORD : Lisp_Object -> bool.
Variable instructions : list Z.
Variable constants : list Lisp_Object.

(** [comfy_size], and the space the caller provides for the program. *)
Definition comfy_size : Z := 2 * zlen instructions.
Definition program_size : Z := 1 + 2 * zlen instructions.

Definition SYMBOLP (x : Lisp_Object) : bool := RECORDP x lrecord_symbol.

(** The data of a string end with a zero byte. *)
Definition string_data (s : list Z) : list Z := s ++ [0].

(** [READ_INSTRUCTION_CHAR]: without Mule no character is above [UCHAR_MAX]. *)
Definition READ_INSTRUCTION_CHAR : O Z := fun s =>
  let* c := access bad_read (zget (string_data instructions) (o_ptr s)) in
  if zlen (o_icounts s) <? comfy_size
  then Good (c, mk_opt (o_ptr s + 1) (o_program s) (o_icounts s ++ [zlen (o_program s)])
                  (o_jumps s) (o_varbinds s))
  else Bad bad_write.

Definition READ_OPERAND_1 : O Z := READ_INSTRUCTION_CHAR.

Definition READ_OPERAND_2 : O Z :=
  arg1 <<- READ_INSTRUCTION_CHAR;
  arg2 <<- READ_INSTRUCTION_CHAR;
  o_ret (arg1 + Z.shiftl arg2 8).

Definition o_set_program (p : list Z) : O unit := fun s =>
  Good (tt, mk_opt (o_ptr s) p (o_icounts s) (o_jumps s) (o_varbinds s)).

(** [WRITE_INT8 (value, program_ptr)]. *)
Definition WRITE_INT8 (value : Z) : O unit := fun s =>
  if zlen (o_program s) <? program_size
  then o_set_program (o_program s ++ [value mod 256]) s else Bad bad_write.

(** [WRITE_INT16 (value, program_ptr)]: the value as an unsigned number. *)
Definition WRITE_INT16 (value : Z) : O unit :=
  WRITE_INT8 (Z.land (value mod 2 ^ 32) 255) ;;> WRITE_INT8 (Z.shiftr (value mod 2 ^ 32) 8).

Definition REWRITE_OPCODE (new_opcode : Z) : O unit := fun s =>
  match o_program s with
  | [] => Bad bad_write
  | p => o_set_program (zset p (zlen p - 1) (new_opcode mod 256)) s
  end.

Definition WRITE_NARGS (base_opcode arg : Z) : O unit :=
  if arg <=? 5 then REWRITE_OPCODE (base_opcode + arg)
  else if arg <=? UCHAR_MAX then REWRITE_OPCODE (base_opcode + 6) ;;> WRITE_INT8 arg
  else REWRITE_OPCODE (base_opcode + 7) ;;> WRITE_INT16 arg.

Definition WRITE_CONSTANT (arg : Z) : O unit :=
  o_lift (check_constants_index arg constants) ;;>
  (if arg <=? UCHAR_MAX - Bconstant then REWRITE_OPCODE (Bconstant + arg)
   else REWRITE_OPCODE Bconstant2 ;;> WRITE_INT16 arg).

(** The operand of an opcode of the group of [base]. *)
Definition operand (base opcode : Z) : O Z :=
  if opcode =? base + 7 then READ_OPERAND_2
  else if opcode =? base + 6 then READ_OPERAND_1
  else o_ret (opcode - base).

Definition constant_at (arg : Z) : O Lisp_Object :=
  o_lift (check_constants_index arg constants) ;;> o_lift (access bad_read (zget constants arg)).

Definition o_require (c : bool) (e : byte_code_error) : O unit :=
  if c then o_ret tt else o_lift (Invalid e).

(** The label [do_varref]. *)
Definition do_varref (arg : Z) : O unit :=
  val <<- constant_at arg;
  o_require (SYMBOLP val) (reference_to_non_symbol val) ;;>
  o_require (negb (EQ val Qnil || EQ val Qt || SYMBOL_IS_KEYWORD val))
            (reference_to_constant_symbol val) ;;>
  WRITE_NARGS Bvarref arg.

(** The label [do_varset]: assignments to keywords are dropped. *)
Definition do_varset (arg : Z) : O unit :=
  val <<- constant_at arg;
  o_require (SYMBOLP val) (set_non_symbol val) ;;>
  o_require (negb (EQ val Qnil || EQ val Qt)) (set_constant_symbol val) ;;>
  (if SYMBOL_IS_KEYWORD val then REWRITE_OPCODE Bdiscard else WRITE_NARGS Bvarset arg).

(** The label [do_varbind]. *)
Definition do_varbind (arg : Z) : O unit :=
  (fun s => Good (tt, mk_opt (o_ptr s) (o_program s) (o_icounts s) (o_jumps s) (o_varbinds s + 1))) ;;>
  val <<- constant_at arg;
  o_require (SYMBOLP val) (bind_non_symbol val) ;;>
  o_require (negb (EQ val Qnil || EQ val Qt || SYMBOL_IS_KEYWORD val))
            (bind_constant_symbol val) ;;>
  WRITE_NARGS Bvarbind arg.

(** The label [do_jump]: [arg] is the distance from the operand. *)
Definition do_jump (opcode arg argsize : Z) : O unit :=
  (fun s => if zlen (o_jumps s) <? comfy_size
            then let from := zlen (o_icounts s) - argsize in
                 Good (tt, mk_opt (o_ptr s) (o_program s) (o_icounts s)
                             (o_jumps s ++ [mk_jump from (from + arg)]) (o_varbinds s))
            else Bad bad_write) ;;>
  o_require (negb ((arg >=? -1) && (arg <=? argsize))) goto_own_target ;;>
  (if (arg <=? SCHAR_MIN) || (arg >? SCHAR_MAX)
   then (if argsize =? 1 then REWRITE_OPCODE (opcode + Bgoto - BRgoto) else o_ret tt) ;;>
        WRITE_INT16 arg
   else (if argsize =? 2 then REWRITE_OPCODE (opcode + BRgoto - Bgoto) else o_ret tt) ;;>
        WRITE_INT8 arg).

(** One turn of the first loop of [optimize_byte_code]. *)
Definition optimize_insn : O unit :=
  opcode <<- READ_INSTRUCTION_CHAR;
  WRITE_INT8 opcode ;;>
  (if in_group Bvarref opcode then arg <<- operand Bvarref opcode; do_varref arg
   else if in_group Bvarset opcode then arg <<- operand Bvarset opcode; do_varset arg
   else if in_group Bvarbind opcode then arg <<- operand Bvarbind opcode; do_varbind arg
   else if in_group Bcall opcode then arg <<- operand Bcall opcode; WRITE_NARGS Bcall arg
   else if in_group Bunbind opcode then arg <<- operand Bunbind opcode; WRITE_NARGS Bunbind arg
   else if is_goto opcode then
     arg <<- READ_OPERAND_2;
     (fun s => do_jump opcode (arg - (zlen (o_icounts s) - 2)) 2 s)
   else if is_rgoto opcode then
     arg <<- READ_OPERAND_1; do_jump opcode (arg - 127) 1
   else if opcode =? Bconstant2 then
     arg <<- READ_OPERAND_2; WRITE_CONSTANT arg
   else if is_N opcode then
     arg <<- READ_OPERAND_1; WRITE_INT8 arg
   else if opcode <? Bconstant then o_lift (check_opcode opcode)
   else WRITE_CONSTANT (opcode - Bconstant)).

(** The first loop: each turn reads at least one character. *)
Fixpoint optimize_insns (fuel : nat) : O unit := fun s =>
  if o_ptr s <? zlen instructions then
    match fuel with
    | 0%nat => Bad no_fuel
    | S fuel => (optimize_insn ;;> optimize_insns fuel) s
    end
  else Good (tt, s).

(** ** Adjusting the jumps *)

(** The second loop: the table gets offsets into the program. *)
Fixpoint fix_up_jumps (icounts program : list Z) (js : list jump) : bc_result (list jump) :=
  match js with
  | [] => Good []
  | j :: js =>
      let* from := access bad_read (zget icounts (j_from j)) in
      let* to := access bad_read (zget icounts (j_to j)) in
      let* op := access bad_read (zget program to) in
      let* _ := check_opcode op in
      let* js := fix_up_jumps icounts program js in
      Good (mk_jump from to :: js)
  end.

(** The two bytes of [WRITE_INT16]. *)
Definition int16_bytes (value : Z) : list Z :=
  [Z.land (value mod 2 ^ 32) 255; Z.shiftr (value mod 2 ^ 32) 8 mod 256].

(** An offset after the byte at [from] was doubled. *)
Definition shift_past (from x : Z) : Z := if x >? from then x + 1 else x.

Definition shift_jump (from : Z) (j : jump) : jump :=
  mk_jump (shift_past from (j_from j)) (shift_past from (j_to j)).

(** The program, the jumps, and [more_fixups_needed]. *)
Definition fix_state : Type := list Z * list jump * bool.

(** One turn of the inner loop over the jumps, for the jump [j]. *)
Definition fixup_jump (j : jump) (s : fix_state) : bc_result fix_state :=
  let '(program, js, more) := s in
  let from := j_from j in
  let jump := j_to j - from in
  let* opcode := access bad_read (zget program (from - 1)) in
  let* _ := (if more : bool then Good tt
             else let* op := access bad_read (zget program (from + jump)) in check_opcode op) in
  if is_goto opcode then
    let* program := access bad_write (mem_write program from (int16_bytes jump)) in
    Good (program, js, more)
  else if is_rgoto opcode then
    if (jump >? SCHAR_MIN) && (jump <=? SCHAR_MAX) then
      let* program := access bad_write (mem_write program from [jump mod 256]) in
      Good (program, js, more)
    else
      let js := map (shift_jump from) js in
      let* program := access bad_write (mem_write program (from - 1) [(opcode + Bgoto - BRgoto) mod 256]) in
      let* tail := access bad_read (mem_read program from (zlen program - from)) in
      if zlen program <? program_size then
        let program := ztake (from + 1) program ++ tail in
        let* program := access bad_write (mem_write program from (int16_bytes jump)) in
        Good (program, js, true)
      else Bad bad_write
  else Bad aborted.

(** The inner loop, [k] jumps before its end. *)
Fixpoint fixup_pass (k : nat) (s : fix_state) : bc_result fix_state :=
  match k with
  | 0%nat => Good s
  | S k' =>
      let '(program, js, more) := s in
      let* j := access bad_read (js !! (length js - k)%nat) in
      let* s := fixup_jump j s in
      fixup_pass k' s
  end.

(** The loop that widens jumps until none needs it. *)
Fixpoint fixup_jumps (fuel : nat) (program : list Z) (js : list jump) : bc_result (list Z) :=
  match fuel with
  | 0%nat => Bad no_fuel
  | S fuel =>
      let* s := fixup_pass (length js) (program, js, false) in
      let '(program, js, more) := s in
      if more : bool then fixup_jumps fuel program js else Good program
  end.

(** [optimize_byte_code]: the program and the number of bindings. *)
Definition optimize_byte_code : bc_result (list Z * Z) :=
  let* (_, s) := optimize_insns (length instructions) (mk_opt 0 [] [] [] 0) in
  let* js := fix_up_jumps (o_icounts s) (o_program s) (o_jumps s) in
  let* program := fixup_jumps (S (length js)) (o_program s) js in
  Good (program, o_varbinds s).
End Optimize.
