(* ===== verification/Optimizer.v ===== *)
(** * The byte code optimizer is correct

    A byte string and a program are read as instructions by [decode]; the program
    the optimizer makes of a string reads as the same instructions. *)

From S2P Require Import Prelude Lisp Bytecode.
Local Open Scope bc_scope.

(** ** Reading instructions *)

(** An instruction without its encoding: an opcode of a group with its operand, a
    jump of one of the five kinds to an offset, a constant, an opcode that counts
    its arguments in a byte, any other opcode. *)
Inductive insn :=
| INarg (base n : Z)
| IJump (kind to : Z)
| IConst (n : Z)
| ICount (opcode n : Z)
| IOp (opcode : Z).

Definition group_of (opcode : Z) : option Z :=
  if in_group Bvarref opcode then Some Bvarref
  else if in_group Bvarset opcode then Some Bvarset
  else if in_group Bvarbind opcode then Some Bvarbind
  else if in_group Bcall opcode then Some Bcall
  else if in_group Bunbind opcode then Some Bunbind
  else None.

Definition word_at (code : list Z) (i : Z) : option Z :=
  lo ← zget code i; hi ← zget code (i + 1); Some (lo + Z.shiftl hi 8).

(** [wide] and [short]: the target of a jump whose operand lies at the first
    argument and is the second one. *)
Definition decode (wide short : Z -> Z -> Z) (code : list Z) (i : Z) : option (insn * Z) :=
  op ← zget code i;
  match group_of op with
  | Some base =>
      if op =? base + 7 then n ← word_at code (i + 1); Some (INarg base n, i + 3)
      else if op =? base + 6 then n ← zget code (i + 1); Some (INarg base n, i + 2)
      else Some (INarg base (op - base), i + 1)
  | None =>
      if is_goto op then n ← word_at code (i + 1); Some (IJump (op - Bgoto) (wide (i + 1) n), i + 3)
      else if is_rgoto op then n ← zget code (i + 1); Some (IJump (op - BRgoto) (short (i + 1) n), i + 2)
      else if op =? Bconstant2 then n ← word_at code (i + 1); Some (IConst n, i + 3)
      else if is_N op then n ← zget code (i + 1); Some (ICount op n, i + 2)
      else if op <? Bconstant then Some (IOp op, i + 1)
      else Some (IConst (op - Bconstant), i + 1)
  end.

(** In a byte string two bytes are the offset of the target and one byte is the
    distance from the operand plus 127. *)
Definition decode_source (instructions : list Z) : Z -> option (insn * Z) :=
  decode (fun _ n => n) (fun i n => i + (n - 127)) (string_data instructions).

(** A byte and two bytes as signed numbers. *)
Definition signed (bits n : Z) : Z := if n <? 2 ^ (bits - 1) then n else n - 2 ^ bits.

(** In a program both are signed distances from the operand. *)
Definition decode_program (program : list Z) : Z -> option (insn * Z) :=
  decode (fun i n => i + signed 16 n) (fun i n => i + signed 8 n) program.

Section Encoding.
Variable SYMBOL_IS_KEYWORD : Lisp_Object -> bool.
Variable constants : list Lisp_Object.

(** What is wrong with the instruction at [i], which ends at [i']. *)
Definition variable_error (idx : Z) (keywords : bool) (non_symbol constant : Lisp_Object -> byte_code_error)
    : option byte_code_error :=
  match zget constants idx with
  | None => Some (constant_out_of_range idx (zlen constants - 1))
  | Some val =>
      if negb (SYMBOLP val) then Some (non_symbol val)
      else if EQ val Qnil || EQ val Qt || (keywords && SYMBOL_IS_KEYWORD val) then Some (constant val)
      else None
  end.

Definition insn_error (i i' : Z) (ins : insn) : option byte_code_error :=
  match ins with
  | INarg base n =>
      if base =? Bvarref then variable_error n true reference_to_non_symbol reference_to_constant_symbol
      else if base =? Bvarset then variable_error n false set_non_symbol set_constant_symbol
      else if base =? Bvarbind then variable_error n true bind_non_symbol bind_constant_symbol
      else None
  | IJump _ to => if (i <=? to) && (to <=? i') then Some goto_own_target else None
  | IConst n =>
      match zget constants n with
      | None => Some (constant_out_of_range n (zlen constants - 1))
      | Some _ => None
      end
  | ICount _ _ => None
  | IOp op => match check_opcode op with Invalid e => Some e | _ => None end
  end.

(** An assignment to a keyword. *)
Definition dropped (ins : insn) : bool :=
  match ins with
  | INarg base n => (base =? Bvarset) && from_option SYMBOL_IS_KEYWORD false (zget constants n)
  | _ => false
  end.

(** What the optimizer makes of an instruction. *)
Definition simplify_insn (ins : insn) : insn := if dropped ins then IOp Bdiscard else ins.

Definition word_bytes (n : Z) : list Z := int16_bytes n.

(** The first encoding of the instruction at [i]. *)
Definition emit (i : Z) (ins : insn) : list Z :=
  match simplify_insn ins with
  | INarg base n =>
      if n <=? 5 then [base + n] else if n <=? UCHAR_MAX then [base + 6; n]
      else base + 7 :: word_bytes n
  | IJump kind to =>
      let arg := to - (i + 1) in
      if (arg <=? SCHAR_MIN) || (arg >? SCHAR_MAX) then Bgoto + kind :: word_bytes arg
      else [BRgoto + kind; arg mod 256]
  | IConst n => if n <=? UCHAR_MAX - Bconstant then [Bconstant + n] else Bconstant2 :: word_bytes n
  | ICount op n => [op; n]
  | IOp op => [op]
  end.

Definition jump_entry (i : Z) (ins : insn) : list jump :=
  match ins with IJump _ to => [mk_jump (i + 1) to] | _ => [] end.

Definition binds (ins : insn) : Z :=
  match ins with INarg base _ => if base =? Bvarbind then 1 else 0 | _ => 0 end.

(** The state after an instruction was translated. *)
Definition after_insn (ins : insn) (i' : Z) (s : opt_state) : opt_state :=
  mk_opt i' (o_program s ++ emit (o_ptr s) ins)
    (o_icounts s ++ zlen (o_program s)
       :: replicate (Z.to_nat (i' - o_ptr s - 1)) (zlen (o_program s) + 1))
    (o_jumps s ++ jump_entry (o_ptr s) ins) (o_varbinds s + binds ins).
End Encoding.

(** ** One instruction *)

Definition is_byte (b : Z) : Prop := 0 <= b < 256.

Lemma land_255 x : Z.land x 255 = x mod 256.
Proof. change 255 with (Z.ones 8). by rewrite Z.land_ones. Qed.

Lemma group_of_range op base :
  group_of op = Some base ->
  (base = 8 \/ base = 16 \/ base = 24 \/ base = 32 \/ base = 40) /\ base <= op <= base + 7.
Proof. unfold group_of, in_group. zcase; intros [= <-]; split; try lia; tauto. Qed.

Lemma group_of_None op : group_of op = None -> op < 8 \/ 48 <= op.
Proof. unfold group_of, in_group, Bvarref, Bvarset, Bvarbind, Bcall, Bunbind. zcase. Qed.

Section OneInstruction.
Variable SYMBOL_IS_KEYWORD : Lisp_Object -> bool.
Variable src : list Z.
Variable constants : list Lisp_Object.
Hypothesis Hbytes : Forall is_byte src.

Lemma source_byte i c : zget (string_data src) i = Some c -> is_byte c /\ 0 <= i <= zlen src.
Proof.
  intros Hc. pose proof (zget_Some_bound _ _ _ Hc) as Hb. unfold string_data in *.
  rewrite length_app in Hb. simpl in Hb. split; [| lia]. rewrite zget_app in Hc.
  destruct (Z.ltb_spec i (zlen src)) as [Hi | Hi].
  - rewrite zget_lookup in Hc by lia. by apply (Forall_lookup_1 _ _ _ _ Hbytes Hc).
  - replace (i - zlen src) with 0 in Hc by lia. injection Hc as <-. unfold is_byte. lia.
Qed.

Lemma source_word i n : word_at (string_data src) i = Some n -> 0 <= n < 65536 /\ 0 <= i /\ i + 1 <= zlen src.
Proof.
  unfold word_at. intros (lo & Hlo & (hi & Hhi & [= <-])%bind_Some)%bind_Some.
  apply source_byte in Hlo as [Hlo ?], Hhi as [Hhi ?]. unfold is_byte in *.
  rewrite Z.shiftl_mul_pow2 by lia. lia.
Qed.

Lemma read_char i p ic js v :
  zlen ic = i -> 0 < zlen src ->
  READ_INSTRUCTION_CHAR src (mk_opt i p ic js v) =
  match zget (string_data src) i with
  | Some c => Good (c, mk_opt (i + 1) p (ic ++ [zlen p]) js v)
  | None => Bad bad_read
  end.
Proof.
  intros Hi Hl. unfold READ_INSTRUCTION_CHAR. simpl o_ptr.
  destruct (zget (string_data src) i) as [c |] eqn:Hc; [| done]. simpl.
  apply source_byte in Hc as [_ ?]. unfold comfy_size. zcase.
Qed.

Lemma write_int8 b i p ic js v :
  zlen p <= 2 * zlen src ->
  WRITE_INT8 src b (mk_opt i p ic js v) = Good (tt, mk_opt i (p ++ [b mod 256]) ic js v).
Proof. intros. unfold WRITE_INT8, program_size. simpl. zcase. Qed.

Lemma write_int16 b i p ic js v :
  zlen p < 2 * zlen src ->
  WRITE_INT16 src b (mk_opt i p ic js v) = Good (tt, mk_opt i (p ++ int16_bytes b) ic js v).
Proof.
  intros. unfold WRITE_INT16, o_bind, int16_bytes. rewrite write_int8 by lia. simpl.
  rewrite write_int8 by (rewrite length_app; simpl; lia).
  by rewrite <- app_assoc, land_255, Z.mod_mod.
Qed.

Lemma rewrite_opcode b i p ic js v op :
  is_byte b ->
  REWRITE_OPCODE b (mk_opt i (p ++ [op]) ic js v) = Good (tt, mk_opt i (p ++ [b]) ic js v).
Proof.
  intros. assert (zset (p ++ [op]) (zlen (p ++ [op]) - 1) (b mod 256) = p ++ [b]) as Hz.
  { replace (zlen (p ++ [op]) - 1) with (zlen p) by (rewrite length_app; simpl; lia).
    rewrite zset_middle. by rewrite Z.mod_small. }
  unfold REWRITE_OPCODE. cbn [o_program]. destruct (p ++ [op]) eqn:E; [by destruct p |].
  unfold o_set_program. by rewrite Hz.
Qed.

Lemma read_word i p ic js v :
  zlen ic = i -> 0 < zlen src ->
  READ_OPERAND_2 src (mk_opt i p ic js v) =
  match word_at (string_data src) i with
  | Some n => Good (n, mk_opt (i + 2) p (ic ++ [zlen p; zlen p]) js v)
  | None => Bad bad_read
  end.
Proof.
  intros. unfold READ_OPERAND_2, o_bind, word_at. rewrite read_char by done.
  destruct (zget (string_data src) i) as [lo |]; [| done]. simpl.
  rewrite read_char by (rewrite ?length_app; simpl; lia).
  destruct (zget (string_data src) (i + 1)) as [hi |]; [| done]. simpl.
  unfold o_ret. rewrite <- app_assoc. by replace (i + 1 + 1) with (i + 2) by lia.
Qed.

Lemma narg_bytes_written base n i p ic js v op :
  0 <= base <= 40 -> 0 <= n < 65536 ->
  (n <= 5 \/ n <= 255 /\ zlen p < 2 * zlen src \/ zlen p + 1 < 2 * zlen src) ->
  WRITE_NARGS src base n (mk_opt i (p ++ [op]) ic js v) =
  Good (tt, mk_opt i (p ++ (if n <=? 5 then [base + n] else if n <=? UCHAR_MAX then [base + 6; n]
                            else base + 7 :: word_bytes n)) ic js v).
Proof.
  intros. unfold WRITE_NARGS, o_bind, UCHAR_MAX.
  destruct (Z.leb_spec n 5); [by rewrite rewrite_opcode by (unfold is_byte; lia) |].
  destruct (Z.leb_spec n 255); rewrite rewrite_opcode by (unfold is_byte; lia); simpl.
  - rewrite write_int8 by (rewrite length_app; simpl; lia).
    rewrite <- app_assoc. simpl. by rewrite Z.mod_small by lia.
  - rewrite write_int16 by (rewrite length_app; simpl; lia). by rewrite <- app_assoc.
Qed.

Lemma constant_written n i p ic js v op :
  0 <= n < 65536 -> (n <= 63 \/ zlen p + 1 < 2 * zlen src) ->
  WRITE_CONSTANT src constants n (mk_opt i (p ++ [op]) ic js v) =
  match zget constants n with
  | Some _ => Good (tt, mk_opt i (p ++ (if n <=? UCHAR_MAX - Bconstant then [Bconstant + n]
                                         else Bconstant2 :: word_bytes n)) ic js v)
  | None => Invalid (constant_out_of_range n (zlen constants - 1))
  end.
Proof.
  intros. unfold WRITE_CONSTANT, o_bind, o_lift, check_constants_index.
  destruct (zget constants n) as [val |] eqn:Hv.
  - apply zget_Some_bound in Hv.
    rewrite Z.geb_leb, (proj2 (Z.ltb_ge n 0)), (proj2 (Z.leb_gt (zlen constants) n)) by lia. simpl.
    unfold UCHAR_MAX, Bconstant. destruct (Z.leb_spec n (255 - 192)).
    + by rewrite rewrite_opcode by (unfold is_byte; lia).
    + rewrite rewrite_opcode by (unfold is_byte, Bconstant2; lia). simpl.
      rewrite write_int16 by (rewrite length_app; simpl; lia). by rewrite <- app_assoc.
  - rewrite Z.geb_leb, (proj2 (Z.leb_le (zlen constants) n)), orb_true_r; [done |].
    destruct (Z.le_gt_cases (zlen constants) n); [done |].
    destruct (zget_is_Some constants n) as [? Hx]; [lia | congruence].
Qed.

Lemma constant_at_eq n s :
  0 <= n ->
  constant_at constants n s =
  match zget constants n with
  | Some val => Good (val, s)
  | None => Invalid (constant_out_of_range n (zlen constants - 1))
  end.
Proof.
  intros. unfold constant_at, o_bind, o_lift, check_constants_index.
  destruct (zget constants n) as [val |] eqn:Hv.
  - apply zget_Some_bound in Hv. rewrite Z.geb_leb. zcase.
  - rewrite Z.geb_leb, (proj2 (Z.leb_le (zlen constants) n)), orb_true_r; [done |].
    destruct (Z.le_gt_cases (zlen constants) n); [done |].
    destruct (zget_is_Some constants n) as [? Hx]; [lia | congruence].
Qed.
Abbreviation keyword_error := (variable_error SYMBOL_IS_KEYWORD constants).

Lemma do_varref_eq n s :
  0 <= n ->
  do_varref SYMBOL_IS_KEYWORD src constants n s =
  match keyword_error n true reference_to_non_symbol reference_to_constant_symbol with
  | Some e => Invalid e
  | None => WRITE_NARGS src Bvarref n s
  end.
Proof.
  intros. unfold do_varref, o_bind, variable_error. rewrite constant_at_eq by done.
  destruct (zget constants n) as [val |]; [| done]. unfold o_require. simpl.
  destruct (SYMBOLP val); [| done]. simpl.
  by destruct (EQ val Qnil), (EQ val Qt), (SYMBOL_IS_KEYWORD val).
Qed.

Lemma do_varbind_eq n i p ic js v :
  0 <= n ->
  do_varbind SYMBOL_IS_KEYWORD src constants n (mk_opt i p ic js v) =
  match keyword_error n true bind_non_symbol bind_constant_symbol with
  | Some e => Invalid e
  | None => WRITE_NARGS src Bvarbind n (mk_opt i p ic js (v + 1))
  end.
Proof.
  intros. unfold do_varbind, o_bind, variable_error. simpl. rewrite constant_at_eq by done.
  destruct (zget constants n) as [val |]; [| done]. unfold o_require. simpl.
  destruct (SYMBOLP val); [| done]. simpl.
  by destruct (EQ val Qnil), (EQ val Qt), (SYMBOL_IS_KEYWORD val).
Qed.

Lemma do_varset_eq n s :
  0 <= n ->
  do_varset SYMBOL_IS_KEYWORD src constants n s =
  match keyword_error n false set_non_symbol set_constant_symbol with
  | Some e => Invalid e
  | None => if dropped SYMBOL_IS_KEYWORD constants (INarg Bvarset n) then REWRITE_OPCODE Bdiscard s
            else WRITE_NARGS src Bvarset n s
  end.
Proof.
  intros. unfold do_varset, o_bind, variable_error, dropped. rewrite constant_at_eq by done.
  destruct (zget constants n) as [val |]; [| done]. unfold o_require. simpl.
  destruct (SYMBOLP val); [| done]. simpl.
  by destruct (EQ val Qnil), (EQ val Qt), (SYMBOL_IS_KEYWORD val).
Qed.

Lemma do_jump_eq kind arg argsize i p ic js v op :
  zlen js < 2 * zlen src -> 0 <= kind <= 4 ->
  (argsize = 1 /\ op = BRgoto + kind \/ argsize = 2 /\ op = Bgoto + kind) ->
  zlen p + 1 < 2 * zlen src ->
  let from := zlen ic - argsize in
  do_jump src op arg argsize (mk_opt i (p ++ [op]) ic js v) =
  if (-1 <=? arg) && (arg <=? argsize) then Invalid goto_own_target
  else Good (tt, mk_opt i (p ++ (if (arg <=? SCHAR_MIN) || (arg >? SCHAR_MAX)
                                 then Bgoto + kind :: word_bytes arg
                                 else [BRgoto + kind; arg mod 256]))
                   ic (js ++ [mk_jump from (from + arg)]) v).
Proof.
  intros Hj Hk Hop Hp from. unfold do_jump, o_bind, comfy_size. cbn [o_jumps o_icounts o_program o_ptr o_varbinds].
  rewrite (proj2 (Z.ltb_lt _ _) Hj). cbn [bc_bind]. rewrite Z.geb_leb. unfold o_require.
  destruct ((-1 <=? arg) && (arg <=? argsize)); [done |]. simpl.
  unfold Bgoto, BRgoto in *.
  destruct ((arg <=? SCHAR_MIN) || (arg >? SCHAR_MAX)); destruct Hop as [[-> ->] | [-> ->]]; simpl;
    rewrite ?rewrite_opcode by (unfold is_byte; lia); simpl;
    rewrite ?write_int16, ?write_int8 by (rewrite ?length_app; simpl; lia);
    rewrite <- app_assoc; simpl; unfold from; repeat f_equal; lia.
Qed.
(** The state when the opcode [op] was read at [i] and written, and the operand
    up to [i']. *)
Definition opened (op i' : Z) (s : opt_state) : opt_state :=
  mk_opt i' (o_program s ++ [op])
    (o_icounts s ++ zlen (o_program s)
       :: replicate (Z.to_nat (i' - o_ptr s - 1)) (zlen (o_program s) + 1))
    (o_jumps s) (o_varbinds s).

Definition operand_of (base op i : Z) : option (Z * Z) :=
  if op =? base + 7 then n ← word_at (string_data src) (i + 1); Some (n, i + 3)
  else if op =? base + 6 then n ← zget (string_data src) (i + 1); Some (n, i + 2)
  else Some (op - base, i + 1).

Lemma operand_of_bounds base op i n i' :
  operand_of base op i = Some (n, i') -> base <= op <= base + 7 -> 0 <= i < zlen src ->
  0 <= n < 65536 /\
  (i' = i + 1 /\ n <= 5 \/ i' = i + 2 /\ n <= 255 /\ i + 1 <= zlen src \/ i' = i + 3 /\ i + 2 <= zlen src).
Proof.
  unfold operand_of. intros H ? ?. destruct (Z.eqb_spec op (base + 7)); [| destruct (Z.eqb_spec op (base + 6))].
  - apply bind_Some in H as (m & Hm & [= -> <-]). apply source_word in Hm. lia.
  - apply bind_Some in H as (m & Hm & [= -> <-]). apply source_byte in Hm as [? ?]. unfold is_byte in *. lia.
  - injection H as <- <-. lia.
Qed.

Section Step.
Variable s : opt_state.
Hypothesis Hic : zlen (o_icounts s) = o_ptr s.
Hypothesis Hp : zlen (o_program s) <= 2 * o_ptr s.
Hypothesis Hj : zlen (o_jumps s) <= o_ptr s.
Hypothesis Hi : 0 <= o_ptr s < zlen src.
Abbreviation i := (o_ptr s).

Lemma read_byte_eq op :
  READ_INSTRUCTION_CHAR src (opened op (i + 1) s) =
  match zget (string_data src) (i + 1) with
  | Some c => Good (c, opened op (i + 2) s)
  | None => Bad bad_read
  end.
Proof.
  unfold opened. rewrite read_char by (rewrite ?length_app, ?length_cons, ?length_replicate; lia).
  replace (Z.to_nat (i + 1 - i - 1)) with 0%nat by lia.
  replace (Z.to_nat (i + 2 - i - 1)) with 1%nat by lia.
  destruct (zget _ _); [| done]. rewrite <- app_assoc. simpl.
  replace (i + 1 + 1) with (i + 2) by lia. rewrite length_app. simpl.
  by replace (Z.of_nat (length (o_program s) + 1)) with (zlen (o_program s) + 1) by lia.
Qed.

Lemma read_word_eq op :
  READ_OPERAND_2 src (opened op (i + 1) s) =
  match word_at (string_data src) (i + 1) with
  | Some n => Good (n, opened op (i + 3) s)
  | None => Bad bad_read
  end.
Proof.
  unfold opened. rewrite read_word by (rewrite ?length_app, ?length_cons, ?length_replicate; lia).
  replace (Z.to_nat (i + 1 - i - 1)) with 0%nat by lia.
  replace (Z.to_nat (i + 3 - i - 1)) with 2%nat by lia.
  destruct (word_at _ _); [| done]. rewrite <- app_assoc. simpl.
  replace (i + 1 + 2) with (i + 3) by lia. rewrite length_app. simpl.
  by replace (Z.of_nat (length (o_program s) + 1)) with (zlen (o_program s) + 1) by lia.
Qed.

Lemma operand_eq base op :
  operand src base op (opened op (i + 1) s) =
  match operand_of base op i with
  | Some (n, i') => Good (n, opened op i' s)
  | None => Bad bad_read
  end.
Proof.
  unfold operand, operand_of.
  destruct (op =? base + 7); [| destruct (op =? base + 6)]; [| | done].
  - rewrite read_word_eq. by destruct (word_at _ _).
  - unfold READ_OPERAND_1. rewrite read_byte_eq. by destruct (zget _ _).
Qed.

Lemma optimize_insn_opened :
  exists op, zget (string_data src) i = Some op /\ is_byte op /\
  forall (k : Z -> O unit),
    (opcode <<- READ_INSTRUCTION_CHAR src; WRITE_INT8 src opcode ;;> k opcode) s = k op (opened op (i + 1) s).
Proof.
  destruct (zget_is_Some (string_data src) i) as [op Hop].
  { unfold string_data. rewrite length_app. simpl. lia. }
  exists op. split; [done |]. pose proof (source_byte _ _ Hop) as [Hb _]. split; [done |].
  intros k. unfold o_bind. destruct s as [i0 p ic js v]. simpl in *.
  rewrite read_char by lia. rewrite Hop. simpl. rewrite write_int8 by lia. simpl.
  unfold opened. simpl. rewrite Z.mod_small by done.
  by replace (Z.to_nat (i0 + 1 - i0 - 1)) with 0%nat by lia.
Qed.

Abbreviation after := (after_insn SYMBOL_IS_KEYWORD constants).
Abbreviation error_of := (insn_error SYMBOL_IS_KEYWORD constants).

Lemma written_narg base op n i' :
  operand_of base op i = Some (n, i') -> 8 <= base <= 40 -> base <= op <= base + 7 ->
  dropped SYMBOL_IS_KEYWORD constants (INarg base n) = false ->
  WRITE_NARGS src base n (mk_opt i' (o_program s ++ [op])
    (o_icounts s ++ zlen (o_program s) :: replicate (Z.to_nat (i' - i - 1)) (zlen (o_program s) + 1))
    (o_jumps s) (o_varbinds s + binds (INarg base n))) =
  Good (tt, after (INarg base n) i' s).
Proof.
  intros Hn Hb Hop Hd. pose proof (operand_of_bounds _ _ _ _ _ Hn Hop Hi) as [? Hcase].
  rewrite narg_bytes_written by lia. unfold after_insn, emit, simplify_insn. rewrite Hd.
  simpl. by rewrite app_nil_r.
Qed.

Lemma opened_plain op i' :
  opened op i' s = mk_opt i' (o_program s ++ [op])
    (o_icounts s ++ zlen (o_program s) :: replicate (Z.to_nat (i' - i - 1)) (zlen (o_program s) + 1))
    (o_jumps s) (o_varbinds s + 0).
Proof. unfold opened. by rewrite Z.add_0_r. Qed.

(** What a group of opcodes is decoded to, and what becomes of it. *)
Definition narg_outcome (base op : Z) : bc_result (unit * opt_state) :=
  match operand_of base op i with
  | None => Bad bad_read
  | Some (n, i') =>
      match error_of i i' (INarg base n) with
      | Some e => Invalid e
      | None => Good (tt, after (INarg base n) i' s)
      end
  end.

Lemma varref_case op :
  in_group Bvarref op = true ->
  (arg <<- operand src Bvarref op; do_varref SYMBOL_IS_KEYWORD src constants arg) (opened op (i + 1) s) =
  narg_outcome Bvarref op.
Proof.
  unfold in_group. intros [? ?]%andb_prop. unfold o_bind, narg_outcome. rewrite operand_eq.
  destruct (operand_of Bvarref op i) as [[n i'] |] eqn:Hn; [| done]. simpl.
  pose proof (operand_of_bounds _ _ _ _ _ Hn ltac:(lia) Hi) as [? _].
  rewrite do_varref_eq by lia. destruct (variable_error _ _ _ _ _ _); [done |].
  rewrite opened_plain. by apply written_narg; try (unfold Bvarref in *; lia).
Qed.

Lemma varset_case op :
  in_group Bvarset op = true ->
  (arg <<- operand src Bvarset op; do_varset SYMBOL_IS_KEYWORD src constants arg) (opened op (i + 1) s) =
  narg_outcome Bvarset op.
Proof.
  unfold in_group. intros [? ?]%andb_prop. unfold o_bind, narg_outcome. rewrite operand_eq.
  destruct (operand_of Bvarset op i) as [[n i'] |] eqn:Hn; [| done]. simpl.
  pose proof (operand_of_bounds _ _ _ _ _ Hn ltac:(lia) Hi) as [? _].
  rewrite do_varset_eq by lia. destruct (variable_error _ _ _ _ _ _); [done |].
  rewrite opened_plain. destruct (dropped _ _ _) eqn:Hd.
  - rewrite rewrite_opcode by (unfold is_byte, Bdiscard; lia).
    unfold after_insn, emit, simplify_insn. rewrite Hd. simpl. by rewrite app_nil_r.
  - by apply written_narg; try (unfold Bvarset in *; lia).
Qed.

Lemma varbind_case op :
  in_group Bvarbind op = true ->
  (arg <<- operand src Bvarbind op; do_varbind SYMBOL_IS_KEYWORD src constants arg) (opened op (i + 1) s) =
  narg_outcome Bvarbind op.
Proof.
  unfold in_group. intros [? ?]%andb_prop. unfold o_bind, narg_outcome. rewrite operand_eq.
  destruct (operand_of Bvarbind op i) as [[n i'] |] eqn:Hn; [| done]. simpl.
  pose proof (operand_of_bounds _ _ _ _ _ Hn ltac:(lia) Hi) as [? _].
  unfold opened. rewrite do_varbind_eq by lia. destruct (variable_error _ _ _ _ _ _); [done |].
  by apply (written_narg Bvarbind); try (unfold Bvarbind in *; lia).
Qed.

Lemma count_case base op :
  base = Bcall \/ base = Bunbind -> in_group base op = true ->
  (arg <<- operand src base op; WRITE_NARGS src base arg) (opened op (i + 1) s) =
  narg_outcome base op.
Proof.
  unfold in_group. intros Hb [? ?]%andb_prop. unfold o_bind, narg_outcome. rewrite operand_eq.
  destruct (operand_of base op i) as [[n i'] |] eqn:Hn; [| done]. simpl.
  rewrite opened_plain.
  destruct Hb as [-> | ->]; (etrans; [by apply written_narg; try (unfold Bcall, Bunbind in *; lia) | done]).
Qed.

Lemma jump_case op kind argsize arg :
  argsize = 1 /\ op = BRgoto + kind \/ argsize = 2 /\ op = Bgoto + kind -> 0 <= kind <= 4 ->
  i + argsize <= zlen src ->
  let to := i + 1 + arg in
  do_jump src op arg argsize (opened op (i + 1 + argsize) s) =
  match error_of i (i + 1 + argsize) (IJump kind to) with
  | Some e => Invalid e
  | None => Good (tt, after (IJump kind to) (i + 1 + argsize) s)
  end.
Proof.
  intros Hop Hk Hl to. unfold opened. rewrite (do_jump_eq kind) by (try done; lia).
  rewrite length_app, length_cons, length_replicate.
  replace (Z.of_nat (length (o_icounts s) + S (Z.to_nat (i + 1 + argsize - i - 1))) - argsize)
    with (i + 1) by lia.
  fold to. simpl. replace ((-1 <=? arg) && (arg <=? argsize)) with ((i <=? to) && (to <=? i + 1 + argsize))
    by (unfold to; destruct (Z.leb_spec (-1) arg), (Z.leb_spec i (i + 1 + arg)); try lia; simpl;
        destruct (Z.leb_spec arg argsize), (Z.leb_spec (i + 1 + arg) (i + 1 + argsize)); lia).
  destruct (_ && _); [done |]. unfold after_insn, emit, simplify_insn. simpl.
  replace (to - (i + 1)) with arg by lia. by rewrite Z.add_0_r.
Qed.

(** A turn of the first loop does what the decoded instruction asks for. *)
Lemma optimize_insn_eq :
  optimize_insn SYMBOL_IS_KEYWORD src constants s =
  match decode_source src i with
  | None => Bad bad_read
  | Some (ins, i') =>
      match error_of i i' ins with
      | Some e => Invalid e
      | None => Good (tt, after ins i' s)
      end
  end.
Proof.
  destruct optimize_insn_opened as (op & Hop & Hb & Hk).
  unfold optimize_insn. etrans; [apply Hk |]. cbv beta. clear Hk.
  unfold decode_source, decode. rewrite Hop. cbn [mbind option_bind]. unfold group_of.
  destruct (in_group Bvarref op) eqn:G1; [rewrite varref_case by done; unfold narg_outcome, operand_of |
  destruct (in_group Bvarset op) eqn:G2; [rewrite varset_case by done; unfold narg_outcome, operand_of |
  destruct (in_group Bvarbind op) eqn:G3; [rewrite varbind_case by done; unfold narg_outcome, operand_of |
  destruct (in_group Bcall op) eqn:G4; [rewrite count_case by tauto; unfold narg_outcome, operand_of |
  destruct (in_group Bunbind op) eqn:G5; [rewrite count_case by tauto; unfold narg_outcome, operand_of |]]]]].
  1-5: match goal with |- context [?o =? ?b + 7] =>
         destruct (o =? b + 7); [destruct (word_at _ _); reflexivity |];
         destruct (o =? b + 6); [destruct (zget _ (i + 1)); reflexivity | reflexivity]
       end.
  destruct (is_goto op) eqn:G6; [| destruct (is_rgoto op) eqn:G7; [|
    destruct (Z.eqb_spec op Bconstant2) as [-> | G8]; [| destruct (is_N op) eqn:G9; [|
    destruct (Z.ltb_spec op Bconstant) as [G10 | G10]]]]].
  - unfold o_bind. rewrite read_word_eq. destruct (word_at _ _) as [n |] eqn:Hn; [| done].
    apply source_word in Hn. unfold is_goto in G6. apply andb_prop in G6 as [? ?].
    simpl. replace (i + 3) with (i + 1 + 2) by lia.
    rewrite length_app, length_cons, length_replicate.
    rewrite (jump_case op (op - Bgoto)) by (unfold Bgoto, Bgotoifnonnilelsepop in *; lia).
    replace (i + 1 + (n - (Z.of_nat (length (o_icounts s) + S (Z.to_nat (i + 1 + 2 - i - 1))) - 2))) with n by lia.
    done.
  - unfold o_bind, READ_OPERAND_1. rewrite read_byte_eq. destruct (zget _ (i + 1)) as [n |] eqn:Hn; [| done].
    apply source_byte in Hn. unfold is_rgoto in G7. apply andb_prop in G7 as [? ?].
    simpl. replace (i + 2) with (i + 1 + 1) by lia.
    rewrite (jump_case op (op - BRgoto)) by (unfold BRgoto, BRgotoifnonnilelsepop in *; lia). done.
  - unfold o_bind. rewrite read_word_eq. destruct (word_at _ _) as [n |] eqn:Hn; [| done].
    apply source_word in Hn. simpl. rewrite opened_plain, constant_written by lia.
    destruct (zget constants n); [| done]. unfold after_insn, emit, simplify_insn. simpl. by rewrite app_nil_r.
  - unfold o_bind, READ_OPERAND_1. rewrite read_byte_eq. destruct (zget _ (i + 1)) as [n |] eqn:Hn; [| done].
    apply source_byte in Hn as [? ?]. simpl. rewrite opened_plain, write_int8 by (rewrite length_app; simpl; lia).
    unfold after_insn, emit, simplify_insn. simpl. by rewrite app_nil_r, <- app_assoc, Z.mod_small.
  - unfold o_lift. simpl. destruct (check_opcode op) as [[] | e | why] eqn:Hc; simpl; [| done |].
    + rewrite opened_plain. unfold after_insn, emit, simplify_insn. simpl. by rewrite app_nil_r.
    + unfold check_opcode in Hc. by destruct (_ || _).
  - unfold is_byte in Hb. rewrite opened_plain, constant_written by (unfold Bconstant in *; lia). simpl.
    destruct (zget constants _); [| done]. unfold after_insn, emit, simplify_insn. simpl. by rewrite app_nil_r.
Qed.
End Step.
End OneInstruction.
