(* ===== verification/Jumps.v ===== *)
(** * The jumps of an optimized program

    The first loop of [optimize_byte_code] lays the instructions out one after the
    other, with the shortest jumps it can hope for; the last one widens those that
    turn out too long.  The program is seen as a list of blocks, one for each
    instruction; widening replaces a block and shifts what lies behind it. *)

From S2P Require Import Prelude Lisp Bytecode Optimizer.
Local Open Scope bc_scope.

Lemma Forall2_impl_in {A B} (P Q : A -> B -> Prop) l k :
  Forall2 P l k -> (forall x y, x ∈ l -> P x y -> Q x y) -> Forall2 Q l k.
Proof.
  induction 1 as [| x y l k Hxy _ IH]; intros HPQ; constructor.
  - apply HPQ; [apply elem_of_cons; by left | done].
  - apply IH. intros. apply HPQ; [| done]. apply elem_of_cons. by right.
Qed.

(** ** Blocks *)

Section Blocks.
Implicit Types bs : list (list Z).

(** Where block [k] begins. *)
Definition block_off bs (k : nat) : Z := zlen (mjoin (take k bs)).

Lemma mjoin_insert_split bs k b b' :
  bs !! k = Some b ->
  mjoin (<[k := b']> bs) = mjoin (take k bs) ++ b' ++ mjoin (drop (S k) bs).
Proof.
  intros Hb. apply lookup_lt_Some in Hb.
  rewrite insert_take_drop by done. by rewrite join_app.
Qed.

Lemma mjoin_split bs k b :
  bs !! k = Some b -> mjoin bs = mjoin (take k bs) ++ b ++ mjoin (drop (S k) bs).
Proof. intros Hb. rewrite <- (mjoin_insert_split _ _ _ _ Hb). by rewrite list_insert_id. Qed.

Lemma block_off_S bs k b : bs !! k = Some b -> block_off bs (S k) = block_off bs k + zlen b.
Proof.
  intros Hb. unfold block_off. rewrite (take_S_r _ _ _ Hb), join_app, length_app. simpl.
  rewrite app_nil_r. lia.
Qed.

Lemma block_off_le bs k k' : (k <= k')%nat -> block_off bs k <= block_off bs k'.
Proof.
  intros. unfold block_off. rewrite <- (take_take_le bs k k') by done.
  rewrite <- (take_drop k (take k' bs)) at 2. rewrite join_app, length_app. lia.
Qed.

Lemma block_off_end bs : block_off bs (length bs) = zlen (mjoin bs).
Proof. unfold block_off. by rewrite take_ge. Qed.

Lemma block_off_inside bs k b : bs !! k = Some b -> block_off bs k + zlen b <= zlen (mjoin bs).
Proof.
  intros Hb. rewrite <- (block_off_S _ _ _ Hb), <- block_off_end.
  apply block_off_le. apply lookup_lt_Some in Hb. lia.
Qed.

Lemma block_off_insert_before bs k b' x : (x <= k)%nat -> block_off (<[k := b']> bs) x = block_off bs x.
Proof. intros. unfold block_off. by rewrite take_insert_ge. Qed.

Lemma block_off_insert_after bs k b b' x :
  bs !! k = Some b -> (k < x)%nat ->
  block_off (<[k := b']> bs) x = block_off bs x + (zlen b' - zlen b).
Proof.
  intros Hb Hx. unfold block_off. rewrite take_insert_lt by lia.
  assert (take x bs !! k = Some b) as Hb' by by rewrite lookup_take_lt.
  rewrite (mjoin_insert_split _ _ _ b' Hb'), (mjoin_split _ _ _ Hb'). rewrite !length_app. lia.
Qed.

Lemma block_off_same_length bs k b b' x :
  bs !! k = Some b -> length b' = length b -> block_off (<[k := b']> bs) x = block_off bs x.
Proof.
  intros Hb Hl. destruct (decide (x <= k)%nat).
  - by apply block_off_insert_before.
  - rewrite (block_off_insert_after _ _ _ _ _ Hb) by lia. lia.
Qed.

Lemma block_read bs k b x :
  bs !! k = Some b -> 0 <= x < zlen b -> zget (mjoin bs) (block_off bs k + x) = zget b x.
Proof.
  intros Hb Hx. rewrite (mjoin_split _ _ _ Hb), zget_app. unfold block_off.
  destruct (Z.ltb_spec (zlen (mjoin (take k bs)) + x) (zlen (mjoin (take k bs)))); [lia |].
  rewrite zget_app. replace (_ + x - _) with x by lia.
  destruct (Z.ltb_spec x (zlen b)); [done | lia].
Qed.

(** Writing over a part of a block. *)
Lemma mem_write_middle (a old new c : list Z) :
  length old = length new -> mem_write (a ++ old ++ c) (zlen a) new = Some (a ++ new ++ c).
Proof.
  intros Hl. rewrite mem_write_Some by (rewrite ?length_app; lia). do 2 f_equal.
  - rewrite take_app_exact; [done | lia].
  - f_equal. rewrite app_assoc. apply drop_app_exact. rewrite length_app. lia.
Qed.

Lemma block_write bs k b1 old b2 new :
  bs !! k = Some (b1 ++ old ++ b2) -> length old = length new ->
  mem_write (mjoin bs) (block_off bs k + zlen b1) new = Some (mjoin (<[k := b1 ++ new ++ b2]> bs)).
Proof.
  intros Hb Hl. rewrite (mjoin_insert_split _ _ _ _ Hb), (mjoin_split _ _ _ Hb).
  rewrite <- !app_assoc. unfold block_off.
  replace (zlen (mjoin (take k bs)) + zlen b1) with (zlen (mjoin (take k bs) ++ b1))
    by (rewrite length_app; lia).
  rewrite (app_assoc _ b1), mem_write_middle by done. by rewrite <- !app_assoc.
Qed.
End Blocks.

(** ** The layout of a program *)

(** An instruction with the offsets in the byte string where it begins and ends. *)
Abbreviation located := (Z * insn * Z)%type.

Section Layout.
Variable SYMBOL_IS_KEYWORD : Lisp_Object -> bool.
Variable src : list Z.
Variable constants : list Lisp_Object.
Implicit Types (bs : list (list Z)) (L : list located).

Definition first_block (x : located) : list Z :=
  let '(i, ins, _) := x in emit SYMBOL_IS_KEYWORD constants i ins.

(** The jumps among the instructions: the number of the instruction, and the
    offset in the byte string it jumps to. *)
Fixpoint jumps_from (n : nat) L : list (nat * Z) :=
  match L with
  | [] => []
  | (_, IJump _ to, _) :: L => (n, to) :: jumps_from (S n) L
  | _ :: L => jumps_from (S n) L
  end.

(** The block of an instruction: a jump of either width, or the first encoding. *)
Definition block_of (x : located) (b : list Z) : Prop :=
  match x with
  | (_, IJump kind _, _) =>
      0 <= kind <= 4 /\ ((exists d, b = [BRgoto + kind; d]) \/ (exists d e, b = [Bgoto + kind; d; e]))
  | _ => b = first_block x
  end.

Record layout L bs (js : list jump) : Prop := {
  lay_blocks : Forall2 block_of L bs;
  lay_from : Forall2 (fun p j => j_from j = block_off bs p.1 + 1) (jumps_from 0 L) js;
}.

(** The table holds the places of the instructions that are jumped to. *)
Definition targets L bs (js : list jump) : Prop :=
  Forall2 (fun p j => exists t x, L !! t = Some x /\ x.1.1 = p.2 /\ j_to j = block_off bs t)
    (jumps_from 0 L) js.

(** A jump block whose operand is the distance [d]. *)
Definition exact_jump (kind d : Z) (b : list Z) : Prop :=
  (b = [BRgoto + kind; d mod 256] /\ SCHAR_MIN < d <= SCHAR_MAX) \/ b = Bgoto + kind :: int16_bytes d.

Lemma jumps_from_lookup n L k to :
  (k, to) ∈ jumps_from n L <->
  exists i kind i' m, k = (n + m)%nat /\ L !! m = Some (i, IJump kind to, i').
Proof.
  revert n. induction L as [| [[i ins] i'] L IH]; intros n; simpl.
  { split; [by intros ?%not_elem_of_nil | by intros (? & ? & ? & ? & ? & ?)]. }
  assert ((k, to) ∈ jumps_from (S n) L <->
          exists i1 kind i1' m, k = (n + S m)%nat /\ L !! m = Some (i1, IJump kind to, i1')) as IH'.
  { rewrite IH. split; intros (? & ? & ? & m & ? & ?); do 3 eexists; exists m; split; eauto; lia. }
  destruct ins; rewrite ?elem_of_cons, IH'; clear IH IH'.
  2: { split.
    - intros [[= -> ->] | (i1 & kd & i1' & m & ? & ?)].
      + exists i, kind, i', 0%nat. split; [lia | done].
      + by exists i1, kd, i1', (S m).
    - intros (i1 & kd & i1' & [| m] & ? & Hm); [left; injection Hm as -> -> -> ->; f_equal; lia |].
      right. by exists i1, kd, i1', m. }
  all: split; [intros (i1 & kd & i1' & m & ? & ?); by exists i1, kd, i1', (S m) |];
    intros (i1 & kd & i1' & [| m] & ? & Hm); [done | by exists i1, kd, i1', m].
Qed.

Lemma jumps_from_lower n L k to : (k, to) ∈ jumps_from n L -> (n <= k)%nat.
Proof. rewrite jumps_from_lookup. intros (? & ? & ? & ? & -> & _). lia. Qed.

Lemma jumps_from_NoDup n L : NoDup (jumps_from n L).*1.
Proof.
  revert n. induction L as [| [[i ins] i'] L IH]; intros n; simpl; [constructor |].
  destruct ins; try apply IH. simpl. constructor; [| apply IH].
  rewrite list_elem_of_fmap. intros ([k to'] & -> & Hk%jumps_from_lower). simpl in Hk. lia.
Qed.

(** The [m]th jump and its block. *)
Lemma layout_jump L bs js m k to :
  layout L bs js -> jumps_from 0 L !! m = Some (k, to) ->
  exists i kind i' b j, L !! k = Some (i, IJump kind to, i') /\ bs !! k = Some b /\
    js !! m = Some j /\ j_from j = block_off bs k + 1 /\ 0 <= kind <= 4 /\
    ((exists d, b = [BRgoto + kind; d]) \/ (exists d e, b = [Bgoto + kind; d; e])).
Proof.
  intros [Hb Hf] Hm. pose proof (list_elem_of_lookup_2 _ _ _ Hm) as Hin.
  apply jumps_from_lookup in Hin as (i & kind & i' & m' & -> & HL).
  destruct (Forall2_lookup_l _ _ _ _ _ Hb HL) as (b & Hbk & ? & ?).
  destruct (Forall2_lookup_l _ _ _ _ _ Hf Hm) as (j & Hj & ?).
  exists i, kind, i', b, j. done.
Qed.

Lemma jump_opcode_goto kind : 0 <= kind <= 4 -> is_goto (Bgoto + kind) = true.
Proof. unfold is_goto, Bgoto, Bgotoifnonnilelsepop. intros. zcase. Qed.

Lemma jump_opcode_rgoto kind :
  0 <= kind <= 4 -> is_goto (BRgoto + kind) = false /\ is_rgoto (BRgoto + kind) = true.
Proof.
  unfold is_goto, is_rgoto, Bgoto, BRgoto, BRgotoifnonnilelsepop, Bgotoifnonnilelsepop. intros. split; zcase.
Qed.

Lemma layout_insert_same L bs js k b b' :
  layout L bs js -> bs !! k = Some b -> length b' = length b ->
  (forall x, L !! k = Some x -> block_of x b') -> layout L (<[k := b']> bs) js.
Proof.
  intros [Hb Hf] Hk Hl Hx. split.
  - apply Forall2_same_length_lookup_2; [rewrite length_insert; by eapply Forall2_length |].
    intros n x c HLn Hc. destruct (decide (n = k)) as [-> |].
    + rewrite list_lookup_insert_eq in Hc by (by eapply lookup_lt_Some). injection Hc as <-. auto.
    + rewrite list_lookup_insert_ne in Hc by done. by eapply Forall2_lookup_lr.
  - eapply Forall2_impl; [done |]. intros p j Hj. by rewrite (block_off_same_length _ _ b).
Qed.

(** Widening block [k] shifts the table as it shifts the program. *)
Lemma shift_past_block bs k b b' x y :
  bs !! k = Some b -> length b = 2%nat -> length b' = 3%nat -> 0 <= y <= 1 ->
  (y = 1 -> exists c, bs !! x = Some c /\ 2 <= zlen c) ->
  shift_past (block_off bs k + 1) (block_off bs x + y) = block_off (<[k := b']> bs) x + y.
Proof.
  intros Hb Hl Hl' Hy Hc. unfold shift_past. rewrite Z.gtb_ltb.
  destruct (decide (x <= k)%nat) as [Hx | Hx].
  - rewrite block_off_insert_before by done. pose proof (block_off_le bs _ _ Hx).
    destruct (Z.ltb_spec (block_off bs k + 1) (block_off bs x + y)); [lia | done].
  - rewrite (block_off_insert_after _ _ _ _ _ Hb) by lia. rewrite Hl, Hl'.
    pose proof (block_off_le bs (S k) x ltac:(lia)) as Hle. rewrite (block_off_S _ _ _ Hb), Hl in Hle.
    destruct (Z.ltb_spec (block_off bs k + 1) (block_off bs x + y)); lia.
Qed.

Lemma block_of_jump_length x b :
  block_of x b -> (exists i kind to i', x = (i, IJump kind to, i')) -> 2 <= zlen b.
Proof. intros Hx (? & ? & ? & ? & ->). destruct Hx as [_ [(? & ->) | (? & ? & ->)]]; simpl; lia. Qed.

Lemma layout_widen L bs js k b b' :
  layout L bs js -> bs !! k = Some b -> length b = 2%nat -> length b' = 3%nat ->
  (forall x, L !! k = Some x -> block_of x b') ->
  layout L (<[k := b']> bs) (map (shift_jump (block_off bs k + 1)) js).
Proof.
  intros [Hb Hf] Hk Hl Hl' Hx. split.
  - apply Forall2_same_length_lookup_2; [rewrite length_insert; by eapply Forall2_length |].
    intros n x c HLn Hc. destruct (decide (n = k)) as [-> |].
    + rewrite list_lookup_insert_eq in Hc by (by eapply lookup_lt_Some). injection Hc as <-. auto.
    + rewrite list_lookup_insert_ne in Hc by done. by eapply Forall2_lookup_lr.
  - apply Forall2_fmap_r. eapply Forall2_impl_in; [done |]. intros [n to] j Hin Hj. simpl in *.
    rewrite Hj. apply (shift_past_block bs k b b' n 1); try done. intros _.
    apply jumps_from_lookup in Hin as (i & kind & i' & m & -> & HL).
    destruct (Forall2_lookup_l _ _ _ _ _ Hb HL) as (c & Hc & Hbc). exists c. split; [done |].
    eapply block_of_jump_length; [done |]. by do 4 eexists.
Qed.

Lemma targets_same L bs js k b b' :
  targets L bs js -> bs !! k = Some b -> length b' = length b -> targets L (<[k := b']> bs) js.
Proof.
  intros Ht Hk Hl. eapply Forall2_impl; [done |]. intros p j (t & x & ? & ? & ?). exists t, x.
  by rewrite (block_off_same_length _ _ b).
Qed.

Lemma targets_widen L bs js k b b' :
  targets L bs js -> bs !! k = Some b -> length b = 2%nat -> length b' = 3%nat ->
  targets L (<[k := b']> bs) (map (shift_jump (block_off bs k + 1)) js).
Proof.
  intros Ht Hk Hl Hl'. apply Forall2_fmap_r. eapply Forall2_impl; [done |].
  intros p j (t & x & ? & ? & Hj). exists t, x. split_and!; [done | done |]. simpl. rewrite Hj.
  pose proof (shift_past_block bs k b b' t 0 Hk Hl Hl' ltac:(lia) ltac:(done)) as E.
  by rewrite !Z.add_0_r in E.
Qed.

(** ** How long the program can get *)

Definition full_length (x : located) : Z :=
  match x with (_, IJump _ _, _) => 3 | _ => zlen (first_block x) end.

Fixpoint total_length L : Z :=
  match L with [] => 0 | x :: L => full_length x + total_length L end.

Lemma block_of_full x b : block_of x b -> zlen b <= full_length x.
Proof.
  destruct x as [[i []] i']; simpl; try by intros ->.
  intros [_ [(? & ->) | (? & ? & ->)]]; simpl; lia.
Qed.

Lemma blocks_total L bs : Forall2 block_of L bs -> zlen (mjoin bs) <= total_length L.
Proof.
  induction 1 as [| x b L bs Hx _ IH]; [done |]. apply block_of_full in Hx.
  simpl. rewrite length_app. lia.
Qed.

(** A short jump leaves room for one more byte. *)
Lemma blocks_total_short L bs k x b :
  Forall2 block_of L bs -> L !! k = Some x -> bs !! k = Some b -> zlen b < full_length x ->
  zlen (mjoin bs) < total_length L.
Proof.
  intros Hb. revert k. induction Hb as [| y c L bs Hy HL IH]; intros [| k] Hx Hk Hl; try done; simpl in *.
  - injection Hx as ->. injection Hk as ->. apply blocks_total in HL. rewrite length_app. lia.
  - specialize (IH k Hx Hk Hl). apply block_of_full in Hy. rewrite length_app. lia.
Qed.

(** As many bytes may be added as there are jumps. *)
Lemma blocks_total_jumps n L bs :
  Forall2 block_of L bs -> total_length L <= zlen (mjoin bs) + zlen (jumps_from n L).
Proof.
  intros Hb. revert n. induction Hb as [| x b L bs Hx _ IH]; intros n; [done |].
  pose proof (IH n). specialize (IH (S n)). simpl. rewrite length_app.
  destruct x as [[i []] i']; simpl in *; try (subst b; simpl; lia).
  destruct Hx as [_ [(? & ->) | (? & ? & ->)]]; simpl; lia.
Qed.
End Layout.

(** ** Adjusting one jump *)

Definition valid_opcode_at (program : list Z) (x : Z) : Prop :=
  exists op, zget program x = Some op /\ check_opcode op = Good tt.

Lemma check_opcode_cases op :
  check_opcode op = Good tt \/ check_opcode op = Invalid (invalid_opcode op).
Proof. unfold check_opcode. destruct (_ || _); auto. Qed.

Definition valid_opcode_atb (program : list Z) (x : Z) : bool :=
  match zget program x with
  | Some op => match check_opcode op with Good _ => true | _ => false end
  | None => false
  end.

#[export] Instance valid_opcode_at_dec program x : Decision (valid_opcode_at program x).
Proof.
  refine (cast_if (decide (valid_opcode_atb program x = true)));
    unfold valid_opcode_at, valid_opcode_atb in *; destruct (zget program x) as [op |].
  - exists op. split; [done |]. by destruct (check_opcode_cases op) as [H | H]; rewrite H in *.
  - done.
  - intros (? & [= <-] & Hc). by rewrite Hc in *.
  - by intros (? & ? & ?).
Defined.

(** The target of a jump is not an instruction. *)
Definition bad_target {A} (program : list Z) (to : Z) (r : bc_result A) : Prop :=
  ~ valid_opcode_at program to /\ ((exists e, r = Invalid e) \/ r = Bad bad_read).

(** Doubling the byte after the opcode of a block of two bytes. *)
Lemma block_double bs k op x :
  bs !! k = Some [op; x] ->
  let from := block_off bs k + 1 in
  mem_read (mjoin bs) from (zlen (mjoin bs) - from) = Some (zdrop from (mjoin bs)) /\
  ztake (from + 1) (mjoin bs) ++ zdrop from (mjoin bs) = mjoin (<[k := [op; x; x]]> bs).
Proof.
  intros Hk from. pose proof (block_off_inside _ _ _ Hk) as Hin. simpl in Hin.
  assert (0 <= block_off bs k) by (unfold block_off; lia). split.
  - unfold mem_read. zcase. f_equal. apply take_ge. rewrite length_drop. lia.
  - rewrite (mjoin_insert_split _ _ _ [op; x; x] Hk), (mjoin_split _ _ _ Hk). unfold from, block_off.
    set (a := mjoin (take k bs)). set (c := mjoin (drop (S k) bs)).
    assert (zdrop (zlen a + 1) (a ++ [op; x] ++ c) = x :: c) as ->.
    { change (a ++ [op; x] ++ c) with (a ++ [op] ++ x :: c).
      rewrite (app_assoc a [op]). apply drop_app_exact. rewrite length_app. simpl. lia. }
    assert (ztake (zlen a + 1 + 1) (a ++ [op; x] ++ c) = a ++ [op; x]) as ->.
    { rewrite (app_assoc a [op; x]). apply take_app_exact. rewrite length_app. simpl. lia. }
    by rewrite <- app_assoc.
Qed.

Lemma int16_bytes_length d : length (int16_bytes d) = 2%nat.
Proof. done. Qed.

Section Fixup.
Variable SYMBOL_IS_KEYWORD : Lisp_Object -> bool.
Variable src : list Z.
Variable constants : list Lisp_Object.
Variable L : list located.
Abbreviation layout := (layout SYMBOL_IS_KEYWORD constants L).
Abbreviation block_of := (block_of SYMBOL_IS_KEYWORD constants).
Hypothesis Hroom : total_length SYMBOL_IS_KEYWORD constants L <= program_size src.

(** What adjusting the jump [j] of block [k] may come to. *)
Definition adjusted (k : nat) (bs : list (list Z)) (js : list jump) (more : bool) (j : jump)
    (r : bc_result fix_state) : Prop :=
  (more = false /\ bad_target (mjoin bs) (j_to j) r) \/
  exists i kind to i' b b', L !! k = Some (i, IJump kind to, i') /\ bs !! k = Some b /\
    block_of (i, IJump kind to, i') b' /\
    ((length b' = length b /\ exact_jump kind (j_to j - j_from j) b' /\
      r = Good (mjoin (<[k := b']> bs), js, more)) \/
     (length b = 2%nat /\ length b' = 3%nat /\
      r = Good (mjoin (<[k := b']> bs), map (shift_jump (block_off bs k + 1)) js, true))).

Lemma fixup_jump_adjusts bs js more m k to j :
  layout bs js -> jumps_from 0 L !! m = Some (k, to) -> js !! m = Some j ->
  adjusted k bs js more j (fixup_jump src j (mjoin bs, js, more)).
Proof.
  intros Hlay Hm Hj. destruct (layout_jump _ _ _ _ _ _ _ _ Hlay Hm)
    as (i & kind & i' & b & j' & HL & Hb & Hj' & Hfrom & Hkind & Hblock).
  rewrite Hj in Hj'. injection Hj' as <-.
  assert (0 <= block_off bs k) as Hoff by (unfold block_off; lia).
  assert (exists op, zget (mjoin bs) (j_from j - 1) = Some op /\ b !! 0%nat = Some op) as (op & Hop & Hop').
  { replace (j_from j - 1) with (block_off bs k + 0) by lia.
    destruct Hblock as [(d & ->) | (d & e & ->)]; (rewrite (block_read _ _ _ _ Hb) by (simpl; lia)); eauto. }
  unfold fixup_jump. rewrite Hop. simpl. replace (j_from j + (j_to j - j_from j)) with (j_to j) by lia.
  set (d := j_to j - j_from j).
  assert ((more = false /\ ~ valid_opcode_at (mjoin bs) (j_to j)) \/
          (more = true \/ valid_opcode_at (mjoin bs) (j_to j))) as [[-> Hbad] | Hgood].
  { destruct more, (decide (valid_opcode_at (mjoin bs) (j_to j))); auto. }
  { left. split; [done |]. split; [done |]. destruct (zget (mjoin bs) (j_to j)) as [op1 |] eqn:E; [| by right].
    left. simpl. destruct (check_opcode_cases op1) as [Hc | ->]; [| by eexists].
    destruct Hbad. by exists op1. }
  assert ((if more then Good tt
           else let* op0 := access bad_read (zget (mjoin bs) (j_to j)) in check_opcode op0) = Good tt) as ->.
  { destruct Hgood as [-> | (op1 & -> & ?)]; [done |]. by destruct more. }
  right. simpl. destruct (jump_opcode_rgoto _ Hkind) as [Hr1 Hr2].
  destruct Hblock as [(x & ->) | (x & y & ->)]; simpl in Hop'; injection Hop' as <-.
  - rewrite Hr1, Hr2. destruct ((d >? SCHAR_MIN) && (d <=? SCHAR_MAX)) eqn:Hfit.
    + pose proof (block_write _ _ [BRgoto + kind] [x] [] [d mod 256] Hb eq_refl) as W.
      replace (block_off bs k + zlen [BRgoto + kind]) with (j_from j) in W by (simpl; lia). rewrite W. simpl.
      rewrite Z.gtb_ltb in Hfit. apply andb_prop in Hfit as [? ?].
      eexists i, kind, to, i', _, [BRgoto + kind; d mod 256]. split; [done |]. split; [done |]. split; [split; [done | left; by eexists] |].
      left. split; [done |]. split; [| done]. left. split; [done | lia].
    + replace (j_from j - 1) with (block_off bs k + zlen (@nil Z)) by (simpl; lia).
      replace ((BRgoto + kind + Bgoto - BRgoto) mod 256) with (Bgoto + kind)
        by (unfold Bgoto, BRgoto; rewrite Z.mod_small; lia).
      rewrite (block_write _ _ [] [BRgoto + kind] [x] [Bgoto + kind] Hb) by done. simpl.
      set (bs1 := <[k := [Bgoto + kind; x]]> bs).
      assert (bs1 !! k = Some [Bgoto + kind; x]) as Hb1
        by (apply list_lookup_insert_eq; by eapply lookup_lt_Some).
      assert (j_from j = block_off bs1 k + 1) as Hfrom1 by (unfold bs1; rewrite block_off_insert_before by done; done).
      destruct (block_double _ _ _ _ Hb1) as [Hread Hdouble]. rewrite Hfrom1, Hread. simpl.
      assert (zlen (mjoin bs1) < program_size src) as ->%Z.ltb_lt.
      { eapply Z.lt_le_trans; [| exact Hroom]. unfold bs1.
        rewrite <- block_off_end, length_insert, (block_off_same_length _ _ _ _ _ Hb), block_off_end by done.
        eapply (blocks_total_short _ _ _ _ k); [apply Hlay | done | done | done]. }
      rewrite Hdouble. set (bs2 := <[k := [Bgoto + kind; x; x]]> bs1).
      assert (bs2 !! k = Some ([Bgoto + kind] ++ [x; x] ++ [])) as Hb2.
      { apply list_lookup_insert_eq. unfold bs1. rewrite length_insert. by eapply lookup_lt_Some. }
      assert (block_off bs1 k = block_off bs2 k) as -> by (unfold bs2; by rewrite block_off_insert_before).
      pose proof (block_write _ _ [Bgoto + kind] [x; x] [] (int16_bytes d) Hb2 eq_refl) as W.
      change (zlen [Bgoto + kind]) with 1 in W. rewrite W. simpl.
      unfold bs2, bs1. rewrite !list_insert_insert_eq.
      eexists i, kind, to, i', _, (Bgoto + kind :: int16_bytes d).
      split; [done |]. split; [done |]. split; [split; [done | right; by do 2 eexists] |].
      right. split; [done |]. split; [done |]. simpl. do 2 f_equal. f_equal. f_equal.
      rewrite block_off_insert_before by done. done.
  - rewrite jump_opcode_goto by done.
    pose proof (block_write _ _ [Bgoto + kind] [x; y] [] (int16_bytes d) Hb eq_refl) as W.
    replace (block_off bs k + zlen [Bgoto + kind]) with (j_from j) in W by (simpl; lia). rewrite W. simpl.
    eexists i, kind, to, i', _, (Bgoto + kind :: int16_bytes d).
    split; [done |]. split; [done |]. split; [split; [done | right; by do 2 eexists] |].
    left. split; [done |]. split; [by right | done].
Qed.

(** ** A pass over the table, and all passes *)

(** Every block begins with a valid opcode. *)
Hypothesis Hvalid : forall k x b, L !! k = Some x -> block_of x b ->
  exists op rest, b = op :: rest /\ check_opcode op = Good tt.

Lemma targets_valid bs js m j :
  layout bs js -> targets L bs js -> js !! m = Some j -> valid_opcode_at (mjoin bs) (j_to j).
Proof.
  intros Hlay Ht Hj. destruct (Forall2_lookup_r _ _ _ _ _ Ht Hj) as (p & _ & t & x & HL & _ & ->).
  destruct (Forall2_lookup_l _ _ _ _ _ (lay_blocks _ _ _ _ _ Hlay) HL) as (b & Hb & Hx).
  destruct (Hvalid _ _ _ HL Hx) as (op & rest & -> & Hop). exists op. split; [| done].
  rewrite <- (Z.add_0_r (block_off bs t)). by rewrite (block_read _ _ _ _ Hb) by (simpl; lia).
Qed.

(** The first [m] jumps of the table are in the program as they should be. *)
Definition exact_upto (m : nat) (bs : list (list Z)) (js : list jump) : Prop :=
  forall m' k to j, (m' < m)%nat -> jumps_from 0 L !! m' = Some (k, to) -> js !! m' = Some j ->
  exists i kind i' b, L !! k = Some (i, IJump kind to, i') /\ bs !! k = Some b /\
    exact_jump kind (j_to j - j_from j) b.

Lemma exact_upto_insert m bs js k to i kind i' b j :
  exact_upto m bs js -> jumps_from 0 L !! m = Some (k, to) -> js !! m = Some j ->
  L !! k = Some (i, IJump kind to, i') -> (k < length bs)%nat ->
  exact_jump kind (j_to j - j_from j) b -> exact_upto (S m) (<[k := b]> bs) js.
Proof.
  intros He Hm Hj HL Hk Hb m' k1 to1 j1 Hm' Hm1 Hj1.
  destruct (decide (m' = m)) as [-> |].
  - rewrite Hm in Hm1. injection Hm1 as <- <-. rewrite Hj in Hj1. injection Hj1 as <-.
    exists i, kind, i', b. by rewrite list_lookup_insert_eq.
  - destruct (He m' k1 to1 j1 ltac:(lia) Hm1 Hj1) as (i1 & kind1 & i1' & b1 & ? & ? & ?).
    exists i1, kind1, i1', b1. rewrite list_lookup_insert_ne; [done |]. intros <-.
    assert (m' = m); [| done].
    eapply (NoDup_lookup (jumps_from 0 L).*1 m' m k); [apply jumps_from_NoDup | |];
      rewrite list_lookup_fmap, ?Hm1, ?Hm; done.
Qed.

Definition pass_done (bs : list (list Z)) (js : list jump) (more : bool) (r : bc_result fix_state) : Prop :=
  match r with
  | Good (program', js', more') => exists bs', program' = mjoin bs' /\ layout bs' js' /\
      (targets L bs js -> targets L bs' js') /\ zlen (mjoin bs) <= zlen (mjoin bs') /\
      (if more' then more = true \/ zlen (mjoin bs) < zlen (mjoin bs')
       else more = false /\ exact_upto (length js') bs' js')
  | Invalid _ | Bad bad_read => ~ targets L bs js
  | Bad _ => False
  end.

Lemma fixup_pass_done k bs js more :
  layout bs js -> (k <= length js)%nat -> (more = false -> exact_upto (length js - k) bs js) ->
  pass_done bs js more (fixup_pass src k (mjoin bs, js, more)).
Proof.
  revert bs js more. induction k as [| k IH]; intros bs js more Hlay Hk He.
  { simpl. exists bs. rewrite Nat.sub_0_r in He. destruct more; split_and!; auto; lia. }
  cbn [fixup_pass]. set (m := (length js - S k)%nat) in *.
  destruct (lookup_lt_is_Some_2 js m ltac:(lia)) as [j Hj]. rewrite Hj. cbn [access bc_bind].
  destruct (Forall2_lookup_r _ _ _ _ _ (lay_from _ _ _ _ _ Hlay) Hj) as ([n to] & Hm & _).
  destruct (fixup_jump_adjusts _ _ more _ _ _ _ Hlay Hm Hj) as
    [(-> & Hbad & Hr) | (i & kind & to' & i' & b & b' & HL & Hb & Hb' & Hr)].
  { assert (~ targets L bs js) as Ht by (intros Ht; apply Hbad; by eapply targets_valid).
    by destruct Hr as [[e ->] | ->]. }
  assert (forall x, L !! n = Some x -> block_of x b') as Hx by (intros x Hx; rewrite HL in Hx; by injection Hx as <-).
  assert (to' = to) as ->.
  { pose proof (list_elem_of_lookup_2 _ _ _ Hm) as Hin. apply jumps_from_lookup in Hin as (? & ? & ? & ? & -> & Hin).
    simpl in HL. rewrite HL in Hin. by injection Hin. }
  destruct Hr as [(Hl & Hex & ->) | (Hl & Hl' & ->)]; simpl bc_bind.
  - specialize (IH (<[n := b']> bs) js more (layout_insert_same _ _ _ _ _ _ _ _ Hlay Hb Hl Hx) ltac:(lia)).
    assert (zlen (mjoin (<[n := b']> bs)) = zlen (mjoin bs)) as Hz.
    { by rewrite <- !block_off_end, length_insert, (block_off_same_length _ _ _ _ _ Hb Hl). }
    assert (more = false -> exact_upto (length js - k) (<[n := b']> bs) js) as He'.
    { intros E. replace (length js - k)%nat with (S m) by lia.
      eapply exact_upto_insert; eauto. by eapply lookup_lt_Some. }
    specialize (IH He'). unfold pass_done in *. rewrite Hz in IH.
    pose proof (fun Ht => targets_same L bs js n b b' Ht Hb Hl) as Ht.
    destruct (fixup_pass _ _ _) as [[[program' js'] more'] | e | []]; try tauto.
    destruct IH as (bs' & ? & ? & ? & ? & ?). exists bs'. tauto.
  - specialize (IH (<[n := b']> bs) (map (shift_jump (block_off bs n + 1)) js) true
                  (layout_widen _ _ _ _ _ _ _ _ Hlay Hb Hl Hl' Hx)).
    rewrite length_map in IH. specialize (IH ltac:(lia) ltac:(done)).
    assert (zlen (mjoin (<[n := b']> bs)) = zlen (mjoin bs) + 1) as Hz.
    { rewrite <- !block_off_end, length_insert, (block_off_insert_after _ _ _ b' _ Hb)
        by (by eapply lookup_lt_Some). lia. }
    unfold pass_done in *. rewrite Hz in IH.
    pose proof (fun Ht => targets_widen L bs js n b b' Ht Hb Hl Hl') as Ht.
    destruct (fixup_pass _ _ _) as [[[program' js'] more'] | e | []]; try tauto.
    destruct IH as (bs' & ? & ? & ? & ? & Hm'). exists bs'. split_and!; try tauto; [lia |].
    destruct more'; [right; lia | by destruct Hm'].
Qed.

(** The loop ends, as each further turn makes the program longer. *)
Definition passes_done (bs : list (list Z)) (js : list jump) (r : bc_result (list Z)) : Prop :=
  match r with
  | Good program' => exists bs' js', program' = mjoin bs' /\ layout bs' js' /\
      (targets L bs js -> targets L bs' js') /\ exact_upto (length js') bs' js'
  | Invalid _ | Bad bad_read => ~ targets L bs js
  | Bad _ => False
  end.

Lemma fixup_jumps_done fuel bs js :
  layout bs js -> total_length SYMBOL_IS_KEYWORD constants L - zlen (mjoin bs) < Z.of_nat fuel ->
  passes_done bs js (fixup_jumps src fuel (mjoin bs) js).
Proof.
  revert bs js. induction fuel as [| fuel IH]; intros bs js Hlay Hfuel.
  { pose proof (blocks_total _ _ _ _ (lay_blocks _ _ _ _ _ Hlay)). lia. }
  cbn [fixup_jumps].
  pose proof (fixup_pass_done (length js) bs js false Hlay ltac:(lia)) as Hpass.
  assert (exact_upto (length js - length js) bs js) as He by (intros ? ? ? ? ?; lia).
  specialize (Hpass (fun _ => He)). unfold pass_done in Hpass.
  destruct (fixup_pass _ _ _) as [[[program' js'] more'] | e | []]; simpl; try tauto.
  destruct Hpass as (bs' & -> & Hlay' & Ht & Hz & Hmore). destruct more'.
  - destruct Hmore as [| Hlt]; [done |]. specialize (IH bs' js' Hlay' ltac:(lia)). unfold passes_done in *.
    destruct (fixup_jumps _ _ _ _) as [program'' | e | []]; try tauto.
    destruct IH as (bs'' & js'' & ? & ? & ? & ?). exists bs'', js''. tauto.
  - exists bs', js'. tauto.
Qed.
End Fixup.
