(* ===== verification/Optimized.v ===== *)
(** * What the optimizer of byte code guarantees

    For a well-formed byte string the program reads as the same instructions, with
    jumps to the same instructions; for any string at all the optimizer ends and
    stays within the space it was given. *)

From S2P Require Import Prelude Lisp Bytecode Optimizer Jumps.
Local Open Scope bc_scope.

(** ** Well-formed instructions *)

(** What decoding can yield. *)
Definition proper_insn (ins : insn) : Prop :=
  match ins with
  | INarg base n => (base = 8 \/ base = 16 \/ base = 24 \/ base = 32 \/ base = 40) /\ 0 <= n < 65536
  | IJump kind _ => 0 <= kind <= 4
  | IConst n => 0 <= n < 65536
  | ICount op n => is_N op = true /\ is_byte n
  | IOp op => group_of op = None /\ is_goto op = false /\ is_rgoto op = false /\ op <> Bconstant2 /\
      is_N op = false /\ op < Bconstant
  end.

(** How long an instruction is in the byte string, by what it says. *)
Definition source_length (ins : insn) (len : Z) : Prop :=
  match ins with
  | INarg _ n => len = 1 /\ n <= 5 \/ len = 2 /\ n <= 255 \/ len = 3
  | IJump _ _ => len = 2 \/ len = 3
  | IConst n => len = 1 /\ n <= 63 \/ len = 3
  | ICount _ _ => len = 2
  | IOp _ => len = 1
  end.

Section Source.
Variable SYMBOL_IS_KEYWORD : Lisp_Object -> bool.
Variable src : list Z.
Variable constants : list Lisp_Object.
Implicit Types L : list located.

(** The instructions from [i] on, each without an error, up to [e]. *)
Fixpoint chain (i : Z) L (e : Z) : Prop :=
  match L with
  | [] => i = e
  | (a, ins, i') :: L =>
      a = i /\ 0 <= i < zlen src /\ decode_source src i = Some (ins, i') /\
      insn_error SYMBOL_IS_KEYWORD constants i i' ins = None /\ chain i' L e
  end.

Fixpoint after_all L (s : opt_state) : opt_state :=
  match L with
  | [] => s
  | (_, ins, i') :: L => after_all L (after_insn SYMBOL_IS_KEYWORD constants ins i' s)
  end.

Fixpoint icounts_of (off : Z) L : list Z :=
  match L with
  | [] => []
  | (i, ins, i') :: L =>
      (off :: replicate (Z.to_nat (i' - i - 1)) (off + 1)) ++
      icounts_of (off + zlen (emit SYMBOL_IS_KEYWORD constants i ins)) L
  end.

Definition entries L : list jump := mjoin ((fun x => jump_entry x.1.1 x.1.2) <$> L).

Definition bindings L : Z := foldr (fun x n => binds x.1.2 + n) 0 L.

Abbreviation emit' := (emit SYMBOL_IS_KEYWORD constants).
Abbreviation blocks L := (first_block SYMBOL_IS_KEYWORD constants <$> L).

Lemma after_all_eq L s e :
  chain (o_ptr s) L e ->
  after_all L s =
  mk_opt e (o_program s ++ mjoin (blocks L)) (o_icounts s ++ icounts_of (zlen (o_program s)) L)
    (o_jumps s ++ entries L) (o_varbinds s + bindings L).
Proof.
  revert s. induction L as [| [[a ins] i'] L IH]; intros s; simpl.
  { intros <-. unfold entries, bindings. simpl. rewrite !app_nil_r, Z.add_0_r. by destruct s. }
  intros (-> & _ & _ & _ & HL). rewrite (IH (after_insn _ _ _ _ _)) by done. simpl.
  unfold entries, bindings. simpl. rewrite <- !app_assoc, length_app.
  f_equal; [| lia]. do 2 f_equal. simpl. repeat f_equal. lia.
Qed.

Hypothesis Hbytes : Forall is_byte src.

Lemma decode_source_spec i ins i' :
  decode_source src i = Some (ins, i') -> 0 <= i < zlen src ->
  i' <= zlen src + 1 /\ proper_insn ins /\ source_length ins (i' - i).
Proof.
  unfold decode_source, decode. intros (op & Hop & H)%bind_Some Hi.
  pose proof (source_byte _ Hbytes _ _ Hop) as [Hb _]. unfold is_byte in Hb.
  destruct (group_of op) as [base |] eqn:Hg.
  - apply group_of_range in Hg.
    destruct (op =? base + 7) eqn:E7; [| destruct (op =? base + 6) eqn:E6].
    + apply bind_Some in H as (w & Hn & [= <- <-]). apply (source_word _ Hbytes) in Hn. simpl. lia.
    + apply bind_Some in H as (w & Hn & [= <- <-]). apply (source_byte _ Hbytes) in Hn.
      destruct Hn as [[? ?] ?]. simpl. lia.
    + injection H as <- <-. simpl. lia.
  - destruct (is_goto op) eqn:Eg.
    { apply bind_Some in H as (w & Hn & [= <- <-]). apply (source_word _ Hbytes) in Hn.
      apply andb_prop in Eg. unfold Bgoto, Bgotoifnonnilelsepop in *. simpl. lia. }
    destruct (is_rgoto op) eqn:Er.
    { apply bind_Some in H as (w & Hn & [= <- <-]). apply (source_byte _ Hbytes) in Hn.
      apply andb_prop in Er. unfold BRgoto, BRgotoifnonnilelsepop in *. simpl. lia. }
    destruct (Z.eqb_spec op Bconstant2).
    { apply bind_Some in H as (w & Hn & [= <- <-]). apply (source_word _ Hbytes) in Hn. simpl. lia. }
    destruct (is_N op) eqn:En.
    { apply bind_Some in H as (w & Hn & [= <- <-]). apply (source_byte _ Hbytes) in Hn.
      simpl. split; [lia |]. split; [tauto | lia]. }
    destruct (Z.ltb_spec op Bconstant); injection H as <- <-; simpl; [| unfold Bconstant in *; lia].
    split; [lia |]. split; [tauto | lia].
Qed.

Lemma chain_lookup i L e k a ins i' :
  chain i L e -> L !! k = Some (a, ins, i') ->
  0 <= a < zlen src /\ decode_source src a = Some (ins, i') /\
  insn_error SYMBOL_IS_KEYWORD constants a i' ins = None /\ proper_insn ins /\ source_length ins (i' - a).
Proof.
  revert i k. induction L as [| [[a0 ins0] i0'] L IH]; [done |].
  intros i [| k] (-> & Hi & Hd & He & HL) Hk; simpl in Hk; [| by eapply IH].
  injection Hk as -> -> ->. by destruct (decode_source_spec _ _ _ Hd Hi) as (_ & ? & ?).
Qed.

Lemma simplify_proper ins : proper_insn ins -> proper_insn (simplify_insn SYMBOL_IS_KEYWORD constants ins).
Proof. unfold simplify_insn. by destruct (dropped _ _ _). Qed.

Lemma full_length_bound i ins i' :
  proper_insn ins -> source_length ins (i' - i) ->
  full_length SYMBOL_IS_KEYWORD constants (i, ins, i') <= 2 * (i' - i) - 1.
Proof.
  intros Hp Hl. unfold full_length, first_block, emit, simplify_insn.
  destruct ins as [base n | kind to | n | op n | op]; simpl in Hl; try (simpl; lia).
  - destruct (dropped _ _ _); [simpl; lia |]. unfold UCHAR_MAX. zcase; simpl; lia.
  - simpl. unfold UCHAR_MAX, Bconstant. zcase; simpl; lia.
Qed.

Lemma emit_full_length i ins i' : zlen (emit' i ins) <= full_length SYMBOL_IS_KEYWORD constants (i, ins, i').
Proof. destruct ins; try done. unfold emit, simplify_insn. simpl. zcase. Qed.

Lemma total_length_bound i L e :
  chain i L e -> total_length SYMBOL_IS_KEYWORD constants L <= 2 * (e - i) - zlen L.
Proof.
  revert i. induction L as [| [[a ins] i'] L IH]; intros i; cbn [total_length chain length]; [simpl; lia |].
  intros (-> & Hi & Hd & _ & HL). apply IH in HL.
  destruct (decode_source_spec _ _ _ Hd Hi) as (_ & Hp & Hs).
  pose proof (full_length_bound _ _ _ Hp Hs). simpl length. lia.
Qed.

Lemma chain_end i L e : chain i L e -> i <= zlen src -> i <= e <= zlen src + 1.
Proof.
  revert i. induction L as [| [[a ins] i'] L IH]; intros i; simpl; [lia |].
  intros (-> & Hi & Hd & _ & HL) ?. destruct (decode_source_spec _ _ _ Hd Hi) as (? & _ & Hs).
  assert (i < i') by (destruct ins; simpl in Hs; lia).
  destruct (Z.le_gt_cases i' (zlen src)); [specialize (IH i' HL); lia |].
  destruct L as [| [[b ins2] i2] L]; simpl in HL; lia.
Qed.

(** ** The first loop *)

Definition invariant (s : opt_state) : Prop :=
  zlen (o_icounts s) = o_ptr s /\ zlen (o_program s) <= 2 * o_ptr s /\ zlen (o_jumps s) <= o_ptr s /\
  0 <= o_ptr s.

Lemma after_insn_invariant ins i' s :
  invariant s -> o_ptr s < zlen src -> decode_source src (o_ptr s) = Some (ins, i') ->
  invariant (after_insn SYMBOL_IS_KEYWORD constants ins i' s) /\ o_ptr s < i'.
Proof.
  intros (? & ? & ? & ?) Hi Hd. destruct (decode_source_spec _ _ _ Hd ltac:(lia)) as (_ & Hp & Hs).
  pose proof (full_length_bound _ _ _ Hp Hs). pose proof (emit_full_length (o_ptr s) ins i').
  assert (o_ptr s < i') by (destruct ins; simpl in Hs; lia). split; [| done].
  unfold invariant. simpl. rewrite !length_app, length_cons, length_replicate.
  assert (zlen (jump_entry (o_ptr s) ins) <= 1) by (destruct ins; simpl; lia). lia.
Qed.

(** The loop reads all instructions, or stops at the first that is cut off by the
    end of the string or in error. *)
Lemma optimize_insns_cases fuel s :
  invariant s -> zlen src - o_ptr s <= Z.of_nat fuel ->
  let r := optimize_insns SYMBOL_IS_KEYWORD src constants fuel s in
  (exists L e, chain (o_ptr s) L e /\ zlen src <= e /\ r = Good (tt, after_all L s)) \/
  (exists L i, chain (o_ptr s) L i /\ i < zlen src /\ decode_source src i = None /\ r = Bad bad_read) \/
  (exists L i ins i' e, chain (o_ptr s) L i /\ i < zlen src /\ decode_source src i = Some (ins, i') /\
     insn_error SYMBOL_IS_KEYWORD constants i i' ins = Some e /\ r = Invalid e).
Proof.
  revert s. induction fuel as [| fuel IH]; intros s Hinv Hfuel; simpl.
  { left. exists [], (o_ptr s). split; [done |]. split; [lia |].
    by rewrite (proj2 (Z.ltb_ge _ _)) by lia. }
  destruct (Z.ltb_spec (o_ptr s) (zlen src)) as [Hi |]; [| by left; exists [], (o_ptr s)].
  destruct Hinv as (H1 & H2 & H3 & H4). unfold o_bind.
  rewrite (optimize_insn_eq _ _ _ Hbytes) by (try done; lia).
  destruct (decode_source src (o_ptr s)) as [[ins i'] |] eqn:Hd;
    [| right; left; by exists [], (o_ptr s)].
  destruct (insn_error _ _ _ _ _) as [e |] eqn:He;
    [right; right; by exists [], (o_ptr s), ins, i', e |]. simpl.
  destruct (after_insn_invariant _ _ s ltac:(by split_and!) Hi Hd) as [Hinv' ?].
  destruct (IH _ Hinv' ltac:(simpl; lia)) as
    [(L & e & HL & ? & ->) | [(L & i & HL & ? & ? & ->) | (L & i & ins2 & i2 & e & HL & ? & ? & ? & ->)]].
  - left. exists ((o_ptr s, ins, i') :: L), e. split; [| done]. by split_and!.
  - right; left. exists ((o_ptr s, ins, i') :: L), i. split; [| done]. by split_and!.
  - right; right. exists ((o_ptr s, ins, i') :: L), i, ins2, i2, e. split; [| done]. by split_and!.
Qed.

(** ** The second loop *)

Lemma icounts_start off i L e k a ins i' :
  chain i L e -> L !! k = Some (a, ins, i') ->
  i <= a /\ zget (icounts_of off L) (a - i) = Some (off + block_off (blocks L) k) /\
  (2 <= i' - a -> zget (icounts_of off L) (a - i + 1) = Some (off + block_off (blocks L) k + 1)).
Proof.
  revert off i k. induction L as [| [[a0 ins0] i0'] L IH]; intros off i k; [done |].
  simpl chain. intros (-> & Hi & Hd & _ & HL) Hk.
  assert (i < i0') as Hlt.
  { destruct (decode_source_spec _ _ _ Hd Hi) as (_ & _ & Hs). destruct ins0; simpl in Hs; lia. }
  change (blocks ((i, ins0, i0') :: L)) with (emit' i ins0 :: blocks L).
  simpl icounts_of. destruct k as [| k]; simpl in Hk.
  - injection Hk as -> -> ->. unfold block_off. simpl. rewrite Z.sub_diag.
    split; [lia |]. split; [unfold zget; simpl; f_equal; lia |]. intros Hl. unfold zget. simpl.
    destruct (Z.to_nat (i' - a - 1)) eqn:E; [lia |]. simpl. f_equal. lia.
  - destruct (IH (off + zlen (emit' i ins0)) i0' k HL Hk) as (Hle & H1 & H2). split; [lia |].
    assert (block_off (emit' i ins0 :: blocks L) (S k) = zlen (emit' i ins0) + block_off (blocks L) k) as ->
      by (unfold block_off; simpl; rewrite length_app; lia).
    rewrite !(app_comm_cons _ _ off), !(zget_app (off :: _)).
    rewrite length_cons, length_replicate.
    assert (Z.of_nat (S (Z.to_nat (i0' - i - 1))) = i0' - i) as -> by lia.
    rewrite !(proj2 (Z.ltb_ge _ _)) by lia.
    replace (a - i - (i0' - i)) with (a - i0') by lia.
    replace (a - i + 1 - (i0' - i)) with (a - i0' + 1) by lia.
    rewrite H1. split; [f_equal; lia |]. intros Hl. rewrite H2 by done. f_equal. lia.
Qed.

Lemma entries_jumps n L :
  Forall2 (fun p j => j_to j = p.2 /\
             exists kind i' m, p.1 = (n + m)%nat /\ L !! m = Some (j_from j - 1, IJump kind p.2, i'))
    (jumps_from n L) (entries L).
Proof.
  revert n. induction L as [| [[i ins] i'] L IH]; intros n; [constructor |].
  assert (Forall2 (fun p j => j_to j = p.2 /\ exists kind i1 m, p.1 = (n + m)%nat /\
            ((i, ins, i') :: L) !! m = Some (j_from j - 1, IJump kind p.2, i1))
            (jumps_from (S n) L) (entries L)) as IH'.
  { eapply Forall2_impl; [apply IH |]. intros p j (? & kind & i1 & m & ? & ?). split; [done |].
    exists kind, i1, (S m). split; [lia | done]. }
  destruct ins as [| kind to | | |]; simpl; try exact IH'. unfold entries. simpl. constructor; [| exact IH'].
  simpl. split; [done |]. exists kind, i', 0%nat. split; [lia |]. simpl. do 3 f_equal. lia.
Qed.

(** The table after the second loop. *)
Definition fixed_up (ic program : list Z) (j j' : jump) : Prop :=
  zget ic (j_from j) = Some (j_from j') /\ zget ic (j_to j) = Some (j_to j') /\
  valid_opcode_at program (j_to j').

Lemma fix_up_jumps_cases ic program js :
  match fix_up_jumps ic program js with
  | Good js' => Forall2 (fixed_up ic program) js js'
  | Invalid _ | Bad bad_read => ~ exists js', Forall2 (fixed_up ic program) js js'
  | Bad _ => False
  end.
Proof.
  induction js as [| [from to] js IH]; simpl; [constructor |].
  assert (forall P : Prop, (forall j' js', Forall2 (fixed_up ic program) (mk_jump from to :: js) (j' :: js') -> P) ->
          (exists js', Forall2 (fixed_up ic program) (mk_jump from to :: js) js') -> P) as Hinv.
  { intros P HP ([| j' js'] & Hjs); [by inversion Hjs | by eapply HP]. }
  destruct (zget ic from) as [from' |] eqn:E1; simpl.
  2: { refine (Hinv False _). intros j' js' Hjs. apply Forall2_cons in Hjs as [Hf _]. destruct Hf as [H _]. simpl in H. congruence. }
  destruct (zget ic to) as [to' |] eqn:E2; simpl.
  2: { refine (Hinv False _). intros j' js' Hjs. apply Forall2_cons in Hjs as [Hf _]. destruct Hf as (_ & H & _). simpl in H. congruence. }
  destruct (zget program to') as [op |] eqn:E3; simpl.
  2: { refine (Hinv False _). intros j' js' Hjs. apply Forall2_cons in Hjs as [Hf _].
       destruct Hf as (_ & H & (op & H' & _)). simpl in H. congruence. }
  destruct (check_opcode_cases op) as [E4 | E4]; rewrite E4; simpl.
  2: { refine (Hinv False _). intros j' js' Hjs. apply Forall2_cons in Hjs as [Hf _].
       destruct Hf as (_ & H & (op' & H' & H'')). simpl in H. congruence. }
  destruct (fix_up_jumps ic program js) as [js' | e | []]; simpl; try done.
  - constructor; [| done]. simpl. split_and!; [done | done |]. by exists op.
  - refine (Hinv False _). intros j' js' [_ Hjs]%Forall2_cons. eauto.
  - refine (Hinv False _). intros j' js' [_ Hjs]%Forall2_cons. eauto.
Qed.

Lemma fixed_up_unique ic program js js1 js2 :
  Forall2 (fixed_up ic program) js js1 -> Forall2 (fixed_up ic program) js js2 -> js1 = js2.
Proof.
  intros H1. revert js2. induction H1 as [| j j1 js js1 (Ha & Hb & _) _ IH]; intros js2 H2.
  { by inversion H2. }
  destruct js2 as [| j2 js2]; [by inversion H2 |]. apply Forall2_cons in H2 as [(Ha' & Hb' & _) H2].
  rewrite (IH _ H2). destruct j1, j2. simpl in *. congruence.
Qed.

Lemma chain_first_blocks i L e :
  chain i L e -> Forall2 (block_of SYMBOL_IS_KEYWORD constants) L (blocks L).
Proof.
  intros HL. apply Forall2_fmap_r, Forall_Forall2_diag, Forall_lookup. intros k [[a ins] i'] Hk.
  destruct (chain_lookup _ _ _ _ _ _ _ HL Hk) as (_ & _ & _ & Hp & _).
  destruct ins; simpl; try done. split; [done |]. unfold emit, simplify_insn. simpl.
  destruct (_ || _); [right; by do 2 eexists | left; by eexists].
Qed.

(** After it the table says where the operands of the jumps lie. *)
Lemma fixed_up_layout L e js' :
  chain 0 L e -> Forall2 (fixed_up (icounts_of 0 L) (mjoin (blocks L))) (entries L) js' ->
  layout SYMBOL_IS_KEYWORD constants L (blocks L) js'.
Proof.
  intros HL Hjs. split.
  - by eapply chain_first_blocks.
  - assert (length (jumps_from 0 L) = length js') as Hlen.
    { etrans; [eapply Forall2_length, entries_jumps | by eapply Forall2_length]. }
    apply Forall2_same_length_lookup_2; [done |]. intros m [k to] j' Hm Hj'. simpl.
    destruct (Forall2_lookup_r _ _ _ _ _ Hjs Hj') as (j & Hj & (Hfrom & _ & _)).
    destruct (Forall2_lookup_lr _ _ _ _ _ _ (entries_jumps 0 L) Hm Hj) as (_ & kind & i' & m' & Hk & HLk).
    simpl in Hk. subst k. destruct (icounts_start 0 0 L e m' _ _ _ HL HLk) as (? & _ & Hic).
    destruct (chain_lookup _ _ _ _ _ _ _ HL HLk) as (_ & _ & _ & _ & Hs). simpl in Hs.
    specialize (Hic ltac:(lia)). replace (j_from j - 1 - 0 + 1) with (j_from j) in Hic by lia.
    rewrite Hfrom in Hic. injection Hic as ->. lia.
Qed.

(** ** Reading the program *)

Lemma valid_first i L e k x b :
  chain i L e -> L !! k = Some x -> block_of SYMBOL_IS_KEYWORD constants x b ->
  exists op rest, b = op :: rest /\ check_opcode op = Good tt.
Proof.
  intros HL Hk Hb. destruct x as [[a ins] i']. destruct (chain_lookup _ _ _ _ _ _ _ HL Hk) as (_ & _ & He & Hp & _).
  assert (forall op, 8 <= op -> op <> 169 -> op <= Bassq \/ Bconstant <= op -> check_opcode op = Good tt) as Hc.
  { unfold check_opcode, Bvarref, Bassq, Bconstant. intros. zcase. }
  destruct ins as [base n | kind to | n | op n | op]; simpl in Hb, Hp.
  - subst b. unfold emit, simplify_insn. destruct (dropped _ _ _).
    { eexists _, _. split; [done |]. apply Hc; unfold Bdiscard, Bassq; lia. }
    destruct (n <=? 5) eqn:?; [| destruct (n <=? UCHAR_MAX)]; eexists _, _; (split; [done |]);
      apply Hc; unfold Bassq; lia.
  - unfold BRgoto, Bgoto in Hb. destruct Hb as [_ [(d & ->) | (d & d' & ->)]]; eexists _, _; (split; [done |]);
      apply Hc; unfold Bassq; lia.
  - subst b. unfold emit, simplify_insn. simpl.
    destruct (n <=? UCHAR_MAX - Bconstant); eexists _, _; (split; [done |]); apply Hc;
      unfold Bassq, Bconstant2, Bconstant; lia.
  - subst b. eexists _, _. split; [done |]. destruct Hp as [Hn _]. unfold is_N, BlistN, BinsertN in Hn.
    apply Hc; unfold Bassq; lia.
  - subst b. eexists _, _. split; [done |]. simpl in He. by destruct (check_opcode_cases op) as [H | H]; rewrite H in *.
Qed.

Lemma int16_value d :
  Z.land (d mod 2 ^ 32) 255 + Z.shiftl (Z.shiftr (d mod 2 ^ 32) 8 mod 256) 8 = d mod 65536.
Proof.
  rewrite land_255, Z.shiftl_mul_pow2, Z.shiftr_div_pow2 by lia.
  rewrite <- (Z.mod_mod_divide d (2 ^ 32) 65536) by (by exists 65536).
  set (r := d mod 2 ^ 32). change 65536 with (256 * 256). change (2 ^ 8) with 256.
  rewrite (Z.rem_mul_r r 256 256) by lia. lia.
Qed.

Lemma block_word bs k op d :
  bs !! k = Some (op :: int16_bytes d) -> word_at (mjoin bs) (block_off bs k + 1) = Some (d mod 65536).
Proof.
  intros Hb. unfold word_at. rewrite (block_read _ _ _ 1 Hb) by (simpl; lia).
  replace (block_off bs k + 1 + 1) with (block_off bs k + 2) by lia.
  rewrite (block_read _ _ _ 2 Hb) by (simpl; lia). rewrite <- int16_value. reflexivity.
Qed.

Lemma block_op bs k op rest : bs !! k = Some (op :: rest) -> zget (mjoin bs) (block_off bs k) = Some op.
Proof. intros Hb. rewrite <- (Z.add_0_r (block_off bs k)). by rewrite (block_read _ _ _ _ Hb) by (simpl; lia). Qed.

Lemma group_of_base base n :
  base = 8 \/ base = 16 \/ base = 24 \/ base = 32 \/ base = 40 -> 0 <= n <= 7 ->
  group_of (base + n) = Some base.
Proof.
  intros Hb Hn. unfold group_of, in_group, Bvarref, Bvarset, Bvarbind, Bcall, Bunbind.
  destruct Hb as [-> | [-> | [-> | [-> | ->]]]]; zdec; done.
Qed.

Lemma decode_emit bs k i ins :
  proper_insn ins -> bs !! k = Some (emit' i ins) ->
  match ins with IJump _ _ => True | _ =>
    decode_program (mjoin bs) (block_off bs k) =
    Some (simplify_insn SYMBOL_IS_KEYWORD constants ins, block_off bs k + zlen (emit' i ins))
  end.
Proof.
  intros Hp Hb. assert (proper_insn (simplify_insn SYMBOL_IS_KEYWORD constants ins)) as Hp' by by apply simplify_proper.
  destruct ins as [base n | kind to | n | op n | op]; [| done | | |]; unfold decode_program, decode; revert Hb;
    unfold emit; set (ins' := simplify_insn _ _ _) in *.
  - assert (ins' = INarg base n \/ ins' = IOp Bdiscard) as [E | E]
      by (subst ins'; unfold simplify_insn; destruct (dropped _ _ _); auto); rewrite E; intros Hb.
    2: { by rewrite (block_op _ _ _ _ Hb). }
    simpl in Hp. destruct Hp as [Hbase Hn]. unfold UCHAR_MAX in *.
    destruct (Z.leb_spec n 5); [| destruct (Z.leb_spec n 255)]; rewrite (block_op _ _ _ _ Hb); simpl;
      rewrite group_of_base by lia.
    + zdec. repeat f_equal; lia.
    + zdec. rewrite (block_read _ _ _ 1 Hb) by (simpl; lia). done.
    + rewrite Z.eqb_refl. unfold word_bytes in Hb. rewrite (block_word _ _ _ _ Hb). simpl.
      by rewrite Z.mod_small by lia.
  - unfold ins', simplify_insn. simpl. unfold UCHAR_MAX, Bconstant. simpl in Hp.
    destruct (Z.leb_spec n (255 - 192)); intros Hb; rewrite (block_op _ _ _ _ Hb); simpl.
    + unfold group_of, in_group, is_goto, is_rgoto, is_N, Bvarref, Bvarset, Bvarbind, Bcall, Bunbind, Bgoto,
        Bgotoifnonnilelsepop, BRgoto, BRgotoifnonnilelsepop, Bconstant2, BlistN, BinsertN, Bconstant.
      zdec. repeat f_equal; lia.
    + unfold word_bytes in Hb. rewrite (block_word _ _ _ _ Hb). simpl. by rewrite Z.mod_small by lia.
  - unfold ins', simplify_insn. simpl. intros Hb. rewrite (block_op _ _ _ _ Hb). simpl in Hp |- *.
    destruct Hp as [Hn _]. pose proof Hn as Hn'. unfold is_N, BlistN, BinsertN in Hn'.
    apply andb_prop in Hn' as [?%Z.leb_le ?%Z.leb_le].
    unfold group_of, in_group, is_goto, is_rgoto, Bvarref, Bvarset, Bvarbind, Bcall, Bunbind, Bgoto,
        Bgotoifnonnilelsepop, BRgoto, BRgotoifnonnilelsepop, Bconstant2, Bconstant. zdec. rewrite Hn.
    by rewrite (block_read _ _ _ 1 Hb) by (simpl; lia).
  - unfold ins', simplify_insn. simpl. intros Hb. rewrite (block_op _ _ _ _ Hb). simpl in Hp |- *.
    destruct Hp as (-> & -> & -> & H1 & -> & H2). by rewrite (proj2 (Z.eqb_neq _ _) H1), (proj2 (Z.ltb_lt _ _) H2).
Qed.

Lemma signed_mod bits d : 1 <= bits -> - 2 ^ (bits - 1) <= d < 2 ^ (bits - 1) -> signed bits (d mod 2 ^ bits) = d.
Proof.
  intros Hbits Hd. unfold signed.
  assert (2 ^ bits = 2 * 2 ^ (bits - 1)) as Hp by (rewrite <- Z.pow_succ_r by lia; f_equal; lia).
  destruct (Z.le_gt_cases 0 d).
  - rewrite Z.mod_small by lia. zcase.
  - rewrite <- (Z.mod_unique d (2 ^ bits) (-1) (d + 2 ^ bits)) by lia. zcase.
Qed.

Lemma decode_jump bs k kind d b :
  0 <= kind <= 4 -> bs !! k = Some b -> exact_jump kind d b -> - 2 ^ 15 <= d < 2 ^ 15 ->
  decode_program (mjoin bs) (block_off bs k) = Some (IJump kind (block_off bs k + 1 + d), block_off bs k + zlen b).
Proof.
  intros Hk Hb Hex Hd. unfold decode_program, decode.
  assert (forall x, 130 <= x < 175 -> group_of x = None) as Hg.
  { intros. unfold group_of, in_group, Bvarref, Bvarset, Bvarbind, Bcall, Bunbind. by zdec. }
  destruct Hex as [[-> Hs] | ->]; rewrite (block_op _ _ _ _ Hb); cbn [mbind option_bind];
    rewrite Hg by (unfold BRgoto, Bgoto; lia).
  - destruct (jump_opcode_rgoto _ Hk) as [-> ->]. rewrite (block_read _ _ _ 1 Hb) by (simpl; lia). simpl.
    change 256 with (2 ^ 8). unfold SCHAR_MIN, SCHAR_MAX in Hs. rewrite signed_mod by lia.
    do 3 f_equal. lia.
  - rewrite jump_opcode_goto by done. rewrite (block_word _ _ _ _ Hb). simpl.
    change 65536 with (2 ^ 16). rewrite signed_mod by lia. do 3 f_equal. lia.
Qed.

(** ** All loops together *)

Lemma room L e : chain 0 L e -> total_length SYMBOL_IS_KEYWORD constants L <= program_size src.
Proof.
  intros HL. pose proof (total_length_bound _ _ _ HL). pose proof (chain_end _ _ _ HL ltac:(lia)).
  unfold program_size. destruct L; simpl in *; lia.
Qed.

Abbreviation start := (mk_opt 0 [] [] [] 0).

Lemma start_invariant : invariant start.
Proof. unfold invariant. simpl. lia. Qed.

Lemma optimize_insns_chain L e fuel s :
  invariant s -> chain (o_ptr s) L e -> zlen src - o_ptr s <= Z.of_nat fuel ->
  exists fuel', optimize_insns SYMBOL_IS_KEYWORD src constants fuel s =
                optimize_insns SYMBOL_IS_KEYWORD src constants fuel' (after_all L s) /\
    invariant (after_all L s) /\ o_ptr (after_all L s) = e /\ zlen src - e <= Z.of_nat fuel'.
Proof.
  revert fuel s. induction L as [| [[a ins] i'] L IH]; intros fuel s Hinv; simpl chain.
  { intros <- ?. by exists fuel. }
  intros (-> & Hi & Hd & He & HL) Hfuel. destruct fuel as [| fuel]; [lia |].
  destruct (after_insn_invariant _ _ s Hinv ltac:(lia) Hd) as [Hinv' ?].
  destruct (IH fuel (after_insn SYMBOL_IS_KEYWORD constants ins i' s) Hinv' HL ltac:(simpl; lia))
    as (fuel' & E & ?). exists fuel'. split; [| done].
  simpl. rewrite (proj2 (Z.ltb_lt _ _)) by lia. unfold o_bind. destruct Hinv as (? & ? & ? & ?).
  rewrite (optimize_insn_eq _ _ _ Hbytes), Hd, He by (try done; lia). exact E.
Qed.

(** An error in an instruction that the loop comes to is reported. *)
Lemma optimize_insns_error L i ins i' e :
  chain 0 L i -> i < zlen src -> decode_source src i = Some (ins, i') ->
  insn_error SYMBOL_IS_KEYWORD constants i i' ins = Some e ->
  optimize_insns SYMBOL_IS_KEYWORD src constants (length src) start = Invalid e.
Proof.
  intros HL Hi Hd He.
  destruct (optimize_insns_chain L i (length src) start start_invariant HL ltac:(simpl; lia))
    as ([| fuel] & -> & (? & ? & ? & ?) & Hptr & ?); [lia |].
  simpl. rewrite (proj2 (Z.ltb_lt _ _)) by lia. unfold o_bind.
  by rewrite (optimize_insn_eq _ _ _ Hbytes), Hptr, Hd, He by (try done; lia).
Qed.

Lemma first_loop L e :
  chain 0 L e -> zlen src <= e ->
  optimize_insns SYMBOL_IS_KEYWORD src constants (length src) start =
  Good (tt, mk_opt e (mjoin (blocks L)) (icounts_of 0 L) (entries L) (bindings L)).
Proof.
  intros HL He.
  destruct (optimize_insns_chain L e (length src) start start_invariant HL ltac:(simpl; lia))
    as (fuel & -> & _ & Hptr & _).
  rewrite (after_all_eq L start e HL). simpl.
  destruct fuel; simpl; by rewrite (proj2 (Z.ltb_ge _ _)) by lia.
Qed.

(** What the last loop is given, and what it makes of it. *)
Lemma last_loop L e js :
  chain 0 L e -> Forall2 (fixed_up (icounts_of 0 L) (mjoin (blocks L))) (entries L) js ->
  passes_done SYMBOL_IS_KEYWORD constants L (blocks L) js
    (fixup_jumps src (S (length js)) (mjoin (blocks L)) js).
Proof.
  intros HL Hjs. pose proof (fixed_up_layout _ _ _ HL Hjs) as Hlay.
  apply fixup_jumps_done; [by eapply room | | done |].
  - intros k x b. by eapply valid_first.
  - pose proof (blocks_total_jumps _ _ 0 _ _ (lay_blocks _ _ _ _ _ Hlay)).
    rewrite (Forall2_length _ _ _ (entries_jumps 0 L)), (Forall2_length _ _ _ Hjs) in *. lia.
Qed.

Lemma optimize_byte_code_eq L e :
  chain 0 L e -> zlen src <= e ->
  optimize_byte_code SYMBOL_IS_KEYWORD src constants =
  let* js := fix_up_jumps (icounts_of 0 L) (mjoin (blocks L)) (entries L) in
  let* program := fixup_jumps src (S (length js)) (mjoin (blocks L)) js in
  Good (program, bindings L).
Proof. intros HL He. unfold optimize_byte_code. by rewrite (first_loop L e). Qed.

(** ** Well-formed byte strings *)

Fixpoint instructions_from (fuel : nat) (i : Z) : option (list located) :=
  if i =? zlen src then Some []
  else match fuel with
  | 0%nat => None
  | S fuel =>
      if i <? zlen src then
        match decode_source src i with
        | Some (ins, i') =>
            match insn_error SYMBOL_IS_KEYWORD constants i i' ins with
            | None => L ← instructions_from fuel i'; Some ((i, ins, i') :: L)
            | Some _ => None
            end
        | None => None
        end
      else None
  end.

(** Every jump is to an instruction. *)
Definition jumps_inside L : bool :=
  forallb (fun x => match x.1.2 with
                    | IJump _ to => existsb (fun y => y.1.1 =? to) L
                    | _ => true
                    end) L.

(** The instructions of a string that has no errors and ends with an instruction. *)
Definition read_byte_code : option (list located) :=
  L ← instructions_from (length src) 0; if jumps_inside L then Some L else None.

Lemma instructions_from_chain fuel i L :
  0 <= i -> instructions_from fuel i = Some L -> chain i L (zlen src).
Proof.
  revert i L. induction fuel as [| fuel IH]; intros i L Hi0; simpl;
    destruct (Z.eqb_spec i (zlen src)) as [E | E]; try done; try (by intros [= <-]).
  destruct (Z.ltb_spec i (zlen src)) as [Hi |]; [| done].
  destruct (decode_source src i) as [[ins i'] |] eqn:Hd; [| done].
  destruct (insn_error _ _ _ _ _) eqn:He; [done |].
  intros (L' & HL & [= <-])%bind_Some. simpl. split_and!; try done.
  destruct (decode_source_spec _ _ _ Hd ltac:(lia)) as (_ & _ & Hs).
  apply IH; [destruct ins; simpl in Hs; lia | done].
Qed.

Lemma read_byte_code_spec L :
  read_byte_code = Some L ->
  chain 0 L (zlen src) /\
  forall k i kind to i', L !! k = Some (i, IJump kind to, i') -> exists t x, L !! t = Some x /\ x.1.1 = to.
Proof.
  unfold read_byte_code. intros (L' & HL & H)%bind_Some. destruct (jumps_inside L') eqn:Hj; [| done].
  injection H as ->. split; [by eapply instructions_from_chain |]. intros k i kind to i' Hk.
  unfold jumps_inside in Hj. rewrite forallb_forall in Hj.
  specialize (Hj (i, IJump kind to, i')). simpl in Hj.
  destruct (proj1 (existsb_exists _ L) (Hj ltac:(apply list_elem_of_In; by eapply list_elem_of_lookup_2)))
    as (x & Hx & E%Z.eqb_eq).
  apply list_elem_of_In, list_elem_of_lookup_1 in Hx as [t Ht]. by exists t, x.
Qed.

(** ** The table for a well-formed string *)

Definition fix_entry (ic : list Z) (j : jump) : jump :=
  mk_jump (default 0 (zget ic (j_from j))) (default 0 (zget ic (j_to j))).

Lemma well_formed_table L :
  read_byte_code = Some L ->
  exists js, Forall2 (fixed_up (icounts_of 0 L) (mjoin (blocks L))) (entries L) js /\
    targets L (blocks L) js.
Proof.
  intros (HL & Hin)%read_byte_code_spec. exists (fix_entry (icounts_of 0 L) <$> entries L).
  assert (forall p j, p ∈ jumps_from 0 L -> j_to j = p.2 ->
    (exists kind i' m, p.1 = (0 + m)%nat /\ L !! m = Some (j_from j - 1, IJump kind p.2, i')) ->
    fixed_up (icounts_of 0 L) (mjoin (blocks L)) j (fix_entry (icounts_of 0 L) j) /\
    exists t x, L !! t = Some x /\ x.1.1 = p.2 /\ j_to (fix_entry (icounts_of 0 L) j) = block_off (blocks L) t) as Hone.
  { intros p j _ Hto (kind & i' & m & Hm & HLm). destruct (Hin _ _ _ _ _ HLm) as (t & [[a ins] a'] & Ht & Hx).
    simpl in Hx. subst a. destruct (chain_lookup _ _ _ _ _ _ _ HL HLm) as (_ & _ & _ & _ & Hs). simpl in Hs.
    destruct (icounts_start 0 0 L _ m _ _ _ HL HLm) as (_ & _ & Hic). specialize (Hic ltac:(lia)).
    destruct (icounts_start 0 0 L _ t _ _ _ HL Ht) as (_ & Hic' & _).
    replace (j_from j - 1 - 0 + 1) with (j_from j) in Hic by lia. rewrite Z.sub_0_r, <- Hto in Hic'.
    unfold fixed_up, fix_entry. rewrite Hic, Hic'. simpl. split.
    - split_and!; [done | done |]. rewrite Z.add_0_l.
      assert (blocks L !! t = Some (emit' p.2 ins)) as Hb by by rewrite list_lookup_fmap, Ht.
      destruct (valid_first _ _ _ t _ _ HL Ht (Forall2_lookup_lr _ _ _ _ _ _ (chain_first_blocks _ _ _ HL) Ht Hb))
        as (op & rest & E & Hop).
      exists op. rewrite E in Hb. by rewrite (block_op _ _ _ _ Hb).
    - by exists t, (p.2, ins, a'). }
  split.
  - apply Forall2_fmap_r, Forall_Forall2_diag, Forall_lookup. intros m j Hj.
    destruct (Forall2_lookup_r _ _ _ _ _ (entries_jumps 0 L) Hj) as (p & Hp & Hto & Hex).
    eapply Hone; [by eapply list_elem_of_lookup_2 | done | done].
  - apply Forall2_fmap_r. eapply Forall2_impl_in; [apply (entries_jumps 0 L) |].
    intros p j Hp [Hto Hex]. by eapply Hone.
Qed.

(** ** Where the instructions lie in the program *)

(** Instruction [k] of the string is found at [off k] of the program. *)
Definition relocated L (program : list Z) (off : nat -> Z) : Prop :=
  off 0%nat = 0 /\ off (length L) = zlen program /\
  forall k i ins i', L !! k = Some (i, ins, i') ->
    match ins with
    | IJump kind to => exists t x, L !! t = Some x /\ x.1.1 = to /\
        decode_program program (off k) = Some (IJump kind (off t), off (S k))
    | _ => decode_program program (off k) = Some (simplify_insn SYMBOL_IS_KEYWORD constants ins, off (S k))
    end.

Lemma exact_relocated L bs js :
  chain 0 L (zlen src) -> layout SYMBOL_IS_KEYWORD constants L bs js -> targets L bs js ->
  exact_upto L (length js) bs js -> program_size src <= 2 ^ 15 ->
  relocated L (mjoin bs) (block_off bs).
Proof.
  intros HL Hlay Ht He Hsize. pose proof (lay_blocks _ _ _ _ _ Hlay) as Hb.
  split; [done |]. split; [rewrite (Forall2_length _ _ _ Hb); apply block_off_end |].
  intros k i ins i' Hk. destruct (Forall2_lookup_l _ _ _ _ _ Hb Hk) as (b & Hbk & Hof).
  destruct (chain_lookup _ _ _ _ _ _ _ HL Hk) as (_ & _ & _ & Hp & _).
  rewrite (block_off_S _ _ _ Hbk).
  destruct ins as [base n | kind to | n | op n | op]; try (simpl in Hof; subst b; by apply (decode_emit _ _ i _ Hp Hbk)).
  assert ((k, to) ∈ jumps_from 0 L) as [m Hm]%list_elem_of_lookup_1 by (apply jumps_from_lookup; by exists i, kind, i', k).
  destruct (Forall2_lookup_l _ _ _ _ _ Ht Hm) as (j & Hj & t & x & HLt & Hx & Hto).
  pose proof (Forall2_lookup_lr _ _ _ _ _ _ (lay_from _ _ _ _ _ Hlay) Hm Hj) as Hfrom. simpl in Hfrom, Hx.
  destruct (He m k to j ltac:(by eapply lookup_lt_Some) Hm Hj) as (? & kind' & ? & b' & Hk' & Hb' & Hex).
  rewrite Hk in Hk'. injection Hk' as <- <- <-. rewrite Hbk in Hb'. injection Hb' as <-.
  exists t, x. split; [done |]. split; [done |].
  destruct (Forall2_lookup_l _ _ _ _ _ Hb HLt) as (bt & Hbt & _).
  pose proof (block_off_inside _ _ _ Hbt). pose proof (block_off_inside _ _ _ Hbk).
  pose proof (blocks_total _ _ _ _ Hb). pose proof (room _ _ HL).
  assert (0 <= block_off bs t /\ 0 <= block_off bs k) by (unfold block_off; lia).
  assert (1 <= zlen b) by (destruct Hex as [[-> _] | ->]; simpl; lia).
  rewrite (decode_jump _ _ kind (j_to j - j_from j) b) by (try done; lia). do 3 f_equal. lia.
Qed.

Lemma optimize_relocates L :
  read_byte_code = Some L -> program_size src <= 2 ^ 15 ->
  exists program off,
    optimize_byte_code SYMBOL_IS_KEYWORD src constants = Good (program, bindings L) /\
    relocated L program off.
Proof.
  intros Hread Hsize. pose proof (read_byte_code_spec _ Hread) as [HL _].
  destruct (well_formed_table _ Hread) as (js & Hjs & Ht).
  rewrite (optimize_byte_code_eq L _ HL) by lia.
  pose proof (fix_up_jumps_cases (icounts_of 0 L) (mjoin (blocks L)) (entries L)) as Hfix.
  destruct (fix_up_jumps _ _ _) as [js' | e | []]; try (exfalso; eauto; done).
  assert (js' = js) as -> by (by eapply fixed_up_unique). cbn [bc_bind].
  pose proof (last_loop L _ js HL Hjs) as Hlast.
  destruct (fixup_jumps src (S (length js)) _ js) as [program | e | []]; unfold passes_done in Hlast; try tauto.
  destruct Hlast as (bs & js'' & -> & Hlay & Ht' & He).
  exists (mjoin bs), (block_off bs). split; [reflexivity |]. apply (exact_relocated _ _ js''); auto.
Qed.
End Source.

(** ** The theorems *)

(** C19: For a byte string that consists of whole instructions without errors, with
    every jump to the beginning of an instruction, and that is at most 16383 bytes
    long, the optimizer returns a program and the number of variable bindings: the
    program holds the same instructions in the same order, each with the same
    operand, except that an assignment to a keyword became a discard, and every
    jump, whether encoded in one or two bytes, leads to the place of the same
    instruction as in the string. *)
Theorem optimize_preserves_instructions SYMBOL_IS_KEYWORD src constants L
    (Hbytes : Forall is_byte src)
    (Hread : read_byte_code SYMBOL_IS_KEYWORD src constants = Some L)
    (Hsize : program_size src <= 2 ^ 15) :
  exists program off,
    optimize_byte_code SYMBOL_IS_KEYWORD src constants = Good (program, bindings L) /\
    relocated SYMBOL_IS_KEYWORD constants L program off.
Proof. by apply optimize_relocates. Qed.

(** For any bytes whatever the optimizer ends.  It never writes outside the
    space of twice the length of the string plus one that it was given, and its
    loop over the jumps never meets anything but a jump.  A fault in an
    instruction of the string is reported before anything after it is looked at.
    The only accident is a read of memory that was never written: of an operand cut
    off by the end of the string, or for a jump that does not lead to an
    instruction. *)
Theorem optimize_any_bytes SYMBOL_IS_KEYWORD src constants (Hbytes : Forall is_byte src) :
  match optimize_byte_code SYMBOL_IS_KEYWORD src constants with
  | Good (program, n) => zlen program <= program_size src /\
      exists L e, chain SYMBOL_IS_KEYWORD src constants 0 L e /\ zlen src <= e /\ n = bindings L
  | Invalid _ => True
  | Bad why => why = bad_read
  end /\
  forall L i ins i' e,
    chain SYMBOL_IS_KEYWORD src constants 0 L i -> i < zlen src ->
    decode_source src i = Some (ins, i') -> insn_error SYMBOL_IS_KEYWORD constants i i' ins = Some e ->
    optimize_byte_code SYMBOL_IS_KEYWORD src constants = Invalid e.
Proof.
  split.
  2: { intros L i ins i' e HL Hi Hd He. unfold optimize_byte_code.
       by rewrite (optimize_insns_error _ _ _ Hbytes L i ins i' e). }
  destruct (optimize_insns_cases SYMBOL_IS_KEYWORD src constants Hbytes (length src) (mk_opt 0 [] [] [] 0)
              start_invariant ltac:(simpl; lia)) as
    [(L & e & HL & He & _) | [(L & i & _ & _ & _ & Hr) | (L & i & ins & i' & e & _ & _ & _ & _ & Hr)]];
    [| unfold optimize_byte_code; by rewrite Hr ..].
  simpl in HL. rewrite (optimize_byte_code_eq _ _ _ Hbytes L e) by done.
  pose proof (fix_up_jumps_cases (icounts_of SYMBOL_IS_KEYWORD constants 0 L)
    (mjoin (first_block SYMBOL_IS_KEYWORD constants <$> L)) (entries L)) as Hfix.
  destruct (fix_up_jumps _ _ _) as [js | e0 | []]; cbn [bc_bind]; try done.
  pose proof (last_loop _ _ _ Hbytes L e js HL Hfix) as Hlast.
  destruct (fixup_jumps src (S (length js)) _ js) as [program | e' | []]; simpl; try done.
  destruct Hlast as (bs & js' & -> & Hlay & _). split; [| by exists L, e].
  etrans; [apply (blocks_total _ _ _ _ (lay_blocks _ _ _ _ _ Hlay)) | by eapply room].
Qed.

(** A loop that counts a variable down, with a long way out, an assignment to a
    keyword and a binding. *)
Definition sample_constants : list Lisp_Object :=
  [LRec lrecord_symbol 10; LInt 0; LRec lrecord_symbol 11].

Definition sample_keyword (x : Lisp_Object) : bool := EQ x (LRec lrecord_symbol 11).

Definition sample_code : list Z :=
  [193; 24; 8; 193; 86; 131; 151; 0; 8; 83; 16; 193; 18] ++ replicate 135 136 ++ [130; 2; 0; 41; 193; 135].

Lemma optimize_preserves_instructions_witness :
  exists L program off,
    read_byte_code sample_keyword sample_code sample_constants = Some L /\
    optimize_byte_code sample_keyword sample_code sample_constants = Good (program, 1) /\
    relocated sample_keyword sample_constants L program off.
Proof.
  destruct (read_byte_code sample_keyword sample_code sample_constants) as [L |] eqn:E;
    [| by vm_compute in E].
  destruct (optimize_preserves_instructions sample_keyword sample_code sample_constants L) as (program & off & Ho & Hr).
  - apply (bool_decide_unpack (Forall (fun b => 0 <= b < 256) sample_code)). vm_compute. exact I.
  - exact E.
  - by vm_compute.
  - assert (option_map bindings (read_byte_code sample_keyword sample_code sample_constants) = Some 1) as Hb
      by (vm_compute; reflexivity).
    rewrite E in Hb. injection Hb as Hb. rewrite Hb in Ho. exists L, program, off. split_and!; [done | done | exact Hr].
Defined.

Lemma optimize_any_bytes_witness :
  Forall is_byte [24; 8] /\
  optimize_byte_code (fun _ => false) [24; 8] [LInt 3] = Invalid (bind_non_symbol (LInt 3)).
Proof.
  assert (Forall is_byte [24; 8]) as Hb by (repeat constructor; lia). split; [exact Hb |].
  apply (proj2 (optimize_any_bytes (fun _ => false) [24; 8] [LInt 3] Hb) [] 0 (INarg 24 0) 1);
    vm_compute; reflexivity.
Defined.
