(* ===== verification/Specpdl.v ===== *)
(** * The state of the evaluator, and dynamic binding (src/src/eval.c, backtrace.h)

    What the interpreter of byte code sees of the evaluator: conses, floats, the
    values of symbols, and the stack of bindings and unwind forms ([specpdl]).  C
    functions that are not modelled are called by their names; they may change the
    whole state and leave through a throw. *)

From Corelib Require Import SpecFloat.
From S2P Require Import Prelude Lisp ElHash Bytecode.

(** ** State *)

(** [sb_func] is the function of an unwind-protect, [None] for a variable. *)
Record specbinding := mk_specbinding {
  sb_symbol : Lisp_Object;
  sb_old_value : Lisp_Object;
  sb_func : option string;
}.

(** The stack is listed from its top; [l_specpdl_size] is the space for it. *)
Record lisp (X : Type) := mk_lisp {
  l_conses : gmap positive (Lisp_Object * Lisp_Object);
  l_floats : gmap positive double;
  l_values : gmap positive Lisp_Object;
  l_specpdl : list specbinding;
  l_specpdl_size : Z;
  l_max_specpdl_size : Z;
  l_debug_on_error : bool;
  l_quit_flag : Lisp_Object;
  l_ext : X;
}.
Arguments mk_lisp {X}.
Arguments l_conses {X}. Arguments l_floats {X}. Arguments l_values {X}.
Arguments l_specpdl {X}. Arguments l_specpdl_size {X}. Arguments l_max_specpdl_size {X}.
Arguments l_debug_on_error {X}. Arguments l_quit_flag {X}. Arguments l_ext {X}.

Section Updates.
Context {X : Type}.
Implicit Types w : lisp X.

Definition set_conses w c := mk_lisp c (l_floats w) (l_values w) (l_specpdl w) (l_specpdl_size w)
  (l_max_specpdl_size w) (l_debug_on_error w) (l_quit_flag w) (l_ext w).
Definition set_floats w f := mk_lisp (l_conses w) f (l_values w) (l_specpdl w) (l_specpdl_size w)
  (l_max_specpdl_size w) (l_debug_on_error w) (l_quit_flag w) (l_ext w).
Definition set_values w v := mk_lisp (l_conses w) (l_floats w) v (l_specpdl w) (l_specpdl_size w)
  (l_max_specpdl_size w) (l_debug_on_error w) (l_quit_flag w) (l_ext w).
Definition set_specpdl w s := mk_lisp (l_conses w) (l_floats w) (l_values w) s (l_specpdl_size w)
  (l_max_specpdl_size w) (l_debug_on_error w) (l_quit_flag w) (l_ext w).
Definition set_sizes w n m := mk_lisp (l_conses w) (l_floats w) (l_values w) (l_specpdl w) n m
  (l_debug_on_error w) (l_quit_flag w) (l_ext w).
Definition set_quit_flag w q := mk_lisp (l_conses w) (l_floats w) (l_values w) (l_specpdl w) (l_specpdl_size w)
  (l_max_specpdl_size w) (l_debug_on_error w) q (l_ext w).
End Updates.

(** ** Results *)

(** A value, a throw to a handler further out, or trouble. *)
Inductive run_result (A : Type) :=
| Value (a : A)
| Thrown (what : Lisp_Object)
| Trouble (why : trouble).
Arguments Value {A} a. Arguments Thrown {A} what. Arguments Trouble {A} why.

(** The C functions that are not modelled, by name; some return a C integer. *)
Class Subrs (X : Type) := {
  subr : string -> list Lisp_Object -> lisp X -> (Lisp_Object + Lisp_Object) * lisp X;
  subr_int : string -> list Lisp_Object -> lisp X -> (Z + Lisp_Object) * lisp X;
}.

Section Monad.
Context {X : Type}.

Definition E (A : Type) : Type := lisp X -> run_result A * lisp X.
Definition e_ret {A} (a : A) : E A := fun w => (Value a, w).
Definition e_trouble {A} (why : trouble) : E A := fun w => (Trouble why, w).
Definition e_bind {A B} (m : E A) (k : A -> E B) : E B := fun w =>
  match m w with
  | (Value a, w) => k a w
  | (Thrown what, w) => (Thrown what, w)
  | (Trouble why, w) => (Trouble why, w)
  end.
Definition e_get {A} (f : lisp X -> A) : E A := fun w => (Value (f w), w).
Definition e_upd (f : lisp X -> lisp X) : E unit := fun w => (Value tt, f w).
Definition e_access {A} (why : trouble) (o : option A) : E A :=
  match o with Some a => e_ret a | None => e_trouble why end.

Definition of_sum {A} (r : A + Lisp_Object) : run_result A :=
  match r with inl a => Value a | inr what => Thrown what end.

Context `{Subrs X}.
Definition call (name : string) (args : list Lisp_Object) : E Lisp_Object := fun w =>
  let '(r, w) := subr name args w in (of_sum r, w).
Definition call_int (name : string) (args : list Lisp_Object) : E Z := fun w =>
  let '(r, w) := subr_int name args w in (of_sum r, w).
End Monad.
Arguments E X A : clear implicits.

Declare Scope exec_scope.
Notation "x <<- m ; k" := (e_bind m (fun x => k))
  (at level 100, m at next level, k at level 200, right associativity) : exec_scope.
Notation "m ;;> k" := (e_bind m (fun _ => k))
  (at level 100, k at level 200, right associativity) : exec_scope.
Local Open Scope exec_scope.

(** ** Objects *)

Definition STRINGP (x : Lisp_Object) : bool := RECORDP x lrecord_string.
Definition MARKERP (x : Lisp_Object) : bool := RECORDP x lrecord_marker.
Definition SYMBOL_VALUE_MAGIC_P (x : Lisp_Object) : bool := RECORDP x lrecord_symbol_value_magic.

Definition Qnumber_char_or_marker_p : Lisp_Object := LRec lrecord_symbol 3.
Definition Qconsp : Lisp_Object := LRec lrecord_symbol 4.
Definition Qarith_error : Lisp_Object := LRec lrecord_symbol 5.
Definition Qstandard_output : Lisp_Object := LRec lrecord_symbol 6.

Definition addr_of (x : Lisp_Object) : positive := match x with LRec _ a => a | _ => 1%positive end.

(** A Lisp integer keeps 63 bits. *)
Definition fixnum (z : Z) : Z := (z + 2 ^ 62) mod 2 ^ 63 - 2 ^ 62.
Definition make_int (z : Z) : Lisp_Object := LInt (fixnum z).

Section Objects.
Context {X : Type}.

(** [XCAR] and [XCDR]; a pointer to a cons is to one that is in use. *)
Definition XCONS (x : Lisp_Object) (w : lisp X) : Lisp_Object * Lisp_Object :=
  default (Qnil, Qnil) (l_conses w !! addr_of x).
Definition XCAR (x : Lisp_Object) : E X Lisp_Object := e_get (fun w => (XCONS x w).1).
Definition XCDR (x : Lisp_Object) : E X Lisp_Object := e_get (fun w => (XCONS x w).2).

Definition XSETCDR (x v : Lisp_Object) : E X unit := e_upd (fun w =>
  set_conses w (<[addr_of x := ((XCONS x w).1, v)]> (l_conses w))).

(** [Fcons] takes a cons that is not in use. *)
Definition Fcons (car cdr : Lisp_Object) : E X Lisp_Object := fun w =>
  let a := fresh (dom (l_conses w)) in
  (Value (LRec lrecord_cons a), set_conses w (<[a := (car, cdr)]> (l_conses w))).

Definition XFLOAT_DATA (x : Lisp_Object) (w : lisp X) : double :=
  default (S754_zero false) (l_floats w !! addr_of x).

Definition make_float (d : double) : E X Lisp_Object := fun w =>
  let a := fresh (dom (l_floats w)) in
  (Value (LRec lrecord_float a), set_floats w (<[a := d]> (l_floats w))).

(** [XSYMBOL (x)->value]. *)
Definition symbol_value (x : Lisp_Object) (w : lisp X) : Lisp_Object :=
  default Qunbound (l_values w !! addr_of x).

Definition set_symbol_value (x v : Lisp_Object) : E X unit := e_upd (fun w =>
  set_values w (<[addr_of x := v]> (l_values w))).

(** A value that can be replaced without asking what kind of variable it is. *)
Definition plain_value (v : Lisp_Object) : bool := negb (SYMBOL_VALUE_MAGIC_P v) || UNBOUNDP v.
End Objects.

(** ** The stack of bindings *)

Definition min_max_specpdl_size : Z := 400.

Section Specpdl.
Context {X : Type} `{Subrs X}.

Definition specpdl_depth (w : lisp X) : Z := zlen (l_specpdl w).

(** The loop of [grow_specpdl]. *)
Fixpoint grow_loop (fuel : nat) (size size_needed max : Z) : option Z :=
  if size <? size_needed then
    match fuel with
    | 0%nat => None
    | S fuel =>
        let size := size * 2 in
        grow_loop fuel (if size >? max then max else size) size_needed max
    end
  else Some size.

Definition grow_specpdl (reserved : Z) : E X unit :=
  depth <<- e_get specpdl_depth;
  let size_needed := depth + reserved in
  max <<- e_get l_max_specpdl_size;
  (if size_needed >=? max then
     (if max <? min_max_specpdl_size
      then e_upd (fun w => set_sizes w (l_specpdl_size w) min_max_specpdl_size) else e_ret tt) ;;>
     max <<- e_get l_max_specpdl_size;
     (if size_needed >=? max then
        debug <<- e_get l_debug_on_error;
        (if debug : bool then e_upd (fun w => set_sizes w (l_specpdl_size w) (size_needed + 100)) else e_ret tt) ;;>
        call "continuable_error" [] ;;> e_ret tt
      else e_ret tt)
   else e_ret tt) ;;>
  size <<- e_get l_specpdl_size;
  max <<- e_get l_max_specpdl_size;
  size <<- e_access no_fuel (grow_loop (Z.to_nat size_needed + 1) size size_needed max);
  e_upd (fun w => set_sizes w size (l_max_specpdl_size w)).

Definition SPECPDL_RESERVE (size : Z) : E X unit :=
  depth <<- e_get specpdl_depth;
  space <<- e_get l_specpdl_size;
  if depth + size >=? space then grow_specpdl size else e_ret tt.

(** Writing the entry at [specpdl_ptr] and advancing it; the code does not look
    whether there is space. *)
Definition push_specpdl (b : specbinding) : E X unit := fun w =>
  if specpdl_depth w <? l_specpdl_size w
  then (Value tt, set_specpdl w (b :: l_specpdl w)) else (Trouble bad_write, w).

Definition record_unwind_protect (function : string) (arg : Lisp_Object) : E X unit :=
  SPECPDL_RESERVE 1 ;;>
  push_specpdl (mk_specbinding Qnil arg (Some function)).

(** [specbind_magic]: variables whose binding is local to a buffer. *)
Definition specbind_magic (symbol value : Lisp_Object) : E X unit :=
  buffer_local <<- call_int "symbol_value_buffer_local_info" [symbol];
  (if buffer_local =? 0 then
     v <<- call "find_symbol_value" [symbol];
     push_specpdl (mk_specbinding symbol v None)
   else if buffer_local >? 0 then
     buffer <<- call "Fcurrent_buffer" [];
     v <<- call "find_symbol_value" [symbol];
     c <<- call "noseeum_cons" [buffer; v];
     push_specpdl (mk_specbinding symbol c (Some "specbind_unwind_local"%string))
   else
     buffer <<- call "Fcurrent_buffer" [];
     push_specpdl (mk_specbinding symbol buffer (Some "specbind_unwind_wasnt_local"%string))) ;;>
  call "Fset" [symbol; value] ;;> e_ret tt.

(** [SPECBIND_FAST_UNSAFE], and the code of [Bvarbind]. *)
Definition SPECBIND_FAST_UNSAFE (symbol newval : Lisp_Object) : E X unit :=
  oldval <<- e_get (symbol_value symbol);
  if plain_value oldval then
    push_specpdl (mk_specbinding symbol oldval None) ;;> set_symbol_value symbol newval
  else specbind_magic symbol newval.

(** [specbind]. *)
Definition specbind (SYMBOL_IS_KEYWORD : Lisp_Object -> bool) (symbol newval : Lisp_Object) : E X unit :=
  SPECPDL_RESERVE 1 ;;>
  (if RECORDP symbol lrecord_symbol then e_ret tt
   else call "dead_wrong_type_argument" [symbol] ;;> e_trouble aborted) ;;>
  oldval <<- e_get (symbol_value symbol);
  if plain_value oldval then
    (if EQ symbol Qnil || EQ symbol Qt || SYMBOL_IS_KEYWORD symbol
     then call "reject_constant_symbols" [symbol; newval] ;;> e_ret tt else e_ret tt) ;;>
    push_specpdl (mk_specbinding symbol oldval None) ;;> set_symbol_value symbol newval
  else specbind_magic symbol newval.

(** Undoing the binding at the top, which was taken off. *)
Definition undo_binding (b : specbinding) : E X unit :=
  match sb_func b with
  | Some function => call function [sb_old_value b] ;;> e_ret tt
  | None =>
      v <<- e_get (symbol_value (sb_symbol b));
      if SYMBOL_VALUE_MAGIC_P v then call "Fset" [sb_symbol b; sb_old_value b] ;;> e_ret tt
      else set_symbol_value (sb_symbol b) (sb_old_value b)
  end.

(** The loop of [unbind_to_hairy]: each turn takes a binding off. *)
Fixpoint unbind_hairy_loop (fuel : nat) (count : Z) : E X unit :=
  depth <<- e_get specpdl_depth;
  if depth =? count then e_ret tt
  else match fuel with
  | 0%nat => e_trouble no_fuel
  | S fuel =>
      l <<- e_get l_specpdl;
      match l with
      | [] => e_trouble bad_read
      | b :: l => e_upd (fun w => set_specpdl w l) ;;> undo_binding b ;;> unbind_hairy_loop fuel count
      end
  end.

(** [unbind_to_hairy]: a quit that is pending waits until all is undone. *)
Definition unbind_to_hairy (count : Z) : E X unit :=
  call "check_quit" [] ;;>
  quitf <<- e_get l_quit_flag;
  e_upd (fun w => set_quit_flag w Qnil) ;;>
  depth <<- e_get specpdl_depth;
  unbind_hairy_loop (Z.to_nat depth) count ;;>
  (if negb (NILP quitf) then e_upd (fun w => set_quit_flag w Qt) else e_ret tt).

(** [UNBIND_TO]: variables with plain values here, the rest in [unbind_to_hairy].
    [fuel] is the depth of the stack. *)
Fixpoint unbind_loop (fuel : nat) (count : Z) : E X unit :=
  depth <<- e_get specpdl_depth;
  if depth =? count then e_ret tt
  else match fuel with
  | 0%nat => e_trouble bad_read
  | S fuel =>
      l <<- e_get l_specpdl;
      match l with
      | [] => e_trouble bad_read
      | b :: l =>
          v <<- e_get (symbol_value (sb_symbol b));
          if (match sb_func b with Some _ => true | None => false end) || SYMBOL_VALUE_MAGIC_P v
          then unbind_to_hairy count
          else e_upd (fun w => set_specpdl w l) ;;>
               set_symbol_value (sb_symbol b) (sb_old_value b) ;;> unbind_loop fuel count
      end
  end.

Definition UNBIND_TO (count : Z) : E X unit :=
  depth <<- e_get specpdl_depth; unbind_loop (Z.to_nat depth) count.
End Specpdl.
