(* ===== verification/Execute.v ===== *)
(** * The interpreter of byte code (src/src/bytecode.c)

    [execute_optimized_program] runs a program on a stack of its own.  The operand
    of an instruction is read before anything else happens; apart from that an
    instruction does what its case of the switch does.  The first element of the
    stack is a dummy: its content is never set, so reading it is trouble. *)

From Corelib Require Import SpecFloat.
From S2P Require Import Prelude Lisp ElHash Bytecode Optimizer Specpdl.
Local Open Scope exec_scope.

(** ** Arithmetic *)

Section Arithmetic.
Context {X : Type} `{Subrs X}.

(** The first three tests of the arithmetic functions. *)
Definition integer_of (obj : Lisp_Object) : E X (option Z) :=
  match obj with
  | LInt n => e_ret (Some n)
  | LChar c => e_ret (Some c)
  | _ => if MARKERP obj then p <<- call_int "marker_position" [obj]; e_ret (Some p) else e_ret None
  end.

Definition double_of (obj : Lisp_Object) : E X (option double) :=
  if FLOATP obj then d <<- e_get (XFLOAT_DATA obj); e_ret (Some d)
  else i <<- integer_of obj; e_ret (option_map double_of_Z i).

Definition wrong_type_argument (predicate value : Lisp_Object) : E X Lisp_Object :=
  call "wrong_type_argument" [predicate; value].

(** [bytecode_negate].  The error function returns only what passes the test, so
    three rounds are enough here and below. *)
Fixpoint bytecode_negate (fuel : nat) (obj : Lisp_Object) : E X Lisp_Object :=
  match fuel with
  | 0%nat => e_trouble no_fuel
  | S fuel =>
      if FLOATP obj then d <<- e_get (XFLOAT_DATA obj); make_float (SFopp d)
      else i <<- integer_of obj;
           match i with
           | Some n => e_ret (make_int (- (if INTP obj then n else to_int n)))
           | None => obj <<- wrong_type_argument Qnumber_char_or_marker_p obj; bytecode_negate fuel obj
           end
  end.

Definition compare_Z (a b : Z) : Z := if a <? b then -1 else if a >? b then 1 else 0.
Definition compare_double (a b : double) : Z := if SFltb a b then -1 else if SFltb b a then 1 else 0.

(** [bytecode_arithcompare]. *)
Fixpoint bytecode_arithcompare (fuel : nat) (obj1 obj2 : Lisp_Object) : E X Z :=
  match fuel with
  | 0%nat => e_trouble no_fuel
  | S fuel =>
      i1 <<- integer_of obj1;
      i2 <<- (match i1 with Some _ => integer_of obj2 | None => e_ret None end);
      match i1, i2 with
      | Some ival1, Some ival2 => e_ret (compare_Z ival1 ival2)
      | _, _ =>
          d1 <<- double_of obj1;
          match d1 with
          | None => obj1 <<- wrong_type_argument Qnumber_char_or_marker_p obj1;
                    bytecode_arithcompare fuel obj1 obj2
          | Some dval1 =>
              d2 <<- double_of obj2;
              match d2 with
              | None => obj2 <<- wrong_type_argument Qnumber_char_or_marker_p obj2;
                        bytecode_arithcompare fuel obj1 obj2
              | Some dval2 => e_ret (compare_double dval1 dval2)
              end
          end
      end
  end.

Definition Bquo : Z := 165.
Definition Bplus : Z := 92.
Definition Bdiff : Z := 90.
Definition Bmult : Z := 95.
Definition Bmax : Z := 93.
Definition Bmin : Z := 94.

Definition dsub : double -> double -> double := SFsub 53 1024.

(** The switch on integers: products wrap before they are cut to 63 bits, which is
    the same as cutting them. *)
Definition arithop_int (opcode ival1 ival2 : Z) : E X Lisp_Object :=
  if opcode =? Bplus then e_ret (make_int (ival1 + ival2))
  else if opcode =? Bdiff then e_ret (make_int (ival1 - ival2))
  else if opcode =? Bmult then e_ret (make_int (ival1 * ival2))
  else if opcode =? Bquo then
    if ival2 =? 0 then call "Fsignal" [Qarith_error; Qnil] ;;> e_trouble aborted
    else e_ret (make_int (Z.quot ival1 ival2))
  else if opcode =? Bmax then e_ret (make_int (if ival1 <? ival2 then ival2 else ival1))
  else if opcode =? Bmin then e_ret (make_int (if ival1 >? ival2 then ival2 else ival1))
  else e_ret (make_int ival1).

Definition arithop_double (opcode : Z) (dval1 dval2 : double) : E X Lisp_Object :=
  if opcode =? Bplus then make_float (dadd dval1 dval2)
  else if opcode =? Bdiff then make_float (dsub dval1 dval2)
  else if opcode =? Bmult then make_float (dmul dval1 dval2)
  else if opcode =? Bquo then
    (if SFeqb dval2 (S754_zero false) then call "Fsignal" [Qarith_error; Qnil] ;;> e_ret tt else e_ret tt) ;;>
    make_float (ddiv dval1 dval2)
  else if opcode =? Bmax then make_float (if SFltb dval1 dval2 then dval2 else dval1)
  else if opcode =? Bmin then make_float (if SFltb dval2 dval1 then dval2 else dval1)
  else make_float dval1.

(** [ival] is 0 for a float. *)
Definition classify (obj : Lisp_Object) : E X (option (Z * bool)) :=
  i <<- integer_of obj;
  e_ret (match i with Some n => Some (n, false) | None => if FLOATP obj then Some (0, true) else None end).

(** [bytecode_arithop]. *)
Fixpoint bytecode_arithop (fuel : nat) (obj1 obj2 : Lisp_Object) (opcode : Z) : E X Lisp_Object :=
  match fuel with
  | 0%nat => e_trouble no_fuel
  | S fuel =>
      c1 <<- classify obj1;
      match c1 with
      | None => obj1 <<- wrong_type_argument Qnumber_char_or_marker_p obj1; bytecode_arithop fuel obj1 obj2 opcode
      | Some (ival1, float1) =>
          c2 <<- classify obj2;
          match c2 with
          | None => obj2 <<- wrong_type_argument Qnumber_char_or_marker_p obj2; bytecode_arithop fuel obj1 obj2 opcode
          | Some (ival2, float2) =>
              if float1 || float2 : bool then
                dval1 <<- e_get (fun w => if FLOATP obj1 then XFLOAT_DATA obj1 w else double_of_Z ival1);
                dval2 <<- e_get (fun w => if FLOATP obj2 then XFLOAT_DATA obj2 w else double_of_Z ival2);
                arithop_double opcode dval1 dval2
              else arithop_int opcode ival1 ival2
          end
      end
  end.

(** [INT_PLUS] and [INT_MINUS] on words. *)
Definition plus_op (arg1 arg2 : Lisp_Object) : E X Lisp_Object :=
  match arg1, arg2 with
  | LInt a, LInt b => e_ret (make_int (a + b))
  | _, _ => bytecode_arithop 3 arg1 arg2 Bplus
  end.

Definition diff_op (arg1 arg2 : Lisp_Object) : E X Lisp_Object :=
  match arg1, arg2 with
  | LInt a, LInt b => e_ret (make_int (a - b))
  | _, _ => bytecode_arithop 3 arg1 arg2 Bdiff
  end.

(** [bytecode_nreverse]; no cons is visited more than twice. *)
Fixpoint nreverse_loop (fuel : nat) (prev tail : Lisp_Object) : E X Lisp_Object :=
  if NILP tail then e_ret prev
  else match fuel with
  | 0%nat => e_trouble no_fuel
  | S fuel =>
      if CONSP tail then
        next <<- XCDR tail;
        XSETCDR tail prev ;;>
        nreverse_loop fuel tail next
      else call "dead_wrong_type_argument" [Qconsp; tail] ;;> e_trouble aborted
  end.

Definition bytecode_nreverse (list : Lisp_Object) : E X Lisp_Object :=
  n <<- e_get (fun w => size (l_conses w));
  nreverse_loop (2 * n + 2) Qnil list.
End Arithmetic.

(** ** The machine *)

Record machine (X : Type) := mk_machine {
  m_pc : Z;
  m_stack : list Lisp_Object;
  m_sp : Z;
  m_lisp : lisp X;
}.
Arguments mk_machine {X}. Arguments m_pc {X}. Arguments m_stack {X}. Arguments m_sp {X}. Arguments m_lisp {X}.

Section Machine.
Context {X : Type} `{Subrs X}.

(** A step goes on with the next machine or ends the program with a value. *)
Inductive step_result :=
| Next (m : machine X)
| Returned (v : Lisp_Object) (w : lisp X)
| Left (what : Lisp_Object) (w : lisp X)
| Stuck (why : trouble).

Definition m_bind {A} (e : E X A) (m : machine X) (k : A -> machine X -> step_result) : step_result :=
  match e (m_lisp m) with
  | (Value a, w) => k a (mk_machine (m_pc m) (m_stack m) (m_sp m) w)
  | (Thrown what, w) => Left what w
  | (Trouble why, _) => Stuck why
  end.

Definition set_pc (pc : Z) (m : machine X) : machine X := mk_machine pc (m_stack m) (m_sp m) (m_lisp m).

(** [TOP], and the value [n] places below it. *)
Definition stack_at (m : machine X) (n : Z) : option Lisp_Object :=
  if m_sp m - n <=? 0 then None else zget (m_stack m) (m_sp m - n).

Definition with_top (m : machine X) (k : Lisp_Object -> step_result) : step_result :=
  match stack_at m 0 with Some v => k v | None => Stuck bad_read end.

(** [DISCARD (n)]. *)
Definition discard (n : Z) (m : machine X) : machine X :=
  mk_machine (m_pc m) (m_stack m) (m_sp m - n) (m_lisp m).

(** [TOP = v], and [PUSH (v)]. *)
Definition set_top (v : Lisp_Object) (m : machine X) : step_result :=
  if (m_sp m <? 0) || (m_sp m >=? zlen (m_stack m)) then Stuck bad_write
  else Next (mk_machine (m_pc m) (zset (m_stack m) (m_sp m) v) (m_sp m) (m_lisp m)).

Definition push (v : Lisp_Object) (m : machine X) : step_result := set_top v (discard (-1) m).

(** The [n] values on top of the stack, the deepest first. *)
Fixpoint take_args (n : nat) (m : machine X) : option (list Lisp_Object) :=
  match n with
  | 0%nat => Some []
  | S n => v ← stack_at m (Z.of_nat n); l ← take_args n m; Some (v :: l)
  end.

(** [TOP = f (...)] after the arguments above the first one were popped; a
    function of no arguments is for [PUSH (f ())]. *)
Definition apply_op (n : nat) (f : list Lisp_Object -> E X Lisp_Object) (m : machine X) : step_result :=
  match take_args n m with
  | None => Stuck bad_read
  | Some args => m_bind (f args) m (fun v m => set_top v (discard (Z.of_nat n - 1) m))
  end.

(** [JUMP]: only a jump backwards looks for a quit. *)
Definition do_goto (from to : Z) (m : machine X) : step_result :=
  m_bind (if to - (from + 1) <? 0 then call "QUIT" [] else e_ret Qnil) m (fun _ m => Next (set_pc to m)).

(** ** Operations that only take arguments and give a value *)

Definition bool_object (b : bool) : Lisp_Object := if b then Qt else Qnil.

Definition test1 (p : Lisp_Object -> bool) (args : list Lisp_Object) : E X Lisp_Object :=
  match args with [a] => e_ret (bool_object (p a)) | _ => e_trouble bad_read end.
Definition test2 (p : Lisp_Object -> Lisp_Object -> bool) (args : list Lisp_Object) : E X Lisp_Object :=
  match args with [a; b] => e_ret (bool_object (p a b)) | _ => e_trouble bad_read end.
Definition fun1 (f : Lisp_Object -> E X Lisp_Object) (args : list Lisp_Object) : E X Lisp_Object :=
  match args with [a] => f a | _ => e_trouble bad_read end.
Definition fun2 (f : Lisp_Object -> Lisp_Object -> E X Lisp_Object) (args : list Lisp_Object) : E X Lisp_Object :=
  match args with [a; b] => f a b | _ => e_trouble bad_read end.
Definition fun3 (f : Lisp_Object -> Lisp_Object -> Lisp_Object -> E X Lisp_Object) (args : list Lisp_Object)
    : E X Lisp_Object :=
  match args with [a; b; c] => f a b c | _ => e_trouble bad_read end.

(** A Lisp function of the arguments, followed by [nils] arguments nil. *)
Definition lisp_fun (name : string) (nils : nat) (args : list Lisp_Object) : E X Lisp_Object :=
  call name (args ++ replicate nils Qnil).

Definition int_fun (name : string) (args : list Lisp_Object) : E X Lisp_Object :=
  n <<- call_int name args; e_ret (make_int n).

Definition compare_op (p : Z -> bool) : list Lisp_Object -> E X Lisp_Object :=
  fun2 (fun a b => c <<- bytecode_arithcompare 3 a b; e_ret (bool_object (p c))).

Fixpoint list_of (args : list Lisp_Object) : E X Lisp_Object :=
  match args with
  | [] => e_ret Qnil
  | a :: args => l <<- list_of args; Fcons a l
  end.

Definition save_window_excursion (body : Lisp_Object) : E X Lisp_Object :=
  count <<- e_get specpdl_depth;
  c <<- call "Fcurrent_window_configuration" [Qnil];
  record_unwind_protect "save_window_excursion_unwind" c ;;>
  v <<- call "Fprogn" [body];
  UNBIND_TO count ;;> e_ret v.

(** [temp_output_buffer_setup] of print.c. *)
Definition temp_output_buffer_setup (SYMBOL_IS_KEYWORD : Lisp_Object -> bool) (bufname : Lisp_Object) : E X unit :=
  old <<- call "current_buffer" [];
  b <<- call "Fget_buffer_create" [bufname];
  call "Fset_buffer" [b] ;;>
  call "current_buffer->read_only =" [Qnil] ;;>
  call "Ferase_buffer" [Qnil] ;;>
  buf <<- call "current_buffer" [];
  specbind SYMBOL_IS_KEYWORD Qstandard_output buf ;;>
  call "set_buffer_internal" [old] ;;> e_ret tt.

Definition temp_output_buffer_show (buf arg : Lisp_Object) : E X Lisp_Object :=
  call "temp_output_buffer_show" [buf; Qnil] ;;>
  depth <<- e_get specpdl_depth;
  UNBIND_TO (depth - 1) ;;> e_ret arg.

(** The cases of [execute_optimized_program] that take values from the stack and
    put one there: how many they take, and what they do. *)
Definition object_ops : list (Z * (nat * (list Lisp_Object -> E X Lisp_Object))) := [
  (64, (1%nat, fun1 (fun a => if CONSP a then XCAR a else call "Fcar" [a])));
  (65, (1%nat, fun1 (fun a => if CONSP a then XCDR a else call "Fcdr" [a])));
  (56, (2%nat, fun2 (fun a b => v <<- call "Fnthcdr" [a; b]; call "Fcar" [v])));
  (57, (1%nat, test1 SYMBOLP));
  (58, (1%nat, test1 CONSP));
  (59, (1%nat, test1 STRINGP));
  (60, (1%nat, test1 LISTP));
  (167, (1%nat, test1 (fun a => INTP a || FLOATP a)));
  (168, (1%nat, test1 INTP));
  (97, (2%nat, test2 EQ));
  (63, (1%nat, test1 NILP));
  (66, (2%nat, fun2 Fcons));
  (67, (1%nat, list_of)); (68, (2%nat, list_of)); (69, (3%nat, list_of)); (70, (4%nat, list_of));
  (80, (2%nat, lisp_fun "Fconcat" 0)); (81, (3%nat, lisp_fun "Fconcat" 0)); (82, (4%nat, lisp_fun "Fconcat" 0));
  (71, (1%nat, lisp_fun "Flength" 0));
  (73, (3%nat, lisp_fun "Faset" 0));
  (74, (1%nat, lisp_fun "Fsymbol_value" 0));
  (75, (1%nat, lisp_fun "Fsymbol_function" 0));
  (78, (2%nat, lisp_fun "Fget" 1))].

Definition arith_ops : list (Z * (nat * (list Lisp_Object -> E X Lisp_Object))) := [
  (83, (1%nat, fun1 (fun a => match a with LInt n => e_ret (make_int (n - 1)) | _ => call "Fsub1" [a] end)));
  (84, (1%nat, fun1 (fun a => match a with LInt n => e_ret (make_int (n + 1)) | _ => call "Fadd1" [a] end)));
  (85, (2%nat, compare_op (fun c => c =? 0)));
  (86, (2%nat, compare_op (fun c => c >? 0)));
  (87, (2%nat, compare_op (fun c => c <? 0)));
  (88, (2%nat, compare_op (fun c => c <=? 0)));
  (89, (2%nat, compare_op (fun c => c >=? 0)));
  (91, (1%nat, fun1 (bytecode_negate 3)));
  (164, (2%nat, lisp_fun "bytecode_nconc2" 0));
  (Bplus, (2%nat, fun2 plus_op));
  (Bdiff, (2%nat, fun2 diff_op));
  (Bmult, (2%nat, fun2 (fun a b => bytecode_arithop 3 a b Bmult)));
  (Bquo, (2%nat, fun2 (fun a b => bytecode_arithop 3 a b Bquo)));
  (Bmax, (2%nat, fun2 (fun a b => bytecode_arithop 3 a b Bmax)));
  (Bmin, (2%nat, fun2 (fun a b => bytecode_arithop 3 a b Bmin)))].

Definition buffer_ops : list (Z * (nat * (list Lisp_Object -> E X Lisp_Object))) := [
  (96, (0%nat, int_fun "BUF_PT"));
  (99, (1%nat, lisp_fun "Finsert" 0));
  (72, (2%nat, lisp_fun "Faref" 0));
  (115, (2%nat, lisp_fun "Fmemq" 0));
  (76, (2%nat, lisp_fun "Fset" 0));
  (107, (2%nat, lisp_fun "Fequal" 0));
  (155, (2%nat, lisp_fun "Fnthcdr" 0));
  (156, (2%nat, lisp_fun "Felt" 0));
  (182, (2%nat, lisp_fun "Fmember" 0));
  (98, (1%nat, lisp_fun "Fgoto_char" 1));
  (112, (0%nat, lisp_fun "current_buffer" 0));
  (113, (1%nat, lisp_fun "Fset_buffer" 0));
  (100, (0%nat, int_fun "BUF_ZV"));
  (101, (0%nat, int_fun "BUF_BEGV"));
  (119, (2%nat, lisp_fun "Fskip_chars_forward" 1));
  (Bassq, (2%nat, lisp_fun "Fassq" 0));
  (160, (2%nat, lisp_fun "Fsetcar" 0));
  (161, (2%nat, lisp_fun "Fsetcdr" 0));
  (159, (1%nat, fun1 bytecode_nreverse));
  (162, (1%nat, fun1 (fun a => if CONSP a then XCAR a else e_ret Qnil)));
  (163, (1%nat, fun1 (fun a => if CONSP a then XCDR a else e_ret Qnil)))].

Definition common_ops : list (Z * (nat * (list Lisp_Object -> E X Lisp_Object))) :=
  object_ops ++ arith_ops ++ buffer_ops.

(** Those of [execute_rare_opcode]. *)
Definition form_ops : list (Z * (nat * (list Lisp_Object -> E X Lisp_Object))) := [
  (139, (1%nat, fun1 save_window_excursion));
  (141, (2%nat, fun2 (fun a b => call "internal_catch" [a; b])));
  (120, (2%nat, lisp_fun "Fskip_chars_backward" 1));
  (143, (3%nat, fun3 (fun var bodyform handlers => call "condition_case_3" [bodyform; var; handlers])));
  (147, (3%nat, lisp_fun "Fset_marker" 0));
  (166, (2%nat, lisp_fun "Frem" 0));
  (148, (1%nat, lisp_fun "Fmatch_beginning" 0));
  (149, (1%nat, lisp_fun "Fmatch_end" 0));
  (150, (1%nat, lisp_fun "Fupcase" 1));
  (151, (1%nat, lisp_fun "Fdowncase" 1));
  (77, (2%nat, lisp_fun "Ffset" 0));
  (152, (2%nat, lisp_fun "Fstring_equal" 0));
  (153, (2%nat, lisp_fun "Fstring_lessp" 0));
  (79, (3%nat, lisp_fun "Fsubstring" 0));
  (105, (0%nat, int_fun "current_column"));
  (102, (1%nat, lisp_fun "Fchar_after" 1));
  (106, (1%nat, lisp_fun "Findent_to" 2))].

Definition motion_ops : list (Z * (nat * (list Lisp_Object -> E X Lisp_Object))) := [
  (126, (0%nat, lisp_fun "Fwiden" 1));
  (103, (0%nat, lisp_fun "Ffollowing_char" 1));
  (104, (0%nat, lisp_fun "Fpreceding_char" 1));
  (108, (0%nat, lisp_fun "Feolp" 1));
  (109, (0%nat, lisp_fun "Feobp" 1));
  (110, (0%nat, lisp_fun "Fbolp" 1));
  (111, (0%nat, lisp_fun "Fbobp" 1));
  (116, (0%nat, lisp_fun "Finteractive_p" 0));
  (117, (1%nat, lisp_fun "Fforward_char" 1));
  (118, (1%nat, lisp_fun "Fforward_word" 1));
  (121, (1%nat, lisp_fun "Fforward_line" 1));
  (122, (1%nat, lisp_fun "Fchar_syntax" 1));
  (123, (2%nat, lisp_fun "Fbuffer_substring" 1));
  (124, (2%nat, lisp_fun "Fdelete_region" 1));
  (125, (2%nat, lisp_fun "Fnarrow_to_region" 1));
  (127, (1%nat, lisp_fun "Fend_of_line" 1));
  (61, (2%nat, test2 HACKEQ_UNSAFE));
  (62, (2%nat, lisp_fun "Fold_memq" 0));
  (154, (2%nat, lisp_fun "Fold_equal" 0));
  (157, (2%nat, lisp_fun "Fold_member" 0));
  (158, (2%nat, lisp_fun "Fold_assq" 0))].

Definition rare_ops : list (Z * (nat * (list Lisp_Object -> E X Lisp_Object))) := form_ops ++ motion_ops.

Fixpoint assoc_op {A} (op : Z) (l : list (Z * A)) : option A :=
  match l with
  | [] => None
  | (op', a) :: l => if op =? op' then Some a else assoc_op op l
  end.
End Machine.

(** ** Running a program *)

Definition Breturn : Z := 135.
Definition Bdup : Z := 137.
Definition Bunbind_all : Z := 146.
Definition Bsave_excursion : Z := 138.
Definition Bsave_restriction : Z := 140.
Definition Bsave_current_buffer : Z := 114.
Definition Bunwind_protect : Z := 142.
Definition Btemp_output_buffer_setup : Z := 144.
Definition Btemp_output_buffer_show : Z := 145.

Section Execute.
Context {X : Type} `{Subrs X}.
Variable SYMBOL_IS_KEYWORD : Lisp_Object -> bool.
Variable program : list Z.
Variable constants_data : list Lisp_Object.
(** [specpdl_depth ()] on entry. *)
Variable speccount : Z.

Definition with_constant (n : Z) (k : Lisp_Object -> step_result) : step_result :=
  match zget constants_data n with Some v => k v | None => Stuck (X := X) bad_read end.

(** The label [do_varref]. *)
Definition exec_varref (n : Z) (m : machine X) : step_result :=
  with_constant n (fun symbol =>
    let value := symbol_value symbol (m_lisp m) in
    if SYMBOL_VALUE_MAGIC_P value
    then m_bind (call "Fsymbol_value" [symbol]) m push
    else push value m).

(** The label [do_varset]. *)
Definition exec_varset (n : Z) (m : machine X) : step_result :=
  with_constant n (fun symbol =>
    let old_value := symbol_value symbol (m_lisp m) in
    with_top m (fun new_value =>
      let m := discard 1 m in
      if plain_value old_value
      then m_bind (set_symbol_value symbol new_value) m (fun _ m => Next m)
      else m_bind (call "Fset" [symbol; new_value]) m (fun _ m => Next m))).

(** The label [do_varbind]. *)
Definition exec_varbind (n : Z) (m : machine X) : step_result :=
  with_constant n (fun symbol =>
    with_top m (fun new_value =>
      m_bind (SPECBIND_FAST_UNSAFE symbol new_value) (discard 1 m) (fun _ m => Next m))).

Definition exec_narg (base n : Z) (m : machine X) : step_result :=
  if base =? Bvarref then exec_varref n m
  else if base =? Bvarset then exec_varset n m
  else if base =? Bvarbind then exec_varbind n m
  else if base =? Bcall then apply_op (Z.to_nat n + 1) (lisp_fun "Ffuncall" 0) m
  else m_bind (depth <<- e_get specpdl_depth; UNBIND_TO (depth - n)) m (fun _ m => Next m).

(** The jumps, at [from]; the test of a jump pops its argument, or keeps it when
    the jump is taken. *)
Definition exec_jump (kind from to : Z) (m : machine X) : step_result :=
  if kind =? 0 then do_goto from to m
  else with_top m (fun v =>
    let taken := if (kind =? 1) || (kind =? 3) then NILP v else negb (NILP v) in
    if kind <=? 2 then
      if taken then do_goto from to (discard 1 m) else Next (discard 1 m)
    else if taken then do_goto from to m else Next (discard 1 m)).

(** [BlistN], [BconcatN], [BinsertN].  The loop of [BlistN] counts down from its
    operand before it tests, and runs off the stack when that is 0. *)
Definition exec_count (opcode n : Z) (m : machine X) : step_result :=
  if opcode =? BlistN then
    if n =? 0 then Stuck bad_read else apply_op (Z.to_nat n) list_of m
  else if opcode =? BconcatN then apply_op (Z.to_nat n) (lisp_fun "Fconcat" 0) m
  else apply_op (Z.to_nat n) (lisp_fun "Finsert" 0) m.

Definition protect (function : string) (save : E X Lisp_Object) : E X unit :=
  v <<- save; record_unwind_protect function v.

(** The other cases, those of [execute_rare_opcode] included. *)
Definition exec_op (opcode : Z) (m : machine X) : step_result :=
  if opcode =? Breturn then with_top m (fun v => Returned v (m_lisp m))
  else if opcode =? Bdiscard then Next (discard 1 m)
  else if opcode =? Bdup then with_top m (fun v => push v m)
  else if opcode =? Bunbind_all then m_bind (UNBIND_TO speccount) m (fun _ m => Next m)
  else if opcode =? Bsave_excursion then
    m_bind (protect "save_excursion_restore" (call "save_excursion_save" [])) m (fun _ m => Next m)
  else if opcode =? Bsave_restriction then
    m_bind (protect "save_restriction_restore" (call "save_restriction_save" [])) m (fun _ m => Next m)
  else if opcode =? Bsave_current_buffer then
    m_bind (protect "save_current_buffer_restore" (call "Fcurrent_buffer" [])) m (fun _ m => Next m)
  else if opcode =? Bunwind_protect then
    with_top m (fun v => m_bind (protect "Fprogn" (e_ret v)) (discard 1 m) (fun _ m => Next m))
  else if opcode =? Btemp_output_buffer_setup then
    apply_op 1 (fun1 (fun a => temp_output_buffer_setup SYMBOL_IS_KEYWORD a ;;> call "Vstandard_output" [])) m
  else if opcode =? Btemp_output_buffer_show then apply_op 2 (fun2 temp_output_buffer_show) m
  else match assoc_op opcode (common_ops ++ rare_ops) with
  | Some (n, f) => apply_op n f m
  | None => Stuck aborted
  end.

Definition exec_insn (ins : insn) (from : Z) (m : machine X) : step_result :=
  match ins with
  | INarg base n => exec_narg base n m
  | IJump kind to => exec_jump kind from to m
  | IConst n => with_constant n (fun v => push v m)
  | ICount opcode n => exec_count opcode n m
  | IOp opcode => exec_op opcode m
  end.

(** One turn of the loop of [execute_optimized_program]. *)
Definition exec_step (m : machine X) : step_result :=
  match decode_program program (m_pc m) with
  | Some (ins, next) => exec_insn ins (m_pc m) (set_pc next m)
  | None => Stuck bad_read
  end.

Fixpoint exec_loop (fuel : nat) (m : machine X) : run_result Lisp_Object * lisp X :=
  match fuel with
  | 0%nat => (Trouble no_fuel, m_lisp m)
  | S fuel =>
      match exec_step m with
      | Next m => exec_loop fuel m
      | Returned v w => (Value v, w)
      | Left what w => (Thrown what, w)
      | Stuck why => (Trouble why, m_lisp m)
      end
  end.
End Execute.

(** [execute_optimized_program]: the stack begins with the dummy and holds nil. *)
Definition execute_optimized_program {X} `{Subrs X} (SYMBOL_IS_KEYWORD : Lisp_Object -> bool) (fuel : nat)
    (program : list Z) (stack_depth : Z) (constants_data : list Lisp_Object) : E X Lisp_Object := fun w =>
  exec_loop SYMBOL_IS_KEYWORD program constants_data (specpdl_depth w) fuel
    (mk_machine 0 (replicate (Z.to_nat stack_depth + 1) Qnil) 0 w).

(** ** Calling a compiled function *)

(** The members of [Lisp_Compiled_Function] that a call reads.  The instructions
    are a byte string, or the optimized program. *)
Inductive instructions := Bytes (s : list Z) | Opaque (program : list Z).

Record Lisp_Compiled_Function := mk_compiled {
  cf_instructions : instructions;
  cf_constants : list Lisp_Object;
  cf_arglist : list Lisp_Object;
  cf_stack_depth : Z;
  cf_specpdl_depth : Z;
}.

(** [optimize_compiled_function], of a function that was read in: the number of
    bindings is kept as an [unsigned short]. *)
Definition optimize_compiled_function (SYMBOL_IS_KEYWORD : Lisp_Object -> bool) (f : Lisp_Compiled_Function)
    : bc_result Lisp_Compiled_Function :=
  match cf_instructions f with
  | Opaque _ => Good f
  | Bytes s =>
      match optimize_byte_code SYMBOL_IS_KEYWORD s (cf_constants f) with
      | Good (program, varbind_count) =>
          Good (mk_compiled (Opaque program) (cf_constants f) (cf_arglist f) (cf_stack_depth f)
                  ((zlen (cf_arglist f) + varbind_count) mod 2 ^ 16))
      | Invalid e => Invalid e
      | Bad why => Bad why
      end
  end.

Section Funcall.
Context {X : Type} `{Subrs X}.
Variable SYMBOL_IS_KEYWORD : Lisp_Object -> bool.

Definition Qand_rest : Lisp_Object := LRec lrecord_symbol 7.
Definition Qand_optional : Lisp_Object := LRec lrecord_symbol 8.

(** The loop that binds the arguments; [false]: wrong number of arguments.
    [&optional] may be repeated, and what follows [&rest] is not looked at. *)
Fixpoint bind_args (arglist args : list Lisp_Object) (optional : bool) : E X bool :=
  match arglist with
  | [] => e_ret (match args with [] => true | _ => false end)
  | symbol :: tail =>
      if EQ symbol Qand_rest then
        match tail with
        | symbol :: _ => rest <<- list_of args; SPECBIND_FAST_UNSAFE symbol rest ;;> e_ret true
        | [] => e_trouble bad_read
        end
      else if EQ symbol Qand_optional then bind_args tail args true
      else match args with
      | [] => if optional : bool then SPECBIND_FAST_UNSAFE symbol Qnil ;;> bind_args tail [] optional
              else e_ret false
      | a :: args => SPECBIND_FAST_UNSAFE symbol a ;;> bind_args tail args optional
      end
  end.

Definition Qwrong_number_of_arguments : Lisp_Object := LRec lrecord_symbol 9.
Definition Qinvalid_byte_code : Lisp_Object := LRec lrecord_symbol 10.

(** [funcall_compiled_function].  The function that an error names is the one
    called, not the symbol that the backtrace may have for it; storing the program
    in the function only saves the next call the work. *)
Definition funcall_compiled_function (fuel : nat) (fun_ : Lisp_Object) (f : Lisp_Compiled_Function)
    (args : list Lisp_Object) : E X Lisp_Object :=
  speccount <<- e_get specpdl_depth;
  match optimize_compiled_function SYMBOL_IS_KEYWORD f with
  | Invalid _ => call "Fsignal" [Qinvalid_byte_code]
  | Bad why => e_trouble why
  | Good f =>
      SPECPDL_RESERVE (cf_specpdl_depth f) ;;>
      ok <<- bind_args (cf_arglist f) args false;
      if ok : bool then
        value <<- execute_optimized_program SYMBOL_IS_KEYWORD fuel
                    (match cf_instructions f with Opaque program => program | Bytes s => s end)
                    (cf_stack_depth f) (cf_constants f);
        UNBIND_TO speccount ;;> e_ret value
      else data <<- list_of [fun_; make_int (zlen args)];
           call "Fsignal" [Qwrong_number_of_arguments; data]
  end.
End Funcall.
