(* ===== verification/ExecInsns.v ===== *)
(** * Running a program is running its instructions

    The interpreter on an optimized program does, step by step, what a machine does
    that has the instructions themselves, with the numbers of instructions for the
    targets of jumps. *)

From S2P Require Import Prelude Lisp ElHash Bytecode Optimizer Jumps Optimized Specpdl Execute.
Local Open Scope exec_scope.

(** ** Instructions in a list *)

(** The number of the instruction that begins at [i] of the byte string. *)
Fixpoint index_of (L : list located) (i : Z) : Z :=
  match L with
  | [] => 0
  | (a, _, _) :: L => if a =? i then 0 else 1 + index_of L i
  end.

Definition index_insn (L : list located) (ins : insn) : insn :=
  match ins with IJump kind to => IJump kind (index_of L to) | _ => ins end.

(** The instructions of a byte string: assignments to keywords are dropped, and
    jumps are to numbers of instructions. *)
Definition insns_of (SYMBOL_IS_KEYWORD : Lisp_Object -> bool) (constants : list Lisp_Object)
    (L : list located) : list insn :=
  (fun x => index_insn L (simplify_insn SYMBOL_IS_KEYWORD constants x.1.2)) <$> L.

Section List.
Context {X : Type} `{Subrs X}.
Variable SYMBOL_IS_KEYWORD : Lisp_Object -> bool.
Variable constants_data : list Lisp_Object.
Variable speccount : Z.

(** The machine on a list of instructions. *)
Definition list_step (il : list insn) (m : machine X) : step_result :=
  match zget il (m_pc m) with
  | Some ins => exec_insn SYMBOL_IS_KEYWORD constants_data speccount ins (m_pc m) (set_pc (m_pc m + 1) m)
  | None => Stuck bad_read
  end.

Fixpoint list_loop (il : list insn) (fuel : nat) (m : machine X) : run_result Lisp_Object * lisp X :=
  match fuel with
  | 0%nat => (Trouble no_fuel, m_lisp m)
  | S fuel =>
      match list_step il m with
      | Next m => list_loop il fuel m
      | Returned v w => (Value v, w)
      | Left what w => (Thrown what, w)
      | Stuck why => (Trouble why, m_lisp m)
      end
  end.
End List.

Definition execute_instructions {X} `{Subrs X} (SYMBOL_IS_KEYWORD : Lisp_Object -> bool) (fuel : nat)
    (il : list insn) (stack_depth : Z) (constants_data : list Lisp_Object) : E X Lisp_Object := fun w =>
  list_loop SYMBOL_IS_KEYWORD constants_data (specpdl_depth w) il fuel
    (mk_machine 0 (replicate (Z.to_nat stack_depth + 1) Qnil) 0 w).

(** ** The program counter alone differs *)

Section Pc.
Context {X : Type} `{Subrs X}.

(** The step with its program counter changed by [f]. *)
Definition map_pc (f : Z -> Z) (r : step_result (X := X)) : step_result :=
  match r with
  | Next m => Next (set_pc (f (m_pc m)) m)
  | r => r
  end.

(** Code that leaves the program counter alone. *)
Definition pc_blind (k : machine X -> step_result) : Prop :=
  forall f m, k (set_pc (f (m_pc m)) m) = map_pc f (k m).

Lemma m_bind_blind {A} (e : E X A) (k : A -> machine X -> step_result) :
  (forall a, pc_blind (k a)) -> pc_blind (fun m => m_bind e m k).
Proof.
  intros Hk f m. unfold m_bind. simpl. destruct (e (m_lisp m)) as [[a | what | why] w]; [| done | done].
  by rewrite <- Hk.
Qed.

Lemma next_blind : pc_blind Next.
Proof. by intros f m. Qed.

Lemma discard_blind n k : pc_blind k -> pc_blind (fun m => k (discard n m)).
Proof. intros Hk f m. by rewrite <- Hk. Qed.

Lemma set_top_blind v : pc_blind (set_top v).
Proof. intros f m. unfold set_top. simpl. by destruct (_ || _). Qed.

Lemma push_blind v : pc_blind (push v).
Proof. apply discard_blind, set_top_blind. Qed.

Lemma with_top_blind (k : Lisp_Object -> machine X -> step_result) :
  (forall v, pc_blind (k v)) -> pc_blind (fun m => with_top m (fun v => k v m)).
Proof.
  intros Hk f m. unfold with_top, stack_at. simpl. destruct (_ <=? 0); [done |].
  destruct (zget _ _); [apply Hk | done].
Qed.

Lemma take_args_pc n p (m : machine X) : take_args n (set_pc p m) = take_args n m.
Proof. induction n as [| n IH]; [done |]. simpl. by rewrite IH. Qed.

Lemma apply_op_blind n f : pc_blind (apply_op n f).
Proof.
  intros g m. unfold apply_op. rewrite take_args_pc. destruct (take_args n m); [| done].
  apply (m_bind_blind (f l) (fun v m => set_top v (discard (Z.of_nat n - 1) m))).
  intros v. apply discard_blind, set_top_blind.
Qed.

Lemma with_constant_blind (c : list Lisp_Object) n (k : Lisp_Object -> machine X -> step_result) :
  (forall v, pc_blind (k v)) -> pc_blind (fun m => with_constant c n (fun v => k v m)).
Proof. intros Hk f m. unfold with_constant. destruct (zget c n); [apply Hk | done]. Qed.

(** What is blind to the program counter leaves it alone. *)
Lemma pc_blind_same k (m m' : machine X) : pc_blind k -> k m = Next m' -> m_pc m' = m_pc m.
Proof.
  intros Hk E. pose proof (Hk (fun _ => m_pc m) m) as E'.
  assert (set_pc (m_pc m) m = m) as Es by by destruct m. cbv beta in E'. rewrite Es, E in E'.
  simpl in E'. by injection E' as ->.
Qed.

Variable SYMBOL_IS_KEYWORD : Lisp_Object -> bool.
Variable constants_data : list Lisp_Object.
Variable speccount : Z.
Abbreviation exec_insn := (exec_insn SYMBOL_IS_KEYWORD constants_data speccount).

Lemma exec_narg_blind base n : pc_blind (exec_narg constants_data base n).
Proof.
  unfold exec_narg. destruct (base =? Bvarref); [| destruct (base =? Bvarset); [| destruct (base =? Bvarbind);
    [| destruct (base =? Bcall); [apply apply_op_blind | apply m_bind_blind; intros []; apply next_blind]]]].
  - apply with_constant_blind. intros v f m. simpl. destruct (SYMBOL_VALUE_MAGIC_P _).
    + apply (m_bind_blind _ push), push_blind.
    + apply push_blind.
  - apply with_constant_blind. intros v. intros f m. simpl.
    apply (with_top_blind (fun new_value m0 =>
      if plain_value (symbol_value v (m_lisp m))
      then m_bind (set_symbol_value v new_value) (discard 1 m0) (fun _ m => Next m)
      else m_bind (call "Fset" [v; new_value]) (discard 1 m0) (fun _ m => Next m))).
    intros nv. destruct (plain_value _); apply (discard_blind 1 (fun m => m_bind _ m (fun _ m => Next m))),
      m_bind_blind; intros; apply next_blind.
  - apply with_constant_blind. intros v.
    apply (with_top_blind (fun nv m => m_bind (SPECBIND_FAST_UNSAFE v nv) (discard 1 m) (fun _ m => Next m))).
    intros nv. apply (discard_blind 1 (fun m => m_bind _ m (fun _ m => Next m))), m_bind_blind.
    intros; apply next_blind.
Qed.

Lemma exec_op_blind op : pc_blind (exec_op SYMBOL_IS_KEYWORD speccount op).
Proof.
  unfold exec_op.
  destruct (op =? Breturn); [apply with_top_blind; by intros v f m |].
  destruct (op =? Bdiscard); [apply (discard_blind 1 Next), next_blind |].
  destruct (op =? Bdup); [apply with_top_blind, push_blind |].
  do 4 (destruct (op =? _); [apply m_bind_blind; intros; apply next_blind |]).
  destruct (op =? Bunwind_protect).
  { apply (with_top_blind (fun v m => m_bind _ (discard 1 m) (fun _ m => Next m))). intros v.
    apply (discard_blind 1 (fun m => m_bind _ m (fun _ m => Next m))), m_bind_blind. intros; apply next_blind. }
  do 2 (destruct (op =? _); [apply apply_op_blind |]).
  destruct (assoc_op _ _) as [[n f] |]; [apply apply_op_blind | by intros f m].
Qed.

Lemma exec_insn_blind ins from :
  (forall kind to, ins <> IJump kind to) -> pc_blind (exec_insn ins from).
Proof.
  intros Hj. destruct ins as [base n | kind to | n | op n | op]; simpl.
  - apply exec_narg_blind.
  - by destruct (Hj kind to).
  - apply (with_constant_blind constants_data n push), push_blind.
  - change (pc_blind (exec_count op n)). unfold exec_count.
    destruct (op =? BlistN); [destruct (n =? 0); [by intros f m | apply apply_op_blind] |].
    destruct (op =? BconcatN); apply apply_op_blind.
  - apply exec_op_blind.
Qed.

(** A jump does the same wherever it lies, as long as it leads backwards or not. *)
Lemma do_goto_pc from from' to to' p (m : machine X) (f : Z -> Z) :
  (to - (from + 1) <? 0) = (to' - (from' + 1) <? 0) -> f to = to' ->
  do_goto from' to' (set_pc p m) = map_pc f (do_goto from to m).
Proof.
  intros Hs Hf. unfold do_goto, m_bind. rewrite <- Hs. simpl.
  destruct ((if to - (from + 1) <? 0 then call "QUIT" [] else e_ret Qnil) (m_lisp m)) as [[a | what | why] w];
    simpl; by rewrite ?Hf.
Qed.

Lemma exec_jump_pc kind from from' to to' (m : machine X) (f : Z -> Z) :
  (to - (from + 1) <? 0) = (to' - (from' + 1) <? 0) -> f to = to' ->
  exec_jump kind from' to' (set_pc (f (m_pc m)) m) = map_pc f (exec_jump kind from to m).
Proof.
  intros Hs Hf. unfold exec_jump. destruct (kind =? 0); [by apply do_goto_pc |].
  unfold with_top, stack_at. simpl. destruct (_ <=? 0); [done |]. destruct (zget _ _) as [v |]; [| done].
  destruct (if _ || _ then _ else _), (kind <=? 2); try done; by apply (do_goto_pc _ _ _ _ _ (discard _ m)) || by apply do_goto_pc.
Qed.

Lemma exec_jump_next kind from to (m m' : machine X) :
  exec_jump kind from to m = Next m' -> m_pc m' = m_pc m \/ m_pc m' = to.
Proof.
  assert (forall m0, do_goto from to m0 = Next m' -> m_pc m' = to) as Hg.
  { intros m0. unfold do_goto, m_bind. destruct (_ (m_lisp m0)) as [[a | what | why] w]; try done.
    by intros [= <-]. }
  unfold exec_jump. destruct (kind =? 0); [intros ?%Hg; auto |].
  unfold with_top. destruct (stack_at m 0) as [v |]; [| done].
  destruct (if _ || _ then _ else _), (kind <=? 2); try (intros ?%Hg; by right); intros [= <-]; by left.
Qed.
End Pc.

(** ** A program and its instructions *)

Lemma decode_next wide short code i ins i' : decode wide short code i = Some (ins, i') -> i < i'.
Proof.
  unfold decode. intros (op & _ & Hd)%bind_Some.
  destruct (group_of op); repeat match type of Hd with context [if ?b then _ else _] => destruct b end;
    try (apply bind_Some in Hd as (? & _ & Hd)); injection Hd as <- <-; lia.
Qed.

Lemma index_of_lookup KW src constants L i e k x :
  Forall is_byte src -> chain KW src constants i L e -> L !! k = Some x -> index_of L x.1.1 = Z.of_nat k.
Proof.
  intros Hbytes. revert i k. induction L as [| [[a ins] i'] L IH]; intros i [| k] HL Hk; try done.
  - injection Hk as <-. simpl. by rewrite Z.eqb_refl.
  - pose proof (chain_lookup _ _ _ Hbytes _ _ _ 0%nat _ _ _ HL eq_refl) as (_ & Hd & _).
    apply decode_next in Hd. destruct HL as (-> & _ & _ & _ & HL). simpl in Hk |- *.
    destruct x as [[b ins2] b'].
    pose proof (icounts_start _ _ _ Hbytes 0 _ _ _ _ _ _ _ HL Hk) as [Hle _]. simpl.
    rewrite (proj2 (Z.eqb_neq _ _)) by lia. specialize (IH i' k HL Hk). simpl in IH. rewrite IH. lia.
Qed.

Definition relocate_insn (off : Z -> Z) (ins : insn) : insn :=
  match ins with IJump kind to => IJump kind (off to) | _ => ins end.

(** A program that holds the instructions [il], number [k] at [off k]. *)
Record holds (program : list Z) (il : list insn) (off : Z -> Z) : Prop := {
  holds_start : off 0 = 0;
  holds_end : off (zlen il) = zlen program;
  holds_insn k ins : zget il k = Some ins ->
    decode_program program (off k) = Some (relocate_insn off ins, off (k + 1));
  holds_jump k kind to : zget il k = Some (IJump kind to) -> 0 <= to < zlen il;
}.

Lemma relocated_holds KW src constants L program off :
  Forall is_byte src -> read_byte_code KW src constants = Some L ->
  relocated KW constants L program off -> holds program (insns_of KW constants L) (fun k => off (Z.to_nat k)).
Proof.
  intros Hbytes Hread (H0 & Hend & Hins). pose proof (read_byte_code_spec _ _ _ Hbytes _ Hread) as [HL Hin].
  assert (forall k ins, zget (insns_of KW constants L) k = Some ins ->
    0 <= k /\ exists i ins0 i', L !! Z.to_nat k = Some (i, ins0, i') /\
      ins = index_insn L (simplify_insn KW constants ins0)) as Hget.
  { intros k ins Hk. pose proof (zget_Some_bound _ _ _ Hk). split; [lia |].
    rewrite zget_lookup in Hk by lia. unfold insns_of in Hk. apply list_lookup_fmap_Some in Hk as ([[i ins0] i'] & -> & Hk).
    by exists i, ins0, i'. }
  assert (forall k i kind to i', L !! k = Some (i, IJump kind to, i') ->
    exists t : nat, index_of L to = Z.of_nat t /\ (t < length L)%nat) as Hto.
  { intros k i kind to i' Hk. destruct (Hin _ _ _ _ _ Hk) as (t & x & Ht & <-). exists t.
    split; [by eapply index_of_lookup | by eapply lookup_lt_Some]. }
  split.
  - done.
  - unfold insns_of. rewrite length_fmap, Nat2Z.id. done.
  - intros k ins (Hk0 & i & ins0 & i' & HLk & ->)%Hget. specialize (Hins _ _ _ _ HLk).
    replace (Z.to_nat (k + 1)) with (S (Z.to_nat k)) by lia.
    assert (forall ins1, (forall kd t, ins1 <> IJump kd t) -> relocate_insn (fun k => off (Z.to_nat k)) (index_insn L ins1) = ins1)
      as Hplain by (intros [| kd t | | |] Hn; try done; by destruct (Hn kd t)).
    destruct ins0 as [base n | kind to | n | op n | op].
    2: { destruct Hins as (t & x & Ht & Hx & ->). simpl. rewrite <- Hx, (index_of_lookup _ _ _ _ _ _ _ _ Hbytes HL Ht).
         by rewrite Nat2Z.id. }
    all: rewrite Hins, Hplain; [done |]; unfold simplify_insn; by destruct (dropped _ _ _).
  - intros k kind to (Hk0 & i & ins0 & i' & HLk & E)%Hget.
    assert (exists to0, ins0 = IJump kind to0 /\ to = index_of L to0) as (to0 & -> & ->).
    { destruct ins0 as [base n | kd t | n | op n | op]; simpl in E; try done.
      - unfold simplify_insn in E. by destruct (dropped _ _ _).
      - injection E as -> ->. by exists t. }
    destruct (Hto _ _ _ _ _ HLk) as (t & -> & Ht). unfold insns_of. rewrite length_fmap. lia.
Qed.

Section Simulation.
Context {X : Type} `{Subrs X}.
Variable SYMBOL_IS_KEYWORD : Lisp_Object -> bool.
Variable constants_data : list Lisp_Object.
Variable speccount : Z.
Variable program : list Z.
Variable il : list insn.
Variable off : Z -> Z.
Hypothesis Hholds : holds program il off.

Lemma holds_mono j k : 0 <= j -> j < k <= zlen il -> off j < off k.
Proof.
  intros Hj Hk. replace k with (j + 1 + Z.of_nat (Z.to_nat (k - j - 1))) in * by lia.
  induction (Z.to_nat (k - j - 1)) as [| n IH].
  - destruct (zget_is_Some il j) as [ins Hins]; [lia |].
    rewrite Z.add_0_r. eapply decode_next, (holds_insn _ _ _ Hholds _ _ Hins).
  - destruct (zget_is_Some il (j + 1 + Z.of_nat n)) as [ins Hins]; [lia |].
    pose proof (decode_next _ _ _ _ _ _ (holds_insn _ _ _ Hholds _ _ Hins)).
    replace (j + 1 + Z.of_nat (S n)) with (j + 1 + Z.of_nat n + 1) by lia. lia.
Qed.

Lemma holds_backward k to : 0 <= k < zlen il -> 0 <= to < zlen il ->
  (to - (k + 1) <? 0) = (off to - (off k + 1) <? 0).
Proof.
  intros Hk Ht. destruct (Z.lt_trichotomy to k) as [Hlt | [-> | Hlt]].
  - pose proof (holds_mono to k ltac:(lia) ltac:(lia)). zcase.
  - zcase.
  - pose proof (holds_mono k to ltac:(lia) ltac:(lia)). zcase.
Qed.

(** One step. *)
Lemma step_holds (m : machine X) :
  0 <= m_pc m <= zlen il ->
  exec_step SYMBOL_IS_KEYWORD program constants_data speccount (set_pc (off (m_pc m)) m) =
  map_pc off (list_step SYMBOL_IS_KEYWORD constants_data speccount il m).
Proof.
  intros Hpc. unfold exec_step, list_step. cbn [m_pc set_pc].
  destruct (zget il (m_pc m)) as [ins |] eqn:Hins.
  - rewrite (holds_insn _ _ _ Hholds _ _ Hins). pose proof (zget_Some_bound _ _ _ Hins) as Hb.
    destruct ins as [base n | kind to | n | op n | op].
    2: { pose proof (holds_jump _ _ _ Hholds _ _ _ Hins) as Hto.
         apply (exec_jump_pc kind (m_pc m) (off (m_pc m)) to (off to) (set_pc (m_pc m + 1) m) off); [| done].
         by apply holds_backward. }
    all: cbn [relocate_insn]; match goal with |- context [exec_insn _ _ _ ?i (m_pc ?n)] => set (ins := i) end;
      rewrite <- (exec_insn_blind SYMBOL_IS_KEYWORD constants_data speccount ins (m_pc m) ltac:(done) off
               (set_pc (m_pc m + 1) m)); reflexivity.
  - assert (m_pc m = zlen il) as ->.
    { destruct (Z.lt_ge_cases (m_pc m) (zlen il)); [| lia].
      destruct (zget_is_Some il (m_pc m)) as [? ?]; [lia | congruence]. }
    rewrite (holds_end _ _ _ Hholds). unfold decode_program, decode. by rewrite (zget_None program (zlen program)) by lia.
Qed.

Lemma list_step_pc (m m' : machine X) :
  list_step SYMBOL_IS_KEYWORD constants_data speccount il m = Next m' ->
  m_pc m' = m_pc m + 1 \/ exists kind, zget il (m_pc m) = Some (IJump kind (m_pc m')).
Proof.
  unfold list_step. destruct (zget il (m_pc m)) as [ins |] eqn:Hins; [| done].
  destruct ins as [base n | kind to | n | op n | op].
  2: { intros [E | E]%exec_jump_next; [by left | right]. exists kind. by rewrite E. }
  all: intros E; left; eapply (pc_blind_same _ (set_pc (m_pc m + 1) m)); [| exact E]; by apply exec_insn_blind.
Qed.

Lemma loop_holds fuel (m : machine X) :
  0 <= m_pc m <= zlen il ->
  exec_loop SYMBOL_IS_KEYWORD program constants_data speccount fuel (set_pc (off (m_pc m)) m) =
  list_loop SYMBOL_IS_KEYWORD constants_data speccount il fuel m.
Proof.
  revert m. induction fuel as [| fuel IH]; intros m Hpc; [done |].
  cbn [exec_loop list_loop]. rewrite step_holds by done.
  destruct (list_step _ _ _ _ m) as [m' | v w | what w | why] eqn:Hs; try done. cbn [map_pc].
  apply IH. destruct (list_step_pc _ _ Hs) as [-> | (kind & Hj)].
  - unfold list_step in Hs. destruct (zget il (m_pc m)) eqn:E; [| done]. apply zget_Some_bound in E. lia.
  - pose proof (holds_jump _ _ _ Hholds _ _ _ Hj). lia.
Qed.
End Simulation.

Lemma execute_holds {X} `{Subrs X} KW program il off fuel stack_depth constants (w : lisp X) :
  holds program il off ->
  execute_optimized_program KW fuel program stack_depth constants w =
  execute_instructions KW fuel il stack_depth constants w.
Proof.
  intros Hh. unfold execute_optimized_program, execute_instructions.
  rewrite <- (loop_holds _ _ _ _ _ _ Hh) by (simpl; lia). cbn [m_pc set_pc m_stack m_sp m_lisp].
  by rewrite (holds_start _ _ _ Hh).
Qed.

Lemma e_bind_ext {X A B} (m : E X A) (k k' : A -> E X B) w :
  (forall a w, k a w = k' a w) -> e_bind m k w = e_bind m k' w.
Proof. intros Hk. unfold e_bind. by destruct (m w) as [[a | what | why] w']. Qed.

(** Calling a function whose body is the instructions [il], with [reserved]
    entries of the stack of bindings set aside. *)
Definition funcall_instructions {X} `{Subrs X} (SYMBOL_IS_KEYWORD : Lisp_Object -> bool) (fuel : nat)
    (fun_ : Lisp_Object) (il : list insn) (reserved : Z) (arglist constants : list Lisp_Object)
    (stack_depth : Z) (args : list Lisp_Object) : E X Lisp_Object :=
  speccount <<- e_get specpdl_depth;
  SPECPDL_RESERVE reserved ;;>
  ok <<- bind_args arglist args false;
  if ok : bool then
    value <<- execute_instructions SYMBOL_IS_KEYWORD fuel il stack_depth constants;
    UNBIND_TO speccount ;;> e_ret value
  else data <<- list_of [fun_; make_int (zlen args)];
       call "Fsignal" [Qwrong_number_of_arguments; data].

(** The program that a well-formed byte string is optimized to holds its instructions. *)
Lemma optimize_holds SYMBOL_IS_KEYWORD src constants L :
  Forall is_byte src -> read_byte_code SYMBOL_IS_KEYWORD src constants = Some L -> program_size src <= 2 ^ 15 ->
  exists program off, optimize_byte_code SYMBOL_IS_KEYWORD src constants = Good (program, bindings L) /\
    holds program (insns_of SYMBOL_IS_KEYWORD constants L) off.
Proof.
  intros Hbytes Hread Hsize.
  destruct (optimize_relocates SYMBOL_IS_KEYWORD src constants Hbytes L Hread Hsize) as (program & off & Ho & Hr).
  pose proof (relocated_holds _ _ _ _ _ _ Hbytes Hread Hr) as Hh. eauto.
Qed.

Lemma funcall_holds {X} `{Subrs X} SYMBOL_IS_KEYWORD src constants L fuel fun_ arglist stack_depth depth args (w : lisp X) :
  Forall is_byte src -> read_byte_code SYMBOL_IS_KEYWORD src constants = Some L -> program_size src <= 2 ^ 15 ->
  funcall_compiled_function SYMBOL_IS_KEYWORD fuel fun_ (mk_compiled (Bytes src) constants arglist stack_depth depth) args w =
  funcall_instructions SYMBOL_IS_KEYWORD fuel fun_ (insns_of SYMBOL_IS_KEYWORD constants L)
    ((zlen arglist + bindings L) mod 2 ^ 16) arglist constants stack_depth args w.
Proof.
  intros Hbytes Hread Hsize.
  destruct (optimize_holds _ _ _ _ Hbytes Hread Hsize) as (program & off & Ho & Hh).
  unfold funcall_compiled_function, funcall_instructions. apply e_bind_ext. intros count w1.
  unfold optimize_compiled_function. simpl. rewrite Ho. simpl.
  apply e_bind_ext. intros _ w2. apply e_bind_ext. intros [] w3; [| done].
  unfold e_bind. by rewrite (execute_holds _ _ _ _ _ _ _ _ Hh).
Qed.

(** C20: Calling a compiled function with a well-formed byte string, which is first
    optimized, is binding its arguments and executing the instructions of the
    string one after the other, jumps going to the instructions they name: the same
    result, throw or trouble, and the same state of the evaluator, after any number
    of steps.  The same holds for a program that was optimized before. *)
Theorem execution_of_instructions {X} `{Subrs X} SYMBOL_IS_KEYWORD src constants L
    (Hbytes : Forall is_byte src)
    (Hread : read_byte_code SYMBOL_IS_KEYWORD src constants = Some L)
    (Hsize : program_size src <= 2 ^ 15) :
  let il := insns_of SYMBOL_IS_KEYWORD constants L in
  (forall fuel fun_ arglist stack_depth depth args (w : lisp X),
     funcall_compiled_function SYMBOL_IS_KEYWORD fuel fun_
       (mk_compiled (Bytes src) constants arglist stack_depth depth) args w =
     funcall_instructions SYMBOL_IS_KEYWORD fuel fun_ il ((zlen arglist + bindings L) mod 2 ^ 16)
       arglist constants stack_depth args w) /\
  exists program,
    optimize_byte_code SYMBOL_IS_KEYWORD src constants = Good (program, bindings L) /\
    forall fuel stack_depth (w : lisp X),
      execute_optimized_program SYMBOL_IS_KEYWORD fuel program stack_depth constants w =
      execute_instructions SYMBOL_IS_KEYWORD fuel il stack_depth constants w.
Proof.
  intros il. split; [intros; by apply funcall_holds |].
  destruct (optimize_holds _ _ _ _ Hbytes Hread Hsize) as (program & off & Ho & Hh).
  exists program. split; [done |]. intros. by rewrite (execute_holds _ _ _ _ _ _ _ _ Hh).
Qed.

(** An evaluator in which every function returns nil. *)
#[export] Instance quiet_subrs : Subrs unit := {
  subr _ _ w := (inl Qnil, w);
  subr_int _ _ w := (inl 0, w);
}.

Definition quiet_lisp : lisp unit :=
  mk_lisp ∅ ∅ {[10%positive := LInt 7]} [] 50 3000 false Qnil tt.

(** [sample_code] binds a variable to 0, so that it leaves its loop at once. *)
Lemma execution_of_instructions_witness :
  exists program,
    optimize_byte_code sample_keyword sample_code sample_constants = Good (program, 1) /\
    (execute_optimized_program sample_keyword 30 program 3 sample_constants quiet_lisp).1 =
    (execute_instructions sample_keyword 30
       (insns_of sample_keyword sample_constants
          (default [] (read_byte_code sample_keyword sample_code sample_constants)))
       3 sample_constants quiet_lisp).1.
Proof.
  destruct (read_byte_code sample_keyword sample_code sample_constants) as [L |] eqn:E;
    [| by vm_compute in E].
  destruct (execution_of_instructions (X := unit) sample_keyword sample_code sample_constants L)
    as (_ & program & Ho & Hx).
  - apply (bool_decide_unpack (Forall (fun b => 0 <= b < 256) sample_code)). vm_compute. exact I.
  - exact E.
  - by vm_compute.
  - assert (option_map bindings (read_byte_code sample_keyword sample_code sample_constants) = Some 1) as Hb
      by (vm_compute; reflexivity).
    rewrite E in Hb. injection Hb as Hb. rewrite Hb in Ho. exists program. split; [exact Ho |].
    simpl default. by rewrite Hx.
Defined.
