(* ===== verification/StackCheck.v ===== *)
(** * Byte code that keeps to its stack

    Instructions can be checked, without running them, to use the stack of the
    interpreter and the stack of bindings as they should: every place of the
    program has one height of each.  The check, and what each operation of the
    interpreter does to the stack of bindings. *)

From S2P Require Import Prelude Lisp ElHash Bytecode Optimizer Jumps Optimized Specpdl Execute ExecInsns.
Local Open Scope exec_scope.

(** ** The check *)

(** The height of the stack and the number of bindings made since entry. *)
Definition shape : Type := Z * Z.

Definition op_arities : list (Z * nat) :=
  (fun p => (p.1, p.2.1)) <$> (common_ops (X := unit) ++ rare_ops (X := unit)).

Section Check.
Variable constants : list Lisp_Object.
(** The stack of bindings has [room] entries set aside, the stack of values has
    room for [depth] of them. *)
Variable room depth : Z.

(** Where the instruction at [k] may lead, and the shapes there; [None] if it must
    not be run with this shape. *)
Definition insn_shape (ins : insn) (k : Z) (s : shape) : option (list (Z * shape)) :=
  let '(h, b) := s in
  let next h b := Some [(k + 1, (h, b))] in
  match ins with
  | INarg base n =>
      if base =? Bcall then if (0 <=? n) && (n + 1 <=? h) then next (h - n) b else None
      else if base =? Bunbind then if (0 <=? n) && (n <=? b) then next h (b - n) else None
      else if (0 <=? n) && (n <? zlen constants) then
        if base =? Bvarref then next (h + 1) b
        else if 1 <=? h then
          if base =? Bvarset then next (h - 1) b
          else if base =? Bvarbind then if b <? room then next (h - 1) (b + 1) else None
          else None
        else None
      else None
  | IJump kind to =>
      if kind =? 0 then Some [(to, (h, b))]
      else if 1 <=? h then
        if kind <=? 2 then Some [(to, (h - 1, b)); (k + 1, (h - 1, b))]
        else Some [(to, (h, b)); (k + 1, (h - 1, b))]
      else None
  | IConst n => if (0 <=? n) && (n <? zlen constants) then next (h + 1) b else None
  | ICount _ n => if (1 <=? n) && (n <=? h) then next (h - n + 1) b else None
  | IOp op =>
      if op =? Breturn then if 1 <=? h then Some [] else None
      else if op =? Bdiscard then if 1 <=? h then next (h - 1) b else None
      else if op =? Bdup then if 1 <=? h then next (h + 1) b else None
      else if op =? Bunbind_all then next h 0
      else if (op =? Bsave_excursion) || (op =? Bsave_restriction) || (op =? Bsave_current_buffer)
      then next h (b + 1)
      else if op =? Bunwind_protect then if 1 <=? h then next (h - 1) (b + 1) else None
      else if op =? Btemp_output_buffer_setup then if 1 <=? h then next h (b + 1) else None
      else if op =? Btemp_output_buffer_show then
        if (2 <=? h) && (1 <=? b) then next (h - 1) (b - 1) else None
      else match assoc_op op op_arities with
      | Some n => if Z.of_nat n <=? h then next (h - Z.of_nat n + 1) b else None
      | None => None
      end
  end.

Definition shape_ok (shapes : list (option shape)) (p : Z * shape) : bool :=
  let '(t, (h, b)) := p in
  (0 <=? h) && (h <=? depth) && (0 <=? b) &&
  bool_decide (zget shapes t = Some (Some (h, b))).

Definition insn_ok (il : list insn) (shapes : list (option shape)) (k : nat) : bool :=
  match shapes !! k with
  | Some (Some s) =>
      match il !! k with
      | Some ins =>
          match insn_shape ins (Z.of_nat k) s with
          | Some succs => forallb (shape_ok shapes) succs
          | None => false
          end
      | None => false
      end
  | _ => true
  end.

Definition check_shapes (il : list insn) (shapes : list (option shape)) : bool :=
  shape_ok shapes (0, (0, 0)) && forallb (insn_ok il shapes) (seq 0 (length shapes)).
End Check.

(** ** What the called functions promise *)

Definition is_number (x : Lisp_Object) : bool := INTP x || CHARP x || MARKERP x || FLOATP x.

(** A function that returns leaves the stack of bindings as high as it was, and the
    space for it no smaller; errors do not return, as they may when a debugger
    continues after them; and [wrong_type_argument] returns only what passes its
    test. *)
Class SubrsOk (X : Type) `{Subrs X} : Prop := {
  subr_returns name args w v w' : subr name args w = (inl v, w') ->
    specpdl_depth w' = specpdl_depth w /\ l_specpdl_size w <= l_specpdl_size w';
  subr_int_returns name args w v w' : subr_int name args w = (inl v, w') ->
    specpdl_depth w' = specpdl_depth w /\ l_specpdl_size w <= l_specpdl_size w';
  error_throws name args w v w' :
    name ∈ ["continuable_error"; "Fsignal"; "dead_wrong_type_argument"] -> subr name args w <> (inl v, w');
  number_returned x w v w' :
    subr "wrong_type_argument" [Qnumber_char_or_marker_p; x] w = (inl v, w') -> is_number v = true;
}.

Section Height.
Context {X : Type} `{Subrs X, !SubrsOk X}.

(** [e] makes [d] bindings more than it undoes, and gets into no trouble; what it
    returns has the property [P]. *)
Definition height {A} (d : Z) (e : E X A) (P : A -> Prop) : Prop := forall w, 0 < l_specpdl_size w ->
  match e w with
  | (Value a, w') => specpdl_depth w' = specpdl_depth w + d /\ l_specpdl_size w <= l_specpdl_size w' /\ P a
  | (Thrown _, _) => True
  | (Trouble _, _) => False
  end.

Lemma height_ret {A} (a : A) (P : A -> Prop) : P a -> height 0 (e_ret a) P.
Proof. intros HP w Hw. simpl. split_and!; [lia | lia | done]. Qed.

Lemma height_bind {A B} d1 d2 d (m : E X A) (k : A -> E X B) P Q :
  height d1 m P -> (forall a, P a -> height d2 (k a) Q) -> d = d1 + d2 -> height d (e_bind m k) Q.
Proof.
  intros Hm Hk -> w Hw. unfold e_bind. specialize (Hm w Hw).
  destruct (m w) as [[a | what | why] w']; try done. destruct Hm as (Hd & Hs & HP).
  specialize (Hk a HP w' ltac:(lia)). destruct (k a w') as [[b | what | why] w'']; try done.
  destruct Hk as (Hd' & Hs' & HQ). split_and!; [lia | lia | done].
Qed.

Lemma height_mono {A} d (e : E X A) (P Q : A -> Prop) : height d e P -> (forall a, P a -> Q a) -> height d e Q.
Proof.
  intros He HPQ w Hw. specialize (He w Hw). destruct (e w) as [[a | what | why] w']; try done.
  destruct He as (? & ? & ?). auto.
Qed.

Lemma height_get {A} (f : lisp X -> A) : height 0 (e_get f) (fun _ => True).
Proof. intros w Hw. simpl. split_and!; [lia | lia | done]. Qed.

Lemma height_call name args : height 0 (call name args) (fun _ => True).
Proof.
  intros w Hw. unfold call. destruct (subr name args w) as [[v | v] w'] eqn:E; simpl; [| done].
  apply subr_returns in E. split_and!; [lia | lia | done].
Qed.

Lemma height_call_int name args : height 0 (call_int name args) (fun _ => True).
Proof.
  intros w Hw. unfold call_int. destruct (subr_int name args w) as [[v | v] w'] eqn:E; simpl; [| done].
  apply subr_int_returns in E. split_and!; [lia | lia | done].
Qed.

(** After an error nothing is done. *)
Lemma height_error {A} d name args (k : Lisp_Object -> E X A) P :
  name ∈ ["continuable_error"; "Fsignal"; "dead_wrong_type_argument"] ->
  height d (e_bind (call name args) k) P.
Proof.
  intros Hn w Hw. unfold e_bind, call. destruct (subr name args w) as [[v | v] w'] eqn:E; simpl; [| done].
  by apply error_throws in E.
Qed.

Lemma height_wrong_number x :
  height 0 (wrong_type_argument Qnumber_char_or_marker_p x) (fun v => is_number v = true).
Proof.
  intros w Hw. unfold wrong_type_argument, call.
  destruct (subr _ _ w) as [[v | v] w'] eqn:E; simpl; [| done].
  pose proof (number_returned _ _ _ _ E). apply subr_returns in E. split_and!; [lia | lia | done].
Qed.

(** State changes that leave the bindings alone. *)
Lemma height_upd (f : lisp X -> lisp X) :
  (forall w, l_specpdl (f w) = l_specpdl w /\ l_specpdl_size (f w) = l_specpdl_size w) ->
  height 0 (e_upd f) (fun _ => True).
Proof.
  intros Hf w Hw. simpl. destruct (Hf w) as [H1 H2]. unfold specpdl_depth. rewrite H1, H2.
  split_and!; [lia | lia | done].
Qed.

Lemma height_Fcons a b : height 0 (Fcons a b) (fun _ => True).
Proof. intros w Hw. simpl. unfold specpdl_depth. simpl. split_and!; [lia | lia | done]. Qed.

Lemma height_make_float d : height 0 (make_float d) (fun _ => True).
Proof. intros w Hw. simpl. unfold specpdl_depth. simpl. split_and!; [lia | lia | done]. Qed.
End Height.

Create HintDb height discriminated.
#[export] Hint Resolve height_get height_call height_call_int height_Fcons height_make_float height_wrong_number
  : height.

(** Goes through a function that makes no bindings. *)
Ltac height_step :=
  lazymatch goal with
  | |- height _ (e_ret _) _ => apply height_ret; try done
  | |- height _ (e_bind (call "Fsignal"%string _) _) _ => apply height_error; set_solver
  | |- height _ (e_bind (call "dead_wrong_type_argument"%string _) _) _ => apply height_error; set_solver
  | |- height _ (e_bind _ _) _ => eapply (height_bind 0 0 _ _ _ (fun _ => True)); [| intros ? ? | lia]
  | |- height _ (if ?b then _ else _) _ => destruct b
  | |- height _ (match ?x with _ => _ end) _ => destruct x
  | |- height _ (XCAR _) _ => apply height_get
  | |- height _ (XCDR _) _ => apply height_get
  | |- height _ (set_symbol_value _ _) _ => by apply height_upd
  | |- height _ (e_upd _) _ => by apply height_upd
  | |- height _ _ _ => solve [eauto with height]
  end.

(** ** The functions of the interpreter keep their promises *)

Section Arithmetic.
Context {X : Type} `{Subrs X, !SubrsOk X}.
Abbreviation any := (fun _ => True).

Definition integral (x : Lisp_Object) : bool := INTP x || CHARP x || MARKERP x.

Lemma height_integer_of obj :
  height 0 (integer_of (X := X) obj) (fun i => i = None -> integral obj = false).
Proof.
  unfold integer_of. destruct obj as [n | c | t a]; try by apply height_ret.
  destruct (MARKERP _) eqn:E.
  - eapply (height_bind 0 0); [apply height_call_int | intros p _; by apply height_ret | lia].
  - apply height_ret. intros _. unfold integral. by rewrite E.
Qed.

Lemma height_double_of obj : height 0 (double_of (X := X) obj) (fun d => d = None -> is_number obj = false).
Proof.
  unfold double_of. destruct (FLOATP obj) eqn:E.
  - eapply (height_bind 0 0); [apply height_get | intros d _; by apply height_ret | lia].
  - eapply (height_bind 0 0); [apply height_integer_of | intros i Hi; apply height_ret | lia].
    destruct i; [done |]. intros _. unfold is_number. rewrite E, orb_false_r. by apply Hi.
Qed.

Definition misfits (x : Lisp_Object) : nat := if is_number x then 0 else 1.

Lemma integral_number x : integral x = false -> FLOATP x = false -> is_number x = false.
Proof. intros Hi Hf. unfold is_number. by rewrite Hf, orb_false_r. Qed.

Lemma misfits_number v : is_number v = true -> misfits v = 0%nat.
Proof. intros Hv. unfold misfits. by rewrite Hv. Qed.

Lemma misfits_other v : is_number v = false -> misfits v = 1%nat.
Proof. intros Hv. unfold misfits. by rewrite Hv. Qed.

(** Asking for a number and trying again. *)
Lemma height_retry {A} obj (k : Lisp_Object -> E X A) P :
  (forall v, is_number v = true -> height 0 (k v) P) ->
  height 0 (v <<- wrong_type_argument Qnumber_char_or_marker_p obj; k v) P.
Proof. intros Hk. eapply (height_bind 0 0); [apply height_wrong_number | done | lia]. Qed.

Lemma height_negate fuel obj : (misfits obj < fuel)%nat -> height 0 (bytecode_negate (X := X) fuel obj) any.
Proof.
  revert obj. induction fuel as [| fuel IH]; intros obj Hf; [lia |]. simpl.
  destruct (FLOATP obj) eqn:E; [repeat height_step |].
  eapply (height_bind 0 0); [apply height_integer_of | intros [n |] Hi | lia]; [by apply height_ret |].
  apply height_retry. intros v Hv. apply IH. rewrite misfits_number by done.
  rewrite misfits_other in Hf; [lia |]. apply integral_number; auto.
Qed.

Lemma height_arithcompare fuel a b :
  (misfits a + misfits b < fuel)%nat -> height 0 (bytecode_arithcompare (X := X) fuel a b) any.
Proof.
  revert a b. induction fuel as [| fuel IH]; intros a b Hf; [lia |]. simpl.
  eapply (height_bind 0 0 _ _ _ any); [eapply height_mono; [apply height_integer_of | done] | intros i1 _ | lia].
  eapply (height_bind 0 0 _ _ _ any); [| intros i2 _ | lia].
  { destruct i1; [eapply height_mono; [apply height_integer_of | done] | by apply height_ret]. }
  assert (height 0 (d1 <<- double_of a;
    match d1 with
    | None => obj1 <<- wrong_type_argument Qnumber_char_or_marker_p a; bytecode_arithcompare fuel obj1 b
    | Some dval1 => d2 <<- double_of b;
        match d2 with
        | None => obj2 <<- wrong_type_argument Qnumber_char_or_marker_p b; bytecode_arithcompare fuel a obj2
        | Some dval2 => e_ret (X := X) (compare_double dval1 dval2)
        end
    end) any) as Hfloat.
  { eapply (height_bind 0 0); [apply height_double_of | intros [d1 |] Hd | lia].
    - eapply (height_bind 0 0); [apply height_double_of | intros [d2 |] Hd2 | lia]; [by apply height_ret |].
      apply height_retry. intros v Hv. apply IH. rewrite (misfits_number v) by done.
      rewrite (misfits_other b) in Hf by auto. lia.
    - apply height_retry. intros v Hv. apply IH. rewrite (misfits_number v) by done.
      rewrite (misfits_other a) in Hf by auto. lia. }
  destruct i1, i2; try exact Hfloat. by apply height_ret.
Qed.

Lemma height_classify obj :
  height 0 (classify (X := X) obj) (fun c => c = None -> is_number obj = false).
Proof.
  unfold classify. eapply (height_bind 0 0); [apply height_integer_of | intros i Hi; apply height_ret | lia].
  destruct i; [done |]. destruct (FLOATP obj) eqn:E; [done |]. intros _. apply integral_number; auto.
Qed.

Lemma height_arithop_int op a b : height 0 (arithop_int (X := X) op a b) any.
Proof. unfold arithop_int. repeat height_step. Qed.

Lemma height_arithop_double op a b : height 0 (arithop_double (X := X) op a b) any.
Proof. unfold arithop_double. repeat height_step. Qed.

Lemma height_arithop fuel a b op :
  (misfits a + misfits b < fuel)%nat -> height 0 (bytecode_arithop (X := X) fuel a b op) any.
Proof.
  revert a b. induction fuel as [| fuel IH]; intros a b Hf; [lia |]. simpl.
  eapply (height_bind 0 0); [apply height_classify | intros [[i1 f1] |] Hd | lia].
  - eapply (height_bind 0 0); [apply height_classify | intros [[i2 f2] |] Hd2 | lia].
    + destruct (f1 || f2); [| apply height_arithop_int].
      do 2 (eapply (height_bind 0 0); [apply height_get | intros ? _ | lia]). apply height_arithop_double.
    + apply height_retry. intros v Hv. apply IH. rewrite (misfits_number v) by done.
      rewrite (misfits_other b) in Hf by auto. lia.
  - apply height_retry. intros v Hv. apply IH. rewrite (misfits_number v) by done.
    rewrite (misfits_other a) in Hf by auto. lia.
Qed.

Lemma misfits_two a b : (misfits a + misfits b < 3)%nat.
Proof. unfold misfits. destruct (is_number a), (is_number b); lia. Qed.

Lemma height_plus_op a b : height 0 (plus_op (X := X) a b) any.
Proof.
  unfold plus_op. pose proof (misfits_two a b). destruct a, b; try (by apply height_ret); by apply height_arithop.
Qed.

Lemma height_diff_op a b : height 0 (diff_op (X := X) a b) any.
Proof.
  unfold diff_op. pose proof (misfits_two a b). destruct a, b; try (by apply height_ret); by apply height_arithop.
Qed.
End Arithmetic.

(** ** Reversing a list, circular or not *)

Section Nreverse.
Context {X : Type} `{Subrs X, !SubrsOk X}.
Implicit Types w : lisp X.

(** From [x] the cdrs lead over the conses [l] to nil. *)
Fixpoint linked w (x : Lisp_Object) (l : list positive) : Prop :=
  match l with
  | [] => x = Qnil
  | a :: l => x = LRec lrecord_cons a /\ linked w (XCONS x w).2 l
  end.

Definition relink w (a : positive) (v : Lisp_Object) : lisp X :=
  set_conses w (<[a := ((XCONS (LRec lrecord_cons a) w).1, v)]> (l_conses w)).

Lemma XCONS_relink_ne w a b v : a <> b -> XCONS (LRec lrecord_cons b) (relink w a v) = XCONS (LRec lrecord_cons b) w.
Proof. intros Hab. unfold XCONS, relink. simpl. by rewrite lookup_insert_ne. Qed.

Lemma XCONS_relink_eq w a v : (XCONS (LRec lrecord_cons a) (relink w a v)).2 = v.
Proof. unfold XCONS, relink. simpl. by rewrite lookup_insert_eq. Qed.

Lemma linked_relink w a v x l : a ∉ l -> linked w x l -> linked (relink w a v) x l.
Proof.
  revert x. induction l as [| b l IH]; intros x Ha; [done |]. simpl.
  apply not_elem_of_cons in Ha as [Hab Ha]. intros (-> & Hl). split; [done |].
  rewrite XCONS_relink_ne by done. by apply IH.
Qed.

(** Results that are no trouble and leave the bindings as they were. *)
Definition sound w (r : run_result Lisp_Object * lisp X) : Prop :=
  match r with
  | (Value _, w') => specpdl_depth w' = specpdl_depth w /\ l_specpdl_size w <= l_specpdl_size w'
  | (Thrown _, _) => True
  | (Trouble _, _) => False
  end.

Lemma sound_relink w a v r : sound (relink w a v) r -> sound w r.
Proof. by destruct r as [[] ?]. Qed.

Lemma nreverse_cons fuel prev a w :
  nreverse_loop (S fuel) prev (LRec lrecord_cons a) w =
  nreverse_loop fuel (LRec lrecord_cons a) (XCONS (LRec lrecord_cons a) w).2 (relink w a prev).
Proof. reflexivity. Qed.

Lemma nreverse_nil fuel prev w : nreverse_loop (X := X) fuel prev Qnil w = (Value prev, w).
Proof. by destruct fuel. Qed.

(** What is not a cons ends the loop. *)
Lemma nreverse_other fuel prev x w : CONSP x = false -> (0 < fuel)%nat -> sound w (nreverse_loop fuel prev x w).
Proof.
  intros Hx Hf. destruct fuel as [| fuel]; [lia |]. simpl. rewrite Hx.
  destruct (NILP x); [simpl; lia |]. unfold e_bind, call.
  destruct (subr _ _ w) as [[v | v] w'] eqn:E; simpl; [| done].
  apply error_throws in E; [done | set_solver].
Qed.

(** A list that ends with nil is walked to its end. *)
Lemma nreverse_linked fuel prev x w l :
  linked w x l -> NoDup l -> (length l <= fuel)%nat -> sound w (nreverse_loop fuel prev x w).
Proof.
  revert fuel prev x w. induction l as [| a l IH]; intros fuel prev x w Hl Hd Hf.
  { simpl in Hl. subst x. rewrite nreverse_nil. simpl. lia. }
  destruct Hl as [-> Hl]. apply NoDup_cons in Hd as [Ha Hd]. simpl in Hf.
  destruct fuel as [| fuel]; [lia |]. rewrite nreverse_cons. eapply sound_relink, IH; [| done | lia].
  by apply linked_relink.
Qed.

Lemma CONSP_inv x : CONSP x = true -> x = LRec lrecord_cons (addr_of x).
Proof.
  destruct x as [n | c | t a]; try done. unfold CONSP, RECORDP. intros Ht. apply bool_decide_eq_true in Ht. by subst.
Qed.

Lemma conses_bound w (l : list positive) :
  NoDup l -> (forall a, a ∈ l -> is_Some (l_conses w !! a)) -> (length l <= size (l_conses w))%nat.
Proof.
  intros Hd Hin. rewrite <- (size_dom (l_conses w)), <- (size_list_to_set (C := gset positive) l) by done.
  apply subseteq_size. intros a Ha%elem_of_list_to_set. by apply elem_of_dom, Hin.
Qed.

(** The conses already turned round lead from [prev] to nil; when the loop comes
    back to one of them it walks along them and ends. *)
Lemma nreverse_sound fuel prev x w l n :
  linked w prev l -> NoDup l -> (forall a, a ∈ l -> is_Some (l_conses w !! a)) ->
  (size (l_conses w) <= n)%nat -> (2 * n + 2 <= fuel + length l)%nat -> sound w (nreverse_loop fuel prev x w).
Proof.
  revert prev x w l n. induction fuel as [| fuel IH]; intros prev x w l n Hl Hd Hin Hn Hf;
    pose proof (conses_bound w l Hd Hin) as Hlen; [lia |].
  - destruct (CONSP x) eqn:Hx; [| apply nreverse_other; [done | lia]].
    apply CONSP_inv in Hx. set (a := addr_of x) in *. rewrite Hx. clear Hx.
    rewrite nreverse_cons. destruct (decide (a ∈ l)) as [Ha | Ha].
    + apply list_elem_of_split in Ha as (l1 & l2 & ->).
      apply NoDup_app in Hd as (_ & _ & [Ha2 Hd2]%NoDup_cons).
      assert (linked w (XCONS (LRec lrecord_cons a) w).2 l2) as Hl2.
      { clear - Hl. revert prev Hl. induction l1 as [| b l1 IH1]; intros prev Hl; [by destruct Hl as [-> ?] |].
        destruct Hl as [-> Hl]. by eapply IH1. }
      eapply sound_relink, nreverse_linked; [by apply linked_relink | done |]. rewrite length_app in *. simpl in *. lia.
    + destruct (l_conses w !! a) as [c |] eqn:Hc.
      * eapply sound_relink, (IH _ _ _ (a :: l) n).
        -- simpl. split; [done |]. rewrite XCONS_relink_eq. by apply linked_relink.
        -- by constructor.
        -- intros b Hb. unfold relink. simpl. destruct (decide (a = b)) as [-> |]; [rewrite lookup_insert_eq; eauto |].
           rewrite lookup_insert_ne by done. apply Hin. apply elem_of_cons in Hb as [-> |]; done.
        -- unfold relink. simpl. rewrite map_size_insert_Some; [done | by eexists].
        -- simpl. lia.
      * assert ((XCONS (LRec lrecord_cons a) w).2 = Qnil) as ->
          by (unfold XCONS; simpl; by rewrite Hc).
        rewrite nreverse_nil. simpl. unfold specpdl_depth, relink. simpl. lia.
Qed.

Lemma height_nreverse l : height 0 (bytecode_nreverse (X := X) l) (fun _ => True).
Proof.
  intros w Hw. unfold bytecode_nreverse, e_bind. simpl.
  pose proof (nreverse_sound (2 * size (l_conses w) + 2) Qnil l w [] (size (l_conses w))) as Hs.
  specialize (Hs eq_refl (NoDup_nil_2) ltac:(intros a Ha; by apply not_elem_of_nil in Ha) ltac:(done) ltac:(simpl; lia)).
  unfold sound in Hs. destruct (nreverse_loop _ _ _ _) as [[v | v | why] w']; try done.
  split_and!; [lia | lia | done].
Qed.
End Nreverse.

(** ** Binding and unbinding *)

Section Bindings.
Context {X : Type} `{Subrs X, !SubrsOk X}.
Implicit Types w : lisp X.

(** As [height], for a state in which the stack of bindings has room for [n] more. *)
Definition height_at {A} (n d : Z) (e : E X A) : Prop := forall w,
  0 < l_specpdl_size w -> specpdl_depth w + n <= l_specpdl_size w ->
  match e w with
  | (Value a, w') => specpdl_depth w' = specpdl_depth w + d /\ l_specpdl_size w <= l_specpdl_size w'
  | (Thrown _, _) => True
  | (Trouble _, _) => False
  end.

Lemma height_at_of {A} n d (e : E X A) P : height d e P -> height_at n d e.
Proof.
  intros He w Hw _. specialize (He w Hw). destruct (e w) as [[a | what | why] w']; try done. tauto.
Qed.

Lemma height_at_after {A B} n d (m : E X A) (k : A -> E X B) P :
  height 0 m P -> (forall a, height_at n d (k a)) -> height_at n d (e_bind m k).
Proof.
  intros Hm Hk w Hw Hr. unfold e_bind. specialize (Hm w Hw).
  destruct (m w) as [[a | what | why] w']; try done. destruct Hm as (Hd & Hs & _).
  specialize (Hk a w' ltac:(lia) ltac:(lia)). destruct (k a w') as [[b | what | why] w'']; try done. lia.
Qed.

Lemma height_at_before {A B} n d (m : E X A) (k : A -> E X B) :
  height_at n d m -> (forall a, height 0 (k a) (fun _ => True)) -> height_at n d (e_bind m k).
Proof.
  intros Hm Hk w Hw Hr. unfold e_bind. specialize (Hm w Hw Hr).
  destruct (m w) as [[a | what | why] w']; try done. destruct Hm as (Hd & Hs).
  specialize (Hk a w' ltac:(lia)). destruct (k a w') as [[b | what | why] w'']; try done. lia.
Qed.

Lemma height_at_push b : height_at 1 1 (push_specpdl (X := X) b).
Proof.
  intros w Hw Hr. unfold push_specpdl. rewrite (proj2 (Z.ltb_lt _ _)) by lia.
  unfold specpdl_depth in *. simpl. lia.
Qed.

Lemma height_at_magic symbol v : height_at 1 1 (specbind_magic (X := X) symbol v).
Proof.
  unfold specbind_magic. eapply height_at_after; [apply height_call_int |]. intros l.
  apply height_at_before; [| intros ?; repeat height_step].
  destruct (l =? 0); [| destruct (l >? 0)];
    repeat (eapply height_at_after; [apply height_call | intros ?]); apply height_at_push.
Qed.

Lemma height_at_fast symbol v : height_at 1 1 (SPECBIND_FAST_UNSAFE (X := X) symbol v).
Proof.
  unfold SPECBIND_FAST_UNSAFE. eapply height_at_after; [apply height_get |]. intros old.
  destruct (plain_value old); [| apply height_at_magic].
  apply height_at_before; [apply height_at_push | intros ?; by apply height_upd].
Qed.

Lemma grow_loop_ends fuel size needed max :
  0 < size -> needed <= max -> needed - size <= Z.of_nat fuel ->
  exists size', grow_loop fuel size needed max = Some size' /\ needed <= size' /\ size <= size'.
Proof.
  revert size. induction fuel as [| fuel IH]; intros size Hs Hm Hf; simpl.
  - destruct (Z.ltb_spec size needed); [lia |]. eauto with lia.
  - destruct (Z.ltb_spec size needed); [| eauto with lia]. rewrite Z.gtb_ltb.
    destruct (IH (if max <? size * 2 then max else size * 2)) as (s' & -> & ? & Hle); [zcase | done | zcase |].
    exists s'. split; [done |]. split; [done |]. revert Hle. zcase.
Qed.

Definition room_after n w (r : run_result unit * lisp X) : Prop :=
  match r with
  | (Value _, w') => specpdl_depth w' = specpdl_depth w /\ l_specpdl_size w <= l_specpdl_size w' /\
      specpdl_depth w + n <= l_specpdl_size w'
  | (Thrown _, _) => True
  | (Trouble _, _) => False
  end.

(** The end of [grow_specpdl]. *)
Lemma grow_room_end n w w' :
  0 < l_specpdl_size w -> l_specpdl_size w' = l_specpdl_size w -> l_specpdl w' = l_specpdl w ->
  specpdl_depth w + n <= l_max_specpdl_size w' ->
  room_after n w ((size <<- e_get l_specpdl_size; max <<- e_get l_max_specpdl_size;
    size <<- e_access no_fuel (grow_loop (Z.to_nat (specpdl_depth w + n) + 1) size (specpdl_depth w + n) max);
    e_upd (fun w => set_sizes w size (l_max_specpdl_size w))) w').
Proof.
  intros Hw Hs Hl Hm. unfold e_bind, e_get.
  destruct (grow_loop_ends (Z.to_nat (specpdl_depth w + n) + 1) (l_specpdl_size w') (specpdl_depth w + n)
              (l_max_specpdl_size w')) as (s' & -> & ? & ?); [lia | done | lia |].
  simpl. unfold specpdl_depth in *. simpl. rewrite Hl. lia.
Qed.

Lemma call_error_throws w :
  exists what w', call (X := X) "continuable_error" [] w = (Thrown what, w').
Proof.
  unfold call. destruct (subr _ _ w) as [[v | v] w''] eqn:Es; simpl; [| eauto].
  apply error_throws in Es; [done | set_solver].
Qed.

Lemma grow_room n w : 0 < l_specpdl_size w -> room_after n w (grow_specpdl n w).
Proof.
  intros Hw. pose proof (grow_room_end n w) as Hend.
  unfold grow_specpdl. unfold e_bind at 1, e_get at 1. unfold e_bind at 1, e_get at 1.
  unfold e_bind at 1. rewrite Z.geb_leb.
  destruct (Z.leb_spec (l_max_specpdl_size w) (specpdl_depth w + n)); [| apply Hend; done || lia].
  unfold e_bind at 1.
  assert (exists w1, (if l_max_specpdl_size w <? min_max_specpdl_size
                      then e_upd (fun w0 => set_sizes w0 (l_specpdl_size w0) min_max_specpdl_size)
                      else e_ret tt) w = (Value tt, w1) /\
          l_specpdl_size w1 = l_specpdl_size w /\ l_specpdl w1 = l_specpdl w) as (w1 & -> & Hs1 & Hl1).
  { destruct (_ <? _); eexists; (split; [reflexivity | done]). }
  unfold e_bind at 1, e_get at 1. rewrite Z.geb_leb.
  destruct (Z.leb_spec (l_max_specpdl_size w1) (specpdl_depth w + n)); [| apply Hend; done || lia].
  cbv [e_bind e_get e_upd e_ret].
  destruct (l_debug_on_error w1);
    match goal with |- context [call "continuable_error"%string [] ?u] =>
      destruct (call_error_throws u) as (what & w2 & ->) end; done.
Qed.

(** There is room for [n] more after [SPECPDL_RESERVE (n)]. *)
Lemma reserve_room n w : 0 < l_specpdl_size w -> room_after n w (SPECPDL_RESERVE n w).
Proof.
  intros Hw. unfold SPECPDL_RESERVE, e_bind, e_get. rewrite Z.geb_leb.
  destruct (Z.leb_spec (l_specpdl_size w) (specpdl_depth w + n)); [by apply grow_room | simpl; lia].
Qed.

Lemma reserve_one {A} d (k : E X A) : height_at 1 d k -> height d (SPECPDL_RESERVE 1 ;;> k) (fun _ => True).
Proof.
  intros Hk w Hw. pose proof (reserve_room 1 w Hw) as Hroom. unfold e_bind at 1. unfold room_after in Hroom.
  destruct (SPECPDL_RESERVE 1 w) as [[[] | what | why] w']; try done. destruct Hroom as (Hd & Hs & Hr).
  specialize (Hk w' ltac:(lia) ltac:(lia)). destruct (k w') as [[a | what | why] w'']; try done.
  split_and!; [lia | lia | done].
Qed.

Lemma height_record function arg : height 1 (record_unwind_protect (X := X) function arg) (fun _ => True).
Proof. apply reserve_one, height_at_push. Qed.

Lemma height_specbind KW symbol v : height 1 (specbind (X := X) KW symbol v) (fun _ => True).
Proof.
  apply reserve_one. apply (height_at_after _ _ _ _ (fun _ => True)); [by repeat height_step |]. intros [].
  eapply height_at_after; [apply height_get |]. intros old.
  destruct (plain_value old); [| apply height_at_magic].
  apply (height_at_after _ _ _ _ (fun _ => True)); [by repeat height_step |]. intros [].
  apply height_at_before; [apply height_at_push | intros ?; by apply height_upd].
Qed.

(** Unbinding down to [count]. *)
Definition unbound w (count : Z) (r : run_result unit * lisp X) : Prop :=
  match r with
  | (Value _, w') => specpdl_depth w' = count /\ l_specpdl_size w <= l_specpdl_size w'
  | (Thrown _, _) => True
  | (Trouble _, _) => False
  end.

Lemma height_undo_binding b : height 0 (undo_binding (X := X) b) (fun _ => True).
Proof. unfold undo_binding. repeat height_step. Qed.

Lemma unbind_hairy_ends fuel count w :
  0 < l_specpdl_size w -> 0 <= count <= specpdl_depth w -> specpdl_depth w - count <= Z.of_nat fuel ->
  unbound w count (unbind_hairy_loop fuel count w).
Proof.
  revert w. induction fuel as [| fuel IH]; intros w Hw Hc Hf; simpl; unfold e_bind at 1, e_get at 1.
  - destruct (Z.eqb_spec (specpdl_depth w) count); simpl; lia.
  - destruct (Z.eqb_spec (specpdl_depth w) count) as [E | E]; [simpl; lia |].
    unfold e_bind at 1, e_get at 1. destruct (l_specpdl w) as [| b l] eqn:Hl.
    { exfalso. unfold specpdl_depth in *. rewrite Hl in *. simpl in *. lia. }
    assert (specpdl_depth (set_specpdl w l) = specpdl_depth w - 1) as Hd
      by (unfold specpdl_depth; simpl; rewrite Hl; simpl; lia).
    pose proof (height_undo_binding b (set_specpdl w l) Hw) as Hb. unfold e_bind at 1, e_upd at 1, e_bind at 1.
    destruct (undo_binding b (set_specpdl w l)) as [[[] | what | why] w']; try done.
    destruct Hb as (Hd' & Hs' & _). simpl in Hs'.
    specialize (IH w' ltac:(lia) ltac:(lia) ltac:(lia)). unfold unbound in *.
    destruct (unbind_hairy_loop fuel count w') as [[u | what | why] w'']; try done. lia.
Qed.

Lemma unbind_to_hairy_ends count w :
  0 < l_specpdl_size w -> 0 <= count <= specpdl_depth w -> unbound w count (unbind_to_hairy count w).
Proof.
  intros Hw Hc. unfold unbind_to_hairy. unfold e_bind at 1.
  pose proof (height_call "check_quit" [] w Hw) as Hq.
  destruct (call "check_quit" [] w) as [[q | what | why] w1]; try done. destruct Hq as (Hd & Hs & _).
  unfold e_bind at 1, e_get at 1. unfold e_bind at 1, e_upd at 1. unfold e_bind at 1, e_get at 1.
  set (w2 := set_quit_flag w1 Qnil). assert (specpdl_depth w2 = specpdl_depth w1) as Hd2 by done.
  assert (l_specpdl_size w2 = l_specpdl_size w1) as Hs2 by done.
  pose proof (unbind_hairy_ends (Z.to_nat (specpdl_depth w2)) count w2 ltac:(lia) ltac:(lia) ltac:(lia)) as Hu.
  unfold e_bind at 1. unfold unbound in *.
  destruct (unbind_hairy_loop _ count w2) as [[[] | what | why] w3]; try done.
  destruct (negb _); simpl; unfold specpdl_depth in *; simpl; lia.
Qed.

Lemma UNBIND_TO_ends count w :
  0 < l_specpdl_size w -> 0 <= count <= specpdl_depth w -> unbound w count (UNBIND_TO count w).
Proof.
  intros Hw Hc. unfold UNBIND_TO, e_bind at 1, e_get at 1.
  assert (specpdl_depth w <= Z.of_nat (Z.to_nat (specpdl_depth w))) as Hf by lia. revert Hf.
  generalize (Z.to_nat (specpdl_depth w)). intros fuel. revert w Hw Hc.
  induction fuel as [| fuel IH]; intros w Hw Hc Hf; simpl; unfold e_bind at 1, e_get at 1.
  - destruct (Z.eqb_spec (specpdl_depth w) count); simpl; lia.
  - destruct (Z.eqb_spec (specpdl_depth w) count) as [E | E]; [simpl; lia |].
    unfold e_bind at 1, e_get at 1. destruct (l_specpdl w) as [| b l] eqn:Hl.
    { exfalso. unfold specpdl_depth in *. rewrite Hl in *. simpl in *. lia. }
    unfold e_bind at 1, e_get at 1. destruct (_ || _); [by apply unbind_to_hairy_ends |].
    unfold e_bind at 1, e_upd at 1. unfold e_bind at 1, set_symbol_value, e_upd at 1.
    match goal with |- unbound _ _ (unbind_loop _ _ ?u) =>
      assert (specpdl_depth u = specpdl_depth w - 1) as Hd
        by (unfold specpdl_depth; simpl; rewrite Hl; simpl; lia);
      assert (l_specpdl_size u = l_specpdl_size w) as Hs by done;
      pose proof (IH u ltac:(lia) ltac:(lia) ltac:(lia)) as Hu end.
    unfold unbound in *. destruct (unbind_loop fuel count _) as [[[] | what | why] w']; done.
Qed.

(** Undoing what was bound since the stack was at [specpdl_depth ()]. *)
Lemma unbind_after {A} d (e : E X A) (P : A -> Prop) : 0 <= d -> height d e P ->
  height 0 (count <<- e_get specpdl_depth; v <<- e; UNBIND_TO count ;;> e_ret v) P.
Proof.
  intros Hd0 He w Hw. unfold e_bind at 1, e_get at 1. unfold e_bind at 1. specialize (He w Hw).
  destruct (e w) as [[v | what | why] w1]; try done. destruct He as (Hd & Hs & HP).
  pose proof (UNBIND_TO_ends (specpdl_depth w) w1 ltac:(lia) ltac:(unfold specpdl_depth in *; lia)) as Hu.
  unfold e_bind. unfold unbound in Hu. destruct (UNBIND_TO _ w1) as [[[] | what | why] w2]; try done.
  simpl. split_and!; [lia | lia | done].
Qed.
End Bindings.

(** ** The operations *)

Section Operations.
Context {X : Type} `{Subrs X, !SubrsOk X}.
Abbreviation any := (fun _ => True).

(** An operation on [n] arguments that leaves [d] more bindings. *)
Definition op_ok (d : Z) (n : nat) (f : list Lisp_Object -> E X Lisp_Object) : Prop :=
  forall args, length args = n -> height d (f args) any.

Lemma op_ok_lisp_fun n name nils : op_ok 0 n (lisp_fun name nils).
Proof. intros args _. apply height_call. Qed.

Lemma op_ok_int_fun n name : op_ok 0 n (int_fun name).
Proof. intros args _. unfold int_fun. repeat height_step. Qed.

Lemma op_ok_list n : op_ok 0 n list_of.
Proof.
  intros args _. induction args as [| a args IH]; simpl; [by apply height_ret |].
  eapply (height_bind 0 0); [exact IH | intros l _; apply height_Fcons | lia].
Qed.

Lemma op_ok_test1 p : op_ok 0 1 (test1 p).
Proof. intros [| a [| b l]]; try done. intros _. by apply height_ret. Qed.

Lemma op_ok_test2 p : op_ok 0 2 (test2 p).
Proof. intros [| a [| b [| c l]]]; try done. intros _. by apply height_ret. Qed.

Lemma op_ok_fun1 d f : (forall a, height d (f a) any) -> op_ok d 1 (fun1 f).
Proof. intros Hf [| a [| b l]]; try done. intros _. apply Hf. Qed.

Lemma op_ok_fun2 d f : (forall a b, height d (f a b) any) -> op_ok d 2 (fun2 f).
Proof. intros Hf [| a [| b [| c l]]]; try done. intros _. apply Hf. Qed.

Lemma op_ok_fun3 d f : (forall a b c, height d (f a b c) any) -> op_ok d 3 (fun3 f).
Proof. intros Hf [| a [| b [| c [| e l]]]]; try done. intros _. apply Hf. Qed.

Lemma op_ok_compare p : op_ok 0 2 (compare_op p).
Proof.
  apply op_ok_fun2. intros a b. eapply (height_bind 0 0 _ _ _ any); [| intros c _; by apply height_ret | lia].
  apply height_arithcompare, misfits_two.
Qed.

Lemma height_save_window_excursion body : height 0 (save_window_excursion (X := X) body) any.
Proof.
  intros w Hw.
  assert (height 1 (c <<- call "Fcurrent_window_configuration" [Qnil];
                    record_unwind_protect "save_window_excursion_unwind" c ;;> call (X := X) "Fprogn" [body]) any) as He.
  { eapply (height_bind 0 1); [apply height_call | intros c _ | lia].
    eapply (height_bind 1 0); [apply height_record | intros u _; apply height_call | lia]. }
  pose proof (unbind_after 1 _ _ ltac:(lia) He w Hw) as Hu. clear He.
  unfold save_window_excursion, e_bind, e_get in *.
  destruct (call "Fcurrent_window_configuration" [Qnil] w) as [[c | what | why] w1]; try done.
  destruct (record_unwind_protect _ c w1) as [[u | what | why] w2]; try done.
Qed.

#[local] Hint Resolve op_ok_lisp_fun op_ok_int_fun op_ok_list op_ok_test1 op_ok_test2 op_ok_fun1 op_ok_fun2
  op_ok_fun3 op_ok_compare height_save_window_excursion height_arithop misfits_two height_plus_op
  height_diff_op height_nreverse height_negate : height.

Lemma misfits_one a : (misfits a < 3)%nat.
Proof. unfold misfits. destruct (is_number a); lia. Qed.
#[local] Hint Resolve misfits_one : height.

(** All operations of the tables leave the bindings as they were. *)
Lemma all_ops_ok :
  Forall (fun p => op_ok 0 p.2.1 p.2.2) (common_ops (X := X) ++ rare_ops (X := X)).
Proof.
  unfold common_ops, rare_ops, object_ops, arith_ops, buffer_ops, form_ops, motion_ops. cbn [app].
  repeat (apply Forall_cons; split; [cbn [fst snd] |]); [.. | apply Forall_nil; exact I].
  all: try solve [eauto with height].
  all: first [apply op_ok_fun1 | apply op_ok_fun2 | apply op_ok_fun3]; intros; repeat height_step.
Qed.

Lemma assoc_op_In {A} op (l : list (Z * A)) a : assoc_op op l = Some a -> (op, a) ∈ l.
Proof.
  induction l as [| [op' a'] l IH]; simpl; [done |]. destruct (Z.eqb_spec op op') as [-> |].
  - intros [= ->]. apply elem_of_cons. by left.
  - intros ?%IH. apply elem_of_cons. by right.
Qed.

Lemma assoc_op_arity op :
  assoc_op op op_arities = fst <$> assoc_op op (common_ops (X := X) ++ rare_ops).
Proof.
  assert (op_arities = (fun p => (p.1, p.2.1)) <$> (common_ops (X := X) ++ rare_ops (X := X))) as -> by reflexivity.
  induction (common_ops ++ rare_ops) as [| [op' a] l IH]; [done |]. simpl. by destruct (op =? op').
Qed.
End Operations.
