(* ===== verification/Checked.v ===== *)
(** * Runs of byte code that keeps to its stack

    A step of checked code leads to a place of the program that has the height of
    the stacks there, so that a call of a checked function gets into no trouble;
    and without backward jumps it ends. *)

From S2P Require Import Prelude Lisp ElHash Bytecode Optimizer Jumps Optimized Specpdl Execute ExecInsns StackCheck.
Local Open Scope exec_scope.

(** ** A step of checked code *)

Section Step.
Context {X : Type} `{Subrs X, !SubrsOk X}.
Variable SYMBOL_IS_KEYWORD : Lisp_Object -> bool.
Variable constants : list Lisp_Object.
Abbreviation any := (fun _ => True).

(** From [m] the result is no trouble, and a next machine has [dh] values more on
    its stack and [db] bindings more. *)
Definition step_ok (dh db : Z) (m : machine X) (r : step_result (X := X)) : Prop :=
  match r with
  | Next m' => m_pc m' = m_pc m /\ m_sp m' = m_sp m + dh /\ length (m_stack m') = length (m_stack m) /\
      specpdl_depth (m_lisp m') = specpdl_depth (m_lisp m) + db /\
      l_specpdl_size (m_lisp m) <= l_specpdl_size (m_lisp m')
  | Left _ _ => True
  | _ => False
  end.

(** The stack pointer is on the stack. *)
Definition on_stack (m : machine X) : Prop :=
  0 <= m_sp m < zlen (m_stack m) /\ 0 < l_specpdl_size (m_lisp m).

Lemma set_top_ok v (m : machine X) : 0 <= m_sp m < zlen (m_stack m) -> step_ok 0 0 m (set_top v m).
Proof.
  intros Hsp. unfold set_top. rewrite Z.geb_leb. zdec. simpl. rewrite zlen_zset. split_and!; try done; lia.
Qed.

Lemma m_bind_ok {A} dh db d1 (e : E X A) (m m0 : machine X) k :
  on_stack m -> m_pc m0 = m_pc m -> m_stack m0 = m_stack m -> m_lisp m0 = m_lisp m ->
  height d1 e any ->
  (forall a m1, m_pc m1 = m_pc m -> m_stack m1 = m_stack m -> m_sp m1 = m_sp m0 ->
     0 < l_specpdl_size (m_lisp m1) -> step_ok (dh - (m_sp m0 - m_sp m)) (db - d1) m1 (k a m1)) ->
  step_ok dh db m (m_bind e m0 k).
Proof.
  intros [Hsp Hs] Hpc Hst Hl He Hk. unfold m_bind. rewrite Hl. specialize (He _ Hs).
  destruct (e (m_lisp m)) as [[a | what | why] w]; try done. destruct He as (Hd & Hsz & _).
  specialize (Hk a (mk_machine (m_pc m0) (m_stack m0) (m_sp m0) w) Hpc Hst eq_refl ltac:(simpl; lia)).
  unfold step_ok in *. destruct (k a _) as [m' | | |]; try done. simpl in Hk.
  destruct Hk as (E1 & E2 & E3 & E4 & E5). rewrite Hst in E3. split_and!; [congruence | lia | done | lia | lia].
Qed.

Lemma stack_at_ok n (m : machine X) : 0 <= n < m_sp m -> m_sp m < zlen (m_stack m) -> exists v, stack_at m n = Some v.
Proof.
  intros Hn Hsp. unfold stack_at. zdec. destruct (zget_is_Some (m_stack m) (m_sp m - n)) as [v Hv]; [lia |]. eauto.
Qed.

Lemma with_top_ok dh db (m : machine X) k :
  1 <= m_sp m < zlen (m_stack m) -> (forall v, step_ok dh db m (k v)) -> step_ok dh db m (with_top m k).
Proof.
  intros Hsp Hk. unfold with_top. destruct (stack_at_ok 0 m) as [v ->]; [lia | lia |]. apply Hk.
Qed.

Lemma push_ok v (m : machine X) : 0 <= m_sp m + 1 < zlen (m_stack m) -> step_ok 1 0 m (push v m).
Proof.
  intros Hsp. pose proof (set_top_ok v (discard (-1) m) ltac:(simpl; lia)) as Hs. unfold push, step_ok in *.
  destruct (set_top _ _); try done. simpl in *. destruct Hs as (? & ? & ? & ? & ?). split_and!; try done; lia.
Qed.

Lemma take_args_ok n (m : machine X) :
  Z.of_nat n <= m_sp m < zlen (m_stack m) -> exists args, take_args n m = Some args /\ length args = n.
Proof.
  intros Hn. induction n as [| n IH]; [by exists [] |].
  destruct IH as (args & Ha & Hl); [lia |]. simpl. destruct (stack_at_ok (Z.of_nat n) m) as [v ->]; [lia | lia |].
  simpl. rewrite Ha. simpl. exists (v :: args). simpl. by rewrite Hl.
Qed.

Lemma apply_op_ok d n f (m : machine X) :
  on_stack m -> op_ok d n f -> Z.of_nat n <= m_sp m -> m_sp m - Z.of_nat n + 1 < zlen (m_stack m) ->
  step_ok (1 - Z.of_nat n) d m (apply_op n f m).
Proof.
  intros Hm Hf Hn Hroom. unfold apply_op. destruct (take_args_ok n m) as (args & -> & Hl); [destruct Hm; lia |].
  apply (m_bind_ok _ _ d _ _ m); try done; [by apply Hf |]. intros v m1 Hpc Hst Hsp _.
  rewrite Z.sub_diag, Z.sub_diag, Z.sub_0_r.
  pose proof (set_top_ok v (discard (Z.of_nat n - 1) m1)) as Hs. simpl in Hs.
  specialize (Hs ltac:(rewrite Hst, Hsp; destruct Hm; lia)). unfold step_ok in *.
  destruct (set_top _ _); try done. simpl in Hs. destruct Hs as (? & ? & ? & ? & ?). split_and!; try done; lia.
Qed.

(** An expression followed by the next instruction. *)
Lemma m_bind_next dh db {A} (e : E X A) (m : machine X) n :
  on_stack m -> height db e any -> dh = - n -> step_ok dh db m (m_bind e (discard n m) (fun _ m => Next m)).
Proof.
  intros Hm He ->. apply (m_bind_ok _ _ db _ _ (discard n m)); try done. intros a m1 Hpc Hst Hsp _.
  simpl in *. split_and!; try done; lia.
Qed.

Lemma discard_0 (m : machine X) : discard 0 m = m.
Proof. destruct m. unfold discard. simpl. by rewrite Z.sub_0_r. Qed.

Lemma m_bind_unbound count dh db (m : machine X) :
  on_stack m -> 0 <= count <= specpdl_depth (m_lisp m) -> dh = 0 -> db = count - specpdl_depth (m_lisp m) ->
  step_ok dh db m (m_bind (UNBIND_TO count) m (fun _ m => Next m)).
Proof.
  intros [Hsp Hs] Hc -> ->. unfold m_bind. pose proof (UNBIND_TO_ends count _ Hs Hc) as Hu. unfold unbound in Hu.
  destruct (UNBIND_TO count (m_lisp m)) as [[u | what | why] w]; try done. simpl. split_and!; try done; lia.
Qed.

Lemma height_protect function save : height 0 save any -> height 1 (protect (X := X) function save) any.
Proof. intros Hs. eapply (height_bind 0 1); [exact Hs | intros v _; apply height_record | lia]. Qed.

Lemma height_temp_setup a :
  height 1 (temp_output_buffer_setup (X := X) SYMBOL_IS_KEYWORD a ;;> call "Vstandard_output" []) any.
Proof.
  eapply (height_bind 1 0 _ _ _ any); [| intros u _; apply height_call | lia].
  unfold temp_output_buffer_setup.
  do 6 (eapply (height_bind 0 1); [apply height_call | intros ? _ | lia]).
  eapply (height_bind 1 0); [apply height_specbind | intros ? _; repeat height_step | lia].
Qed.

(** One binding fewer after [temp_output_buffer_show]. *)
Lemma temp_show_ok (m : machine X) :
  on_stack m -> 2 <= m_sp m -> 1 <= specpdl_depth (m_lisp m) ->
  step_ok (-1) (-1) m (apply_op 2 (fun2 temp_output_buffer_show) m).
Proof.
  intros Hm Hsp Hd. unfold apply_op. destruct (take_args_ok 2 m) as (args & -> & Hl); [destruct Hm; simpl; lia |].
  destruct args as [| a [| b [| c l]]]; try done. unfold m_bind, fun2, temp_output_buffer_show.
  destruct Hm as [Hsp' Hs]. pose proof (height_call "temp_output_buffer_show" [a; Qnil] _ Hs) as Hc.
  unfold e_bind at 1. destruct (call _ _ (m_lisp m)) as [[v | what | why] w1]; try done. destruct Hc as (Hd1 & Hs1 & _).
  unfold e_bind at 1, e_get at 1. unfold e_bind at 1.
  pose proof (UNBIND_TO_ends (specpdl_depth w1 - 1) w1 ltac:(lia) ltac:(lia)) as Hu. unfold unbound in Hu.
  destruct (UNBIND_TO _ w1) as [[u | what | why] w2]; try done. unfold e_ret; cbv beta iota.
  pose proof (set_top_ok b (discard (Z.of_nat 2 - 1) (mk_machine (m_pc m) (m_stack m) (m_sp m) w2))
                ltac:(simpl; lia)) as Ht.
  unfold step_ok in *. destruct (set_top _ _); try done. simpl in *.
  destruct Ht as (? & ? & ? & ? & ?). split_and!; try done; lia.
Qed.

(** A machine with shape [(h, b)] whose bindings began at [base], when there was
    [space] on the stack of bindings. *)
Variable depth room base space : Z.
Hypothesis Hspace : base + room <= space.

Record shaped (h b : Z) (m : machine X) : Prop := {
  sh_sp : m_sp m = h;
  sh_stack : zlen (m_stack m) = depth + 1;
  sh_depth : specpdl_depth (m_lisp m) = base + b;
  sh_room : space <= l_specpdl_size (m_lisp m);
  sh_size : 0 < l_specpdl_size (m_lisp m);
  sh_bounds : 0 <= h <= depth /\ 0 <= b;
}.

Definition bounded (p : Z * shape) : Prop := 0 <= p.2.1 <= depth /\ 0 <= p.2.2.

(** What may follow a step. *)
Definition follows (succs : list (Z * shape)) (r : step_result (X := X)) : Prop :=
  match r with
  | Next m' => exists h b, (m_pc m', (h, b)) ∈ succs /\ shaped h b m'
  | Returned _ w => base <= specpdl_depth w /\ space <= l_specpdl_size w
  | Left _ _ => True
  | Stuck _ => False
  end.

Lemma step_ok_follows dh db h b (m : machine X) r :
  0 <= base -> shaped h b m -> bounded (m_pc m, (h + dh, b + db)) -> step_ok dh db m r ->
  follows [(m_pc m, (h + dh, b + db))] r.
Proof.
  intros Hbase [] [Hh Hb] Hr. unfold step_ok in Hr. destruct r as [m' | | |]; try done.
  destruct Hr as (Hpc & Hsp & Hlen & Hd & Hs). exists (h + dh), (b + db). simpl in *.
  split; [rewrite Hpc; by apply list_elem_of_singleton |]. split; simpl; lia.
Qed.

Lemma shaped_on_stack h b m : shaped h b m -> on_stack m.
Proof. intros []. split; lia. Qed.

Lemma shaped_pc h b m p : shaped h b m -> shaped h b (set_pc p m).
Proof. by intros []. Qed.

Hypothesis Hbase : 0 <= base.

Lemma exec_varref_ok n h b m :
  shaped h b m -> 0 <= n < zlen constants -> h + 1 <= depth -> step_ok 1 0 m (exec_varref constants n m).
Proof.
  intros Hm Hn Hh. pose proof (shaped_on_stack _ _ _ Hm) as Hon. destruct Hm.
  unfold exec_varref, with_constant. destruct (zget_is_Some constants n Hn) as [symbol ->].
  destruct (SYMBOL_VALUE_MAGIC_P _); [| apply push_ok; lia].
  apply (m_bind_ok _ _ 0 _ _ m); try done; [apply height_call |]. intros v m1 Hpc Hst Hsp _.
  rewrite Z.sub_diag. apply push_ok. rewrite Hst, Hsp. lia.
Qed.

Lemma exec_varset_ok n h b m :
  shaped h b m -> 0 <= n < zlen constants -> 1 <= h -> step_ok (-1) 0 m (exec_varset constants n m).
Proof.
  intros Hm Hn Hh. pose proof (shaped_on_stack _ _ _ Hm) as Hon. destruct Hm.
  unfold exec_varset, with_constant. destruct (zget_is_Some constants n Hn) as [symbol ->].
  apply with_top_ok; [destruct Hon; lia |]. intros v.
  destruct (plain_value _); apply m_bind_next; try done; [by apply height_upd | apply height_call].
Qed.

Lemma exec_varbind_ok n h b m :
  shaped h b m -> 0 <= n < zlen constants -> 1 <= h -> b + 1 <= room ->
  step_ok (-1) 1 m (exec_varbind constants n m).
Proof.
  intros Hm Hn Hh Hb. pose proof (shaped_on_stack _ _ _ Hm) as Hon. destruct Hm.
  unfold exec_varbind, with_constant. destruct (zget_is_Some constants n Hn) as [symbol ->].
  apply with_top_ok; [destruct Hon; lia |]. intros v. unfold m_bind. simpl.
  pose proof (height_at_fast symbol v (m_lisp m) ltac:(lia) ltac:(lia)) as Hf.
  destruct (SPECBIND_FAST_UNSAFE _ _ _) as [[u | what | why] w]; try done; simpl; split_and!; try done; lia.
Qed.

Lemma apply_op_follows n f h b m p :
  shaped h b m -> op_ok 0 n f -> Z.of_nat n <= h -> bounded (p, (h - Z.of_nat n + 1, b)) -> m_pc m = p ->
  follows [(p, (h - Z.of_nat n + 1, b))] (apply_op n f m).
Proof.
  intros Hm Hf Hn [Hh Hb] <-. simpl in *. pose proof (shaped_on_stack _ _ _ Hm) as Hon.
  pose proof (apply_op_ok 0 n f m Hon Hf) as Ha. destruct Hm eqn:E.
  replace (h - Z.of_nat n + 1) with (h + (1 - Z.of_nat n)) in * by lia.
  replace b with (b + 0) at 1 by lia. eapply step_ok_follows; [done | done | | apply Ha; lia].
  split; simpl; lia.
Qed.

(** A jump that pops [n] values when taken and [n'] when not. *)
Lemma goto_follows from to h b m m0 n succs :
  shaped h b m -> m0 = discard n m -> 0 <= h - n <= depth -> (to, (h - n, b)) ∈ succs ->
  follows succs (do_goto from to m0).
Proof.
  intros [] -> Hn Hin. unfold do_goto, m_bind. simpl.
  assert (height 0 (if to - (from + 1) <? 0 then call (X := X) "QUIT" [] else e_ret Qnil) (fun _ => True)) as Hq
    by (destruct (_ <? _); [apply height_call | by apply height_ret]).
  specialize (Hq (m_lisp m) ltac:(lia)). revert Hq. generalize (if to - (from + 1) <? 0 then call (X := X) "QUIT" [] else e_ret Qnil).
  intros q Hq. destruct (q (m_lisp m)) as [[v | what | why] w]; try done.
  simpl. exists (h - n), b. split; [done |]. split; simpl; lia.
Qed.

Lemma next_follows h b m n succs p :
  shaped h b m -> m_pc m = p -> 0 <= h - n <= depth -> (p, (h - n, b)) ∈ succs ->
  follows succs (Next (discard n m)).
Proof. intros [] <- Hn Hin. exists (h - n), b. split; [done |]. split; simpl; lia. Qed.

Lemma exec_jump_follows kind from to h b m succs p :
  shaped h b m -> m_pc m = p ->
  insn_shape constants room (IJump kind to) (p - 1) (h, b) = Some succs -> Forall bounded succs ->
  follows succs (exec_jump kind from to m).
Proof.
  intros Hm Hp Hs Hb. pose proof (shaped_on_stack _ _ _ Hm) as Hon. pose proof (sh_sp _ _ _ Hm) as Hsp.
  pose proof (sh_bounds _ _ _ Hm) as [Hh _]. unfold exec_jump. simpl in Hs.
  replace (p - 1 + 1) with p in Hs by lia. destruct (kind =? 0).
  { injection Hs as <-. apply (goto_follows _ _ h b m _ 0); [done | by rewrite discard_0 | lia |].
    rewrite Z.sub_0_r. by apply list_elem_of_singleton. }
  destruct (Z.leb_spec 1 h); [| done]. unfold with_top. destruct Hon as [Hon _].
  destruct (stack_at_ok 0 m) as [v ->]; [lia | lia |].
  destruct (kind <=? 2); injection Hs as <-; destruct (if _ || _ then _ else _).
  - apply (goto_follows _ _ h b m _ 1); [done | done | lia | set_solver].
  - apply (next_follows h b m 1 _ p); [done | done | lia | set_solver].
  - apply (goto_follows _ _ h b m _ 0); [done | by rewrite discard_0 | lia | rewrite Z.sub_0_r; set_solver].
  - apply (next_follows h b m 1 _ p); [done | done | lia | set_solver].
Qed.

(** What a step that goes on to the next instruction must show. *)
Lemma next_ok h b h' b' dh db (m : machine X) succs r :
  shaped h b m -> Forall bounded succs -> succs = [(m_pc m, (h', b'))] -> h' = h + dh -> b' = b + db ->
  step_ok dh db m r -> follows succs r.
Proof.
  intros Hm Hs -> -> -> Hr. rewrite Forall_singleton in Hs.
  apply (step_ok_follows dh db h b m r Hbase Hm Hs Hr).
Qed.

Ltac next_with h b dh db :=
  eapply (next_ok h b _ _ dh db); [eassumption | eassumption | reflexivity | lia | lia |].

Lemma exec_narg_follows n0 n h b m succs p :
  shaped h b m -> m_pc m = p ->
  insn_shape constants room (INarg n0 n) (p - 1) (h, b) = Some succs -> Forall bounded succs ->
  follows succs (exec_narg constants n0 n m).
Proof.
  intros Hm <- Hs Hb. pose proof (shaped_on_stack _ _ _ Hm) as Hon. simpl in Hs.
  replace (m_pc m - 1 + 1) with (m_pc m) in Hs by lia. unfold exec_narg.
  destruct (Z.eqb_spec n0 Bcall) as [-> | Hcall].
  { destruct ((0 <=? n) && (n + 1 <=? h)) eqn:E; [| done]. injection Hs as <-. apply andb_prop in E as [? ?].
    simpl. destruct (proj1 (Forall_singleton _ _) Hb). simpl in *.
    replace (h - n) with (h - Z.of_nat (Z.to_nat n + 1) + 1) by lia.
    apply (apply_op_follows _ _ h b); try done; [apply op_ok_lisp_fun | lia | split; simpl; lia]. }
  destruct (Z.eqb_spec n0 Bunbind) as [-> | Hunbind].
  { destruct ((0 <=? n) && (n <=? b)) eqn:E; [| done]. injection Hs as <-. apply andb_prop in E as [? ?].
    simpl. next_with h b 0 (- n).
    change (m_bind (depth0 <<- e_get specpdl_depth; UNBIND_TO (depth0 - n)) m (fun _ m => Next m))
      with (m_bind (UNBIND_TO (specpdl_depth (m_lisp m) - n)) m (fun _ (m : machine X) => Next m)).
    destruct Hm. apply m_bind_unbound; [done | lia | done | lia]. }
  destruct ((0 <=? n) && (n <? zlen constants)) eqn:E; [| done]. apply andb_prop in E as [? ?].
  destruct (n0 =? Bvarref) eqn:E1.
  { injection Hs as <-. destruct (proj1 (Forall_singleton _ _) Hb). simpl in *.
    next_with h b 1 0. eapply exec_varref_ok; [done | lia | lia]. }
  destruct (Z.leb_spec 1 h); [| done]. destruct (n0 =? Bvarset) eqn:E2.
  { injection Hs as <-. next_with h b (-1) 0. eapply exec_varset_ok; [done | lia | lia]. }
  destruct (n0 =? Bvarbind) eqn:E3; [| done]. destruct (Z.ltb_spec b room); [| done]. injection Hs as <-.
  destruct (proj1 (Forall_singleton _ _) Hb). simpl in *.
  next_with h b (-1) 1. eapply exec_varbind_ok; [done | lia | lia | lia].
Qed.

Lemma exec_op_follows op h b m succs p :
  shaped h b m -> m_pc m = p ->
  insn_shape constants room (IOp op) (p - 1) (h, b) = Some succs -> Forall bounded succs ->
  follows succs (exec_op SYMBOL_IS_KEYWORD base op m).
Proof.
  intros Hm <- Hs Hb. pose proof (shaped_on_stack _ _ _ Hm) as Hon. cbn [insn_shape] in Hs.
  replace (m_pc m - 1 + 1) with (m_pc m) in Hs by lia. unfold exec_op.
  assert (1 <= h -> 1 <= m_sp m < zlen (m_stack m)) as Htop by (intros; destruct Hm, Hon; lia).
  assert (m = discard 0 m) as Hd by by rewrite discard_0.
  destruct (op =? Breturn).
  { destruct (Z.leb_spec 1 h); [| done]. unfold with_top. destruct (stack_at_ok 0 m) as [v ->]; [lia | by apply Htop |].
    destruct Hm. simpl. lia. }
  destruct (op =? Bdiscard).
  { destruct (Z.leb_spec 1 h); [| done]. injection Hs as <-. next_with h b (-1) 0.
    simpl. split_and!; try done; lia. }
  destruct (op =? Bdup).
  { destruct (Z.leb_spec 1 h); [| done]. injection Hs as <-. destruct (proj1 (Forall_singleton _ _) Hb).
    next_with h b 1 0. apply with_top_ok; [by apply Htop |]. intros v.
    destruct Hm. simpl in *. apply push_ok. lia. }
  destruct (op =? Bunbind_all).
  { injection Hs as <-. next_with h b 0 (- b).
    destruct Hm. apply m_bind_unbound; [done | lia | done | lia]. }
  destruct (op =? Bsave_excursion); cbn [orb] in Hs.
  { injection Hs as <-. next_with h b 0 1. rewrite Hd at 2.
    apply m_bind_next; [done | apply height_protect, height_call | done]. }
  destruct (op =? Bsave_restriction); cbn [orb] in Hs.
  { injection Hs as <-. next_with h b 0 1. rewrite Hd at 2.
    apply m_bind_next; [done | apply height_protect, height_call | done]. }
  destruct (op =? Bsave_current_buffer); cbn [orb] in Hs.
  { injection Hs as <-. next_with h b 0 1. rewrite Hd at 2.
    apply m_bind_next; [done | apply height_protect, height_call | done]. }
  destruct (op =? Bunwind_protect).
  { destruct (Z.leb_spec 1 h); [| done]. injection Hs as <-. next_with h b (-1) 1.
    apply with_top_ok; [by apply Htop |]. intros v.
    apply m_bind_next; [done | by apply height_protect, height_ret | done]. }
  destruct (op =? Btemp_output_buffer_setup).
  { destruct (Z.leb_spec 1 h); [| done]. injection Hs as <-. next_with h b 0 1.
    apply (apply_op_ok 1 1); [done | apply op_ok_fun1; intros; apply height_temp_setup | |];
      destruct Hm, Hon; simpl; lia. }
  destruct (op =? Btemp_output_buffer_show).
  { destruct ((2 <=? h) && (1 <=? b)) eqn:E; [| done]. apply andb_prop in E as [? ?]. injection Hs as <-.
    next_with h b (-1) (-1). destruct Hm. apply temp_show_ok; [done | lia | lia]. }
  rewrite (assoc_op_arity (X := X)) in Hs. destruct (assoc_op op (common_ops ++ rare_ops)) as [[n f] |] eqn:Ea; [| done].
  simpl in Hs. destruct (Z.leb_spec (Z.of_nat n) h); [| done]. injection Hs as <-.
  apply (apply_op_follows _ _ h b); try done; [| by rewrite Forall_singleton in Hb].
  apply assoc_op_In in Ea. pose proof all_ops_ok as Hall. rewrite Forall_forall in Hall. apply (Hall _ Ea).
Qed.

Lemma exec_insn_follows ins k h b m succs :
  shaped h b m -> insn_shape constants room ins k (h, b) = Some succs -> Forall bounded succs ->
  follows succs (exec_insn SYMBOL_IS_KEYWORD constants base ins k (set_pc (k + 1) m)).
Proof.
  intros Hm Hs Hb. apply (shaped_pc _ _ _ (k + 1)) in Hm. set (m' := set_pc (k + 1) m) in *.
  assert (m_pc m' = k + 1) as Hpc by done. pose proof (shaped_on_stack _ _ _ Hm) as Hon.
  assert (insn_shape constants room ins (k + 1 - 1) (h, b) = Some succs) as Hs' by by rewrite Z.add_simpl_r.
  destruct ins as [n0 n | kind to | n | op n | op]; simpl exec_insn.
  - by eapply exec_narg_follows.
  - by eapply exec_jump_follows.
  - simpl in Hs. destruct ((0 <=? n) && (n <? zlen constants)) eqn:E; [| done]. apply andb_prop in E as [? ?].
    injection Hs as <-. destruct (proj1 (Forall_singleton _ _) Hb). simpl in *.
    next_with h b 1 0.
    unfold with_constant. destruct (zget_is_Some constants n) as [v ->]; [lia |].
    destruct Hm. apply push_ok. lia.
  - simpl in Hs. destruct ((1 <=? n) && (n <=? h)) eqn:E; [| done]. apply andb_prop in E as [? ?].
    injection Hs as <-. rewrite Forall_singleton in Hb.
    replace n with (Z.of_nat (Z.to_nat n)) in Hb |- * by lia. unfold exec_count.
    rewrite (proj2 (Z.eqb_neq (Z.of_nat (Z.to_nat n)) 0)), Nat2Z.id by lia.
    destruct (op =? BlistN); [| destruct (op =? BconcatN)];
      apply (apply_op_follows _ _ h b); auto using op_ok_list, op_ok_lisp_fun; lia.
  - by eapply exec_op_follows.
Qed.

(** ** Runs of checked code *)

Variable il : list insn.
Variable shapes : list (option shape).
Hypothesis Hcheck : check_shapes constants room depth il shapes = true.

Lemma shape_ok_spec p : shape_ok depth shapes p = true -> bounded p /\ zget shapes p.1 = Some (Some p.2).
Proof.
  destruct p as [t [h b]]. unfold shape_ok, bounded. cbn [fst snd].
  rewrite !andb_true_iff, bool_decide_eq_true. lia || (intros (((? & ?) & ?) & ?); split; [lia | done]).
Qed.

(** Between two instructions. *)
Definition in_shape (m : machine X) : Prop :=
  exists h b, zget shapes (m_pc m) = Some (Some (h, b)) /\ shaped h b m.

Abbreviation list_step := (list_step SYMBOL_IS_KEYWORD constants base il).
Abbreviation list_loop := (list_loop SYMBOL_IS_KEYWORD constants base il).

Lemma check_insn k s : zget shapes k = Some (Some s) -> 0 <= k < zlen il /\
  exists ins succs, zget il k = Some ins /\ insn_shape constants room ins k s = Some succs /\
    forall t s', (t, s') ∈ succs -> bounded (t, s') /\ zget shapes t = Some (Some s').
Proof.
  intros Hk. pose proof (zget_Some_bound _ _ _ Hk) as Hb. rewrite zget_lookup in Hk by lia.
  apply andb_prop in Hcheck as [_ Hall]. rewrite forallb_forall in Hall.
  specialize (Hall (Z.to_nat k)). rewrite in_seq in Hall. specialize (Hall ltac:(lia)).
  unfold insn_ok in Hall. rewrite Hk, Z2Nat.id in Hall by lia.
  destruct (il !! Z.to_nat k) as [ins |] eqn:Hins; [| done].
  pose proof (lookup_lt_Some _ _ _ Hins). rewrite <- zget_lookup in Hins by lia.
  destruct (insn_shape _ _ _ _ _) as [succs |] eqn:Hs; [| done]. split; [lia |].
  exists ins, succs. split_and!; try done. rewrite forallb_forall in Hall.
  intros t s' Hin. by apply (shape_ok_spec (t, s')), Hall, list_elem_of_In.
Qed.

(** A step from a machine between two instructions. *)
Lemma list_step_follows m : in_shape m ->
  match list_step m with
  | Next m' => in_shape m'
  | Returned _ w => base <= specpdl_depth w /\ space <= l_specpdl_size w
  | Left _ _ => True
  | Stuck _ => False
  end.
Proof.
  intros (h & b & Hz & Hm). destruct (check_insn _ _ Hz) as (_ & ins & succs & Hins & Hs & Hsuccs).
  unfold ExecInsns.list_step. rewrite Hins.
  assert (Forall bounded succs) as Hb by (apply Forall_forall; intros [t s'] Hin; by apply Hsuccs).
  pose proof (exec_insn_follows _ _ _ _ _ _ Hm Hs Hb) as Hf.
  destruct (exec_insn _ _ _ _ _ _); try done. destruct Hf as (h' & b' & Hin & Hm').
  exists h', b'. split; [by apply Hsuccs | done].
Qed.

(** A value is returned with no fewer bindings than on entry; the only trouble is
    that the fuel was not enough. *)
Definition ended (r : run_result Lisp_Object * lisp X) : Prop :=
  match r with
  | (Value _, w) => base <= specpdl_depth w /\ space <= l_specpdl_size w
  | (Thrown _, _) => True
  | (Trouble why, _) => why = no_fuel
  end.

Lemma list_loop_ended fuel m : in_shape m -> ended (list_loop fuel m).
Proof.
  revert m. induction fuel as [| fuel IH]; intros m Hm; [done |]. cbn [ExecInsns.list_loop].
  pose proof (list_step_follows _ Hm) as Hf. destruct (list_step m); try done. by apply IH.
Qed.

(** No jump leads backwards. *)
Definition jumps_forward : Prop := forall k kind to, zget il k = Some (IJump kind to) -> k < to.

Lemma list_loop_forward fuel m :
  jumps_forward -> in_shape m -> zlen il - m_pc m <= Z.of_nat fuel ->
  (forall why, (list_loop fuel m).1 <> Trouble why).
Proof.
  intros Hj. revert m. induction fuel as [| fuel IH]; intros m Hm Hf.
  - destruct Hm as (h & b & Hz & _). apply check_insn in Hz as [? _]. lia.
  - cbn [ExecInsns.list_loop]. pose proof (list_step_follows _ Hm) as Hs.
    destruct (list_step m) as [m' | | |] eqn:E; try done. apply IH; [done |].
    apply list_step_pc in E as [-> | [kind Hk%Hj]]; lia.
Qed.
End Step.

(** ** Calls of checked functions *)

(** What follows [&rest] is a variable. *)
Fixpoint rest_ok (arglist : list Lisp_Object) : bool :=
  match arglist with
  | [] => true
  | symbol :: tail =>
      if EQ symbol Qand_rest then match tail with [] => false | _ => true end else rest_ok tail
  end.

Section Calls.
Context {X : Type} `{Subrs X, !SubrsOk X}.
Variable SYMBOL_IS_KEYWORD : Lisp_Object -> bool.
Variable constants : list Lisp_Object.

(** A run that makes at most [n] bindings. *)
Definition binds_upto {A} (n : Z) (w : lisp X) (r : run_result A * lisp X) : Prop :=
  match r with
  | (Value _, w') => specpdl_depth w <= specpdl_depth w' <= specpdl_depth w + n /\
      l_specpdl_size w <= l_specpdl_size w'
  | (Thrown _, _) => True
  | (Trouble _, _) => False
  end.

Lemma binds_upto_fast {A} n symbol v (k : E X A) w :
  1 <= n -> 0 < l_specpdl_size w -> specpdl_depth w + n <= l_specpdl_size w ->
  (forall w', 0 < l_specpdl_size w' -> specpdl_depth w' + (n - 1) <= l_specpdl_size w' ->
     binds_upto (n - 1) w' (k w')) ->
  binds_upto n w ((SPECBIND_FAST_UNSAFE symbol v ;;> k) w).
Proof.
  intros Hn Hw Hr Hk. pose proof (height_at_fast symbol v w Hw ltac:(lia)) as Hf. unfold e_bind.
  destruct (SPECBIND_FAST_UNSAFE symbol v w) as [[u | what | why] w']; try done.
  specialize (Hk w' ltac:(lia) ltac:(lia)). unfold binds_upto in *.
  destruct (k w') as [[b | what | why] w'']; try done. lia.
Qed.

Lemma bind_args_ended arglist args optional (w : lisp X) :
  rest_ok arglist = true -> 0 < l_specpdl_size w ->
  specpdl_depth w + zlen arglist <= l_specpdl_size w ->
  binds_upto (zlen arglist) w (bind_args arglist args optional w).
Proof.
  revert args optional w. induction arglist as [| symbol tail IH]; intros args optional w Hrest Hw Hr.
  { simpl in *. lia. }
  cbn [bind_args rest_ok] in *. assert (zlen (symbol :: tail) = zlen tail + 1) as Hlen by (simpl; lia).
  destruct (EQ symbol Qand_rest).
  { destruct tail as [| s tail']; [done |]. pose proof (op_ok_list _ args eq_refl w Hw) as Hl.
    unfold e_bind at 1. destruct (list_of args w) as [[rest | what | why] w']; try done.
    destruct Hl as (Hd & Hs & _). pose proof (binds_upto_fast (zlen (symbol :: s :: tail')) s rest (e_ret true) w') as Hb.
    unfold binds_upto in *. destruct ((_ ;;> e_ret true) w') as [[b | what | why] w''];
      (ospecialize * Hb; [simpl in *; lia | lia | lia | simpl in *; lia | ]); done || lia. }
  destruct (EQ symbol Qand_optional).
  { specialize (IH args true w Hrest Hw ltac:(lia)). unfold binds_upto in *.
    destruct (bind_args tail args true w) as [[b | what | why] w']; try done. lia. }
  destruct args as [| a args]; [destruct optional |].
  2: { unfold binds_upto. simpl. lia. }
  all: apply binds_upto_fast; [simpl; lia | done | done |]; intros w' Hw' Hr'.
  all: replace (zlen (symbol :: tail) - 1) with (zlen tail) in * by lia; by apply IH.
Qed.

Lemma execute_checked depth room il shapes fuel (w : lisp X) :
  check_shapes constants room depth il shapes = true ->
  0 < l_specpdl_size w -> specpdl_depth w + room <= l_specpdl_size w ->
  match execute_instructions SYMBOL_IS_KEYWORD fuel il depth constants w with
  | (Value _, w') => specpdl_depth w <= specpdl_depth w' /\ l_specpdl_size w <= l_specpdl_size w'
  | (Thrown _, _) => True
  | (Trouble why, _) => why = no_fuel /\ (jumps_forward il -> Z.of_nat fuel < zlen il)
  end.
Proof.
  intros Hcheck Hw Hr. unfold execute_instructions.
  match goal with |- context [list_loop _ _ _ _ _ ?m0] => set (m := m0) end.
  pose proof Hcheck as [[Hh Hz]%shape_ok_spec _]%andb_prop. cbn [fst snd] in Hh, Hz.
  assert (0 <= specpdl_depth w) as Hbase by (unfold specpdl_depth; lia).
  assert (in_shape depth (specpdl_depth w) (l_specpdl_size w) shapes m) as Hm.
  { exists 0, 0. split; [done |]. destruct Hh. cbn [fst snd] in *.
    split; unfold m; cbn [m_sp m_stack m_lisp]; rewrite ?length_replicate; lia. }
  pose proof (list_loop_ended SYMBOL_IS_KEYWORD constants depth room _ _ Hr Hbase _ _ Hcheck fuel m Hm) as He.
  pose proof (list_loop_forward SYMBOL_IS_KEYWORD constants depth room _ _ Hr Hbase _ _ Hcheck fuel m) as Hf.
  unfold ended in He. destruct (list_loop _ _ _ _ fuel m) as [[v | what | why] w']; try done.
  split; [done |]. intros Hj. destruct (Z.lt_ge_cases (Z.of_nat fuel) (zlen il)); [done |].
  destruct (Hf Hj Hm ltac:(simpl; lia) why). done.
Qed.

(** A call of a function with checked instructions, for which there is room. *)
Lemma funcall_checked depth room il shapes fuel fun_ arglist args (w : lisp X) :
  check_shapes constants room depth il shapes = true -> rest_ok arglist = true ->
  0 <= room -> 0 < l_specpdl_size w ->
  match funcall_instructions SYMBOL_IS_KEYWORD fuel fun_ il (zlen arglist + room) arglist constants depth args w with
  | (Value _, w') => specpdl_depth w' = specpdl_depth w /\ l_specpdl_size w <= l_specpdl_size w'
  | (Thrown _, _) => True
  | (Trouble why, _) => why = no_fuel /\ (jumps_forward il -> Z.of_nat fuel < zlen il)
  end.
Proof.
  intros Hcheck Hrest Hroom Hw. unfold funcall_instructions. unfold e_bind at 1, e_get at 1.
  pose proof (reserve_room (zlen arglist + room) w Hw) as Hr. unfold e_bind at 1. unfold room_after in Hr.
  destruct (SPECPDL_RESERVE _ w) as [[[] | what | why] w1]; try done. destruct Hr as (Hd1 & Hs1 & Hr1).
  pose proof (bind_args_ended arglist args false w1 Hrest ltac:(lia) ltac:(lia)) as Hb. unfold e_bind at 1.
  unfold binds_upto in Hb. destruct (bind_args arglist args false w1) as [[ok | what | why] w2]; try done.
  destruct ok.
  - pose proof (execute_checked depth room il shapes fuel w2 Hcheck ltac:(lia) ltac:(lia)) as He.
    unfold e_bind at 1. destruct (execute_instructions _ _ _ _ _ w2) as [[v | what | why] w3]; try done.
    pose proof (UNBIND_TO_ends (specpdl_depth w) w3 ltac:(lia) ltac:(unfold specpdl_depth in *; lia)) as Hu.
    unfold e_bind. unfold unbound in Hu. destruct (UNBIND_TO _ w3) as [[u | what | why] w4]; try done.
    simpl. lia.
  - pose proof (op_ok_list 2 [fun_; make_int (zlen args)] eq_refl w2 ltac:(lia)) as Hl. unfold e_bind.
    destruct (list_of _ w2) as [[data | what | why] w3]; try done. unfold call.
    destruct (subr "Fsignal" _ w3) as [[v | v] w4] eqn:E; [| done]. apply error_throws in E; [done | set_solver].
Qed.
End Calls.

Lemma bindings_nonneg L : 0 <= bindings L.
Proof.
  induction L as [| [[i ins] i'] L IH]; [done |]. unfold bindings in *. simpl.
  assert (0 <= binds ins) by (unfold binds; destruct ins; repeat case_match; lia). lia.
Qed.

Lemma funcall_compiled_checked {X} `{Subrs X, !SubrsOk X} SYMBOL_IS_KEYWORD src constants L shapes stack_depth arglist :
  Forall is_byte src -> read_byte_code SYMBOL_IS_KEYWORD src constants = Some L -> program_size src <= 2 ^ 15 ->
  check_shapes constants (bindings L) stack_depth (insns_of SYMBOL_IS_KEYWORD constants L) shapes = true ->
  rest_ok arglist = true -> zlen arglist + bindings L < 2 ^ 16 ->
  forall fuel fun_ depth args (w : lisp X), 0 < l_specpdl_size w ->
    match funcall_compiled_function SYMBOL_IS_KEYWORD fuel fun_
            (mk_compiled (Bytes src) constants arglist stack_depth depth) args w with
    | (Value _, w') => specpdl_depth w' = specpdl_depth w /\ l_specpdl_size w <= l_specpdl_size w'
    | (Thrown _, _) => True
    | (Trouble why, _) => why = no_fuel /\
        (jumps_forward (insns_of SYMBOL_IS_KEYWORD constants L) -> Z.of_nat fuel < zlen L)
    end.
Proof.
  intros Hbytes Hread Hsize Hcheck Hrest Hcount fuel fun_ depth args w Hw. pose proof (bindings_nonneg L).
  rewrite (funcall_holds SYMBOL_IS_KEYWORD src constants L) by done. rewrite Z.mod_small by lia.
  pose proof (funcall_checked SYMBOL_IS_KEYWORD constants stack_depth (bindings L) _ shapes fuel fun_ arglist args w
                Hcheck Hrest ltac:(lia) Hw) as Hf.
  assert (zlen (insns_of SYMBOL_IS_KEYWORD constants L) = zlen L) as Hl by (unfold insns_of; by rewrite length_fmap).
  by rewrite Hl in Hf.
Qed.

(** C21: A compiled function whose instructions pass the check of the stacks does
    not go wrong.  However long a call of it runs, with whatever arguments, it
    never reads or writes outside the stack of values, the constants or the stack
    of bindings, and meets no opcode that aborts: it returns or throws, or has not
    ended when the fuel is used up.  When it returns, its bindings are undone, so
    that it keeps the promise that was asked of the functions it calls. *)
Theorem checked_functions_do_not_go_wrong {X} `{Subrs X, !SubrsOk X} SYMBOL_IS_KEYWORD src constants L
    shapes stack_depth arglist
    (Hbytes : Forall is_byte src)
    (Hread : read_byte_code SYMBOL_IS_KEYWORD src constants = Some L)
    (Hsize : program_size src <= 2 ^ 15)
    (Hcheck : check_shapes constants (bindings L) stack_depth (insns_of SYMBOL_IS_KEYWORD constants L) shapes = true)
    (Hrest : rest_ok arglist = true)
    (Hcount : zlen arglist + bindings L < 2 ^ 16) :
  forall fuel fun_ depth args (w : lisp X), 0 < l_specpdl_size w ->
    match funcall_compiled_function SYMBOL_IS_KEYWORD fuel fun_
            (mk_compiled (Bytes src) constants arglist stack_depth depth) args w with
    | (Value _, w') => specpdl_depth w' = specpdl_depth w /\ l_specpdl_size w <= l_specpdl_size w'
    | (Thrown _, _) => True
    | (Trouble why, _) => why = no_fuel
    end.
Proof.
  intros fuel fun_ depth args w Hw.
  pose proof (funcall_compiled_checked SYMBOL_IS_KEYWORD src constants L shapes stack_depth arglist Hbytes Hread Hsize
                Hcheck Hrest Hcount fuel fun_ depth args w Hw) as Hf.
  destruct (funcall_compiled_function _ _ _ _ _ _) as [[v | what | why] w']; try done. by destruct Hf.
Qed.

(** C22: When moreover no jump of the instructions leads backwards, a call comes to
    an end: with fuel for each instruction once, it returns a value or throws. *)
Theorem forward_functions_return {X} `{Subrs X, !SubrsOk X} SYMBOL_IS_KEYWORD src constants L
    shapes stack_depth arglist
    (Hbytes : Forall is_byte src)
    (Hread : read_byte_code SYMBOL_IS_KEYWORD src constants = Some L)
    (Hsize : program_size src <= 2 ^ 15)
    (Hcheck : check_shapes constants (bindings L) stack_depth (insns_of SYMBOL_IS_KEYWORD constants L) shapes = true)
    (Hrest : rest_ok arglist = true)
    (Hcount : zlen arglist + bindings L < 2 ^ 16)
    (Hforward : jumps_forward (insns_of SYMBOL_IS_KEYWORD constants L)) :
  forall fuel fun_ depth args (w : lisp X), 0 < l_specpdl_size w -> zlen L <= Z.of_nat fuel ->
    exists v w',
      funcall_compiled_function SYMBOL_IS_KEYWORD fuel fun_
        (mk_compiled (Bytes src) constants arglist stack_depth depth) args w = (Value v, w') \/
      funcall_compiled_function SYMBOL_IS_KEYWORD fuel fun_
        (mk_compiled (Bytes src) constants arglist stack_depth depth) args w = (Thrown v, w').
Proof.
  intros fuel fun_ depth args w Hw Hfuel.
  pose proof (funcall_compiled_checked SYMBOL_IS_KEYWORD src constants L shapes stack_depth arglist Hbytes Hread Hsize
                Hcheck Hrest Hcount fuel fun_ depth args w Hw) as Hf.
  destruct (funcall_compiled_function _ _ _ _ _ _) as [[v | what | why] w']; [eauto | eauto |].
  destruct Hf as [_ Hlt]. specialize (Hlt Hforward). lia.
Qed.

(** ** A checked function *)

(** An evaluator in which errors are thrown and every other function returns nil. *)
#[export] Instance error_subrs : Subrs bool := {
  subr name _ w :=
    if bool_decide (name ∈ ["continuable_error"; "Fsignal"; "dead_wrong_type_argument"; "wrong_type_argument"])
    then (inr Qarith_error, w) else (inl Qnil, w);
  subr_int _ _ w := (inl 0, w);
}.

#[export] Instance error_subrs_ok : SubrsOk bool.
Proof.
  split.
  - intros name args w v w'. simpl. destruct (bool_decide _); [done |]. intros [= _ <-]. lia.
  - intros name args w v w'. intros [= _ <-]. lia.
  - intros name args w v w' Hn. simpl. rewrite bool_decide_eq_true_2 by set_solver. done.
  - intros x w v w'. done.
Qed.

Definition error_lisp : lisp bool := mk_lisp ∅ ∅ {[10%positive := LInt 7]} [] 50 3000 false Qnil true.

(** [(lambda (x &optional y) (let ((z 0)) (save-excursion (while (> x z) (setq x (1- x))))) x)] *)
Definition loop_arglist : list Lisp_Object := [LRec lrecord_symbol 12; Qand_optional; LRec lrecord_symbol 13].
Definition loop_constants : list Lisp_Object := [LRec lrecord_symbol 10; LInt 0; LRec lrecord_symbol 12].
Definition loop_code : list Z := [193; 24; 138; 10; 8; 86; 131; 15; 0; 10; 83; 18; 130; 3; 0; 42; 10; 135].
Definition loop_shapes : list (option shape) :=
  Some <$> [(0, 0); (1, 0); (0, 1); (0, 2); (1, 2); (2, 2); (1, 2); (0, 2); (1, 2); (1, 2); (0, 2); (0, 2);
            (0, 0); (1, 0)].

(** With 3 for [x], 40 steps are enough and 10 are not. *)
Example loop_runs :
  (funcall_compiled_function sample_keyword 40 Qnil
     (mk_compiled (Bytes loop_code) loop_constants loop_arglist 2 0) [LInt 3] error_lisp).1 = Value (LInt 0) /\
  (funcall_compiled_function sample_keyword 10 Qnil
     (mk_compiled (Bytes loop_code) loop_constants loop_arglist 2 0) [LInt 3] error_lisp).1 = Trouble no_fuel.
Proof. split; vm_compute; reflexivity. Qed.

Lemma checked_functions_do_not_go_wrong_witness :
  exists L, read_byte_code sample_keyword loop_code loop_constants = Some L /\
  forall fuel n,
    match funcall_compiled_function sample_keyword fuel Qnil
            (mk_compiled (Bytes loop_code) loop_constants loop_arglist 2 0) [LInt n] error_lisp with
    | (Value _, w') => specpdl_depth w' = 0 /\ 50 <= l_specpdl_size w'
    | (Thrown _, _) => True
    | (Trouble why, _) => why = no_fuel
    end.
Proof.
  destruct (read_byte_code sample_keyword loop_code loop_constants) as [L |] eqn:E; [| by vm_compute in E].
  exists L. split; [done |]. intros fuel n.
  apply (checked_functions_do_not_go_wrong sample_keyword loop_code loop_constants L loop_shapes 2 loop_arglist).
  - apply (bool_decide_unpack (Forall (fun b => 0 <= b < 256) loop_code)). vm_compute. exact I.
  - exact E.
  - by vm_compute.
  - vm_compute in E. injection E as <-. vm_compute. reflexivity.
  - by vm_compute.
  - vm_compute in E. injection E as <-. vm_compute. reflexivity.
  - by vm_compute.
Defined.

(** [(lambda (x) (if x (save-excursion nil)) x)], a body without loops. *)
Definition forward_code : list Z := [10; 131; 6; 0; 138; 41; 10; 135].
Definition forward_arglist : list Lisp_Object := [LRec lrecord_symbol 12].
Definition forward_shapes : list (option shape) :=
  Some <$> [(0, 0); (1, 0); (0, 0); (0, 1); (0, 0); (1, 0)].

Lemma forward_functions_return_witness :
  exists v w',
    funcall_compiled_function sample_keyword 6 Qnil
      (mk_compiled (Bytes forward_code) loop_constants forward_arglist 1 0) [LInt 3] error_lisp = (Value v, w') \/
    funcall_compiled_function sample_keyword 6 Qnil
      (mk_compiled (Bytes forward_code) loop_constants forward_arglist 1 0) [LInt 3] error_lisp = (Thrown v, w').
Proof.
  destruct (read_byte_code sample_keyword forward_code loop_constants) as [L |] eqn:E; [| by vm_compute in E].
  apply (forward_functions_return sample_keyword forward_code loop_constants L forward_shapes 1 forward_arglist).
  - apply (bool_decide_unpack (Forall (fun b => 0 <= b < 256) forward_code)). vm_compute. exact I.
  - exact E.
  - by vm_compute.
  - vm_compute in E. injection E as <-. vm_compute. reflexivity.
  - by vm_compute.
  - vm_compute in E. injection E as <-. vm_compute. reflexivity.
  - vm_compute in E. injection E as <-. intros k kind to Hk. pose proof (zget_Some_bound _ _ _ Hk) as Hb.
    simpl in Hb.
    assert (k = 0 \/ k = 1 \/ k = 2 \/ k = 3 \/ k = 4 \/ k = 5) as [-> | [-> | [-> | [-> | [-> | ->]]]]] by lia;
      vm_compute in Hk; try discriminate Hk. injection Hk as _ <-. done.
  - by vm_compute.
  - vm_compute in E. injection E as <-. vm_compute. intros. discriminate.
Defined.

(** ** What the check is for

    [(save-excursion (save-restriction (let ((z 0) (x 0)) ...)))]: entries are set
    aside for the two variables only, and the other two bindings use them up when
    there are just enough: the last variable is bound past the end. *)
Definition nested_code : list Z := [138; 140; 193; 24; 193; 26; 44; 193; 135].

Example fast_bindings_overflow :
  let w := set_sizes error_lisp 3 3000 in
  (funcall_compiled_function sample_keyword 20 Qnil
     (mk_compiled (Bytes nested_code) loop_constants [] 2 0) [] w).1 = Trouble bad_write /\
  check_shapes loop_constants 2 2
    (insns_of sample_keyword loop_constants (default [] (read_byte_code sample_keyword nested_code loop_constants)))
    (Some <$> [(0, 0); (0, 1); (0, 2); (1, 2); (0, 3); (1, 3); (0, 4); (0, 0); (1, 0)]) = false.
Proof. split; vm_compute; reflexivity. Qed.

(** In [quiet_subrs] errors return, as they do when the user continues after them in
    the debugger.  Then [(/ 1 0)] divides by zero, and a call with too few arguments
    leaves the bindings of those there were. *)
Example continued_errors :
  (funcall_compiled_function sample_keyword 9 Qnil
     (mk_compiled (Bytes [192; 193; 165; 135]) [LInt 1; LInt 0] [] 2 0) [] quiet_lisp).1 = Trouble aborted /\
  let '(r, w) := funcall_compiled_function sample_keyword 9 Qnil
     (mk_compiled (Bytes [192; 135]) [LInt 1] [LRec lrecord_symbol 12; LRec lrecord_symbol 13] 2 0) [LInt 5]
     quiet_lisp in
  r = Value Qnil /\ specpdl_depth w = 1 /\ symbol_value (LRec lrecord_symbol 12) w = LInt 5.
Proof. split; vm_compute; [reflexivity |]. split_and!; reflexivity. Qed.
