(* ===== verification/Base64.v ===== *)
(** * base64

    The encoder and the decoder of fns.c (3435-3637) and the commands on strings.
    The input stream is the list of the characters it yields; output goes to a
    block of bytes, written from its beginning. *)

From S2P Require Import Prelude Lisp Buffer Editfns.

(** ** Code that may signal, or read outside a table *)

Definition obind {A B} (m : outcome A) (k : A -> outcome B) : outcome B :=
  match m with Done a => k a | Signal e => Signal e | Fault => Fault end.

Notation "'let*' x := m 'in' k" := (obind m (fun x => k))
  (at level 10, x pattern, k at level 200) : xe_scope.
#[local] Open Scope xe_scope.

(** [table[i]] *)
Definition entry (table : list Z) (i : Z) : outcome Z :=
  match zget table i with Some x => Done x | None => Fault end.

(** ** The tables *)

Definition MIME_LINE_LENGTH : Z := 72.

Definition base64_value_to_char : list Z :=
  [65; 66; 67; 68; 69; 70; 71; 72; 73; 74;
   75; 76; 77; 78; 79; 80; 81; 82; 83; 84;
   85; 86; 87; 88; 89; 90; 97; 98; 99; 100;
   101; 102; 103; 104; 105; 106; 107; 108; 109; 110;
   111; 112; 113; 114; 115; 116; 117; 118; 119; 120;
   121; 122; 48; 49; 50; 51; 52; 53; 54; 55;
   56; 57; 43; 47].

Definition base64_char_to_value : list Z :=
  [-1; -1; -1; -1; -1; -1; -1; -1; -1; -1;
   -1; -1; -1; -1; -1; -1; -1; -1; -1; -1;
   -1; -1; -1; -1; -1; -1; -1; -1; -1; -1;
   -1; -1; -1; -1; -1; -1; -1; -1; -1; -1;
   -1; -1; -1; 62; -1; -1; -1; 63; 52; 53;
   54; 55; 56; 57; 58; 59; 60; 61; -1; -1;
   -1; -1; -1; -1; -1; 0; 1; 2; 3; 4;
   5; 6; 7; 8; 9; 10; 11; 12; 13; 14;
   15; 16; 17; 18; 19; 20; 21; 22; 23; 24;
   25; -1; -1; -1; -1; -1; -1; 26; 27; 28;
   29; 30; 31; 32; 33; 34; 35; 36; 37; 38;
   39; 40; 41; 42; 43; 44; 45; 46; 47; 48;
   49; 50; 51; -1; -1; -1; -1; -1].

Definition IS_ASCII (c : Z) : bool := c <? 128.

Definition IS_BASE64 (c : Z) : bool :=
  IS_ASCII c && match zget base64_char_to_value c with Some v => v >=? 0 | None => false end.

(** The characters the code names. *)
Definition newline_char : Z := 10.
Definition equals_char : Z := 61.

(** ** Encoding *)

(** [ADVANCE_INPUT] of the encoder: the next character, a byte, and the rest. *)
Definition ADVANCE_INPUT (stream : list Z) : outcome (option (Z * list Z)) :=
  match stream with
  | [] => Done None
  | ec :: stream =>
      if ec >? 255 then Signal (Qsimple_error "Non-ascii character in base64 input" (LChar ec))
      else Done (Some (Z.land ec 255, stream))
  end.

(** [*e++ = base64_value_to_char[value]] *)
Definition put_digit (e : list Z) (value : Z) : outcome (list Z) :=
  let* c := entry base64_value_to_char value in Done (e ++ [c]).

(** The loop; every turn reads a character. *)
Fixpoint base64_encode_loop (fuel : nat) (stream : list Z) (line_break : bool) (counter : Z)
    (e : list Z) : outcome (list Z) :=
  match fuel with
  | O => Fault
  | S fuel =>
      let* next := ADVANCE_INPUT stream in
      match next with
      | None => Done e
      | Some (c, stream) =>
          let '(counter, e) :=
            (if line_break then
               if counter <? MIME_LINE_LENGTH / 4 then (counter + 1, e)
               else (1, e ++ [newline_char])
             else (counter, e)) in
          (* Process first byte of a triplet. *)
          let* e := put_digit e (Z.land 0x3f (Z.shiftr c 2)) in
          let value := Z.shiftl (Z.land 0x03 c) 4 in
          (* Process second byte of a triplet. *)
          let* next := ADVANCE_INPUT stream in
          match next with
          | None =>
              let* e := put_digit e value in Done (e ++ [equals_char; equals_char])
          | Some (c, stream) =>
              let* e := put_digit e (Z.lor value (Z.land 0x0f (Z.shiftr c 4))) in
              let value := Z.shiftl (Z.land 0x0f c) 2 in
              (* Process third byte of a triplet. *)
              let* next := ADVANCE_INPUT stream in
              match next with
              | None => let* e := put_digit e value in Done (e ++ [equals_char])
              | Some (c, stream) =>
                  let* e := put_digit e (Z.lor value (Z.land 0x03 (Z.shiftr c 6))) in
                  let* e := put_digit e (Z.land 0x3f c) in
                  base64_encode_loop fuel stream line_break counter e
              end
          end
      end
  end.

Definition base64_encode_1 (istream : list Z) (line_break : bool) : outcome (list Z) :=
  base64_encode_loop (S (length istream)) istream line_break 0 [].

(** ** Decoding *)

(** The next character that counts, -1 at the end; the rest; the position. *)
Fixpoint ADVANCE_INPUT_IGNORE_NONBASE64 (stream : list Z) (streampos : Z) : Z * list Z * Z :=
  match stream with
  | [] => (-1, [], streampos + 1)
  | ec :: stream =>
      let streampos := streampos + 1 in
      if (ec <? 0) || IS_BASE64 ec || (ec =? equals_char) then (ec, stream, streampos)
      else ADVANCE_INPUT_IGNORE_NONBASE64 stream streampos
  end.

Definition STORE_BYTE (pos : list Z) (val ccnt : Z) : list Z * Z :=
  (pos ++ [Z.land val 255], ccnt + 1).

Definition illegal_equals {A} (streampos : Z) : outcome A :=
  Signal (Qsimple_error "Illegal `=' character while decoding base64" (LInt streampos)).
Definition premature_eof {A} : outcome A := Signal (Qerror "Premature EOF while decoding base64").
Definition padding_expected {A} (streampos : Z) : outcome A :=
  Signal (Qsimple_error "Padding `=' expected but not found while decoding base64" (LInt streampos)).

(** The loop; every turn but the last reads characters. *)
Fixpoint base64_decode_loop (fuel : nat) (stream : list Z) (streampos : Z) (e : list Z) (ccnt : Z)
    : outcome (list Z * Z) :=
  match fuel with
  | O => Fault
  | S fuel =>
      (* Process first byte of a quadruplet. *)
      let '(ec, stream, streampos) := ADVANCE_INPUT_IGNORE_NONBASE64 stream streampos in
      if ec <? 0 then Done (e, ccnt)
      else if ec =? equals_char then illegal_equals streampos
      else
      let* d := entry base64_char_to_value ec in
      let value := Z.shiftl d 18 in
      (* Process second byte of a quadruplet. *)
      let '(ec, stream, streampos) := ADVANCE_INPUT_IGNORE_NONBASE64 stream streampos in
      if ec <? 0 then premature_eof
      else if ec =? equals_char then illegal_equals streampos
      else
      let* d := entry base64_char_to_value ec in
      let value := Z.lor value (Z.shiftl d 12) in
      let '(e, ccnt) := STORE_BYTE e (Z.shiftr value 16) ccnt in
      (* Process third byte of a quadruplet. *)
      let '(ec, stream, streampos) := ADVANCE_INPUT_IGNORE_NONBASE64 stream streampos in
      if ec <? 0 then premature_eof
      else if ec =? equals_char then
        let '(ec, stream, streampos) := ADVANCE_INPUT_IGNORE_NONBASE64 stream streampos in
        if ec <? 0 then premature_eof
        else if negb (ec =? equals_char) then padding_expected streampos
        else base64_decode_loop fuel stream streampos e ccnt
      else
      let* d := entry base64_char_to_value ec in
      let value := Z.lor value (Z.shiftl d 6) in
      let '(e, ccnt) := STORE_BYTE e (Z.land 0xff (Z.shiftr value 8)) ccnt in
      (* Process fourth byte of a quadruplet. *)
      let '(ec, stream, streampos) := ADVANCE_INPUT_IGNORE_NONBASE64 stream streampos in
      if ec <? 0 then premature_eof
      else if ec =? equals_char then base64_decode_loop fuel stream streampos e ccnt
      else
      let* d := entry base64_char_to_value ec in
      let value := Z.lor value d in
      let '(e, ccnt) := STORE_BYTE e (Z.land 0xff value) ccnt in
      base64_decode_loop fuel stream streampos e ccnt
  end.

Definition base64_decode_1 (istream : list Z) : outcome (list Z * Z) :=
  base64_decode_loop (S (length istream)) istream 0 [] 0.

(** ** The commands on strings *)

(** The room allocated for the encoding of [length] characters. *)
Definition encoded_room (length : Z) : Z :=
  let allength := length + length / 3 + 1 in
  allength + (allength / MIME_LINE_LENGTH + 1 + 6).

Definition MAX_EMCHAR_LEN : Z := 1.

(** [ABORT] is a [Fault]. *)
Definition encode_within (length : Z) (input : list Z) (no_line_break : Lisp_Object)
    : outcome (list Z) :=
  let* encoded := base64_encode_1 input (NILP no_line_break) in
  if zlen encoded >? encoded_room length then Fault else Done encoded.

Definition decode_within (length : Z) (input : list Z) : outcome (list Z * Z) :=
  let* (decoded, cc_decoded_length) := base64_decode_1 input in
  if zlen decoded >? length * MAX_EMCHAR_LEN then Fault else Done (decoded, cc_decoded_length).

Section Strings.
(** The characters of the string at an address. *)
Variable string_data : positive -> list Z.

Definition CHECK_STRING (x : Lisp_Object) : outcome positive :=
  match x with
  | LRec lrecord_string s => Done s
  | _ => Signal (Qwrong_type_argument "stringp" x)
  end.

Definition Fbase64_encode_string (string no_line_break : Lisp_Object) : outcome (list Z) :=
  let* s := CHECK_STRING string in
  encode_within (zlen (string_data s)) (string_data s) no_line_break.

Definition Fbase64_decode_string (string : Lisp_Object) : outcome (list Z) :=
  let* s := CHECK_STRING string in
  let* (decoded, _) := decode_within (zlen (string_data s)) (string_data s) in
  Done decoded.
End Strings.

(** ** What the encoding is *)

Definition bytes : list Z -> Prop := Forall (fun c => 0 <= c < 256).

(** The character for a value, the value of a character. *)
Definition digit (v : Z) : Z := default 0 (zget base64_value_to_char v).
Definition digit_value (c v : Z) : Prop := IS_BASE64 c = true /\ zget base64_char_to_value c = Some v.

(** The groups of four characters for three bytes, or for the last one or two. *)
Fixpoint groups (l : list Z) : list (list Z) :=
  match l with
  | a :: b :: c :: l =>
      [digit (a / 4); digit (a mod 4 * 16 + b / 16); digit (b mod 16 * 4 + c / 64);
       digit (c mod 64)] :: groups l
  | [a; b] => [[digit (a / 4); digit (a mod 4 * 16 + b / 16); digit (b mod 16 * 4); equals_char]]
  | [a] => [[digit (a / 4); digit (a mod 4 * 16); equals_char; equals_char]]
  | [] => []
  end.

(** The groups on lines of eighteen, [counter] of them on the line so far. *)
Fixpoint lines (counter : Z) (gs : list (list Z)) : list Z :=
  match gs with
  | [] => []
  | g :: gs =>
      if counter <? 18 then g ++ lines (counter + 1) gs
      else newline_char :: g ++ lines 1 gs
  end.

(** What decoding looks at. *)
Definition counts (c : Z) : bool := IS_BASE64 c || (c =? equals_char).
Definition significant (l : list Z) : list Z := List.filter counts l.

(** The texts that decode, and what to: groups of four characters, of which the
    last or the last two may be an equals sign, in any group. *)
Inductive decodes : list Z -> list Z -> Prop :=
| decodes_end : decodes [] []
| decodes_one a b va vb l r :
    digit_value a va -> digit_value b vb -> decodes l r ->
    decodes (a :: b :: equals_char :: equals_char :: l) ((va * 64 + vb) / 16 :: r)
| decodes_two a b c va vb vc n l r :
    digit_value a va -> digit_value b vb -> digit_value c vc ->
    n = (va * 64 + vb) * 64 + vc -> decodes l r ->
    decodes (a :: b :: c :: equals_char :: l) (n / 1024 :: n / 4 mod 256 :: r)
| decodes_three a b c d va vb vc vd n l r :
    digit_value a va -> digit_value b vb -> digit_value c vc -> digit_value d vd ->
    n = ((va * 64 + vb) * 64 + vc) * 64 + vd -> decodes l r ->
    decodes (a :: b :: c :: d :: l) (n / 65536 :: n / 256 mod 256 :: n mod 256 :: r).

(** ** The tables *)

(** A range of integers, for statements checked by evaluation. *)
Lemma evaluated (n : nat) (P : Z -> bool) :
  forallb P (map Z.of_nat (seq 0 n)) = true -> forall v, 0 <= v < Z.of_nat n -> P v = true.
Proof.
  rewrite forallb_forall. intros HP v Hv. apply HP, in_map_iff. exists (Z.to_nat v).
  split; [lia |]. apply in_seq. lia.
Qed.

Lemma digit_ok v : 0 <= v < 64 -> zget base64_value_to_char v = Some (digit v) /\ digit_value (digit v) v.
Proof.
  intros Hv.
  pose proof (evaluated 64 (fun v => IS_BASE64 (digit v) &&
    match zget base64_value_to_char v, zget base64_char_to_value (digit v) with
    | Some c, Some v' => (c =? digit v) && (v' =? v)
    | _, _ => false
    end) eq_refl v Hv) as E.
  cbv beta in E. unfold digit_value. destruct (IS_BASE64 (digit v)); [cbn [andb] in E | done].
  destruct (zget base64_value_to_char v); [| done].
  destruct (zget base64_char_to_value (digit v)); [| done].
  apply andb_prop in E as [->%Z.eqb_eq ->%Z.eqb_eq]. done.
Qed.

Lemma digit_value_range c v : digit_value c v -> 0 <= v < 64 /\ 0 <= c /\ c <> equals_char /\ c <> newline_char.
Proof.
  intros [Hc Hv]. pose proof (zget_Some_bound _ _ _ Hv) as Hb. change (zlen base64_char_to_value) with 128 in Hb.
  pose proof (evaluated 128 (fun c => negb (IS_BASE64 c) || match zget base64_char_to_value c with
    | Some v => (0 <=? v) && (v <? 64) && negb (c =? equals_char) && negb (c =? newline_char)
    | None => false end) eq_refl c Hb) as E.
  cbv beta in E. rewrite Hc, Hv in E. cbn [negb orb] in E. zcase.
Qed.

Lemma digit_value_some c : IS_BASE64 c = true -> exists v, digit_value c v.
Proof.
  intros Hc. unfold IS_BASE64 in *. destruct (zget base64_char_to_value c) as [v |] eqn:E.
  - exists v. by split; [unfold IS_BASE64; rewrite E |].
  - by rewrite andb_false_r in Hc.
Qed.

Lemma put_digit_run e v : 0 <= v < 64 -> put_digit e v = Done (e ++ [digit v]).
Proof. intros Hv. unfold put_digit, entry. by rewrite (proj1 (digit_ok v Hv)). Qed.

Lemma entry_value c v : digit_value c v -> entry base64_char_to_value c = Done v.
Proof. intros [_ E]. unfold entry. by rewrite E. Qed.

(** ** Bits as digits *)

(** Values that share no bits: [x] ends in [k] zeros, and [y] has no more than [k] bits. *)
Lemma lor_add k x y : 0 <= k -> x mod 2 ^ k = 0 -> 0 <= y < 2 ^ k -> Z.lor x y = x + y.
Proof.
  intros Hk Hx Hy. apply Z.bits_inj'. intros n Hn.
  assert (x = Z.shiftl (x / 2 ^ k) k) as Ex.
  { rewrite Z.shiftl_mul_pow2 by done. pose proof (Z.div_mod x (2 ^ k)). lia. }
  assert (Z.land x y = 0) as Hl.
  { apply Z.bits_inj'. intros m Hm. rewrite Z.land_spec, Z.bits_0, Ex, Z.shiftl_spec by lia.
    destruct (Z.ltb_spec m k).
    - by rewrite Z.testbit_neg_r by lia.
    - assert (y = y mod 2 ^ k) as -> by (symmetry; by apply Z.mod_small).
      rewrite (Z.mod_pow2_bits_high y k m) by lia. apply andb_false_r. }
  rewrite Z.add_nocarry_lxor by done.
  rewrite Z.lor_spec, Z.lxor_spec. apply (f_equal (fun z => Z.testbit z n)) in Hl.
  rewrite Z.land_spec, Z.bits_0 in Hl. by destruct (Z.testbit x n), (Z.testbit y n).
Qed.

Lemma low_bits k x : 0 <= k -> Z.land (Z.ones k) x = x mod 2 ^ k.
Proof. intros. rewrite Z.land_comm. by apply Z.land_ones. Qed.

(** The masks and shifts the code uses, as division and remainder. *)
Ltac bits_to_digits :=
  change 0x3f with (Z.ones 6); change 0x03 with (Z.ones 2); change 0x0f with (Z.ones 4);
  change 255 with (Z.ones 8); change 0xff with (Z.ones 8);
  rewrite ?Z.land_ones, ?low_bits, ?Z.shiftr_div_pow2, ?Z.shiftl_mul_pow2 by lia;
  change (2 ^ 2) with 4; change (2 ^ 4) with 16; change (2 ^ 6) with 64; change (2 ^ 8) with 256.

(** Arithmetic with quotients and remainders by constants. *)
Ltac divs := Z.to_euclidean_division_equations; lia.

Lemma byte_land c : 0 <= c < 256 -> Z.land c 255 = c.
Proof. intros. bits_to_digits. by apply Z.mod_small. Qed.

Lemma index_1 c : 0 <= c < 256 -> Z.land 0x3f (Z.shiftr c 2) = c / 4 /\ 0 <= c / 4 < 64.
Proof. intros. bits_to_digits. divs. Qed.

Lemma index_2_last c : Z.shiftl (Z.land 0x03 c) 4 = c mod 4 * 16 /\ 0 <= c mod 4 * 16 < 64.
Proof. bits_to_digits. divs. Qed.

Lemma index_2 c d :
  0 <= d < 256 ->
  Z.lor (Z.shiftl (Z.land 0x03 c) 4) (Z.land 0x0f (Z.shiftr d 4)) = c mod 4 * 16 + d / 16 /\
  0 <= c mod 4 * 16 + d / 16 < 64.
Proof.
  intros. bits_to_digits. rewrite (lor_add 4) by (change (2 ^ 4) with 16; divs). divs.
Qed.

Lemma index_3_last c : Z.shiftl (Z.land 0x0f c) 2 = c mod 16 * 4 /\ 0 <= c mod 16 * 4 < 64.
Proof. bits_to_digits. divs. Qed.

Lemma index_3 c d :
  0 <= d < 256 ->
  Z.lor (Z.shiftl (Z.land 0x0f c) 2) (Z.land 0x03 (Z.shiftr d 6)) = c mod 16 * 4 + d / 64 /\
  0 <= c mod 16 * 4 + d / 64 < 64.
Proof.
  intros. bits_to_digits. rewrite (lor_add 2) by (change (2 ^ 2) with 4; divs). divs.
Qed.

Lemma index_4 c : Z.land 0x3f c = c mod 64 /\ 0 <= c mod 64 < 64.
Proof. bits_to_digits. divs. Qed.

(** ** Encoding *)

(** The text of the groups. *)
Definition layout (line_break : bool) (counter : Z) (gs : list (list Z)) : list Z :=
  if line_break then lines counter gs else concat gs.

(** A new group, on this line or the next. *)
Lemma layout_cons line_break counter g gs :
  layout line_break counter (g :: gs) =
  (let '(counter, e) :=
     (if line_break then
        if counter <? MIME_LINE_LENGTH / 4 then (counter + 1, [])
        else (1, [newline_char])
      else (counter, [])) in
   e ++ g ++ layout line_break counter gs).
Proof.
  unfold layout. destruct line_break; [| done]. cbn [lines].
  change (MIME_LINE_LENGTH / 4) with 18. by destruct (counter <? 18).
Qed.

Lemma ADVANCE_INPUT_byte c l : 0 <= c < 256 -> ADVANCE_INPUT (c :: l) = Done (Some (c, l)).
Proof. intros Hc. cbn [ADVANCE_INPUT]. zdec. by rewrite byte_land. Qed.

Lemma encode_loop_run fuel l line_break counter e :
  bytes l -> (length l < fuel)%nat ->
  base64_encode_loop fuel l line_break counter e = Done (e ++ layout line_break counter (groups l)).
Proof.
  revert l counter e. induction fuel as [| fuel IH]; intros l counter e Hl Hf; [lia |].
  destruct l as [| a l]; cbn [base64_encode_loop].
  { cbn. destruct line_break; cbn; by rewrite app_nil_r. }
  apply Forall_cons in Hl as [Ha Hl]. rewrite ADVANCE_INPUT_byte by done. cbn [obind].
  destruct (index_1 a Ha) as [-> Ha1].
  assert (exists counter' pre, (if line_break then
      if counter <? MIME_LINE_LENGTH / 4 then (counter + 1, e) else (1, e ++ [newline_char])
    else (counter, e)) = (counter', e ++ pre) /\
    forall g gs, layout line_break counter (g :: gs) = pre ++ g ++ layout line_break counter' gs)
    as (counter' & pre & -> & Hg).
  { destruct line_break; [destruct (counter <? MIME_LINE_LENGTH / 4) eqn:Ec |].
    1, 3: eexists _, []; split; [by rewrite app_nil_r |].
    3: eexists _, _; split; [done |].
    all: intros g gs; rewrite layout_cons, ?Ec; done. }
  cbv iota. rewrite put_digit_run by done. cbn [obind].
  destruct (index_2_last a) as [E2 H2], (index_3_last a) as [E3 H3].
  destruct l as [| b l]; [| apply Forall_cons in Hl as [Hb Hl]].
  { cbn [ADVANCE_INPUT obind groups]. rewrite E2, put_digit_run by done. cbn [obind]. rewrite Hg.
    destruct line_break; cbn [layout lines concat]; by rewrite !app_nil_r, <- !app_assoc. }
  rewrite ADVANCE_INPUT_byte by done. cbn [obind]. destruct (index_2 a b Hb) as [-> Hi2].
  rewrite put_digit_run by done. cbn [obind]. clear E3 H3. destruct (index_3_last b) as [E3 H3].
  destruct l as [| c l]; [| apply Forall_cons in Hl as [Hc Hl]].
  { cbn [ADVANCE_INPUT obind groups]. rewrite E3, put_digit_run by done. cbn [obind]. rewrite Hg.
    destruct line_break; cbn [layout lines concat]; by rewrite !app_nil_r, <- !app_assoc. }
  rewrite ADVANCE_INPUT_byte by done. cbn [obind]. destruct (index_3 b c Hc) as [-> Hi3].
  rewrite put_digit_run by done. cbn [obind]. destruct (index_4 c) as [-> Hi4].
  rewrite put_digit_run by done. cbn [obind]. rewrite IH by (cbn in Hf; try done; lia).
  cbn [groups]. rewrite Hg. by rewrite <- !app_assoc.
Qed.

Lemma encode_run l line_break :
  bytes l -> base64_encode_1 l line_break = Done (layout line_break 0 (groups l)).
Proof. intros. unfold base64_encode_1. by rewrite encode_loop_run by (try done; lia). Qed.

(** *** Its length *)

(** The groups are of four characters; induction three bytes at a time. *)
Lemma groups_ind (P : list Z -> Prop) :
  P [] -> (forall a, P [a]) -> (forall a b, P [a; b]) ->
  (forall a b c l, P l -> P (a :: b :: c :: l)) -> forall l, P l.
Proof.
  intros H0 H1 H2 H3 l. assert (forall n l, (length l <= n)%nat -> P l) as Hn; [| by eapply Hn].
  induction n as [| n IH]; intros [| a [| b [| c l']]] Hl; try done; cbn in Hl; [lia.. |].
  apply H3, IH. lia.
Qed.

Lemma length_groups l : zlen (groups l) = (zlen l + 2) / 3.
Proof.
  induction l as [| | | a b c l IH] using groups_ind; try done.
  cbn [groups length]. rewrite !Nat2Z.inj_succ, IH. divs.
Qed.

Lemma groups_of_four l : Forall (fun g => length g = 4%nat) (groups l).
Proof. induction l using groups_ind; cbn [groups]; repeat constructor; done. Qed.

(** The lines have eighteen groups but the last. *)
Lemma length_lines counter gs :
  Forall (fun g => length g = 4%nat) gs -> 0 <= counter <= 18 ->
  zlen (lines counter gs) = 4 * zlen gs + Z.max 0 ((counter + zlen gs - 1) / 18).
Proof.
  intros Hgs. revert counter. induction Hgs as [| g gs Hg Hgs IH]; intros counter Hc.
  { cbn. divs. }
  cbn [lines]. zdec; cbn [length]; lens; rewrite ?Nat2Z.inj_succ, ?Nat2Z.inj_add, IH, Hg by lia; divs.
Qed.

Lemma length_concat_groups gs :
  Forall (fun g : list Z => length g = 4%nat) gs -> zlen (concat gs) = 4 * zlen gs.
Proof. induction 1 as [| g gs Hg _ IH]; [done |]. cbn [concat length]. lens. lia. Qed.

(** The room allocated is enough. *)
Lemma encoded_fits line_break l : zlen (layout line_break 0 (groups l)) <= encoded_room (zlen l).
Proof.
  pose proof (length_groups l) as Hn. pose proof (groups_of_four l) as H4.
  unfold layout, encoded_room. change MIME_LINE_LENGTH with 72.
  destruct line_break; [rewrite length_lines by (done || lia) | rewrite length_concat_groups by done];
    rewrite Hn; divs.
Qed.

(** ** Decoding *)

Definition characters : list Z -> Prop := Forall (fun c => 0 <= c).

Lemma bytes_characters l : bytes l -> characters l.
Proof. intros Hl. eapply Forall_impl; [exact Hl |]. cbv beta. lia. Qed.

(** Reading on: to the end, or to a character that counts. *)
Lemma advance_run l pos :
  characters l ->
  (significant l = [] /\ exists pos', ADVANCE_INPUT_IGNORE_NONBASE64 l pos = (-1, [], pos')) \/
  exists c l' pos', significant l = c :: significant l' /\
    ADVANCE_INPUT_IGNORE_NONBASE64 l pos = (c, l', pos') /\
    0 <= c /\ characters l' /\ (length l' < length l)%nat /\
    (c = equals_char \/ c <> equals_char /\ exists v, digit_value c v).
Proof.
  intros Hl. revert pos. induction Hl as [| c l Hc Hl IH]; intros pos; [left; by eauto |].
  unfold significant. cbn [List.filter ADVANCE_INPUT_IGNORE_NONBASE64]. cbv zeta.
  rewrite (proj2 (Z.ltb_ge c 0)) by done. cbn [orb]. fold (counts c). destruct (counts c) eqn:Ec.
  - right. exists c, l, (pos + 1). split_and!; try done; [cbn; lia |].
    unfold counts in Ec. destruct (Z.eqb_spec c equals_char); [by left | right].
    rewrite orb_false_r in Ec. split; [done |]. by apply digit_value_some.
  - destruct (IH (pos + 1)) as [IH' | (c' & l' & pos' & ? & ? & ? & ? & ? & ?)]; [by left | right].
    exists c', l', pos'. split_and!; try done. cbn. lia.
Qed.

Lemma digit_value_fun c v v' : digit_value c v -> digit_value c v' -> v = v'.
Proof. intros [_ H1] [_ H2]. congruence. Qed.

Lemma no_equals v : ~ digit_value equals_char v.
Proof. intros H%digit_value_range. tauto. Qed.

(** Values of a character are equal, and an equals sign has none. *)
Ltac digit_values :=
  repeat match goal with
  | H1 : digit_value ?c ?v, H2 : digit_value ?c ?v' |- _ =>
      first [constr_eq v v'; clear H2 | pose proof (digit_value_fun _ _ _ H1 H2); subst; clear H2]
  | H : digit_value equals_char _ |- _ => exfalso; by apply (no_equals _ H)
  | H : ?c <> ?c |- _ => exfalso; by apply H
  end.

Lemma decodes_det s r : decodes s r -> forall r', decodes s r' -> r = r'.
Proof.
  induction 1; intros r' H'; inversion H'; subst; digit_values; [done | ..];
    repeat f_equal; eauto.
Qed.

Lemma decodes_length s r : decodes s r -> zlen r <= zlen s.
Proof. induction 1; cbn [length] in *; lia. Qed.

Lemma significant_length l : (length (significant l) <= length l)%nat.
Proof. apply List.filter_length_le. Qed.

(** The bytes stored. *)
Lemma stored_1 a b :
  0 <= a < 64 -> 0 <= b < 64 ->
  Z.lor (Z.shiftl a 18) (Z.shiftl b 12) = (a * 64 + b) * 4096 /\
  Z.land (Z.shiftr ((a * 64 + b) * 4096) 16) 255 = (a * 64 + b) / 16.
Proof.
  intros. bits_to_digits. change (2 ^ 18) with 262144. change (2 ^ 12) with 4096. change (2 ^ 16) with 65536.
  rewrite (lor_add 18) by (change (2 ^ 18) with 262144; divs). divs.
Qed.

Lemma stored_2 n c :
  0 <= n < 4096 -> 0 <= c < 64 ->
  Z.lor (n * 4096) (Z.shiftl c 6) = (n * 64 + c) * 64 /\
  Z.land (Z.land 0xff (Z.shiftr ((n * 64 + c) * 64) 8)) 255 = (n * 64 + c) / 4 mod 256.
Proof.
  intros. bits_to_digits. rewrite (lor_add 12) by (change (2 ^ 12) with 4096; divs). divs.
Qed.

Lemma stored_3 n d :
  0 <= n -> 0 <= d < 64 ->
  Z.lor (n * 64) d = n * 64 + d /\ Z.land (Z.land 0xff (n * 64 + d)) 255 = (n * 64 + d) mod 256.
Proof.
  intros. bits_to_digits. rewrite (lor_add 6) by (change (2 ^ 6) with 64; divs). divs.
Qed.

(** An end of the loop that is no end of a decoding. *)
Definition gives (o : outcome (list Z * Z)) (e : list Z) (ccnt : Z) (s : list Z) : Prop :=
  (exists r, decodes s r /\ o = Done (e ++ r, ccnt + zlen r)) \/
  ((forall r, ~ decodes s r) /\ exists err, o = Signal err).

Lemma gives_error e ccnt s err : (forall r, ~ decodes s r) -> gives (Signal err) e ccnt s.
Proof. right. split; [done |]. by eexists. Qed.

(** A group that was read, followed by the rest. *)
Lemma gives_group o e ccnt bs s group :
  gives o (e ++ bs) (ccnt + zlen bs) s ->
  (forall r, decodes s r -> decodes (group ++ s) (bs ++ r)) ->
  (forall r, decodes (group ++ s) r -> exists r', decodes s r') ->
  gives o e ccnt (group ++ s).
Proof.
  intros [(r & Hr & ->) | [Hn [err ->]]] Hf Hb.
  - left. exists (bs ++ r). split; [by apply Hf |]. rewrite app_assoc. do 2 f_equal. lens. lia.
  - apply gives_error. intros r Hr. destruct (Hb r Hr) as [r' ?]. by eapply Hn.
Qed.

(** No decoding begins like this. *)
Ltac no_decoding := apply gives_error; intros ? Hd; inversion Hd; subst; digit_values.

(** Reads on, at the end with [no_decoding]. *)
Ltac advance c l' v :=
  let Hs := fresh "Hs" in
  match goal with
  | |- context [ADVANCE_INPUT_IGNORE_NONBASE64 ?l ?pos] =>
      destruct (advance_run l pos) as
        [[Hs [? ->]] | (c & l' & ? & Hs & -> & ? & ? & ? & [-> | [? [v ?]]])]; [done | rewrite Hs..]
  end;
  [change (-1 <? 0) with true; cbv iota
  | change (equals_char <? 0) with false; rewrite ?Z.eqb_refl; cbv iota
  | rewrite (proj2 (Z.ltb_ge c 0)) by done; rewrite (proj2 (Z.eqb_neq c equals_char)) by done; cbv iota ].

Lemma decode_loop_run fuel l pos e ccnt :
  characters l -> (length l < fuel)%nat ->
  gives (base64_decode_loop fuel l pos e ccnt) e ccnt (significant l).
Proof.
  revert l pos e ccnt. induction fuel as [| fuel IH]; intros l pos e ccnt Hl Hf; [lia |].
  cbn [base64_decode_loop]. advance a l1 va.
  { left. exists []. split; [constructor |]. rewrite app_nil_r, Z.add_0_r. done. }
  { no_decoding. }
  rewrite (entry_value a va) by done. cbn [obind]. advance b l2 vb; [no_decoding.. |].
  rewrite (entry_value b vb) by done. cbn [obind].
  destruct (digit_value_range a va) as [Ra _]; [done |].
  destruct (digit_value_range b vb) as [Rb _]; [done |].
  destruct (stored_1 va vb Ra Rb) as [-> E1]. unfold STORE_BYTE. cbv zeta iota. rewrite E1.
  advance c l3 vc; [no_decoding | |].
  - advance d l4 vd; [no_decoding | |].
    + cbn [negb]. apply (gives_group _ _ _ [(va * 64 + vb) / 16] _ [a; b; equals_char; equals_char]).
      * apply IH; [done | lia].
      * intros r Hr. by constructor.
      * intros r Hr. inversion Hr; subst; digit_values. eauto.
    + cbn [negb]. no_decoding.
  - rewrite (entry_value c vc) by done. cbn [obind].
    destruct (digit_value_range c vc) as [Rc _]; [done |].
    destruct (stored_2 (va * 64 + vb) vc) as [-> E2]; [lia | done |]. rewrite E2.
    advance d l4 vd; [no_decoding | |].
    + rewrite <- app_assoc. rewrite <- Z.add_assoc.
      apply (gives_group _ _ _ [(va * 64 + vb) / 16; ((va * 64 + vb) * 64 + vc) / 4 mod 256] _
        [a; b; c; equals_char]).
      * apply IH; [done | lia].
      * intros r Hr. cbn [app]. replace ((va * 64 + vb) / 16) with (((va * 64 + vb) * 64 + vc) / 1024) by divs.
        by eapply decodes_two.
      * intros r Hr. inversion Hr; subst; digit_values. eauto.
    + rewrite (entry_value d vd) by done. cbn [obind].
      destruct (digit_value_range d vd) as [Rd _]; [done |].
      destruct (stored_3 ((va * 64 + vb) * 64 + vc) vd) as [-> E3]; [lia | done |]. rewrite E3.
      rewrite <- !app_assoc. cbn [app]. rewrite <- !Z.add_assoc. change (1 + (1 + 1)) with 3.
      set (n := ((va * 64 + vb) * 64 + vc) * 64 + vd).
      replace ((va * 64 + vb) / 16) with (n / 65536) by (unfold n; divs).
      replace (((va * 64 + vb) * 64 + vc) / 4 mod 256) with (n / 256 mod 256) by (unfold n; divs).
      apply (gives_group _ _ _ [n / 65536; n / 256 mod 256; n mod 256] _ [a; b; c; d]).
      * apply IH; [done | lia].
      * intros r Hr. by eapply decodes_three.
      * intros r Hr. inversion Hr; subst; digit_values. eauto.
Qed.

(** ** Decoding what was encoded *)

Lemma significant_app l1 l2 : significant (l1 ++ l2) = significant l1 ++ significant l2.
Proof. apply List.filter_app. Qed.

Lemma significant_all l : forallb counts l = true -> significant l = l.
Proof.
  induction l as [| c l IH]; [done |]. cbn. intros [-> Hl]%andb_prop. f_equal. by apply IH.
Qed.

Lemma significant_lines counter gs :
  Forall (fun g => forallb counts g = true) gs -> significant (lines counter gs) = concat gs.
Proof.
  intros Hgs. revert counter. induction Hgs as [| g gs Hg _ IH]; intros counter; [done |].
  cbn [lines concat]. destruct (counter <? 18); [| change (newline_char :: ?x) with ([newline_char] ++ x);
    rewrite significant_app; change (significant [newline_char]) with (@nil Z); cbn [app]];
    by rewrite significant_app, significant_all, IH.
Qed.

Lemma counts_digit v : 0 <= v < 64 -> counts (digit v) = true.
Proof. intros Hv. unfold counts. by rewrite (proj1 (proj2 (digit_ok v Hv))). Qed.

Lemma groups_count l : bytes l -> Forall (fun g => forallb counts g = true) (groups l).
Proof.
  induction l as [| a | a b | a b c l IH] using groups_ind; cbn [groups]; intros Hl; [done | ..];
    repeat (apply Forall_cons in Hl as [? Hl]); constructor; auto; cbn [forallb];
    rewrite !counts_digit by divs; done.
Qed.

(** The quotients and remainders of bytes are digits. *)
Ltac digit_at := refine (proj2 (digit_ok _ _)); divs.

Lemma decodes_eq s r r' : decodes s r -> r = r' -> decodes s r'.
Proof. by intros ? <-. Qed.

Lemma groups_decode l : bytes l -> decodes (concat (groups l)) l.
Proof.
  induction l as [| a | a b | a b c l IH] using groups_ind; cbn [groups concat app]; intros Hl;
    repeat (apply Forall_cons in Hl as [? Hl]); [constructor | eapply decodes_eq..].
  - eapply decodes_one; [digit_at | digit_at | constructor].
  - f_equal. divs.
  - eapply decodes_two; [digit_at | digit_at | digit_at | done | constructor].
  - repeat f_equal; divs.
  - eapply decodes_three; [digit_at | digit_at | digit_at | digit_at | done | by apply IH].
  - repeat f_equal; divs.
Qed.

Lemma layout_decodes l line_break :
  bytes l -> decodes (significant (layout line_break 0 (groups l))) l.
Proof.
  intros Hl. pose proof (groups_count l Hl) as Hg. unfold layout. destruct line_break.
  - rewrite significant_lines by done. by apply groups_decode.
  - rewrite <- (significant_lines 0), significant_lines by done.
    rewrite significant_all; [by apply groups_decode |].
    clear -Hg. induction Hg; [done |]. cbn [concat]. rewrite forallb_app. by apply andb_true_intro.
Qed.

Lemma digit_character v : 0 <= digit v.
Proof.
  unfold digit, zget. destruct (v <? 0); [done |]. cbn [default].
  destruct (base64_value_to_char !! Z.to_nat v) as [c |] eqn:Ec; [| done].
  assert (Forall (fun c => 0 <= c) base64_value_to_char) as Ht by (repeat constructor; lia).
  exact (Forall_lookup_1 _ _ _ _ Ht Ec).
Qed.

Lemma layout_characters l line_break : characters (layout line_break 0 (groups l)).
Proof.
  assert (Forall characters (groups l)) as Hg.
  { unfold characters.
    induction l using groups_ind; cbn [groups]; repeat constructor; try done; apply digit_character. }
  unfold layout. destruct line_break; [| by apply Forall_concat].
  generalize 0. induction Hg as [| g gs Hg _ IH]; intros counter; [constructor |]. cbn [lines].
  unfold characters in *. destruct (counter <? 18); [| apply Forall_cons; split; [done |]]; by apply Forall_app.
Qed.

(** ** The commands *)

Lemma encode_within_run l no_line_break :
  bytes l -> encode_within (zlen l) l no_line_break = Done (layout (NILP no_line_break) 0 (groups l)).
Proof.
  intros Hl. unfold encode_within. rewrite encode_run by done. cbn [obind].
  pose proof (encoded_fits (NILP no_line_break) l). by zdec.
Qed.

Lemma decode_within_run l :
  characters l ->
  (exists r, decodes (significant l) r /\ decode_within (zlen l) l = Done (r, zlen r)) \/
  ((forall r, ~ decodes (significant l) r) /\ exists err, decode_within (zlen l) l = Signal err).
Proof.
  intros Hl. unfold decode_within, base64_decode_1.
  destruct (decode_loop_run (S (length l)) l 0 [] 0 Hl) as [(r & Hr & ->) | [Hn [err ->]]]; [lia | left | right].
  - exists r. split; [done |]. cbn [obind app]. unfold MAX_EMCHAR_LEN.
    pose proof (decodes_length _ _ Hr). pose proof (significant_length l). by zdec.
  - split; [done |]. by exists err.
Qed.

Lemma decode_within_Done l r :
  characters l -> decodes (significant l) r -> decode_within (zlen l) l = Done (r, zlen r).
Proof.
  intros Hl Hr. destruct (decode_within_run l Hl) as [(r' & Hr' & ->) | [Hn _]].
  - by rewrite (decodes_det _ _ Hr _ Hr').
  - by apply Hn in Hr.
Qed.

(** A string of bytes is encoded, within the room allocated, as its groups of
    three bytes and the rest, eighteen groups to a line or all on one; and any string
    that holds the encoding is decoded to the bytes. *)
Theorem base64_string_round_trip string_data s no_line_break :
  bytes (string_data s) ->
  exists encoded, Fbase64_encode_string string_data (LRec lrecord_string s) no_line_break = Done encoded /\
    encoded = (if NILP no_line_break then lines 0 (groups (string_data s))
               else concat (groups (string_data s))) /\
    forall string_data' s', string_data' s' = encoded ->
      Fbase64_decode_string string_data' (LRec lrecord_string s') = Done (string_data s).
Proof.
  intros Hb. eexists. unfold Fbase64_encode_string, CHECK_STRING. cbn [obind].
  rewrite encode_within_run by done. split_and!; [done | done |]. intros string_data' s' E.
  unfold Fbase64_decode_string, CHECK_STRING. cbn [obind]. rewrite E.
  by rewrite (decode_within_Done _ _ (layout_characters _ _) (layout_decodes _ (NILP no_line_break) Hb)).
Qed.

(** C26: base64-decode-string returns the decoding of the characters that count, all
    others being ignored, when they are groups of four with their padding, and
    otherwise signals an error; it never looks or writes where it should not. *)
Theorem base64_decode_string_decodes string_data s :
  characters (string_data s) ->
  let run := Fbase64_decode_string string_data (LRec lrecord_string s) in
  (forall r, run = Done r <-> decodes (significant (string_data s)) r) /\
  ((exists r, run = Done r) \/ exists err, run = Signal err).
Proof.
  intros Hc run. unfold run, Fbase64_decode_string, CHECK_STRING. cbn [obind].
  destruct (decode_within_run _ Hc) as [(r & Hr & ->) | [Hn [err ->]]]; cbn [obind]; split; eauto.
  - intros r'. split; [by intros [= <-] |]. intros Hr'. by rewrite (decodes_det _ _ Hr _ Hr').
  - intros r. split; [done |]. by intros ?%Hn.
Qed.

(** ** At work *)

Definition hello_string (_ : positive) : list Z := [104; 101; 108; 108; 111].
Definition encoded_string (_ : positive) : list Z := [97; 71; 10; 86; 115; 98; 71; 56; 61].

Lemma base64_string_round_trip_witness :
  exists encoded, Fbase64_encode_string hello_string (LRec lrecord_string 1) Qnil = Done encoded /\
    encoded = lines 0 (groups (hello_string 1)) /\
    forall string_data' s', string_data' s' = encoded ->
      Fbase64_decode_string string_data' (LRec lrecord_string s') = Done (hello_string 1).
Proof. apply (base64_string_round_trip hello_string 1 Qnil). repeat constructor; lia. Defined.

Lemma base64_decode_string_decodes_witness :
  let run := Fbase64_decode_string encoded_string (LRec lrecord_string 1) in
  (forall r, run = Done r <-> decodes (significant (encoded_string 1)) r) /\
  ((exists r, run = Done r) \/ exists err, run = Signal err).
Proof. apply (base64_decode_string_decodes encoded_string 1). repeat constructor; lia. Defined.

(** "aG8=" and "aG9=" both decode to "ho": the bits left over are not looked at. *)
Example leftover_bits_ignored :
  Fbase64_decode_string (fun _ => [97; 71; 56; 61]) (LRec lrecord_string 1) =
  Fbase64_decode_string (fun _ => [97; 71; 57; 61]) (LRec lrecord_string 1).
Proof. reflexivity. Qed.

(** A line is broken after 72 characters, not 76. *)
Example lines_of_72 :
  (fun e => list_find (fun c => c = newline_char) e) <$>
    (match base64_encode_1 (replicate 60 65) true with Done e => Some e | _ => None end) =
  Some (Some (72%nat, newline_char)).
Proof. reflexivity. Qed.

(** An equals sign out of place is an error, with its position. *)
Example equals_out_of_place :
  base64_decode_1 [10; 97; 61; 61] =
  Signal (Qsimple_error "Illegal `=' character while decoding base64" (LInt 3)).
Proof. reflexivity. Qed.

Example encode_hello : base64_encode_1 [104; 101; 108; 108; 111] true =
  Done [97; 71; 86; 115; 98; 71; 56; 61].
Proof. reflexivity. Qed.

Example decode_hello : base64_decode_1 [97; 71; 10; 86; 115; 98; 71; 56; 61] =
  Done ([104; 101; 108; 108; 111], 5).
Proof. reflexivity. Qed.
