(* ===== verification/Base64Region.v ===== *)
(** * base64-encode-region and base64-decode-region

    The commands of fns.c (3639-3693, 3730-3775) on the text of the current buffer:
    the new text goes in before the old one goes out, so that markers stay.  They
    are proved against the specification of insertion and deletion. *)

From S2P Require Import Prelude Lisp Buffer Scan Undo Insdel Gap Hooks EditSpec Edit.
From S2P Require Import Insertion Deletion Editing Editfns Commands TextCommands CurrentBuffer UndoReplay.
From S2P Require Import UndoTheory Undoing Base64.

Section Regions.
Context {X : Type} `{Collaborators X}.
Variable realloc : Z -> option (list Z).
Variable foreign : positive -> option Z.

Definition lift_outcome {A} (o : outcome A) : M X A :=
  match o with Done a => ret a | Signal e => signal e | Fault => fault end.

(** The characters that an input stream on the buffer yields when it is read to its
    end: those of the accessible part of the range.  The markers with which the stream
    keeps its place, which no Lisp code sees, are left out. *)
Definition lisp_buffer_reader (v : nat) (start end_ : Z) : M X (list Z) :=
  let! b := get_buf v in
  let! t := get w_text in
  if negb (b_live b) then ret [] else
  let start := bufpos_clip_to_bounds (b_begv b) start (b_zv b) in
  let end_ := bufpos_clip_to_bounds (b_begv b) end_ (b_zv b) in
  of_option (make_string_from_buffer t start (end_ - start)).

Definition Fbase64_encode_region (start end_ no_line_break : Lisp_Object) : M X Z :=
  let! v := get (fun w => g_current (w_glob w)) in
  let! b := get_buf v in
  let old_pt := b_pt b in
  let! (begv, zv) := get_buffer_range_char foreign v start end_ 0 in
  barf_if_buffer_read_only v begv zv;;
  let length := zv - begv in
  let! input := lisp_buffer_reader v begv zv in
  let! encoded := lift_outcome (encode_within length input no_line_break) in
  let encoded_length := zlen encoded in
  buffer_insert_raw_string_1 realloc v begv encoded encoded_length 0;;
  buffer_delete_range v (begv + encoded_length) (zv + encoded_length) 0;;
  (if (old_pt >=? begv) && (old_pt <? zv) then set_buffer_point v begv else ret tt);;
  ret encoded_length.

Definition Fbase64_decode_region (start end_ : Lisp_Object) : M X Z :=
  let! v := get (fun w => g_current (w_glob w)) in
  let! b := get_buf v in
  let old_pt := b_pt b in
  let! (begv, zv) := get_buffer_range_char foreign v start end_ 0 in
  barf_if_buffer_read_only v begv zv;;
  let length := zv - begv in
  let! input := lisp_buffer_reader v begv zv in
  let! (decoded, cc_decoded_length) := lift_outcome (decode_within length input) in
  set_buffer_point v begv;;
  buffer_insert_raw_string_1 realloc v begv decoded (zlen decoded) 0;;
  buffer_delete_range v (begv + cc_decoded_length) (zv + cc_decoded_length) 0;;
  (if (old_pt >=? begv) && (old_pt <? zv) then set_buffer_point v begv else ret tt);;
  ret cc_decoded_length.

(** ** Replacing a range *)

Hypothesis silent : hooks_ok (X := X) eq.
Hypothesis hooks_keep : forall h, Keeps (X := X) (call_hook h).

Section Buffer.
Variable v : nat.
Variables begv modtime : Z.

Lemma wp_insert_raw s zv pt p str (w : world X) :
  at_point v begv modtime s zv pt w -> begv <= p <= zv -> holds (zlen s + zlen str) ->
  wp (buffer_insert_raw_string_1 realloc v p str (zlen str) 0)
    (fun _ => at_point v begv modtime (put s p str) (zv + zlen str) (if pt >? p then pt + zlen str else pt))
    (fun _ => world_wf) w.
Proof.
  intros [Hw (bf & Hbf & Hpt)] Hp Hroom. pose proof (viewing_bounds _ _ _ _ _ _ Hw) as Hbd.
  destruct Hw as [Hwf Hc (bf' & Hbf' & Ha & Eb & Ez & Em) Hs].
  rewrite Hbf in Hbf'. injection Hbf' as <-. assert (b_live bf = true) as Hl by apply Ha.
  eapply wp_mono; [apply wp_keeps; [by apply insert_raw_keeps |];
    eapply (insert_raw_silent realloc silent v bf p str 0 w); try done | | done].
  { intros a <-. change (a_str (abs_world w)) with (text_str (w_text w)). rewrite Hs.
    unfold holds in Hroom. pose proof (Z.div_le_mono (zlen s) (zlen s + zlen str) 8). lia. }
  intros ? w' [Hw' Hc']. rewrite (proj2 (Z.eqb_neq p (-1))) in Hw' by lia.
  assert (a_clip (abs_buf (w_text w) bf) p = p) as Ec by (unfold a_clip; cbn; zdec; lia).
  rewrite Ec in Hw'. destruct (alone_insert v p str false (bm_flag 0) _ _ _ Ha) as (b' & Ha' & Es).
  eapply (becomes_at_point _ _ _ _ _ w b'); [exact Hw' | done | done | exact Ha' | ..].
  + apply (f_equal a_begv) in Es. cbn in Es. congruence.
  + apply (f_equal a_zv) in Es. cbn in Es. lia.
  + apply (f_equal a_modtime) in Es. cbn in Es. congruence.
  + apply (f_equal a_pt) in Es. cbn -[Z.gtb] in Es. by rewrite Hpt in Es.
  + rewrite a_str_insert. cbn [a_str abs_world]. by rewrite Hs.
Qed.

(** The range from [p] to [q] replaced, and where that leaves a point. *)
Definition replaced (s : list Z) (p q : Z) (new : list Z) : list Z :=
  ztake (p - 1) s ++ new ++ zdrop (q - 1) s.

Definition point_after (p q n pt : Z) : Z :=
  if pt <=? p then pt else if pt <=? q then p + n else pt + n - (q - p).

Lemma cut_after_put s p q new :
  1 <= p -> p <= q -> q - 1 <= zlen s ->
  cut (put s p new) (p + zlen new) (q + zlen new) = replaced s p q new.
Proof.
  intros Hp Hq Hs. unfold cut, put, replaced.
  rewrite (app_assoc (ztake (p - 1) s)), take_app_exact, drop_app_ge by (lens; lia).
  rewrite drop_drop, <- app_assoc. do 3 f_equal. lens. lia.
Qed.

Lemma wp_replace {A} s zv pt p q new (w : world X) (k : M X A) Q E :
  at_point v begv modtime s zv pt w -> begv <= p -> p <= q -> q <= zv -> holds (zlen s + zlen new) ->
  (forall e w', world_wf w' -> E e w') ->
  (forall w', at_point v begv modtime (replaced s p q new) (zv + zlen new - (q - p))
                (point_after p q (zlen new) pt) w' -> wp k Q E w') ->
  wp (buffer_insert_raw_string_1 realloc v p new (zlen new) 0;;
      buffer_delete_range v (p + zlen new) (q + zlen new) 0;; k) Q E w.
Proof.
  intros Hw Hp Hpq Hq Hroom HE Hk. pose proof (viewing_bounds _ _ _ _ _ _ (proj1 Hw)).
  apply wp_bind. eapply wp_mono; [apply (wp_insert_raw s zv pt p new w Hw); [lia | done] | | intros ? w'; by apply HE].
  intros ? w1 Hw1. apply wp_bind.
  eapply wp_mono; [eapply (wp_cut_point silent hooks_keep); [exact Hw1 | lia..] | | intros ? w'; by apply HE].
  intros ? w2 Hw2. cbv beta in Hw2. rewrite cut_after_put in Hw2 by lia. apply Hk.
  replace (zv + zlen new - (q + zlen new - (p + zlen new))) with (zv + zlen new - (q - p)) in Hw2 by lia.
  replace (pos_after_delete _ _ _) with (point_after p q (zlen new) pt) in Hw2; [done |].
  unfold point_after, pos_after_delete. zdec; lia.
Qed.

(** Hooks that do nothing. *)
Lemma same_at_point s zv pt (w w' : world X) :
  at_point v begv modtime s zv pt w -> hooked eq w w' -> g_current (w_glob w') = g_current (w_glob w) ->
  at_point v begv modtime s zv pt w'.
Proof.
  intros [[Hwf Hc (b & Hb & Ha & Eb & Ez & Em) Hs] (b0 & Hb0 & Hp)] [Hwf' E] Hc'.
  rewrite Hb in Hb0. injection Hb0 as <-.
  eapply (becomes_at_point _ _ _ (abs_world w) w' w (abs_buf (w_text w) b)); try done.
Qed.

(** The region read, or refused as read-only. *)
Lemma wp_read_region {A} s zv pt p q (w : world X) (k : list Z -> M X A) Q E :
  at_point v begv modtime s zv pt w -> begv <= p -> p <= q -> q <= zv ->
  (forall e w', world_wf w' -> E e w') ->
  (forall w', at_point v begv modtime s zv pt w' -> wp (k (slice s (p - 1) (q - p))) Q E w') ->
  wp (barf_if_buffer_read_only v p q;; let! input := lisp_buffer_reader v p q in k input) Q E w.
Proof.
  intros Hw Hp Hpq Hq HE Hk. pose proof Hw as [[Hwf Hc (b & Hb & _) _] _]. apply wp_bind.
  eapply wp_mono; [apply wp_keeps; [by typeclasses eauto |];
    apply (safe_barf eq silent w v p q ltac:(by eapply lookup_lt_Some) w); by split | |].
  2: { intros e w' [? _]. by apply HE. }
  intros [] w' [Hw' Hc']. pose proof (same_at_point _ _ _ _ _ Hw Hw' Hc') as Hat.
  pose proof (viewing_bounds _ _ _ _ _ _ (proj1 Hat)) as Hbd.
  pose proof Hat as [[Hwf' _ (b' & Hb' & (_ & Hl & _) & Eb & Ez & _) Hs] _]. cbn in Hl.
  unfold lisp_buffer_reader. apply wp_bind, wp_bind. eapply wp_get_buf; [exact Hb' |].
  apply wp_bind, wp_get. rewrite Hl. cbn [negb]. unfold bufpos_clip_to_bounds. rewrite Eb, Ez. zdec.
  all: try (exfalso; lia).
  all: eapply wp_of_option; [apply make_string_from_buffer_str; [apply Hwf' | lia..] |].
  all: rewrite Hs; by apply Hk.
Qed.

(** A region whose bounds are integers. *)
Lemma region_bounds s zv pt p q (w : world X) :
  at_point v begv modtime s zv pt w -> begv <= p -> p <= q -> q <= zv ->
  get_buffer_range_char foreign v (LInt p) (LInt q) 0 w = (Done (p, q), w).
Proof.
  intros [[Hwf _ (b & Hb & (_ & Hl & _) & Eb & Ez & _) _] _] Hp Hpq Hq. cbn in Hl.
  pose proof (range_arguments foreign v b (LInt p) (LInt q) p q 0 w Hwf Hb Hl
    (position_of_int _ w p) (position_of_int _ w q) eq_refl eq_refl) as R.
  unfold allowed in R. change (flag 0 GB_ALLOW_PAST_ACCESSIBLE) with false in R. cbv iota in R.
  destruct R as [_ ->]. rewrite Eb, Ez. by zdec; cbn [andb]; zdec.
Qed.

(** A region was given new text. *)
Definition retext (s : list Z) (zv p q : Z) (new : list Z) (pt : Z) : world X -> Prop :=
  at_point v begv modtime (replaced s p q new) (zv + zlen new - (q - p)) pt.

(** The end of both commands. *)
Lemma wp_point_at s zv pt p (c : bool) (n : Z) (w : world X) :
  at_point v begv modtime s zv pt w -> begv <= p <= zv ->
  wp ((if c then set_buffer_point v p else ret tt);; ret n)
    (fun n' w' => n' = n /\ at_point v begv modtime s zv (if c then p else pt) w') (fun _ => world_wf) w.
Proof.
  intros [Hw Hp] Hz. apply wp_bind. destruct c; [| by apply wp_ret, wp_ret].
  eapply wp_mono; [by eapply (wp_goto v begv modtime s zv p w Hw) | | done].
  intros ? w' [? ?]. by apply wp_ret.
Qed.

Definition encoding (s : list Z) (p q : Z) (no_line_break : Lisp_Object) : list Z :=
  layout (NILP no_line_break) 0 (groups (slice s (p - 1) (q - p))).

Lemma wp_encode_region s zv pt p q no_line_break (w : world X) :
  at_point v begv modtime s zv pt w -> begv <= p -> p <= q -> q <= zv ->
  bytes (slice s (p - 1) (q - p)) -> holds (zlen s + encoded_room (q - p)) ->
  let new := encoding s p q no_line_break in
  wp (Fbase64_encode_region (LInt p) (LInt q) no_line_break)
    (fun n w' => n = zlen new /\ retext s zv p q new
       (if pt <? p then pt else if pt <? q then p else pt + zlen new - (q - p)) w')
    (fun _ => world_wf) w.
Proof.
  intros Hw Hp Hpq Hq Hbytes Hroom new. pose proof (viewing_bounds _ _ _ _ _ _ (proj1 Hw)).
  assert (zlen (slice s (p - 1) (q - p)) = q - p) as HL by (apply length_slice; lia).
  pose proof (encoded_fits (NILP no_line_break) (slice s (p - 1) (q - p))) as Hfit.
  pose proof (encode_within_run _ no_line_break Hbytes) as Hrun.
  rewrite HL in Hfit, Hrun. fold (encoding s p q no_line_break) in Hfit, Hrun. fold new in Hfit, Hrun.
  assert (p = q -> zlen new = 0) as Hempty.
  { intros ->. unfold new, encoding.
    destruct (slice s (q - 1) (q - q)); [by destruct (NILP _) | cbn in HL; lia]. }
  pose proof Hw as [[_ Hc _ _] (b & Hb & Hpt)]. unfold Fbase64_encode_region.
  apply wp_bind, wp_get, wp_bind. rewrite Hc. eapply wp_get_buf; [exact Hb |]. rewrite Hpt.
  apply wp_bind. unfold wp at 1. rewrite (region_bounds s zv pt) by done.
  eapply (wp_read_region s zv pt p q w); try done. intros w1 Hw1. rewrite Hrun.
  cbn [lift_outcome]. apply wp_bind, wp_ret.
  eapply (wp_replace s zv pt p q new); try done; [eapply holds_le; [exact Hroom | lia] |].
  intros w2 Hw2. eapply wp_mono; [eapply wp_point_at; [exact Hw2 | lia] | | done].
  intros n w3 [-> Hw3]. split; [done |]. unfold retext. replace (if pt <? p then _ else _) with
    (if (pt >=? p) && (pt <? q) then p else point_after p q (zlen new) pt); [done |].
  unfold point_after. zdec; lia.
Qed.

Lemma wp_decode_region s zv pt p q r (w : world X) :
  at_point v begv modtime s zv pt w -> begv <= p -> p <= q -> q <= zv ->
  characters (slice s (p - 1) (q - p)) -> decodes (significant (slice s (p - 1) (q - p))) r ->
  holds (zlen s + zlen r) ->
  wp (Fbase64_decode_region (LInt p) (LInt q))
    (fun n w' => n = zlen r /\ retext s zv p q r p w') (fun _ => world_wf) w.
Proof.
  intros Hw Hp Hpq Hq Hchars Hr Hroom. pose proof (viewing_bounds _ _ _ _ _ _ (proj1 Hw)).
  assert (zlen (slice s (p - 1) (q - p)) = q - p) as HL by (apply length_slice; lia).
  pose proof (decode_within_Done _ _ Hchars Hr) as Hrun. rewrite HL in Hrun.
  pose proof Hw as [[_ Hc _ _] (b & Hb & Hpt)]. unfold Fbase64_decode_region.
  apply wp_bind, wp_get, wp_bind. rewrite Hc. eapply wp_get_buf; [exact Hb |]. rewrite Hpt.
  apply wp_bind. unfold wp at 1. rewrite (region_bounds s zv pt) by done.
  eapply (wp_read_region s zv pt p q w); try done. intros w1 [Hw1 _]. rewrite Hrun.
  cbn [lift_outcome]. apply wp_bind, wp_ret, wp_bind.
  eapply wp_mono; [apply (wp_goto v begv modtime s zv p w1 Hw1); lia | | done].
  intros ? w2 Hw2. eapply (wp_replace s zv p p q r); try done.
  intros w3 Hw3. eapply wp_mono; [eapply wp_point_at; [exact Hw3 | lia] | | done].
  intros n w4 [-> Hw4]. split; [done |]. unfold retext.
  assert (point_after p q (zlen r) p = p) as Ep by (unfold point_after; by zdec).
  rewrite Ep in Hw4. by destruct (_ && _) in Hw4.
Qed.

(** The world of a lone buffer. *)
Lemma lone_at_point b (w : world X) :
  world_wf w -> g_current (w_glob w) = v -> w_bufs w !! v = Some b -> b_live b = true ->
  (forall i b', w_bufs w !! i = Some b' -> b_live b' = true -> i = v) ->
  b_begv b = begv -> b_modtime b = modtime ->
  at_point v begv modtime (text_str (w_text w)) (b_zv b) (b_pt b) w.
Proof.
  intros Hwf Hc Hb Hl Hone Eb Em. split; [split; try done | by exists b].
  exists b. split; [done |]. split; [| done]. split_and!; [by apply abs_lookup | done |].
  intros i a Ha Hla. unfold abs_world in Ha. cbn [a_bufs] in Ha. change (@map) with (@fmap list _) in Ha.
  rewrite list_lookup_fmap in Ha. destruct (w_bufs w !! i) as [b' |] eqn:Ei; [| done].
  injection Ha as <-. by eapply Hone.
Qed.
End Buffer.

Lemma slice_replaced s p q new :
  1 <= p -> p <= q -> q - 1 <= zlen s ->
  slice (replaced s p q new) (p - 1) (zlen new) = new /\
  replaced (replaced s p q new) p (p + zlen new) (slice s (p - 1) (q - p)) = s.
Proof.
  intros Hp Hpq Hq. unfold replaced, slice. split.
  - rewrite drop_app_exact by (lens; lia). by rewrite take_app_exact by lia.
  - rewrite take_app_exact by (lens; lia).
    rewrite (app_assoc _ new), (drop_app_exact _ (zdrop (q - 1) s)) by (lens; lia).
    rewrite <- (take_drop (Z.to_nat (p - 1)) s) at 4. f_equal.
    rewrite <- (take_drop (Z.to_nat (q - p)) (zdrop (p - 1) s)) at 2. f_equal.
    rewrite drop_drop. f_equal. lia.
Qed.
End Regions.

(** ** The theorems *)

Section Theorems.
Context {X : Type} `{Collaborators X}.
Variable realloc : Z -> option (list Z).
Variable foreign : positive -> option Z.

(** One live buffer, current, with a region of bytes that is accessible, and silent
    hooks. *)
Record region_ready (v : nat) (b : buffer) (p q : Z) (w : world X) : Prop := {
  rr_hooks : hooks_ok (X := X) eq;
  rr_keep : forall h, Keeps (X := X) (call_hook h);
  rr_wf : world_wf w;
  rr_current : g_current (w_glob w) = v;
  rr_buf : w_bufs w !! v = Some b;
  rr_live : b_live b = true;
  rr_alone : forall i b', w_bufs w !! i = Some b' -> b_live b' = true -> i = v;
  rr_range : b_begv b <= p /\ p <= q /\ q <= b_zv b;
  rr_bytes : bytes (slice (text_str (w_text w)) (p - 1) (q - p));
  rr_room : holds (zlen (text_str (w_text w)) + encoded_room (q - p));
}.

(** base64-encode-region replaces the region by its encoding and returns how long
    that is.  Point stays before the region, moves along after it, and is at its
    beginning if it was inside; or the command signals (a quit, no memory, text
    that is read-only) with the buffers well-formed. *)
Theorem base64_encode_region_encodes v b p q no_line_break (w : world X) :
  region_ready v b p q w ->
  let s := text_str (w_text w) in
  let new := encoding s p q no_line_break in
  wp (Fbase64_encode_region realloc foreign (LInt p) (LInt q) no_line_break)
    (fun n w' => n = zlen new /\ world_wf w' /\ text_str (w_text w') = replaced s p q new /\
       exists b', w_bufs w' !! v = Some b' /\
         b_pt b' = if b_pt b <? p then b_pt b else if b_pt b <? q then p
                   else b_pt b + zlen new - (q - p))
    (fun _ => world_wf) w.
Proof.
  intros [Hh Hk Hwf Hc Hb Hl Hone (Hp & Hpq & Hq) Hbytes Hroom] s new.
  pose proof (lone_at_point v _ _ b w Hwf Hc Hb Hl Hone eq_refl eq_refl) as Hat.
  eapply wp_mono; [by apply (wp_encode_region realloc foreign Hh Hk _ _ _ _ _ _ _ _ no_line_break _ Hat) | | done].
  intros n w' [-> [[Hwf' _ _ Hs'] Hpt]]. done.
Qed.

(** C25: Decoding the region that an encoding left gives back the text, and returns the
    length that the region had. *)
Theorem base64_region_round_trip v b p q no_line_break (w : world X) :
  region_ready v b p q w ->
  wp (let! n := Fbase64_encode_region realloc foreign (LInt p) (LInt q) no_line_break in
      Fbase64_decode_region realloc foreign (LInt p) (LInt (p + n)))
    (fun n w' => n = q - p /\ world_wf w' /\ text_str (w_text w') = text_str (w_text w))
    (fun _ => world_wf) w.
Proof.
  intros [Hh Hk Hwf Hc Hb Hl Hone (Hp & Hpq & Hq) Hbytes Hroom].
  pose proof (lone_at_point v _ _ b w Hwf Hc Hb Hl Hone eq_refl eq_refl) as Hat.
  pose proof (viewing_bounds _ _ _ _ _ _ (proj1 Hat)) as Hbd.
  set (s := text_str (w_text w)) in *. set (new := encoding s p q no_line_break).
  assert (zlen (slice s (p - 1) (q - p)) = q - p) as HL by (apply length_slice; lia).
  pose proof (encoded_fits (NILP no_line_break) (slice s (p - 1) (q - p))) as Hfit.
  rewrite HL in Hfit. fold (encoding s p q no_line_break) in Hfit. fold new in Hfit.
  destruct (slice_replaced s p q new) as [E1 E2]; [lia.. |].
  apply wp_bind.
  eapply wp_mono; [by apply (wp_encode_region realloc foreign Hh Hk _ _ _ _ _ _ _ _ no_line_break _ Hat) | | done].
  intros n w1 [-> Hw1]. fold s new in Hw1.
  assert (zlen (replaced s p q new) = zlen s + zlen new - (q - p)) as HL1.
  { unfold replaced. lens. lia. }
  eapply wp_mono; [eapply (wp_decode_region realloc foreign Hh Hk _ _ _ _ _ _ p (p + zlen new)
    (slice s (p - 1) (q - p)) _ Hw1) | | done].
  1-3: lia.
  1-3: replace (p + zlen new - p) with (zlen new) by lia; rewrite ?E1.
  - apply layout_characters.
  - by apply layout_decodes.
  - rewrite HL, HL1. eapply holds_le; [exact Hroom | lia].
  - intros m w2 [-> [[Hwf2 _ _ Hs2] _]]. split; [exact HL |]. split; [done |]. rewrite Hs2. exact E2.
Qed.
End Theorems.

(** ** At work *)

#[local] Existing Instance quiet.

(** "hello" as in [Editing.hello]; its characters from 2 to 5 are "ell". *)
Definition hello_point : buffer :=
  plain_buffer 3 1 6 [mk_marker 1 3 false; mk_marker 2 8 false; mk_marker 3 3 true] (Some []).

Lemma hello_ready : region_ready 0 hello_point 2 5 hello.
Proof.
  split; try done.
  - apply quiet_hooks_ok.
  - apply hello_wf.
  - by intros [| i] b' Hb' _.
  - repeat constructor; cbn; lia.
Qed.

Lemma base64_encode_region_encodes_witness :
  let new := encoding (text_str (w_text hello)) 2 5 Qnil in
  wp (Fbase64_encode_region (fun _ => None) (fun _ => None) (LInt 2) (LInt 5) Qnil)
    (fun n w' => n = zlen new /\ world_wf w' /\
       text_str (w_text w') = replaced (text_str (w_text hello)) 2 5 new /\
       exists b', w_bufs w' !! 0%nat = Some b' /\ b_pt b' = 2)
    (fun _ => world_wf) hello.
Proof. exact (base64_encode_region_encodes (fun _ => None) (fun _ => None) 0 hello_point 2 5 Qnil hello hello_ready). Defined.

Lemma base64_region_round_trip_witness :
  wp (let! n := Fbase64_encode_region (fun _ => None) (fun _ => None) (LInt 2) (LInt 5) Qt in
      Fbase64_decode_region (fun _ => None) (fun _ => None) (LInt 2) (LInt (2 + n)))
    (fun n w' => n = 3 /\ world_wf w' /\ text_str (w_text w') = [104; 101; 108; 108; 111])
    (fun _ => world_wf) hello.
Proof. exact (base64_region_round_trip (fun _ => None) (fun _ => None) 0 hello_point 2 5 Qt hello hello_ready). Defined.

(** Decoding a region that point is outside of moves point to its beginning, and
    encoding does not. *)
Example decoding_moves_point :
  let before := mk_world hello_text [plain_buffer 1 1 6 [mk_marker 1 1 false] (Some [])] tt (idle []) in
  (fun w => b_pt <$> w_bufs w !! 0%nat)
    (Fbase64_decode_region (fun _ => None) (fun _ => None) (LInt 2) (LInt 6) before).2 = Some 2 /\
  (fun w => b_pt <$> w_bufs w !! 0%nat)
    (Fbase64_encode_region (fun _ => None) (fun _ => None) (LInt 2) (LInt 6) Qnil before).2 = Some 1.
Proof. split; vm_compute; reflexivity. Qed.

(** A region that does not decode is an error, and the buffer is not changed. *)
Example undecodable_region_is_an_error :
  Fbase64_decode_region (fun _ => None) (fun _ => None) (LInt 2) (LInt 5) hello =
  (Signal (Qerror "Premature EOF while decoding base64"), hello).
Proof. vm_compute. reflexivity. Qed.
