(* ===== verification/Lists.v ===== *)
(** * Lists of conses

    The Lisp primitives on lists of fns.c (218-1865, 2578-2960), with the macros of
    lisp.h (768-1003) that traverse lists that may be dotted or circular, and the
    accessors of data.c.  Conses are records in memory, so that lists may share
    tails, and destructive functions change them in place. *)

From S2P Require Import Prelude Lisp.

(** ** Memory and effects *)

Abbreviation heap := (gmap positive (Lisp_Object * Lisp_Object)).

(** A value; an error; an access to a cons that is not there; fuel that ran out. *)
Inductive list_outcome (A : Type) :=
| Returns (a : A)
| Signals (e : lisp_error)
| Crashes
| Unfinished.
Arguments Returns {A} a. Arguments Signals {A} e. Arguments Crashes {A}. Arguments Unfinished {A}.

Definition L (A : Type) : Type := heap -> list_outcome A * heap.

#[export] Instance L_ret : MRet L := fun A a h => (Returns a, h).
#[export] Instance L_bind : MBind L := fun A B k m h =>
  match m h with
  | (Returns a, h) => k a h
  | (Signals e, h) => (Signals e, h)
  | (Crashes, h) => (Crashes, h)
  | (Unfinished, h) => (Unfinished, h)
  end.
Definition signals {A} (e : lisp_error) : L A := fun h => (Signals e, h).
Definition crash {A} : L A := fun h => (Crashes, h).
Definition unfinished {A} : L A := fun h => (Unfinished, h).

(** ** Objects *)


Definition XCONS (x : Lisp_Object) : L (Lisp_Object * Lisp_Object) := fun h =>
  match x with
  | LRec lrecord_cons a =>
      match h !! a with Some c => (Returns c, h) | None => (Crashes, h) end
  | _ => (Crashes, h)
  end.
Definition XCAR (x : Lisp_Object) : L Lisp_Object := c ← XCONS x; mret c.1.
Definition XCDR (x : Lisp_Object) : L Lisp_Object := c ← XCONS x; mret c.2.

Definition set_cons (x : Lisp_Object) (c : Lisp_Object * Lisp_Object) : L unit := fun h =>
  match x with
  | LRec lrecord_cons a => (Returns tt, <[a := c]> h)
  | _ => (Crashes, h)
  end.
Definition XSETCAR (x v : Lisp_Object) : L unit := c ← XCONS x; set_cons x (v, c.2).
Definition XSETCDR (x v : Lisp_Object) : L unit := c ← XCONS x; set_cons x (c.1, v).

(** [Fcons] takes a cons that is not in use; [free_cons] gives one back. *)
Definition Fcons (car cdr : Lisp_Object) : L Lisp_Object := fun h =>
  let a := fresh (dom h) in (Returns (LRec lrecord_cons a), <[a := (car, cdr)]> h).
Definition free_cons (x : Lisp_Object) : L unit := fun h =>
  match x with LRec lrecord_cons a => (Returns tt, delete a h) | _ => (Crashes, h) end.

Definition wrong_type {A} (predicate : string) (x : Lisp_Object) : L A :=
  signals (Qwrong_type_argument predicate x).

Definition Fcar (list : Lisp_Object) : L Lisp_Object :=
  if CONSP list then XCAR list else if NILP list then mret Qnil else wrong_type "listp" list.
Definition Fcdr (list : Lisp_Object) : L Lisp_Object :=
  if CONSP list then XCDR list else if NILP list then mret Qnil else wrong_type "listp" list.
Definition Fsetcar (cons_cell newcar : Lisp_Object) : L Lisp_Object :=
  if CONSP cons_cell then XSETCAR cons_cell newcar;; mret newcar else wrong_type "consp" cons_cell.
Definition Fsetcdr (cons_cell newcdr : Lisp_Object) : L Lisp_Object :=
  if CONSP cons_cell then XSETCDR cons_cell newcdr;; mret newcdr else wrong_type "consp" cons_cell.

Definition CHECK_LIST (x : Lisp_Object) : L unit := if LISTP x then mret tt else wrong_type "listp" x.
Definition CHECK_NATNUM (x : Lisp_Object) : L Z :=
  match x with
  | LInt n => if n >=? 0 then mret n else wrong_type "natnump" x
  | _ => wrong_type "natnump" x
  end.

(** Another symbol. *)
Definition Qlistp : Lisp_Object := LRec lrecord_symbol 7.

(** ** Traversal *)

Definition CIRCULAR_LIST_SUSPICION_LENGTH : Z := 1024.

Section Lists.
(** How many turns a loop may take. *)
Variable fuel : nat.

Section Loops.
Context {S R : Type}.

(** [PRIVATE_EXTERNAL_LIST_LOOP_6].  The body gets the count, the element, the hare and
    the variables of the function; it leaves the function with a result, or goes on
    with its variables and the count.  [whole] is the list the error names. *)
Variable whole : S -> Lisp_Object.
Variable body : Z -> Lisp_Object -> Lisp_Object -> S -> L (R + S * Z).

Fixpoint external_list_loop (n : nat) (len : Z) (hare tortoise : Lisp_Object) (s : S)
    : L (R + S * Z) :=
  if CONSP hare then
    match n with
    | O => unfinished
    | Datatypes.S n =>
        elt ← XCAR hare;
        r ← body len elt hare s;
        match r with
        | inl r => mret (inl r)
        | inr (s, len) =>
            hare ← XCDR hare;
            let len := len + 1 in
            if len >? CIRCULAR_LIST_SUSPICION_LENGTH then
              tortoise ← (if Z.odd len then XCDR tortoise else mret tortoise);
              if EQ hare tortoise then signals (Qcircular_list (whole s))
              else external_list_loop n len hare tortoise s
            else external_list_loop n len hare tortoise s
        end
    end
  else if NILP hare then mret (inr (s, len))
  else signals (Qmalformed_list (whole s)).

(** [LIST_LOOP_3], for lists known to be well-formed. *)
Variable internal_body : Lisp_Object -> Lisp_Object -> S -> L (R + S).

Fixpoint list_loop (n : nat) (tail : Lisp_Object) (s : S) : L (R + S) :=
  if NILP tail then mret (inr s)
  else match n with
  | O => unfinished
  | Datatypes.S n =>
      elt ← XCAR tail;
      r ← internal_body elt tail s;
      match r with
      | inl r => mret (inl r)
      | inr s => tail ← XCDR tail; list_loop n tail s
      end
  end.
End Loops.

(** [EXTERNAL_LIST_LOOP_3] with a body that leaves the count alone. *)
Definition EXTERNAL_LIST_LOOP {S R} (list : Lisp_Object)
    (body : Lisp_Object -> Lisp_Object -> S -> L (R + S)) (s : S) : L (R + S) :=
  r ← external_list_loop (fun _ => list)
        (fun len elt tail s =>
           r ← body elt tail s;
           mret match r with inl r => inl r | inr s => inr (s, len) end)
        fuel 0 list list s;
  mret match r with inl r => inl r | inr (s, _) => inr s end.

(** A loop without a result of its own. *)
Definition ended {S} (r : Empty_set + S) : S := match r with inl e => match e with end | inr s => s end.

Definition GET_EXTERNAL_LIST_LENGTH (list : Lisp_Object) : L Z :=
  r ← external_list_loop (R := Empty_set) (fun _ => list) (fun len _ _ s => mret (inr (s, len)))
        fuel 0 list list tt;
  mret (ended r).2.

(** ** Length *)

Section Sequences.
Variables string_length vector_length bit_vector_length : positive -> Z.

Definition check_losing_bytecode (function : string) (seq : Lisp_Object) : L unit :=
  if RECORDP seq lrecord_compiled_function then
    signals (Qsimple_error
      ("As of 20.3, `" +:+ function +:+ "' no longer works with compiled-function objects") seq)
  else mret tt.

Definition Flength (sequence : Lisp_Object) : L Z :=
  match sequence with
  | LRec lrecord_string s => mret (string_length s)
  | LRec lrecord_cons _ => GET_EXTERNAL_LIST_LENGTH sequence
  | LRec lrecord_vector v => mret (vector_length v)
  | LRec lrecord_bit_vector v => mret (bit_vector_length v)
  | _ =>
      if NILP sequence then mret 0
      else check_losing_bytecode "length" sequence;; wrong_type "sequencep" sequence
  end.
End Sequences.

Fixpoint safe_length_loop (n : nat) (hare tortoise : Lisp_Object) (len : Z) : L Z :=
  if CONSP hare && (negb (EQ hare tortoise) || (len =? 0)) then
    match n with
    | O => unfinished
    | Datatypes.S n =>
        tortoise ← (if Z.odd len then XCDR tortoise else mret tortoise);
        hare ← XCDR hare;
        safe_length_loop n hare tortoise (len + 1)
    end
  else mret len.

Definition Fsafe_length (list : Lisp_Object) : L Z := safe_length_loop fuel list list 0.

(** ** Parts of a list *)

Fixpoint copy_list_loop (n : nat) (list last hare tortoise : Lisp_Object) (len : Z) : L unit :=
  if CONSP hare then
    match n with
    | O => unfinished
    | Datatypes.S n =>
        car ← XCAR hare; cdr ← XCDR hare;
        copy ← Fcons car cdr;
        XSETCDR last copy;;
        last ← XCDR last;
        if len <? CIRCULAR_LIST_SUSPICION_LENGTH
        then hare ← XCDR hare; copy_list_loop n list last hare tortoise (len + 1)
        else
          tortoise ← (if Z.odd len then XCDR tortoise else mret tortoise);
          if EQ tortoise hare then signals (Qcircular_list list)
          else hare ← XCDR hare; copy_list_loop n list last hare tortoise (len + 1)
    end
  else mret tt.

Definition copy_list (list : Lisp_Object) : L Lisp_Object :=
  car ← XCAR list; cdr ← XCDR list;
  list_copy ← Fcons car cdr;
  hare ← XCDR list;
  copy_list_loop fuel list list_copy hare hare 1;;
  mret list_copy.

Definition Fcopy_list (list : Lisp_Object) : L Lisp_Object :=
  if NILP list then mret list
  else if CONSP list then copy_list list
  else wrong_type "listp" list.

Fixpoint nthcdr_loop (i : nat) (tail : Lisp_Object) : L Lisp_Object :=
  match i with
  | O => mret tail
  | Datatypes.S i =>
      if CONSP tail then tail ← XCDR tail; nthcdr_loop i tail
      else if NILP tail then mret Qnil
      else wrong_type "listp" tail
  end.

Definition Fnthcdr (n list : Lisp_Object) : L Lisp_Object :=
  i ← CHECK_NATNUM n; nthcdr_loop (Z.to_nat i) list.

Definition Fnth (n list : Lisp_Object) : L Lisp_Object := tail ← Fnthcdr n list; Fcar tail.

(** The optional count of last, nbutlast and butlast. *)
Definition count_argument (n : Lisp_Object) : L Z := if NILP n then mret 1 else CHECK_NATNUM n.

Fixpoint last_loop (n : nat) (list retval tortoise hare : Lisp_Object) (int_n count : Z)
    : L Lisp_Object :=
  if CONSP hare then
    match n with
    | O => unfinished
    | Datatypes.S n =>
        tortoise' ← (if count <? CIRCULAR_LIST_SUSPICION_LENGTH then mret (Some tortoise)
                     else
                       tortoise ← (if Z.odd count then XCDR tortoise else mret tortoise);
                       mret (if EQ hare tortoise then None else Some tortoise));
        match tortoise' with
        | None => signals (Qcircular_list list)
        | Some tortoise =>
            hare ← XCDR hare;
            retval ← (if int_n <=? 0 then XCDR retval else mret retval);
            last_loop n list retval tortoise hare (int_n - 1) (count + 1)
        end
    end
  else mret retval.

Definition Flast (list n : Lisp_Object) : L Lisp_Object :=
  CHECK_LIST list;;
  int_n ← count_argument n;
  last_loop fuel list list list list int_n 0.

Definition Fnbutlast (list n : Lisp_Object) : L Lisp_Object :=
  CHECK_LIST list;;
  int_n ← count_argument n;
  r ← EXTERNAL_LIST_LOOP (R := Empty_set) list
        (fun _ _ '(int_n, last_cons) =>
           last_cons ← (if int_n <? 0 then XCDR last_cons else mret last_cons);
           mret (inr (int_n - 1, last_cons)))
        (int_n, list);
  let '(int_n, last_cons) := ended r in
  if int_n >=? 0 then mret Qnil
  else XSETCDR last_cons Qnil;; mret list.

(** ** Reversal *)

Fixpoint nreverse_loop (n : nat) (prev tail : Lisp_Object) : L Lisp_Object :=
  if NILP tail then mret prev
  else match n with
  | O => unfinished
  | Datatypes.S n =>
      if CONSP tail then
        next ← XCDR tail;
        XSETCDR tail prev;;
        nreverse_loop n tail next
      else wrong_type "consp" tail
  end.

Definition Fnreverse (list : Lisp_Object) : L Lisp_Object := nreverse_loop fuel Qnil list.

Definition Freverse (list : Lisp_Object) : L Lisp_Object :=
  r ← EXTERNAL_LIST_LOOP (R := Empty_set) list
        (fun elt _ reversed_list => reversed_list ← Fcons elt reversed_list; mret (inr reversed_list))
        Qnil;
  mret (ended r).

Definition Fbutlast (list n : Lisp_Object) : L Lisp_Object :=
  CHECK_LIST list;;
  int_n ← count_argument n;
  r ← EXTERNAL_LIST_LOOP (R := Empty_set) list
        (fun _ _ '(int_n, retval, tail) =>
           let int_n := int_n - 1 in
           if int_n <? 0 then
             car ← XCAR tail;
             retval ← Fcons car retval;
             tail ← XCDR tail;
             mret (inr (int_n, retval, tail))
           else mret (inr (int_n, retval, tail)))
        (int_n, Qnil, list);
  let '(_, retval, _) := ended r in
  Fnreverse retval.

(** ** Search *)

(** The equal methods of records other than conses. *)
Variable equal_method : lrecord_type -> positive -> positive -> Z -> L bool.

(** [internal_equal] and [cons_equal]; [n] bounds the turns and the calls. *)
Fixpoint internal_equal_fuel (n : nat) (obj1 obj2 : Lisp_Object) (depth : Z) : L bool :=
  match n with
  | O => unfinished
  | Datatypes.S n =>
      if depth >? 200 then signals (Qerror "Stack overflow in equal")
      else if EQ obj1 obj2 then mret true
      else match obj1, obj2 with
      | LRec lrecord_cons _, LRec lrecord_cons _ => cons_equal_fuel n obj1 obj2 (depth + 1)
      | LRec t1 a1, LRec t2 a2 =>
          if bool_decide (t1 = t2) then equal_method t1 a1 a2 depth else mret false
      | _, _ => mret false
      end
  end
with cons_equal_fuel (n : nat) (ob1 ob2 : Lisp_Object) (depth : Z) : L bool :=
  match n with
  | O => unfinished
  | Datatypes.S n =>
      car1 ← XCAR ob1; car2 ← XCAR ob2;
      same ← internal_equal_fuel n car1 car2 depth;
      if (same : bool) then
        ob1 ← XCDR ob1; ob2 ← XCDR ob2;
        if negb (CONSP ob1) || negb (CONSP ob2) then internal_equal_fuel n ob1 ob2 depth
        else cons_equal_fuel n ob1 ob2 depth
      else mret false
  end.

Definition internal_equal : Lisp_Object -> Lisp_Object -> Z -> L bool := internal_equal_fuel fuel.

Definition XTYPE_same (x y : Lisp_Object) : bool :=
  match x, y with
  | LInt _, LInt _ | LChar _, LChar _ | LRec _ _, LRec _ _ => true
  | _, _ => false
  end.

Definition internal_old_equal (obj1 obj2 : Lisp_Object) (depth : Z) : L bool :=
  if depth >? 200 then signals (Qerror "Stack overflow in equal")
  else if HACKEQ_UNSAFE obj1 obj2 then mret true
  else if negb (XTYPE_same obj1 obj2) then mret false
  else internal_equal obj1 obj2 depth.

Definition Fequal (object1 object2 : Lisp_Object) : L Lisp_Object :=
  b ← internal_equal object1 object2 0; mret (if (b : bool) then Qt else Qnil).
Definition Fold_equal (object1 object2 : Lisp_Object) : L Lisp_Object :=
  b ← internal_old_equal object1 object2 0; mret (if (b : bool) then Qt else Qnil).

(** The tail whose car passes the test. *)
Definition member_loop (test : Lisp_Object -> L bool) (list : Lisp_Object) : L Lisp_Object :=
  r ← EXTERNAL_LIST_LOOP list
        (fun list_elt tail _ =>
           b ← test list_elt; mret (if (b : bool) then inl tail else inr tt)) tt;
  mret match r with inl tail => tail | inr _ => Qnil end.

Definition Fmember (elt list : Lisp_Object) := member_loop (fun x => internal_equal elt x 0) list.
Definition Fold_member (elt list : Lisp_Object) := member_loop (fun x => internal_old_equal elt x 0) list.
Definition Fmemq (elt list : Lisp_Object) := member_loop (fun x => mret (EQ elt x)) list.
Definition Fold_memq (elt list : Lisp_Object) := member_loop (fun x => mret (HACKEQ_UNSAFE elt x)) list.

Definition memq_no_quit (elt list : Lisp_Object) : L Lisp_Object :=
  r ← list_loop (fun list_elt tail _ => mret (if EQ elt list_elt then inl tail else inr tt)) fuel list tt;
  mret match r with inl tail => tail | inr _ => Qnil end.

(** The first element that is a cons and passes the test of its car and cdr
    ([EXTERNAL_ALIST_LOOP_4]). *)
Definition assoc_loop (test : Lisp_Object -> Lisp_Object -> L bool) (alist : Lisp_Object)
    : L Lisp_Object :=
  r ← EXTERNAL_LIST_LOOP alist
        (fun elt _ _ =>
           if CONSP elt then
             elt_car ← XCAR elt; elt_cdr ← XCDR elt;
             b ← test elt_car elt_cdr; mret (if (b : bool) then inl elt else inr tt)
           else mret (inr tt)) tt;
  mret match r with inl elt => elt | inr _ => Qnil end.

Definition Fassoc (key alist : Lisp_Object) := assoc_loop (fun car _ => internal_equal key car 0) alist.
Definition Fold_assoc (key alist : Lisp_Object) := assoc_loop (fun car _ => internal_old_equal key car 0) alist.
Definition Fassq (key alist : Lisp_Object) := assoc_loop (fun car _ => mret (EQ key car)) alist.
Definition Fold_assq (key alist : Lisp_Object) := assoc_loop (fun car _ => mret (HACKEQ_UNSAFE key car)) alist.
Definition Frassoc (value alist : Lisp_Object) := assoc_loop (fun _ cdr => internal_equal value cdr 0) alist.
Definition Fold_rassoc (value alist : Lisp_Object) := assoc_loop (fun _ cdr => internal_old_equal value cdr 0) alist.
Definition Frassq (value alist : Lisp_Object) := assoc_loop (fun _ cdr => mret (EQ value cdr)) alist.
Definition Fold_rassq (value alist : Lisp_Object) := assoc_loop (fun _ cdr => mret (HACKEQ_UNSAFE value cdr)) alist.

Definition assq_no_quit (key alist : Lisp_Object) : L Lisp_Object :=
  r ← list_loop (fun elt _ _ => elt_car ← XCAR elt; mret (if EQ key elt_car then inl elt else inr tt))
        fuel alist tt;
  mret match r with inl elt => elt | inr _ => Qnil end.

Definition rassq_no_quit (value alist : Lisp_Object) : L Lisp_Object :=
  r ← list_loop (fun elt _ _ => elt_cdr ← XCDR elt; mret (if EQ value elt_cdr then inl elt else inr tt))
        fuel alist tt;
  mret match r with inl elt => elt | inr _ => Qnil end.

(** ** Deletion *)

(** The body of [EXTERNAL_LIST_LOOP_DELETE_IF]; the variables are the list and the last
    cons that was kept. *)
Definition delete_body (condition : Lisp_Object -> L bool) (len : Z) (elt tail : Lisp_Object)
    (s : Lisp_Object * Lisp_Object) : L (Empty_set + (Lisp_Object * Lisp_Object) * Z) :=
  let '(list, prev_tail) := s in
  b ← condition elt;
  if (b : bool) then
    if NILP prev_tail then
      list ← XCDR tail; mret (inr (list, prev_tail, 0))
    else
      next ← XCDR tail; XSETCDR prev_tail next;; mret (inr (list, prev_tail, 0))
  else mret (inr (list, tail, len)).

Definition EXTERNAL_LIST_LOOP_DELETE_IF (condition : Lisp_Object -> L bool) (list : Lisp_Object)
    : L Lisp_Object :=
  r ← external_list_loop fst (delete_body condition) fuel 0 list list (list, Qnil);
  mret (ended r).1.1.

(** [LIST_LOOP_DELETE_IF]: the same body, with no count. *)
Definition LIST_LOOP_DELETE_IF (condition : Lisp_Object -> L bool) (list : Lisp_Object)
    : L Lisp_Object :=
  r ← list_loop (R := Empty_set)
        (fun elt tail s => r ← delete_body condition 0 elt tail s; mret (inr (ended r).1))
        fuel list (list, Qnil);
  mret (ended r).1.

Definition Fdelete (elt list : Lisp_Object) :=
  EXTERNAL_LIST_LOOP_DELETE_IF (fun x => internal_equal elt x 0) list.
Definition Fold_delete (elt list : Lisp_Object) :=
  EXTERNAL_LIST_LOOP_DELETE_IF (fun x => internal_old_equal elt x 0) list.
Definition Fdelq (elt list : Lisp_Object) := EXTERNAL_LIST_LOOP_DELETE_IF (fun x => mret (EQ elt x)) list.
Definition Fold_delq (elt list : Lisp_Object) :=
  EXTERNAL_LIST_LOOP_DELETE_IF (fun x => mret (HACKEQ_UNSAFE elt x)) list.
Definition delq_no_quit (elt list : Lisp_Object) := LIST_LOOP_DELETE_IF (fun x => mret (EQ elt x)) list.

Fixpoint delq_and_free_loop (n : nat) (elt list tail prev : Lisp_Object) : L Lisp_Object :=
  if NILP tail then mret list
  else match n with
  | O => unfinished
  | Datatypes.S n =>
      tem ← XCAR tail;
      if EQ elt tem then
        let cons_to_free := tail in
        list ← (if NILP prev then XCDR tail
                else next ← XCDR tail; XSETCDR prev next;; mret list);
        tail ← XCDR tail;
        free_cons cons_to_free;;
        delq_and_free_loop n elt list tail prev
      else
        let prev := tail in
        tail ← XCDR tail;
        delq_and_free_loop n elt list tail prev
  end.

Definition delq_no_quit_and_free_cons (elt list : Lisp_Object) : L Lisp_Object :=
  delq_and_free_loop fuel elt list list Qnil.

(** The conditions on elements that are conses. *)
Definition on_car (test : Lisp_Object -> L bool) (elt : Lisp_Object) : L bool :=
  if CONSP elt then car ← XCAR elt; test car else mret false.
Definition on_cdr (test : Lisp_Object -> L bool) (elt : Lisp_Object) : L bool :=
  if CONSP elt then cdr ← XCDR elt; test cdr else mret false.

Definition Fremassoc (key alist : Lisp_Object) :=
  EXTERNAL_LIST_LOOP_DELETE_IF (on_car (fun x => internal_equal key x 0)) alist.
Definition Fremassq (key alist : Lisp_Object) :=
  EXTERNAL_LIST_LOOP_DELETE_IF (on_car (fun x => mret (EQ key x))) alist.
Definition Fremrassoc (value alist : Lisp_Object) :=
  EXTERNAL_LIST_LOOP_DELETE_IF (on_cdr (fun x => internal_equal value x 0)) alist.
Definition Fremrassq (value alist : Lisp_Object) :=
  EXTERNAL_LIST_LOOP_DELETE_IF (on_cdr (fun x => mret (EQ value x))) alist.
Definition remassq_no_quit (key alist : Lisp_Object) :=
  LIST_LOOP_DELETE_IF (on_car (fun x => mret (EQ key x))) alist.
Definition remrassq_no_quit (value alist : Lisp_Object) :=
  LIST_LOOP_DELETE_IF (on_cdr (fun x => mret (EQ value x))) alist.

(** ** Sorting *)

Section Sorting.
(** The predicate, with the argument it is called with, of C: negative for false. *)
Variable pred_fn : Lisp_Object -> Lisp_Object -> L Z.
Variables string_length vector_length bit_vector_length : positive -> Z.

Fixpoint list_merge_loop (n : nat) (l1 l2 tail value : Lisp_Object) : L Lisp_Object :=
  if NILP l1 then
    if NILP tail then mret l2 else Fsetcdr tail l2;; mret value
  else if NILP l2 then
    if NILP tail then mret l1 else Fsetcdr tail l1;; mret value
  else match n with
  | O => unfinished
  | Datatypes.S n =>
      car2 ← Fcar l2; car1 ← Fcar l1;
      less ← pred_fn car2 car1;
      '(tem, l1, l2) ←
        (if less <? 0 then next ← Fcdr l1; mret (l1, next, l2)
         else next ← Fcdr l2; mret (l2, l1, next));
      value ← (if NILP tail then mret tem else Fsetcdr tail tem;; mret value);
      list_merge_loop n l1 l2 tem value
  end.

Definition list_merge (org_l1 org_l2 : Lisp_Object) : L Lisp_Object :=
  list_merge_loop fuel org_l1 org_l2 Qnil Qnil.

Fixpoint list_sort (n : nat) (list : Lisp_Object) : L Lisp_Object :=
  match n with
  | O => unfinished
  | Datatypes.S n =>
      len ← Flength string_length vector_length bit_vector_length list;
      if len <? 2 then mret list
      else
        tem ← Fnthcdr (LInt (len / 2 - 1)) list;
        back ← Fcdr tem;
        Fsetcdr tem Qnil;;
        front ← list_sort n list;
        back ← list_sort n back;
        list_merge front back
  end.
End Sorting.

(** [merge_pred_function] with the Lisp predicate called by [call2]. *)
Definition merge_pred_function (call2 : Lisp_Object -> Lisp_Object -> L Lisp_Object)
    (obj1 obj2 : Lisp_Object) : L Z :=
  tmp ← call2 obj1 obj2; mret (if NILP tmp then -1 else 1).

Definition Fsort string_length vector_length bit_vector_length
    (call2 : Lisp_Object -> Lisp_Object -> L Lisp_Object) (list : Lisp_Object) : L Lisp_Object :=
  list_sort (merge_pred_function call2) string_length vector_length bit_vector_length fuel list.

(** ** Concatenation in place *)

(** To the last cons of a list. *)
Fixpoint last_cons_loop (n : nat) (list hare tortoise : Lisp_Object) (count : Z)
    : L (Lisp_Object * Lisp_Object) :=
  next ← XCDR hare;
  if CONSP next then
    match n with
    | O => unfinished
    | Datatypes.S n =>
        if count <? CIRCULAR_LIST_SUSPICION_LENGTH
        then hare ← XCDR hare; last_cons_loop n list hare tortoise (count + 1)
        else
          tortoise ← (if Z.odd count then XCDR tortoise else mret tortoise);
          if EQ hare tortoise then signals (Qcircular_list list)
          else hare ← XCDR hare; last_cons_loop n list hare tortoise (count + 1)
    end
  else mret (hare, tortoise).

(** The error has its arguments exchanged, as in the source. *)
Definition bytecode_nconc2 (arg0 arg1 : Lisp_Object) : L Lisp_Object :=
  if CONSP arg0 then
    '(hare, _) ← last_cons_loop fuel arg0 arg0 arg0 0;
    XSETCDR hare arg1;; mret arg0
  else if NILP arg0 then mret arg1
  else signals (Qwrong_type_objects arg0 Qlistp).

(** [Fnconc]: the arguments after the first cons, [arg] being the one before. *)
Fixpoint nconc_rest (args : list Lisp_Object) (arg val last_cons tortoise : Lisp_Object) : L Lisp_Object :=
  match args with
  | [] => mret val
  | next :: args =>
      if CONSP next || bool_decide (args = []) then
        '(last_cons, tortoise) ← last_cons_loop fuel arg last_cons tortoise 0;
        XSETCDR last_cons next;;
        nconc_rest args next val last_cons tortoise
      else if NILP next then nconc_rest args next val last_cons tortoise
      else wrong_type "listp" next
  end.

Fixpoint Fnconc (args : list Lisp_Object) : L Lisp_Object :=
  match args with
  | [] => mret Qnil
  | val :: args =>
      if CONSP val then nconc_rest args val val val val
      else if NILP val then Fnconc args
      else if bool_decide (args = []) then mret val
      else wrong_type "listp" val
  end.

(** ** Association lists as property lists *)

Fixpoint alist_to_plist_loop (n : nat) (alist : Lisp_Object) : L unit :=
  if NILP alist then mret tt
  else match n with
  | O => unfinished
  | Datatypes.S n =>
      el ← Fcar alist;
      car ← Fcar el; Fsetcar alist car;;
      cdr ← Fcdr el; Fsetcar el cdr;;
      rest ← Fcdr alist; Fsetcdr el rest;;
      Fsetcdr alist el;;
      next ← Fcdr alist; alist ← Fcdr next;
      alist_to_plist_loop n alist
  end.

Definition Fdestructive_alist_to_plist (alist : Lisp_Object) : L Lisp_Object :=
  alist_to_plist_loop fuel alist;; mret alist.
End Lists.
