(* ===== verification/ListTheory.v ===== *)
(** * Lists in memory

    What an object is as a list in a heap: a chain of conses that ends in an atom, or one
    without end; and what the traversals of [Lists] make of it. *)

From S2P Require Import Prelude Lisp Lists.

(** ** Chains of conses *)

(** From [x] along the cdrs of the conses [cs] to [y]. *)
Fixpoint chain (h : heap) (x : Lisp_Object) (cs : list positive) (y : Lisp_Object) : Prop :=
  match cs with
  | [] => x = y
  | a :: cs => x = LRec lrecord_cons a /\ exists c, h !! a = Some c /\ chain h c.2 cs y
  end.

Definition car_at (h : heap) (a : positive) : Lisp_Object := (default (Qnil, Qnil) (h !! a)).1.
Definition cars (h : heap) (cs : list positive) : list Lisp_Object := map (car_at h) cs.

Lemma car_at_Some h a c : h !! a = Some c -> car_at h a = c.1.
Proof. unfold car_at. by intros ->. Qed.

(** A list with these elements; one that ends in an atom other than nil; one without end. *)
Definition proper (h : heap) (x : Lisp_Object) (cs : list positive) : Prop := chain h x cs Qnil.
Definition dotted (h : heap) (x : Lisp_Object) (cs : list positive) : Prop :=
  exists y, chain h x cs y /\ CONSP y = false /\ y <> Qnil.
Definition next (h : heap) (x : Lisp_Object) : Lisp_Object :=
  match x with LRec lrecord_cons a => default Qnil (snd <$> h !! a) | _ => Qnil end.
Fixpoint nthcdr (h : heap) (k : nat) (x : Lisp_Object) : Lisp_Object :=
  match k with O => x | S k => nthcdr h k (next h x) end.
Definition endless (h : heap) (x : Lisp_Object) : Prop :=
  forall k, exists a, nthcdr h k x = LRec lrecord_cons a /\ is_Some (h !! a).

(** Pointers to conses lead to conses. *)
Definition valid (h : heap) (x : Lisp_Object) : Prop :=
  match x with LRec lrecord_cons a => is_Some (h !! a) | _ => True end.
Definition heap_ok (h : heap) : Prop :=
  forall a c, h !! a = Some c -> valid h c.1 /\ valid h c.2.

Lemma CONSP_true x : CONSP x = true -> exists a, x = LRec lrecord_cons a.
Proof.
  unfold CONSP, RECORDP. destruct x as [| | t a]; try done. intros ->%bool_decide_eq_true. eauto.
Qed.

Lemma CONSP_cons a : CONSP (LRec lrecord_cons a) = true.
Proof. done. Qed.

Lemma NILP_nil x : NILP x = true <-> x = Qnil.
Proof. apply EQ_true. Qed.

Lemma NILP_false x : x <> Qnil -> NILP x = false.
Proof. intros. by apply EQ_false. Qed.

Lemma EQ_sym x y : EQ x y = EQ y x.
Proof. unfold EQ. apply bool_decide_ext. split; congruence. Qed.

Section Chains.
Implicit Types (h : heap) (x y z : Lisp_Object) (cs : list positive).

Lemma chain_app h x cs1 cs2 z :
  chain h x (cs1 ++ cs2) z <-> exists y, chain h x cs1 y /\ chain h y cs2 z.
Proof.
  revert x. induction cs1 as [| a cs1 IH]; intros x; cbn [app chain].
  - split; [by exists x | by intros (? & -> & ?)].
  - setoid_rewrite IH. naive_solver.
Qed.

Lemma chain_det h x cs y cs' y' :
  chain h x cs y -> chain h x cs' y' -> CONSP y = false -> CONSP y' = false -> cs = cs' /\ y = y'.
Proof.
  revert x cs'. induction cs as [| a cs IH]; intros x [| a' cs']; cbn [chain].
  - by intros -> ->.
  - intros -> (-> & _). done.
  - intros (-> & _) <-. done.
  - intros (-> & c & Hc & H1) ([= ->] & c' & Hc' & H2) Hy Hy'. rewrite Hc in Hc'. injection Hc' as <-.
    destruct (IH _ _ H1 H2) as [-> ->]; done.
Qed.

Lemma chain_from h x cs1 a cs2 y :
  chain h x (cs1 ++ a :: cs2) y -> chain h (LRec lrecord_cons a) (a :: cs2) y.
Proof. intros (z & _ & H)%chain_app. pose proof H as [-> _]. done. Qed.

Lemma chain_live h x cs y a : chain h x cs y -> a ∈ cs -> is_Some (h !! a).
Proof.
  intros Hc (l1 & l2 & ->)%list_elem_of_split. apply chain_from in Hc as (_ & c & -> & _). done.
Qed.

(** A chain that ends does not come back. *)
Lemma chain_NoDup h x cs y : chain h x cs y -> CONSP y = false -> NoDup cs.
Proof.
  revert x. induction cs as [| a cs IH]; intros x Hc Hy; [constructor |]. constructor.
  - intros (l1 & l2 & ->)%list_elem_of_split.
    pose proof (chain_from h x [] a (l1 ++ a :: l2) y Hc) as H1.
    pose proof (chain_from h x (a :: l1) a l2 y Hc) as H2.
    destruct (chain_det _ _ _ _ _ _ H1 H2 Hy Hy) as [E _]. apply (f_equal length) in E.
    cbn in E. rewrite length_app in E. cbn in E. lia.
  - destruct Hc as (_ & c & _ & Hc). by eapply IH.
Qed.

Lemma chain_agree h h' x cs y :
  (forall a, a ∈ cs -> h' !! a = h !! a) -> chain h x cs y -> chain h' x cs y.
Proof.
  revert x. induction cs as [| a cs IH]; intros x He; cbn [chain]; [done |].
  intros (-> & c & Hc & H). split; [done |]. exists c. rewrite He by set_solver. split; [done |].
  apply IH; [| done]. intros b Hb. apply He. set_solver.
Qed.

(** The same but for the cars. *)
Lemma chain_cdrs h h' x cs y :
  (forall a, a ∈ cs -> snd <$> h' !! a = snd <$> h !! a) -> chain h x cs y -> chain h' x cs y.
Proof.
  revert x. induction cs as [| a cs IH]; intros x He; cbn [chain]; [done |].
  intros (-> & c & Hc & H). split; [done |]. pose proof (He a ltac:(set_solver)) as Ea.
  rewrite Hc in Ea. destruct (h' !! a) as [c' |] eqn:Ec'; [| done]. exists c'. split; [done |].
  injection Ea as Ea. rewrite Ea. apply IH; [| done]. intros b Hb. apply He. set_solver.
Qed.

Lemma chain_subset h x cs y : chain h x cs y -> forall a, a ∈ cs -> a ∈ dom h.
Proof. intros Hc a Ha. apply elem_of_dom. by eapply chain_live. Qed.

(** No longer than the heap. *)
Lemma NoDup_size h cs : NoDup cs -> (forall a, a ∈ cs -> a ∈ dom h) -> (length cs <= size h)%nat.
Proof.
  intros Hn Hs. rewrite <- (size_dom (D := gset positive) h). rewrite <- (size_list_to_set (C := gset positive) cs) by done.
  apply subseteq_size. intros a Ha%elem_of_list_to_set. by apply Hs.
Qed.

Lemma chain_fits h x cs y : chain h x cs y -> CONSP y = false -> (length cs <= size h)%nat.
Proof.
  intros Hc Hy. apply NoDup_size; [by eapply chain_NoDup | by eapply chain_subset].
Qed.

Lemma chain_valid h x cs y : heap_ok h -> valid h x -> chain h x cs y -> valid h y.
Proof.
  intros Hh. revert x. induction cs as [| a cs IH]; intros x Hx; cbn [chain]; [by intros <- |].
  intros (-> & c & Hc & H). eapply IH; [| done]. by eapply Hh.
Qed.
End Chains.

(** ** Following the cdrs *)

Section Cdrs.
Implicit Types (h : heap) (x y : Lisp_Object) (cs : list positive).

Lemma nthcdr_add h j k x : nthcdr h (j + k) x = nthcdr h k (nthcdr h j x).
Proof. revert x. induction j as [| j IH]; intros x; [done | apply IH]. Qed.

Lemma nthcdr_S h k x : nthcdr h (S k) x = next h (nthcdr h k x).
Proof. rewrite <- Nat.add_1_r, nthcdr_add. done. Qed.

Lemma chain_nthcdr h x cs y : chain h x cs y -> nthcdr h (length cs) x = y.
Proof.
  revert x. induction cs as [| a cs IH]; intros x; cbn [chain]; [done |].
  intros (-> & c & Hc & H). cbn. rewrite Hc. by apply IH.
Qed.

Lemma chain_at h x cs y k a :
  chain h x cs y -> cs !! k = Some a -> nthcdr h k x = LRec lrecord_cons a.
Proof.
  intros Hc Hk. rewrite <- (take_drop_middle cs k a Hk) in Hc.
  apply chain_app in Hc as (z & H1 & H2). destruct H2 as [-> _].
  apply chain_nthcdr in H1. rewrite length_take_le in H1 by (apply lookup_lt_Some in Hk; lia). done.
Qed.

Lemma chain_snoc h x cs a c :
  chain h x cs (LRec lrecord_cons a) -> h !! a = Some c -> chain h x (cs ++ [a]) c.2.
Proof. intros H1 Hc. apply chain_app. eexists. split; [exact H1 |]. cbn. eauto. Qed.

(** Every number of cdrs can be taken, or the list ends before. *)
Lemma chain_or_end h x k :
  heap_ok h -> valid h x ->
  (exists cs y, chain h x cs y /\ CONSP y = false) \/
  (exists cs a, length cs = k /\ chain h x cs (LRec lrecord_cons a)).
Proof.
  intros Hh Hx. induction k as [| k [IH | (cs & a & Hl & Hc)]]; [| by left |].
  - destruct (CONSP x) eqn:E; [right | left; by exists [], x].
    apply CONSP_true in E as [a ->]. by exists [], a.
  - destruct (chain_valid _ _ _ _ Hh Hx Hc) as [c Ha].
    pose proof (chain_snoc _ _ _ _ _ Hc Ha) as Hs. destruct (CONSP c.2) eqn:E.
    + right. apply CONSP_true in E as [b E]. exists (cs ++ [a]), b. rewrite <- E.
      split; [| done]. rewrite length_app. cbn. lia.
    + left. by exists (cs ++ [a]), c.2.
Qed.

(** A list ends or it does not. *)
Lemma list_shape h x :
  heap_ok h -> valid h x -> (exists cs y, chain h x cs y /\ CONSP y = false) \/ endless h x.
Proof.
  intros Hh Hx. destruct (chain_or_end h x (S (size h)) Hh Hx) as [? | (cs & a & Hl & Hc)]; [by left | right].
  intros k. destruct (chain_or_end h x k Hh Hx) as [(cs' & y & Hc' & Hy) | (cs' & b & <- & Hc')].
  - pose proof (chain_fits _ _ _ _ Hc' Hy) as Hs.
    destruct (lookup_lt_is_Some_2 cs (length cs')) as [b Hb]; [lia |].
    pose proof (chain_at _ _ _ _ _ _ Hc Hb) as E. rewrite (chain_nthcdr _ _ _ _ Hc') in E. by subst.
  - exists b. split; [by apply chain_nthcdr |]. apply (chain_valid _ _ _ _ Hh Hx Hc').
Qed.

Lemma endless_no_end h x cs y : endless h x -> chain h x cs y -> CONSP y = true.
Proof.
  intros He Hc. destruct (He (length cs)) as (a & E & _). rewrite (chain_nthcdr _ _ _ _ Hc) in E. by subst.
Qed.

(** *** The tortoise and the hare *)

(** Where the tortoise is when the hare has taken [t] steps. *)
Definition tortoise_at (t : nat) : nat := ((t - 1023) / 2)%nat.

Lemma duplicate_exists (l : list positive) :
  ~ NoDup l -> exists i j a, (i < j)%nat /\ l !! i = Some a /\ l !! j = Some a.
Proof.
  induction l as [| b l IH]; intros Hn; [by destruct Hn; constructor |].
  destruct (decide (b ∈ l)) as [[j Hj]%list_elem_of_lookup | Hb].
  - exists 0%nat, (S j), b. split_and!; [lia | done..].
  - destruct IH as (i & j & a & ? & ? & ?); [intros ?; apply Hn; by constructor |].
    exists (S i), (S j), a. split_and!; [lia | done..].
Qed.

(** An endless list comes back to a cons within as many steps as there are conses. *)
Lemma endless_cycle h x :
  endless h x -> exists mu lambda, (0 < lambda)%nat /\ (mu + lambda <= size h)%nat /\
    nthcdr h (mu + lambda) x = nthcdr h mu x.
Proof.
  intros He.
  assert (forall n, exists l, length l = n /\ forall k a, l !! k = Some a ->
    nthcdr h k x = LRec lrecord_cons a /\ is_Some (h !! a)) as Hl.
  { induction n as [| n (l & Hl & IH)]; [by exists [] |]. destruct (He n) as (a & E & Ha).
    exists (l ++ [a]). split; [rewrite length_app; cbn; lia |]. intros k b Hk.
    apply lookup_app_Some in Hk as [? | [Hk Hb]]; [by apply IH |].
    apply list_lookup_singleton_Some in Hb as [? <-]. replace k with n by lia. done. }
  destruct (Hl (S (size h))) as (l & Hn & Hat). destruct (decide (NoDup l)) as [Hd | Hd].
  - pose proof (NoDup_size h l Hd) as Hs. rewrite Hn in Hs. exfalso. enough (S (size h) <= size h)%nat by lia.
    apply Hs. intros a [k Hk]%list_elem_of_lookup. apply elem_of_dom. by eapply Hat.
  - destruct (duplicate_exists l Hd) as (i & j & a & Hij & Hi & Hj). exists i, (j - i)%nat.
    pose proof (lookup_lt_Some _ _ _ Hj). split_and!; [lia | lia |].
    replace (i + (j - i))%nat with j by lia. by rewrite (proj1 (Hat _ _ Hi)), (proj1 (Hat _ _ Hj)).
Qed.

Lemma cycle_repeats h x mu lambda k m :
  nthcdr h (mu + lambda) x = nthcdr h mu x -> (mu <= k)%nat ->
  nthcdr h (k + m * lambda) x = nthcdr h k x.
Proof.
  intros E Hk. induction m as [| m IH]; [by rewrite Nat.add_0_r |].
  replace (k + S m * lambda)%nat with (mu + lambda + (k - mu + m * lambda))%nat by lia.
  rewrite nthcdr_add, E, <- nthcdr_add. rewrite <- IH. f_equal. lia.
Qed.

(** So the hare meets the tortoise, soon after it has got suspicious. *)
Lemma endless_meet h x :
  endless h x -> exists t, (1024 < t <= 1024 + 2 * size h)%nat /\
    nthcdr h t x = nthcdr h (tortoise_at t) x.
Proof.
  intros He. destruct (endless_cycle h x He) as (mu & lambda & Hl & Hs & E).
  pose (r := ((1023 + (mu + 1)) mod lambda)%nat).
  pose proof (Nat.mod_upper_bound (1023 + (mu + 1)) lambda ltac:(lia)) as Hr. fold r in Hr.
  pose proof (Nat.div_mod (1023 + (mu + 1)) lambda ltac:(lia)) as Hdm. fold r in Hdm.
  set (q := ((1023 + (mu + 1)) / lambda)%nat) in *.
  (* [m] is the first from [mu + 1] on with [1023 + m] a multiple of [lambda] *)
  assert (exists m e, (mu + 1 <= m /\ m <= mu + lambda /\ 1023 + m = e * lambda)%nat) as (m & e & H1 & H2 & H3).
  { destruct (decide (r = 0)%nat) as [Hz | Hz].
    - exists (mu + 1)%nat, q. split_and!; lia.
    - exists (mu + 1 + (lambda - r))%nat, (S q). split_and!; lia. }
  exists (1023 + 2 * m)%nat. split; [lia |].
  assert (tortoise_at (1023 + 2 * m) = m) as ->.
  { unfold tortoise_at. replace (1023 + 2 * m - 1023)%nat with (m * 2)%nat by lia. by apply Nat.div_mul. }
  replace (1023 + 2 * m)%nat with (m + e * lambda)%nat by lia. apply (cycle_repeats h x mu); [done | lia].
Qed.

(** When they have met, the hare has been everywhere. *)
Lemma met_everywhere h x t p j :
  nthcdr h t x = nthcdr h p x -> (p < t)%nat -> exists i, (i < t)%nat /\ nthcdr h j x = nthcdr h i x.
Proof.
  intros E Hp. induction j as [j IH] using (well_founded_induction lt_wf).
  destruct (decide (j < t)%nat); [by exists j |].
  destruct (IH (p + (j - t))%nat ltac:(lia)) as (i & Hi & Ei). exists i. split; [done |].
  rewrite <- Ei. replace j with (t + (j - t))%nat at 1 by lia. by rewrite !nthcdr_add, E.
Qed.

(** A list that ends does not come back. *)
Lemma chain_no_repeat h x cs y p q :
  chain h x cs y -> CONSP y = false -> (p < q)%nat -> (q <= length cs)%nat -> nthcdr h q x <> nthcdr h p x.
Proof.
  intros Hc Hy Hpq Hq E.
  assert (forall k, (k <= length cs)%nat -> chain h (nthcdr h k x) (drop k cs) y) as Hd.
  { intros k Hk. rewrite <- (take_drop k cs) in Hc. apply chain_app in Hc as (z & H1 & H2).
    apply chain_nthcdr in H1. rewrite length_take_le in H1 by done. by rewrite H1. }
  pose proof (Hd q Hq) as H1. pose proof (Hd p ltac:(lia)) as H2. rewrite E in H1.
  destruct (chain_det _ _ _ _ _ _ H1 H2 Hy Hy) as [El _]. apply (f_equal length) in El.
  rewrite !length_drop in El. lia.
Qed.

Lemma chain_never_meet h x cs y t :
  chain h x cs y -> CONSP y = false -> (t <= length cs)%nat -> (0 < t)%nat ->
  nthcdr h t x <> nthcdr h (tortoise_at t) x.
Proof.
  intros Hc Hy Ht H0. apply (chain_no_repeat h x cs y); [done.. | | done].
  unfold tortoise_at. pose proof (Nat.div_le_upper_bound (t - 1023) 2 (t - 1)) as Hd. lia.
Qed.

(** As many cdrs as there are conses. *)
Lemma chain_conses h x cs y k :
  chain h x cs y -> CONSP y = false -> (forall j, (j < k)%nat -> CONSP (nthcdr h j x) = true) ->
  (k <= length cs)%nat.
Proof.
  intros Hc Hy Hk. destruct (decide (k <= length cs)%nat); [done |].
  pose proof (Hk (length cs) ltac:(lia)) as Hx. rewrite (chain_nthcdr _ _ _ _ Hc) in Hx. congruence.
Qed.
End Cdrs.

(** ** Reasoning about code on lists *)

Section Lwp.
Context {A B : Type}.

(** Code that returns or signals; it touches only conses that are there, and ends. *)
Definition lwp {A} (m : L A) (Q : A -> heap -> Prop) (E : lisp_error -> heap -> Prop) (h : heap) : Prop :=
  match m h with
  | (Returns a, h') => Q a h'
  | (Signals e, h') => E e h'
  | _ => False
  end.

Lemma lwp_ret (a : A) Q E h : Q a h -> lwp (mret a) Q E h.
Proof. done. Qed.

Lemma lwp_signals (e : lisp_error) (Q : A -> heap -> Prop) E h : E e h -> lwp (signals e) Q E h.
Proof. done. Qed.

Lemma lwp_bind (m : L A) (k : A -> L B) Q E h :
  lwp m (fun a h' => lwp (k a) Q E h') E h -> lwp (m ≫= k) Q E h.
Proof. unfold lwp, mbind, L_bind. by destruct (m h) as [[] ?]. Qed.

Lemma lwp_mono (m : L A) (Q Q' : A -> heap -> Prop) (E E' : lisp_error -> heap -> Prop) h :
  lwp m Q E h -> (forall a h', Q a h' -> Q' a h') -> (forall e h', E e h' -> E' e h') -> lwp m Q' E' h.
Proof. unfold lwp. destruct (m h) as [[] ?]; auto. Qed.

Lemma lwp_eq (m : L A) a h h' (Q : A -> heap -> Prop) E : m h = (Returns a, h') -> Q a h' -> lwp m Q E h.
Proof. unfold lwp. by intros ->. Qed.
End Lwp.

Lemma XCAR_run h a c : h !! a = Some c -> XCAR (LRec lrecord_cons a) h = (Returns c.1, h).
Proof. intros Ha. unfold XCAR, XCONS, mbind, L_bind. by rewrite Ha. Qed.

Lemma XCDR_run h a c : h !! a = Some c -> XCDR (LRec lrecord_cons a) h = (Returns c.2, h).
Proof. intros Ha. unfold XCDR, XCONS, mbind, L_bind. by rewrite Ha. Qed.

Lemma XSETCDR_run h a c v :
  h !! a = Some c -> XSETCDR (LRec lrecord_cons a) v h = (Returns tt, <[a := (c.1, v)]> h).
Proof. intros Ha. unfold XSETCDR, XCONS, set_cons, mbind, L_bind. by rewrite Ha. Qed.

Lemma Fcar_cons h a c : h !! a = Some c -> Fcar (LRec lrecord_cons a) h = (Returns c.1, h).
Proof. intros Ha. unfold Fcar. rewrite CONSP_cons. by apply XCAR_run. Qed.

Lemma Fcdr_cons h a c : h !! a = Some c -> Fcdr (LRec lrecord_cons a) h = (Returns c.2, h).
Proof. intros Ha. unfold Fcdr. rewrite CONSP_cons. by apply XCDR_run. Qed.

Lemma Fsetcdr_cons h a c v :
  h !! a = Some c -> Fsetcdr (LRec lrecord_cons a) v h = (Returns v, <[a := (c.1, v)]> h).
Proof.
  intros Ha. unfold Fsetcdr. rewrite CONSP_cons.
  unfold mbind, L_bind. by rewrite (XSETCDR_run _ _ _ _ Ha).
Qed.

Section Accesses.
Context {B : Type}.
Implicit Types (k : Lisp_Object -> L B).

Lemma lwp_XCAR a c k Q E h :
  h !! a = Some c -> lwp (k c.1) Q E h -> lwp (XCAR (LRec lrecord_cons a) ≫= k) Q E h.
Proof.
  intros Ha Hk. apply lwp_bind. unfold XCAR, XCONS, lwp, mbind, L_bind. rewrite Ha. exact Hk.
Qed.

Lemma lwp_XCDR a c k Q E h :
  h !! a = Some c -> lwp (k c.2) Q E h -> lwp (XCDR (LRec lrecord_cons a) ≫= k) Q E h.
Proof.
  intros Ha Hk. apply lwp_bind. unfold XCDR, XCONS, lwp, mbind, L_bind. rewrite Ha. exact Hk.
Qed.

Lemma lwp_XSETCDR a c v (m : L B) Q E h :
  h !! a = Some c -> lwp m Q E (<[a := (c.1, v)]> h) -> lwp (XSETCDR (LRec lrecord_cons a) v;; m) Q E h.
Proof.
  intros Ha Hm. apply lwp_bind. unfold XSETCDR, XCONS, set_cons, lwp, mbind, L_bind. rewrite Ha. exact Hm.
Qed.

Lemma lwp_XSETCAR a c v (m : L B) Q E h :
  h !! a = Some c -> lwp m Q E (<[a := (v, c.2)]> h) -> lwp (XSETCAR (LRec lrecord_cons a) v;; m) Q E h.
Proof.
  intros Ha Hm. apply lwp_bind. unfold XSETCAR, XCONS, set_cons, lwp, mbind, L_bind. rewrite Ha. exact Hm.
Qed.

Lemma lwp_Fcons car cdr k Q E h :
  (forall a, h !! a = None -> lwp (k (LRec lrecord_cons a)) Q E (<[a := (car, cdr)]> h)) ->
  lwp (Fcons car cdr ≫= k) Q E h.
Proof.
  intros Hk. apply lwp_bind. apply Hk. apply not_elem_of_dom, is_fresh.
Qed.
End Accesses.

(** ** The loop over lists of any kind *)

(** The object that [k] steps lead to. *)
Definition place (cs : list positive) (y : Lisp_Object) (k : nat) : Lisp_Object :=
  match cs !! k with Some a => LRec lrecord_cons a | None => y end.

Lemma place_nthcdr h x cs y k : chain h x cs y -> (k <= length cs)%nat -> nthcdr h k x = place cs y k.
Proof.
  intros Hc Hk. unfold place. destruct (cs !! k) as [a |] eqn:Ha; [by eapply chain_at |].
  apply lookup_ge_None in Ha. replace k with (length cs) by lia. by apply chain_nthcdr.
Qed.

Lemma place_0 h x cs y : chain h x cs y -> place cs y 0 = x.
Proof. intros Hc. by rewrite <- (place_nthcdr h x cs y 0 Hc) by lia. Qed.

Lemma place_next h x cs y k a c :
  chain h x cs y -> cs !! k = Some a -> h !! a = Some c -> c.2 = place cs y (S k).
Proof.
  intros Hc Ha Hac. pose proof (lookup_lt_Some _ _ _ Ha).
  rewrite <- (place_nthcdr _ _ _ _ _ Hc) by lia. rewrite nthcdr_S, (chain_at _ _ _ _ _ _ Hc Ha).
  cbn. by rewrite Hac.
Qed.

Lemma Zodd_nat n : Z.odd (Z.of_nat n) = Nat.odd n.
Proof.
  induction n as [| n IH]; [done |].
  by rewrite Nat2Z.inj_succ, Z.odd_succ, <- Z.negb_odd, IH, Nat.odd_succ, <- Nat.negb_odd.
Qed.

Lemma tortoise_at_S k :
  (1023 < k)%nat -> tortoise_at (S k) = if Nat.odd (S k) then S (tortoise_at k) else tortoise_at k.
Proof.
  intros Hk. unfold tortoise_at. destruct (Nat.odd (S k)) eqn:Eo.
  - apply Nat.odd_spec in Eo as [m Em]. replace (S k - 1023)%nat with ((m - 511) * 2)%nat by lia.
    replace (k - 1023)%nat with (1 + (m - 512) * 2)%nat by lia. rewrite Nat.div_mul, Nat.div_add by lia.
    cbn. lia.
  - assert (Nat.even (S k) = true) as Ev by (rewrite <- Nat.negb_odd; by rewrite Eo).
    apply Nat.even_spec in Ev as [m Em]. replace (S k - 1023)%nat with (1 + (m - 512) * 2)%nat by lia.
    replace (k - 1023)%nat with ((m - 512) * 2)%nat by lia. rewrite Nat.div_mul, Nat.div_add by lia. done.
Qed.

Lemma tortoise_at_low k : (k <= 1024)%nat -> tortoise_at k = 0%nat.
Proof.
  intros Hk. unfold tortoise_at. apply Nat.div_small. lia.
Qed.

Lemma tortoise_behind k : (tortoise_at k <= k - 1)%nat.
Proof. unfold tortoise_at. apply Nat.Div0.div_le_upper_bound. lia. Qed.

Section ExternalLoop.
Context {S R : Type}.
Variable whole : S -> Lisp_Object.
Variable body : Z -> Lisp_Object -> Lisp_Object -> S -> L (R + S * Z).
Abbreviation loop := (external_list_loop whole body).
Variable x : Lisp_Object.
Variable Q : R + S * Z -> heap -> Prop.
Variable E : lisp_error -> heap -> Prop.

(** One turn, whatever the list: the body, then the two steps. *)
Lemma loop_turn n len a tort s h (I : S -> Z -> heap -> Prop) :
  is_Some (h !! a) ->
  lwp (body len (car_at h a) (LRec lrecord_cons a) s)
    (fun r h' => match r with inl r => Q (inl r) h' | inr (s', len') => I s' len' h' end) E h ->
  (forall s' len' h', I s' len' h' -> exists c,
     h' !! a = Some c /\
     let len := len' + 1 in
     let tort' := if len >? CIRCULAR_LIST_SUSPICION_LENGTH
                  then if Z.odd len then next h' tort else tort else tort in
     (len >? CIRCULAR_LIST_SUSPICION_LENGTH = true ->
        Z.odd len = true -> exists b, tort = LRec lrecord_cons b /\ is_Some (h' !! b)) /\
     if (len >? CIRCULAR_LIST_SUSPICION_LENGTH) && EQ c.2 tort'
     then E (Qcircular_list (whole s')) h'
     else lwp (loop n len c.2 tort' s') Q E h') ->
  lwp (loop (Datatypes.S n) len (LRec lrecord_cons a) tort s) Q E h.
Proof.
  intros [c Hc] Hb Hi. cbn [external_list_loop]. rewrite CONSP_cons.
  eapply lwp_XCAR; [exact Hc |]. apply lwp_bind.
  unfold car_at in Hb. rewrite Hc in Hb. cbn [default] in Hb.
  eapply lwp_mono; [exact Hb | | done]. intros [r | [s' len']] h' Hr; [by apply lwp_ret |].
  destruct (Hi s' len' h' Hr) as (c' & Hc' & Ht & Hrest). cbv zeta in Ht, Hrest |- *.
  eapply lwp_XCDR; [exact Hc' |]. destruct (len' + 1 >? CIRCULAR_LIST_SUSPICION_LENGTH); [| exact Hrest].
  cbn [andb] in Hrest. destruct (Z.odd (len' + 1)).
  - destruct (Ht eq_refl eq_refl) as (b & -> & d & Hd). eapply lwp_XCDR; [exact Hd |].
    cbn [next] in Hrest. rewrite Hd in Hrest. cbn [fmap option_fmap option_map from_option default id] in Hrest.
    by destruct (EQ c'.2 d.2).
  - apply lwp_bind, lwp_ret. by destruct (EQ c'.2 tort).
Qed.

(** On a list that ends; [P k s h] holds before the element [k] is looked at. *)
Section Ends.
Variable P : nat -> S -> heap -> Prop.
Variable cs : list positive.
Variable y : Lisp_Object.
Hypothesis list_ends : CONSP y = false.
Hypothesis list_stays : forall k s h, P k s h -> chain h x cs y.
Hypothesis body_ok : forall k s h a, cs !! k = Some a -> P k s h ->
  lwp (body (Z.of_nat k) (car_at h a) (LRec lrecord_cons a) s)
    (fun r h' => match r with
                 | inl r => Q (inl r) h'
                 | inr (s', len) => len = Z.of_nat k /\ P (Datatypes.S k) s' h'
                 end) E h.
Hypothesis at_end : forall s h, P (length cs) s h ->
  if NILP y then Q (inr (s, zlen cs)) h else E (Qmalformed_list (whole s)) h.

Lemma loop_ends_from n k s h :
  P k s h -> (k <= length cs)%nat -> (length cs - k <= n)%nat ->
  lwp (loop n (Z.of_nat k) (place cs y k) (place cs y (tortoise_at k)) s) Q E h.
Proof.
  revert k s h. induction n as [| n IH]; intros k s h Hp Hk Hn; pose proof (list_stays _ _ _ Hp) as Hc;
    destruct (cs !! k) as [a |] eqn:Ha.
  1: { apply lookup_lt_Some in Ha. lia. }
  1, 3: assert (k = length cs) as -> by (apply lookup_ge_None in Ha; lia); pose proof (at_end _ _ Hp) as He;
    unfold place at 1; rewrite Ha; cbn [external_list_loop]; rewrite list_ends; by destruct (NILP y).
  pose proof (lookup_lt_Some _ _ _ Ha) as Hlt. unfold place at 1. rewrite Ha.
  apply loop_turn with (I := fun s' len' h' => len' = Z.of_nat k /\ P (Datatypes.S k) s' h').
  { eapply chain_live; [exact Hc | by eapply list_elem_of_lookup_2]. }
  { by apply body_ok. }
  intros s' len' h' [-> Hp']. pose proof (list_stays _ _ _ Hp') as Hc'.
  destruct (chain_live _ _ _ _ a Hc') as [c Hac]; [by eapply list_elem_of_lookup_2 |].
  exists c. split; [done |]. cbv zeta. rewrite (place_next _ _ _ _ _ _ _ Hc' Ha Hac).
  replace (Z.of_nat k + 1) with (Z.of_nat (Datatypes.S k)) by lia.
  pose proof (tortoise_behind k) as Hb. pose proof (tortoise_behind (Datatypes.S k)) as Hb'.
  destruct (lookup_lt_is_Some_2 cs (tortoise_at k)) as [b Hbk]; [lia |].
  destruct (chain_live _ _ _ _ b Hc') as [d Hd]; [by eapply list_elem_of_lookup_2 |].
  assert ((if Z.of_nat (Datatypes.S k) >? CIRCULAR_LIST_SUSPICION_LENGTH then
      if Z.odd (Z.of_nat (Datatypes.S k)) then next h' (place cs y (tortoise_at k))
      else place cs y (tortoise_at k)
    else place cs y (tortoise_at k)) = place cs y (tortoise_at (Datatypes.S k))) as ->.
  { unfold CIRCULAR_LIST_SUSPICION_LENGTH. destruct (Z.gtb_spec (Z.of_nat (Datatypes.S k)) 1024).
    - rewrite tortoise_at_S by lia. rewrite Zodd_nat. destruct (Nat.odd _); [| done].
      unfold place at 1. rewrite Hbk. cbn [next]. rewrite Hd. cbn. by eapply place_next.
    - by rewrite !tortoise_at_low by lia. }
  split.
  - intros _ _. exists b. unfold place. rewrite Hbk. by split; [| eexists].
  - assert (EQ (place cs y (Datatypes.S k)) (place cs y (tortoise_at (Datatypes.S k))) = false) as ->.
    { apply EQ_false. rewrite <- !(place_nthcdr _ _ _ _ _ Hc') by lia. eapply chain_never_meet; [exact Hc' | exact list_ends | lia | lia]. }
    rewrite andb_false_r. apply IH; [done | lia | lia].
Qed.

Lemma loop_ends n s h :
  P 0 s h -> (length cs <= n)%nat -> lwp (loop n 0 x x s) Q E h.
Proof.
  intros Hp Hn. pose proof (loop_ends_from n 0 s h Hp ltac:(lia) ltac:(lia)) as Hl.
  rewrite tortoise_at_low, (place_0 _ _ _ _ (list_stays _ _ _ Hp)) in Hl by lia. done.
Qed.
End Ends.

(** On a list without end, with a body that only looks. *)
Section Endless.
Variable P : nat -> S -> Prop.
Variable h : heap.
Hypothesis no_end : endless h x.
Hypothesis body_looks : forall k s a, nthcdr h k x = LRec lrecord_cons a -> P k s ->
  lwp (body (Z.of_nat k) (car_at h a) (LRec lrecord_cons a) s)
    (fun r h' => match r with
                 | inl r => Q (inl r) h'
                 | inr (s', len) => len = Z.of_nat k /\ h' = h /\ P (Datatypes.S k) s'
                 end) E h.
Hypothesis circular : forall k s, P k s -> (0 < k)%nat -> nthcdr h k x = nthcdr h (tortoise_at k) x ->
  E (Qcircular_list (whole s)) h.

Lemma loop_endless_from t n k s :
  P k s ->
  nthcdr h t x = nthcdr h (tortoise_at t) x -> (1024 < t)%nat -> (k < t)%nat -> (t - k <= n)%nat ->
  lwp (loop n (Z.of_nat k) (nthcdr h k x) (nthcdr h (tortoise_at k) x) s) Q E h.
Proof.
  intros Hp Ht H1024. revert k s Hp. induction n as [| n IH]; intros k s Hp Hk Hn; [lia |].
  destruct (no_end k) as (a & Ea & Ha). rewrite Ea.
  apply loop_turn with (I := fun s' len' h' => len' = Z.of_nat k /\ h' = h /\ P (Datatypes.S k) s');
    [done | by apply body_looks |].
  intros s' len' h' (-> & -> & Hp'). destruct Ha as [c Hc]. exists c. split; [done |]. cbv zeta.
  assert (c.2 = nthcdr h (Datatypes.S k) x) as -> by (rewrite nthcdr_S, Ea; cbn; by rewrite Hc).
  replace (Z.of_nat k + 1) with (Z.of_nat (Datatypes.S k)) by lia.
  assert ((if Z.of_nat (Datatypes.S k) >? CIRCULAR_LIST_SUSPICION_LENGTH then
      if Z.odd (Z.of_nat (Datatypes.S k)) then next h (nthcdr h (tortoise_at k) x)
      else nthcdr h (tortoise_at k) x
    else nthcdr h (tortoise_at k) x) = nthcdr h (tortoise_at (Datatypes.S k)) x) as ->.
  { unfold CIRCULAR_LIST_SUSPICION_LENGTH. destruct (Z.gtb_spec (Z.of_nat (Datatypes.S k)) 1024).
    - rewrite tortoise_at_S by lia. rewrite Zodd_nat. destruct (Nat.odd _); [| done].
      by rewrite nthcdr_S.
    - by rewrite !tortoise_at_low by lia. }
  split; [intros _ _; destruct (no_end (tortoise_at k)) as (b & ? & ?); by exists b |].
  destruct (_ && _) eqn:Eq.
  { apply andb_prop in Eq as [_ Eq%EQ_true]. by eapply circular; [exact Hp' | lia |]. }
  apply IH; [done | | lia].
  destruct (decide (Datatypes.S k = t)) as [<- | ?]; [| lia]. exfalso.
  rewrite Ht, EQ_refl, andb_true_r in Eq. unfold CIRCULAR_LIST_SUSPICION_LENGTH in Eq.
  destruct (Z.gtb_spec (Z.of_nat (Datatypes.S k)) 1024); [done | lia].
Qed.

Lemma loop_endless n s :
  P 0 s -> (1024 + 2 * size h <= n)%nat -> lwp (loop n 0 x x s) Q E h.
Proof.
  intros Hp Hn. destruct (endless_meet h x no_end) as (t & Ht & Em).
  pose proof (loop_endless_from t n 0 s Hp Em ltac:(lia) ltac:(lia) ltac:(lia)) as Hl.
  rewrite tortoise_at_low in Hl by lia. done.
Qed.
End Endless.
End ExternalLoop.
