(* ===== verification/ListSearch.v ===== *)
(** * Searching lists

    Length, membership and association on any object of the heap: a list with an
    end, a dotted list, a circular list. *)

From S2P Require Import Prelude Lisp Lists ListTheory.

(** Enough turns for any list in the heap. *)
Definition enough (h : heap) (fuel : nat) : Prop := (1024 + 2 * size h <= fuel)%nat.

Section Search.
Variable fuel : nat.
Variable h : heap.
Hypothesis fuel_enough : enough h fuel.
Hypothesis h_ok : heap_ok h.

(** What becomes of a search along a list, when [f] says what to return at an element. *)
Inductive search_spec {R} (x : Lisp_Object) (f : positive -> option R) : list_outcome (R + unit) -> Prop :=
| search_found k a r :
    nthcdr h k x = LRec lrecord_cons a -> f a = Some r ->
    (forall j b, (j < k)%nat -> nthcdr h j x = LRec lrecord_cons b -> f b = None) ->
    search_spec x f (Returns (inl r))
| search_absent cs :
    proper h x cs -> (forall a, a ∈ cs -> f a = None) -> search_spec x f (Returns (inr tt))
| search_dotted cs :
    dotted h x cs -> (forall a, a ∈ cs -> f a = None) -> search_spec x f (Signals (Qmalformed_list x))
| search_circular :
    endless h x -> (forall j b, nthcdr h j x = LRec lrecord_cons b -> f b = None) ->
    search_spec x f (Signals (Qcircular_list x)).

Lemma lwp_outcome {A} (m : L A) (P : list_outcome A -> Prop) :
  lwp m (fun a h' => h' = h /\ P (Returns a)) (fun e h' => h' = h /\ P (Signals e)) h ->
  exists o, m h = (o, h) /\ P o.
Proof. unfold lwp. destruct (m h) as [[] ?]; intros []; subst; eauto. Qed.

Lemma search_any {R} (x : Lisp_Object) (body : Lisp_Object -> Lisp_Object -> unit -> L (R + unit)) f :
  valid h x ->
  (forall k a, nthcdr h k x = LRec lrecord_cons a ->
     body (car_at h a) (LRec lrecord_cons a) tt h =
     (Returns match f a with Some r => inl r | None => inr tt end, h)) ->
  exists o, EXTERNAL_LIST_LOOP fuel x body tt h = (o, h) /\ search_spec x f o.
Proof.
  intros Hx Hbody. apply lwp_outcome. unfold EXTERNAL_LIST_LOOP. apply lwp_bind.
  pose (P := fun (k : nat) (_ : unit) => forall j b, (j < k)%nat -> nthcdr h j x = LRec lrecord_cons b -> f b = None).
  assert (forall k s a, nthcdr h k x = LRec lrecord_cons a -> P k s ->
    lwp (r ← body (car_at h a) (LRec lrecord_cons a) s;
         mret match r with inl r => inl r | inr s => inr (s, Z.of_nat k) end)
      (fun r h' => match r with
        | inl r => lwp (mret (inl r)) (fun a h' => h' = h /\ search_spec x f (Returns a))
                     (fun e h' => h' = h /\ search_spec x f (Signals e)) h'
        | inr (s', len) => len = Z.of_nat k /\ h' = h /\ P (S k) s' end)
      (fun e h' => h' = h /\ search_spec x f (Signals e)) h) as Hb.
  { intros k [] a Ea Hp. apply lwp_bind. eapply lwp_eq; [by eapply Hbody |]. apply lwp_ret.
    destruct (f a) as [r |] eqn:Ef.
    - apply lwp_ret. split; [done |]. by eapply search_found.
    - split_and!; [done.. |]. intros j b Hj Ej. destruct (decide (j = k)) as [-> |]; [congruence |].
      apply (Hp j b); [lia | done]. }
  assert (P 0%nat tt) as P0 by (intros j b Hj; lia).
  destruct (list_shape h x h_ok Hx) as [(cs & y & Hc & Hy) | He].
  - pose proof (chain_fits _ _ _ _ Hc Hy) as Hs. unfold enough in fuel_enough.
    eapply (loop_ends _ _ x _ _ (fun k s h' => h' = h /\ P k s) cs y Hy); [by intros ? ? ? [-> _] | | | done | lia].
    + intros k s h' a Hk [-> Hp]. pose proof (chain_at _ _ _ _ _ _ Hc Hk) as Ea.
      eapply lwp_mono; [by apply (Hb k s a Ea) | | done]. intros [r | [s' len]] h'; [done |].
      by intros (? & ? & ?).
    + intros [] h' [-> Hp].
      assert (forall a, a ∈ cs -> f a = None) as Hn.
      { intros a [j Hj]%list_elem_of_lookup. apply (Hp j a); [by eapply lookup_lt_Some | by eapply chain_at]. }
      destruct (NILP y) eqn:En.
      * apply NILP_nil in En as ->. apply lwp_ret. split; [done |]. by eapply search_absent.
      * split; [done |]. apply (search_dotted x f cs); [| done]. exists y. split_and!; [done.. |].
        intros ->. by rewrite (proj2 (NILP_nil Qnil) eq_refl) in En.
  - eapply (loop_endless _ _ x _ _ P h He); [intros; by apply Hb | | done | done].
    intros k [] Hp Hk0 Em. split; [done |]. apply search_circular; [done |]. intros j b Ej.
    destruct (met_everywhere h x k (tortoise_at k) j Em) as (i & Hi & Ei).
    { pose proof (tortoise_behind k). lia. }
    rewrite Ej in Ei. by apply (Hp i b).
Qed.

(** The value of a search that found nothing is nil. *)
Definition or_nil (o : list_outcome (Lisp_Object + unit)) : list_outcome Lisp_Object :=
  match o with
  | Returns (inl r) => Returns r
  | Returns (inr _) => Returns Qnil
  | Signals e => Signals e
  | Crashes => Crashes
  | Unfinished => Unfinished
  end.

Lemma or_nil_run m o :
  m h = (o, h) ->
  (r ← m; mret match r with inl tail => tail | inr _ => Qnil end : L Lisp_Object) h = (or_nil o, h).
Proof. intros E. unfold mbind, L_bind. rewrite E. by destruct o as [[] | | |]. Qed.

(** What an element of the list gives: its tail, when its car passes a test; itself, when
    it is a cons and passes. *)
Definition tail_at (p : Lisp_Object -> bool) (a : positive) : option Lisp_Object :=
  if p (car_at h a) then Some (LRec lrecord_cons a) else None.
Definition pair_at (p : Lisp_Object * Lisp_Object -> bool) (a : positive) : option Lisp_Object :=
  match car_at h a with
  | LRec lrecord_cons b =>
      match h !! b with
      | Some c => if p c then Some (LRec lrecord_cons b) else None
      | None => None
      end
  | _ => None
  end.

Lemma member_any test p x :
  valid h x ->
  (forall k a, nthcdr h k x = LRec lrecord_cons a -> test (car_at h a) h = (Returns (p (car_at h a)), h)) ->
  exists o, member_loop fuel test x h = (or_nil o, h) /\ search_spec x (tail_at p) o.
Proof.
  intros Hx Ht. unfold member_loop.
  destruct (search_any x (fun list_elt tail (_ : unit) =>
    b ← test list_elt; mret (if (b : bool) then inl tail else inr tt)) (tail_at p) Hx) as (o & E & Ho).
  - intros k a Ea. unfold mbind, L_bind. rewrite (Ht _ _ Ea). unfold tail_at. by destruct (p _).
  - exists o. split; [by apply or_nil_run | done].
Qed.

Lemma assoc_any test p x :
  valid h x ->
  (forall k a b c, nthcdr h k x = LRec lrecord_cons a -> car_at h a = LRec lrecord_cons b ->
     h !! b = Some c -> test c.1 c.2 h = (Returns (p c), h)) ->
  exists o, assoc_loop fuel test x h = (or_nil o, h) /\ search_spec x (pair_at p) o.
Proof.
  intros Hx Ht. unfold assoc_loop.
  destruct (search_any x (fun elt _ (_ : unit) =>
    if CONSP elt then
      elt_car ← XCAR elt; elt_cdr ← XCDR elt;
      b ← test elt_car elt_cdr; mret (if (b : bool) then inl elt else inr tt)
    else mret (inr tt)) (pair_at p) Hx) as (o & E & Ho).
  - intros k a Ea. unfold pair_at. destruct (CONSP (car_at h a)) eqn:Ec.
    + apply CONSP_true in Ec as [b Eb]. rewrite Eb.
      assert (valid h (car_at h a)) as Hb.
      { unfold car_at. destruct (h !! a) as [c |] eqn:Ha; [by eapply h_ok | done]. }
      rewrite Eb in Hb. destruct Hb as [c Hc]. rewrite Hc. change (CONSP (LRec lrecord_cons b)) with true. cbv iota.
      unfold mbind, L_bind. rewrite (XCAR_run _ _ _ Hc), (XCDR_run _ _ _ Hc), (Ht _ _ _ _ Ea Eb Hc).
      by destruct (p c).
    + destruct (car_at h a) as [| | [] ?]; try done.
  - exists o. split; [by apply or_nil_run | done].
Qed.
End Search.

(** The length of a list that ends. *)
Lemma length_ends fuel h x cs y :
  chain h x cs y -> CONSP y = false -> (length cs <= fuel)%nat ->
  GET_EXTERNAL_LIST_LENGTH fuel x h = (if NILP y then Returns (zlen cs) else Signals (Qmalformed_list x), h).
Proof.
  intros Hc Hy Hf.
  assert (lwp (external_list_loop (R := Empty_set) (fun _ => x) (fun len _ _ s => mret (inr (s, len))) fuel 0 x x tt)
      (fun r h' => h' = h /\ NILP y = true /\ r = inr (tt, zlen cs))
      (fun e h' => h' = h /\ NILP y = false /\ e = Qmalformed_list x) h) as Hl.
  { eapply (loop_ends _ _ x _ _ (fun _ _ h' => h' = h) cs y Hy); [by intros ? ? ? -> | | | done | done].
    - intros k [] h' b _ ->. by apply lwp_ret.
    - intros [] h' ->. by destruct (NILP y). }
  unfold GET_EXTERNAL_LIST_LENGTH, mbind, L_bind, lwp in *.
  destruct (external_list_loop _ _ _ _ _ _ _ h) as [[] ?]; try done; by destruct Hl as (-> & -> & ->).
Qed.

(** ** The theorems *)

(** C27: The length of any object that is a cons: the number of conses of a list that ends
    in nil, an error for one that ends in anything else, and an error for a circular
    list, which is noticed within 1024 steps and twice the number of conses in
    memory. *)
Theorem length_of_any_list fuel string_length vector_length bit_vector_length h x :
  enough h fuel -> heap_ok h -> valid h x -> CONSP x = true ->
  let run := Flength fuel string_length vector_length bit_vector_length x h in
  (exists cs, proper h x cs /\ run = (Returns (zlen cs), h)) \/
  (exists cs, dotted h x cs /\ run = (Signals (Qmalformed_list x), h)) \/
  (endless h x /\ run = (Signals (Qcircular_list x), h)).
Proof.
  intros Hf Hh Hx [a ->]%CONSP_true run. unfold run. clear run. cbn [Flength].
  set (x := LRec lrecord_cons a) in *.
  destruct (list_shape h x Hh Hx) as [(cs & y & Hc & Hy) | He].
  - pose proof (chain_fits _ _ _ _ Hc Hy). unfold enough in Hf.
    rewrite (length_ends fuel h x cs y) by (done || lia). destruct (NILP y) eqn:En.
    + apply NILP_nil in En as ->. left. by exists cs.
    + right. left. exists cs. split; [| done]. exists y. split_and!; [done.. |]. by intros ->.
  - right. right. split; [done |].
    assert (lwp (external_list_loop (R := Empty_set) (fun _ => x) (fun len _ _ s => mret (inr (s, len))) fuel 0 x x tt)
      (fun r h' => False) (fun e h' => h' = h /\ e = Qcircular_list x) h) as Hl.
    { eapply (loop_endless _ _ x _ _ (fun _ _ => True) h He); [| by intros | done | done].
      intros k [] b _ _. by apply lwp_ret. }
    unfold GET_EXTERNAL_LIST_LENGTH, mbind, L_bind, lwp in *.
    destruct (external_list_loop _ _ _ _ _ _ _ h) as [[] ?]; try done. by destruct Hl as (-> & ->).
Qed.

(** memq, assq and rassq on any object return what is at the first element that
    passes - the tail of the list, or the pair, elements that are no pairs being
    skipped - or nil at the end of a list where none does; they signal an error on a
    list that ends in another atom or that is circular, but only when no element
    passes.  They change nothing and come to an end. *)
Theorem search_in_any_list fuel h elt x :
  enough h fuel -> heap_ok h -> valid h x ->
  (exists o, Fmemq fuel elt x h = (or_nil o, h) /\ search_spec h x (tail_at h (EQ elt)) o) /\
  (exists o, Fassq fuel elt x h = (or_nil o, h) /\ search_spec h x (pair_at h (fun c => EQ elt c.1)) o) /\
  (exists o, Frassq fuel elt x h = (or_nil o, h) /\ search_spec h x (pair_at h (fun c => EQ elt c.2)) o).
Proof.
  intros Hf Hh Hx. split_and!.
  - by apply member_any.
  - by apply assoc_any.
  - by apply assoc_any.
Qed.

(** ** At work *)

(** The lists (1 2 . 3) at 1 and a circular one at 3, and ((7 . 8)) at 5. *)
Definition some_heap : heap :=
  list_to_map [(1%positive, (LInt 1, LRec lrecord_cons 2)); (2%positive, (LInt 2, LInt 3));
    (3%positive, (LInt 4, LRec lrecord_cons 4)); (4%positive, (LInt 5, LRec lrecord_cons 4));
    (5%positive, (LRec lrecord_cons 6, Qnil)); (6%positive, (LInt 7, LInt 8))].

Lemma some_heap_ok : heap_ok some_heap.
Proof.
  intros a c Hc. apply elem_of_list_to_map_2 in Hc.
  repeat (apply elem_of_cons in Hc as [[= -> ->] | Hc]; [split; vm_compute; eauto |]).
  by apply not_elem_of_nil in Hc.
Qed.

Lemma length_of_any_list_witness :
  let x := LRec lrecord_cons 3 in
  let run := Flength 1036 (fun _ => 0) (fun _ => 0) (fun _ => 0) x some_heap in
  (exists cs, proper some_heap x cs /\ run = (Returns (zlen cs), some_heap)) \/
  (exists cs, dotted some_heap x cs /\ run = (Signals (Qmalformed_list x), some_heap)) \/
  (endless some_heap x /\ run = (Signals (Qcircular_list x), some_heap)).
Proof.
  apply (length_of_any_list 1036 (fun _ => 0) (fun _ => 0) (fun _ => 0) some_heap (LRec lrecord_cons 3));
    [vm_compute; lia | apply some_heap_ok | vm_compute; eauto | done].
Defined.

Lemma search_in_any_list_witness :
  let x := LRec lrecord_cons 5 in
  (exists o, Fmemq 1036 (LInt 7) x some_heap = (or_nil o, some_heap) /\
     search_spec some_heap x (tail_at some_heap (EQ (LInt 7))) o) /\
  (exists o, Fassq 1036 (LInt 7) x some_heap = (or_nil o, some_heap) /\
     search_spec some_heap x (pair_at some_heap (fun c => EQ (LInt 7) c.1)) o) /\
  (exists o, Frassq 1036 (LInt 7) x some_heap = (or_nil o, some_heap) /\
     search_spec some_heap x (pair_at some_heap (fun c => EQ (LInt 7) c.2)) o).
Proof.
  apply (search_in_any_list 1036 some_heap (LInt 7) (LRec lrecord_cons 5));
    [vm_compute; lia | apply some_heap_ok | vm_compute; eauto].
Defined.

Example some_lengths :
  (fun n => (Flength 1036 (fun _ => 0) (fun _ => 0) (fun _ => 0) (LRec lrecord_cons n) some_heap).1) <$>
    [1%positive; 3%positive; 5%positive] =
  [Signals (Qmalformed_list (LRec lrecord_cons 1)); Signals (Qcircular_list (LRec lrecord_cons 3)); Returns 1].
Proof. vm_compute. reflexivity. Qed.
