(* ===== verification/ListMutation.v ===== *)
(** * Changing lists in place

    Reversal and deletion change the cdrs of the conses of a list and nothing else: what
    the lists become, said by the addresses of their conses. *)

From S2P Require Import Prelude Lisp Lists ListTheory.

(** ** Changes of cdrs *)

(** Only the cdrs of the conses [cs] may differ. *)
Record relinked (cs : list positive) (h h' : heap) : Prop := {
  rl_cars : forall a, fst <$> h' !! a = fst <$> h !! a;
  rl_others : forall a, a ∉ cs -> h' !! a = h !! a;
}.

Section Relinked.
Implicit Types (h : heap) (cs : list positive).

Lemma relinked_refl cs h : relinked cs h h.
Proof. done. Qed.

Lemma relinked_trans cs h1 h2 h3 : relinked cs h1 h2 -> relinked cs h2 h3 -> relinked cs h1 h3.
Proof.
  intros [H1 H2] [H3 H4]. split; intros a; [by rewrite H3 |]. intros Ha. by rewrite H4, H2.
Qed.

Lemma relinked_weaken cs cs' h h' : relinked cs h h' -> (forall a, a ∈ cs -> a ∈ cs') -> relinked cs' h h'.
Proof. intros [H1 H2] Hs. split; [done |]. intros a Ha. apply H2. auto. Qed.

Lemma relinked_set cs h a c v : h !! a = Some c -> a ∈ cs -> relinked cs h (<[a := (c.1, v)]> h).
Proof.
  intros Ha Hin. split; intros b.
  - destruct (decide (a = b)) as [<- |]; [by rewrite lookup_insert_eq, Ha | by rewrite lookup_insert_ne].
  - intros Hb. apply lookup_insert_ne. by intros ->.
Qed.

Lemma relinked_car cs h h' a : relinked cs h h' -> car_at h' a = car_at h a.
Proof.
  intros [H _]. specialize (H a). unfold car_at. destruct (h' !! a), (h !! a); try done. by injection H.
Qed.

Lemma relinked_cars cs h h' l : relinked cs h h' -> cars h' l = cars h l.
Proof. intros Hr. unfold cars. apply map_ext. intros a. by eapply relinked_car. Qed.

Lemma chain_relinked cs h h' x l y :
  relinked cs h h' -> (forall a, a ∈ l -> a ∉ cs) -> chain h x l y -> chain h' x l y.
Proof. intros Hr Hl. apply chain_agree. intros a Ha. by apply Hr, Hl. Qed.

Lemma chain_set h x l y a c v : a ∉ l -> chain h x l y -> chain (<[a := (c, v)]> h) x l y.
Proof.
  intros Ha. apply chain_agree. intros b Hb. apply lookup_insert_ne. by intros ->.
Qed.

(** Setting the last cdr of a chain. *)
Lemma chain_relink h x l a y c z :
  chain h x (l ++ [a]) y -> a ∉ l -> chain (<[a := (c, z)]> h) x (l ++ [a]) z.
Proof.
  intros (w & H1 & -> & d & Hd & _)%chain_app Ha. apply chain_app. exists (LRec lrecord_cons a).
  split; [by apply chain_set |]. split; [done |]. eexists. by rewrite lookup_insert_eq.
Qed.
End Relinked.

(** ** Reversal *)

Lemma nreverse_loop_run n prev tail done rest h :
  chain h prev done Qnil -> chain h tail rest Qnil -> NoDup (done ++ rest) -> (length rest <= n)%nat ->
  exists v h', nreverse_loop n prev tail h = (Returns v, h') /\
    proper h' v (rev rest ++ done) /\ relinked rest h h'.
Proof.
  revert prev tail done rest h. induction n as [| n IH]; intros prev tail done_ rest h Hp Ht Hn Hl;
    (destruct rest as [| a rest]; [exists prev, h; cbn in Ht; by subst tail |]); [cbn in Hl; lia |].
  destruct Ht as [-> (c & Hc & Ht)]. pose proof (chain_NoDup _ _ _ _ Ht eq_refl) as _.
  apply NoDup_app in Hn as (Hn1 & Hn2 & [Ha Hn3]%NoDup_cons).
  assert (a ∉ done_) as Had by (intros ?; apply (Hn2 a); set_solver).
  destruct (IH (LRec lrecord_cons a) c.2 (a :: done_) rest (<[a := (c.1, prev)]> h)) as (v & h' & E & Hv & Hr).
  - split; [done |]. eexists. rewrite lookup_insert_eq. split; [done |]. by apply chain_set.
  - by apply chain_set.
  - cbn. constructor.
    + rewrite elem_of_app. tauto.
    + apply NoDup_app. split_and!; [done | | done]. intros b Hb Hb'. apply (Hn2 b); set_solver.
  - cbn in Hl. lia.
  - exists v, h'. split; [| split].
    + cbn [nreverse_loop]. change (NILP (LRec lrecord_cons a)) with false.
      change (CONSP (LRec lrecord_cons a)) with true. cbv iota. unfold mbind, L_bind.
      rewrite (XCDR_run _ _ _ Hc). unfold XSETCDR, XCONS, set_cons, mbind, L_bind. rewrite Hc. exact E.
    + cbn [rev]. by rewrite <- app_assoc.
    + eapply relinked_trans; [by apply (relinked_set (a :: rest) h a c prev); [| set_solver] |].
      eapply relinked_weaken; [exact Hr |]. set_solver.
Qed.

(** nreverse returns the conses of the list in reverse order, with their cars, and
    changes no other cons. *)
Theorem nreverse_reverses fuel h x cs :
  proper h x cs -> (length cs <= fuel)%nat ->
  exists v h', Fnreverse fuel x h = (Returns v, h') /\
    proper h' v (rev cs) /\ relinked cs h h' /\ cars h' (rev cs) = rev (cars h cs).
Proof.
  intros Hc Hf. destruct (nreverse_loop_run fuel Qnil x [] cs h) as (v & h' & E & Hv & Hr); try done.
  { by eapply chain_NoDup. }
  exists v, h'. split_and!; [exact E | by rewrite app_nil_r in Hv | done |].
  rewrite (relinked_cars _ _ _ _ Hr). unfold cars. by rewrite map_rev.
Qed.

(** ** Deletion *)

(** The last cons that was kept, as the code has it. *)
Definition last_of (kept : list positive) : Lisp_Object :=
  match last kept with Some a => LRec lrecord_cons a | None => Qnil end.

Section Delete.
Variable fuel : nat.
Variable condition : Lisp_Object -> L bool.
Variable p : positive -> bool.
Variable cs : list positive.
Variable h0 : heap.

(** The condition looks at cars only: it says of each element what it said at first. *)
Hypothesis condition_looks : forall h a, relinked cs h0 h -> a ∈ cs ->
  condition (car_at h0 a) h = (Returns (p a), h).
Hypothesis distinct : NoDup cs.

Abbreviation kept l := (List.filter (fun a => negb (p a)) l).

(** [seen] was looked at, [rest] comes next, at [hare]. *)
Record deleting (seen rest : list positive) (list hare prev : Lisp_Object) (h : heap) : Prop := {
  dl_split : cs = seen ++ rest;
  dl_heap : relinked cs h0 h;
  dl_rest : proper h hare rest;
  dl_list : chain h list (kept seen) hare;
  dl_prev : prev = last_of (kept seen);
}.

Lemma kept_snoc l a : kept (l ++ [a]) = if p a then kept l else kept l ++ [a].
Proof. rewrite List.filter_app. cbn. destruct (p a); cbn; [by rewrite app_nil_r | done]. Qed.

Lemma kept_in l a : a ∈ kept l -> a ∈ l.
Proof. rewrite !list_elem_of_In, List.filter_In. tauto. Qed.

(** The element [a] is kept. *)
Lemma deleting_keep seen a rest list prev c h :
  deleting seen (a :: rest) list (LRec lrecord_cons a) prev h -> h !! a = Some c -> p a = false ->
  deleting (seen ++ [a]) rest list c.2 (LRec lrecord_cons a) h.
Proof.
  intros [Hs Hh Hr Hl Hp] Hc Ha. destruct Hr as (_ & c' & Hc' & Hr). rewrite Hc in Hc'. injection Hc' as <-.
  split; [by rewrite <- app_assoc | done | done | |]; rewrite kept_snoc, Ha.
  - by eapply chain_snoc.
  - unfold last_of. by rewrite last_snoc.
Qed.

(** The element [a] goes: the first of the list, or behind one that was kept. *)
Lemma deleting_first seen a rest list prev c h :
  deleting seen (a :: rest) list (LRec lrecord_cons a) prev h -> h !! a = Some c -> p a = true ->
  NILP prev = true -> deleting (seen ++ [a]) rest c.2 c.2 prev h.
Proof.
  intros [Hs Hh Hr Hl Hp] Hc Ha Hn. destruct Hr as (_ & c' & Hc' & Hr). rewrite Hc in Hc'. injection Hc' as <-.
  split; [by rewrite <- app_assoc | done | done | |]; rewrite kept_snoc, Ha; [| done].
  subst prev. unfold last_of in Hn. by destruct (kept seen) as [| b l] using rev_ind; [| rewrite last_snoc in Hn].
Qed.

Lemma deleting_later seen a rest list prev c h :
  deleting seen (a :: rest) list (LRec lrecord_cons a) prev h -> h !! a = Some c -> p a = true ->
  NILP prev = false -> exists b d,
    prev = LRec lrecord_cons b /\ h !! b = Some d /\ b ∈ seen /\
    deleting (seen ++ [a]) rest list c.2 prev (<[b := (d.1, c.2)]> h).
Proof.
  intros [Hs Hh Hr Hl Hp] Hc Ha Hn. destruct Hr as (_ & c' & Hc' & Hr). rewrite Hc in Hc'. injection Hc' as <-.
  destruct (kept seen) as [| b l _] eqn:Ek using rev_ind; [by subst |].
  unfold last_of in Hp. rewrite last_snoc in Hp. subst prev.
  assert (b ∈ seen) as Hb by (apply kept_in; rewrite Ek; set_solver).
  destruct (chain_live _ _ _ _ b Hl) as [d Hd]; [set_solver |].
  rewrite Hs in distinct. apply NoDup_app in distinct as (Hn1 & Hn2 & [Har _]%NoDup_cons).
  exists b, d. split_and!; [done.. |]. split.
  - by rewrite <- app_assoc.
  - eapply relinked_trans; [exact Hh |]. apply relinked_set; [done |]. rewrite Hs. set_solver.
  - apply chain_set; [| done]. intros Hbr. apply (Hn2 b Hb). set_solver.
  - rewrite kept_snoc, Ha, Ek. eapply chain_relink; [exact Hl |].
    assert (NoDup (kept seen)) as Hk by (apply NoDup_ListNoDup, List.NoDup_filter; by apply NoDup_ListNoDup).
    rewrite Ek in Hk. apply NoDup_app in Hk as (_ & Hk & _). intros Hbl. apply (Hk b Hbl). set_solver.
  - unfold last_of. by rewrite kept_snoc, Ha, Ek, last_snoc.
Qed.

(** The body of the loop. *)
Lemma delete_body_run len seen a rest list prev h :
  deleting seen (a :: rest) list (LRec lrecord_cons a) prev h ->
  exists list' prev' len' c h',
    delete_body condition len (car_at h a) (LRec lrecord_cons a) (list, prev) h =
      (Returns (inr (list', prev', len')), h') /\
    h' !! a = Some c /\ deleting (seen ++ [a]) rest list' c.2 prev' h' /\
    (h' = h /\ (len' = len \/ len' = 0) \/
     len' = 0 /\ exists b d, b ∈ seen /\ h' = <[b := (d, c.2)]> h).
Proof.
  intros Hd. pose proof Hd as [Hs Hh (_ & c & Hc & _) _ _].
  assert (a ∈ cs) as Hin by (rewrite Hs; set_solver).
  unfold delete_body, mbind, L_bind. rewrite (relinked_car _ _ _ _ Hh), (condition_looks h a Hh Hin).
  destruct (p a) eqn:Ep.
  - destruct (NILP prev) eqn:En; rewrite (XCDR_run _ _ _ Hc).
    + exists c.2, prev, 0, c, h. split_and!; [done.. | by eapply deleting_first | left; auto].
    + destruct (deleting_later _ _ _ _ _ _ _ Hd Hc Ep En) as (b & d & -> & Hb & Hbs & Hd').
      exists list, (LRec lrecord_cons b), 0, c, (<[b := (d.1, c.2)]> h).
      split_and!; [| | done | right; eauto].
      * unfold XSETCDR, XCONS, set_cons, mbind, L_bind. by rewrite Hb.
      * rewrite lookup_insert_ne; [done |]. intros ->.
        rewrite Hs in distinct. apply NoDup_app in distinct as (_ & Hn & _). apply (Hn a Hbs). set_solver.
  - exists list, (LRec lrecord_cons a), len, c, h. split_and!; [done.. | by eapply deleting_keep | left; auto].
Qed.

(** Where the tortoise is: behind the hare by what it has not walked of the steps that the
    hare has walked since the last deletion. *)
Definition trailing (seen : list positive) (tort hare : Lisp_Object) (len : Z) (h : heap) : Prop :=
  0 <= len /\ exists tc, chain h tort tc hare /\ (forall a, a ∈ tc -> a ∈ seen) /\
    len <= zlen tc + Z.of_nat (tortoise_at (Z.to_nat len)).

(** The hare moves on, and the chain from the tortoise to it is not empty. *)
Lemma trailing_hare seen a rest tort list prev len len' c h h' :
  deleting seen (a :: rest) list (LRec lrecord_cons a) prev h ->
  trailing seen tort (LRec lrecord_cons a) len h ->
  h' !! a = Some c ->
  (h' = h /\ (len' = len \/ len' = 0) \/ len' = 0 /\ exists b d, b ∈ seen /\ h' = <[b := (d, c.2)]> h) ->
  0 <= len' /\ exists tc, tc <> [] /\ chain h' tort tc c.2 /\ (forall b, b ∈ tc -> b ∈ seen ++ [a]) /\
    len' + 1 <= zlen tc + Z.of_nat (tortoise_at (Z.to_nat len')).
Proof.
  intros [Hs Hh Hr Hl Hp] (H0 & tc & Ht & Hin & Hlen) Hc [[-> Hlen'] | [-> (b & d & Hb & ->)]].
  - split; [lia |]. exists (tc ++ [a]). split_and!; [by destruct tc | by eapply chain_snoc | set_solver |].
    rewrite length_app. cbn [length]. destruct Hlen' as [-> | ->]; lia.
  - split; [lia |]. change (tortoise_at (Z.to_nat 0)) with 0%nat.
    assert (a <> b) as Hab.
    { intros ->. rewrite Hs in distinct. apply NoDup_app in distinct as (_ & Hn & _). apply (Hn b Hb). set_solver. }
    destruct (decide (b ∈ tc)) as [(l1 & l2 & ->)%list_elem_of_split | Hbt].
    + assert (b ∉ l1) as Hb1.
      { assert (NoDup ((l1 ++ b :: l2) ++ a :: rest)) as Hn.
        { eapply chain_NoDup; [apply chain_app; by exists (LRec lrecord_cons a) | done]. }
        apply NoDup_app in Hn as (Hn & _ & _). apply NoDup_app in Hn as (_ & Hn & _).
        intros Hb1. apply (Hn b Hb1). set_solver. }
      exists (l1 ++ [b]). split_and!; [by destruct l1 | | set_solver | lens; lia].
      rewrite cons_middle, app_assoc in Ht. apply chain_app in Ht as (z & Ht & _).
      eapply chain_relink; [exact Ht | done].
    + exists (tc ++ [a]). split_and!; [by destruct tc | | set_solver | lens; lia].
      eapply chain_snoc; [by apply chain_set | done].
Qed.

(** The tortoise does not meet the hare, as the hare is on its way to the end. *)
Lemma no_meeting h tort tc hare rest :
  chain h tort tc hare -> tc <> [] -> proper h hare rest -> EQ hare tort = false.
Proof.
  intros Ht Hne Hr. apply EQ_false. intros ->.
  assert (chain h tort (tc ++ rest) Qnil) as H2 by (apply chain_app; eauto).
  destruct (chain_det _ _ _ _ _ _ Hr H2 eq_refl eq_refl) as [El _].
  apply (f_equal length) in El. rewrite length_app in El. by destruct tc; [| cbn in El; lia].
Qed.

Lemma delete_loop n seen rest list hare tort prev len h :
  deleting seen rest list hare prev h -> trailing seen tort hare len h -> (length rest <= n)%nat ->
  lwp (external_list_loop fst (delete_body condition) n len hare tort (list, prev))
    (fun r h' => exists list' prev' len',
       r = inr (list', prev', len') /\ deleting cs [] list' Qnil prev' h')
    (fun _ _ => False) h.
Proof.
  revert seen rest list hare tort prev len h.
  induction n as [| n IH]; intros seen [| a rest] list hare tort prev len h Hd Ht Hn; cbn in Hn; try lia.
  1, 2: pose proof Hd as [Hs _ Hr _ _]; rewrite app_nil_r in Hs; cbn in Hr; subst hare seen;
    apply (lwp_ret (A := Empty_set + _)); eauto.
  assert (hare = LRec lrecord_cons a) as -> by (destruct Hd as [_ _ [-> _] _ _]; done).
  destruct (delete_body_run len _ _ _ _ _ _ Hd) as (list' & prev' & len' & c & h' & Erun & Hc' & Hd' & Hstep).
  destruct (trailing_hare _ _ _ _ _ _ _ _ _ _ _ Hd Ht Hc' Hstep) as (Hlen' & tc & Hne & Htc & Htin & Htlen).
  apply loop_turn with (I := fun s l g => s = (list', prev') /\ l = len' /\ g = h').
  { destruct Hd as [_ _ (_ & c0 & Hc0 & _) _ _]. by eexists. }
  { by eapply lwp_eq; [exact Erun |]. }
  intros s' l g (-> & -> & ->). exists c. split; [done |]. cbv zeta.
  destruct tc as [| b tc]; [done |]. pose proof Htc as (-> & d & Hbd & Htc').
  pose proof Hd' as [_ _ Hr' _ _].
  destruct (Z.gtb_spec (len' + 1) CIRCULAR_LIST_SUSPICION_LENGTH) as [Hlong | Hshort];
    unfold CIRCULAR_LIST_SUSPICION_LENGTH in *; cbn [andb].
  - assert (Z.to_nat (len' + 1) = S (Z.to_nat len')) as ES by lia.
    pose proof (tortoise_at_S (Z.to_nat len') ltac:(lia)) as Et. pose proof (tortoise_behind (S (Z.to_nat len'))) as Hb.
    replace (Z.odd (len' + 1)) with (Nat.odd (S (Z.to_nat len'))) by (rewrite <- Zodd_nat; f_equal; lia).
    split; [intros _ _; exists b; by split; [| eexists] |]. destruct (Nat.odd (S (Z.to_nat len'))).
    + cbn [next]. rewrite Hbd. cbn [fmap option_fmap option_map from_option default id].
      cbn [length] in Htlen. assert (tc <> []) as Htc0 by (intros ->; cbn [length] in Htlen; lia).
      rewrite (no_meeting _ _ _ _ _ Htc' Htc0 Hr'). apply (IH (seen ++ [a]) rest); [done | | lia].
      split; [lia |]. exists tc. split_and!; [done | set_solver | rewrite ES, Et; lia].
    + rewrite (no_meeting _ _ _ _ _ Htc Hne Hr'). apply (IH (seen ++ [a]) rest); [done | | lia].
      split; [lia |]. exists (b :: tc). split_and!; [done.. | rewrite ES, Et; lia].
  - split; [done |]. apply (IH (seen ++ [a]) rest); [done | | lia]. split; [lia |].
    exists (b :: tc). rewrite (tortoise_at_low (Z.to_nat len')) in Htlen by lia. split_and!; [done.. | lia].
Qed.

Lemma list_delete_loop n seen rest list hare prev h :
  deleting seen rest list hare prev h -> (length rest <= n)%nat ->
  lwp (list_loop (R := Empty_set)
        (fun elt tail s => r ← delete_body condition 0 elt tail s; mret (inr (ended r).1)) n hare (list, prev))
    (fun r h' => exists list' prev', r = inr (list', prev') /\ deleting cs [] list' Qnil prev' h')
    (fun _ _ => False) h.
Proof.
  revert seen rest list hare prev h.
  induction n as [| n IH]; intros seen [| a rest] list hare prev h Hd Hn; cbn in Hn; try lia.
  1, 2: pose proof Hd as [Hs _ Hr _ _]; rewrite app_nil_r in Hs; cbn in Hr; subst hare seen;
    apply (lwp_ret (A := Empty_set + _)); eauto.
  pose proof Hd as [_ _ (-> & c0 & Hc0 & _) _ _].
  destruct (delete_body_run 0 _ _ _ _ _ _ Hd) as (list' & prev' & len' & c & h' & Erun & Hc' & Hd' & _).
  cbn [list_loop]. change (NILP (LRec lrecord_cons a)) with false. cbv iota.
  eapply lwp_XCAR; [exact Hc0 |]. unfold car_at in Erun. rewrite Hc0 in Erun. cbn [default] in Erun.
  apply lwp_bind, lwp_bind. eapply lwp_eq; [exact Erun |]. apply lwp_ret.
  eapply lwp_XCDR; [exact Hc' |]. apply (IH (seen ++ [a]) rest); [done | lia].
Qed.
End Delete.

(** The list [x] without the conses [p] is about: the others in order, in place. *)
Definition deletes (h : heap) (cs : list positive) (p : positive -> bool) (m : L Lisp_Object) : Prop :=
  exists v h', m h = (Returns v, h') /\ proper h' v (List.filter (fun a => negb (p a)) cs) /\
    relinked cs h h'.

Section DeleteIf.
Variable fuel : nat.
Variable condition : Lisp_Object -> L bool.
Variable p : positive -> bool.
Variable h : heap.
Variable x : Lisp_Object.
Variable cs : list positive.
Hypothesis list_proper : proper h x cs.
Hypothesis fuel_enough : (length cs <= fuel)%nat.
Hypothesis condition_looks : forall h' a, relinked cs h h' -> a ∈ cs ->
  condition (car_at h a) h' = (Returns (p a), h').

Lemma deleting_start : deleting p cs h [] cs x x Qnil h.
Proof. by split. Qed.

Lemma external_delete_if : deletes h cs p (EXTERNAL_LIST_LOOP_DELETE_IF fuel condition x).
Proof.
  assert (trailing [] x x 0 h) as Ht by (split; [lia |]; exists []; split_and!; [done | set_solver | cbn; lia]).
  pose proof (delete_loop condition p cs h condition_looks (chain_NoDup _ _ _ _ list_proper eq_refl)
    fuel [] cs x x x Qnil 0 h deleting_start Ht fuel_enough) as Hl.
  unfold deletes, EXTERNAL_LIST_LOOP_DELETE_IF, mbind, L_bind, lwp in *.
  destruct (external_list_loop _ _ _ _ _ _ _ h) as [[r | | |] h']; try done.
  destruct Hl as (v & prev & len & -> & [_ Hr Hn Hl _]). exists v, h'. split_and!; [done | | done].
  cbn in Hn. done.
Qed.

Lemma list_delete_if : deletes h cs p (LIST_LOOP_DELETE_IF fuel condition x).
Proof.
  pose proof (list_delete_loop condition p cs h condition_looks (chain_NoDup _ _ _ _ list_proper eq_refl)
    fuel [] cs x x Qnil h deleting_start fuel_enough) as Hl.
  unfold deletes, LIST_LOOP_DELETE_IF, mbind, L_bind, lwp in *.
  match goal with |- context [list_loop ?b ?n ?l ?s h] => destruct (list_loop b n l s h) as [[r | | |] h'] end; try done.
  destruct Hl as (v & prev & -> & [_ Hr Hn Hl _]). exists v, h'. done.
Qed.
End DeleteIf.

(** C28: delq, delq_no_quit and remassq return the conses of a list whose car is not the
    element - for remassq, that are not a pair with the key - in order and with their
    cars, and change no other cons: on a list of any length, that it might be circular
    is never reported. *)
Theorem deletion_in_place fuel elt h x cs :
  heap_ok h -> proper h x cs -> (length cs <= fuel)%nat ->
  deletes h cs (fun a => EQ elt (car_at h a)) (Fdelq fuel elt x) /\
  deletes h cs (fun a => EQ elt (car_at h a)) (delq_no_quit fuel elt x) /\
  deletes h cs (fun a => match car_at h a with
                         | LRec lrecord_cons b => EQ elt (car_at h b)
                         | _ => false
                         end) (Fremassq fuel elt x).
Proof.
  intros Hh Hc Hf. split_and!.
  - by apply external_delete_if.
  - by apply list_delete_if.
  - apply external_delete_if; [done.. |]. intros h' a Hr Ha. unfold on_car.
    destruct (chain_live _ _ _ _ _ Hc Ha) as [c Hca].
    pose proof (proj1 (Hh _ _ Hca)) as Hv. rewrite (car_at_Some _ _ _ Hca).
    destruct (CONSP c.1) eqn:E.
    + apply CONSP_true in E as [b Eb]. rewrite Eb in Hv |- *. destruct Hv as [d Hd].
      pose proof (rl_cars _ _ _ Hr b) as El. rewrite Hd in El.
      destruct (h' !! b) as [d' |] eqn:Ed'; [| done]. injection El as El.
      unfold mbind, L_bind. by rewrite (XCAR_run _ _ _ Ed'), (car_at_Some _ _ _ Hd), El.
    + destruct c as [[] ?]; try done. cbn in E. by destruct t.
Qed.

(** On a circular list whose elements are all deleted, delq runs for ever: each
    deletion starts the count of the suspicion anew. *)
Theorem delq_may_not_end fuel :
  let h := {[1%positive := (LInt 1, LRec lrecord_cons 1)]} in
  Fdelq fuel (LInt 1) (LRec lrecord_cons 1) h = (Unfinished, h).
Proof.
  cbv zeta. set (h := {[1%positive := (LInt 1, LRec lrecord_cons 1)]}).
  assert (h !! 1%positive = Some (LInt 1, LRec lrecord_cons 1)) as Hh by apply lookup_singleton_eq.
  assert (forall n len s, s.2 = Qnil -> external_list_loop fst (delete_body (fun x => mret (EQ (LInt 1) x)))
    n len (LRec lrecord_cons 1) (LRec lrecord_cons 1) s h = (Unfinished, h)) as Hl.
  { induction n as [| n IH]; intros len [list prev] Hs; [done |]. cbn in Hs. subst prev.
    assert (delete_body (fun x => mret (EQ (LInt 1) x)) len (LInt 1) (LRec lrecord_cons 1) (list, Qnil) h =
      (Returns (inr (LRec lrecord_cons 1, Qnil, 0)), h)) as Eb by reflexivity.
    cbn [external_list_loop]. rewrite CONSP_cons. unfold mbind, L_bind.
    rewrite (XCAR_run _ _ _ Hh). cbn [fst]. rewrite Eb, (XCDR_run _ _ _ Hh). by apply IH. }
  unfold Fdelq, EXTERNAL_LIST_LOOP_DELETE_IF, mbind, L_bind. by rewrite Hl.
Qed.

(** ** At work *)

(** The list (1 2 1). *)
Definition three : heap :=
  list_to_map [(1%positive, (LInt 1, LRec lrecord_cons 2)); (2%positive, (LInt 2, LRec lrecord_cons 3));
    (3%positive, (LInt 1, Qnil))].

Lemma three_proper : proper three (LRec lrecord_cons 1) [1; 2; 3]%positive.
Proof. repeat (split; [done |]; eexists; split; [vm_compute; reflexivity |]). done. Qed.

Lemma three_ok : heap_ok three.
Proof.
  intros a c Hc. apply elem_of_list_to_map_2 in Hc.
  repeat (apply elem_of_cons in Hc as [[= -> ->] | Hc]; [split; vm_compute; eauto |]).
  by apply not_elem_of_nil in Hc.
Qed.

Lemma nreverse_reverses_witness :
  exists v h', Fnreverse 3 (LRec lrecord_cons 1) three = (Returns v, h') /\
    proper h' v [3; 2; 1]%positive /\ relinked [1; 2; 3]%positive three h' /\
    cars h' [3; 2; 1]%positive = [LInt 1; LInt 2; LInt 1].
Proof. exact (nreverse_reverses 3 three (LRec lrecord_cons 1) [1; 2; 3]%positive three_proper (le_n 3)). Defined.

Lemma deletion_in_place_witness :
  deletes three [1; 2; 3]%positive (fun a => EQ (LInt 1) (car_at three a)) (Fdelq 3 (LInt 1) (LRec lrecord_cons 1)) /\
  deletes three [1; 2; 3]%positive (fun a => EQ (LInt 1) (car_at three a)) (delq_no_quit 3 (LInt 1) (LRec lrecord_cons 1)) /\
  deletes three [1; 2; 3]%positive (fun a => match car_at three a with
                         | LRec lrecord_cons b => EQ (LInt 1) (car_at three b)
                         | _ => false
                         end) (Fremassq 3 (LInt 1) (LRec lrecord_cons 1)).
Proof.
  exact (deletion_in_place 3 (LInt 1) three (LRec lrecord_cons 1) [1; 2; 3]%positive three_ok three_proper (le_n 3)).
Defined.

(** A circular list is caught when something of it stays. *)
Example delq_circular :
  (Fdelq 3000 (LInt 4) (LRec lrecord_cons 1)
     (list_to_map [(1%positive, (LInt 4, LRec lrecord_cons 2)); (2%positive, (LInt 5, LRec lrecord_cons 1))])).1 =
  Signals (Qcircular_list (LRec lrecord_cons 2)).
Proof. vm_compute. reflexivity. Qed.
