(* ===== verification/ListSort.v ===== *)
(** * Sorting lists

    [list_sort] merges in place: it computes a merge sort on the conses of the list, so
    that the result is sorted, has the same conses, and is stable. *)

From Stdlib Require Import Sorting.Sorted.
From S2P Require Import Prelude Lisp Lists ListTheory ListSearch ListMutation.

(** ** The merge sort computed *)

Lemma filter_head {A} (f : A -> bool) x l : List.filter f (x :: l) = List.filter f [x] ++ List.filter f l.
Proof. cbn. by destruct (f x). Qed.

Section Reference.
(** [lt a b]: the predicate holds of the cars of [a] and [b]. *)
Variable lt : positive -> positive -> bool.

Fixpoint merge_ref (l1 : list positive) : list positive -> list positive :=
  match l1 with
  | [] => fun l2 => l2
  | a :: l1' =>
      fix go (l2 : list positive) : list positive :=
        match l2 with
        | [] => a :: l1'
        | b :: l2' => if lt b a then b :: go l2' else a :: merge_ref l1' l2
        end
  end.

Fixpoint sort_ref (n : nat) (l : list positive) : list positive :=
  match n with
  | O => l
  | S n =>
      if zlen l <? 2 then l
      else merge_ref (sort_ref n (ztake (zlen l / 2) l)) (sort_ref n (zdrop (zlen l / 2) l))
  end.

Lemma merge_ref_nil l : merge_ref l [] = l.
Proof. by destruct l. Qed.

Lemma merge_ref_cons a l1 b l2 :
  merge_ref (a :: l1) (b :: l2) =
  if lt b a then b :: merge_ref (a :: l1) l2 else a :: merge_ref l1 (b :: l2).
Proof. done. Qed.

Lemma merge_ref_perm l1 l2 : merge_ref l1 l2 ≡ₚ l1 ++ l2.
Proof.
  revert l2. induction l1 as [| a l1 IH1]; intros l2; [done |].
  induction l2 as [| b l2 IH2]; [by rewrite merge_ref_nil, app_nil_r |].
  rewrite merge_ref_cons. destruct (lt b a).
  - rewrite IH2. by rewrite <- Permutation_middle.
  - rewrite IH1. done.
Qed.

Lemma sort_ref_perm n l : sort_ref n l ≡ₚ l.
Proof.
  revert l. induction n as [| n IH]; intros l; [done |]. cbn [sort_ref]. destruct (_ <? _); [done |].
  by rewrite merge_ref_perm, !IH, take_drop.
Qed.

(** The predicate orders the elements, those that it does not tell apart as equals. *)
Hypothesis lt_asym : forall a b, lt a b = true -> lt b a = false.
Hypothesis le_trans : forall a b c, lt b a = false -> lt c b = false -> lt c a = false.

Definition le (a b : positive) : Prop := lt b a = false.
Definition equivalent (a b : positive) : bool := negb (lt a b) && negb (lt b a).

Lemma merge_ref_sorted l1 l2 :
  StronglySorted le l1 -> StronglySorted le l2 -> StronglySorted le (merge_ref l1 l2).
Proof.
  revert l2. induction l1 as [| a l1 IH1]; intros l2 H1 H2; [done |].
  induction l2 as [| b l2 IH2]; [by rewrite merge_ref_nil |].
  pose proof H1 as [H1' Ha]%StronglySorted_inv. pose proof H2 as [H2' Hb]%StronglySorted_inv.
  rewrite merge_ref_cons. destruct (lt b a) eqn:E; constructor; [by apply IH2 | | by apply IH1 |].
  - rewrite merge_ref_perm. apply Forall_app. split; [| done].
    assert (le b a) by (apply lt_asym, E). constructor; [done |].
    eapply Forall_impl; [exact Ha |]. intros c ?. by eapply le_trans.
  - rewrite merge_ref_perm. apply Forall_app. split; [done |]. constructor; [done |].
    eapply Forall_impl; [exact Hb |]. intros c ?. by eapply (le_trans a b).
Qed.

Lemma sort_ref_sorted n l : (length l <= n)%nat -> StronglySorted le (sort_ref n l).
Proof.
  revert l. induction n as [| n IH]; intros l Hl.
  { destruct l; [constructor | cbn in Hl; lia]. }
  cbn [sort_ref]. destruct (Z.ltb_spec (zlen l) 2).
  - destruct l as [| a [| b l]]; cbn in *; [constructor | by repeat constructor | lia].
  - pose proof (Z.div_lt_upper_bound (zlen l) 2 (zlen l)). pose proof (Z.div_le_lower_bound (zlen l) 2 1).
    apply merge_ref_sorted; apply IH; lens; lia.
Qed.

(** Elements that are equal stay in order. *)
Lemma merge_ref_stable z l1 l2 :
  StronglySorted le l1 ->
  List.filter (equivalent z) (merge_ref l1 l2) = List.filter (equivalent z) (l1 ++ l2).
Proof.
  revert l2. induction l1 as [| a l1 IH1]; intros l2 H1; [done |].
  induction l2 as [| b l2 IH2]; [by rewrite merge_ref_nil, app_nil_r |].
  pose proof H1 as [H1' Ha]%StronglySorted_inv. rewrite merge_ref_cons. destruct (lt b a) eqn:E.
  - rewrite (filter_head _ b), IH2, (cons_middle b (a :: l1) l2), !List.filter_app.
    destruct (equivalent z b) eqn:Ez; [| by cbn [List.filter]; rewrite Ez].
    assert (List.filter (equivalent z) (a :: l1) = []) as ->; [| done].
    assert (forall c, c ∈ a :: l1 -> equivalent z c = false) as Hn.
    { intros c Hc. assert (le a c) as Hac.
      { apply elem_of_cons in Hc as [-> | Hc]; [by destruct (lt a a) eqn:Er; [pose proof (lt_asym _ _ Er); congruence |] |].
        by eapply Forall_forall in Ha; [exact Ha |]. }
      apply andb_prop in Ez as [Ez1%negb_true_iff Ez2%negb_true_iff].
      unfold equivalent. destruct (lt z c) eqn:Ezc; [done |]. cbn [negb andb]. exfalso.
      (* c <= z <= b < a <= c *)
      assert (lt b a = false); [| congruence]. apply (le_trans a c b); [exact Hac |].
      by apply (le_trans c z b). }
    clear -Hn. induction (a :: l1) as [| c l IH]; [done |]. cbn [List.filter].
    rewrite Hn by set_solver. apply IH. intros d Hd. apply Hn. set_solver.
  - cbn [List.filter app]. rewrite IH1 by done. by destruct (equivalent z a).
Qed.

Lemma sort_ref_stable n z l :
  (length l <= n)%nat -> List.filter (equivalent z) (sort_ref n l) = List.filter (equivalent z) l.
Proof.
  revert l. induction n as [| n IH]; intros l Hl; [done |].
  cbn [sort_ref]. destruct (Z.ltb_spec (zlen l) 2); [done |].
  pose proof (Z.div_lt_upper_bound (zlen l) 2 (zlen l)). pose proof (Z.div_le_lower_bound (zlen l) 2 1).
  rewrite merge_ref_stable by (apply sort_ref_sorted; lens; lia).
  rewrite List.filter_app, !IH, <- List.filter_app, take_drop by (lens; lia). done.
Qed.
End Reference.

(** ** The code computes it *)

Section Sorting.
Variable fuel : nat.
Variable pred_fn : Lisp_Object -> Lisp_Object -> L Z.
Variables string_length vector_length bit_vector_length : positive -> Z.
Variable lt : Lisp_Object -> Lisp_Object -> bool.
Variable cs0 : list positive.
Variable h0 : heap.

(** The predicate looks at the elements, however the list is linked. *)
Hypothesis pred_looks : forall h a b, relinked cs0 h0 h -> a ∈ cs0 -> b ∈ cs0 -> exists z,
  pred_fn (car_at h0 a) (car_at h0 b) h = (Returns z, h) /\
  (z <? 0) = negb (lt (car_at h0 a) (car_at h0 b)).

Definition lt_at (a b : positive) : bool := lt (car_at h0 a) (car_at h0 b).

(** What was merged: [tail] is its last cons, whose cdr is yet to be set. *)
Definition merged (acc : list positive) (value tail : Lisp_Object) (h : heap) : Prop :=
  acc = [] /\ tail = Qnil \/
  exists acc0 t y, acc = acc0 ++ [t] /\ tail = LRec lrecord_cons t /\ chain h value acc y.

(** One list is empty: the other is appended. *)
Lemma merge_rest acc value tail l cs h :
  merged acc value tail h -> proper h l cs -> NoDup (acc ++ cs) ->
  exists v h', (if NILP tail then mret l else Fsetcdr tail l;; mret value : L Lisp_Object) h = (Returns v, h') /\
    proper h' v (acc ++ cs) /\ relinked acc h h'.
Proof.
  intros [[-> ->] | (acc0 & t & y & -> & -> & Hv)] Hl Hn; [by exists l, h |].
  destruct (chain_live _ _ _ _ t Hv) as [c Hc]; [set_solver |].
  apply NoDup_app in Hn as ((_ & Ht & _)%NoDup_app & Hn & _).
  exists value, (<[t := (c.1, l)]> h). split_and!.
  - change (NILP (LRec lrecord_cons t)) with false. cbv iota. unfold mbind, L_bind. by rewrite (Fsetcdr_cons _ _ _ _ Hc).
  - apply chain_app. exists l. split.
    + eapply chain_relink; [exact Hv |]. intros H. apply (Ht t H). set_solver.
    + apply chain_set; [| done]. apply Hn. set_solver.
  - apply relinked_set; [done | set_solver].
Qed.

(** A cons is taken from the front of a list. *)
Lemma merge_take acc value tail a cs h :
  merged acc value tail h -> proper h (LRec lrecord_cons a) (a :: cs) -> NoDup (acc ++ a :: cs) ->
  exists value' h' c,
    (if NILP tail then mret (LRec lrecord_cons a)
     else Fsetcdr tail (LRec lrecord_cons a);; mret value : L Lisp_Object) h = (Returns value', h') /\
    h !! a = Some c /\ proper h' c.2 cs /\
    merged (acc ++ [a]) value' (LRec lrecord_cons a) h' /\ relinked acc h h' /\
    (forall l ds, proper h l ds -> (forall b, b ∈ acc -> b ∉ ds) -> proper h' l ds).
Proof.
  intros Hm Hp Hn.
  assert (NoDup (acc ++ [a] ++ cs)) as Hn' by done.
  destruct (merge_rest _ _ _ _ _ _ Hm Hp Hn) as (v & h' & E & Hv & Hr).
  pose proof Hp as (_ & c & Hc & Hcs).
  assert (forall b, b ∈ acc -> b ∉ a :: cs) as Hd by (apply NoDup_app in Hn; tauto).
  assert (forall l ds, proper h l ds -> (forall b, b ∈ acc -> b ∉ ds) -> proper h' l ds) as Hk.
  { intros l ds Hl Hds. eapply chain_relinked; [exact Hr | | exact Hl]. intros b Hb Ha. by apply (Hds b). }
  exists v, h', c. split_and!; [exact E | exact Hc | | | exact Hr | exact Hk].
  - apply Hk; [done |]. intros b Hb Hbc. apply (Hd b Hb). set_solver.
  - right. exists acc, a, c.2. split_and!; [done.. |].
    rewrite cons_middle, app_assoc in Hv. apply chain_app in Hv as (z & Hv & _).
    apply chain_app in Hv as (w & H1 & H2). apply chain_app. exists w. split; [done |].
    destruct H2 as (-> & c' & Hc' & _). split; [done |]. exists c'. split; [done |].
    rewrite (rl_others _ _ _ Hr) in Hc' by (intros Ha; apply (Hd a Ha); set_solver).
    rewrite Hc in Hc'. by injection Hc' as <-.
Qed.

Lemma NoDup_drop_middle (l1 l2 l3 : list positive) : NoDup (l1 ++ l2 ++ l3) -> NoDup (l1 ++ l3).
Proof. rewrite !NoDup_app. intros (? & Hd & ? & ? & ?). split_and!; [done | | done]. set_solver. Qed.

Lemma proper_cons h x a cs : proper h x (a :: cs) -> x = LRec lrecord_cons a.
Proof. by intros [-> _]. Qed.

Lemma merge_loop_run n l1 l2 tail value acc cs1 cs2 h :
  relinked cs0 h0 h -> (forall a, a ∈ acc ++ cs1 ++ cs2 -> a ∈ cs0) ->
  merged acc value tail h -> proper h l1 cs1 -> proper h l2 cs2 -> NoDup (acc ++ cs1 ++ cs2) ->
  (length cs1 + length cs2 <= n)%nat ->
  exists v h', list_merge_loop pred_fn n l1 l2 tail value h = (Returns v, h') /\
    proper h' v (acc ++ merge_ref lt_at cs1 cs2) /\ relinked (acc ++ cs1 ++ cs2) h h'.
Proof.
  revert l1 l2 tail value acc cs1 cs2 h.
  induction n as [| n IH]; intros l1 l2 tail value acc [| a cs1] [| b cs2] h Hh Hin Hm H1 H2 Hn Hlen;
    cbn in Hlen; try lia.
  (* an empty list *)
  1, 2: cbn in H1; subst l1; destruct (merge_rest _ _ _ _ _ _ Hm H2 Hn) as (v & h' & E & Hv & Hr);
    exists v, h'; split_and!; [exact E | exact Hv | eapply relinked_weaken; [exact Hr | set_solver]].
  1: { cbn in H1; subst l1; destruct (merge_rest _ _ _ _ _ _ Hm H2 Hn) as (v & h' & E & Hv & Hr);
    exists v, h'; split_and!; [exact E | exact Hv | eapply relinked_weaken; [exact Hr | set_solver]]. }
  1: { cbn in H2. subst l2. rewrite app_nil_r in Hn. rewrite merge_ref_nil.
    destruct (merge_rest _ _ _ _ _ _ Hm H1 Hn) as (v & h' & E & Hv & Hr).
    exists v, h'. split_and!; [| exact Hv | eapply relinked_weaken; [exact Hr | set_solver]].
    rewrite (proper_cons _ _ _ _ H1) in E |- *. exact E. }
  (* two conses *)
  pose proof (proper_cons _ _ _ _ H1) as ->. pose proof (proper_cons _ _ _ _ H2) as ->.
  pose proof H1 as (_ & c1 & Hc1 & H1'). pose proof H2 as (_ & c2 & Hc2 & H2').
  destruct (pred_looks h b a Hh) as (z & Ez & Hz); [apply Hin; set_solver.. |].
  assert (c2.1 = car_at h0 b) as E2 by (by rewrite <- (relinked_car _ _ _ _ Hh), (car_at_Some _ _ _ Hc2)).
  assert (c1.1 = car_at h0 a) as E1 by (by rewrite <- (relinked_car _ _ _ _ Hh), (car_at_Some _ _ _ Hc1)).
  cbn [list_merge_loop]. change (NILP (LRec lrecord_cons a)) with false.
  change (NILP (LRec lrecord_cons b)) with false. cbv iota. unfold mbind, L_bind.
  rewrite (Fcar_cons _ _ _ Hc2), (Fcar_cons _ _ _ Hc1), E1, E2, Ez, Hz. rewrite merge_ref_cons.
  fold (lt_at b a).
  assert (forall d, d ∈ acc -> d <> a /\ d <> b /\ d ∉ cs1 /\ d ∉ cs2) as Hacc.
  { apply NoDup_app in Hn as (_ & Hn & _). intros d Hd. specialize (Hn d Hd). set_solver. }
  assert (NoDup (acc ++ [a] ++ cs1 ++ b :: cs2)) as Hna by exact Hn.
  assert (NoDup (acc ++ [b] ++ (a :: cs1) ++ cs2)) as Hnb.
  { change ([b] ++ (a :: cs1) ++ cs2) with (b :: ((a :: cs1) ++ cs2)).
    by rewrite (Permutation_middle (a :: cs1) cs2 b). }
  destruct (lt_at b a) eqn:Elt; cbn [negb].
  - destruct (merge_take acc value tail b cs2 h Hm H2) as (value' & h' & c & Ev & Hc & Hcs & Hm' & Hr & Hk).
    { by apply (NoDup_drop_middle _ (a :: cs1)). }
    rewrite Hc2 in Hc. injection Hc as <-. rewrite (Fcdr_cons _ _ _ Hc2). unfold mret at 1, L_ret at 1.
    unfold mbind, L_bind in Ev. rewrite Ev.
    destruct (IH (LRec lrecord_cons a) c2.2 (LRec lrecord_cons b) value' (acc ++ [b]) (a :: cs1) cs2 h')
      as (v & h'' & E & Hv & Hr'); [eapply relinked_trans; [exact Hh |]; eapply relinked_weaken; [exact Hr |]; set_solver
      | set_solver | done | apply Hk; [done | set_solver] | done | by rewrite <- app_assoc | cbn; lia |].
    exists v, h''. split_and!; [exact E | by rewrite <- app_assoc in Hv |].
    eapply relinked_trans; [eapply relinked_weaken; [exact Hr | set_solver] |].
    eapply relinked_weaken; [exact Hr' | set_solver].
  - destruct (merge_take acc value tail a cs1 h Hm H1) as (value' & h' & c & Ev & Hc & Hcs & Hm' & Hr & Hk).
    { apply (NoDup_drop_middle _ (b :: cs2)). rewrite (Permutation_app_comm (b :: cs2)). exact Hn. }
    rewrite Hc1 in Hc. injection Hc as <-. rewrite (Fcdr_cons _ _ _ Hc1). unfold mret at 1, L_ret at 1.
    unfold mbind, L_bind in Ev. rewrite Ev.
    destruct (IH c1.2 (LRec lrecord_cons b) (LRec lrecord_cons a) value' (acc ++ [a]) cs1 (b :: cs2) h')
      as (v & h'' & E & Hv & Hr'); [eapply relinked_trans; [exact Hh |]; eapply relinked_weaken; [exact Hr |]; set_solver
      | set_solver | done | done | apply Hk; [done | set_solver] | by rewrite <- app_assoc | cbn; lia |].
    exists v, h''. split_and!; [exact E | by rewrite <- app_assoc in Hv |].
    eapply relinked_trans; [eapply relinked_weaken; [exact Hr | set_solver] |].
    eapply relinked_weaken; [exact Hr' | set_solver].
Qed.

Lemma nthcdr_loop_run h x cs y k :
  chain h x cs y -> (k <= length cs)%nat -> nthcdr_loop k x h = (Returns (place cs y k), h).
Proof.
  revert x cs. induction k as [| k IH]; intros x cs Hc Hk; [by rewrite (place_0 _ _ _ _ Hc) |].
  destruct cs as [| a cs]; [cbn in Hk; lia |]. destruct Hc as (-> & c & Hc & Hcs).
  cbn [nthcdr_loop]. rewrite CONSP_cons. unfold mbind, L_bind. rewrite (XCDR_run _ _ _ Hc).
  by rewrite (IH _ cs Hcs) by (cbn in Hk; lia).
Qed.

Lemma Flength_proper h x cs :
  proper h x cs -> (length cs <= fuel)%nat ->
  Flength fuel string_length vector_length bit_vector_length x h = (Returns (zlen cs), h).
Proof.
  intros Hc Hf. pose proof (length_ends fuel h x cs Qnil Hc eq_refl Hf) as E.
  destruct cs as [| a cs]; [by cbn in Hc; subst x |]. pose proof (proper_cons _ _ _ _ Hc) as ->. exact E.
Qed.

(** A list is cut in two behind its cons number [k]. *)
Lemma cut_list h x cs k t c :
  proper h x cs -> cs !! k = Some t -> h !! t = Some c ->
  let h' := <[t := (c.1, Qnil)]> h in
  proper h' x (take (S k) cs) /\ proper h' c.2 (drop (S k) cs) /\ relinked cs h h'.
Proof.
  intros Hp Hk Hc h'. pose proof (chain_NoDup _ _ _ _ Hp eq_refl) as Hn.
  rewrite <- (take_drop_middle cs k t Hk) in Hp, Hn.
  apply NoDup_app in Hn as (_ & Hn1 & [Hn2 _]%NoDup_cons).
  split_and!.
  - rewrite (take_S_r _ _ _ Hk). rewrite cons_middle, app_assoc in Hp. apply chain_app in Hp as (z & Hp & _).
    eapply chain_relink; [exact Hp |]. intros Ht. apply (Hn1 t Ht). set_solver.
  - apply chain_set; [done |]. apply chain_app in Hp as (z & _ & -> & c' & Hc' & Hp).
    rewrite Hc in Hc'. by injection Hc' as <-.
  - apply relinked_set; [done |]. by eapply list_elem_of_lookup_2.
Qed.

Lemma in_take k (cs : list positive) a : a ∈ take k cs -> a ∈ cs.
Proof. intros. rewrite <- (take_drop k cs). set_solver. Qed.

Lemma in_drop k (cs : list positive) a : a ∈ drop k cs -> a ∈ cs.
Proof. intros. rewrite <- (take_drop k cs). set_solver. Qed.

Lemma list_sort_run n x cs h :
  relinked cs0 h0 h -> (forall a, a ∈ cs -> a ∈ cs0) -> proper h x cs ->
  (length cs < n)%nat -> (length cs <= fuel)%nat ->
  exists v h', list_sort fuel pred_fn string_length vector_length bit_vector_length n x h = (Returns v, h') /\
    proper h' v (sort_ref lt_at n cs) /\ relinked cs h h'.
Proof.
  revert x cs h. induction n as [| n IH]; intros x cs h Hh Hin Hp Hn Hf; [lia |].
  cbn [list_sort sort_ref]. unfold mbind, L_bind at 1. rewrite (Flength_proper h x cs Hp Hf).
  destruct (Z.ltb_spec (zlen cs) 2) as [Hs | Hs]; [by exists x, h |].
  pose proof (Z.div_lt_upper_bound (zlen cs) 2 (zlen cs)). pose proof (Z.div_le_lower_bound (zlen cs) 2 1).
  set (k := Z.to_nat (zlen cs / 2 - 1)). destruct (lookup_lt_is_Some_2 cs k) as [t Ht]; [lia |].
  destruct (chain_live _ _ _ _ t Hp) as [c Hc]; [by eapply list_elem_of_lookup_2 |].
  destruct (cut_list h x cs k t c Hp Ht Hc) as (H1 & H2 & Hr). set (h1 := <[t := (c.1, Qnil)]> h) in *.
  assert (Z.to_nat (zlen cs / 2) = S k) as Ek by lia. rewrite Ek.
  assert (Fnthcdr (LInt (zlen cs / 2 - 1)) x h = (Returns (LRec lrecord_cons t), h)) as E1.
  { unfold Fnthcdr, CHECK_NATNUM, mbind, L_bind. rewrite (proj2 (Z.geb_le _ 0)) by lia. unfold mret, L_ret.
    fold k. rewrite (nthcdr_loop_run h x cs Qnil k Hp) by lia. unfold place. by rewrite Ht. }
  destruct (IH x (take (S k) cs) h1) as (front & h2 & E2 & Hv2 & Hr2);
    [by eapply relinked_trans; [| eapply relinked_weaken] | | done | lens; lia | lens; lia |].
  { intros a Ha. by eapply Hin, in_take. }
  pose proof (chain_NoDup _ _ _ _ Hp eq_refl) as Hnd. rewrite <- (take_drop (S k) cs) in Hnd.
  pose proof Hnd as (Hnd1 & Hnd2 & Hnd3)%NoDup_app.
  assert (proper h2 c.2 (drop (S k) cs)) as H2'.
  { eapply chain_relinked; [exact Hr2 | | exact H2]. intros a Ha Hb. by apply (Hnd2 a Hb). }
  assert (relinked cs h h2) as Hh2.
  { eapply relinked_trans; [exact Hr |]. eapply relinked_weaken; [exact Hr2 | apply in_take]. }
  destruct (IH c.2 (drop (S k) cs) h2) as (back & h3 & E3 & Hv3 & Hr3); [| | done | lens; lia | lens; lia |].
  { eapply relinked_trans; [exact Hh |]. by eapply relinked_weaken; [exact Hh2 |]. }
  { intros a Ha. by eapply Hin, in_drop. }
  assert (relinked cs h h3) as Hh3.
  { eapply relinked_trans; [exact Hh2 |]. eapply relinked_weaken; [exact Hr3 | apply in_drop]. }
  assert (sort_ref lt_at n (take (S k) cs) ++ sort_ref lt_at n (drop (S k) cs) ≡ₚ cs) as Hperm
    by (by rewrite !sort_ref_perm, take_drop).
  assert (proper h3 front (sort_ref lt_at n (take (S k) cs))) as Hv2'.
  { eapply chain_relinked; [exact Hr3 | | exact Hv2]. intros a Ha. rewrite sort_ref_perm in Ha. by apply Hnd2. }
  destruct (merge_loop_run fuel front back Qnil Qnil []
    (sort_ref lt_at n (take (S k) cs)) (sort_ref lt_at n (drop (S k) cs)) h3) as (v & h4 & E4 & Hv4 & Hr4);
    [ eapply relinked_trans; [exact Hh |]; by eapply relinked_weaken; [exact Hh3 |]
    | intros a Ha; apply Hin; cbn [app] in Ha; by rewrite Hperm in Ha
    | by left | exact Hv2' | exact Hv3 | cbn [app]; by rewrite Hperm, <- (take_drop (S k) cs)
    | rewrite <- length_app, Hperm; exact Hf |].
  exists v, h4. split_and!; [| exact Hv4 |].
  - unfold L_bind. rewrite E1, (Fcdr_cons _ _ _ Hc), (Fsetcdr_cons _ _ _ Qnil Hc). fold h1. rewrite E2, E3. exact E4.
  - eapply relinked_trans; [exact Hh3 |]. eapply relinked_weaken; [exact Hr4 |].
    intros a Ha. cbn [app] in Ha. by rewrite Hperm in Ha.
Qed.
End Sorting.

(** C29: With a predicate that only looks and that orders the elements, [sort] returns the
    conses of the list in an order in which no element comes before one that is less;
    elements of which neither is less stay in their order; only cdrs of the conses of the
    list change. *)
Theorem sort_in_place fuel string_length vector_length bit_vector_length call2 lt h x cs :
  proper h x cs -> (length cs < fuel)%nat ->
  (forall h' a b, relinked cs h h' -> a ∈ cs -> b ∈ cs -> exists t,
     call2 (car_at h a) (car_at h b) h' = (Returns t, h') /\
     NILP t = negb (lt (car_at h a) (car_at h b))) ->
  (forall a b, lt a b = true -> lt b a = false) ->
  (forall a b c, lt b a = false -> lt c b = false -> lt c a = false) ->
  exists v h' sorted,
    Fsort fuel string_length vector_length bit_vector_length call2 x h = (Returns v, h') /\
    proper h' v sorted /\ relinked cs h h' /\ sorted ≡ₚ cs /\
    StronglySorted (fun a b => lt (car_at h b) (car_at h a) = false) sorted /\
    forall z, List.filter (equivalent (lt_at lt h) z) sorted = List.filter (equivalent (lt_at lt h) z) cs.
Proof.
  intros Hp Hf Hlook Hasym Htrans.
  destruct (list_sort_run fuel (merge_pred_function call2) string_length vector_length bit_vector_length
    lt cs h) with (n := fuel) (x := x) (cs := cs) (h := h) as (v & h' & E & Hv & Hr); [| done..| lia |].
  { intros h' a b Hh Ha Hb. destruct (Hlook h' a b Hh Ha Hb) as (t & Et & Hn).
    exists (if NILP t then -1 else 1). split; [| rewrite <- Hn; by destruct (NILP t)].
    unfold merge_pred_function, mbind, L_bind. by rewrite Et. }
  exists v, h', (sort_ref (lt_at lt h) fuel cs). split_and!; [exact E | done | done | apply sort_ref_perm | |].
  - apply (sort_ref_sorted (lt_at lt h)); [| | lia]; unfold lt_at; eauto.
  - intros z. apply sort_ref_stable; [| | lia]; unfold lt_at; eauto.
Qed.

(** ** At work *)

Lemma sort_in_place_witness :
  let lt := fun a b => match a, b with LInt m, LInt n => m <? n | LInt _, _ => true | _, _ => false end in
  exists v h' sorted,
    Fsort 4 (fun _ => 0) (fun _ => 0) (fun _ => 0) (fun a b => mret (if lt a b then Qt else Qnil))
      (LRec lrecord_cons 1) three = (Returns v, h') /\
    proper h' v sorted /\ relinked [1; 2; 3]%positive three h' /\ sorted ≡ₚ [1; 2; 3]%positive /\
    StronglySorted (fun a b => lt (car_at three b) (car_at three a) = false) sorted /\
    forall z, List.filter (equivalent (lt_at lt three) z) sorted =
              List.filter (equivalent (lt_at lt three) z) [1; 2; 3]%positive.
Proof.
  intros lt. apply (sort_in_place 4 (fun _ => 0) (fun _ => 0) (fun _ => 0)
    (fun a b => mret (if lt a b then Qt else Qnil)) lt three (LRec lrecord_cons 1) [1; 2; 3]%positive).
  - exact three_proper.
  - cbn. lia.
  - intros h' a b _ _ _. exists (if lt (car_at three a) (car_at three b) then Qt else Qnil).
    split; [done |]. by destruct (lt _ _).
  - intros [m | m | t a] [n | n | u b]; cbn; try done. intros ?%Z.ltb_lt. apply Z.ltb_ge. lia.
  - intros [m | m | t a] [n | n | u b] [k | k | w c]; cbn; try done.
    intros ?%Z.ltb_ge ?%Z.ltb_ge. apply Z.ltb_ge. lia.
Defined.

(** Equal elements keep their order: (1 2 1) becomes the conses 1, 3, 2. *)
Example sort_three :
  Fsort 4 (fun _ => 0) (fun _ => 0) (fun _ => 0)
    (fun a b => mret (match a, b with LInt m, LInt n => if m <? n then Qt else Qnil | _, _ => Qnil end))
    (LRec lrecord_cons 1) three =
  (Returns (LRec lrecord_cons 1),
   list_to_map [(1%positive, (LInt 1, LRec lrecord_cons 3)); (2%positive, (LInt 2, Qnil));
     (3%positive, (LInt 1, LRec lrecord_cons 2))]).
Proof. vm_compute. reflexivity. Qed.
