(* ===== verification/Plists.v ===== *)
(** * Property lists

    Properties and values in turn on a list of conses (fns.c 1879-2574).  Property lists
    that Lisp may have changed are checked while they are searched: the loops hold pointers
    to the places where the rest of the list is stored, so that a bad list can be cut. *)

From S2P Require Import Prelude Lisp Lists.

(** ** Places *)

(** A pointer to a Lisp object: the caller's variable, or the cdr of a cons. *)
Inductive slot :=
| the_variable
| cdr_of (a : positive).

(** The caller's variable, and what was said to the user. *)
Record caller := { variable : Lisp_Object; warnings : list (string * Lisp_Object) }.

Definition load (s : caller) (p : slot) : L Lisp_Object :=
  match p with
  | the_variable => mret (variable s)
  | cdr_of a => XCDR (LRec lrecord_cons a)
  end.

Definition store (s : caller) (p : slot) (v : Lisp_Object) : L caller :=
  match p with
  | the_variable => mret {| variable := v; warnings := warnings s |}
  | cdr_of a => XSETCDR (LRec lrecord_cons a) v;; mret s
  end.

(** [&XCDR (x)] *)
Definition addr_XCDR (x : Lisp_Object) : L slot :=
  match x with LRec lrecord_cons a => mret (cdr_of a) | _ => crash end.

Definition warn_when_safe (s : caller) (message : string) (x : Lisp_Object) : caller :=
  {| variable := variable s; warnings := warnings s ++ [(message, x)] |}.

Inductive Error_behavior := ERROR_ME | ERROR_ME_NOT | ERROR_ME_WARN.

(** ** Checks *)

Definition bad_bad_bunny (s : caller) (plist badplace : slot) (errb : Error_behavior)
    : L (Lisp_Object * caller) :=
  match errb with
  | ERROR_ME =>
      list ← load s plist; bad ← load s badplace; signals (Qmalformed_property_list list bad)
  | ERROR_ME_WARN =>
      list ← load s plist;
      s ← store (warn_when_safe s "Malformed property list -- list has been truncated" list) badplace Qnil;
      mret (Qunbound, s)
  | ERROR_ME_NOT => mret (Qunbound, s)
  end.

Definition bad_bad_turtle (s : caller) (plist badplace : slot) (errb : Error_behavior)
    : L (Lisp_Object * caller) :=
  match errb with
  | ERROR_ME => list ← load s plist; signals (Qcircular_property_list list)
  | ERROR_ME_WARN =>
      list ← load s plist;
      s ← store (warn_when_safe s "Circular property list -- list has been truncated" list) badplace Qnil;
      mret (Qunbound, s)
  | ERROR_ME_NOT => mret (Qunbound, s)
  end.

(** The loop of [advance_plist_pointers], [i] turns of it: what the caller returns, or the
    tortoise and the hare. *)
Fixpoint advance_loop (i : nat) (s : caller) (plist tortsave tortoise hare : slot)
    (errb : Error_behavior) : L ((Lisp_Object * caller) + slot * slot) :=
  match i with
  | O => mret (inr (tortoise, hare))
  | S i =>
      x ← load s hare;
      ahead ←
        (if NILP x then mret (Some hare)
         else if CONSP x then
           value ← addr_XCDR x;
           y ← load s value;
           if CONSP y then next ← addr_XCDR y; mret (Some next) else mret None
         else mret None);
      match ahead with
      | None => r ← bad_bad_bunny s plist hare errb; mret (inl r)
      | Some hare =>
          t ← load s tortoise;
          tortoise ← addr_XCDR t;
          x ← load s hare;
          t ← load s tortoise;
          if negb (NILP x) && EQ t x
          then r ← bad_bad_turtle s plist tortsave errb; mret (inl r)
          else advance_loop i s plist tortsave tortoise hare errb
      end
  end.

Definition advance_plist_pointers (s : caller) (plist tortoise hare : slot) (errb : Error_behavior)
    : L ((Lisp_Object * caller) + slot * slot) :=
  advance_loop 2 s plist tortoise tortoise hare errb.

Section Plists.
(** How many turns a loop may take. *)
Variable fuel : nat.

(** ** Access *)

(** The loop of [external_plist_get], [external_plist_put] and [external_remprop], up to
    where the property is found. *)
Inductive walked :=
| Found (tortsave : slot)
| Ended
| Bad (retval : Lisp_Object) (s : caller).

Fixpoint plist_walk (n : nat) (s : caller) (plist : slot) (test : Lisp_Object -> L bool)
    (errb : Error_behavior) (tortoise hare : slot) : L walked :=
  t ← load s tortoise;
  if NILP t then mret Ended
  else match n with
  | O => unfinished
  | S n =>
      r ← advance_plist_pointers s plist tortoise hare errb;
      match r with
      | inl (retval, s) => mret (Bad retval s)
      | inr (tortoise', hare') =>
          t ← load s tortoise; key ← XCAR t;
          b ← test key;
          if (b : bool) then mret (Found tortoise)
          else plist_walk n s plist test errb tortoise' hare'
      end
  end.

(** The equal methods of records other than conses. *)
Variable equal_method : lrecord_type -> positive -> positive -> Z -> L bool.

Definition property_test (property : Lisp_Object) (laxp : bool) (key : Lisp_Object) : L bool :=
  if laxp then internal_equal fuel equal_method key property 0 else mret (EQ key property).

Definition external_plist_get (s : caller) (plist : slot) (property : Lisp_Object) (laxp : bool)
    (errb : Error_behavior) : L (Lisp_Object * caller) :=
  r ← plist_walk fuel s plist (property_test property laxp) errb plist plist;
  match r with
  | Bad retval s => mret (retval, s)
  | Found tortsave => t ← load s tortsave; rest ← XCDR t; v ← XCAR rest; mret (v, s)
  | Ended => mret (Qunbound, s)
  end.

Definition external_plist_put (s : caller) (plist : slot) (property value : Lisp_Object) (laxp : bool)
    (errb : Error_behavior) : L caller :=
  r ← plist_walk fuel s plist (property_test property laxp) errb plist plist;
  match r with
  | Bad _ s => mret s
  | Found tortsave => t ← load s tortsave; rest ← XCDR t; XSETCAR rest value;; mret s
  | Ended =>
      list ← load s plist;
      rest ← Fcons value list; new ← Fcons property rest;
      store s plist new
  end.

Definition external_remprop (s : caller) (plist : slot) (property : Lisp_Object) (laxp : bool)
    (errb : Error_behavior) : L (bool * caller) :=
  r ← plist_walk fuel s plist (property_test property laxp) errb plist plist;
  match r with
  | Bad _ s => mret (false, s)
  | Found tortsave =>
      t ← load s tortsave; rest ← XCDR t; rest ← XCDR rest;
      s ← store s tortsave rest; mret (true, s)
  | Ended => mret (false, s)
  end.

(** The argument of a primitive. *)
Definition argument (x : Lisp_Object) : caller := {| variable := x; warnings := [] |}.

Definition plist_get (laxp : bool) (plist property default_ : Lisp_Object) : L Lisp_Object :=
  '(value, _) ← external_plist_get (argument plist) the_variable property laxp ERROR_ME;
  mret (if UNBOUNDP value then default_ else value).
Definition plist_put (laxp : bool) (plist property value : Lisp_Object) : L Lisp_Object :=
  s ← external_plist_put (argument plist) the_variable property value laxp ERROR_ME;
  mret (variable s).
Definition plist_remprop (laxp : bool) (plist property : Lisp_Object) : L Lisp_Object :=
  '(_, s) ← external_remprop (argument plist) the_variable property laxp ERROR_ME;
  mret (variable s).
Definition plist_member (laxp : bool) (plist property : Lisp_Object) : L Lisp_Object :=
  value ← plist_get laxp plist property Qunbound;
  mret (if UNBOUNDP value then Qnil else Qt).

Definition Fplist_get := plist_get false.
Definition Fplist_put := plist_put false.
Definition Fplist_remprop := plist_remprop false.
Definition Fplist_member := plist_member false.
Definition Flax_plist_get := plist_get true.
Definition Flax_plist_put := plist_put true.
Definition Flax_plist_remprop := plist_remprop true.
Definition Flax_plist_member := plist_member true.

(** ** Checking and cleaning *)

(** A signal does not come back, so that the check is not started over. *)
Definition Fcheck_valid_plist (plist : Lisp_Object) : L Lisp_Object :=
  plist_walk fuel (argument plist) the_variable (fun _ => mret false) ERROR_ME the_variable the_variable;;
  mret Qnil.

Definition Fvalid_plist_p (plist : Lisp_Object) : L Lisp_Object :=
  r ← plist_walk fuel (argument plist) the_variable (fun _ => mret false) ERROR_ME_NOT the_variable the_variable;
  mret match r with Bad _ _ => Qnil | _ => Qt end.

(** [while (external_remprop (&XCDR (next), prop, laxp, ERROR_ME))] *)
Fixpoint remprop_all (n : nat) (plist : slot) (prop : Lisp_Object) (laxp : bool) : L unit :=
  match n with
  | O => unfinished
  | S n =>
      '(removed, _) ← external_remprop (argument Qnil) plist prop laxp ERROR_ME;
      if (removed : bool) then remprop_all n plist prop laxp else mret tt
  end.

Definition CHECK_CONS (x : Lisp_Object) : L unit := if CONSP x then mret tt else wrong_type "consp" x.

Fixpoint canonicalize_loop (n : nat) (laxp : bool) (nil_means_not_present plist head : Lisp_Object)
    : L Lisp_Object :=
  if NILP plist then mret head
  else match n with
  | O => unfinished
  | S n =>
      prop ← Fcar plist;
      next ← Fcdr plist;
      CHECK_CONS next;;
      not_present ←
        (if NILP nil_means_not_present then mret false else value ← Fcar next; mret (NILP value));
      if (not_present : bool) then
        head ← (if EQ head plist then Fcdr next else mret head);
        plist ← Fcdr next;
        canonicalize_loop n laxp nil_means_not_present plist head
      else
        rest ← addr_XCDR next;
        remprop_all fuel rest prop laxp;;
        plist ← Fcdr next;
        canonicalize_loop n laxp nil_means_not_present plist head
  end.

Definition canonicalize (laxp : bool) (plist nil_means_not_present : Lisp_Object) : L Lisp_Object :=
  Fcheck_valid_plist plist;;
  canonicalize_loop fuel laxp nil_means_not_present plist plist.

Definition Fcanonicalize_plist := canonicalize false.
Definition Fcanonicalize_lax_plist := canonicalize true.

(** ** Comparison *)

(** A property of the first list: key, value, and whether it was met on the second. *)
Definition plist_entry : Type := Lisp_Object * Lisp_Object * bool.

(** The pairs of a list that count. *)
Fixpoint extract_pairs (n : nat) (nil_means_not_present : bool) (rest : Lisp_Object)
    : L (list (Lisp_Object * Lisp_Object)) :=
  if NILP rest then mret []
  else match n with
  | O => unfinished
  | S n =>
      k ← XCAR rest;
      tail ← XCDR rest; v ← XCAR tail;
      next ← XCDR tail;
      pairs ← extract_pairs n nil_means_not_present next;
      mret (if nil_means_not_present && NILP v then pairs else (k, v) :: pairs)
  end.

(** A property of the second list is looked up among those of the first; [None] is the
    mismatch. *)
Fixpoint match_entry (depth : Z) (laxp : bool) (k v : Lisp_Object) (entries : list plist_entry)
    : L (option (list plist_entry)) :=
  match entries with
  | [] => mret None
  | (key, val, flag) :: entries =>
      same ← (if laxp then internal_equal fuel equal_method k key depth else mret (EQ k key));
      if (same : bool) then
        equal ← (if depth =? -1 then mret (EQ v val) else internal_equal fuel equal_method v val depth);
        mret (if (equal : bool) then Some ((key, val, true) :: entries) else None)
      else
        r ← match_entry depth laxp k v entries;
        mret match r with Some entries => Some ((key, val, flag) :: entries) | None => None end
  end.

Fixpoint match_pairs (n : nat) (depth : Z) (laxp nil_means_not_present : bool) (rest : Lisp_Object)
    (entries : list plist_entry) : L (option (list plist_entry)) :=
  if NILP rest then mret (Some entries)
  else match n with
  | O => unfinished
  | S n =>
      k ← XCAR rest;
      tail ← XCDR rest; v ← XCAR tail;
      r ← (if nil_means_not_present && NILP v then mret (Some entries)
           else match_entry depth laxp k v entries);
      match r with
      | None => mret None
      | Some entries => next ← XCDR tail; match_pairs n depth laxp nil_means_not_present next entries
      end
  end.

Definition plists_differ (a b : Lisp_Object) (nil_means_not_present laxp : bool) (depth : Z) : L bool :=
  if NILP a && NILP b then mret false
  else
    Fcheck_valid_plist a;;
    Fcheck_valid_plist b;;
    pairs ← extract_pairs fuel nil_means_not_present a;
    r ← match_pairs fuel depth laxp nil_means_not_present b (map (fun '(k, v) => (k, v, false)) pairs);
    mret match r with
         | None => true
         | Some entries => negb (forallb snd entries)
         end.

Definition plists_compare (laxp : bool) (depth : Z) (a b nil_means_not_present : Lisp_Object) : L Lisp_Object :=
  differ ← plists_differ a b (negb (NILP nil_means_not_present)) laxp depth;
  mret (if (differ : bool) then Qnil else Qt).

Definition Fplists_eq := plists_compare false (-1).
Definition Fplists_equal := plists_compare false 1.
Definition Flax_plists_eq := plists_compare true (-1).
Definition Flax_plists_equal := plists_compare true 1.

(** ** Property lists that Lisp does not see *)

Fixpoint internal_plist_loop (n : nat) (tail property : Lisp_Object) : L Lisp_Object :=
  if NILP tail then mret Qnil
  else match n with
  | O => unfinished
  | S n =>
      key ← XCAR tail;
      if EQ key property then mret tail
      else next ← XCDR tail; next ← XCDR next; internal_plist_loop n next property
  end.

Definition internal_plist_get (plist property : Lisp_Object) : L Lisp_Object :=
  tail ← internal_plist_loop fuel plist property;
  if NILP tail then mret Qunbound else rest ← XCDR tail; XCAR rest.

(** The new list is returned. *)
Definition internal_plist_put (plist property value : Lisp_Object) : L Lisp_Object :=
  tail ← internal_plist_loop fuel plist property;
  if NILP tail then rest ← Fcons value plist; Fcons property rest
  else rest ← XCDR tail; XSETCAR rest value;; mret plist.

Fixpoint internal_remprop_loop (n : nat) (plist tail prev property : Lisp_Object)
    : L (bool * Lisp_Object) :=
  if NILP tail then mret (false, plist)
  else match n with
  | O => unfinished
  | S n =>
      key ← XCAR tail;
      rest ← XCDR tail;
      next ← XCDR rest;
      if EQ key property then
        if NILP prev then mret (true, next)
        else value ← XCDR prev; XSETCDR value next;; mret (true, plist)
      else internal_remprop_loop n plist next tail property
  end.

Definition internal_remprop (plist property : Lisp_Object) : L (bool * Lisp_Object) :=
  internal_remprop_loop fuel plist plist Qnil property.
End Plists.
