(* ===== verification/PlistTheory.v ===== *)
(** * Checked traversal of property lists

    The tortoise and the hare of [advance_plist_pointers]: on any object the loop ends, with
    the property, at the end of a well-formed list, or at a place where a bad one can be
    cut. *)

From S2P Require Import Prelude Lisp Lists ListTheory ListMutation Plists.

(** A property list: conses, an even number of them. *)
Definition plist (h : heap) (x : Lisp_Object) (cs : list positive) : Prop :=
  proper h x cs /\ Nat.Even (length cs).

(** ** Meetings *)

(** An object that comes back is met by one that goes twice as fast. *)
Lemma repeat_meets h x p q :
  (p < q)%nat -> nthcdr h p x = nthcdr h q x ->
  exists i, (0 < i <= q)%nat /\ nthcdr h i x = nthcdr h (i + i) x.
Proof.
  intros Hpq E. set (lambda := (q - p)%nat). pose proof (Nat.mod_upper_bound q lambda) as Hr.
  pose proof (Nat.div_mod q lambda) as Hd. set (e := (q / lambda)%nat) in *.
  exists (e * lambda)%nat. assert (p < e * lambda)%nat by (fold lambda in Hd; lia).
  split; [lia |]. symmetry. apply (cycle_repeats h x p); [| lia].
  rewrite E. f_equal. lia.
Qed.

Lemma endless_meets h x :
  endless h x -> exists i, (0 < i <= size h)%nat /\ nthcdr h i x = nthcdr h (i + i) x.
Proof.
  intros He. destruct (endless_cycle h x He) as (mu & lambda & Hl & Hs & E).
  destruct (repeat_meets h x mu (mu + lambda)) as (i & Hi & Ei); [lia | done | exists i; split; [lia | done]].
Qed.

Section Walk.
Variable h : heap.
Variable s : caller.
Variable start : slot.
Variable x : Lisp_Object.
Hypothesis h_ok : heap_ok h.
Hypothesis x_valid : valid h x.
Hypothesis start_load : load s start h = (Returns x, h).

Abbreviation X k := (nthcdr h k x).

(** Where the object number [k] is stored. *)
Definition slot_at (k : nat) : slot :=
  match k with
  | O => start
  | S k => match X k with LRec lrecord_cons a => cdr_of a | _ => start end
  end.

Definition conses_below (k : nat) : Prop := forall j, (j < k)%nat -> CONSP (X j) = true.

Lemma conses_chain k :
  conses_below k -> exists cs, length cs = k /\ chain h x cs (X k).
Proof.
  induction k as [| k IH]; intros Hk; [by exists [] |].
  destruct IH as (cs & Hl & Hc); [intros j Hj; apply Hk; lia |].
  destruct (CONSP_true _ (Hk k ltac:(lia))) as [a Ea]. rewrite Ea in Hc.
  destruct (chain_valid _ _ _ _ h_ok x_valid Hc) as [c Ha].
  exists (cs ++ [a]). split; [rewrite length_app; cbn; lia |].
  rewrite nthcdr_S, Ea. cbn. rewrite Ha. by apply chain_snoc.
Qed.

Lemma cons_at k : conses_below (S k) -> exists a c, X k = LRec lrecord_cons a /\ h !! a = Some c /\ c.2 = X (S k).
Proof.
  intros Hk. destruct (conses_chain k) as (cs & _ & Hc); [intros j Hj; apply Hk; lia |].
  destruct (CONSP_true _ (Hk k ltac:(lia))) as [a Ea]. rewrite Ea in Hc.
  destruct (chain_valid _ _ _ _ h_ok x_valid Hc) as [c Ha]. exists a, c. split_and!; [done.. |].
  rewrite nthcdr_S, Ea. cbn. by rewrite Ha.
Qed.

Lemma conses_S k : conses_below k -> CONSP (X k) = true -> conses_below (S k).
Proof. intros Hk Hx j Hj. destruct (decide (j = k)) as [-> |]; [done | apply Hk; lia]. Qed.

Lemma conses_less j k : conses_below k -> (j <= k)%nat -> conses_below j.
Proof. intros Hk Hj i Hi. apply Hk. lia. Qed.

Lemma load_at k : conses_below k -> load s (slot_at k) h = (Returns (X k), h).
Proof.
  destruct k as [| k]; intros Hk; [exact start_load |].
  destruct (cons_at k Hk) as (a & c & Ea & Hc & E). cbn [slot_at]. rewrite Ea. cbn [load].
  by rewrite (XCDR_run _ _ _ Hc), E.
Qed.

Lemma addr_at k : CONSP (X k) = true -> addr_XCDR (X k) h = (Returns (slot_at (S k)), h).
Proof. intros (a & Ea)%CONSP_true. cbn [slot_at]. by rewrite Ea. Qed.

(** ** One turn *)

(** After [t] turns the tortoise is at [t] and the hare at [j]: twice as far, and they
    have not met; or at the end. *)
Record at_turn (t j : nat) : Prop := {
  tn_conses : conses_below j;
  tn_behind : (t <= j)%nat;
  tn_even : Nat.Even j;
  tn_hare : j = (t + t)%nat /\ (forall m, (0 < m <= t)%nat -> X m <> X (m + m)) \/ X j = Qnil;
}.

(** A list that ends with an object other than nil, or behind a property. *)
Definition malformed_at (j : nat) : Prop :=
  conses_below j /\ Nat.Even j /\ X j <> Qnil /\ (CONSP (X j) = true -> CONSP (X (S j)) = false).

(** The two meet after the turn [t]. *)
Definition meet_at (t : nat) : Prop :=
  conses_below (2 + (t + t)) /\ X (S t) = X (2 + (t + t)) /\
  forall m, (0 < m <= t)%nat -> X m <> X (m + m).

Variable errb : Error_behavior.

Definition bunny_at (j : nat) : L ((Lisp_Object * caller) + slot * slot) :=
  r ← bad_bad_bunny s start (slot_at j) errb; mret (inl r).
Definition turtle_at (k : nat) : L ((Lisp_Object * caller) + slot * slot) :=
  r ← bad_bad_turtle s start (slot_at k) errb; mret (inl r).

Lemma advance_turn i k t j :
  at_turn t j -> ((t < j)%nat \/ X j <> Qnil) ->
  let m := advance_loop (S i) s start (slot_at k) (slot_at t) (slot_at j) errb h in
  (exists j', at_turn (S t) j' /\
     m = advance_loop i s start (slot_at k) (slot_at (S t)) (slot_at j') errb h) \/
  (malformed_at j /\ m = bunny_at j h) \/
  (meet_at t /\ m = turtle_at k h).
Proof.
  intros [Hc Hb He Hh] Ht m. unfold m. cbn [advance_loop]. unfold mbind, L_bind. rewrite (load_at j Hc).
  destruct (NILP (X j)) eqn:En.
  - pose proof (proj1 (NILP_nil _) En) as Ej. destruct Ht as [Ht | Ht]; [| done]. left. exists j.
    split; [split; [done | lia | done | by right] |]. cbn [mret L_ret]. unfold mret, L_ret.
    rewrite (load_at t (conses_less t j Hc Hb)), (addr_at t (Hc t Ht)), (load_at j Hc).
    rewrite (load_at (S t) (conses_less (S t) j Hc Ht)), En. done.
  - assert (X j <> Qnil) as Hn by (intros E; rewrite E in En; done).
    destruct (CONSP (X j)) eqn:Ej; [| right; left; split; [split_and!; [done.. | congruence] | done]].
    rewrite (addr_at j Ej). pose proof (conses_S j Hc Ej) as Hc1. rewrite (load_at (S j) Hc1).
    destruct (CONSP (X (S j))) eqn:Ej1; [| right; left; split; [by split_and! | done]].
    rewrite (addr_at (S j) Ej1). pose proof (conses_S (S j) Hc1 Ej1) as Hc2. unfold mret, L_ret.
    rewrite (load_at t (conses_less t j Hc Hb)), (addr_at t (Hc1 t ltac:(lia))), (load_at (S (S j)) Hc2).
    rewrite (load_at (S t) (conses_less (S t) _ Hc1 ltac:(lia))).
    destruct Hh as [[-> Hm] | ?]; [| done].
    destruct (NILP (X (S (S (t + t))))) eqn:E2; cbn [negb andb].
    + left. exists (2 + (t + t))%nat. split; [| done]. split; [done | lia | by apply Nat.Even_succ_succ |].
      right. by apply NILP_nil.
    + destruct (EQ (X (S t)) (X (S (S (t + t))))) eqn:Eq.
      * right; right. split; [| done]. apply EQ_true in Eq. by split_and!.
      * left. exists (2 + (t + t))%nat. split; [| done]. split; [done | lia | by apply Nat.Even_succ_succ |].
        left. split; [lia |]. intros k' Hk'. destruct (decide (k' = S t)) as [-> |]; [| apply Hm; lia].
        apply EQ_false in Eq. replace (S t + S t)%nat with (S (S (t + t))) by lia. done.
Qed.

(** As far as they get there are no more objects than conses. *)
Lemma turn_bound t j : at_turn t j -> (t <= size h)%nat.
Proof.
  intros [Hc Hb _ Hh]. destruct (list_shape h x h_ok x_valid) as [(cs & y & Hch & Hy) | He].
  - pose proof (chain_fits _ _ _ _ Hch Hy).
    pose proof (chain_conses h x cs y j Hch Hy Hc). lia.
  - destruct Hh as [[_ Hm] | Hn].
    + destruct (endless_meets h x He) as (i & Hi & E). destruct (decide (i <= t)%nat); [| lia].
      exfalso. by apply (Hm i); [lia |].
    + destruct (He j) as (a & Ea & _). by rewrite Ea in Hn.
Qed.

(** Where they meet the list has come back; where the tortoise is it has not. *)
Lemma meet_endless t : meet_at t -> endless h x.
Proof.
  intros (Hc & E & _). destruct (list_shape h x h_ok x_valid) as [(cs & y & Hch & Hy) | He]; [| done].
  exfalso. apply (chain_no_repeat h x cs y (S t) (2 + (t + t)) Hch Hy); [lia | | done].
  by eapply chain_conses.
Qed.

(** ** The walk *)

Definition key_at (k : nat) : Lisp_Object :=
  match X (k + k) with LRec lrecord_cons a => car_at h a | _ => Qnil end.

Variable test : Lisp_Object -> L bool.
Variable f : Lisp_Object -> bool.
Hypothesis test_looks : forall k, CONSP (X (k + k)) = true ->
  test (key_at k) h = (Returns (f (key_at k)), h).

(** The first [k] properties are others. *)
Definition absent (k : nat) : Prop := forall m, (m < k)%nat -> f (key_at m) = false.

Definition bad (report : L (Lisp_Object * caller)) : L walked :=
  '(retval, s) ← report; mret (Bad retval s).

Inductive walk_spec : list_outcome walked * heap -> Prop :=
| walk_found k :
    conses_below (2 + (k + k)) -> f (key_at k) = true -> absent k ->
    walk_spec (Returns (Found (slot_at (k + k))), h)
| walk_ended k :
    conses_below (k + k) -> X (k + k) = Qnil -> absent k -> walk_spec (Returns Ended, h)
| walk_malformed j :
    malformed_at j -> walk_spec (bad (bad_bad_bunny s start (slot_at j) errb) h)
| walk_circular k t :
    meet_at t -> (k + k <= t)%nat -> absent k -> walk_spec (bad (bad_bad_turtle s start (slot_at (k + k)) errb) h).

(** Both turns that make a turn of the walk. *)
Lemma advance_walk k j :
  at_turn (k + k) j -> X (k + k) <> Qnil ->
  let m := advance_plist_pointers s start (slot_at (k + k)) (slot_at j) errb h in
  (exists j', at_turn (S k + S k) j' /\ m = (Returns (inr (slot_at (S k + S k), slot_at j')), h)) \/
  (exists j, malformed_at j /\ m = bunny_at j h) \/
  (exists t, meet_at t /\ (k + k <= t)%nat /\ m = turtle_at (k + k) h).
Proof.
  intros Hk Hx m. unfold m, advance_plist_pointers. clear m.
  pose proof (tn_behind _ _ Hk).
  assert ((k + k < j)%nat \/ X j <> Qnil) as Hpre
    by (destruct (decide (j = (k + k)%nat)) as [-> |]; [by right | left; lia]).
  destruct (advance_turn 1 (k + k) (k + k) j Hk Hpre) as [(j1 & H1 & ->) | [(H1 & ->) | (H1 & ->)]];
    [| by right; left; exists j | by right; right; exists (k + k)%nat].
  assert ((S (k + k) < j1)%nat \/ X j1 <> Qnil) as Hpre1
    by (left; pose proof (tn_behind _ _ H1); destruct (tn_even _ _ H1) as [e He]; lia).
  destruct (advance_turn 0 (k + k) (S (k + k)) j1 H1 Hpre1) as [(j2 & H2 & ->) | [(H2 & ->) | (H2 & ->)]].
  - left. exists j2. replace (S k + S k)%nat with (S (S (k + k))) by lia. done.
  - by right; left; exists j1.
  - right; right. exists (S (k + k)). split_and!; [done | lia | done].
Qed.

Lemma plist_walk_from n k j :
  at_turn (k + k) j -> absent k -> (size h < n + k)%nat ->
  walk_spec (plist_walk n s start test errb (slot_at (k + k)) (slot_at j) h).
Proof.
  revert k j. induction n as [| n IH]; intros k j Hk Ha Hn; pose proof (turn_bound _ _ Hk) as Hb;
    pose proof (conses_less _ _ (tn_conses _ _ Hk) (tn_behind _ _ Hk)) as Hc; [lia |].
  cbn [plist_walk]. unfold mbind, L_bind at 1. rewrite (load_at _ Hc).
  destruct (NILP (X (k + k))) eqn:En; [apply NILP_nil in En; by eapply walk_ended |].
  assert (X (k + k) <> Qnil) as Hx by (intros E; by rewrite E in En).
  unfold L_bind at 1.
  destruct (advance_walk k j Hk Hx) as [(j' & Hj & ->) | [(i & Hi & ->) | (t & Ht & Hkt & ->)]].
  - pose proof (tn_conses _ _ Hj) as Hc'. pose proof (tn_behind _ _ Hj) as Hb'.
    assert (CONSP (X (k + k)) = true) as Hcons by (apply Hc'; lia).
    destruct (cons_at (k + k) (conses_S _ Hc Hcons)) as (a & c & Ea & Hac & _).
    unfold L_bind at 1. rewrite (load_at _ Hc), Ea. unfold L_bind at 1. rewrite (XCAR_run _ _ _ Hac).
    unfold L_bind. pose proof (test_looks k Hcons) as Et. unfold key_at in Et at 1. rewrite Ea in Et.
    rewrite (car_at_Some _ _ _ Hac) in Et. rewrite Et. destruct (f (key_at k)) eqn:Ef.
    + eapply walk_found; [| done..]. eapply conses_less; [exact Hc' | lia].
    + apply IH; [done | | lia]. intros m Hm. destruct (decide (m = k)) as [-> |]; [done | apply Ha; lia].
  - unfold bunny_at, mbind, L_bind. pose proof (walk_malformed i Hi) as Hw. unfold bad, mbind, L_bind in Hw.
    destruct (bad_bad_bunny _ _ _ _ h) as [[[]| | |] ?]; exact Hw.
  - unfold turtle_at, mbind, L_bind. pose proof (walk_circular k t Ht Hkt Ha) as Hw. unfold bad, mbind, L_bind in Hw.
    destruct (bad_bad_turtle _ _ _ _ h) as [[[]| | |] ?]; exact Hw.
Qed.

Lemma plist_walk_run n :
  (size h < n)%nat -> walk_spec (plist_walk n s start test errb start start h).
Proof.
  intros Hn. apply (plist_walk_from n 0 0); [| intros m Hm; lia | lia].
  split; [intros i Hi; lia | lia | by exists 0%nat | left]. split; [done |]. intros m Hm. lia.
Qed.

End Walk.

(** ** Bad lists *)

Section Bad_lists.
Variable h : heap.
Variable x : Lisp_Object.
Hypothesis h_ok : heap_ok h.
Hypothesis x_valid : valid h x.

Abbreviation X k := (nthcdr h k x).
Abbreviation conses_below := (conses_below h x).
Abbreviation malformed_at := (malformed_at h x).
Abbreviation meet_at := (meet_at h x).

Lemma malformed_shape j :
  malformed_at j ->
  (exists cs y, chain h x cs y /\ CONSP y = false) /\ forall cs, ~ plist h x cs.
Proof.
  intros (Hc & [e He] & Hn & Hs).
  assert (exists cs y, chain h x cs y /\ CONSP y = false /\ (y = Qnil -> Nat.Odd (length cs))) as (cs & y & Hch & Hy & Hodd).
  { destruct (conses_chain h x h_ok x_valid j Hc) as (cs & Hl & Hch). destruct (CONSP (X j)) eqn:Ej; [| by exists cs, (X j)].
    destruct (conses_chain h x h_ok x_valid (S j) (conses_S h x _ Hc Ej)) as (cs' & Hl' & Hch'). exists cs', (X (S j)).
    split_and!; [done | by apply Hs |]. intros _. exists e. lia. }
  split; [by exists cs, y |]. intros cs' [Hp [e' He']].
  destruct (chain_det _ _ _ _ _ _ Hch Hp Hy eq_refl) as [-> ->]. destruct (Hodd eq_refl). lia.
Qed.

Lemma meet_not_plist t : meet_at t -> forall cs, ~ plist h x cs.
Proof.
  intros Ht%(meet_endless h x h_ok x_valid) cs [Hp _]. by pose proof (endless_no_end _ _ _ _ Ht Hp).
Qed.

Lemma ended_plist k : conses_below (k + k) -> X (k + k) = Qnil -> exists cs, plist h x cs.
Proof.
  intros Hc Hx. destruct (conses_chain h x h_ok x_valid _ Hc) as (cs & Hl & Hch). exists cs. rewrite Hx in Hch.
  split; [done |]. exists k. lia.
Qed.

(** Where a list is cut it has not come back to. *)
Lemma malformed_distinct j p q : malformed_at j -> (p < q)%nat -> (q < j)%nat -> X p <> X q.
Proof.
  intros Hm Hpq Hq. pose proof Hm as (Hc & _).
  destruct (malformed_shape j Hm) as [(cs & y & Hch & Hy) _]. apply not_eq_sym.
  eapply chain_no_repeat; [exact Hch | done | done |]. pose proof (chain_conses h x cs y j Hch Hy Hc). lia.
Qed.

Lemma meet_distinct t p q : meet_at t -> (p < q)%nat -> (q <= t)%nat -> X p <> X q.
Proof.
  intros (_ & _ & Hm) Hpq Hq E. destruct (repeat_meets h x p q Hpq E) as (i & Hi & Ei).
  by apply (Hm i); [lia |].
Qed.

Lemma chain_NoDup_at k cs y :
  chain h x cs y -> length cs = k -> (forall p q, (p < q)%nat -> (q < k)%nat -> X p <> X q) -> NoDup cs.
Proof.
  intros Hc Hl Hd. apply NoDup_alt. intros i j a Hi Hj.
  pose proof (chain_at _ _ _ _ _ _ Hc Hi) as Ei. pose proof (chain_at _ _ _ _ _ _ Hc Hj) as Ej.
  apply lookup_lt_Some in Hi, Hj. destruct (lt_eq_lt_dec i j) as [[? | ?] | ?]; [| done |].
  - exfalso. apply (Hd i j); [done | lia | congruence].
  - exfalso. apply (Hd j i); [done | lia | congruence].
Qed.

(** A list that is cut at an even place is a property list. *)
Lemma truncate (s' : caller) k :
  conses_below k -> Nat.Even k ->
  (forall p q, (p < q)%nat -> (q < k)%nat -> X p <> X q) ->
  variable s' = x ->
  exists s2 h' cs,
    store s' (slot_at h the_variable x k) Qnil h = (Returns s2, h') /\ warnings s2 = warnings s' /\
    length cs = k /\ chain h x cs (X k) /\ plist h' (variable s2) cs /\ relinked cs h h'.
Proof.
  intros Hc He Hd Hv. destruct (conses_chain h x h_ok x_valid k Hc) as (cs & Hl & Hch).
  pose proof (chain_NoDup_at k cs _ Hch Hl Hd) as Hn. destruct k as [| k].
  - destruct cs; [| done]. by exists {| variable := Qnil; warnings := warnings s' |}, h, [].
  - destruct (cons_at h x h_ok x_valid k Hc) as (a & c & Ea & Hac & _). cbn [slot_at]. rewrite Ea.
    destruct cs as [| a' cs' _] using rev_ind; [done |].
    rewrite length_app in Hl. cbn in Hl.
    assert (a' = a) as ->.
    { assert (X k = LRec lrecord_cons a') as E; [| congruence].
      eapply chain_at; [exact Hch |]. rewrite lookup_app_r by lia. by replace (k - length cs')%nat with 0%nat by lia. }
    apply NoDup_app in Hn as (_ & Hn & _).
    exists s', (<[a := (c.1, Qnil)]> h), (cs' ++ [a]). split_and!; [| done | | | | ].
    + cbn [store]. unfold XSETCDR, XCONS, set_cons, mbind, L_bind. by rewrite Hac.
    + rewrite length_app. cbn. lia.
    + done.
    + rewrite Hv. split; [| rewrite length_app; cbn; by replace (length cs' + 1)%nat with (S k) by lia].
      eapply chain_relink; [exact Hch |]. intros Ha. apply (Hn a Ha). set_solver.
    + apply relinked_set; [done | set_solver].
Qed.
End Bad_lists.
