(* ===== verification/PlistLaws.v ===== *)
(** * What property lists promise

    On a property list the operations are those of a list of pairs; any other object is
    caught, and repaired when the caller asks for that. *)

From S2P Require Import Prelude Lisp Lists ListTheory ListMutation Plists PlistTheory.

(** ** Checking and repairing *)

Section Any.
Variable fuel : nat.
Variable equal_method : lrecord_type -> positive -> positive -> Z -> L bool.
Variable h : heap.
Variable x : Lisp_Object.
Hypothesis h_ok : heap_ok h.
Hypothesis x_valid : valid h x.
Hypothesis fuel_enough : (size h < fuel)%nat.

Lemma argument_load : load (argument x) the_variable h = (Returns x, h).
Proof. done. Qed.

(** The check of any object. *)
Lemma check_walk errb :
  (exists cs, plist h x cs /\
    plist_walk fuel (argument x) the_variable (fun _ => mret false) errb the_variable the_variable h =
    (Returns Ended, h)) \/
  (forall cs, ~ plist h x cs) /\ exists report,
    plist_walk fuel (argument x) the_variable (fun _ => mret false) errb the_variable the_variable h = bad report h /\
    ((exists cs y, chain h x cs y /\ CONSP y = false) /\
       (exists p y, report = bad_bad_bunny (argument x) the_variable p errb /\ load (argument x) p h = (Returns y, h)) \/
     endless h x /\ exists p, report = bad_bad_turtle (argument x) the_variable p errb).
Proof.
  destruct (plist_walk_run h (argument x) the_variable x h_ok x_valid argument_load errb (fun _ => mret false)
    (fun _ => false) (fun _ _ => eq_refl) fuel fuel_enough) as [k _ Hf _ | k Hc Hx _ | j Hm | k t Ht Hk _]; [done | | |].
  - left. destruct (ended_plist _ _ h_ok x_valid k Hc Hx) as [cs Hp]. by exists cs.
  - right. destruct (malformed_shape _ _ h_ok x_valid j Hm) as [Hs Hn]. split; [done |]. eexists. split; [done |].
    left. split; [done |]. do 2 eexists. split; [done |]. apply load_at; [done.. |]. apply Hm.
  - right. split; [by eapply meet_not_plist |]. eexists. split; [done |]. right.
    split; [by eapply meet_endless | eauto].
Qed.
End Any.

(** C31: valid-plist-p and check-valid-plist end on every object: on a property list with t
    and nil; on any other object with nil and an error, that the list is circular when it
    has no end and that it is malformed otherwise. *)
Theorem bad_plists_are_caught fuel h x :
  heap_ok h -> valid h x -> (size h < fuel)%nat ->
  (exists cs, plist h x cs) /\ Fvalid_plist_p fuel x h = (Returns Qt, h) /\
    Fcheck_valid_plist fuel x h = (Returns Qnil, h) \/
  (forall cs, ~ plist h x cs) /\ Fvalid_plist_p fuel x h = (Returns Qnil, h) /\
    exists e, Fcheck_valid_plist fuel x h = (Signals e, h) /\
      (endless h x /\ e = Qcircular_property_list x \/
       (exists cs y, chain h x cs y /\ CONSP y = false) /\ exists y, e = Qmalformed_property_list x y).
Proof.
  intros Hh Hx Hf. unfold Fvalid_plist_p, Fcheck_valid_plist, mbind, L_bind.
  destruct (check_walk fuel h x Hh Hx Hf ERROR_ME_NOT) as [(cs & Hp & ->) | (Hn & r & -> & Hr)];
    destruct (check_walk fuel h x Hh Hx Hf ERROR_ME) as [(cs' & Hp' & ->) | (Hn' & r' & -> & Hr')].
  - left. eauto.
  - by destruct (Hn' cs).
  - by destruct (Hn cs').
  - right. split; [done |]. split.
    + by destruct Hr as [(_ & p & y & -> & _) | (_ & p & ->)].
    + destruct Hr' as [(Hs & p & y & -> & Hl) | (He & p & ->)].
      * exists (Qmalformed_property_list x y). split; [| right; eauto].
        unfold bad, bad_bad_bunny, mbind, L_bind. rewrite argument_load, Hl. done.
      * exists (Qcircular_property_list x). split; [done | auto].
Qed.

(** C32: With the error behaviour ERROR_ME_WARN external_plist_get ends on every object: it
    has found the property, and changed nothing; or the variable holds a property list
    afterwards - the same, or if it was none the conses of its beginning, with one
    warning. *)
Theorem bad_plists_are_repaired fuel equal_method h x property :
  heap_ok h -> valid h x -> (size h < fuel)%nat ->
  exists v s' h',
    external_plist_get fuel equal_method (argument x) the_variable property false ERROR_ME_WARN h =
      (Returns (v, s'), h') /\
    ((h' = h /\ s' = argument x /\ exists k a b,
        nthcdr h (k + k) x = LRec lrecord_cons a /\ car_at h a = property /\
        nthcdr h (S (k + k)) x = LRec lrecord_cons b /\ v = car_at h b) \/
     (v = Qunbound /\ exists cs, plist h' (variable s') cs /\
        ((h' = h /\ s' = argument x) \/
         ((forall l, ~ plist h x l) /\ length (warnings s') = 1%nat /\ relinked cs h h' /\
          exists y, chain h x cs y)))).
Proof.
  intros Hh Hx Hf. unfold external_plist_get, mbind, L_bind.
  destruct (plist_walk_run h (argument x) the_variable x Hh Hx (argument_load h x) ERROR_ME_WARN
    (property_test fuel equal_method property false) (fun key => EQ key property) (fun _ _ => eq_refl) fuel Hf)
    as [k Hc Hk _ | k Hc Hn _ | j Hm | k t Ht Hk _].
  - destruct (cons_at _ _ Hh Hx (k + k)) as (a & c & Ea & Ha & Ea'); [eapply conses_less; [exact Hc | lia] |].
    destruct (cons_at _ _ Hh Hx (S (k + k)) Hc) as (b & d & Eb & Hb & _).
    rewrite (load_at _ _ _ _ Hh Hx (argument_load h x)) by (eapply conses_less; [exact Hc | lia]).
    rewrite Ea, (XCDR_run _ _ _ Ha), Ea', Eb, (XCAR_run _ _ _ Hb).
    exists d.1, (argument x), h. split; [done |]. left. split_and!; [done.. |]. exists k, a, b.
    unfold key_at in Hk. rewrite Ea in Hk. apply EQ_true in Hk. by rewrite (car_at_Some _ _ _ Hb).
  - destruct (ended_plist _ _ Hh Hx k Hc Hn) as [cs Hp]. exists Qunbound, (argument x), h.
    split; [done |]. right. split; [done |]. exists cs. auto.
  - pose proof Hm as (Hc & He & _). destruct (malformed_shape _ _ Hh Hx j Hm) as [_ Hn].
    destruct (truncate h x Hh Hx
      (warn_when_safe (argument x) "Malformed property list -- list has been truncated" x) j Hc He)
      as (s2 & h' & cs & E & Hw & _ & Hch & Hp & Hr); [| done |].
    { intros p q. by apply malformed_distinct. }
    exists Qunbound, s2, h'. split.
    + unfold bad, bad_bad_bunny, mbind, L_bind. rewrite argument_load, E. done.
    + right. split; [done |]. exists cs. split; [done |]. right. rewrite Hw. eauto.
  - pose proof Ht as (Hc & _).
    destruct (truncate h x Hh Hx
      (warn_when_safe (argument x) "Circular property list -- list has been truncated" x) (k + k))
      as (s2 & h' & cs & E & Hw & _ & Hch & Hp & Hr); [| by exists k; lia | | done |].
    { eapply conses_less; [exact Hc | lia]. }
    { intros p q Hpq Hq. eapply meet_distinct; [done.. | lia]. }
    exists Qunbound, s2, h'. split.
    + unfold bad, bad_bad_turtle, mbind, L_bind. rewrite argument_load, E. done.
    + right. split; [done |]. exists cs. split; [done |]. right. rewrite Hw.
      split_and!; [by eapply meet_not_plist | done.. | eauto].
Qed.

(** ** Lists of pairs *)

Fixpoint pairs (h : heap) (cs : list positive) : list (Lisp_Object * Lisp_Object) :=
  match cs with
  | k :: v :: cs => (car_at h k, car_at h v) :: pairs h cs
  | _ => []
  end.

Fixpoint pl_get (p : Lisp_Object) (l : list (Lisp_Object * Lisp_Object)) : option Lisp_Object :=
  match l with
  | [] => None
  | (k, v) :: l => if EQ k p then Some v else pl_get p l
  end.

(** The value of the first property [p] replaced; the first property [p] taken out. *)
Fixpoint pl_set (p v : Lisp_Object) (l : list (Lisp_Object * Lisp_Object)) :=
  match l with
  | [] => []
  | (k, w) :: l => if EQ k p then (k, v) :: l else (k, w) :: pl_set p v l
  end.
Fixpoint pl_remove (p : Lisp_Object) (l : list (Lisp_Object * Lisp_Object)) :=
  match l with
  | [] => []
  | (k, w) :: l => if EQ k p then l else (k, w) :: pl_remove p l
  end.
Definition pl_put (p v : Lisp_Object) (l : list (Lisp_Object * Lisp_Object)) :=
  match pl_get p l with Some _ => pl_set p v l | None => (p, v) :: l end.

Definition others (p : Lisp_Object) (l : list (Lisp_Object * Lisp_Object)) : Prop :=
  Forall (fun kv => EQ kv.1 p = false) l.

Section Pairs.
Implicit Types (h : heap) (cs : list positive) (l : list (Lisp_Object * Lisp_Object)).

Lemma pairs_app h cs1 cs2 : Nat.Even (length cs1) -> pairs h (cs1 ++ cs2) = pairs h cs1 ++ pairs h cs2.
Proof.
  intros [n Hn]. revert cs1 Hn. induction n as [| n IH]; intros [| k [| v cs1]] Hn; cbn in Hn; try lia; [done |].
  cbn [pairs app]. rewrite IH by lia. done.
Qed.

Lemma pairs_ext h h' cs : (forall a, a ∈ cs -> car_at h' a = car_at h a) -> pairs h' cs = pairs h cs.
Proof.
  intros He. remember (length cs) as n eqn:Hn. revert cs Hn He.
  induction n as [n IH] using lt_wf_ind. intros [| k [| v cs]] Hn He; [done.. |].
  cbn [pairs]. rewrite !He by set_solver. erewrite (IH (length cs)); [done | cbn in Hn; lia | done |].
  intros a Ha. apply He. set_solver.
Qed.

Lemma pairs_relinked ds h h' cs : relinked ds h h' -> pairs h' cs = pairs h cs.
Proof. intros Hr. apply pairs_ext. intros a _. by eapply relinked_car. Qed.

Lemma pairs_lookup h cs k kv :
  pairs h cs !! k = Some kv -> exists a, cs !! (k + k)%nat = Some a /\ kv.1 = car_at h a.
Proof.
  revert cs. induction k as [| k IH]; intros [| a [| v cs]] Hk; try done.
  - injection Hk as <-. by exists a.
  - destruct (IH cs Hk) as (b & Hb & E). exists b. by replace (S k + S k)%nat with (S (S (k + k))) by lia.
Qed.

Lemma pl_get_app p l1 l2 : others p l1 -> pl_get p (l1 ++ l2) = pl_get p l2.
Proof. induction 1 as [| [k v] l1 E H IH]; [done |]. cbn in *. by rewrite E. Qed.

Lemma pl_set_app p v l1 l2 : others p l1 -> pl_set p v (l1 ++ l2) = l1 ++ pl_set p v l2.
Proof. induction 1 as [| [k w] l1 E H IH]; [done |]. cbn in *. by rewrite E, IH. Qed.

Lemma pl_remove_app p l1 l2 : others p l1 -> pl_remove p (l1 ++ l2) = l1 ++ pl_remove p l2.
Proof. induction 1 as [| [k w] l1 E H IH]; [done |]. cbn in *. by rewrite E, IH. Qed.

Lemma others_get p l : others p l -> pl_get p l = None.
Proof. intros H. rewrite <- (app_nil_r l). by rewrite pl_get_app. Qed.

(** What was put is found, and nothing else has changed. *)
Lemma pl_get_put p q v l : pl_get q (pl_put p v l) = if EQ p q then Some v else pl_get q l.
Proof.
  unfold pl_put. destruct (pl_get p l) eqn:Ep; [| done].
  revert Ep. induction l as [| [k w] l IH]; intros Ep; [done |]. cbn in *.
  destruct (EQ k p) eqn:Ek; cbn.
  - apply EQ_true in Ek as ->. by destruct (EQ p q).
  - destruct (EQ k q) eqn:Eq; [| by apply IH]. destruct (EQ p q) eqn:Epq; [| done].
    apply EQ_true in Eq as <-. apply EQ_true in Epq as ->. by rewrite EQ_refl in Ek.
Qed.
End Pairs.

(** ** The operations *)

Lemma plist_parts h x cs k :
  plist h x cs -> conses_below h x (2 + (k + k)) -> exists l1 a b l2,
    cs = l1 ++ a :: b :: l2 /\ length l1 = (k + k)%nat.
Proof.
  intros [Hc _] Hk. pose proof (chain_conses h x cs Qnil _ Hc eq_refl Hk) as Hl.
  destruct (lookup_lt_is_Some_2 cs (k + k)) as [a Ha]; [lia |].
  destruct (lookup_lt_is_Some_2 cs (S (k + k))) as [b Hb]; [lia |].
  exists (take (k + k) cs), a, b, (drop (2 + (k + k)) cs). split; [| apply length_take_le; lia].
  rewrite <- (take_drop_middle cs (k + k) a Ha) at 1. do 2 f_equal.
  change (2 + (k + k))%nat with (S (S (k + k))). by apply drop_S.
Qed.

(** Where the rest of the list behind [l] is stored. *)
Definition slot_behind (start : slot) (l : list positive) : slot :=
  match last l with Some a => cdr_of a | None => start end.

Section Operations.
Variable fuel : nat.
Variable equal_method : lrecord_type -> positive -> positive -> Z -> L bool.
Variable h : heap.
Variable s : caller.
Variable start : slot.
Variable x : Lisp_Object.
Variable cs : list positive.
Hypothesis h_ok : heap_ok h.
Hypothesis x_valid : valid h x.
Hypothesis fuel_enough : (size h < fuel)%nat.
Hypothesis start_load : load s start h = (Returns x, h).
Hypothesis is_plist : plist h x cs.
Variable p : Lisp_Object.

Lemma slot_at_behind k l1 l2 : cs = l1 ++ l2 -> length l1 = k -> slot_at h start x k = slot_behind start l1.
Proof.
  intros E Hl. destruct is_plist as [Hc _]. unfold slot_behind. destruct l1 as [| a l1 _] using rev_ind; [by subst k |].
  rewrite last_snoc. rewrite length_app in Hl. cbn in Hl. destruct k as [| k]; [lia |]. cbn [slot_at].
  rewrite (chain_at h x cs Qnil k a Hc); [done |]. rewrite E, <- app_assoc, lookup_app_r by lia.
  by replace (k - length l1)%nat with 0%nat by lia.
Qed.

(** The walk stops at the first property [p]. *)
Lemma plist_walk_split errb :
  (others p (pairs h cs) /\
    plist_walk fuel s start (property_test fuel equal_method p false) errb start start h = (Returns Ended, h)) \/
  exists l1 a b l2,
    cs = l1 ++ a :: b :: l2 /\ Nat.Even (length l1) /\ others p (pairs h l1) /\ car_at h a = p /\
    load s (slot_behind start l1) h = (Returns (LRec lrecord_cons a), h) /\
    plist_walk fuel s start (property_test fuel equal_method p false) errb start start h =
      (Returns (Found (slot_behind start l1)), h).
Proof.
  pose proof is_plist as [Hc He].
  assert (forall k l, (forall m a, (m < k)%nat -> cs !! (m + m)%nat = Some a -> EQ (car_at h a) p = false) ->
    (exists l2, cs = l ++ l2) -> (length l <= k + k)%nat -> others p (pairs h l)) as Ho.
  { intros k l Hk (l2 & El) Hl. apply Forall_lookup. intros m kv (a & Ha & ->)%pairs_lookup.
    pose proof (lookup_lt_Some _ _ _ Ha). apply (Hk m); [lia |]. rewrite El. by apply lookup_app_l_Some. }
  assert (forall m a, cs !! (m + m)%nat = Some a -> key_at h x m = car_at h a) as Hkey.
  { intros m a Ha. unfold key_at. by rewrite (chain_at _ _ _ _ _ _ Hc Ha). }
  destruct (plist_walk_run h s start x h_ok x_valid start_load errb
    (property_test fuel equal_method p false) (fun key => EQ key p) (fun _ _ => eq_refl) fuel fuel_enough)
    as [k Hk Ef Ha | k Hk Hn Ha | j Hm | k t Ht _ _].
  - right. destruct (plist_parts h x cs k is_plist Hk) as (l1 & a & b & l2 & E & Hl).
    exists l1, a, b, l2. rewrite <- (slot_at_behind (k + k) l1 (a :: b :: l2) E Hl).
    assert (cs !! (k + k)%nat = Some a) as Hka.
    { rewrite E, lookup_app_r by lia. by replace (k + k - length l1)%nat with 0%nat by lia. }
    split_and!; [done | by exists k; lia | | | | done].
    + apply (Ho k); [| by exists (a :: b :: l2) | lia]. intros m c Hm Hc'. rewrite <- (Hkey m c Hc'). by apply Ha.
    + rewrite (Hkey k a Hka) in Ef. by apply EQ_true.
    + rewrite (load_at h s start x h_ok x_valid start_load) by (eapply conses_less; [exact Hk | lia]).
      by rewrite (chain_at _ _ _ _ _ _ Hc Hka).
  - left. split; [| done]. apply (Ho k); [| by exists []; rewrite app_nil_r |].
    + intros m c Hm Hc'. rewrite <- (Hkey m c Hc'). by apply Ha.
    + pose proof (chain_conses h x cs Qnil _ Hc eq_refl Hk) as Hl. destruct (decide (length cs <= k + k)%nat); [done |].
      destruct (lookup_lt_is_Some_2 cs (k + k)) as [a Hka]; [lia |].
      by rewrite (chain_at _ _ _ _ _ _ Hc Hka) in Hn.
  - by destruct (proj2 (malformed_shape h x h_ok x_valid j Hm) cs).
  - by destruct (meet_not_plist h x h_ok x_valid t Ht cs).
Qed.

Lemma external_plist_get_run errb :
  external_plist_get fuel equal_method s start p false errb h =
  (Returns (default Qunbound (pl_get p (pairs h cs)), s), h).
Proof.
  unfold external_plist_get, mbind, L_bind. pose proof is_plist as [Hc _].
  destruct (plist_walk_split errb) as [[Ho ->] | (l1 & a & b & l2 & E & He & Ho & Hp & Hl & ->)].
  - by rewrite (others_get _ _ Ho).
  - rewrite Hl. rewrite E in Hc. apply chain_app in Hc as (z & _ & _ & c & Ha & Eb & d & Hb & _).
    rewrite (XCDR_run _ _ _ Ha), Eb, (XCAR_run _ _ _ Hb). rewrite E, (pairs_app h l1) by done.
    rewrite pl_get_app by done. cbn [pairs pl_get]. by rewrite Hp, EQ_refl, (car_at_Some _ _ _ Hb).
Qed.

Lemma external_plist_put_run v errb :
  start = the_variable -> exists s' h' cs',
    external_plist_put fuel equal_method s start p v false errb h = (Returns s', h') /\
    plist h' (variable s') cs' /\ pairs h' cs' = pl_put p v (pairs h cs).
Proof.
  intros Hs. pose proof start_load as Hsl. unfold external_plist_put, mbind, L_bind, pl_put.
  pose proof is_plist as [Hc Hev]. pose proof (chain_NoDup _ _ _ _ Hc eq_refl) as Hn.
  destruct (plist_walk_split errb) as [[Ho ->] | (l1 & a & b & l2 & E & He & Ho & Hp & Hl & ->)].
  - rewrite (others_get _ _ Ho), start_load. unfold Fcons. rewrite Hs. cbn [store]. unfold mret, L_ret.
    set (b := fresh (dom h)). set (h1 := <[b := (v, x)]> h). set (a := fresh (dom h1)).
    assert (h !! b = None) as Hb by (apply not_elem_of_dom, is_fresh).
    assert (h1 !! a = None) as Ha by (apply not_elem_of_dom, is_fresh).
    assert (a <> b) as Hab by (intros ->; unfold h1 in Ha; by rewrite lookup_insert_eq in Ha).
    assert (forall c, c ∈ cs -> c <> a /\ c <> b) as Hcs.
    { intros c Hin. destruct (chain_live _ _ _ _ _ Hc Hin) as [d Hd].
      assert (c <> b) as Hcb by (intros ->; congruence). split; [| done].
      intros ->. unfold h1 in Ha. rewrite lookup_insert_ne in Ha by done. congruence. }
    eexists _, _, (a :: b :: cs). split; [reflexivity |]. split.
    + split; [| by apply Nat.Even_succ_succ]. split; [done |]. eexists. rewrite lookup_insert_eq. split; [done |].
      split; [done |]. eexists. rewrite lookup_insert_ne by done. unfold h1. rewrite lookup_insert_eq.
      split; [done |]. apply chain_set; [by intros []%Hcs |]. apply chain_set; [by intros []%Hcs | done].
    + cbn [pairs]. f_equal.
      * unfold car_at. rewrite lookup_insert_eq, lookup_insert_ne by done. unfold h1. by rewrite lookup_insert_eq.
      * apply pairs_ext. intros c [H1 H2]%Hcs. unfold car_at, h1. by rewrite !lookup_insert_ne.
  - rewrite Hl. rewrite E in Hc, Hn. pose proof Hc as (z & _ & _ & c & Ha & Eb & d & Hb & _)%chain_app.
    rewrite (XCDR_run _ _ _ Ha), Eb. unfold XSETCAR, XCONS, set_cons, mbind, L_bind. rewrite Hb.
    exists s, (<[b := (v, d.2)]> h), cs. split; [done |].
    assert (forall c, c <> b -> car_at (<[b := (v, d.2)]> h) c = car_at h c) as Hcar
      by (intros e He'; unfold car_at; by rewrite lookup_insert_ne).
    assert (variable s = x) as -> by (rewrite Hs in Hsl; cbn in Hsl; by injection Hsl).
    split; [split; [| done] |].
    + rewrite E. eapply chain_cdrs; [| exact Hc]. intros e _. destruct (decide (e = b)) as [-> |].
      * by rewrite lookup_insert_eq, Hb.
      * by rewrite lookup_insert_ne.
    + rewrite E, !pairs_app, pl_get_app by done. cbn [pairs pl_get]. rewrite Hp, EQ_refl.
      rewrite pl_set_app by done. cbn [pl_set]. rewrite EQ_refl.
      apply NoDup_app in Hn as (_ & Hn & [Hab [Hbl _]%NoDup_cons]%NoDup_cons).
      rewrite Hcar, Hp by set_solver. unfold car_at at 1. rewrite lookup_insert_eq. cbn [default fst].
      f_equal; [| f_equal]; apply pairs_ext; intros e He'; apply Hcar; [| set_solver].
      intros ->. apply (Hn b He'). set_solver.
Qed.

(** The conses whose cdr a removal may set. *)
Definition slot_cons (q : slot) : list positive := match q with the_variable => [] | cdr_of a => [a] end.

Lemma load_cons_inv s' q v g : load s' (cdr_of q) g = (Returns v, g) -> exists c, g !! q = Some c /\ c.2 = v.
Proof.
  cbn [load]. unfold XCDR, XCONS, mbind, L_bind. destruct (g !! q) as [c |]; [| done].
  intros [= <-]. by exists c.
Qed.

Lemma store_cons s' q v g c : g !! q = Some c -> store s' (cdr_of q) v g = (Returns s', <[q := (c.1, v)]> g).
Proof. intros Hq. cbn [store]. unfold mbind, L_bind. by rewrite (XSETCDR_run _ _ _ _ Hq). Qed.

Lemma valid_set g a c v : valid g v -> valid (<[a := c]> g) v.
Proof.
  destruct v as [| | [] b]; try done. cbn. destruct (decide (a = b)) as [<- |];
    [by rewrite lookup_insert_eq | by rewrite lookup_insert_ne].
Qed.

Lemma heap_ok_set g a c v : heap_ok g -> g !! a = Some c -> valid g v -> heap_ok (<[a := (c.1, v)]> g).
Proof.
  intros Hg Ha Hv. intros b d Hb. destruct (decide (a = b)) as [<- |].
  - rewrite lookup_insert_eq in Hb. injection Hb as <-. split; apply valid_set; [exact (proj1 (Hg _ _ Ha)) | done].
  - rewrite lookup_insert_ne in Hb by done. destruct (Hg _ _ Hb). split; by apply valid_set.
Qed.

Lemma external_remprop_run errb :
  (forall a, a ∈ slot_cons start -> a ∉ cs) ->
  (others p (pairs h cs) /\
     external_remprop fuel equal_method s start p false errb h = (Returns (false, s), h)) \/
  exists l1 a b l2 s' h' x',
    cs = l1 ++ a :: b :: l2 /\ Nat.Even (length l1) /\ others p (pairs h l1) /\ car_at h a = p /\
    external_remprop fuel equal_method s start p false errb h = (Returns (true, s'), h') /\
    load s' start h' = (Returns x', h') /\ plist h' x' (l1 ++ l2) /\
    relinked (slot_cons start ++ cs) h h' /\ heap_ok h' /\ valid h' x'.
Proof.
  intros Hst. unfold external_remprop, mbind, L_bind. pose proof is_plist as [Hc Hev].
  pose proof (chain_NoDup _ _ _ _ Hc eq_refl) as Hn.
  destruct (plist_walk_split errb) as [[Ho ->] | (l1 & a & b & l2 & E & He & Ho & Hp & Hl & ->)]; [by left | right].
  rewrite Hl. rewrite E in Hc, Hn. pose proof Hc as (z & Hc1 & Hz & c & Ha & Eb & d & Hb & Hc2)%chain_app.
  rewrite (XCDR_run _ _ _ Ha), Eb, (XCDR_run _ _ _ Hb).
  assert (valid h d.2) as Hd by (by eapply h_ok).
  assert (Nat.Even (length (l1 ++ l2))) as Hev'.
  { rewrite E, length_app in Hev. rewrite length_app. cbn in Hev. destruct Hev as [e He'], He as [e' He''].
    exists (e - 1)%nat. lia. }
  exists l1, a, b, l2. unfold slot_behind. destruct l1 as [| y l1 _] using rev_ind.
  - cbn [app] in *. destruct start as [| q]; cbn [last].
    + exists {| variable := d.2; warnings := warnings s |}, h, d.2. by split_and!.
    + destruct (load_cons_inv s q x h start_load) as [c0 [Hq _]].
      assert (q ∉ l2) as Hql by (pose proof (Hst q); set_solver).
      exists s, (<[q := (c0.1, d.2)]> h), d.2. rewrite (store_cons _ _ _ _ _ Hq).
      split_and!; [done.. | | by split; [apply chain_set |] | apply relinked_set; [done | set_solver]
        | by apply heap_ok_set | by apply valid_set].
      cbn [load]. by rewrite (XCDR_run _ _ (c0.1, d.2)) by apply lookup_insert_eq.
  - rewrite last_snoc. destruct (chain_live _ _ _ _ y Hc) as [e Hy]; [set_solver |].
    exists s, (<[y := (e.1, d.2)]> h), x. rewrite (store_cons _ _ _ _ _ Hy).
    pose proof Hn as ([_ [Hyl _]]%NoDup_app & Hn2 & _)%NoDup_app.
    split_and!; [done.. | | split; [| done] | apply relinked_set; [done | set_solver]
      | by apply heap_ok_set | by apply valid_set].
    + destruct start as [| q]; [cbn in start_load |- *; unfold mret, L_ret in *; congruence |]. cbn [load]. destruct (load_cons_inv s q x h start_load) as [c0 [Hq <-]].
      rewrite (XCDR_run _ _ c0); [done |]. rewrite lookup_insert_ne; [done |].
      intros ->. apply (Hst q); set_solver.
    + apply chain_app. exists d.2. split; [| apply chain_set; [| done]].
      * eapply chain_relink; [exact Hc1 |]. intros Hin. apply (Hyl y Hin). set_solver.
      * intros Hin. apply (Hn2 y); set_solver.
Qed.
End Operations.

Section Valid.
Implicit Types (h : heap) (cs : list positive).

Lemma chain_start_valid h x cs : proper h x cs -> valid h x.
Proof. destruct cs as [| a cs]; [by intros -> |]. intros (-> & c & Hc & _). by exists c. Qed.

Lemma relinked_size cs h h' : relinked cs h h' -> size h' = size h.
Proof.
  intros Hr. rewrite <- !(size_dom (D := gset positive)). f_equal. apply set_eq. intros a.
  rewrite !elem_of_dom. pose proof (rl_cars _ _ _ Hr a) as E. split; intros [c Hc]; rewrite Hc in E.
  - by destruct (h !! a).
  - by destruct (h' !! a).
Qed.
End Valid.

(** C30: On a property list plist-get, plist-put and plist-remprop return what the same
    operations on the list of its pairs return: the first value of the property, the list
    with that value replaced or with the pair in front, the list without the first such
    pair, which is unlinked in place. *)
Theorem plists_are_lists_of_pairs fuel equal_method h x cs p v default_ :
  heap_ok h -> plist h x cs -> (size h < fuel)%nat ->
  Fplist_get fuel equal_method x p default_ h =
    (Returns match pl_get p (pairs h cs) with
             | Some w => if UNBOUNDP w then default_ else w
             | None => default_
             end, h) /\
  (exists x' h' cs', Fplist_put fuel equal_method x p v h = (Returns x', h') /\
     plist h' x' cs' /\ pairs h' cs' = pl_put p v (pairs h cs)) /\
  (exists x' h' cs', Fplist_remprop fuel equal_method x p h = (Returns x', h') /\
     plist h' x' cs' /\ pairs h' cs' = pl_remove p (pairs h cs) /\ relinked cs h h').
Proof.
  intros Hh Hp Hf. pose proof (chain_start_valid _ _ _ (proj1 Hp)) as Hx. split_and!.
  - unfold Fplist_get, plist_get, mbind, L_bind.
    rewrite (external_plist_get_run fuel equal_method h (argument x) the_variable x cs) by done.
    by destruct (pl_get p (pairs h cs)).
  - destruct (external_plist_put_run fuel equal_method h (argument x) the_variable x cs Hh Hx Hf eq_refl Hp p v ERROR_ME eq_refl)
      as (s' & h' & cs' & E & H1 & H2). exists (variable s'), h', cs'. split; [| done].
    unfold Fplist_put, plist_put, mbind, L_bind. by rewrite E.
  - destruct (external_remprop_run fuel equal_method h (argument x) the_variable x cs Hh Hx Hf eq_refl Hp p ERROR_ME)
      as [[Ho E] | (l1 & a & b & l2 & s' & h' & x' & Ecs & He & Ho & Hp' & E & Hl & Hpl & Hr & _)]; [set_solver | |].
    + exists x, h, cs. unfold Fplist_remprop, plist_remprop, mbind, L_bind. rewrite E. split_and!; [done.. | | done].
      rewrite <- (app_nil_r (pairs h cs)) at 2. by rewrite pl_remove_app, app_nil_r.
    + exists x', h', (l1 ++ l2). unfold Fplist_remprop, plist_remprop, mbind, L_bind. rewrite E.
      split_and!; [| done | | done].
      * cbn in Hl. unfold mret, L_ret in *. by injection Hl as ->.
      * rewrite (pairs_relinked _ _ _ _ Hr), Ecs, !pairs_app, pl_remove_app by done.
        cbn [pairs pl_remove]. by rewrite Hp', EQ_refl.
Qed.

(** ** Cleaning *)

Definition without (p : Lisp_Object) (l : list (Lisp_Object * Lisp_Object)) : list (Lisp_Object * Lisp_Object) :=
  List.filter (fun kv => negb (EQ kv.1 p)) l.

Section Cleaning.
Variable fuel : nat.
Variable equal_method : lrecord_type -> positive -> positive -> Z -> L bool.
Implicit Types (h : heap) (cs : list positive) (l : list (Lisp_Object * Lisp_Object)).

Lemma others_without p l : others p l -> without p l = l.
Proof. unfold without. induction 1 as [| kv l E H IH]; [done |]. cbn. by rewrite E, IH. Qed.

Lemma without_get p q l : p <> q -> pl_get q (without p l) = pl_get q l.
Proof.
  intros Hpq. unfold without. induction l as [| [k v] l IH]; [done |]. cbn. destruct (EQ k p) eqn:Ek; cbn.
  - apply EQ_true in Ek as ->. by rewrite (proj2 (EQ_false p q) Hpq).
  - by rewrite IH.
Qed.

Lemma pl_get_app_eq q l1 l2 :
  pl_get q (l1 ++ l2) = match pl_get q l1 with Some v => Some v | None => pl_get q l2 end.
Proof. induction l1 as [| [k v] l1 IH]; [done |]. cbn. by destruct (EQ k q). Qed.

Lemma remprop_all_run p n h z x cs :
  heap_ok h -> valid h x -> (size h < fuel)%nat -> load (argument Qnil) (cdr_of z) h = (Returns x, h) ->
  plist h x cs -> z ∉ cs -> (length cs < n)%nat ->
  exists h' x' cs',
    remprop_all fuel equal_method n (cdr_of z) p false h = (Returns tt, h') /\
    load (argument Qnil) (cdr_of z) h' = (Returns x', h') /\ plist h' x' cs' /\
    pairs h' cs' = without p (pairs h cs) /\ relinked (z :: cs) h h' /\ heap_ok h' /\ valid h' x' /\
    (length cs' <= length cs)%nat /\ forall a, a ∈ cs' -> a ∈ cs.
Proof.
  revert h x cs. induction n as [| n IH]; intros h x cs Hh Hx Hf Hl Hp Hz Hn; [lia |].
  cbn [remprop_all]. unfold mbind, L_bind.
  destruct (external_remprop_run fuel equal_method h (argument Qnil) (cdr_of z) x cs Hh Hx Hf Hl Hp p ERROR_ME)
    as [[Ho ->] | (l1 & a & b & l2 & s' & h' & x' & E & He & Ho & Ea & -> & Hl' & Hp' & Hr & Hh' & Hx')]; [set_solver | |].
  - exists h, x, cs. rewrite others_without by done. by split_and!.
  - assert (forall c, c ∈ l1 ++ l2 -> c ∈ cs) as Hsub by (rewrite E; set_solver).
    assert (length (l1 ++ l2) <= length cs)%nat as Hlen by (rewrite E, !length_app; cbn; lia).
    destruct (IH h' x' (l1 ++ l2)) as (h2 & x2 & cs2 & E2 & H1 & H2 & H3 & H4 & H5 & H6 & H7 & H8); try done.
    { by rewrite (relinked_size _ _ _ Hr). }
    { intros Hin. apply Hz. auto. }
    { rewrite E, length_app in Hn. rewrite length_app. cbn in Hn. lia. }
    exists h2, x2, cs2. split_and!; [done.. | | | done | done | lia | auto].
    + rewrite H3, (pairs_relinked _ _ _ _ Hr), E, !pairs_app by done. cbn [pairs]. unfold without.
      rewrite !List.filter_app. cbn [List.filter fst]. by rewrite Ea, EQ_refl.
    + eapply relinked_trans; [exact Hr |]. eapply relinked_weaken; [exact H4 |]. cbn. set_solver.
Qed.

Abbreviation keys l := (map fst l).

Lemma keys_without p l : forall k, k ∈ keys (without p l) <-> k <> p /\ k ∈ keys l.
Proof.
  intros k. unfold without. induction l as [| [k' v] l IH]; [set_solver |]. cbn.
  destruct (EQ k' p) eqn:E; cbn; rewrite !elem_of_cons, IH; [apply EQ_true in E as -> | apply EQ_false in E]; naive_solver.
Qed.

(** [dn] is cleaned, [rs] is not yet. *)
Lemma canonicalize_loop_run n h head x dn rs :
  heap_ok h -> (size h < fuel)%nat -> (length rs < n)%nat -> (length rs < fuel)%nat ->
  chain h head dn x -> plist h x rs -> Nat.Even (length dn) -> NoDup (dn ++ rs) ->
  NoDup (keys (pairs h dn)) -> (forall k, k ∈ keys (pairs h dn) -> k ∉ keys (pairs h rs)) ->
  exists h' cs',
    canonicalize_loop fuel equal_method n false Qnil x head h = (Returns head, h') /\
    plist h' head cs' /\ NoDup (keys (pairs h' cs')) /\ relinked (dn ++ rs) h h' /\
    forall q, pl_get q (pairs h' cs') = pl_get q (pairs h (dn ++ rs)).
Proof.
  revert h x dn rs. induction n as [| n IH]; intros h x dn rs Hh Hs Hn Hf Hd Hr Hev Hnd Hk Hkr; [lia |].
  pose proof Hr as [Hc [m Hm]]. destruct rs as [| a [| b rs]]; [| cbn in Hm; lia |].
  { cbn in Hc. subst x. exists h, dn. rewrite app_nil_r. by split_and!. }
  destruct Hc as (-> & c & Ha & Eb & d & Hb & Hrs).
  apply NoDup_app in Hnd as (Hnd1 & Hnd2 & [Hab [Hbr Hnr]%NoDup_cons]%NoDup_cons).
  destruct (remprop_all_run c.1 fuel h b d.2 rs Hh) as (h1 & x1 & rs1 & E1 & Hl1 & Hp1 & Hpr & Hrel & Hh1 & Hx1 & Hlen & Hsub);
    [by eapply chain_start_valid | done | by cbn [load]; rewrite (XCDR_run _ _ _ Hb) | by split; [| exists (m - 1)%nat; cbn in Hm; lia] | done | cbn in Hf; lia |].
  destruct (load_cons_inv _ _ _ _ Hl1) as (d1 & Hb1 & <-).
  assert (h1 !! a = Some c) as Ha1 by (rewrite (rl_others _ _ _ Hrel); [done |]; set_solver).
  assert (pairs h1 (dn ++ [a; b]) = pairs h dn ++ [(c.1, car_at h b)]) as Epd.
  { rewrite (pairs_relinked _ _ _ _ Hrel), pairs_app by done. cbn [pairs]. by rewrite (car_at_Some _ _ _ Ha). }
  assert (c.1 ∉ keys (pairs h dn)) as Hck.
  { intros Hin. apply (Hkr _ Hin). cbn [pairs]. rewrite (car_at_Some _ _ _ Ha). cbn. set_solver. }
  assert (Nat.Even (length (dn ++ [a; b]))) as Hev2
    by (rewrite length_app; destruct Hev as [e He]; exists (S e); cbn; lia).
  destruct (IH h1 d1.2 (dn ++ [a; b]) rs1) as (h' & cs' & E' & Hp' & Hn' & Hrel' & Hg); try done.
  - by rewrite (relinked_size _ _ _ Hrel).
  - cbn in Hn. lia.
  - cbn in Hf. lia.
  - apply chain_app. exists (LRec lrecord_cons a). split.
    + eapply chain_relinked; [exact Hrel | | exact Hd]. intros e He1 He2. apply (Hnd2 e He1). set_solver.
    + split; [done |]. exists c. split; [done |]. rewrite Eb. split; [done |]. by exists d1.
  - rewrite <- app_assoc. apply NoDup_app. split_and!; [done | |].
    + intros e He1 He2. apply (Hnd2 e He1). set_solver.
    + pose proof (chain_NoDup _ _ _ _ (proj1 Hp1) eq_refl). cbn. apply NoDup_cons. split; [set_solver |].
      apply NoDup_cons. split; [set_solver | done].
  - rewrite Epd, map_app. cbn. apply NoDup_app. split_and!; [done | set_solver | apply NoDup_singleton].
  - intros k. rewrite Epd, map_app, Hpr, keys_without. cbn. intros [Hin | ->%list_elem_of_singleton]%elem_of_app; [| naive_solver].
    intros [_ Hin']. apply (Hkr _ Hin). cbn. set_solver.
  - exists h', cs'. split_and!; [| done.. | |].
    + cbn [canonicalize_loop]. change (NILP (LRec lrecord_cons a)) with false. cbv iota. unfold mbind, L_bind.
      rewrite (Fcar_cons _ _ _ Ha), (Fcdr_cons _ _ _ Ha), Eb. unfold CHECK_CONS. rewrite CONSP_cons.
      cbn [addr_XCDR]. unfold mret, L_ret. change (NILP Qnil) with true. cbv iota.
      cbv beta iota. rewrite E1, (Fcdr_cons _ _ _ Hb1). exact E'.
    + eapply relinked_trans; [eapply relinked_weaken; [exact Hrel | set_solver] |].
      eapply relinked_weaken; [exact Hrel' |]. set_solver.
    + intros q. rewrite Hg, (pairs_app h1), Epd, Hpr, (pairs_app h) by done.
      rewrite <- app_assoc, !pl_get_app_eq. destruct (pl_get q (pairs h dn)); [done |]. cbn.
      rewrite (car_at_Some _ _ _ Ha). destruct (EQ c.1 q) eqn:Eq; [done |]. apply without_get. by apply EQ_false.
Qed.
End Cleaning.

(** canonicalize-plist leaves one pair of each property, in place; every property has
    the value that it had. *)
Theorem canonicalize_keeps_first_values fuel equal_method h x cs :
  heap_ok h -> plist h x cs -> (size h < fuel)%nat ->
  exists h' cs',
    Fcanonicalize_plist fuel equal_method x Qnil h = (Returns x, h') /\
    plist h' x cs' /\ NoDup (map fst (pairs h' cs')) /\ relinked cs h h' /\
    forall q, pl_get q (pairs h' cs') = pl_get q (pairs h cs).
Proof.
  intros Hh Hp Hf. pose proof (chain_start_valid _ _ _ (proj1 Hp)) as Hx.
  pose proof (chain_fits _ _ _ _ (proj1 Hp) eq_refl) as Hl.
  destruct (canonicalize_loop_run fuel equal_method fuel h x x [] cs) as (h' & cs' & E & H);
    [done | done | lia | lia | done | done | by exists 0%nat | exact (chain_NoDup _ _ _ _ (proj1 Hp) eq_refl) | constructor | set_solver |].
  exists h', cs'. split; [| done].
  unfold Fcanonicalize_plist, canonicalize, Fcheck_valid_plist, mbind, L_bind.
  destruct (check_walk fuel h x Hh Hx Hf ERROR_ME) as [(cs2 & _ & ->) | (Hn & _)]; [exact E | by destruct (Hn cs)].
Qed.

(** ** Property lists that Lisp does not see *)

Section Internal.
Variable h : heap.
Variable p : Lisp_Object.
Implicit Types (cs l : list positive).

(** The property before, when [l] was passed. *)
Fixpoint prev_of (prev : Lisp_Object) (l : list positive) : Lisp_Object :=
  match l with
  | k :: _ :: l => prev_of (LRec lrecord_cons k) l
  | _ => prev
  end.

Lemma prev_of_last x l y prev :
  Nat.Even (length l) -> l <> [] -> chain h x l y ->
  exists k c a, prev_of prev l = LRec lrecord_cons k /\ h !! k = Some c /\
    c.2 = LRec lrecord_cons a /\ last l = Some a.
Proof.
  intros [m Hm]. revert x l prev Hm. induction m as [| m IH]; intros x [| k [| a l]] prev Hm Hl Hc; cbn in Hm; try lia; try done.
  destruct Hc as (-> & c & Hk & Ec & d & Ha & Hc). destruct l as [| k' [| a' l]]; [| cbn in Hm; lia |].
  - by exists k, c, a.
  - destruct (IH d.2 (k' :: a' :: l) (LRec lrecord_cons k)) as (k2 & c2 & a2 & E & H); [lia | done | done |].
    exists k2, c2, a2. split; [exact E |]. done.
Qed.

Lemma pass_others {A} (F : nat -> Lisp_Object -> Lisp_Object -> L A) n x l y prev :
  (forall n k v next prev c d, h !! k = Some c -> c.2 = LRec lrecord_cons v -> h !! v = Some d -> d.2 = next ->
     EQ (car_at h k) p = false -> F (S n) (LRec lrecord_cons k) prev h = F n next (LRec lrecord_cons k) h) ->
  chain h x l y -> Nat.Even (length l) -> others p (pairs h l) -> (length l < n)%nat ->
  exists m, (0 < m)%nat /\ (n - length l <= m)%nat /\ F n x prev h = F m y (prev_of prev l) h.
Proof.
  intros HF Hc [e He]. revert n x l prev Hc He. induction e as [| e IH]; intros n x [| k [| v l]] prev Hc He Ho Hn;
    cbn in He; try lia.
  - cbn in Hc. subst x. exists n. cbn in Hn. split_and!; [lia | lia | done].
  - destruct Hc as (-> & c & Hk & Ec & d & Hv & Hc). destruct n as [| n]; [cbn in Hn; lia |].
    cbn [pairs] in Ho. apply Forall_cons in Ho as [Ho1 Ho].
    destruct (IH n d.2 l (LRec lrecord_cons k)) as (m & Hm & Hle & E); [done | lia | done | cbn in Hn; lia |].
    exists m. split_and!; [done | cbn; lia |]. by rewrite (HF n k v d.2 prev c d).
Qed.

Lemma internal_plist_loop_run x l y n :
  chain h x l y -> Nat.Even (length l) -> others p (pairs h l) -> (length l < n)%nat ->
  exists m, internal_plist_loop n x p h = internal_plist_loop (S m) y p h.
Proof.
  intros Hc He Ho Hn.
  destruct (pass_others (fun n x _ => internal_plist_loop n x p) n x l y Qnil) as ([| m] & Hm & _ & E);
    [| done.. | lia | by exists m].
  intros n' k w next prev c d Hk Ec Hw Ed Ek. cbn [internal_plist_loop].
  change (NILP (LRec lrecord_cons k)) with false. cbv iota. unfold mbind, L_bind.
  rewrite (XCAR_run _ _ _ Hk), <- (car_at_Some _ _ _ Hk), Ek, (XCDR_run _ _ _ Hk), Ec, (XCDR_run _ _ _ Hw), Ed. done.
Qed.

Lemma internal_remprop_loop_run plist x l y n :
  chain h x l y -> Nat.Even (length l) -> others p (pairs h l) -> (length l < n)%nat ->
  exists m, internal_remprop_loop n plist x Qnil p h = internal_remprop_loop (S m) plist y (prev_of Qnil l) p h.
Proof.
  intros Hc He Ho Hn.
  destruct (pass_others (fun n x prev => internal_remprop_loop n plist x prev p) n x l y Qnil) as ([| m] & Hm & _ & E);
    [| done.. | lia | by exists m].
  intros n' k w next prev c d Hk Ec Hw Ed Ek. cbn [internal_remprop_loop].
  change (NILP (LRec lrecord_cons k)) with false. cbv iota. unfold mbind, L_bind.
  rewrite (XCAR_run _ _ _ Hk), (XCDR_run _ _ _ Hk), Ec, (XCDR_run _ _ _ Hw), <- (car_at_Some _ _ _ Hk), Ek, Ed. done.
Qed.
End Internal.

(** On a property list internal_plist_get, internal_plist_put and internal_remprop do
    what the functions that check the list do. *)
Theorem internal_plists_agree fuel equal_method h x cs p v :
  heap_ok h -> plist h x cs -> (size h < fuel)%nat ->
  internal_plist_get fuel x p h =
    (r ← external_plist_get fuel equal_method (argument x) the_variable p false ERROR_ME; mret r.1 : L _) h /\
  internal_plist_put fuel x p v h =
    (s ← external_plist_put fuel equal_method (argument x) the_variable p v false ERROR_ME; mret (variable s) : L _) h /\
  internal_remprop fuel x p h =
    (r ← external_remprop fuel equal_method (argument x) the_variable p false ERROR_ME; mret (r.1, variable r.2) : L _) h.
Proof.
  intros Hh Hp Hf. pose proof Hp as [Hc He]. pose proof (chain_start_valid _ _ _ Hc) as Hx.
  pose proof (chain_fits _ _ _ _ Hc eq_refl) as Hl.
  pose proof (plist_walk_split fuel equal_method h (argument x) the_variable x cs Hh Hx Hf eq_refl Hp p ERROR_ME) as Hw.
  assert (forall l1 l2, cs = l1 ++ l2 -> (length l1 < fuel)%nat) as Hlt by (intros ? ? ->; rewrite length_app in Hl; lia).
  unfold internal_plist_get, internal_plist_put, internal_remprop, external_plist_get, external_plist_put,
    external_remprop, mbind, L_bind.
  destruct Hw as [[Ho ->] | (l1 & a & b & l2 & E & He1 & Ho & Ea & El & ->)].
  - destruct (internal_plist_loop_run h p x cs Qnil fuel Hc He Ho) as (m & ->); [lia |].
    destruct (internal_remprop_loop_run h p x x cs Qnil fuel Hc He Ho) as (m' & ->); [lia |]. done.
  - rewrite El. pose proof (Hlt _ _ E) as Hl1. rewrite E in Hc. apply chain_app in Hc as (z & Hc1 & -> & c & Ha & Eb & d & Hb & Hc2).
    destruct (internal_plist_loop_run h p x l1 _ fuel Hc1 He1 Ho Hl1) as (m & ->).
    destruct (internal_remprop_loop_run h p x x l1 _ fuel Hc1 He1 Ho Hl1) as (m' & ->).
    assert (EQ c.1 p = true) as Ep by (rewrite <- (car_at_Some _ _ _ Ha), Ea; apply EQ_refl).
    cbn [internal_plist_loop internal_remprop_loop]. change (NILP (LRec lrecord_cons a)) with false. cbv iota.
    unfold mbind, L_bind. rewrite (XCAR_run _ _ _ Ha), Ep, (XCDR_run _ _ _ Ha), Eb, (XCDR_run _ _ _ Hb).
    unfold mret, L_ret. change (NILP (LRec lrecord_cons a)) with false. cbv beta iota. rewrite (XCDR_run _ _ _ Ha), Eb.
    split_and!; [by destruct (XCAR _ h) as [[] ?] | by destruct (XSETCAR _ v h) as [[] ?] |].
    destruct l1 as [| y l1].
    + done.
    + destruct (prev_of_last h x (y :: l1) _ Qnil He1 ltac:(done) Hc1) as (k & ck & ay & -> & Hk & Eck & Elast).
      unfold slot_behind. rewrite Elast. change (NILP (LRec lrecord_cons k)) with false. cbv beta iota.
      rewrite (XCDR_run _ _ _ Hk), Eck. cbn [store]. unfold mbind, L_bind. by destruct (XSETCDR _ d.2 h) as [[] ?].
Qed.

(** ** At work *)

(** The list (1 10 2 nil 1 30). *)
Definition six : heap :=
  list_to_map [(1%positive, (LInt 1, LRec lrecord_cons 2)); (2%positive, (LInt 10, LRec lrecord_cons 3));
    (3%positive, (LInt 2, LRec lrecord_cons 4)); (4%positive, (Qnil, LRec lrecord_cons 5));
    (5%positive, (LInt 1, LRec lrecord_cons 6)); (6%positive, (LInt 30, Qnil))].
Definition no_method (t : lrecord_type) (a b : positive) (depth : Z) : L bool := mret false.

Lemma six_plist : plist six (LRec lrecord_cons 1) [1; 2; 3; 4; 5; 6]%positive.
Proof.
  split; [| by exists 3%nat].
  repeat (split; [done |]; eexists; split; [vm_compute; reflexivity |]). done.
Qed.

Lemma six_ok : heap_ok six.
Proof.
  intros a c Hc. apply elem_of_list_to_map_2 in Hc.
  repeat (apply elem_of_cons in Hc as [[= -> ->] | Hc]; [split; vm_compute; eauto |]).
  by apply not_elem_of_nil in Hc.
Qed.

Lemma bad_plists_are_caught_witness :
  (exists cs, plist six (LRec lrecord_cons 2) cs) /\ Fvalid_plist_p 7 (LRec lrecord_cons 2) six = (Returns Qt, six) /\
    Fcheck_valid_plist 7 (LRec lrecord_cons 2) six = (Returns Qnil, six) \/
  (forall cs, ~ plist six (LRec lrecord_cons 2) cs) /\ Fvalid_plist_p 7 (LRec lrecord_cons 2) six = (Returns Qnil, six) /\
    exists e, Fcheck_valid_plist 7 (LRec lrecord_cons 2) six = (Signals e, six) /\
      (endless six (LRec lrecord_cons 2) /\ e = Qcircular_property_list (LRec lrecord_cons 2) \/
       (exists cs y, chain six (LRec lrecord_cons 2) cs y /\ CONSP y = false) /\
         exists y, e = Qmalformed_property_list (LRec lrecord_cons 2) y).
Proof.
  apply (bad_plists_are_caught 7 six (LRec lrecord_cons 2) six_ok).
  - vm_compute. eauto.
  - vm_compute. lia.
Defined.

Lemma bad_plists_are_repaired_witness :
  exists v s' h',
    external_plist_get 7 no_method (argument (LRec lrecord_cons 2)) the_variable (LInt 5) false ERROR_ME_WARN six =
      (Returns (v, s'), h') /\
    ((h' = six /\ s' = argument (LRec lrecord_cons 2) /\ exists k a b,
        nthcdr six (k + k) (LRec lrecord_cons 2) = LRec lrecord_cons a /\ car_at six a = LInt 5 /\
        nthcdr six (S (k + k)) (LRec lrecord_cons 2) = LRec lrecord_cons b /\ v = car_at six b) \/
     (v = Qunbound /\ exists cs, plist h' (variable s') cs /\
        ((h' = six /\ s' = argument (LRec lrecord_cons 2)) \/
         ((forall l, ~ plist six (LRec lrecord_cons 2) l) /\ length (warnings s') = 1%nat /\ relinked cs six h' /\
          exists y, chain six (LRec lrecord_cons 2) cs y)))).
Proof.
  apply (bad_plists_are_repaired 7 no_method six (LRec lrecord_cons 2) (LInt 5) six_ok).
  - vm_compute. eauto.
  - vm_compute. lia.
Defined.

Lemma plists_are_lists_of_pairs_witness :
  let cs := [1; 2; 3; 4; 5; 6]%positive in
  Fplist_get 7 no_method (LRec lrecord_cons 1) (LInt 1) Qt six =
    (Returns match pl_get (LInt 1) (pairs six cs) with
             | Some w => if UNBOUNDP w then Qt else w
             | None => Qt
             end, six) /\
  (exists x' h' cs', Fplist_put 7 no_method (LRec lrecord_cons 1) (LInt 1) (LInt 5) six = (Returns x', h') /\
     plist h' x' cs' /\ pairs h' cs' = pl_put (LInt 1) (LInt 5) (pairs six cs)) /\
  (exists x' h' cs', Fplist_remprop 7 no_method (LRec lrecord_cons 1) (LInt 1) six = (Returns x', h') /\
     plist h' x' cs' /\ pairs h' cs' = pl_remove (LInt 1) (pairs six cs) /\ relinked cs six h').
Proof.
  apply (plists_are_lists_of_pairs 7 no_method six (LRec lrecord_cons 1) [1; 2; 3; 4; 5; 6]%positive
    (LInt 1) (LInt 5) Qt six_ok six_plist).
  vm_compute. lia.
Defined.

Lemma canonicalize_keeps_first_values_witness :
  let cs := [1; 2; 3; 4; 5; 6]%positive in
  exists h' cs',
    Fcanonicalize_plist 7 no_method (LRec lrecord_cons 1) Qnil six = (Returns (LRec lrecord_cons 1), h') /\
    plist h' (LRec lrecord_cons 1) cs' /\ NoDup (map fst (pairs h' cs')) /\ relinked cs six h' /\
    forall q, pl_get q (pairs h' cs') = pl_get q (pairs six cs).
Proof.
  apply (canonicalize_keeps_first_values 7 no_method six (LRec lrecord_cons 1) [1; 2; 3; 4; 5; 6]%positive six_ok six_plist).
  vm_compute. lia.
Defined.

Lemma internal_plists_agree_witness :
  internal_plist_get 7 (LRec lrecord_cons 1) (LInt 2) six =
    (r ← external_plist_get 7 no_method (argument (LRec lrecord_cons 1)) the_variable (LInt 2) false ERROR_ME; mret r.1 : L _) six /\
  internal_plist_put 7 (LRec lrecord_cons 1) (LInt 2) Qt six =
    (s ← external_plist_put 7 no_method (argument (LRec lrecord_cons 1)) the_variable (LInt 2) Qt false ERROR_ME;
     mret (variable s) : L _) six /\
  internal_remprop 7 (LRec lrecord_cons 1) (LInt 2) six =
    (r ← external_remprop 7 no_method (argument (LRec lrecord_cons 1)) the_variable (LInt 2) false ERROR_ME;
     mret (r.1, variable r.2) : L _) six.
Proof.
  apply (internal_plists_agree 7 no_method six (LRec lrecord_cons 1) [1; 2; 3; 4; 5; 6]%positive (LInt 2) Qt six_ok six_plist).
  vm_compute. lia.
Defined.

(** With the argument that asks to remove properties whose value is nil, one that is not
    at the beginning stays. *)
Example canonicalize_leaves_nil :
  let '(r, h') := Fcanonicalize_plist 7 no_method (LRec lrecord_cons 1) Qt six in
  r = Returns (LRec lrecord_cons 1) /\ h' !! 2%positive = Some (LInt 10, LRec lrecord_cons 3) /\
  h' !! 3%positive = Some (LInt 2, LRec lrecord_cons 4) /\ h' !! 4%positive = Some (Qnil, Qnil).
Proof. vm_compute. done. Qed.

(** The list (1 2 3), where something is missing, is cut; so is one that is circular. *)
Example repair_at_work :
  (external_plist_get 7 no_method (argument (LRec lrecord_cons 1)) the_variable (LInt 5) false ERROR_ME_WARN
     (list_to_map [(1%positive, (LInt 1, LRec lrecord_cons 2)); (2%positive, (LInt 2, LRec lrecord_cons 3));
        (3%positive, (LInt 3, Qnil))])).2 !! 2%positive = Some (LInt 2, Qnil) /\
  (external_plist_get 7 no_method (argument (LRec lrecord_cons 1)) the_variable (LInt 5) false ERROR_ME_WARN
     (list_to_map [(1%positive, (LInt 1, LRec lrecord_cons 2)); (2%positive, (LInt 2, LRec lrecord_cons 3));
        (3%positive, (LInt 3, LRec lrecord_cons 1))])).2 !! 2%positive = Some (LInt 2, Qnil).
Proof. vm_compute. done. Qed.
