(* ===== verification/GapArray.v ===== *)
(** * Gap arrays

    Arrays with a movable gap, and markers that move with their elements (extents.c
    236-290, 477-697).  Positions in the array take no notice of the gap; memory positions
    do.  A gap array stands for the list of its elements. *)

From S2P Require Import Prelude Insdel.

(** A marker is known by its address. *)
Record Gap_Array (A : Type) := mk_gap_array {
  ga_array : list (option A);  (* [None]: not written yet *)
  gap : Z;
  gapsize : Z;
  numels : Z;
  ga_markers : list (positive * Z);
}.
Arguments mk_gap_array {A}. Arguments ga_array {A}. Arguments gap {A}. Arguments gapsize {A}.
Arguments numels {A}. Arguments ga_markers {A}.

Section GapArray.
Context {A : Type}.
Implicit Types (ga : Gap_Array A) (els : list A).

(** ** Positions *)

Definition GAP_ARRAY_ARRAY_TO_MEMORY_POS ga (pos : Z) : Z :=
  if pos <=? gap ga then pos else pos + gapsize ga.
Definition GAP_ARRAY_MEMORY_TO_ARRAY_POS ga (pos : Z) : Z :=
  if pos <=? gap ga then pos else pos - gapsize ga.

(** [* GAP_ARRAY_EL_ADDR (ga, pos)] *)
Definition GAP_ARRAY_EL ga (pos : Z) : option A :=
  mjoin (zget (ga_array ga) (if pos <? gap ga then pos else pos + gapsize ga)).

(** ** Operations; [None] is an access outside of the memory of the array *)

Definition gap_array_adjust_markers ga (from to amount : Z) : Gap_Array A :=
  mk_gap_array (ga_array ga) (gap ga) (gapsize ga) (numels ga)
    (map (fun m => (m.1, do_marker_adjustment m.2 from to amount)) (ga_markers ga)).

Definition set_array ga (array : list (option A)) : Gap_Array A :=
  mk_gap_array array (gap ga) (gapsize ga) (numels ga) (ga_markers ga).
Definition set_gap ga (g size : Z) : Gap_Array A :=
  mk_gap_array (ga_array ga) g size (numels ga) (ga_markers ga).
Definition set_numels ga (n : Z) : Gap_Array A :=
  mk_gap_array (ga_array ga) (gap ga) (gapsize ga) n (ga_markers ga).
Definition set_ga_markers ga (ms : list (positive * Z)) : Gap_Array A :=
  mk_gap_array (ga_array ga) (gap ga) (gapsize ga) (numels ga) ms.

Definition gap_array_move_gap ga (pos : Z) : option (Gap_Array A) :=
  let g := gap ga in
  let size := gapsize ga in
  ga ← (if pos <? g then
          array ← mem_move (ga_array ga) (pos + size) pos (g - pos);
          Some (gap_array_adjust_markers (set_array ga array) pos g size)
        else if pos >? g then
          array ← mem_move (ga_array ga) g (g + size) (pos - g);
          Some (gap_array_adjust_markers (set_array ga array) (g + size) (pos + size) (- size))
        else Some ga);
  Some (set_gap ga pos (gapsize ga)).

Definition gap_array_make_gap ga (increment : Z) : option (Gap_Array A) :=
  let increment := increment + (100 + numels ga / 8) in
  let new_size := numels ga + gapsize ga + increment in
  let ga := set_array ga (ga_array ga ++ replicate (Z.to_nat (new_size - zlen (ga_array ga))) None) in
  let real_gap_loc := gap ga in
  let old_gap_size := gapsize ga in
  let ga := set_gap ga (numels ga + gapsize ga) increment in
  ga ← gap_array_move_gap ga (real_gap_loc + old_gap_size);
  Some (set_gap ga real_gap_loc (gapsize ga + old_gap_size)).

Definition gap_array_insert_els ga (pos : Z) (elptr : list A) : option (Gap_Array A) :=
  let n := zlen elptr in
  ga ← (if gapsize ga <? n then gap_array_make_gap ga (n - gapsize ga) else Some ga);
  ga ← (if pos =? gap ga then Some ga else gap_array_move_gap ga pos);
  array ← mem_write (ga_array ga) (gap ga) (map Some elptr);
  let ga := set_gap (set_array ga array) (gap ga + n) (gapsize ga - n) in
  let ga := set_numels ga (numels ga + n) in
  Some (gap_array_adjust_markers ga (pos - 1) pos n).

Definition gap_array_delete_els ga (from numdel : Z) : option (Gap_Array A) :=
  let to := from + numdel in
  let size := gapsize ga in
  ga ← (if to <? gap ga then gap_array_move_gap ga to else Some ga);
  ga ← (if from >? gap ga then gap_array_move_gap ga from else Some ga);
  let ga := gap_array_adjust_markers ga (to + size) (to + size) (- numdel - size) in
  Some (set_gap (set_numels ga (numels ga - numdel)) from (gapsize ga + numdel)).

(** A marker that is not in use is given; its address is its name. *)
Definition gap_array_make_marker ga (pos : Z) : positive * Gap_Array A :=
  let m := fresh (list_to_set (C := gset positive) (map fst (ga_markers ga))) in
  (m, set_ga_markers ga ((m, GAP_ARRAY_ARRAY_TO_MEMORY_POS ga pos) :: ga_markers ga)).

Definition gap_array_delete_marker ga (m : positive) : Gap_Array A :=
  set_ga_markers ga (List.filter (fun p => negb (bool_decide (p.1 = m))) (ga_markers ga)).

Definition gap_array_move_marker ga (m : positive) (pos : Z) : Gap_Array A :=
  set_ga_markers ga
    (map (fun p => if bool_decide (p.1 = m) then (m, GAP_ARRAY_ARRAY_TO_MEMORY_POS ga pos) else p)
       (ga_markers ga)).

Definition find_marker (ms : list (positive * Z)) (m : positive) : option Z :=
  snd <$> List.find (fun p => bool_decide (p.1 = m)) ms.

Definition gap_array_marker_pos ga (m : positive) : option Z :=
  GAP_ARRAY_MEMORY_TO_ARRAY_POS ga <$> find_marker (ga_markers ga) m.

Definition make_gap_array : Gap_Array A := mk_gap_array [] 0 0 0 [].

(** ** What a gap array stands for *)

(** Elements around the gap, in memory. *)
Definition laid_out ga (l : list (option A)) : Prop :=
  0 <= gap ga <= zlen l /\ 0 <= gapsize ga /\ exists G,
    zlen G = gapsize ga /\ ga_array ga = ztake (gap ga) l ++ G ++ zdrop (gap ga) l.

(** A marker is not inside of the gap. *)
Definition marker_ok ga (n : Z) (m : positive * Z) : Prop :=
  0 <= m.2 <= gap ga \/ gap ga + gapsize ga < m.2 <= n + gapsize ga.

Record holds ga els (ms : list (positive * Z)) : Prop := {
  ga_laid : laid_out ga (map Some els);
  ga_count : numels ga = zlen els;
  ga_inside : Forall (marker_ok ga (zlen els)) (ga_markers ga);
  ga_at : ms = map (fun m => (m.1, GAP_ARRAY_MEMORY_TO_ARRAY_POS ga m.2)) (ga_markers ga);
}.

Ltac ga_unfold :=
  unfold gap_array_adjust_markers, set_array, set_gap, set_numels, set_ga_markers in *;
  cbn [ga_array gap gapsize numels ga_markers] in *.

(** ** Moving the gap *)

Section Moves.
Context {B : Type}.
Implicit Types a b c G l : list B.

Lemma mem_read_middle a b c i n : i = zlen a -> n = zlen b -> mem_read (a ++ b ++ c) i n = Some b.
Proof.
  intros -> ->. unfold mem_read. lens. zcase. f_equal.
  rewrite drop_app_exact by lia. by rewrite take_app_exact by lia.
Qed.

Lemma array_write_middle a b b' c i : i = zlen a -> length b = length b' -> mem_write (a ++ b ++ c) i b' = Some (a ++ b' ++ c).
Proof.
  intros -> Hb. rewrite mem_write_Some by (do 2 lens; lia). f_equal. rewrite take_app_exact by lia. do 2 f_equal.
  rewrite (app_assoc a b c). apply drop_app_exact. lens. lia.
Qed.

(** [b] changes places with [G] of which nothing is to be kept. *)
Lemma mem_move_up a b G c i j n :
  i = zlen a + zlen G -> j = zlen a -> n = zlen b -> exists G',
  length G' = length G /\ mem_move (a ++ b ++ G ++ c) i j n = Some (a ++ G' ++ b ++ c).
Proof.
  intros Hi Hj Hn. unfold mem_move. rewrite mem_read_middle by done. subst.
  exists (take (length G) (b ++ G)). split; [do 2 lens; lia |].
  replace (a ++ b ++ G ++ c) with ((a ++ take (length G) (b ++ G)) ++ drop (length G) (b ++ G) ++ c).
  - rewrite array_write_middle by (do 2 lens; lia). by rewrite <- app_assoc.
  - rewrite <- app_assoc. f_equal. by rewrite (app_assoc (take _ _)), take_drop, <- app_assoc.
Qed.

Lemma mem_move_down a b G c i j n :
  i = zlen a -> j = zlen a + zlen G -> n = zlen b -> exists G',
  length G' = length G /\ mem_move (a ++ G ++ b ++ c) i j n = Some (a ++ b ++ G' ++ c).
Proof.
  intros Hi Hj Hn. unfold mem_move. rewrite (app_assoc a G), mem_read_middle by (do 2 lens; lia). subst.
  exists (drop (length b) (G ++ b)). split; [do 2 lens; lia |].
  replace ((a ++ G) ++ b ++ c) with (a ++ take (length b) (G ++ b) ++ drop (length b) (G ++ b) ++ c).
  - by rewrite array_write_middle by (do 2 lens; lia).
  - rewrite <- app_assoc. f_equal. by rewrite (app_assoc (take _ _)), take_drop, <- app_assoc.
Qed.

Lemma split_three l i j :
  0 <= i <= j -> j <= zlen l -> exists a b c, l = a ++ b ++ c /\ zlen a = i /\ zlen b = j - i /\
    ztake i l = a /\ zdrop i l = b ++ c /\ ztake j l = a ++ b /\ zdrop j l = c.
Proof.
  intros Hi Hj. exists (ztake i l), (ztake (j - i) (zdrop i l)), (zdrop j l).
  assert (zdrop i l = ztake (j - i) (zdrop i l) ++ zdrop j l) as Ed.
  { rewrite <- (take_drop (Z.to_nat (j - i)) (zdrop i l)) at 1. rewrite drop_drop. do 2 f_equal. lia. }
  assert (l = ztake i l ++ ztake (j - i) (zdrop i l) ++ zdrop j l) as El by (rewrite <- Ed; by rewrite take_drop).
  split_and!; [done | lens; lia | do 2 lens; lia | done | done | | done].
  rewrite El at 1. rewrite app_assoc. apply take_app_exact. do 2 lens. lia.
Qed.
End Moves.

(** A marker when the gap moves down, and up. *)
Lemma adjust_for_move_down pos g size n m :
  0 <= pos < g -> 0 <= size -> 0 <= m <= g \/ g + size < m <= n + size -> g <= n ->
  let m' := do_marker_adjustment m pos g size in
  (0 <= m' <= pos \/ pos + size < m' <= n + size) /\
  (if m' <=? pos then m' else m' - size) = (if m <=? g then m else m - size).
Proof. intros Hp Hs Hm Hn. unfold do_marker_adjustment. zdec; lia. Qed.

Lemma adjust_for_move_up pos g size n m :
  g < pos <= n -> 0 <= size -> 0 <= m <= g \/ g + size < m <= n + size -> 0 <= g ->
  let m' := do_marker_adjustment m (g + size) (pos + size) (- size) in
  (0 <= m' <= pos \/ pos + size < m' <= n + size) /\
  (if m' <=? pos then m' else m' - size) = (if m <=? g then m else m - size).
Proof. intros Hp Hs Hm Hn. unfold do_marker_adjustment. zdec; lia. Qed.

Lemma map_markers (f : Z -> Z) (P Q : positive * Z -> Prop) (p p' : Z -> Z) (ms : list (positive * Z)) :
  Forall P ms -> (forall i m, P (i, m) -> Q (i, f m) /\ p' (f m) = p m) ->
  Forall Q (map (fun m => (m.1, f m.2)) ms) /\
  map (fun m => (m.1, p' m.2)) (map (fun m => (m.1, f m.2)) ms) = map (fun m => (m.1, p m.2)) ms.
Proof.
  intros Hm Hf. induction Hm as [| [i m] ms Hm1 Hm2 [IH1 IH2]]; [done |]. destruct (Hf i m Hm1) as [H1 H2].
  cbn. rewrite IH2, H2. by split; [constructor |].
Qed.

(** Markers at the same elements. *)
Definition same_places ga ga' : Prop :=
  map (fun m => (m.1, GAP_ARRAY_MEMORY_TO_ARRAY_POS ga' m.2)) (ga_markers ga') =
  map (fun m => (m.1, GAP_ARRAY_MEMORY_TO_ARRAY_POS ga m.2)) (ga_markers ga).

Lemma move_gap_run ga (l : list (option A)) pos :
  laid_out ga l -> 0 <= pos <= zlen l -> Forall (marker_ok ga (zlen l)) (ga_markers ga) ->
  exists ga',
    gap_array_move_gap ga pos = Some ga' /\ laid_out ga' l /\ gap ga' = pos /\
    gapsize ga' = gapsize ga /\ numels ga' = numels ga /\
    Forall (marker_ok ga' (zlen l)) (ga_markers ga') /\ same_places ga ga'.
Proof.
  intros (Hg & Hs & G & HG & Ea) Hp Hm. unfold gap_array_move_gap.
  destruct (Z.ltb_spec pos (gap ga)) as [Hlt | Hle]; [| destruct (Z.gtb_spec pos (gap ga)) as [Hgt | Hle2]].
  - destruct (split_three l pos (gap ga)) as (a & b & c & El & Ha & Hb & E1 & E2 & E3 & E4); [lia.. |].
    rewrite Ea, E3, E4, <- app_assoc.
    destruct (mem_move_up a b G c (pos + gapsize ga) pos (gap ga - pos)) as (G' & HG' & ->); [lia.. |].
    pose proof (map_markers (fun m => do_marker_adjustment m pos (gap ga) (gapsize ga)) (marker_ok ga (zlen l))
      (fun m => 0 <= m.2 <= pos \/ pos + gapsize ga < m.2 <= zlen l + gapsize ga)
      (GAP_ARRAY_MEMORY_TO_ARRAY_POS ga) (fun m => if m <=? pos then m else m - gapsize ga) (ga_markers ga) Hm) as HQ.
    specialize (HQ ltac:(intros i m Him; apply adjust_for_move_down; [lia | lia | exact Him | lia])).
    cbn [mbind option_bind]. eexists. split; [reflexivity |]. ga_unfold. split_and!; try done.
    + unfold laid_out. cbn. split_and!; [lia.. |]. exists G'. split; [lia |]. by rewrite E1, E2.
    + by apply HQ.
    + by apply HQ.
  - destruct (split_three l (gap ga) pos) as (a & b & c & El & Ha & Hb & E1 & E2 & E3 & E4); [lia.. |].
    rewrite Ea, E1, E2.
    destruct (mem_move_down a b G c (gap ga) (gap ga + gapsize ga) (pos - gap ga)) as (G' & HG' & ->); [lia.. |].
    pose proof (map_markers (fun m => do_marker_adjustment m (gap ga + gapsize ga) (pos + gapsize ga) (- gapsize ga)) (marker_ok ga (zlen l))
      (fun m => 0 <= m.2 <= pos \/ pos + gapsize ga < m.2 <= zlen l + gapsize ga)
      (GAP_ARRAY_MEMORY_TO_ARRAY_POS ga) (fun m => if m <=? pos then m else m - gapsize ga) (ga_markers ga) Hm) as HQ.
    specialize (HQ ltac:(intros i m Him; apply adjust_for_move_up; [lia | lia | exact Him | lia])).
    cbn [mbind option_bind]. eexists. split; [reflexivity |]. ga_unfold. split_and!; try done.
    + unfold laid_out. cbn. split_and!; [lia.. |]. exists G'. split; [lia |]. by rewrite E3, E4, <- app_assoc.
    + by apply HQ.
    + by apply HQ.
  - assert (pos = gap ga) as -> by lia. exists ga. split; [by destruct ga |].
    split_and!; try done. unfold laid_out. split_and!; [lia.. |]. by exists G.
Qed.

(** ** The operations on the list *)

Lemma move_gap_holds ga els ms pos :
  holds ga els ms -> 0 <= pos <= zlen els -> exists ga',
    gap_array_move_gap ga pos = Some ga' /\ holds ga' els ms /\ gap ga' = pos /\ gapsize ga' = gapsize ga.
Proof.
  intros [Hl Hn Hm ->] Hp.
  destruct (move_gap_run ga (map Some els) pos Hl) as (ga' & E & Hl' & Hg & Hs & Hc & Hm' & Hsame);
    [by rewrite length_map | by rewrite length_map |].
  exists ga'. split_and!; [done | | done | done]. rewrite length_map in Hm'.
  split; [done | by rewrite Hc | done | by rewrite <- Hsame].
Qed.

Lemma same_markers {B} (P P' Q : positive * Z -> Prop) (f f' g g' : positive * Z -> B) ms ms' :
  Forall P ms -> Forall P' ms' -> map f' ms' = map f ms ->
  (forall m m', P m -> P' m' -> f' m' = f m -> Q m' /\ g' m' = g m) ->
  Forall Q ms' /\ map g' ms' = map g ms.
Proof.
  intros H H' E HQ. revert ms' H' E. induction H as [| m ms Hm H IH]; intros [| m' ms'] H' E; try done.
  apply Forall_cons in H' as [Hm' H']. injection E as E1 E2.
  destruct (IH ms' H' E2) as [H1 H2]. destruct (HQ m m' Hm Hm' E1) as [H3 H4].
  cbn. rewrite H2, H4. by split; [constructor |].
Qed.

Lemma laid_out_length ga (l : list (option A)) : laid_out ga l -> zlen (ga_array ga) = zlen l + gapsize ga.
Proof. intros (Hg & Hs & G & HG & ->). do 2 lens. lia. Qed.

Lemma make_gap_holds ga els ms inc :
  holds ga els ms -> 0 <= inc -> exists ga',
    gap_array_make_gap ga inc = Some ga' /\ holds ga' els ms /\ gapsize ga + inc <= gapsize ga'.
Proof.
  intros [Hl Hn Hm ->] Hi. pose proof (laid_out_length _ _ Hl) as Hlen. rewrite length_map in Hlen.
  pose proof Hl as (Hg & Hs & G & HG & Ea). rewrite length_map in Hg.
  assert (0 <= numels ga / 8) as Hd by (apply Z.div_pos; lia).
  unfold gap_array_make_gap. set (inc' := inc + (100 + numels ga / 8)).
  set (new := replicate _ None).
  set (ga1 := set_gap (set_array ga (ga_array ga ++ new)) (numels ga + gapsize ga) inc').
  assert (zlen new = inc') as Hnew by (unfold new; rewrite length_replicate; unfold inc'; lia).
  (* in between, all that was is taken for elements *)
  assert (laid_out ga1 (ga_array ga)) as Hl1.
  { unfold laid_out, ga1. cbn. split; [lia |]. split; [lia |].
    exists new. split; [exact Hnew |]. rewrite take_ge, drop_ge by lia. by rewrite app_nil_r. }
  assert (Forall (marker_ok ga1 (zlen (ga_array ga))) (ga_markers ga1)) as Hm1.
  { eapply Forall_impl; [exact Hm |]. intros [i m]. unfold marker_ok, ga1. cbn. lia. }
  cbv zeta. match goal with |- context [gap_array_move_gap ?g ?p] => change g with ga1; change p with (gap ga + gapsize ga) end.
  destruct (move_gap_run ga1 (ga_array ga) (gap ga + gapsize ga) Hl1 ltac:(lia) Hm1)
    as (ga2 & -> & (_ & _ & G2 & HG2 & Ea2) & Hg2 & Hs2 & Hn2 & Hm2 & Hsame).
  cbn [mbind option_bind]. eexists. split; [reflexivity |].
  assert (gapsize ga1 = inc') as E1 by done. rewrite E1 in *.
  set (ga3 := set_gap ga2 (gap ga) (gapsize ga2 + gapsize ga)).
  assert (Forall (marker_ok ga3 (zlen els)) (ga_markers ga2) /\
    map (fun m => (m.1, GAP_ARRAY_MEMORY_TO_ARRAY_POS ga3 m.2)) (ga_markers ga2) =
    map (fun m => (m.1, GAP_ARRAY_MEMORY_TO_ARRAY_POS ga m.2)) (ga_markers ga)) as Hfin.
  { rewrite Hlen in Hm2. apply (same_markers _ _ _ _ _ _ _ _ _ Hm Hm2 Hsame). intros [i m] [i' m']. cbn.
    unfold marker_ok, GAP_ARRAY_MEMORY_TO_ARRAY_POS, ga3, ga1. cbn. rewrite Hg2, Hs2.
    intros H1 H2 [= -> E]. clear -H1 H2 E Hs Hg Hlen Hn Hi Hd. revert E. zdec; intros E; (split; [lia | f_equal; lia]). }
  split; [| cbn; lia]. split.
  - unfold laid_out. cbn. rewrite length_map. split; [lia |]. split; [lia |].
    exists (G ++ G2). split; [do 2 lens; lia |]. rewrite Ea2, Hg2, Ea.
    rewrite (app_assoc (ztake _ _) G), take_app_exact, drop_app_exact by (rewrite length_app, length_take, length_map; lia).
    by rewrite <- !app_assoc.
  - cbn. rewrite Hn2. done.
  - exact (proj1 Hfin).
  - exact (eq_sym (proj2 Hfin)).
Qed.

Lemma join_lookup els i : mjoin (map Some els !! i) = els !! i.
Proof. revert i. by induction els as [| x els IH]; intros [| i]; cbn. Qed.

(** Elements are read regardless of the gap. *)
Lemma el_holds ga els ms i :
  holds ga els ms -> 0 <= i -> GAP_ARRAY_EL ga i = zget els i.
Proof.
  intros [(Hg & Hs & G & HG & Ea) _ _ _] Hi. unfold GAP_ARRAY_EL. rewrite length_map in Hg. rewrite Ea.
  rewrite !zget_lookup by zcase. destruct (Z.ltb_spec i (gap ga)).
  - rewrite lookup_app_l by (rewrite length_take, length_map; lia).
    rewrite lookup_take_lt by lia. apply join_lookup.
  - rewrite app_assoc, lookup_app_r by (rewrite length_app, length_take, length_map; lia).
    rewrite lookup_drop, length_app, length_take, length_map.
    replace (_ + _)%nat with (Z.to_nat i) by lia. apply join_lookup.
Qed.

(** Where a marker at [p] goes when [n] elements are inserted at [pos], and when the [n]
    elements at [from] are deleted. *)
Definition moved_by_insert (pos n p : Z) : Z := if p <? pos then p else p + n.
Definition moved_by_delete (from n p : Z) : Z :=
  if p <=? from then p else if p <=? from + n then from else p - n.

Lemma insert_els_holds ga els ms pos new :
  holds ga els ms -> 0 <= pos <= zlen els -> exists ga',
    gap_array_insert_els ga pos new = Some ga' /\
    holds ga' (ztake pos els ++ new ++ zdrop pos els)
      (map (fun m => (m.1, moved_by_insert pos (zlen new) m.2)) ms).
Proof.
  intros Hh Hp. unfold gap_array_insert_els.
  assert (exists ga1, (if gapsize ga <? zlen new then gap_array_make_gap ga (zlen new - gapsize ga) else Some ga) = Some ga1 /\
    holds ga1 els ms /\ zlen new <= gapsize ga1) as (ga1 & -> & H1 & Hroom).
  { destruct (Z.ltb_spec (gapsize ga) (zlen new)); [| by exists ga].
    destruct (make_gap_holds ga els ms (zlen new - gapsize ga) Hh) as (ga1 & E & H1 & Hs); [lia |].
    exists ga1. split_and!; [done.. | lia]. }
  cbn [mbind option_bind].
  assert (exists ga2, (if pos =? gap ga1 then Some ga1 else gap_array_move_gap ga1 pos) = Some ga2 /\
    holds ga2 els ms /\ gap ga2 = pos /\ gapsize ga2 = gapsize ga1) as (ga2 & -> & H2 & Hgap & Hsize).
  { destruct (Z.eqb_spec pos (gap ga1)) as [-> |]; [by exists ga1 |]. by apply move_gap_holds. }
  cbn [mbind option_bind]. destruct H2 as [(Hg & Hs & G & HG & Ea) Hn Hm ->]. rewrite length_map in Hg.
  rewrite Hgap in *. rewrite Ea. set (n := length new).
  replace G with (take n G ++ drop n G) by apply take_drop. rewrite <- app_assoc.
  rewrite array_write_middle by (rewrite ?length_take, ?length_map; lia).
  cbn [mbind option_bind]. eexists. split; [reflexivity |]. ga_unfold. split.
  - unfold laid_out. cbn. rewrite length_map, length_app, length_app, length_take, length_drop.
    split; [lia |]. split; [lia |]. exists (drop n G). split; [rewrite length_drop; lia |].
    replace (map Some (ztake pos els ++ new ++ zdrop pos els))
      with ((ztake pos (map Some els) ++ map Some new) ++ zdrop pos (map Some els))
      by (by rewrite !map_app, <- firstn_map, <- skipn_map, <- app_assoc).
    rewrite take_app_exact, drop_app_exact by (rewrite length_app, length_take, !length_map; lia).
    by rewrite <- !app_assoc.
  - cbn. do 2 lens. rewrite Hn. lia.
  - cbn. apply Forall_map. eapply Forall_impl; [exact Hm |]. intros [i m]. unfold marker_ok, do_marker_adjustment. cbn.
    rewrite Hgap. intros Him. do 2 lens. zdec; lia.
  - cbn. rewrite !map_map. apply map_ext_in. intros [i m] Hin%list_elem_of_In.
    eapply Forall_forall in Hin; [| exact Hm]. revert Hin.
    unfold marker_ok, do_marker_adjustment, GAP_ARRAY_MEMORY_TO_ARRAY_POS, moved_by_insert. cbn. rewrite Hgap.
    intros Hin. f_equal. clear -Hin Hroom Hp Hs Hsize. zdec; lia.
Qed.

Lemma delete_els_holds ga els ms from n :
  holds ga els ms -> 0 <= from -> 0 <= n -> from + n <= zlen els -> exists ga',
    gap_array_delete_els ga from n = Some ga' /\
    holds ga' (ztake from els ++ zdrop (from + n) els)
      (map (fun m => (m.1, moved_by_delete from n m.2)) ms).
Proof.
  intros Hh Hf Hn Ht. unfold gap_array_delete_els.
  assert (exists ga1, (if from + n <? gap ga then gap_array_move_gap ga (from + n) else Some ga) = Some ga1 /\
    holds ga1 els ms /\ gap ga1 <= from + n /\ gapsize ga1 = gapsize ga) as (ga1 & -> & H1 & Hg1 & Hs1).
  { destruct (Z.ltb_spec (from + n) (gap ga)); [| by exists ga; split_and!].
    destruct (move_gap_holds ga els ms (from + n) Hh) as (ga1 & E & H1 & Hg & Hs); [lia |].
    exists ga1. split_and!; [exact E | exact H1 | lia | exact Hs]. }
  cbn [mbind option_bind].
  assert (exists ga2, (if from >? gap ga1 then gap_array_move_gap ga1 from else Some ga1) = Some ga2 /\
    holds ga2 els ms /\ from <= gap ga2 <= from + n /\ gapsize ga2 = gapsize ga1) as (ga2 & -> & H2 & Hgap & Hs2).
  { destruct (Z.gtb_spec from (gap ga1)); [| exists ga1; split_and!; [done | exact H1 | lia | lia | done]].
    destruct (move_gap_holds ga1 els ms from H1) as (ga2 & E & H2 & Hg & Hs); [lia |].
    exists ga2. split_and!; [exact E | exact H2 | lia | lia | exact Hs]. }
  cbn [mbind option_bind]. destruct H2 as [(Hg & Hs & G & HG & Ea) Hnum Hm ->]. rewrite length_map in Hg.
  rewrite <- Hs1, <- Hs2. eexists. split; [reflexivity |]. ga_unfold. split.
  - unfold laid_out. cbn. rewrite length_map, length_app, length_take, length_drop.
    split; [lia |]. split; [lia |].
    destruct (split_three (map Some els) from (gap ga2)) as (a & b & c & El & Ha & Hb & E1 & E2 & E3 & E4); [lia | rewrite length_map; lia |].
    destruct (split_three c 0 (from + n - gap ga2)) as (c0 & d & e & El2 & Hc0 & Hd & _ & _ & _ & _).
    { lia. } { apply (f_equal length) in El. rewrite length_map, !length_app in El. lia. }
    destruct c0; [| cbn in Hc0; lia]. cbn in El2. exists (b ++ G ++ d). split; [do 2 lens; lia |].
    rewrite Ea, E3, E4, El2. rewrite map_app, <- firstn_map, <- skipn_map, El, El2.
    rewrite (app_assoc b d e), (app_assoc a (b ++ d) e).
    rewrite (drop_app_exact (a ++ b ++ d) e) by (rewrite !length_app; lia).
    rewrite <- (app_assoc a (b ++ d) e), (take_app_exact a) by lia.
    rewrite take_app_exact, drop_app_exact by lia. by rewrite <- !app_assoc.
  - cbn. rewrite length_app, length_take, length_drop, Hnum. lia.
  - cbn. apply Forall_map. eapply Forall_impl; [exact Hm |]. intros [i m]. unfold marker_ok, do_marker_adjustment. cbn.
    intros Him. rewrite length_app, length_take, length_drop. clear -Him Hgap Hn Hf Ht Hs Hs1 Hs2 Hg. zdec; lia.
  - cbn. rewrite !map_map. apply map_ext_in. intros [i m] Hin%list_elem_of_In.
    eapply Forall_forall in Hin; [| exact Hm]. revert Hin.
    unfold marker_ok, do_marker_adjustment, GAP_ARRAY_MEMORY_TO_ARRAY_POS, moved_by_delete. cbn.
    intros Hin. f_equal. clear -Hin Hgap Hn Hf Ht Hs Hs1 Hs2 Hg. zdec; lia.
Qed.

(** *** Markers *)

Lemma to_array_to_memory ga p : 0 <= gapsize ga ->
  GAP_ARRAY_MEMORY_TO_ARRAY_POS ga (GAP_ARRAY_ARRAY_TO_MEMORY_POS ga p) = p.
Proof. unfold GAP_ARRAY_MEMORY_TO_ARRAY_POS, GAP_ARRAY_ARRAY_TO_MEMORY_POS. intros. zdec; lia. Qed.

Lemma to_memory_ok ga m n p :
  0 <= p <= n -> marker_ok ga n (m, GAP_ARRAY_ARRAY_TO_MEMORY_POS ga p).
Proof. unfold marker_ok, GAP_ARRAY_ARRAY_TO_MEMORY_POS. cbn. intros. zdec; lia. Qed.

Lemma make_marker_holds ga els ms pos :
  holds ga els ms -> 0 <= pos <= zlen els ->
  let '(m, ga') := gap_array_make_marker ga pos in
  holds ga' els ((m, pos) :: ms) /\ m ∉ map fst ms.
Proof.
  intros [Hl Hn Hm ->] Hp. cbn. split.
  - split; [done | done | constructor; [by apply (to_memory_ok ga) | done] |]. cbn.
    f_equal. f_equal. symmetry. apply (to_array_to_memory ga). apply Hl.
  - rewrite map_map. cbn. set (X := list_to_set _). pose proof (is_fresh X) as Hf. unfold X in Hf at 2.
    by rewrite elem_of_list_to_set in Hf.
Qed.

Lemma delete_marker_holds ga els ms m :
  holds ga els ms ->
  holds (gap_array_delete_marker ga m) els (List.filter (fun p => negb (bool_decide (p.1 = m))) ms).
Proof.
  intros [Hl Hn Hm ->]. split; [done | done | |]; cbn.
  - apply Forall_forall. intros p [Hp _]%list_elem_of_In%filter_In. eapply Forall_forall in Hm; [exact Hm |].
    by apply list_elem_of_In.
  - clear. induction (ga_markers ga) as [| p l IH]; [done |]. cbn. destruct (bool_decide (p.1 = m)); cbn; [done |].
    by rewrite IH.
Qed.

Lemma move_marker_holds ga els ms m pos :
  holds ga els ms -> 0 <= pos <= zlen els ->
  holds (gap_array_move_marker ga m pos) els
    (map (fun p => if bool_decide (p.1 = m) then (m, pos) else p) ms).
Proof.
  intros [Hl Hn Hm ->] Hp. split; [done | done | |]; cbn.
  - apply Forall_map. eapply Forall_impl; [exact Hm |]. intros p ?. case_bool_decide; [by apply (to_memory_ok ga) | done].
  - rewrite !map_map. apply map_ext. intros [i p]. cbn. case_bool_decide; [| done]. cbn.
    f_equal. symmetry. apply (to_array_to_memory ga). apply Hl.
Qed.

Lemma find_marker_map (f : Z -> Z) ms m :
  find_marker (map (fun p => (p.1, f p.2)) ms) m = f <$> find_marker ms m.
Proof.
  unfold find_marker. induction ms as [| p ms IH]; [done |]. cbn. by case_bool_decide.
Qed.

Lemma marker_pos_holds ga els ms m : holds ga els ms -> gap_array_marker_pos ga m = find_marker ms m.
Proof. intros [_ _ _ ->]. unfold gap_array_marker_pos. by rewrite find_marker_map. Qed.

Lemma make_gap_array_holds : holds make_gap_array [] [].
Proof. split; try done. split_and!; [done.. |]. by exists []. Qed.
End GapArray.

(** C40: A gap array is the list of its elements, and its markers are positions in it:
    elements are read, inserted and deleted as in a list, wherever the gap is and
    however much room there is; a marker moves with the element behind it - away from
    an insertion before it - and to the beginning of a deletion around it. *)
Theorem gap_array_is_a_list {A} (ga : Gap_Array A) els ms :
  holds ga els ms ->
  (forall i, 0 <= i -> GAP_ARRAY_EL ga i = zget els i) /\
  (forall m, gap_array_marker_pos ga m = find_marker ms m) /\
  (forall pos new, 0 <= pos <= zlen els -> exists ga',
     gap_array_insert_els ga pos new = Some ga' /\
     holds ga' (ztake pos els ++ new ++ zdrop pos els)
       (map (fun m => (m.1, moved_by_insert pos (zlen new) m.2)) ms)) /\
  (forall from n, 0 <= from -> 0 <= n -> from + n <= zlen els -> exists ga',
     gap_array_delete_els ga from n = Some ga' /\
     holds ga' (ztake from els ++ zdrop (from + n) els)
       (map (fun m => (m.1, moved_by_delete from n m.2)) ms)).
Proof.
  intros H. split_and!; intros.
  - by eapply el_holds.
  - by eapply marker_pos_holds.
  - by apply insert_els_holds.
  - by apply delete_els_holds.
Qed.

Lemma gap_array_is_a_list_witness :
  let ga : Gap_Array Z := mk_gap_array [Some 5; None; None; Some 6] 1 2 2 [(1%positive, 4)] in
  (forall i, 0 <= i -> GAP_ARRAY_EL ga i = zget [5; 6] i) /\
  (forall m, gap_array_marker_pos ga m = find_marker [(1%positive, 2)] m) /\
  (forall pos new, 0 <= pos <= 2 -> exists ga',
     gap_array_insert_els ga pos new = Some ga' /\
     holds ga' (ztake pos [5; 6] ++ new ++ zdrop pos [5; 6])
       (map (fun m => (m.1, moved_by_insert pos (zlen new) m.2)) [(1%positive, 2)])) /\
  (forall from n, 0 <= from -> 0 <= n -> from + n <= 2 -> exists ga',
     gap_array_delete_els ga from n = Some ga' /\
     holds ga' (ztake from [5; 6] ++ zdrop (from + n) [5; 6])
       (map (fun m => (m.1, moved_by_delete from n m.2)) [(1%positive, 2)])).
Proof.
  intros ga. apply (gap_array_is_a_list ga [5; 6] [(1%positive, 2)]). split; [| done | | done].
  - split_and!; [done.. |]. by exists [None; None].
  - constructor; [| done]. right. cbn. lia.
Defined.
