(* ===== verification/ExtentList.v ===== *)
(** * Lists of extents

    The extents of a buffer in two gap arrays, one in the display order and one in the
    e-order (extents.c 262-345, 700-906): the search by order, insertion and deletion. *)

From Stdlib Require Import Sorting.Sorted.
From S2P Require Import Prelude GapArray.

(** ** Extents *)

(** An extent has memory indices for its ends, [-1] when it is detached. *)
Record extent := mk_extent {
  extent_start : Z;
  extent_end : Z;
  extent_start_open_p : bool;
  extent_end_open_p : bool;
  extent_detachable_p : bool;
  extent_duplicable_p : bool;
  extent_internal_p : bool;
}.

(** The extents in memory. *)
Abbreviation extents := (gmap positive extent).

Definition extent_endpoint (e : extent) (endp : bool) : Z := if endp then extent_end e else extent_start e.
Definition extent_detached_p (e : extent) : bool := extent_start e <? 0.

Definition set_extent_endpoint (e : extent) (val : Z) (endp : bool) : extent :=
  mk_extent (if endp then extent_start e else val) (if endp then val else extent_end e)
    (extent_start_open_p e) (extent_end_open_p e) (extent_detachable_p e) (extent_duplicable_p e) (extent_internal_p e).
Definition set_extent_start (e : extent) (val : Z) : extent := set_extent_endpoint e val false.
Definition set_extent_end (e : extent) (val : Z) : extent := set_extent_endpoint e val true.

(** ** Orders *)

Definition EXTENT_LESS_VALS (e : extent) (st nd : Z) : bool :=
  (extent_start e <? st) || ((extent_start e =? st) && (extent_end e >? nd)).
Definition EXTENT_EQUAL_VALS (e : extent) (st nd : Z) : bool :=
  (extent_start e =? st) && (extent_end e =? nd).
Definition EXTENT_E_LESS_VALS (e : extent) (st nd : Z) : bool :=
  (extent_end e <? nd) || ((extent_end e =? nd) && (extent_start e >? st)).

Definition EXTENT_LESS (e1 e2 : extent) : bool := EXTENT_LESS_VALS e1 (extent_start e2) (extent_end e2).
Definition EXTENT_EQUAL (e1 e2 : extent) : bool := EXTENT_EQUAL_VALS e1 (extent_start e2) (extent_end e2).
Definition EXTENT_E_LESS (e1 e2 : extent) : bool := EXTENT_E_LESS_VALS e1 (extent_start e2) (extent_end e2).

(** The order that is asked for. *)
Definition extent_less (endp : bool) (e1 e2 : extent) : bool :=
  if endp then EXTENT_E_LESS e1 e2 else EXTENT_LESS e1 e2.

(** ** Lists *)

Record Extent_List := mk_extent_list {
  el_start : Gap_Array positive;
  el_end : Gap_Array positive;
}.

Definition el_array (el : Extent_List) (endp : bool) : Gap_Array positive :=
  if endp then el_end el else el_start el.
Definition extent_list_num_els (el : Extent_List) : Z := numels (el_start el).

Section Lists.
Variable es : extents.

Definition EXTENT_GAP_ARRAY_AT (ga : Gap_Array positive) (pos : Z) : option (positive * extent) :=
  a ← GAP_ARRAY_EL ga pos; e ← es !! a; Some (a, e).

Fixpoint locate_search (fuel : nat) (ga : Gap_Array positive) (ext : extent) (endp : bool) (left right : Z)
    : option Z :=
  if left =? right then Some left
  else match fuel with
  | O => None
  | S fuel =>
      let newpos := Z.shiftr (left + right) 1 in
      '(_, e) ← EXTENT_GAP_ARRAY_AT ga newpos;
      if extent_less endp e ext
      then locate_search fuel ga ext endp (newpos + 1) right
      else locate_search fuel ga ext endp left newpos
  end.

(** [addr] is the address of the extent looked for; a fake extent has none in the list. *)
Fixpoint locate_scan (fuel : nat) (ga : Gap_Array positive) (addr : option positive) (ext : extent) (foundpos : Z)
    : option (Z * bool) :=
  if foundpos <? numels ga then
    match fuel with
    | O => None
    | S fuel =>
        '(a, e) ← EXTENT_GAP_ARRAY_AT ga foundpos;
        if bool_decide (Some a = addr) then Some (foundpos, true)
        else if negb (EXTENT_EQUAL e ext) then Some (foundpos, false)
        else locate_scan fuel ga addr ext (foundpos + 1)
    end
  else Some (foundpos, false).

Definition extent_list_locate (el : Extent_List) (addr : option positive) (ext : extent) (endp : bool)
    : option (Z * bool) :=
  let ga := el_array el endp in
  let fuel := S (Z.to_nat (numels ga)) in
  oldfoundpos ← locate_search fuel ga ext endp 0 (numels ga);
  '(foundpos, found) ← locate_scan fuel ga addr ext oldfoundpos;
  Some (if found || negb endp then foundpos else oldfoundpos, found).

Definition fake_extent (pos : Z) : extent := mk_extent pos pos false false false false false.

Definition extent_list_locate_from_pos (el : Extent_List) (pos : Z) (endp : bool) : option Z :=
  fst <$> extent_list_locate el None (fake_extent (if endp then pos else pos - 1)) endp.

Definition extent_list_at (el : Extent_List) (pos : Z) (endp : bool) : option positive :=
  GAP_ARRAY_EL (el_array el endp) pos.

Definition extent_list_insert (el : Extent_List) (a : positive) : option Extent_List :=
  e ← es !! a;
  '(pos, _) ← extent_list_locate el (Some a) e false;
  start ← gap_array_insert_els (el_start el) pos [a];
  let el := mk_extent_list start (el_end el) in
  '(pos, _) ← extent_list_locate el (Some a) e true;
  ends ← gap_array_insert_els (el_end el) pos [a];
  Some (mk_extent_list (el_start el) ends).

Definition extent_list_delete (el : Extent_List) (a : positive) : option Extent_List :=
  e ← es !! a;
  '(pos, _) ← extent_list_locate el (Some a) e false;
  start ← gap_array_delete_els (el_start el) pos 1;
  let el := mk_extent_list start (el_end el) in
  '(pos, _) ← extent_list_locate el (Some a) e true;
  ends ← gap_array_delete_els (el_end el) pos 1;
  Some (mk_extent_list (el_start el) ends).
End Lists.

Definition extent_list_delete_all (el : Extent_List) : option Extent_List :=
  start ← gap_array_delete_els (el_start el) 0 (numels (el_start el));
  ends ← gap_array_delete_els (el_end el) 0 (numels (el_end el));
  Some (mk_extent_list start ends).

Definition allocate_extent_list : Extent_List := mk_extent_list make_gap_array make_gap_array.

(** A marker of an extent list. *)
Record Extent_List_Marker := mk_elm { elm_m : positive; elm_endp : bool }.

Definition set_el_array (el : Extent_List) (endp : bool) (ga : Gap_Array positive) : Extent_List :=
  if endp then mk_extent_list (el_start el) ga else mk_extent_list ga (el_end el).

Definition extent_list_make_marker (el : Extent_List) (pos : Z) (endp : bool) : Extent_List_Marker * Extent_List :=
  let '(m, ga) := gap_array_make_marker (el_array el endp) pos in
  (mk_elm m endp, set_el_array el endp ga).
Definition extent_list_move_marker (el : Extent_List) (mkr : Extent_List_Marker) (pos : Z) : Extent_List :=
  set_el_array el (elm_endp mkr) (gap_array_move_marker (el_array el (elm_endp mkr)) (elm_m mkr) pos).
Definition extent_list_delete_marker (el : Extent_List) (mkr : Extent_List_Marker) : Extent_List :=
  set_el_array el (elm_endp mkr) (gap_array_delete_marker (el_array el (elm_endp mkr)) (elm_m mkr)).
Definition extent_list_marker_pos (el : Extent_List) (mkr : Extent_List_Marker) : option Z :=
  gap_array_marker_pos (el_array el (elm_endp mkr)) (elm_m mkr).

(** ** The orders are orders *)

Ltac order := unfold extent_less, EXTENT_LESS, EXTENT_E_LESS, EXTENT_EQUAL, EXTENT_LESS_VALS, EXTENT_E_LESS_VALS,
  EXTENT_EQUAL_VALS in *.

Section Orders.
Implicit Types (e : extent) (endp : bool).

Lemma less_irrefl endp e : extent_less endp e e = false.
Proof. order. destruct endp; zdec; lia || done. Qed.

Lemma less_le_less endp e1 e2 e3 :
  extent_less endp e2 e1 = false -> extent_less endp e2 e3 = true -> extent_less endp e1 e3 = true.
Proof. order. destruct endp; ztest; lia || done. Qed.

Lemma less_asym endp e1 e2 : extent_less endp e1 e2 = true -> extent_less endp e2 e1 = false.
Proof. order. destruct endp; ztest; lia || done. Qed.

Lemma le_trans endp e1 e2 e3 :
  extent_less endp e2 e1 = false -> extent_less endp e3 e2 = false -> extent_less endp e3 e1 = false.
Proof. order. destruct endp; ztest; lia || done. Qed.

Lemma equal_not_less endp e1 e2 : EXTENT_EQUAL e1 e2 = true -> extent_less endp e1 e2 = false /\ extent_less endp e2 e1 = false.
Proof. order. destruct endp; ztest; lia || done. Qed.

(** Extents of which neither is less have the same ends. *)
Lemma not_less_equal endp e1 e2 :
  extent_less endp e1 e2 = false -> extent_less endp e2 e1 = false -> EXTENT_EQUAL e1 e2 = true.
Proof. order. destruct endp; ztest; lia || done. Qed.
End Orders.

(** ** Sorted lists *)

Definition no_extent : extent := mk_extent (-1) (-1) false false false false false.
Definition ext_at (es : extents) (a : positive) : extent := default no_extent (es !! a).

Section Sorted.
Variable es : extents.
Abbreviation at_ := (ext_at es).
Abbreviation less endp a x := (extent_less endp (ext_at es a) x).

Definition in_order (endp : bool) (l : list positive) : Prop :=
  StronglySorted (fun a b => less endp b (ext_at es a) = false) l.

Lemma ext_at_Some a e : es !! a = Some e -> ext_at es a = e.
Proof. unfold ext_at. by intros ->. Qed.

(** Elements that are less come first. *)
Lemma in_order_split endp l x :
  in_order endp l -> exists l1 l2,
    l = l1 ++ l2 /\ Forall (fun a => less endp a x = true) l1 /\ Forall (fun a => less endp a x = false) l2.
Proof.
  induction 1 as [| a l Hl IH Ha]; [by exists [], [] |].
  destruct (less endp a x) eqn:E.
  - destruct IH as (l1 & l2 & -> & H1 & H2). exists (a :: l1), l2. by split_and!; [| constructor |].
  - exists [], (a :: l). split_and!; [done | done |]. constructor; [done |].
    eapply Forall_impl; [exact Ha |]. intros b Hb. destruct (less endp b x) eqn:Eb; [| done].
    pose proof (less_le_less _ _ _ _ Hb Eb). congruence.
Qed.

(** Behind those that are less come those that are equal. *)
Lemma in_order_equals endp l x :
  in_order endp l -> Forall (fun a => less endp a x = false) l -> exists l1 l2,
    l = l1 ++ l2 /\ Forall (fun a => EXTENT_EQUAL (ext_at es a) x = true) l1 /\
    Forall (fun a => extent_less endp x (ext_at es a) = true) l2.
Proof.
  induction 1 as [| a l Hl IH Ha]; intros Hx; [by exists [], [] |].
  apply Forall_cons in Hx as [Hx1 Hx2]. destruct (extent_less endp x (ext_at es a)) eqn:E.
  - exists [], (a :: l). split_and!; [done | done |]. constructor; [done |].
    eapply Forall_impl; [exact Ha |]. intros b Hb. cbn.
    destruct (extent_less endp x (ext_at es b)) eqn:Eb; [done |].
    pose proof (le_trans _ _ _ _ Hb Eb). congruence.
  - destruct (IH Hx2) as (l1 & l2 & -> & H1 & H2). exists (a :: l1), l2. split_and!; [done | | done].
    constructor; [| done]. by apply (not_less_equal endp).
Qed.

Lemma in_order_app endp l1 l2 :
  in_order endp (l1 ++ l2) <->
  in_order endp l1 /\ in_order endp l2 /\
  forall a b, a ∈ l1 -> b ∈ l2 -> less endp b (ext_at es a) = false.
Proof.
  unfold in_order. induction l1 as [| a l1 IH]; cbn [app].
  - split; [intros H; split_and!; [constructor | done | set_solver] | tauto].
  - split.
    + intros [H1 H2]%StronglySorted_inv. apply IH in H1 as (H3 & H4 & H5). apply Forall_app in H2 as [H6 H7].
      split_and!; [by constructor | done |]. intros c b [-> | Hc]%elem_of_cons Hb; [| by apply H5].
      by eapply Forall_forall in H7.
    + intros ([H1 H2]%StronglySorted_inv & H3 & H4). constructor.
      * apply IH. split_and!; [done | done |]. intros c b Hc. apply H4. set_solver.
      * apply Forall_app. split; [done |]. apply Forall_forall. intros b. apply H4. set_solver.
Qed.

(** A new element behind those that are not greater, before those that are not less. *)
Lemma in_order_insert endp l1 l2 a :
  in_order endp (l1 ++ l2) ->
  (forall b, b ∈ l1 -> less endp a (ext_at es b) = false) ->
  (forall b, b ∈ l2 -> less endp b (ext_at es a) = false) ->
  in_order endp (l1 ++ a :: l2).
Proof.
  intros (H1 & H2 & H3)%in_order_app Ha Hb. apply in_order_app. split_and!; [done | |].
  - constructor; [done |]. by apply Forall_forall.
  - intros c d Hc [-> | Hd]%elem_of_cons; [by apply Ha | by apply H3].
Qed.

Lemma in_order_delete endp l1 l2 a : in_order endp (l1 ++ a :: l2) -> in_order endp (l1 ++ l2).
Proof.
  intros (H1 & [H2 _]%StronglySorted_inv & H3)%in_order_app. apply in_order_app. split_and!; [done.. |].
  intros b c Hb Hc. apply H3; set_solver.
Qed.

(** ** The search *)

Lemma at_holds ga l ms i a :
  holds ga l ms -> 0 <= i -> zget l i = Some a -> is_Some (es !! a) ->
  EXTENT_GAP_ARRAY_AT es ga i = Some (a, ext_at es a).
Proof.
  intros Hh Hi Ha [e He]. unfold EXTENT_GAP_ARRAY_AT. rewrite (el_holds _ _ _ _ Hh Hi), Ha.
  cbn [mbind option_bind]. rewrite He. cbn. by rewrite (ext_at_Some _ _ He).
Qed.

Lemma locate_search_run ga l1 l2 ms endp x fuel left right :
  holds ga (l1 ++ l2) ms -> Forall (fun a => is_Some (es !! a)) (l1 ++ l2) ->
  Forall (fun a => less endp a x = true) l1 -> Forall (fun a => less endp a x = false) l2 ->
  0 <= left <= zlen l1 -> zlen l1 <= right <= zlen (l1 ++ l2) -> right - left <= Z.of_nat fuel ->
  locate_search es fuel ga x endp left right = Some (zlen l1).
Proof.
  intros Hh Hd H1 H2. revert left right. induction fuel as [| fuel IH]; intros left right Hl Hr Hf.
  - cbn [locate_search]. zcase. f_equal. lia.
  - cbn [locate_search]. destruct (Z.eqb_spec left right) as [-> | Hne]; [f_equal; lia |].
    rewrite Z.shiftr_div_pow2 by lia. change (2 ^ 1) with 2.
    assert (left <= (left + right) / 2 < right) as Hm.
    { split; [apply Z.div_le_lower_bound; lia | apply Z.div_lt_upper_bound; lia]. }
    set (m := (left + right) / 2) in *.
    destruct (zget_is_Some (l1 ++ l2) m) as [a Ha]; [lia |].
    assert (a ∈ l1 ++ l2) as Hin by (rewrite zget_lookup in Ha by lia; by eapply list_elem_of_lookup_2).
    rewrite (at_holds _ _ _ m a Hh ltac:(lia) Ha) by (by eapply Forall_forall in Hd).
    cbn [mbind option_bind]. rewrite zget_app in Ha. destruct (Z.ltb_spec m (zlen l1)).
    + assert (a ∈ l1) as Ha1 by (rewrite zget_lookup in Ha by lia; by eapply list_elem_of_lookup_2).
      eapply Forall_forall in H1; [| exact Ha1]. cbn in H1. rewrite H1. apply IH; lia.
    + assert (a ∈ l2) as Ha2 by (rewrite zget_lookup in Ha by lia; by eapply list_elem_of_lookup_2).
      eapply Forall_forall in H2; [| exact Ha2]. cbn in H2. rewrite H2. apply IH; lia.
Qed.

Lemma locate_scan_run ga l0 addr x l1 l2 ms fuel :
  holds ga (l0 ++ l1 ++ l2) ms -> Forall (fun a => is_Some (es !! a)) (l0 ++ l1 ++ l2) ->
  Forall (fun a => EXTENT_EQUAL (ext_at es a) x = true /\ Some a <> addr) l1 ->
  (match l2 with [] => True | b :: _ => Some b = addr \/ EXTENT_EQUAL (ext_at es b) x = false end) ->
  (length l1 < fuel)%nat ->
  locate_scan es fuel ga addr x (zlen l0) =
    Some (zlen (l0 ++ l1), match l2 with [] => false | b :: _ => bool_decide (Some b = addr) end).
Proof.
  revert l0 fuel. induction l1 as [| a l1 IH]; intros l0 [| fuel] Hh Hd H1 H2 Hf; cbn in Hf; try lia.
  - rewrite app_nil_r. cbn [locate_scan app] in *. rewrite (ga_count _ _ _ Hh). destruct l2 as [| b l2].
    + rewrite app_nil_r. zcase.
    + lens. zcase. rewrite (at_holds _ _ _ (zlen l0) b Hh ltac:(lia) (zget_middle _ _ _)) by (apply Forall_app in Hd as [_ Hd]; by inversion Hd).
      cbn [mbind option_bind]. case_bool_decide; [done |]. by destruct H2 as [? | ->].
  - cbn [locate_scan]. rewrite (ga_count _ _ _ Hh). apply Forall_cons in H1 as [[Ha Hn] H1].
    assert (zlen l0 < zlen (l0 ++ (a :: l1) ++ l2)) as Hlt by (do 2 lens; lia). rewrite (proj2 (Z.ltb_lt _ _) Hlt).
    cbn [app] in *.
    rewrite (at_holds _ _ _ (zlen l0) a Hh ltac:(lia) (zget_middle _ _ _)) by (apply Forall_app in Hd as [_ Hd]; by inversion Hd).
    cbn [mbind option_bind]. rewrite bool_decide_eq_false_2 by done. rewrite Ha. cbn [negb].
    rewrite cons_middle, app_assoc in Hh, Hd. rewrite (cons_middle a l0 l1), app_assoc.
    replace (zlen l0 + 1) with (zlen (l0 ++ [a])) by (lens; lia). apply IH; [done.. | lia].
Qed.

(** The first element with this address. *)
Lemma first_with (addr : option positive) (l : list positive) :
  (exists l1 a l2, l = l1 ++ a :: l2 /\ Some a = addr /\ Forall (fun b => Some b <> addr) l1) \/
  Forall (fun b => Some b <> addr) l.
Proof.
  induction l as [| b l IH]; [by right |]. destruct (decide (Some b = addr)) as [E | E].
  - left. by exists [], b, l.
  - destruct IH as [(l1 & a & l2 & -> & Ha & Hl) | Hl]; [left | right; by constructor].
    exists (b :: l1), a, l2. by split_and!; [| | constructor].
Qed.

(** The search in an ordered list: behind those that are less come those that are equal,
    and the extent is found if it is among them. *)
Lemma locate_run el endp l ms addr x :
  holds (el_array el endp) l ms -> Forall (fun a => is_Some (es !! a)) l -> in_order endp l ->
  exists l1 l2 l3, l = l1 ++ l2 ++ l3 /\
    Forall (fun a => less endp a x = true) l1 /\
    Forall (fun a => EXTENT_EQUAL (ext_at es a) x = true /\ Some a <> addr) l2 /\
    ((exists a l4, l3 = a :: l4 /\ Some a = addr /\
       extent_list_locate es el addr x endp = Some (zlen (l1 ++ l2), true)) \/
     (Forall (fun a => extent_less endp x (ext_at es a) = true) l3 /\
      extent_list_locate es el addr x endp = Some (zlen (if endp then l1 else l1 ++ l2), false))).
Proof.
  intros Hh Hd Ho. destruct (in_order_split _ _ x Ho) as (l1 & r & -> & H1 & H2).
  pose proof Ho as (_ & Hor & _)%in_order_app.
  destruct (in_order_equals _ _ x Hor H2) as (eqs & l3 & -> & He & H3).
  assert (locate_search es (S (Z.to_nat (numels (el_array el endp)))) (el_array el endp) x endp 0
    (numels (el_array el endp)) = Some (zlen l1)) as Hs.
  { rewrite (ga_count _ _ _ Hh). eapply locate_search_run; [exact Hh | done.. | lia | lens; lia | lia]. }
  unfold extent_list_locate. rewrite Hs. cbn [mbind option_bind].
  destruct (first_with addr eqs) as [(l2 & a & l4 & -> & Ha & Hl2) | Hn].
  - exists l1, l2, (a :: l4 ++ l3). rewrite <- app_assoc in Hh, Hd |- *. split_and!; [done.. | |].
    + apply Forall_app in He as [He _]. by apply Forall_and.
    + left. exists a, (l4 ++ l3). split_and!; [done.. |].
      rewrite (locate_scan_run _ l1 addr x l2 (a :: l4 ++ l3) _ _ Hh Hd); [| | by left |].
      * cbn. by rewrite bool_decide_eq_true_2.
      * apply Forall_app in He as [He _]. by apply Forall_and.
      * rewrite (ga_count _ _ _ Hh). do 2 lens. lia.
  - exists l1, eqs, l3. split_and!; [done.. | by apply Forall_and |].
    assert (length eqs < S (Z.to_nat (numels (el_array el endp))))%nat as Hfuel
      by (rewrite (ga_count _ _ _ Hh); do 2 lens; lia).
    destruct l3 as [| b l3].
    + right. split; [done |]. rewrite (locate_scan_run _ l1 addr x eqs [] _ _ Hh Hd); [| by apply Forall_and | done | done].
      by destruct endp.
    + rewrite (locate_scan_run _ l1 addr x eqs (b :: l3) _ _ Hh Hd); [| by apply Forall_and | | done].
      2: { right. apply Forall_cons in H3 as [H3 _]. destruct (EXTENT_EQUAL (ext_at es b) x) eqn:E; [| done].
        apply (equal_not_less endp) in E as [_ E]. congruence. }
      cbn [mbind option_bind]. case_bool_decide as Eb; [left; by exists b, l3 | right]. split; [done |]. by destruct endp.
Qed.

(** An extent of the list is found. *)
Lemma locate_found el endp l ms a :
  holds (el_array el endp) l ms -> Forall (fun a => is_Some (es !! a)) l -> in_order endp l -> a ∈ l ->
  exists l1 l2, l = l1 ++ a :: l2 /\
    extent_list_locate es el (Some a) (ext_at es a) endp = Some (zlen l1, true).
Proof.
  intros Hh Hd Ho Ha.
  destruct (locate_run el endp l ms (Some a) (ext_at es a) Hh Hd Ho) as (l1 & l2 & l3 & -> & H1 & H2 & [H3 | [H3 _]]).
  - destruct H3 as (b & l4 & -> & [= ->] & E). exists (l1 ++ l2), l4. by rewrite <- app_assoc.
  - exfalso. rewrite !elem_of_app in Ha. destruct Ha as [Ha | [Ha | Ha]].
    + eapply Forall_forall in H1; [| exact Ha]. cbn in H1. by rewrite less_irrefl in H1.
    + eapply Forall_forall in H2; [| exact Ha]. by destruct H2.
    + eapply Forall_forall in H3; [| exact Ha]. cbn in H3. by rewrite less_irrefl in H3.
Qed.

(** An extent that is not in the list is inserted where the order stays. *)
Lemma locate_insert el endp l ms a :
  holds (el_array el endp) l ms -> Forall (fun a => is_Some (es !! a)) l -> in_order endp l -> a ∉ l ->
  exists l1 l2, l = l1 ++ l2 /\ in_order endp (l1 ++ a :: l2) /\
    extent_list_locate es el (Some a) (ext_at es a) endp = Some (zlen l1, false).
Proof.
  intros Hh Hd Ho Ha.
  destruct (locate_run el endp l ms (Some a) (ext_at es a) Hh Hd Ho) as (l1 & l2 & l3 & -> & H1 & H2 & [H3 | [H3 E]]).
  { destruct H3 as (b & l4 & -> & [= ->] & _). set_solver. }
  assert (forall b, b ∈ l1 -> less endp a (ext_at es b) = false) as G1.
  { intros b Hb. apply less_asym. by eapply Forall_forall in H1. }
  assert (forall b, b ∈ l2 -> less endp a (ext_at es b) = false /\ less endp b (ext_at es a) = false) as G2.
  { intros b Hb. eapply Forall_forall in H2 as [H2 _]; [| exact Hb]. by apply (equal_not_less endp) in H2 as []. }
  assert (forall b, b ∈ l3 -> less endp b (ext_at es a) = false) as G3.
  { intros b Hb. apply less_asym. by eapply Forall_forall in H3. }
  destruct endp.
  - exists l1, (l2 ++ l3). split_and!; [done | | done]. apply in_order_insert; [done.. |].
    intros b [Hb | Hb]%elem_of_app; [by apply G2 | by apply G3].
  - exists (l1 ++ l2), l3. rewrite <- app_assoc. split_and!; [done | | done]. rewrite app_assoc in Ho.
    apply in_order_insert; [done | | done]. intros b [Hb | Hb]%elem_of_app; [by apply G1 | by apply G2].
Qed.

(** Positions: the elements that begin (or end) before [pos] come before the place returned. *)
Lemma locate_pos el endp l ms pos :
  holds (el_array el endp) l ms -> Forall (fun a => is_Some (es !! a)) l -> in_order endp l ->
  Forall (fun a => extent_start (ext_at es a) <= extent_end (ext_at es a)) l ->
  exists l1 l2, l = l1 ++ l2 /\ extent_list_locate_from_pos es el pos endp = Some (zlen l1) /\
    Forall (fun a => extent_endpoint (ext_at es a) endp < pos) l1 /\
    Forall (fun a => pos <= extent_endpoint (ext_at es a) endp) l2.
Proof.
  intros Hh Hd Ho Hle. unfold extent_list_locate_from_pos.
  destruct (locate_run el endp l ms None (fake_extent (if endp then pos else pos - 1)) Hh Hd Ho)
    as (l1 & l2 & l3 & -> & H1 & H2 & [H3 | [H3 ->]]).
  { by destruct H3 as (b & l4 & _ & ? & _). }
  apply Forall_app in Hle as [L1 [L2 L3]%Forall_app].
  assert (forall P Q R : positive -> Prop, forall l, Forall P l -> Forall Q l -> (forall a, P a -> Q a -> R a) -> Forall R l) as Hpqr.
  { intros P Q R k HP HQ HR. apply Forall_forall. intros a Ha. eapply Forall_forall in HP, HQ; eauto. }
  destruct endp; order; cbn in *.
  - exists l1, (l2 ++ l3). split_and!; [done.. | |].
    + eapply Hpqr; [exact H1 | exact L1 |]. cbn. intros a. unfold extent_endpoint. ztest; lia || done.
    + apply Forall_app. split; [eapply Hpqr; [exact H2 | exact L2 |] | eapply Hpqr; [exact H3 | exact L3 |]];
        cbn; intros a; unfold extent_endpoint; [intros [H _]; revert H |]; ztest; lia || done.
  - exists (l1 ++ l2), l3. rewrite <- app_assoc. split_and!; [done.. | |].
    + apply Forall_app. split; [eapply Hpqr; [exact H1 | exact L1 |] | eapply Hpqr; [exact H2 | exact L2 |]];
        cbn; intros a; unfold extent_endpoint; [| intros [H _]; revert H]; ztest; lia || done.
    + eapply Hpqr; [exact H3 | exact L3 |]. cbn. intros a. unfold extent_endpoint. ztest; lia || done.
Qed.
End Sorted.

(** ** The pair of lists *)

(** An extent list: the same extents in both orders. *)
Record el_ok (es : extents) (el : Extent_List) (l0 l1 : list positive) (ms0 ms1 : list (positive * Z)) : Prop := {
  eo_start : holds (el_start el) l0 ms0;
  eo_end : holds (el_end el) l1 ms1;
  eo_perm : l0 ≡ₚ l1;
  eo_nodup : NoDup l0;
  eo_dom : Forall (fun a => is_Some (es !! a)) l0;
  eo_bounds : Forall (fun a => 0 <= extent_start (ext_at es a) <= extent_end (ext_at es a)) l0;
  eo_order : in_order es false l0;
  eo_e_order : in_order es true l1;
}.

Section Pairs.
Variable es : extents.

Lemma Forall_perm {A} (P : A -> Prop) (l l' : list A) : l ≡ₚ l' -> Forall P l -> Forall P l'.
Proof. intros E H. by rewrite <- E. Qed.

Lemma extent_list_insert_ok el l0 l1 ms0 ms1 a :
  el_ok es el l0 l1 ms0 ms1 -> a ∉ l0 -> is_Some (es !! a) ->
  0 <= extent_start (ext_at es a) <= extent_end (ext_at es a) ->
  exists el' p0 q0 p1 q1,
    l0 = p0 ++ q0 /\ l1 = p1 ++ q1 /\ extent_list_insert es el a = Some el' /\
    el_ok es el' (p0 ++ a :: q0) (p1 ++ a :: q1)
      (map (fun m => (m.1, moved_by_insert (zlen p0) 1 m.2)) ms0)
      (map (fun m => (m.1, moved_by_insert (zlen p1) 1 m.2)) ms1).
Proof.
  intros [H0 H1 Hp Hn Hd Hb Ho0 Ho1] Ha [e He] Hab.
  assert (a ∉ l1) as Ha1 by (by rewrite <- Hp).
  pose proof (Forall_perm _ _ _ Hp Hd) as Hd1.
  unfold extent_list_insert. rewrite He. cbn [mbind option_bind].
  rewrite <- (ext_at_Some es a e He).
  destruct (locate_insert es el false l0 ms0 a H0 Hd Ho0 Ha) as (p0 & q0 & -> & Hi0 & ->). cbn [mbind option_bind].
  destruct (insert_els_holds (el_start el) (p0 ++ q0) ms0 (zlen p0) [a] H0) as (g0 & -> & Hg0); [lens; lia |].
  cbn [mbind option_bind]. rewrite take_app_exact, drop_app_exact in Hg0 by lia.
  destruct (locate_insert es (mk_extent_list g0 (el_end el)) true l1 ms1 a H1 Hd1 Ho1 Ha1) as (p1 & q1 & -> & Hi1 & ->).
  cbn [mbind option_bind el_end].
  destruct (insert_els_holds (el_end el) (p1 ++ q1) ms1 (zlen p1) [a] H1) as (g1 & -> & Hg1); [lens; lia |].
  cbn [mbind option_bind]. rewrite take_app_exact, drop_app_exact in Hg1 by lia.
  exists (mk_extent_list g0 g1), p0, q0, p1, q1. split_and!; [done.. |].
  assert (p0 ++ a :: q0 ≡ₚ a :: (p0 ++ q0)) as Ep by (by rewrite Permutation_middle).
  split; [exact Hg0 | exact Hg1 | | | | | done | done].
  - rewrite Ep, Hp. apply Permutation_middle.
  - rewrite Ep. by constructor.
  - rewrite Ep. by constructor.
  - rewrite Ep. by constructor.
Qed.

Lemma extent_list_delete_ok el l0 l1 ms0 ms1 a :
  el_ok es el l0 l1 ms0 ms1 -> a ∈ l0 ->
  exists el' p0 q0 p1 q1,
    l0 = p0 ++ a :: q0 /\ l1 = p1 ++ a :: q1 /\ extent_list_delete es el a = Some el' /\
    el_ok es el' (p0 ++ q0) (p1 ++ q1)
      (map (fun m => (m.1, moved_by_delete (zlen p0) 1 m.2)) ms0)
      (map (fun m => (m.1, moved_by_delete (zlen p1) 1 m.2)) ms1).
Proof.
  intros [H0 H1 Hp Hn Hd Hb Ho0 Ho1] Ha.
  assert (a ∈ l1) as Ha1 by (by rewrite <- Hp).
  pose proof (Forall_perm _ _ _ Hp Hd) as Hd1.
  pose proof Hd as Hd'. eapply Forall_forall in Hd' as [e He]; [| exact Ha].
  unfold extent_list_delete. rewrite He. cbn [mbind option_bind].
  rewrite <- (ext_at_Some es a e He).
  destruct (locate_found es el false l0 ms0 a H0 Hd Ho0 Ha) as (p0 & q0 & -> & ->). cbn [mbind option_bind].
  destruct (delete_els_holds (el_start el) (p0 ++ a :: q0) ms0 (zlen p0) 1 H0) as (g0 & -> & Hg0); [lia | lia | lens; lia |].
  cbn [mbind option_bind].
  destruct (locate_found es (mk_extent_list g0 (el_end el)) true l1 ms1 a H1 Hd1 Ho1 Ha1) as (p1 & q1 & -> & ->).
  cbn [mbind option_bind el_end].
  destruct (delete_els_holds (el_end el) (p1 ++ a :: q1) ms1 (zlen p1) 1 H1) as (g1 & -> & Hg1); [lia | lia | lens; lia |].
  cbn [mbind option_bind].
  rewrite take_app_exact in Hg0, Hg1 by lia. rewrite (cons_middle a p0 q0), app_assoc in Hg0.
  rewrite (cons_middle a p1 q1), app_assoc in Hg1. rewrite drop_app_exact in Hg0, Hg1 by (lens; lia).
  exists (mk_extent_list g0 g1), p0, q0, p1, q1. split_and!; [done.. |].
  assert (p0 ++ a :: q0 ≡ₚ a :: (p0 ++ q0)) as Ep by (by rewrite Permutation_middle).
  rewrite Ep in Hn, Hd, Hb. apply NoDup_cons in Hn as [_ Hn]. apply Forall_cons in Hd as [_ Hd], Hb as [_ Hb].
  split; [exact Hg0 | exact Hg1 | | done.. | |].
  - rewrite Ep, <- Permutation_middle in Hp. by apply Permutation_cons_inv in Hp.
  - by eapply in_order_delete.
  - by eapply in_order_delete.
Qed.
End Pairs.

(** Insertion into an extent list and deletion from it keep both arrays in order, with
    the same extents in both; the search before them finds the one place that does. *)
Theorem extent_lists_stay_ordered es el l0 l1 ms0 ms1 a :
  el_ok es el l0 l1 ms0 ms1 -> is_Some (es !! a) ->
  0 <= extent_start (ext_at es a) <= extent_end (ext_at es a) ->
  exists el' l0' l1' ms0' ms1',
    (if bool_decide (a ∈ l0) then extent_list_delete es el a else extent_list_insert es el a) = Some el' /\
    el_ok es el' l0' l1' ms0' ms1' /\
    if bool_decide (a ∈ l0) then l0 ≡ₚ a :: l0' else l0' ≡ₚ a :: l0.
Proof.
  intros He Hs Hb. case_bool_decide as Ha.
  - destruct (extent_list_delete_ok es el l0 l1 ms0 ms1 a He Ha) as (el' & p0 & q0 & p1 & q1 & -> & -> & E & H).
    do 5 eexists. split_and!; [exact E | exact H |]. by rewrite <- Permutation_middle.
  - destruct (extent_list_insert_ok es el l0 l1 ms0 ms1 a He Ha Hs Hb) as (el' & p0 & q0 & p1 & q1 & -> & -> & E & H).
    do 5 eexists. split_and!; [exact E | exact H |]. by rewrite <- Permutation_middle.
Qed.
