(* ===== verification/Extents.v ===== *)
(** * Extents of a buffer

    The stack of extents, attaching and detaching, mapping over extents, and what becomes
    of extents when text is inserted and deleted and when the gap moves (extents.c
    1253-1528, 1655-2490, 3587-3622, 4550-4700), for the extents of one buffer. *)

From S2P Require Import Prelude Buffer Insdel GapArray ExtentList.

(** ** State *)

Record Stack_Of_Extents := mk_soe {
  soe_extents : Extent_List;
  soe_pos : Z;
}.

(** Stage 1 of [soe_move]: [n] extents at the same place are deleted. *)
Fixpoint soe_delete_loop (n : nat) (es : extents) (sel : Extent_List) (start : Z) (endp : bool)
    : option Extent_List :=
  match n with
  | O => Some sel
  | S n =>
      a ← extent_list_at sel start endp;
      sel ← extent_list_delete es sel a;
      soe_delete_loop n es sel start endp
  end.

(** Stage 2: from [start_pos] on, up or down the list of the buffer. *)
Fixpoint soe_insert_loop (fuel : nat) (es : extents) (bel sel : Extent_List) (forward : bool) (pos start_pos : Z)
    : option Extent_List :=
  if (start_pos >=? 0) && (start_pos <? extent_list_num_els bel) then
    match fuel with
    | O => None
    | S fuel =>
        a ← extent_list_at bel start_pos (negb forward);
        e ← es !! a;
        if (if forward then extent_start e >? pos else extent_end e <? pos) then Some sel
        else
          sel ← (if (if forward then extent_end e >=? pos else extent_start e <=? pos)
                 then extent_list_insert es sel a else Some sel);
          soe_insert_loop fuel es bel sel forward pos (if forward then start_pos + 1 else start_pos - 1)
    end
  else Some sel.

Definition soe_moved (es : extents) (bel : Extent_List) (soe : Stack_Of_Extents) (pos : Z) : option Extent_List :=
  let sel := soe_extents soe in
  let numsoe := extent_list_num_els sel in
  let forward := soe_pos soe <? pos in
  sel ← (if numsoe >? 0 then
           start ← (if forward then Some 0 else extent_list_locate_from_pos es sel (pos + 1) false);
           ends ← (if forward then extent_list_locate_from_pos es sel pos true else Some numsoe);
           soe_delete_loop (Z.to_nat (ends - start)) es sel start forward
         else Some sel);
  start_pos ← (if forward then extent_list_locate_from_pos es bel (soe_pos soe + 1) false
               else Z.pred <$> extent_list_locate_from_pos es bel (soe_pos soe) true);
  soe_insert_loop (S (Z.to_nat (extent_list_num_els bel))) es bel sel forward pos start_pos.

(** ** Regions *)

Definition ME_END_CLOSED : Z := 1.
Definition ME_START_OPEN : Z := 2.
Definition ME_ALL_EXTENTS_CLOSED : Z := 4.
Definition ME_ALL_EXTENTS_OPEN : Z := 8.
Definition ME_ALL_EXTENTS_CLOSED_OPEN : Z := 12.
Definition ME_ALL_EXTENTS_OPEN_CLOSED : Z := 16.
Definition ME_ALL_EXTENTS_MASK : Z := 28.
Definition ME_START_IN_REGION : Z := 32.
Definition ME_END_IN_REGION : Z := 64.
Definition ME_START_AND_END_IN_REGION : Z := 96.
Definition ME_START_OR_END_IN_REGION : Z := 128.
Definition ME_IN_REGION_MASK : Z := 224.
Definition ME_NEGATE_IN_REGION : Z := 256.
Definition ME_INCLUDE_INTERNAL : Z := 512.
Definition ME_MIGHT_MODIFY_TEXT : Z := 2048.
Definition ME_MIGHT_MODIFY_EXTENTS : Z := 4096.
Definition ME_MIGHT_MOVE_SOE : Z := 8192.

Definition flag (flags m : Z) : bool := negb (Z.land flags m =? 0).

(** An [Endpoint_Index] is an [int]: from memory index 2^30 on it is cut to 32 bits. *)
Definition memind_to_startind (x : Z) (start_open : bool) : Z := to_int (Z.shiftl x 1 + Z.b2z start_open).
Definition memind_to_endind (x : Z) (end_open : bool) : Z := to_int (Z.shiftl x 1 - Z.b2z end_open).

(** How the ends of an extent count; [None] is the abort on an unknown flag. *)
Definition open_ends (e : extent) (flags : Z) : option (bool * bool) :=
  let all_extents_flags := Z.land flags ME_ALL_EXTENTS_MASK in
  if extent_start e =? extent_end e then Some (false, false)
  else if all_extents_flags =? 0 then Some (extent_start_open_p e, extent_end_open_p e)
  else if all_extents_flags =? ME_ALL_EXTENTS_CLOSED then Some (false, false)
  else if all_extents_flags =? ME_ALL_EXTENTS_OPEN then Some (true, true)
  else if all_extents_flags =? ME_ALL_EXTENTS_CLOSED_OPEN then Some (false, true)
  else if all_extents_flags =? ME_ALL_EXTENTS_OPEN_CLOSED then Some (true, false)
  else None.

Definition extent_in_region_p (t : buffer_text) (e : extent) (from to flags : Z) : option bool :=
  let in_region_flags := Z.land flags ME_IN_REGION_MASK in
  let end_closed := flag flags ME_END_CLOSED || (from =? to) in
  let region_start_open := flag flags ME_START_OPEN && negb (from =? to) in
  '(start_open, end_open) ← open_ends e flags;
  let start := memind_to_startind (bytind_to_memind t from) region_start_open in
  let ends := memind_to_endind (bytind_to_memind t to) (negb end_closed) in
  let exs := memind_to_startind (extent_start e) start_open in
  let exe := memind_to_endind (extent_end e) end_open in
  if (exs >? ends) || (exe <? start) then Some false
  else
    retval ←
      (if in_region_flags =? 0 then Some true
       else if in_region_flags =? ME_START_IN_REGION then Some ((start <=? exs) && (exs <=? ends))
       else if in_region_flags =? ME_END_IN_REGION then Some ((start <=? exe) && (exe <=? ends))
       else if in_region_flags =? ME_START_AND_END_IN_REGION then Some ((start <=? exs) && (exe <=? ends))
       else if in_region_flags =? ME_START_OR_END_IN_REGION
            then Some (((start <=? exs) && (exs <=? ends)) || ((start <=? exe) && (exe <=? ends)))
       else None);
    Some (if flag flags ME_NEGATE_IN_REGION then negb retval else retval).

(** The text, of which the place of the gap matters; the extents in memory; the extent info
    of the buffer; what was recorded for undo; and the argument of a mapping function. *)
Record ext_world (U : Type) := mk_ew {
  ew_text : buffer_text;
  ew_extents : extents;
  ew_list : Extent_List;
  ew_soe : option Stack_Of_Extents;
  ew_recorded : list (positive * bool);
  ew_closure : U;
}.
Arguments mk_ew {U}. Arguments ew_text {U}. Arguments ew_extents {U}. Arguments ew_list {U}.
Arguments ew_soe {U}. Arguments ew_recorded {U}. Arguments ew_closure {U}.

(** [None]: an access to memory that is not there, or fuel that ran out. *)
Definition X (U A : Type) : Type := ext_world U -> option (A * ext_world U).

Definition ret {U A} (a : A) : X U A := fun w => Some (a, w).
Definition bind {U A B} (m : X U A) (k : A -> X U B) : X U B := fun w =>
  match m w with Some (a, w) => k a w | None => None end.

Declare Scope ext_scope.
Notation "x ← y ; z" := (bind y (fun x : _ => z)) : ext_scope.
Notation "' x ← y ; z" := (bind y (fun x : _ => z)) : ext_scope.
Notation "y ;; z" := (bind y (fun _ => z)) : ext_scope.
#[local] Open Scope ext_scope.

Section Extents.
Context {U : Type}.
Implicit Types (w : ext_world U).

Definition lift {A} (m : option A) : X U A := fun w => match m with Some a => Some (a, w) | None => None end.
Definition gets {A} (f : ext_world U -> A) : X U A := fun w => Some (f w, w).
Definition modify (f : ext_world U -> ext_world U) : X U unit := fun w => Some (tt, f w).

Definition set_extents w es := mk_ew (ew_text w) es (ew_list w) (ew_soe w) (ew_recorded w) (ew_closure w).
Definition set_list w el := mk_ew (ew_text w) (ew_extents w) el (ew_soe w) (ew_recorded w) (ew_closure w).
Definition set_soe w soe := mk_ew (ew_text w) (ew_extents w) (ew_list w) soe (ew_recorded w) (ew_closure w).
Definition set_closure w (u : U) := mk_ew (ew_text w) (ew_extents w) (ew_list w) (ew_soe w) (ew_recorded w) u.
Definition record_extent (a : positive) (attached : bool) : X U unit :=
  modify (fun w => mk_ew (ew_text w) (ew_extents w) (ew_list w) (ew_soe w) ((a, attached) :: ew_recorded w) (ew_closure w)).

Definition the_extent (a : positive) : X U extent := fun w =>
  match ew_extents w !! a with Some e => Some (e, w) | None => None end.
Definition update_extent (a : positive) (f : extent -> extent) : X U unit :=
  modify (fun w => set_extents w (alter f a (ew_extents w))).

(** A function of the extent list that looks at the extents. *)
Definition on_list {A} (f : extents -> Extent_List -> option A) : X U A := fun w =>
  match f (ew_extents w) (ew_list w) with Some a => Some (a, w) | None => None end.
Definition change_list (f : extents -> Extent_List -> option Extent_List) : X U unit :=
  el ← on_list f; modify (fun w => set_list w el).

(** ** The stack of extents *)

Definition buffer_or_string_stack_of_extents : X U (option Stack_Of_Extents) := gets ew_soe.

Definition allocate_soe : Stack_Of_Extents := mk_soe allocate_extent_list (-1).

Definition buffer_or_string_stack_of_extents_force : X U Stack_Of_Extents :=
  soe ← gets ew_soe;
  match soe with
  | Some soe => ret soe
  | None => modify (fun w => set_soe w (Some allocate_soe));; ret allocate_soe
  end.

Definition change_soe (soe : Stack_Of_Extents) (f : extents -> Extent_List -> option Extent_List) : X U unit :=
  es ← gets ew_extents;
  el ← lift (f es (soe_extents soe));
  modify (fun w => set_soe w (Some (mk_soe el (soe_pos soe)))).

Definition soe_insert (a : positive) : X U unit :=
  soe ← buffer_or_string_stack_of_extents;
  e ← the_extent a;
  match soe with
  | None => ret tt
  | Some soe =>
      if (soe_pos soe <? extent_start e) || (soe_pos soe >? extent_end e) then ret tt
      else change_soe soe (fun es el => extent_list_insert es el a)
  end.

Definition soe_delete (a : positive) : X U unit :=
  soe ← buffer_or_string_stack_of_extents;
  e ← the_extent a;
  match soe with
  | None => ret tt
  | Some soe =>
      if (soe_pos soe <? extent_start e) || (soe_pos soe >? extent_end e) then ret tt
      else change_soe soe (fun es el => extent_list_delete es el a)
  end.

Definition soe_move (pos : Z) : X U unit :=
  soe ← buffer_or_string_stack_of_extents_force;
  if soe_pos soe =? pos then ret tt
  else
    es ← gets ew_extents; bel ← gets ew_list;
    sel ← lift (soe_moved es bel soe pos);
    modify (fun w => set_soe w (Some (mk_soe sel pos))).

Definition soe_invalidate : X U unit :=
  soe ← buffer_or_string_stack_of_extents;
  match soe with
  | None => ret tt
  | Some soe =>
      el ← lift (extent_list_delete_all (soe_extents soe));
      modify (fun w => set_soe w (Some (mk_soe el (-1))))
  end.

(** ** Attaching and detaching *)

Definition extent_attach (a : positive) : X U unit :=
  change_list (fun es el => extent_list_insert es el a);;
  soe_insert a.

Definition extent_detach (a : positive) : X U unit :=
  e ← the_extent a;
  if extent_detached_p e then ret tt
  else
    change_list (fun es el => extent_list_delete es el a);;
    soe_delete a;;
    update_extent a (fun e => set_extent_start e (-1));;
    update_extent a (fun e => set_extent_end e (-1)).

Definition set_extent_endpoints_1 (a : positive) (start ends : Z) : X U unit :=
  e ← the_extent a;
  if negb (extent_detached_p e) && (extent_start e =? start) && (extent_end e =? ends) then ret tt
  else
    (if extent_detached_p e
     then if extent_duplicable_p e then record_extent a true else ret tt
     else extent_detach a);;
    update_extent a (fun e => set_extent_start e start);;
    update_extent a (fun e => set_extent_end e ends);;
    extent_attach a.

Fixpoint detach_loop (n : nat) (i : Z) : X U unit :=
  match n with
  | O => ret tt
  | S n =>
      a ← on_list (fun _ el => extent_list_at el i false);
      update_extent a (fun e => set_extent_start e (-1));;
      update_extent a (fun e => set_extent_end e (-1));;
      detach_loop n (i + 1)
  end.

Definition detach_all_extents : X U unit :=
  n ← gets (fun w => extent_list_num_els (ew_list w));
  detach_loop (Z.to_nat n) 0;;
  change_list (fun _ el => extent_list_delete_all el);;
  soe_invalidate.

(** ** Mapping over extents *)

Section Map.
Variable fn : positive -> X U bool.
Variable flags : Z.

(** The list that is mapped over: that of the stack of extents, or that of the buffer. *)
Definition mapped_list (soe_stage : bool) : X U Extent_List :=
  if soe_stage then soe ← buffer_or_string_stack_of_extents_force; ret (soe_extents soe)
  else gets ew_list.
Definition set_mapped_list (soe_stage : bool) (el : Extent_List) : X U unit :=
  if soe_stage then
    soe ← buffer_or_string_stack_of_extents_force;
    modify (fun w => set_soe w (Some (mk_soe el (soe_pos soe))))
  else modify (fun w => set_list w el).

(** The inner loop: whether the function wants to stop, and what [after] and the range are
    then. *)
Fixpoint map_loop (fuel : nat) (soe_stage range_endp : bool) (range : option positive)
    (posm : option Extent_List_Marker) (pos st en : Z) (after : option positive)
    : X U (bool * option positive * (Z * Z)) :=
  match fuel with
  | O => lift None
  | S fuel =>
      el ← mapped_list soe_stage;
      pos ← match posm with Some m => lift (extent_list_marker_pos el m) | None => ret pos end;
      if pos >=? extent_list_num_els el then ret (false, after, (st, en))
      else
        a ← lift (extent_list_at el pos range_endp);
        let pos := pos + 1 in
        (match posm with
         | Some m => set_mapped_list soe_stage (extent_list_move_marker el m pos)
         | None => ret tt
         end);;
        let continue := map_loop fuel soe_stage range_endp range posm pos in
        e ← the_extent a;
        if extent_internal_p e && (negb (flag flags ME_INCLUDE_INTERNAL) || bool_decide (range = Some a))
        then continue st en after
        else
          skip ← match after with
                 | Some b => f ← the_extent b; ret (negb (EXTENT_LESS f e))
                 | None => ret false
                 end;
          if (skip : bool) then continue st en after
          else
            let after := None in
            '(st, en) ← match range with
                        | Some r => f ← the_extent r; ret (extent_start f, extent_end f)
                        | None => ret (st, en)
                        end;
            if extent_endpoint e range_endp >? en then ret (false, after, (st, en))
            else
              t ← gets ew_text;
              b ← lift (extent_in_region_p t e (memind_to_bytind t st) (memind_to_bytind t en) flags);
              if (b : bool) then
                stop ← fn a;
                if (stop : bool) then ret (true, after, (st, en)) else continue st en after
              else continue st en after
  end.

(** Where the range stage begins. *)
Inductive range_start := start_included | start_excluded | start_at (pos : Z).

Definition map_range_pos (rs : range_start) (st : Z) (range_endp : bool) : X U Z :=
  match rs with
  | start_included => on_list (fun es el => extent_list_locate_from_pos es el st range_endp)
  | start_excluded => on_list (fun es el => extent_list_locate_from_pos es el (st + 1) range_endp)
  | start_at pos => ret pos
  end.

(** One stage, with a marker if the extents might be modified. *)
Definition map_stage (fuel : nat) (soe_stage range_endp : bool) (range : option positive) (pos st en : Z)
    (after : option positive) : X U (bool * option positive * (Z * Z) * option Extent_List_Marker) :=
  if flag flags ME_MIGHT_MODIFY_EXTENTS then
    el ← mapped_list soe_stage;
    let '(m, el) := extent_list_make_marker el pos range_endp in
    set_mapped_list soe_stage el;;
    '(stop, after, r) ← map_loop fuel soe_stage range_endp range (Some m) pos st en after;
    ret (stop, after, r, Some m)
  else
    '(stop, after, r) ← map_loop fuel soe_stage range_endp range None pos st en after;
    ret (stop, after, r, None).

Definition delete_posm (soe_stage : bool) (posm : option Extent_List_Marker) : X U unit :=
  match posm with
  | Some m => el ← mapped_list soe_stage; set_mapped_list soe_stage (extent_list_delete_marker el m)
  | None => ret tt
  end.

(** An extent that is not in use, with its ends outside of any text. *)
Definition make_extent_detached : X U positive := fun w =>
  let a := fresh (dom (ew_extents w)) in
  Some (a, set_extents w (<[a := mk_extent (-1) (-1) false false true false false]> (ew_extents w))).

(** The extent for the range; [start_open] is a field of one bit. *)
Definition make_range (st en : Z) : X U positive :=
  a ← make_extent_detached;
  update_extent a (fun e => set_extent_start e st);;
  update_extent a (fun e => set_extent_end e en);;
  update_extent a (fun e => mk_extent (extent_start e) (extent_end e)
    (Z.testbit (Z.land flags ME_START_OPEN) 0) (negb (flag flags ME_END_CLOSED)) false (extent_duplicable_p e) true);;
  extent_attach a;;
  ret a.

(** What to map over, and which end decides the order. *)
Definition map_plan (st : Z) : X U (bool * bool * range_start) :=
  let range_flag := Z.land flags ME_IN_REGION_MASK in
  let negated := flag flags ME_NEGATE_IN_REGION in
  if ((range_flag =? ME_START_IN_REGION) || (range_flag =? ME_START_AND_END_IN_REGION)) && negb negated
  then ret (false, false, start_included)
  else if (range_flag =? ME_END_IN_REGION) && negb negated
  then ret (false, true, start_included)
  else
    buffer_or_string_stack_of_extents_force;;
    soe_move st;;
    soe ← buffer_or_string_stack_of_extents_force;
    if extent_list_num_els (soe_extents soe) =? 0 then ret (false, false, start_included)
    else if flag flags ME_MIGHT_MOVE_SOE then
      a ← lift (extent_list_at (soe_extents soe) 0 false);
      e ← the_extent a;
      '(pos, _) ← on_list (fun es el => extent_list_locate es el (Some a) e false);
      ret (false, false, start_at pos)
    else ret (true, false, start_excluded).

(** Both stages: the marker in use at the end, and of which list it is. *)
Definition map_stages (fuel : nat) (range : option positive) (st en : Z) (after : option positive)
    (plan : bool * bool * range_start) : X U (bool * option Extent_List_Marker) :=
  let '(do_soe_stage, range_endp, rs) := plan in
  '(stop, after, (st, en), posm) ← (if (do_soe_stage : bool) then map_stage fuel true false range 0 st en after
                                    else ret (false, after, (st, en), None));
  if (stop : bool) then ret (true, posm)
  else
    pos ← map_range_pos rs st range_endp;
    delete_posm true posm;;
    '(_, _, _, posm) ← map_stage fuel false range_endp range pos st en after;
    ret (false, posm).

(** [map_extents_bytind], with functions that do not throw. *)
Definition map_extents_bytind (fuel : nat) (from to : Z) (after : option positive) : X U unit :=
  el ← gets ew_list;
  if extent_list_num_els el =? 0 then ret tt
  else
    t ← gets ew_text;
    let st := bytind_to_memind t from in
    let en := bytind_to_memind t to in
    range ← (if flag flags ME_MIGHT_MODIFY_TEXT then a ← make_range st en; ret (Some a) else ret None);
    plan ← map_plan st;
    '(soe_stage, posm) ← map_stages fuel range st en after plan;
    match range with Some a => extent_detach a | None => ret tt end;;
    delete_posm soe_stage posm.
End Map.
End Extents.

(** ** When the gap moves *)

(** Adds to the ends of one kind that are in the range, from [pos] on. *)
Fixpoint adjust_loop (n : nat) (el : Extent_List) (endp : bool) (pos from to amount : Z) (es : extents)
    : option extents :=
  if pos <? extent_list_num_els el then
    match n with
    | O => None
    | S n =>
        match extent_list_at el pos endp with
        | None => None
        | Some a =>
            match es !! a with
            | None => None
            | Some e =>
                if extent_endpoint e endp >? to then Some es
                else
                  let val := do_marker_adjustment (extent_endpoint e endp) from to amount in
                  adjust_loop n el endp (pos + 1) from to amount (<[a := set_extent_endpoint e val endp]> es)
            end
        end
    end
  else Some es.

Section Adjusting.
Context {U : Type}.
Implicit Types (w : ext_world U).

Definition set_soe_pos (pos : Z) : X U unit :=
  modify (fun w => set_soe w ((fun soe => mk_soe (soe_extents soe) pos) <$> ew_soe w)).

Definition adjust_extents (from to amount : Z) : X U unit :=
  el ← gets ew_list;
  if extent_list_num_els el =? 0 then ret tt
  else
    startpos0 ← on_list (fun es el => extent_list_locate_from_pos es el (from + 1) false);
    startpos1 ← on_list (fun es el => extent_list_locate_from_pos es el (from + 1) true);
    let n := Z.to_nat (extent_list_num_els el) in
    es ← gets ew_extents; es ← lift (adjust_loop n el false startpos0 from to amount es);
    modify (fun w => set_extents w es);;
    es ← gets ew_extents; es ← lift (adjust_loop n el true startpos1 from to amount es);
    modify (fun w => set_extents w es);;
    soe ← buffer_or_string_stack_of_extents;
    match soe with
    | Some soe => if soe_pos soe >=? 0 then set_soe_pos (do_marker_adjustment (soe_pos soe) from to amount) else ret tt
    | None => ret tt
    end.

(** ** When text is deleted *)

(** Runs with a closure of its own. *)
Definition with_closure {V} (v : V) (m : X V unit) : X U V := fun w =>
  match m (mk_ew (ew_text w) (ew_extents w) (ew_list w) (ew_soe w) (ew_recorded w) v) with
  | Some (_, w') =>
      Some (ew_closure w',
        mk_ew (ew_text w') (ew_extents w') (ew_list w') (ew_soe w') (ew_recorded w') (ew_closure w))
  | None => None
  end.

Definition adjust_extents_for_deletion_mapper (a : positive) : X (list positive) bool :=
  modify (fun w : ext_world (list positive) => set_closure w (ew_closure w ++ [a]));; ret false.

(** The extents of the list get their new ends, one after the other. *)
Fixpoint adjust_each (l : list positive) (has_soe : bool) (oldsoe newsoe adjust_to amount : Z) : X U unit :=
  match l with
  | [] => ret tt
  | a :: l =>
      e ← the_extent a;
      let new_start := do_marker_adjustment (extent_start e) adjust_to adjust_to amount in
      let new_end := do_marker_adjustment (extent_end e) adjust_to adjust_to amount in
      (if negb (new_start =? extent_start e) || negb (new_end =? extent_end e) then
         extent_detach a;;
         update_extent a (fun e => set_extent_start e new_start);;
         update_extent a (fun e => set_extent_end e new_end);;
         (if has_soe then set_soe_pos newsoe else ret tt);;
         extent_attach a;;
         (if has_soe then set_soe_pos oldsoe else ret tt)
       else ret tt);;
      adjust_each l has_soe oldsoe newsoe adjust_to amount
  end.

Definition adjust_extents_for_deletion (from to gapsize numdel movegapsize : Z) : X U unit :=
  let adjust_to := to + gapsize in
  let amount := - numdel - movegapsize in
  soe ← buffer_or_string_stack_of_extents;
  let has_soe := bool_decide (is_Some soe) in
  n ← gets (fun w => extent_list_num_els (ew_list w));
  l ← with_closure [] (map_extents_bytind adjust_extents_for_deletion_mapper
        (Z.lor (Z.lor ME_ALL_EXTENTS_CLOSED ME_END_CLOSED) (Z.lor ME_START_OR_END_IN_REGION ME_INCLUDE_INTERNAL))
        (S (Z.to_nat n)) from to None);
  soe ← buffer_or_string_stack_of_extents;
  let oldsoe := match soe with Some soe => soe_pos soe | None => 0 end in
  let newsoe := if oldsoe >=? 0 then do_marker_adjustment oldsoe adjust_to adjust_to amount else oldsoe in
  adjust_each l has_soe oldsoe newsoe adjust_to amount;;
  if has_soe then set_soe_pos newsoe else ret tt.

(** Before a deletion, with [destroy_them] 0 as in every call. *)
Definition process_extents_for_deletion_mapper (start ends : Z) (a : positive) : X U bool :=
  e ← the_extent a;
  (if (start <=? extent_start e) && (extent_end e <=? ends) && extent_detachable_p e
   then extent_detach a else ret tt);;
  ret false.

Definition process_extents_for_deletion (from to : Z) : X U unit :=
  t ← gets ew_text;
  n ← gets (fun w => extent_list_num_els (ew_list w));
  map_extents_bytind (process_extents_for_deletion_mapper (bytind_to_memind t from) (bytind_to_memind t to))
    (Z.lor ME_END_CLOSED ME_MIGHT_MODIFY_EXTENTS) (S (Z.to_nat n)) from to None.

(** ** When text has been inserted *)

Definition process_extents_for_insertion_mapper (opoint length : Z) (a : positive) : X U bool :=
  t ← gets ew_text;
  let indice := bytind_to_memind t opoint in
  e ← the_extent a;
  let new_start :=
    if (indice =? extent_start e) && extent_start_open_p e &&
       negb ((extent_start e =? extent_end e) && extent_end_open_p e)
    then extent_start e + length else extent_start e in
  let new_end :=
    if (indice =? extent_end e) && negb (extent_end_open_p e) then extent_end e + length else extent_end e in
  set_extent_endpoints_1 a new_start new_end;;
  ret false.

(** The fuel: an extent whose start moves is looked at twice. *)
Definition process_extents_for_insertion (opoint length : Z) : X U unit :=
  n ← gets (fun w => extent_list_num_els (ew_list w));
  map_extents_bytind (process_extents_for_insertion_mapper opoint length)
    (Z.lor ME_END_CLOSED (Z.lor ME_MIGHT_MODIFY_EXTENTS ME_INCLUDE_INTERNAL)) (S (Z.to_nat (2 * n)))
    opoint (opoint + length) None.
End Adjusting.
