(* ===== verification/ExtentTheory.v ===== *)
(** * The stack of extents holds the extents over its position

    Moving the stack of extents, attaching and detaching keep what the state of the extents
    of a buffer promises: the list of the buffer has the attached extents in both orders,
    and the stack of extents has those that overlap its position. *)

From Stdlib Require Import Sorting.Sorted.
From S2P Require Import Prelude Buffer Insdel GapArray ExtentList Extents.

#[local] Open Scope ext_scope.

Definition overlaps (es : extents) (pos : Z) (a : positive) : Prop :=
  extent_start (ext_at es a) <= pos <= extent_end (ext_at es a).

Definition order_of (endp : bool) (l0 l1 : list positive) : list positive := if endp then l1 else l0.

(** An extent list without regard to its orders and markers. *)
Definition lists (es : extents) (el : Extent_List) (l0 l1 : list positive) : Prop :=
  exists ms0 ms1, el_ok es el l0 l1 ms0 ms1.

Section Lists.
Variable es : extents.
Implicit Types (el : Extent_List) (l p q m : list positive).

Lemma lists_num el l0 l1 : lists es el l0 l1 -> extent_list_num_els el = zlen l0.
Proof. intros (ms0 & ms1 & H). unfold extent_list_num_els. apply (ga_count _ _ _ (eo_start _ _ _ _ _ _ H)). Qed.

Lemma lists_perm el l0 l1 : lists es el l0 l1 -> l0 ≡ₚ l1.
Proof. intros (ms0 & ms1 & H). apply H. Qed.

Lemma lists_in el l0 l1 endp a : lists es el l0 l1 -> a ∈ order_of endp l0 l1 <-> a ∈ l0.
Proof. intros H%lists_perm. destruct endp; cbn; [by rewrite H | done]. Qed.

Lemma lists_nodup el l0 l1 endp : lists es el l0 l1 -> NoDup (order_of endp l0 l1).
Proof. intros (ms0 & ms1 & H). destruct endp; cbn; [rewrite <- (eo_perm _ _ _ _ _ _ H) |]; apply H. Qed.

Lemma lists_order el l0 l1 endp : lists es el l0 l1 -> in_order es endp (order_of endp l0 l1).
Proof. intros (ms0 & ms1 & H). destruct endp; apply H. Qed.

Lemma lists_each el l0 l1 a : lists es el l0 l1 -> a ∈ l0 ->
  is_Some (es !! a) /\ 0 <= extent_start (ext_at es a) <= extent_end (ext_at es a).
Proof.
  intros (ms0 & ms1 & H) Ha. split.
  - pose proof (eo_dom _ _ _ _ _ _ H) as Hd. by eapply Forall_forall in Hd.
  - pose proof (eo_bounds _ _ _ _ _ _ H) as Hd. by eapply Forall_forall in Hd.
Qed.

Lemma lists_length el l0 l1 endp : lists es el l0 l1 -> zlen (order_of endp l0 l1) = zlen l0.
Proof. intros H%lists_perm. destruct endp; [| done]. cbn. by rewrite H. Qed.

Lemma lists_at el l0 l1 endp p a q :
  lists es el l0 l1 -> order_of endp l0 l1 = p ++ a :: q -> extent_list_at el (zlen p) endp = Some a.
Proof.
  intros (ms0 & ms1 & H) E. unfold extent_list_at.
  destruct endp; cbn in E |- *; subst.
  - rewrite (el_holds _ _ _ (zlen p) (eo_end _ _ _ _ _ _ H)) by lia. apply zget_middle.
  - rewrite (el_holds _ _ _ (zlen p) (eo_start _ _ _ _ _ _ H)) by lia. apply zget_middle.
Qed.

Lemma lists_locate el l0 l1 endp pos :
  lists es el l0 l1 -> exists l l', order_of endp l0 l1 = l ++ l' /\
    extent_list_locate_from_pos es el pos endp = Some (zlen l) /\
    Forall (fun a => extent_endpoint (ext_at es a) endp < pos) l /\
    Forall (fun a => pos <= extent_endpoint (ext_at es a) endp) l'.
Proof.
  intros (ms0 & ms1 & H). destruct H as [H0 H1 Hp Hn Hd Hb O0 O1]. destruct endp.
  - eapply locate_pos; [exact H1 | by eapply Forall_perm | done |].
    eapply Forall_perm; [exact Hp |]. eapply Forall_impl; [exact Hb |]. cbn. lia.
  - eapply locate_pos; [exact H0 | done | done |]. eapply Forall_impl; [exact Hb |]. cbn. lia.
Qed.

Lemma lists_insert el l0 l1 a :
  lists es el l0 l1 -> a ∉ l0 -> is_Some (es !! a) ->
  0 <= extent_start (ext_at es a) <= extent_end (ext_at es a) ->
  exists el' l0' l1', extent_list_insert es el a = Some el' /\ lists es el' l0' l1' /\ l0' ≡ₚ a :: l0.
Proof.
  intros (ms0 & ms1 & H) Ha Hs Hb.
  destruct (extent_list_insert_ok es el l0 l1 ms0 ms1 a H Ha Hs Hb) as (el' & p0 & q0 & p1 & q1 & -> & -> & E & H').
  do 3 eexists. split_and!; [exact E | by do 2 eexists |]. by rewrite <- Permutation_middle.
Qed.

Lemma middle_unique p q p' q' (a : positive) :
  NoDup (p ++ a :: q) -> p ++ a :: q = p' ++ a :: q' -> p = p' /\ q = q'.
Proof.
  revert p'. induction p as [| b p IH]; intros [| c p'] Hn E; cbn in *; inversion E; subst; clear E; [done | | |].
  - apply NoDup_cons in Hn as [Hn _]. set_solver.
  - apply NoDup_cons in Hn as [Hn _]. set_solver.
  - apply NoDup_cons in Hn as [_ Hn]. by edestruct IH as [-> ->].
Qed.

Lemma lists_delete el l0 l1 endp p a q :
  lists es el l0 l1 -> order_of endp l0 l1 = p ++ a :: q ->
  exists el' l0' l1', extent_list_delete es el a = Some el' /\ lists es el' l0' l1' /\
    order_of endp l0' l1' = p ++ q /\ l0 ≡ₚ a :: l0'.
Proof.
  intros H E. pose proof (lists_nodup _ _ _ endp H) as Hn.
  assert (a ∈ l0) as Ha by (apply (lists_in _ _ _ endp a H); rewrite E; set_solver).
  destruct H as (ms0 & ms1 & H).
  destruct (extent_list_delete_ok es el l0 l1 ms0 ms1 a H Ha) as (el' & p0 & q0 & p1 & q1 & -> & -> & Ed & H').
  exists el', (p0 ++ q0), (p1 ++ q1). split_and!; [done | by do 2 eexists | | by rewrite <- Permutation_middle].
  destruct endp; cbn in *; rewrite E in Hn; symmetry in E; by destruct (middle_unique _ _ _ _ _ Hn E) as [-> ->].
Qed.

(** ** Moving the stack of extents *)

Lemma soe_delete_loop_run m el l0 l1 endp p q :
  lists es el l0 l1 -> order_of endp l0 l1 = p ++ m ++ q ->
  exists el' l0' l1', soe_delete_loop (length m) es el (zlen p) endp = Some el' /\ lists es el' l0' l1' /\
    order_of endp l0' l1' = p ++ q.
Proof.
  revert el l0 l1. induction m as [| a m IH]; intros el l0 l1 H E; cbn [length soe_delete_loop].
  - by exists el, l0, l1.
  - cbn in E. rewrite (lists_at _ _ _ _ _ _ _ H E). cbn [mbind option_bind].
    destruct (lists_delete _ _ _ _ _ _ _ H E) as (el' & l0' & l1' & -> & H' & E' & _).
    cbn [mbind option_bind]. by apply (IH el' l0' l1').
Qed.

(** Behind an extent that begins behind [pos] all do, and before one that ends before [pos]
    all do. *)
Lemma order_stops_forward p a q pos b :
  in_order es false (p ++ a :: q) -> pos < extent_start (ext_at es a) -> b ∈ a :: q -> ~ overlaps es pos b.
Proof.
  intros (_ & [_ H]%StronglySorted_inv & _)%in_order_app Ha [-> | Hb]%elem_of_cons; unfold overlaps; [lia |].
  eapply Forall_forall in H; [| exact Hb]. unfold extent_less, EXTENT_LESS, EXTENT_LESS_VALS in H. revert H. ztest; lia || done.
Qed.

Lemma order_stops_backward p a q pos b :
  in_order es true (p ++ a :: q) -> extent_end (ext_at es a) < pos -> b ∈ p ++ [a] -> ~ overlaps es pos b.
Proof.
  intros (_ & _ & H)%in_order_app Ha [Hb | ->%list_elem_of_singleton]%elem_of_app; unfold overlaps; [| lia].
  specialize (H b a Hb ltac:(set_solver)). unfold extent_less, EXTENT_E_LESS, EXTENT_E_LESS_VALS in H.
  revert H. ztest; lia || done.
Qed.

(** One extent that is looked at goes into the stack of extents if it overlaps. *)
Lemma soe_visit sel s0 s1 a pos (c : bool) bel b0 b1 :
  lists es bel b0 b1 -> a ∈ b0 -> lists es sel s0 s1 -> a ∉ s0 -> (c = true <-> overlaps es pos a) ->
  exists sel' s0' s1', (if c then extent_list_insert es sel a else Some sel) = Some sel' /\ lists es sel' s0' s1' /\
    forall b, b ∈ s0' <-> b ∈ s0 \/ (b = a /\ overlaps es pos a).
Proof.
  intros Hb Ha Hs Hn Hc. destruct c.
  - destruct (lists_each _ _ _ _ Hb Ha) as [He Hbd].
    destruct (lists_insert _ _ _ _ Hs Hn He Hbd) as (sel' & s0' & s1' & E & Hs' & Ep).
    exists sel', s0', s1'. split_and!; [done.. |]. intros b. rewrite Ep, elem_of_cons. intuition.
  - exists sel, s0, s1. split_and!; [done.. |]. intros b. destruct Hc as [_ Hc]. split; [by left |].
    intros [H | [_ H]]; [done | by apply Hc in H].
Qed.

Lemma soe_insert_forward bel b0 b1 pos rest p fuel sel s0 s1 :
  lists es bel b0 b1 -> b0 = p ++ rest -> lists es sel s0 s1 -> (forall a, a ∈ rest -> a ∉ s0) ->
  (length rest <= fuel)%nat ->
  exists sel' s0' s1', soe_insert_loop fuel es bel sel true pos (zlen p) = Some sel' /\ lists es sel' s0' s1' /\
    forall a, a ∈ s0' <-> a ∈ s0 \/ (a ∈ rest /\ overlaps es pos a).
Proof.
  intros Hb. revert p fuel sel s0 s1. induction rest as [| a rest IH]; intros p fuel sel s0 s1 E Hs Hd Hf.
  - exists sel, s0, s1. split_and!; [| done | set_solver].
    destruct fuel; cbn [soe_insert_loop]; rewrite (lists_num _ _ _ Hb), E, app_nil_r; zcase.
  - destruct fuel as [| fuel]; [cbn in Hf; lia |]. cbn [soe_insert_loop].
    rewrite (lists_num _ _ _ Hb). assert (zlen p < zlen b0) by (subst; do 2 lens; lia).
    rewrite (proj2 (Z.ltb_lt _ _)), (proj2 (Z.geb_le _ _)) by lia. cbn [andb negb].
    rewrite (lists_at _ _ _ false p a rest Hb E). cbn [mbind option_bind].
    assert (a ∈ b0) as Ha by set_solver. destruct (lists_each _ _ _ _ Hb Ha) as [[e He] Hbd].
    rewrite He. cbn [mbind option_bind]. pose proof (ext_at_Some _ _ _ He) as <-.
    pose proof (lists_order _ _ _ false Hb) as Ho. cbn in Ho. rewrite E in Ho.
    destruct (Z.gtb_spec (extent_start (ext_at es a)) pos).
    + exists sel, s0, s1. split_and!; [done.. |]. intros b. split; [by left |]. intros [? | [Hin Hov]]; [done |].
      exfalso. by eapply order_stops_forward.
    + destruct (soe_visit sel s0 s1 a pos (extent_end (ext_at es a) >=? pos) bel b0 b1 Hb Ha Hs ltac:(set_solver))
        as (sel1 & t0 & t1 & -> & Hs1 & Hin); [unfold overlaps; rewrite Z.geb_le; lia |].
      cbn [mbind option_bind]. replace (zlen p + 1) with (zlen (p ++ [a])) by (lens; lia).
      destruct (IH (p ++ [a]) fuel sel1 t0 t1) as (sel2 & u0 & u1 & -> & Hs2 & Hin2);
        [by rewrite <- app_assoc | done | | cbn in Hf; lia |].
      * intros b Hbr Ht. apply Hin in Ht as [Ht | [-> _]]; [set_solver |].
        pose proof (lists_nodup _ _ _ false Hb) as Hn. cbn in Hn. rewrite E in Hn.
        apply NoDup_app in Hn as (_ & _ & [Hn _]%NoDup_cons). done.
      * exists sel2, u0, u1. split_and!; [done.. |]. intros b. rewrite Hin2, Hin. set_solver.
Qed.

Lemma soe_insert_backward bel b0 b1 pos rest q fuel sel s0 s1 :
  lists es bel b0 b1 -> b1 = rest ++ q -> lists es sel s0 s1 -> (forall a, a ∈ rest -> a ∉ s0) ->
  (length rest <= fuel)%nat ->
  exists sel' s0' s1', soe_insert_loop fuel es bel sel false pos (zlen rest - 1) = Some sel' /\
    lists es sel' s0' s1' /\ forall a, a ∈ s0' <-> a ∈ s0 \/ (a ∈ rest /\ overlaps es pos a).
Proof.
  intros Hb. revert q fuel sel s0 s1. induction rest as [| a rest IH] using rev_ind; intros q fuel sel s0 s1 E Hs Hd Hf.
  - exists sel, s0, s1. split_and!; [| done | set_solver]. destruct fuel; done.
  - destruct fuel as [| fuel]; [rewrite length_app in Hf; cbn in Hf; lia |]. cbn [soe_insert_loop].
    rewrite <- app_assoc in E. cbn [app] in E.
    rewrite (lists_num _ _ _ Hb), <- (lists_length _ _ _ true Hb). cbn [order_of].
    replace (zlen (rest ++ [a]) - 1) with (zlen rest) by (lens; lia).
    assert (zlen rest < zlen b1) by (subst; do 2 lens; lia).
    rewrite (proj2 (Z.ltb_lt _ _)), (proj2 (Z.geb_le _ _)) by lia. cbn [andb negb].
    rewrite (lists_at _ _ _ true rest a q Hb E). cbn [mbind option_bind].
    assert (a ∈ b0) as Ha by (apply (lists_in _ _ _ true a Hb); cbn; set_solver).
    destruct (lists_each _ _ _ _ Hb Ha) as [[e He] Hbd].
    rewrite He. cbn [mbind option_bind]. pose proof (ext_at_Some _ _ _ He) as <-.
    pose proof (lists_order _ _ _ true Hb) as Ho. cbn in Ho. rewrite E in Ho.
    destruct (Z.ltb_spec (extent_end (ext_at es a)) pos).
    + exists sel, s0, s1. split_and!; [done.. |]. intros b. split; [by left |]. intros [? | [Hin Hov]]; [done |].
      exfalso. by eapply order_stops_backward.
    + destruct (soe_visit sel s0 s1 a pos (extent_start (ext_at es a) <=? pos) bel b0 b1 Hb Ha Hs ltac:(set_solver))
        as (sel1 & t0 & t1 & -> & Hs1 & Hin); [unfold overlaps; rewrite Z.leb_le; lia |].
      cbn [mbind option_bind].
      destruct (IH (a :: q) fuel sel1 t0 t1) as (sel2 & u0 & u1 & -> & Hs2 & Hin2);
        [done | done | | rewrite length_app in Hf; cbn in Hf; lia |].
      * intros b Hbr Ht. apply Hin in Ht as [Ht | [-> _]]; [set_solver |].
        pose proof (lists_nodup _ _ _ true Hb) as Hn. cbn in Hn. rewrite E in Hn.
        apply NoDup_app in Hn as (_ & Hn & _). by apply (Hn a Hbr); left.
      * exists sel2, u0, u1. split_and!; [done.. |]. intros b. rewrite Hin2, Hin. set_solver.
Qed.

(** The stack of extents lies over [pos]. *)
Definition lies_over (sel : Extent_List) (b0 : list positive) (pos : Z) : Prop :=
  exists s0 s1, lists es sel s0 s1 /\ forall a, a ∈ s0 <-> a ∈ b0 /\ overlaps es pos a.

Lemma Forall_in {P : positive -> Prop} {l} a : Forall P l -> a ∈ l -> P a.
Proof. intros H Ha. by eapply Forall_forall in H. Qed.

(** Stage 1 leaves those that overlap the new position too. *)
Lemma soe_stage_1 sel s0 s1 oldpos pos :
  lists es sel s0 s1 -> (forall a, a ∈ s0 -> overlaps es oldpos a) -> oldpos <> pos ->
  exists sel' t0 t1,
    (if extent_list_num_els sel >? 0 then
       start ← (if oldpos <? pos then Some 0 else extent_list_locate_from_pos es sel (pos + 1) false);
       ends ← (if oldpos <? pos then extent_list_locate_from_pos es sel pos true else Some (extent_list_num_els sel));
       soe_delete_loop (Z.to_nat (ends - start)) es sel start (oldpos <? pos)
     else Some sel)%stdpp = Some sel' /\
    lists es sel' t0 t1 /\ forall a, a ∈ t0 <-> a ∈ s0 /\ overlaps es pos a.
Proof.
  intros Hs Hov Hne. rewrite (lists_num _ _ _ Hs). destruct (Z.gtb_spec (zlen s0) 0).
  2: { exists sel, s0, s1. split_and!; [done.. |]. destruct s0; [set_solver |]. lens. lia. }
  destruct (Z.ltb_spec oldpos pos); cbn [mbind option_bind].
  - destruct (lists_locate _ _ _ true pos Hs) as (l & l' & E & -> & Hl & Hl'). cbn [mbind option_bind].
    replace (Z.to_nat (zlen l - 0)) with (length l) by lia.
    destruct (soe_delete_loop_run l sel s0 s1 true [] l' Hs E) as (sel' & t0 & t1 & Er & Hs' & E').
    exists sel', t0, t1. split_and!; [done.. |]. intros a. rewrite <- (lists_in _ _ _ true a Hs'), E'.
    cbn [app]. rewrite <- (lists_in _ _ _ true a Hs), E, elem_of_app. unfold overlaps in *. split.
    + intros Ha. pose proof (Forall_in a Hl' Ha) as H'. cbn in H'. split; [by right |].
      specialize (Hov a ltac:(apply (lists_in _ _ _ true a Hs); rewrite E; set_solver)). lia.
    + intros [[Ha | Ha] Ho]; [| done]. pose proof (Forall_in a Hl Ha) as H'. cbn in H'. lia.
  - destruct (lists_locate _ _ _ false (pos + 1) Hs) as (l & l' & E & -> & Hl & Hl'). cbn [mbind option_bind].
    cbn [order_of] in E. replace (Z.to_nat (zlen s0 - zlen l)) with (length l') by (rewrite E; lens; lia).
    destruct (soe_delete_loop_run l' sel s0 s1 false l [] Hs) as (sel' & t0 & t1 & Er & Hs' & E');
      [by rewrite app_nil_r |].
    exists sel', t0, t1. split_and!; [done.. |]. cbn [order_of] in E'. rewrite app_nil_r in E'. intros a.
    rewrite E', E, elem_of_app. unfold overlaps in *. split.
    + intros Ha. pose proof (Forall_in a Hl Ha) as H'. cbn in H'. split; [by left |].
      specialize (Hov a ltac:(rewrite E; set_solver)). lia.
    + intros [[Ha | Ha] Ho]; [done |]. pose proof (Forall_in a Hl' Ha) as H'. cbn in H'. lia.
Qed.

Lemma soe_moved_ok bel b0 b1 sel oldpos pos :
  lists es bel b0 b1 -> lies_over sel b0 oldpos -> oldpos <> pos ->
  exists sel', soe_moved es bel (mk_soe sel oldpos) pos = Some sel' /\ lies_over sel' b0 pos.
Proof.
  intros Hb (s0 & s1 & Hs & Hin) Hne. unfold soe_moved. cbn [soe_extents soe_pos].
  destruct (soe_stage_1 sel s0 s1 oldpos pos Hs) as (sel1 & t0 & t1 & -> & Ht & Hin1); [intros a Ha; by apply Hin | done |].
  cbn [mbind option_bind]. rewrite (lists_num _ _ _ Hb). destruct (Z.ltb_spec oldpos pos).
  - destruct (lists_locate _ _ _ false (oldpos + 1) Hb) as (p & rest & E & -> & Hp & Hr). cbn [mbind option_bind].
    destruct (soe_insert_forward bel b0 b1 pos rest p (S (Z.to_nat (zlen b0))) sel1 t0 t1 Hb E Ht)
      as (sel' & u0 & u1 & Er & Hu & Hin2).
    + intros a Ha [H1 _]%Hin1. apply Hin in H1 as [_ H1]. pose proof (Forall_in a Hr Ha) as H'. unfold overlaps in H1. cbn in H'. lia.
    + cbn in E. rewrite E. rewrite length_app. lia.
    + exists sel'. split; [done |]. exists u0, u1. split; [done |]. intros a. rewrite Hin2, Hin1, Hin. cbn in E. rewrite E.
      rewrite elem_of_app. unfold overlaps. split; [intuition |]. intros [[Ha | Ha] Ho]; [left | by right].
      pose proof (Forall_in a Hp Ha) as H'. cbn in H'. split_and!; [by left | lia | lia | lia | lia].
  - destruct (lists_locate _ _ _ true oldpos Hb) as (rest & q & E & -> & Hr & Hq). cbn [mbind option_bind fmap option_fmap option_map].
    change (Z.pred (zlen rest)) with (zlen rest - 1).
    destruct (soe_insert_backward bel b0 b1 pos rest q (S (Z.to_nat (zlen b0))) sel1 t0 t1 Hb E Ht)
      as (sel' & u0 & u1 & Er & Hu & Hin2).
    + intros a Ha [H1 _]%Hin1. apply Hin in H1 as [_ H1]. pose proof (Forall_in a Hr Ha) as H'. unfold overlaps in H1. cbn in H'. lia.
    + rewrite <- (lists_length _ _ _ true Hb), E. lens. lia.
    + exists sel'. split; [done |]. exists u0, u1. split; [done |]. intros a.
      rewrite Hin2, Hin1, Hin, <- (lists_in _ _ _ true a Hb), E, elem_of_app.
      unfold overlaps. split; [intuition |]. intros [[Ha | Ha] Ho]; [by right | left].
      pose proof (Forall_in a Hq Ha) as H'. cbn in H'. split_and!; [by right | lia | lia | lia | lia].
Qed.
End Lists.
