(* ===== verification/ExtentState.v ===== *)
(** * The state of the extents of a buffer

    What it promises, and that attaching, detaching, moving the ends of an extent and moving
    the stack of extents keep it. *)

From Stdlib Require Import Sorting.Sorted.
From S2P Require Import Prelude Buffer Insdel GapArray ExtentList Extents ExtentTheory.

#[local] Open Scope ext_scope.

(** The lists hold [b0]; the stack of extents is over its position. *)
Record holds_extents {U} (w : ext_world U) (b0 b1 : list positive) : Prop := {
  he_lists : lists (ew_extents w) (ew_list w) b0 b1;
  he_soe : forall soe, ew_soe w = Some soe -> lies_over (ew_extents w) (soe_extents soe) b0 (soe_pos soe);
}.

(** An extent is in the lists if it is attached. *)
Definition attached (es : extents) (b0 : list positive) (a : positive) : Prop :=
  forall e, es !! a = Some e -> a ∈ b0 <-> 0 <= extent_start e.

Record state_ok {U} (w : ext_world U) (b0 b1 : list positive) : Prop := {
  so_holds : holds_extents w b0 b1;
  so_attached : forall a, attached (ew_extents w) b0 a;
}.

(** ** What does not matter to the lists *)

Section Frames.
Implicit Types (es : extents) (el : Extent_List) (l p q : list positive).

Lemma in_order_frame es es' endp l :
  (forall a, a ∈ l -> ext_at es' a = ext_at es a) -> in_order es endp l -> in_order es' endp l.
Proof.
  unfold in_order. intros H Hs. induction Hs as [| a l Hs IH Ha]; constructor.
  - apply IH. set_solver.
  - apply Forall_forall. intros b Hb. rewrite !H by set_solver. by eapply Forall_forall in Ha.
Qed.

Lemma lists_frame es es' el l0 l1 :
  (forall a, a ∈ l0 -> es' !! a = es !! a) -> lists es el l0 l1 -> lists es' el l0 l1.
Proof.
  intros H (ms0 & ms1 & [H0 H1 Hp Hn Hd Hb O0 O1]).
  assert (forall a, a ∈ l0 -> ext_at es' a = ext_at es a) as Hat by (intros a Ha; unfold ext_at; by rewrite H).
  exists ms0, ms1. split; [done.. | | | |].
  - apply Forall_forall. intros a Ha. rewrite H by done. by eapply Forall_forall in Hd.
  - apply Forall_forall. intros a Ha. rewrite Hat by done. by eapply Forall_forall in Hb.
  - by eapply in_order_frame.
  - eapply in_order_frame; [| exact O1]. intros a Ha. apply Hat. by rewrite Hp.
Qed.

Lemma overlaps_frame es es' pos a : es' !! a = es !! a -> overlaps es' pos a <-> overlaps es pos a.
Proof. unfold overlaps, ext_at. by intros ->. Qed.

Lemma lies_over_frame es es' sel b0 pos :
  (forall a, a ∈ b0 -> es' !! a = es !! a) -> lies_over es sel b0 pos -> lies_over es' sel b0 pos.
Proof.
  intros H (s0 & s1 & Hs & Hin). exists s0, s1. split.
  - eapply lists_frame; [| exact Hs]. intros a [Ha _]%Hin. by apply H.
  - intros a. rewrite Hin. split; intros [Ha Ho]; (split; [done |]); by apply (overlaps_frame es es' pos a (H a Ha)).
Qed.

Lemma lies_over_perm es sel b0 b0' pos : b0 ≡ₚ b0' -> lies_over es sel b0 pos -> lies_over es sel b0' pos.
Proof. intros E (s0 & s1 & Hs & Hin). exists s0, s1. split; [done |]. intros a. by rewrite Hin, E. Qed.

Lemma empty_lists es : lists es allocate_extent_list [] [].
Proof.
  destruct (make_gap_array_holds (A := positive)) as [H1 H2 H3 H4]. exists [], []. split; by constructor.
Qed.

Lemma deleted_lists es el l0 l1 :
  lists es el l0 l1 -> exists el', extent_list_delete_all el = Some el' /\ lists es el' [] [].
Proof.
  intros (ms0 & ms1 & [H0 H1 Hp Hn Hd Hb O0 O1]). unfold extent_list_delete_all.
  destruct (delete_els_holds (el_start el) l0 ms0 0 (numels (el_start el)) H0) as (g0 & -> & G0);
    [lia | rewrite (ga_count _ _ _ H0); lia | rewrite (ga_count _ _ _ H0); lia |].
  cbn [mbind option_bind].
  destruct (delete_els_holds (el_end el) l1 ms1 0 (numels (el_end el)) H1) as (g1 & -> & G1);
    [lia | rewrite (ga_count _ _ _ H1); lia | rewrite (ga_count _ _ _ H1); lia |].
  cbn [mbind option_bind]. eexists. split; [done |]. do 2 eexists. split; cbn.
  - rewrite (ga_count _ _ _ H0) in G0. rewrite drop_ge in G0 by lia. exact G0.
  - rewrite (ga_count _ _ _ H1) in G1. rewrite drop_ge in G1 by lia. exact G1.
  - done.
  - constructor.
  - constructor.
  - constructor.
  - constructor.
  - constructor.
Qed.

Lemma ext_at_insert es a e b : ext_at (<[a := e]> es) b = if bool_decide (a = b) then e else ext_at es b.
Proof. unfold ext_at. case_bool_decide; [subst; by rewrite lookup_insert_eq | by rewrite lookup_insert_ne]. Qed.
End Frames.

Section Ops.
Context {U : Type}.
Implicit Types (w : ext_world U).

Lemma then_run {A B} (m : X U A) (k : A -> X U B) w a w' : m w = Some (a, w') -> bind m k w = k a w'.
Proof. unfold bind. by intros ->. Qed.

Lemma then_assoc {A B C} (m : X U A) (k : A -> X U B) (j : B -> X U C) w :
  bind (bind m k) j w = bind m (fun a => bind (k a) j) w.
Proof. unfold bind. by destruct (m w) as [[? ?] |]. Qed.

Lemma update_extent_run a f w e :
  ew_extents w !! a = Some e -> update_extent a f w = Some (tt, set_extents w (<[a := f e]> (ew_extents w))).
Proof.
  intros He. unfold update_extent, modify. do 3 f_equal. apply map_eq. intros b. destruct (decide (a = b)) as [-> | Hn].
  - by rewrite lookup_alter_eq, lookup_insert_eq, He.
  - by rewrite lookup_alter_ne, lookup_insert_ne.
Qed.

Lemma the_extent_run a w e : ew_extents w !! a = Some e -> the_extent a w = Some (e, w).
Proof. unfold the_extent. by intros ->. Qed.

(** Inserted into the stack of extents if it is over its position, and if there is one. *)
Lemma soe_insert_run a w e b0 :
  ew_extents w !! a = Some e -> 0 <= extent_start e <= extent_end e -> a ∉ b0 ->
  (forall soe, ew_soe w = Some soe -> lies_over (ew_extents w) (soe_extents soe) b0 (soe_pos soe)) ->
  exists soe', soe_insert a w = Some (tt, set_soe w soe') /\ soe_pos <$> soe' = soe_pos <$> ew_soe w /\
    (forall soe, soe' = Some soe -> lies_over (ew_extents w) (soe_extents soe) (a :: b0) (soe_pos soe)).
Proof.
  intros He Hb Ha Hs. unfold soe_insert, buffer_or_string_stack_of_extents.
  cbv beta iota delta [bind gets]. rewrite (the_extent_run _ _ _ He).
  destruct (ew_soe w) as [[sel pos] |] eqn:Es; [| exists None; split_and!; [| done | done]; destruct w; cbn in *; by subst].
  destruct (Hs _ eq_refl) as (s0 & s1 & Hl & Hin). cbn [soe_pos soe_extents] in *.
  assert (overlaps (ew_extents w) pos a <-> extent_start e <= pos <= extent_end e) as Hov
    by (unfold overlaps; by rewrite (ext_at_Some _ _ _ He)).
  destruct ((pos <? extent_start e) || (pos >? extent_end e)) eqn:E.
  - exists (Some (mk_soe sel pos)). split_and!; [destruct w; cbn in *; by subst | done |].
    intros ? [= <-]. exists s0, s1. split; [done |]. intros b. rewrite Hin, elem_of_cons. cbn.
    split; [intros []; split; [by right | done] |]. intros [[-> | ?] Ho]; [| done]. apply Hov in Ho. exfalso. revert E. ztest; lia || done.
  - destruct (lists_insert (ew_extents w) sel s0 s1 a Hl) as (sel' & t0 & t1 & Ei & Hl' & Ep).
    { intros [? _]%Hin. done. }
    { by rewrite He. }
    { by rewrite (ext_at_Some _ _ _ He). }
    exists (Some (mk_soe sel' pos)). unfold change_soe. cbv beta iota delta [bind gets lift modify]. cbn [soe_extents soe_pos]. rewrite Ei.
    split_and!; [done | done |]. intros ? [= <-]. exists t0, t1. split; [done |]. intros b. cbn.
    rewrite Ep, !elem_of_cons, Hin. split; [intros [-> | []]; [split; [by left |] | split; [by right | done]] | tauto].
    apply Hov. revert E. ztest; lia || done.
Qed.

Lemma soe_delete_run a w e b0 :
  ew_extents w !! a = Some e -> a ∉ b0 ->
  (forall soe, ew_soe w = Some soe -> lies_over (ew_extents w) (soe_extents soe) (a :: b0) (soe_pos soe)) ->
  exists soe', soe_delete a w = Some (tt, set_soe w soe') /\ soe_pos <$> soe' = soe_pos <$> ew_soe w /\
    (forall soe, soe' = Some soe -> lies_over (ew_extents w) (soe_extents soe) b0 (soe_pos soe)).
Proof.
  intros He Ha Hs. unfold soe_delete, buffer_or_string_stack_of_extents.
  cbv beta iota delta [bind gets]. rewrite (the_extent_run _ _ _ He).
  destruct (ew_soe w) as [[sel pos] |] eqn:Es; [| exists None; split_and!; [| done | done]; destruct w; cbn in *; by subst].
  destruct (Hs _ eq_refl) as (s0 & s1 & Hl & Hin). cbn [soe_pos soe_extents] in *.
  assert (overlaps (ew_extents w) pos a <-> extent_start e <= pos <= extent_end e) as Hov
    by (unfold overlaps; by rewrite (ext_at_Some _ _ _ He)).
  destruct ((pos <? extent_start e) || (pos >? extent_end e)) eqn:E.
  - exists (Some (mk_soe sel pos)). split_and!; [destruct w; cbn in *; by subst | done |].
    intros ? [= <-]. exists s0, s1. split; [done |]. intros b. rewrite Hin, elem_of_cons. cbn.
    split; [| intros []; split; [by right | done]]. intros [[-> | ?] Ho]; [| done]. apply Hov in Ho. exfalso. revert E. ztest; lia || done.
  - assert (a ∈ s0) as Has by (apply Hin; split; [by left |]; apply Hov; revert E; ztest; lia || done).
    apply list_elem_of_split in Has as (p & q & ->).
    destruct (lists_delete (ew_extents w) sel (p ++ a :: q) s1 false p a q Hl eq_refl) as (sel' & t0 & t1 & Ei & Hl' & E' & _).
    cbn in E'. subst t0.
    exists (Some (mk_soe sel' pos)). unfold change_soe. cbv beta iota delta [bind gets lift modify]. cbn [soe_extents soe_pos]. rewrite Ei.
    split_and!; [done | done |]. intros ? [= <-]. exists (p ++ q), t1. split; [done |]. intros b. cbn.
    pose proof (lists_nodup _ _ _ _ false Hl) as Hn. cbn in Hn.
    assert (a ∉ p ++ q) as Hna by (rewrite <- Permutation_middle in Hn; by apply NoDup_cons in Hn as []).
    split.
    + intros Hb. assert (b ∈ p ++ a :: q) as [[-> | Hb0]%elem_of_cons Ho]%Hin by set_solver; [done | by split].
    + intros [Hb0 Ho]. assert (b ∈ p ++ a :: q) as Hb by (apply Hin; split; [by right | done]).
      assert (b <> a) by (intros ->; done). set_solver.
Qed.

(** What attaching and detaching leave alone. *)
Record unmoved w w' : Prop := {
  um_text : ew_text w' = ew_text w;
  um_closure : ew_closure w' = ew_closure w;
  um_pos : soe_pos <$> ew_soe w' = soe_pos <$> ew_soe w;
}.

Lemma unmoved_refl w : unmoved w w.
Proof. by split. Qed.

Lemma unmoved_trans w1 w2 w3 : unmoved w1 w2 -> unmoved w2 w3 -> unmoved w1 w3.
Proof. intros [] []. split; congruence. Qed.

Lemma set_extents_unmoved w es : unmoved w (set_extents w es).
Proof. by split. Qed.

Lemma change_list_run f w el : f (ew_extents w) (ew_list w) = Some el -> change_list f w = Some (tt, set_list w el).
Proof. intros E. unfold change_list, on_list, modify. cbv beta iota delta [bind]. by rewrite E. Qed.

Lemma extent_attach_run a w b0 b1 e :
  holds_extents w b0 b1 -> ew_extents w !! a = Some e -> 0 <= extent_start e <= extent_end e -> a ∉ b0 ->
  exists w' b0' b1', extent_attach a w = Some (tt, w') /\ holds_extents w' b0' b1' /\ b0' ≡ₚ a :: b0 /\
    ew_extents w' = ew_extents w /\ ew_recorded w' = ew_recorded w /\ unmoved w w'.
Proof.
  intros [Hl Hs] He Hb Ha.
  destruct (lists_insert _ _ _ _ a Hl Ha) as (el' & b0' & b1' & Ei & Hl' & Ep);
    [by rewrite He | by rewrite (ext_at_Some _ _ _ He) |].
  unfold extent_attach. rewrite (then_run _ _ _ _ _ (change_list_run (fun es el => extent_list_insert es el a) w el' Ei)).
  destruct (soe_insert_run a (set_list w el') e b0 He Hb Ha Hs) as (soe' & -> & Hp & Hs').
  do 3 eexists. split_and!; [done | | exact Ep | done | done | by split].
  split; [exact Hl' |]. intros soe E. eapply lies_over_perm; [symmetry; exact Ep |]. by apply Hs'.
Qed.

Definition detached (e : extent) : extent := set_extent_end (set_extent_start e (-1)) (-1).

Lemma extent_detach_run a w b0 b1 e :
  holds_extents w b0 b1 -> ew_extents w !! a = Some e -> a ∈ b0 ->
  exists w' b0' b1', extent_detach a w = Some (tt, w') /\ holds_extents w' b0' b1' /\ b0 ≡ₚ a :: b0' /\
    ew_extents w' = <[a := detached e]> (ew_extents w) /\ ew_recorded w' = ew_recorded w /\ unmoved w w'.
Proof.
  intros [Hl Hs] He Ha. pose proof (lists_each _ _ _ _ _ Hl Ha) as [_ Hb]. rewrite (ext_at_Some _ _ _ He) in Hb.
  apply list_elem_of_split in Ha as (p & q & Eb).
  destruct (lists_delete _ _ _ _ false p a q Hl Eb) as (el' & b0' & b1' & Ed & Hl' & E0 & Ep). cbn in E0. subst b0'.
  pose proof (lists_nodup _ _ _ _ false Hl) as Hn. cbn in Hn. rewrite Eb in Hn.
  rewrite <- Permutation_middle in Hn. apply NoDup_cons in Hn as [Hn _].
  unfold extent_detach. rewrite (then_run _ _ _ _ _ (the_extent_run _ _ _ He)).
  unfold extent_detached_p. rewrite (proj2 (Z.ltb_ge _ _)) by lia.
  rewrite (then_run _ _ _ _ _ (change_list_run (fun es el => extent_list_delete es el a) w el' Ed)).
  destruct (soe_delete_run a (set_list w el') e (p ++ q) He Hn) as (soe' & E & Hp & Hs').
  { intros soe E. eapply lies_over_perm; [exact Ep |]. by apply Hs. }
  rewrite (then_run _ _ _ _ _ E). rewrite (then_run _ _ _ _ _ (update_extent_run a _ (set_soe (set_list w el') soe') e He)).
  rewrite (update_extent_run a _ (set_extents (set_soe (set_list w el') soe') _) (set_extent_start e (-1))) by apply lookup_insert_eq. cbn [ew_extents set_extents].
  rewrite insert_insert_eq. do 3 eexists. split_and!; [done | | done | done | done | by split].
  assert (forall c, c ∈ p ++ q -> <[a := detached e]> (ew_extents w) !! c = ew_extents w !! c) as Hf
    by (intros c Hc; apply lookup_insert_ne; intros ->; done).
  split; cbn.
  - eapply lists_frame; [exact Hf | exact Hl'].
  - intros soe Es. eapply lies_over_frame; [exact Hf |]. by apply Hs'.
Qed.

(** New ends for an extent that is in no list. *)
Lemma holds_extents_update w b0 b1 a e :
  holds_extents w b0 b1 -> a ∉ b0 -> holds_extents (set_extents w (<[a := e]> (ew_extents w))) b0 b1.
Proof.
  intros [Hl Hs] Ha.
  assert (forall c, c ∈ b0 -> <[a := e]> (ew_extents w) !! c = ew_extents w !! c) as Hf
    by (intros c Hc; apply lookup_insert_ne; intros ->; done).
  split; cbn; [by eapply lists_frame |]. intros soe Es. eapply lies_over_frame; [exact Hf |]. by apply Hs.
Qed.

(** An extent that is in no list goes to its place. *)
Lemma place_run a w b0 b1 e start ends :
  holds_extents w b0 b1 -> ew_extents w !! a = Some e -> a ∉ b0 -> 0 <= start <= ends ->
  let e' := set_extent_end (set_extent_start e start) ends in
  exists w' b0' b1',
    (update_extent a (fun e => set_extent_start e start);; update_extent a (fun e => set_extent_end e ends);;
     extent_attach a) w = Some (tt, w') /\
    holds_extents w' b0' b1' /\ b0' ≡ₚ a :: b0 /\ ew_extents w' = <[a := e']> (ew_extents w) /\
    ew_recorded w' = ew_recorded w /\ unmoved w w'.
Proof.
  intros Hw He Ha Hb e'.
  rewrite (then_run _ _ _ _ _ (update_extent_run a _ w e He)).
  rewrite (then_run _ _ _ _ _ (update_extent_run a _ (set_extents w _) _ (lookup_insert_eq _ _ _))). cbn [ew_extents set_extents].
  rewrite insert_insert_eq.
  destruct (extent_attach_run a (set_extents w (<[a := e']> (ew_extents w))) b0 b1 e') as (w' & b0' & b1' & E & H & Hp & Hx & Hr & Hu);
    [by apply holds_extents_update | apply lookup_insert_eq | done | done |].
  exists w', b0', b1'. split_and!; [exact E | done | done | done | done |].
  eapply unmoved_trans; [apply set_extents_unmoved | exact Hu].
Qed.

Lemma ends_twice e x y start ends :
  set_extent_end (set_extent_start (set_extent_end (set_extent_start e x) y) start) ends =
    set_extent_end (set_extent_start e start) ends.
Proof. done. Qed.

(** What [a] belongs to when it has got its place. *)
Lemma attached_placed (es : extents) b0 b0' a e' :
  (forall c, attached es b0 c) -> 0 <= extent_start e' -> (forall c, c ∈ b0' <-> c = a \/ c ∈ b0) ->
  forall c, attached (<[a := e']> es) b0' c.
Proof.
  intros Hat Hs Hin c ce Hc. rewrite Hin. destruct (decide (c = a)) as [-> | Hn].
  - rewrite lookup_insert_eq in Hc. injection Hc as <-. tauto.
  - rewrite lookup_insert_ne in Hc by done. rewrite <- (Hat c ce Hc). tauto.
Qed.

Lemma set_extent_endpoints_1_run a w b0 b1 e start ends :
  state_ok w b0 b1 -> ew_extents w !! a = Some e -> 0 <= start <= ends ->
  exists w' b0' b1', set_extent_endpoints_1 a start ends w = Some (tt, w') /\ state_ok w' b0' b1' /\
    (forall c, c ∈ b0' <-> c = a \/ c ∈ b0) /\
    ew_extents w' = <[a := set_extent_end (set_extent_start e start) ends]> (ew_extents w) /\
    ew_recorded w' = (if extent_detached_p e && extent_duplicable_p e then [(a, true)] else []) ++ ew_recorded w /\
    unmoved w w'.
Proof.
  intros [Hw Hat] He Hb. unfold set_extent_endpoints_1. rewrite (then_run _ _ _ _ _ (the_extent_run _ _ _ He)).
  pose proof (Hat a e He) as Ha. unfold extent_detached_p. destruct (Z.ltb_spec (extent_start e) 0) as [Hd | Hd]; cbn [negb andb].
  - assert (a ∉ b0) as Hn by (intros Hin; apply Ha in Hin; lia).
    set (w1 := if extent_duplicable_p e
      then mk_ew (ew_text w) (ew_extents w) (ew_list w) (ew_soe w) ((a, true) :: ew_recorded w) (ew_closure w) else w).
    rewrite (then_run _ _ _ tt w1) by (subst w1; by destruct (extent_duplicable_p e)).
    assert (holds_extents w1 b0 b1) as Hw1 by (subst w1; destruct (extent_duplicable_p e); [destruct Hw; by split | done]).
    destruct (place_run a w1 b0 b1 e start ends Hw1) as (w' & b0' & b1' & E & H & Hp & Hx & Hr & Hu);
      [by subst w1; destruct (extent_duplicable_p e) | done | done |].
    rewrite E. do 3 eexists. split_and!; [done | | | | |].
    + split; [exact H |]. rewrite Hx. replace (ew_extents w1) with (ew_extents w) by (subst w1; by destruct (extent_duplicable_p e)).
      eapply attached_placed; [done | cbn; lia |]. intros c. by rewrite Hp, elem_of_cons.
    + intros c. by rewrite Hp, elem_of_cons.
    + rewrite Hx. subst w1. by destruct (extent_duplicable_p e).
    + rewrite Hr. subst w1. by destruct (extent_duplicable_p e).
    + eapply unmoved_trans; [| exact Hu]. subst w1. destruct (extent_duplicable_p e); by split.
  - assert (a ∈ b0) as Hin by (apply Ha; lia).
    destruct ((extent_start e =? start) && (extent_end e =? ends)) eqn:E.
    + apply andb_prop in E as [->%Z.eqb_eq ->%Z.eqb_eq] || apply andb_prop in E as [<-%Z.eqb_eq <-%Z.eqb_eq].
      exists w, b0, b1. split_and!; [done | by split | set_solver | | done | apply unmoved_refl].
      symmetry. apply insert_id. rewrite He. by destruct e.
    + destruct (extent_detach_run a w b0 b1 e Hw He Hin) as (w1 & c0 & c1 & Ed & H1 & Hp1 & Hx1 & Hr1 & Hu1).
      rewrite (then_run _ _ _ _ _ Ed).
      assert (a ∉ c0) as Hn.
      { pose proof (lists_nodup _ _ _ _ false (he_lists _ _ _ Hw)) as Hnd. cbn in Hnd. rewrite Hp1 in Hnd.
        by apply NoDup_cons in Hnd as []. }
      destruct (place_run a w1 c0 c1 (detached e) start ends H1) as (w' & b0' & b1' & Ew & H & Hp & Hx & Hr & Hu);
        [rewrite Hx1; apply lookup_insert_eq | done | done |].
      rewrite Hx1, insert_insert_eq in Hx. unfold detached in Hx. rewrite ends_twice in Hx.
      assert (forall c, c ∈ b0' <-> c = a \/ c ∈ b0) as Hin' by (intros c; rewrite Hp, Hp1; set_solver).
      rewrite Ew. do 3 eexists. split_and!; [done | | done | done | by rewrite Hr, Hr1 | by eapply unmoved_trans].
      split; [exact H |]. rewrite Hx. eapply attached_placed; [done | cbn; lia | done].
Qed.

(** ** The stack of extents *)

Lemma fresh_lies_over es b0 b1 el : lists es el b0 b1 -> lies_over es allocate_extent_list b0 (-1).
Proof.
  intros H. exists [], []. split; [apply empty_lists |]. intros a. split; [set_solver |]. intros [Ha Ho].
  pose proof (lists_each _ _ _ _ _ H Ha). unfold overlaps in Ho. lia.
Qed.

Lemma force_run w b0 b1 :
  holds_extents w b0 b1 -> exists soe,
    buffer_or_string_stack_of_extents_force w = Some (soe, set_soe w (Some soe)) /\
    lies_over (ew_extents w) (soe_extents soe) b0 (soe_pos soe) /\ (ew_soe w = None \/ ew_soe w = Some soe).
Proof.
  intros [Hl Hs]. unfold buffer_or_string_stack_of_extents_force. cbv beta iota delta [bind gets].
  destruct (ew_soe w) as [soe |] eqn:E.
  - exists soe. split_and!; [| by apply Hs | by right]. destruct w; cbn in *; by subst.
  - exists allocate_soe. split_and!; [done | by eapply fresh_lies_over | by left].
Qed.

Lemma soe_move_run pos w b0 b1 :
  holds_extents w b0 b1 -> exists sel,
    soe_move pos w = Some (tt, set_soe w (Some (mk_soe sel pos))) /\ lies_over (ew_extents w) sel b0 pos.
Proof.
  intros Hw. destruct (force_run w b0 b1 Hw) as ([sel oldpos] & E & Ho & _). cbn [soe_extents soe_pos] in Ho.
  unfold soe_move. rewrite (then_run _ _ _ _ _ E). cbn [soe_pos]. destruct (Z.eqb_spec oldpos pos) as [<- | Hn].
  - by exists sel.
  - destruct (soe_moved_ok _ _ _ _ _ _ _ (he_lists _ _ _ Hw) Ho Hn) as (sel' & Em & Ho').
    exists sel'. cbv beta iota delta [bind gets lift]. cbn [ew_extents ew_list set_soe]. by rewrite Em.
Qed.

Lemma holds_extents_soe w soe b0 b1 :
  holds_extents w b0 b1 -> lies_over (ew_extents w) (soe_extents soe) b0 (soe_pos soe) ->
  holds_extents (set_soe w (Some soe)) b0 b1.
Proof. intros [Hl Hs] Ho. split; [done |]. cbn. by intros ? [= <-]. Qed.

(** Invalidated: over no place. *)
Lemma soe_invalidate_run w b0 b1 :
  holds_extents w b0 b1 -> exists w', soe_invalidate w = Some (tt, w') /\ holds_extents w' b0 b1 /\
    ew_extents w' = ew_extents w /\ ew_list w' = ew_list w /\ (soe_pos <$> ew_soe w' = None \/ soe_pos <$> ew_soe w' = Some (-1)).
Proof.
  intros [Hl Hs]. unfold soe_invalidate, buffer_or_string_stack_of_extents. cbv beta iota delta [bind gets lift modify].
  destruct (ew_soe w) as [soe |] eqn:E.
  - destruct (Hs _ eq_refl) as (s0 & s1 & Hsl & _). destruct (deleted_lists _ _ _ _ Hsl) as (el & -> & He).
    eexists. split_and!; [done | | done | done | by right]. split; [done |]. cbn. intros ? [= <-]. cbn.
    exists [], []. split; [done |]. intros a. split; [set_solver |]. intros [Ha Ho].
    pose proof (lists_each _ _ _ _ _ Hl Ha). unfold overlaps in Ho. lia.
  - exists w. split_and!; [done | by split; [| rewrite E] | done | done | left; by rewrite E].
Qed.

(** ** Detaching all *)

Lemma detach_loop_run w b0 b1 :
  lists (ew_extents w) (ew_list w) b0 b1 -> forall l p es,
  b0 = p ++ l -> (forall a, is_Some (es !! a) <-> is_Some (ew_extents w !! a)) ->
  exists es', detach_loop (length l) (zlen p) (set_extents w es) = Some (tt, set_extents w es') /\
    forall a, es' !! a = if bool_decide (a ∈ l) then detached <$> es !! a else es !! a.
Proof.
  intros Hl l. induction l as [| a l IH]; intros p es E Hd; cbn [length detach_loop].
  - exists es. split; [done |]. intros a. by rewrite bool_decide_eq_false_2 by set_solver.
  - unfold on_list. cbv beta iota delta [bind]. cbn [ew_extents ew_list set_extents].
    rewrite (lists_at _ _ _ _ false p a l Hl E).
    assert (a ∈ b0) as Ha by set_solver. destruct (lists_each _ _ _ _ _ Hl Ha) as [He _]. apply Hd in He as [e He].
    rewrite (update_extent_run a _ (set_extents w es) e He). cbn [ew_extents set_extents].
    rewrite (update_extent_run a _ _ (set_extent_start e (-1))) by apply lookup_insert_eq. cbn [ew_extents set_extents].
    rewrite insert_insert_eq. replace (zlen p + 1) with (zlen (p ++ [a])) by (lens; lia).
    change (set_extents (set_extents (set_extents w es) _) _) with (set_extents w (<[a := detached e]> es)).
    destruct (IH (p ++ [a]) (<[a := detached e]> es)) as (es' & -> & Hes).
    + by rewrite <- app_assoc.
    + intros b. rewrite <- Hd. destruct (decide (a = b)) as [-> | ?].
      * rewrite lookup_insert_eq, He. by split.
      * by rewrite lookup_insert_ne.
    + exists es'. split; [done |]. intros b. rewrite Hes.
      pose proof (lists_nodup _ _ _ _ false Hl) as Hn. cbn in Hn. rewrite E in Hn.
      apply NoDup_app in Hn as (_ & _ & [Hn _]%NoDup_cons). destruct (decide (a = b)) as [-> | ?].
      * rewrite bool_decide_eq_false_2, bool_decide_eq_true_2 by set_solver. by rewrite lookup_insert_eq, He.
      * rewrite lookup_insert_ne by done. case_bool_decide; case_bool_decide; set_solver.
Qed.

Lemma detach_all_extents_run w b0 b1 :
  state_ok w b0 b1 -> exists w', detach_all_extents w = Some (tt, w') /\ state_ok w' [] [] /\
    forall a, ew_extents w' !! a = (fun e => if extent_detached_p e then e else detached e) <$> ew_extents w !! a.
Proof.
  intros [Hw Hat]. unfold detach_all_extents, gets. cbv beta iota delta [bind].
  rewrite (lists_num _ _ _ _ (he_lists _ _ _ Hw)).
  destruct (detach_loop_run w b0 b1 (he_lists _ _ _ Hw) b0 [] (ew_extents w) eq_refl) as (es' & E & Hes); [done |].
  replace (Z.to_nat (zlen b0)) with (length b0) by lia.
  replace (set_extents w (ew_extents w)) with w in E by (by destruct w). change (zlen []) with 0 in E. rewrite E.
  destruct (deleted_lists _ _ _ _ (he_lists _ _ _ Hw)) as (el & Ed & Hel).
  rewrite (change_list_run (fun _ el => extent_list_delete_all el) (set_extents w es') el Ed).
  set (w1 := set_list (set_extents w es') el).
  assert (forall c soe, ew_soe w = Some soe -> c = soe -> exists sel, extent_list_delete_all (soe_extents c) = Some sel /\
    lists es' sel [] []) as Hdel.
  { intros c soe Es ->. destruct (he_soe _ _ _ Hw _ Es) as (s0 & s1 & Hs & _).
    destruct (deleted_lists _ _ _ _ Hs) as (sel & Esel & Hsel). exists sel. split; [done |].
    eapply lists_frame; [| exact Hsel]. set_solver. }
  assert (lists es' el [] []) as Hel' by (eapply lists_frame; [| exact Hel]; set_solver).
  assert (forall a, es' !! a = (fun e => if extent_detached_p e then e else detached e) <$> ew_extents w !! a) as Hmap.
  { intros a. rewrite Hes. destruct (ew_extents w !! a) as [e |] eqn:Ea; [| by case_bool_decide].
    pose proof (Hat a e Ea) as Hb. unfold extent_detached_p. cbn.
    case_bool_decide as Hc; [apply Hb in Hc | assert (~ 0 <= extent_start e) by (by rewrite <- Hb)]; zcase. }
  assert (forall w2, ew_extents w2 = es' -> ew_list w2 = el -> (forall soe, ew_soe w2 = Some soe -> soe_pos soe = -1 /\
    lists es' (soe_extents soe) [] []) -> state_ok w2 [] []) as Hok.
  { intros w2 X1 X2 X3. split; [split; rewrite X1, ?X2; [done |] |].
    - intros soe Es. destruct (X3 _ Es) as [_ Hs]. exists [], []. split; [done | set_solver].
    - intros a e Ea. rewrite X1, Hmap in Ea. split; [set_solver |].
      destruct (ew_extents w !! a) as [e0 |]; [| done]. cbn in Ea. injection Ea as <-. unfold extent_detached_p. zcase. }
  unfold soe_invalidate, buffer_or_string_stack_of_extents. cbv beta iota delta [bind gets lift modify]. subst w1. cbn [ew_soe set_list set_extents].
  destruct (ew_soe w) as [soe |] eqn:Es.
  - destruct (Hdel soe soe eq_refl eq_refl) as (sel & -> & Hsel). eexists. split_and!; [done | | exact Hmap].
    apply Hok; [done | done |]. cbn. by intros ? [= <-].
  - eexists. split_and!; [done | | exact Hmap]. apply Hok; [done | done |]. cbn. by rewrite Es.
Qed.

Lemma make_extent_detached_run w b0 b1 :
  state_ok w b0 b1 -> exists w', make_extent_detached w = Some (fresh (dom (ew_extents w)), w') /\ state_ok w' b0 b1 /\
    w' = set_extents w (<[fresh (dom (ew_extents w)) := mk_extent (-1) (-1) false false true false false]> (ew_extents w)).
Proof.
  intros [Hw Hat]. unfold make_extent_detached. eexists. split_and!; [done | | done].
  set (a := fresh (dom (ew_extents w))).
  assert (ew_extents w !! a = None) as Ha by (apply not_elem_of_dom; apply is_fresh).
  assert (a ∉ b0) as Hn.
  { intros Hin. destruct (lists_each _ _ _ _ _ (he_lists _ _ _ Hw) Hin) as [[e He] _]. congruence. }
  split; [by apply holds_extents_update |]. intros c e Hc. cbn in Hc. destruct (decide (a = c)) as [<- | ?].
  - rewrite lookup_insert_eq in Hc. injection Hc as <-. cbn. split; [done | lia].
  - rewrite lookup_insert_ne in Hc by done. by apply Hat.
Qed.
End Ops.
