(* ===== verification/ExtentAdjust.v ===== *)
(** * What the operations on extents keep

    The operations as a whole, against the extents as a map from addresses; and the ends of
    extents when the gap moves: each goes with the character it is at, the lists stay in
    order without being touched, and the stack of extents stays over its position. *)

From Stdlib Require Import Sorting.Sorted.
From S2P Require Import Prelude Buffer Insdel GapArray ExtentList Extents ExtentTheory ExtentState.

#[local] Open Scope ext_scope.

(** ** Operations in sequence *)

Inductive extent_op :=
| MakeExtent
| SetEnds (a : positive) (start ends : Z)
| Detach (a : positive)
| DetachAll
| MoveStack (pos : Z)
| InvalidateStack.

(** What an operation means for the extents alone. *)
Definition op_extents (op : extent_op) (es : extents) : extents :=
  match op with
  | MakeExtent => <[fresh (dom es) := mk_extent (-1) (-1) false false true false false]> es
  | SetEnds a start ends => alter (fun e => set_extent_end (set_extent_start e start) ends) a es
  | Detach a => alter (fun e => if extent_detached_p e then e else detached e) a es
  | DetachAll => (fun e => if extent_detached_p e then e else detached e) <$> es
  | MoveStack _ | InvalidateStack => es
  end.

Definition op_ok (op : extent_op) (es : extents) : bool :=
  match op with
  | SetEnds a start ends => bool_decide (is_Some (es !! a)) && (0 <=? start) && (start <=? ends)
  | Detach a => bool_decide (is_Some (es !! a))
  | _ => true
  end.

Fixpoint ops_extents (ops : list extent_op) (es : extents) : extents :=
  match ops with [] => es | op :: ops => ops_extents ops (op_extents op es) end.

Fixpoint ops_ok (ops : list extent_op) (es : extents) : bool :=
  match ops with [] => true | op :: ops => op_ok op es && ops_ok ops (op_extents op es) end.

Section Ops.
Context {U : Type}.
Implicit Types (w : ext_world U).

Definition perform (op : extent_op) : X U unit :=
  match op with
  | MakeExtent => make_extent_detached;; ret tt
  | SetEnds a start ends => set_extent_endpoints_1 a start ends
  | Detach a => extent_detach a
  | DetachAll => detach_all_extents
  | MoveStack pos => soe_move pos
  | InvalidateStack => soe_invalidate
  end.

Fixpoint perform_all (ops : list extent_op) : X U unit :=
  match ops with [] => ret tt | op :: ops => perform op;; perform_all ops end.

Lemma alter_insert (es : extents) a e f : es !! a = Some e -> alter f a es = <[a := f e]> es.
Proof.
  intros He. apply map_eq. intros b. destruct (decide (a = b)) as [-> | Hn].
  - by rewrite lookup_alter_eq, lookup_insert_eq, He.
  - by rewrite lookup_alter_ne, lookup_insert_ne.
Qed.

Lemma detach_run w b0 b1 a e :
  state_ok w b0 b1 -> ew_extents w !! a = Some e ->
  exists w' b0' b1', extent_detach a w = Some (tt, w') /\ state_ok w' b0' b1' /\
    ew_extents w' = <[a := if extent_detached_p e then e else detached e]> (ew_extents w).
Proof.
  intros [Hw Hat] He. pose proof (Hat a e He) as Ha. unfold extent_detached_p. destruct (Z.ltb_spec (extent_start e) 0).
  - exists w, b0, b1. split_and!; [| by split | by rewrite insert_id].
    unfold extent_detach. rewrite (then_run _ _ _ _ _ (the_extent_run _ _ _ He)). unfold extent_detached_p. zcase.
  - destruct (extent_detach_run a w b0 b1 e Hw He) as (w' & b0' & b1' & E & H' & Hp & Hx & _); [apply Ha; lia |].
    exists w', b0', b1'. split_and!; [done | | done]. split; [done |]. rewrite Hx. intros c ce Hc.
    pose proof (lists_nodup _ _ _ _ false (he_lists _ _ _ Hw)) as Hnd. cbn in Hnd. rewrite Hp in Hnd.
    apply NoDup_cons in Hnd as [Hnd _]. destruct (decide (a = c)) as [<- | Hne].
    + rewrite lookup_insert_eq in Hc. injection Hc as <-. cbn. split; [done | lia].
    + rewrite lookup_insert_ne in Hc by done. rewrite <- (Hat c ce Hc), Hp. set_solver.
Qed.

Lemma perform_run op w b0 b1 :
  state_ok w b0 b1 -> op_ok op (ew_extents w) = true ->
  exists w' b0' b1', perform op w = Some (tt, w') /\ state_ok w' b0' b1' /\
    ew_extents w' = op_extents op (ew_extents w).
Proof.
  intros Hw Hop. destruct op as [| a start ends | a | | pos |]; cbn [perform op_extents op_ok] in *.
  - destruct (make_extent_detached_run w b0 b1 Hw) as (w' & E & Hw' & ->).
    do 3 eexists. rewrite (then_run _ _ _ _ _ E). by split_and!.
  - apply andb_prop in Hop as [[[e He]%bool_decide_eq_true ?%Z.leb_le]%andb_prop ?%Z.leb_le].
    destruct (set_extent_endpoints_1_run a w b0 b1 e start ends Hw He) as (w' & b0' & b1' & E & Hw' & _ & Hx & _); [lia |].
    exists w', b0', b1'. split_and!; [done.. |]. by rewrite (alter_insert _ _ _ _ He).
  - apply bool_decide_eq_true in Hop as [e He].
    destruct (detach_run w b0 b1 a e Hw He) as (w' & b0' & b1' & E & Hw' & Hx).
    exists w', b0', b1'. split_and!; [done.. |]. by rewrite (alter_insert _ _ _ _ He).
  - destruct (detach_all_extents_run w b0 b1 Hw) as (w' & E & Hw' & Hx). exists w', [], [].
    split_and!; [done.. |]. apply map_eq. intros a. by rewrite Hx, lookup_fmap.
  - destruct Hw as [Hw Hat]. destruct (soe_move_run pos w b0 b1 Hw) as (sel & E & Ho).
    do 3 eexists. split_and!; [exact E | | done]. split; [by apply holds_extents_soe | done].
  - destruct Hw as [Hw Hat]. destruct (soe_invalidate_run w b0 b1 Hw) as (w' & E & Hw' & Hx & _).
    do 3 eexists. split_and!; [exact E | | done]. split; [exact Hw' | by rewrite Hx].
Qed.
End Ops.

Lemma perform_all_run {U} (ops : list extent_op) (w : ext_world U) b0 b1 :
  state_ok w b0 b1 -> ops_ok ops (ew_extents w) = true ->
  exists w' b0' b1', perform_all ops w = Some (tt, w') /\ state_ok w' b0' b1' /\
    ew_extents w' = ops_extents ops (ew_extents w).
Proof.
  revert w b0 b1. induction ops as [| op ops IH]; intros w b0 b1 Hw Hok; cbn [perform_all ops_extents ops_ok] in *.
  - by exists w, b0, b1.
  - apply andb_prop in Hok as [H1 H2]. destruct (perform_run op w b0 b1 Hw H1) as (w1 & c0 & c1 & E & Hw1 & Hx).
    rewrite (then_run _ _ _ _ _ E), <- Hx in *. by apply (IH w1 c0 c1).
Qed.

(** C33: Any sequence of operations on the extents of a buffer (making one, giving it ends,
    detaching one or all, moving the stack of extents or throwing it away) runs, has the
    effect on each extent that it has on a plain map of extents, and keeps the state: both
    lists hold exactly the attached extents, each in its order, and the stack of extents
    holds exactly those of them that overlap its position. *)
Theorem extent_operations_refine_a_map {U} (ops : list extent_op) (w : ext_world U) b0 b1 :
  state_ok w b0 b1 -> ops_ok ops (ew_extents w) = true ->
  exists w' b0' b1', perform_all ops w = Some (tt, w') /\
    ew_extents w' = ops_extents ops (ew_extents w) /\
    (forall a e, ew_extents w' !! a = Some e -> a ∈ b0' <-> 0 <= extent_start e) /\
    in_order (ew_extents w') false b0' /\ in_order (ew_extents w') true b1' /\ b0' ≡ₚ b1' /\
    (exists ms0 ms1, holds (el_start (ew_list w')) b0' ms0 /\ holds (el_end (ew_list w')) b1' ms1) /\
    forall soe, ew_soe w' = Some soe -> lies_over (ew_extents w') (soe_extents soe) b0' (soe_pos soe).
Proof.
  intros Hw Hok. destruct (perform_all_run ops w b0 b1 Hw Hok) as (w' & b0' & b1' & E & [[Hl Hs] Hat] & Hx).
  exists w', b0', b1'. split_and!; [done | done | exact Hat | | | by eapply lists_perm | | done].
  - apply (lists_order _ _ _ _ false Hl).
  - apply (lists_order _ _ _ _ true Hl).
  - destruct Hl as (ms0 & ms1 & [H0 H1 _ _ _ _ _ _]). by exists ms0, ms1.
Qed.

(** A buffer without extents. *)
Definition no_extents {U} (t : buffer_text) (u : U) : ext_world U := mk_ew t ∅ allocate_extent_list None [] u.

Lemma no_extents_ok {U} t (u : U) : state_ok (no_extents t u) [] [].
Proof. split; [split; [apply empty_lists | done] | by intros a e ?]. Qed.

Definition some_text (gpt size : Z) : buffer_text :=
  mk_text (replicate 60 97) gpt 41 size 0 0 0 (mk_text_changes 0 0 0 0 false).

Definition some_ops : list extent_op :=
  [MakeExtent; MakeExtent; MakeExtent; SetEnds 1 3 9; SetEnds 2 5 5; MoveStack 5; SetEnds 3 5 30; MoveStack 20;
   SetEnds 1 7 22; Detach 2; MoveStack 2; SetEnds 2 1 2; InvalidateStack; MoveStack 30; DetachAll; SetEnds 2 4 6].

Lemma extent_operations_refine_a_map_witness :
  ops_ok some_ops ∅ = true /\
  exists w' b0' b1', perform_all some_ops (no_extents (some_text 6 10) tt) = Some (tt, w') /\
    ew_extents w' = ops_extents some_ops ∅ /\
    (forall a e, ew_extents w' !! a = Some e -> a ∈ b0' <-> 0 <= extent_start e) /\
    in_order (ew_extents w') false b0' /\ in_order (ew_extents w') true b1' /\ b0' ≡ₚ b1' /\
    (exists ms0 ms1, holds (el_start (ew_list w')) b0' ms0 /\ holds (el_end (ew_list w')) b1' ms1) /\
    forall soe, ew_soe w' = Some soe -> lies_over (ew_extents w') (soe_extents soe) b0' (soe_pos soe).
Proof.
  split; [vm_compute; reflexivity |].
  apply (extent_operations_refine_a_map some_ops (no_extents (some_text 6 10) tt) [] []);
    [apply no_extents_ok | vm_compute; reflexivity].
Defined.

(** ** When the gap moves *)

(** An end in the range goes with its character. *)
Definition shifted (from to amount x : Z) : Z := if (from <? x) && (x <=? to) then x + amount else x.

Definition shift_extent (from to amount : Z) (e : extent) : extent :=
  set_extent_end (set_extent_start e (shifted from to amount (extent_start e))) (shifted from to amount (extent_end e)).

(** A memory index that is not in the gap. *)
Definition outside_gap (g size x : Z) : Prop := x <= g \/ g + size < x.

(** How [gap_left] and [gap_right] call [adjust_extents] to move the gap from [g] to [pos]. *)
Definition gap_move (g size pos from to amount : Z) : Prop :=
  1 <= g /\ 1 <= pos /\ 0 <= size /\
  (pos < g /\ from = pos /\ to = g /\ amount = size \/
   g < pos /\ from = g + size /\ to = pos + size /\ amount = - size).

Lemma shifted_strict g size pos from to amount x y :
  gap_move g size pos from to amount -> outside_gap g size x -> outside_gap g size y -> x < y ->
  shifted from to amount x < shifted from to amount y.
Proof. unfold gap_move, outside_gap, shifted. zdec; lia. Qed.

Lemma shifted_outside g size pos from to amount x :
  gap_move g size pos from to amount -> outside_gap g size x -> outside_gap pos size (shifted from to amount x).
Proof. unfold gap_move, outside_gap, shifted. zdec; lia. Qed.

Lemma shifted_marker g size pos from to amount x :
  gap_move g size pos from to amount -> outside_gap g size x ->
  do_marker_adjustment x from to amount = shifted from to amount x.
Proof. unfold gap_move, outside_gap, shifted, do_marker_adjustment. zdec; lia. Qed.

Lemma in_range_adjusted from to amount x :
  from < x <= to -> do_marker_adjustment x from to amount = shifted from to amount x.
Proof. unfold shifted, do_marker_adjustment. zdec; lia. Qed.

Lemma set_extent_endpoint_other e v endp : extent_endpoint (set_extent_endpoint e v (negb endp)) endp = extent_endpoint e endp.
Proof. by destruct endp. Qed.

(** The loop sets the ends that are at most [to]; those come first. *)
Lemma adjust_loop_run es0 el b0 b1 endp from to amount :
  lists es0 el b0 b1 -> forall m p q n (es : extents),
  order_of endp b0 b1 = p ++ m ++ q -> (length m < n)%nat \/ q = [] /\ (length m <= n)%nat ->
  (forall a, a ∈ m ++ q -> is_Some (es !! a)) ->
  (forall a e, a ∈ m -> es !! a = Some e -> extent_endpoint e endp <= to) ->
  (forall a e, a ∈ q -> es !! a = Some e -> to < extent_endpoint e endp) ->
  exists es', adjust_loop n el endp (zlen p) from to amount es = Some es' /\
    forall a, es' !! a = if bool_decide (a ∈ m)
      then (fun e => set_extent_endpoint e (do_marker_adjustment (extent_endpoint e endp) from to amount) endp) <$> es !! a
      else es !! a.
Proof.
  intros Hl m. induction m as [| a m IH]; intros p q n es E Hn Hd Hm Hq.
  - exists es. split; [| intros a; by rewrite bool_decide_eq_false_2 by set_solver]. cbn [app] in E. destruct q as [| b q].
    + destruct n; cbn [adjust_loop]; rewrite (lists_num _ _ _ _ Hl), <- (lists_length _ _ _ _ endp Hl), E, app_nil_r; zcase.
    + destruct n as [| n]; [by cbn in Hn; destruct Hn as [? | [? _]]; [lia |] |]. cbn [adjust_loop].
      rewrite (lists_num _ _ _ _ Hl), <- (lists_length _ _ _ _ endp Hl), E.
      rewrite (proj2 (Z.ltb_lt _ _)) by (do 2 lens; lia).
      rewrite (lists_at _ _ _ _ endp p b q Hl E). destruct (Hd b ltac:(set_solver)) as [e He]. rewrite He.
      by rewrite (proj2 (Z.gtb_lt _ _)) by (apply (Hq b); [set_solver | done]).
  - destruct n as [| n]; [cbn in Hn; lia |]. cbn [adjust_loop]. cbn [app] in E.
    rewrite (lists_num _ _ _ _ Hl), <- (lists_length _ _ _ _ endp Hl), E.
    rewrite (proj2 (Z.ltb_lt _ _)) by (do 2 lens; lia).
    rewrite (lists_at _ _ _ _ endp p a (m ++ q) Hl E). destruct (Hd a ltac:(set_solver)) as [e He]. rewrite He.
    assert (extent_endpoint e endp <= to) as Hle by (apply (Hm a); [set_solver | done]).
    destruct (Z.gtb_spec (extent_endpoint e endp) to); [lia |]. replace (zlen p + 1) with (zlen (p ++ [a])) by (lens; lia).
    pose proof (lists_nodup _ _ _ _ endp Hl) as Hnd. rewrite E in Hnd. apply NoDup_app in Hnd as (_ & _ & [Hna _]%NoDup_cons).
    set (e' := set_extent_endpoint e _ endp).
    destruct (IH (p ++ [a]) q n (<[a := e']> es)) as (es' & -> & Hes).
    + rewrite <- app_assoc. exact E.
    + cbn in Hn. lia || (destruct Hn as [? | [? ?]]; [left; lia | right; split; [done | lia]]).
    + intros b Hb. rewrite lookup_insert_ne by set_solver. apply Hd. set_solver.
    + intros b be Hb. rewrite lookup_insert_ne by set_solver. apply Hm. set_solver.
    + intros b be Hb. rewrite lookup_insert_ne by set_solver. apply Hq. set_solver.
    + exists es'. split; [done |]. intros b. rewrite Hes. destruct (decide (a = b)) as [<- | ?].
      * rewrite bool_decide_eq_false_2, bool_decide_eq_true_2 by set_solver. by rewrite lookup_insert_eq, He.
      * rewrite lookup_insert_ne by done. case_bool_decide; case_bool_decide; set_solver.
Qed.

(** The ends of a kind at most [from], those in the range, and those behind. *)
Lemma lists_range es el b0 b1 endp from to :
  lists es el b0 b1 -> from <= to -> exists p m q,
    order_of endp b0 b1 = p ++ m ++ q /\ extent_list_locate_from_pos es el (from + 1) endp = Some (zlen p) /\
    Forall (fun a => extent_endpoint (ext_at es a) endp <= from) p /\
    Forall (fun a => from < extent_endpoint (ext_at es a) endp <= to) m /\
    Forall (fun a => to < extent_endpoint (ext_at es a) endp) q.
Proof.
  intros Hl Hft. destruct (lists_locate _ _ _ _ endp (from + 1) Hl) as (p & r & E & Ep & Hp & Hr).
  destruct (lists_locate _ _ _ _ endp (to + 1) Hl) as (p' & q & E' & _ & Hp' & Hq).
  assert (exists m, p' = p ++ m /\ r = m ++ q) as (m & -> & ->).
  { rewrite E in E'. apply app_eq_inv in E' as [(k & -> & ->) | (k & -> & ->)]; [| by exists k].
    destruct k as [| a k]; [exists []; by rewrite !app_nil_r |].
    apply Forall_app in Hp as [_ [Hp _]%Forall_cons]. apply Forall_app in Hq as [[Hq _]%Forall_cons _]. lia. }
  exists p, m, q. split_and!; [done | done | eapply Forall_impl; [exact Hp |]; cbn; lia | | eapply Forall_impl; [exact Hq |]; cbn; lia].
  apply Forall_app in Hp' as [_ Hp'], Hr as [Hr _]. apply Forall_forall. intros a Ha.
  pose proof (Forall_in a Hp' Ha). pose proof (Forall_in a Hr Ha). cbn in *. lia.
Qed.

(** Ends that move with the order between them. *)
Lemma lists_remap es es' el b0 b1 :
  (forall a, a ∈ b0 -> is_Some (es' !! a) /\ 0 <= extent_start (ext_at es' a) <= extent_end (ext_at es' a)) ->
  (forall endp a b, a ∈ b0 -> b ∈ b0 -> extent_less endp (ext_at es b) (ext_at es a) = false ->
    extent_less endp (ext_at es' b) (ext_at es' a) = false) ->
  lists es el b0 b1 -> lists es' el b0 b1.
Proof.
  intros Hd Hord (ms0 & ms1 & [H0 H1 Hp Hn _ _ O0 O1]).
  assert (forall endp l, (forall a, a ∈ l -> a ∈ b0) -> in_order es endp l -> in_order es' endp l) as Ho.
  { intros endp l Hin Hs. unfold in_order in *. induction Hs as [| a l Hs IH Ha]; constructor; [apply IH; set_solver |].
    apply Forall_forall. intros b Hb. apply Hord; [set_solver.. |]. by eapply Forall_forall in Ha. }
  exists ms0, ms1. split; [done.. | | | |].
  - apply Forall_forall. intros a Ha. by apply Hd.
  - apply Forall_forall. intros a Ha. by apply Hd.
  - by apply Ho.
  - apply Ho; [| done]. intros a. by rewrite Hp.
Qed.

Lemma less_monotone endp e1 e2 e1' e2' :
  (extent_start e1 < extent_start e2 -> extent_start e1' < extent_start e2') ->
  (extent_start e2 < extent_start e1 -> extent_start e2' < extent_start e1') ->
  (extent_start e1 = extent_start e2 -> extent_start e1' = extent_start e2') ->
  (extent_end e1 < extent_end e2 -> extent_end e1' < extent_end e2') ->
  (extent_end e2 < extent_end e1 -> extent_end e2' < extent_end e1') ->
  (extent_end e1 = extent_end e2 -> extent_end e1' = extent_end e2') ->
  extent_less endp e1 e2 = false -> extent_less endp e1' e2' = false.
Proof.
  unfold extent_less, EXTENT_LESS, EXTENT_E_LESS, EXTENT_LESS_VALS, EXTENT_E_LESS_VALS. destruct endp; ztest; lia || done.
Qed.

Section Moves.
Context {g size pos from to amount : Z}.
Hypothesis Hmove : gap_move g size pos from to amount.
Abbreviation f := (shifted from to amount).

Lemma f_order x y : outside_gap g size x -> outside_gap g size y -> (x < y -> f x < f y) /\ (x = y -> f x = f y).
Proof. intros Hx Hy. split; [by eapply shifted_strict | by intros ->]. Qed.

(** The extents that are attached, shifted. *)
Definition shifted_extents (es es' : extents) (b0 : list positive) : Prop :=
  forall a, es' !! a = if bool_decide (a ∈ b0) then shift_extent from to amount <$> es !! a else es !! a.

Lemma shifted_at es es' b0 a :
  shifted_extents es es' b0 -> a ∈ b0 -> is_Some (es !! a) ->
  is_Some (es' !! a) /\ ext_at es' a = shift_extent from to amount (ext_at es a).
Proof. intros H Ha [e He]. unfold ext_at. rewrite H, bool_decide_eq_true_2, He by done. by split. Qed.

Lemma shifted_lists es es' el s0 s1 b0 :
  shifted_extents es es' b0 -> (forall a, a ∈ s0 -> a ∈ b0) ->
  (forall a, a ∈ s0 -> outside_gap g size (extent_start (ext_at es a)) /\ outside_gap g size (extent_end (ext_at es a))) ->
  lists es el s0 s1 -> lists es' el s0 s1.
Proof.
  intros Hs Hin Hout Hl. eapply lists_remap; [| | exact Hl].
  - intros a Ha. destruct (lists_each _ _ _ _ _ Hl Ha) as [Hd Hb]. destruct (shifted_at _ _ _ _ Hs (Hin a Ha) Hd) as [H1 ->].
    split; [done |]. destruct (Hout a Ha) as [G1 G2]. destruct (f_order _ _ G1 G2). cbn.
    assert (0 <= f (extent_start (ext_at es a))) by (revert Hmove; unfold gap_move, shifted; zdec; lia). lia.
  - intros endp a b Ha Hb. destruct (lists_each _ _ _ _ _ Hl Ha) as [Hda _], (lists_each _ _ _ _ _ Hl Hb) as [Hdb _].
    destruct (shifted_at _ _ _ _ Hs (Hin a Ha) Hda) as [_ ->], (shifted_at _ _ _ _ Hs (Hin b Hb) Hdb) as [_ ->].
    destruct (Hout a Ha) as [G1 G2], (Hout b Hb) as [G3 G4].
    destruct (f_order _ _ G1 G3), (f_order _ _ G3 G1), (f_order _ _ G2 G4), (f_order _ _ G4 G2).
    apply less_monotone; cbn; lia.
Qed.

Lemma shifted_lies_over es es' el sel b0 b1 x :
  lists es el b0 b1 -> shifted_extents es es' b0 ->
  (forall a, a ∈ b0 -> outside_gap g size (extent_start (ext_at es a)) /\ outside_gap g size (extent_end (ext_at es a))) ->
  x < 0 \/ outside_gap g size x -> lies_over es sel b0 x ->
  lies_over es' sel b0 (if x >=? 0 then do_marker_adjustment x from to amount else x).
Proof.
  intros Hl Hs Hout Hx (s0 & s1 & Hsl & Hin). exists s0, s1. split.
  { eapply shifted_lists; [done | | | exact Hsl]; intros a [Ha _]%Hin; [done | by apply Hout]. }
  intros a. rewrite Hin. split; intros [Ha Ho]; (split; [done |]);
    destruct (lists_each _ _ _ _ _ Hl Ha) as [Hd Hb], (Hout a Ha) as [G1 G2];
    destruct (shifted_at _ _ _ _ Hs Ha Hd) as [Hd' E]; unfold overlaps in *; rewrite E in *; cbn in *;
    (destruct Hx as [Hx | Hx]; [revert Hmove Ho; unfold gap_move, shifted; zdec; lia |]);
    rewrite (shifted_marker _ _ _ _ _ _ _ Hmove Hx) in *;
    assert (x < 0 -> f x = x) by (revert Hmove; unfold gap_move, shifted; zdec; lia);
    destruct (f_order _ _ G1 Hx), (f_order _ _ Hx G1), (f_order _ _ G2 Hx), (f_order _ _ Hx G2);
    revert Ho; zcase; lia.
Qed.
End Moves.

(** In a list cut at [from] and [to], the middle has what is between them. *)
Lemma in_the_range (P : positive -> Z) from to p m q a :
  Forall (fun a => P a <= from) p -> Forall (fun a => from < P a <= to) m -> Forall (fun a => to < P a) q ->
  a ∈ p ++ m ++ q -> a ∈ m <-> from < P a <= to.
Proof.
  intros Hp Hm Hq Ha. split; [apply (Forall_in a Hm) |]. intros Hr.
  rewrite !elem_of_app in Ha. destruct Ha as [Ha | [Ha | Ha]]; [| done |].
  - pose proof (Forall_in a Hp Ha). cbn in *. lia.
  - pose proof (Forall_in a Hq Ha). cbn in *. lia.
Qed.

(** The start first, and then the end. *)
Lemma shifted_in_steps from to amount e (P Q : Prop) `{!Decision P, !Decision Q} :
  (P <-> from < extent_start e <= to) -> (Q <-> from < extent_end e <= to) ->
  let set b (e : extent) := set_extent_endpoint e (do_marker_adjustment (extent_endpoint e b) from to amount) b in
  (if bool_decide Q then set true <$> (if bool_decide P then set false <$> Some e else Some e)
   else if bool_decide P then set false <$> Some e else Some e) = shift_extent from to amount <$> Some e.
Proof.
  intros HP HQ set. subst set. unfold shift_extent, set_extent_endpoint.
  assert (forall x (R : Prop), (R <-> from < x <= to) ->
    (R -> do_marker_adjustment x from to amount = shifted from to amount x) /\ (~ R -> x = shifted from to amount x)) as H.
  { intros x R HR. split; intros G; [by apply in_range_adjusted; apply HR |]. unfold shifted. zdec; tauto || lia. }
  destruct (H _ _ HP) as [P1 P2], (H _ _ HQ) as [Q1 Q2].
  case_bool_decide as EQ; case_bool_decide as EP; destruct e; cbn in *; f_equal;
    unfold set_extent_end, set_extent_start, set_extent_endpoint; cbn; f_equal; auto.
Qed.

(** Both ends, one after the other. *)
Lemma both_ends_adjusted g size pos from to amount es el b0 b1 :
  gap_move g size pos from to amount -> lists es el b0 b1 ->
  exists n0 n1 es1 es2,
    extent_list_locate_from_pos es el (from + 1) false = Some n0 /\
    extent_list_locate_from_pos es el (from + 1) true = Some n1 /\
    adjust_loop (Z.to_nat (extent_list_num_els el)) el false n0 from to amount es = Some es1 /\
    adjust_loop (Z.to_nat (extent_list_num_els el)) el true n1 from to amount es1 = Some es2 /\
    shifted_extents (from := from) (to := to) (amount := amount) es es2 b0.
Proof.
  intros Hmove Hl. assert (from <= to) as Hft by (revert Hmove; unfold gap_move; lia).
  destruct (lists_range _ _ _ _ false from to Hl Hft) as (p & m & q & E & E0 & Hp & Hm & Hq).
  destruct (lists_range _ _ _ _ true from to Hl Hft) as (p' & m' & q' & E' & E1 & Hp' & Hm' & Hq').
  assert (forall a, a ∈ order_of false b0 b1 -> is_Some (es !! a)) as Hd by (intros a Ha; by apply (lists_each _ _ _ _ _ Hl Ha)).
  rewrite (lists_num _ _ _ _ Hl).
  assert (forall endp x y z, order_of endp b0 b1 = x ++ y ++ z ->
    (length y < Z.to_nat (zlen b0))%nat \/ z = [] /\ (length y <= Z.to_nat (zlen b0))%nat) as Hn.
  { intros endp x y z Eo. rewrite <- (lists_length _ _ _ _ endp Hl), Eo. destruct z; [right; split; [done |] | left]; do 2 lens; lia. }
  destruct (adjust_loop_run es el b0 b1 false from to amount Hl m p q _ es E (Hn _ _ _ _ E)) as (es1 & R1 & S1).
  { intros a Ha. apply Hd. rewrite E. set_solver. }
  { intros a e Ha He. pose proof (Forall_in a Hm Ha) as H. cbn beta in H. rewrite (ext_at_Some _ _ _ He) in H. lia. }
  { intros a e Ha He. pose proof (Forall_in a Hq Ha) as H. cbn beta in H. rewrite (ext_at_Some _ _ _ He) in H. lia. }
  assert (forall a e1, es1 !! a = Some e1 -> exists e, es !! a = Some e /\ extent_end e1 = extent_end e) as Hends.
  { intros a e1. rewrite S1. case_bool_decide; [| by exists e1]. destruct (es !! a) as [e |]; [| done].
    intros [= <-]. by exists e. }
  destruct (adjust_loop_run es el b0 b1 true from to amount Hl m' p' q' _ es1 E' (Hn _ _ _ _ E')) as (es2 & R2 & S2).
  { intros a Ha. assert (a ∈ b0) as Hb by (apply (lists_in _ _ _ _ true a Hl); rewrite E'; set_solver).
    rewrite S1. destruct (Hd a Hb) as [e ->]. case_bool_decide; by eexists. }
  { intros a e1 Ha He. destruct (Hends _ _ He) as (e & He0 & Ee). pose proof (Forall_in a Hm' Ha) as H. cbn in *.
    rewrite (ext_at_Some _ _ _ He0) in H. lia. }
  { intros a e1 Ha He. destruct (Hends _ _ He) as (e & He0 & Ee). pose proof (Forall_in a Hq' Ha) as H. cbn in *.
    rewrite (ext_at_Some _ _ _ He0) in H. lia. }
  exists (zlen p), (zlen p'), es1, es2. split_and!; [done.. |]. intros a. rewrite S2, S1.
  pose proof (lists_in _ _ _ _ true a Hl) as Hin. cbn in E, E', Hin. rewrite E' in Hin. rewrite E.
  pose proof (in_the_range _ from to p m q a Hp Hm Hq) as K0.
  pose proof (in_the_range _ from to p' m' q' a Hp' Hm' Hq') as K1. rewrite Hin, E in K1.
  assert (a ∈ m' -> a ∈ p ++ m ++ q) as K2 by (intros H; rewrite <- E; apply Hin; set_solver).
  destruct (es !! a) as [e |] eqn:He; [| by repeat case_bool_decide].
  cbn in K0, K1. rewrite (ext_at_Some _ _ _ He) in K0, K1.
  destruct (decide (a ∈ p ++ m ++ q)) as [Ha | Ha].
  - rewrite (bool_decide_eq_true_2 (a ∈ p ++ m ++ q)) by done. by apply shifted_in_steps; [apply K0 | apply K1].
  - rewrite !bool_decide_eq_false_2; [done | set_solver | set_solver | by intros H%K2].
Qed.

Lemma adjust_extents_run {U} (w : ext_world U) b0 b1 g size pos from to amount :
  state_ok w b0 b1 -> gap_move g size pos from to amount ->
  (forall a, a ∈ b0 -> outside_gap g size (extent_start (ext_at (ew_extents w) a)) /\
    outside_gap g size (extent_end (ext_at (ew_extents w) a))) ->
  (forall soe, ew_soe w = Some soe -> soe_pos soe < 0 \/ outside_gap g size (soe_pos soe)) ->
  exists w', adjust_extents from to amount w = Some (tt, w') /\ state_ok w' b0 b1 /\
    shifted_extents (from := from) (to := to) (amount := amount) (ew_extents w) (ew_extents w') b0.
Proof.
  intros [[Hl Hs] Hat] Hmove Hout Hpos. unfold adjust_extents, buffer_or_string_stack_of_extents, on_list, gets, lift, modify.
  cbv beta iota delta [bind]. rewrite (lists_num _ _ _ _ Hl). destruct (Z.eqb_spec (zlen b0) 0) as [E | E].
  { destruct b0; [| revert E; lens; lia]. exists w. split_and!; [done | by split; [split |] |].
    intros a. by rewrite bool_decide_eq_false_2 by set_solver. }
  destruct (both_ends_adjusted _ _ _ _ _ _ _ _ _ _ Hmove Hl) as (n0 & n1 & es1 & es2 & E0 & E1 & R1 & R2 & Hsh).
  rewrite (lists_num _ _ _ _ Hl) in R1, R2.
  rewrite E0. cbv beta iota. rewrite E1. cbv beta iota. rewrite R1. cbv beta iota. cbn [ew_extents set_extents]. rewrite R2.
  cbv beta iota. cbn [ew_soe set_extents]. clear E0 E1 R1 R2.
  assert (lists es2 (ew_list w) b0 b1) as Hl2 by (by eapply shifted_lists).
  assert (forall a, attached es2 b0 a) as Hat2.
  { intros a e He. rewrite Hsh in He. case_bool_decide as Ha; [| by apply Hat].
    destruct (lists_each _ _ _ _ _ Hl Ha) as [Hd _]. destruct (shifted_at _ _ _ _ Hsh Ha Hd) as [_ Ee].
    pose proof (lists_each _ _ _ _ _ Hl2 Ha) as [_ Hb]. rewrite Ee in Hb. destruct Hd as [e0 He0].
    rewrite He0 in He. injection He as <-. rewrite (ext_at_Some _ _ _ He0) in Hb. split; [lia | done]. }
  destruct (ew_soe w) as [soe |] eqn:Es.
  - pose proof (shifted_lies_over Hmove _ _ _ _ _ _ _ Hl Hsh Hout (Hpos _ eq_refl) (Hs _ eq_refl)) as Ho.
    destruct (soe_pos soe >=? 0); (eexists; split_and!; [done | | exact Hsh]);
      (split; [split; [exact Hl2 |] | exact Hat2]); cbn; rewrite Es; cbn; by intros ? [= <-].
  - eexists. split_and!; [done | | exact Hsh]. split; [split; [exact Hl2 |] | exact Hat2]. cbn. by rewrite Es.
Qed.

(** The gap moves to [pos], as far as extents go: [gap_left] or [gap_right]. *)
Definition text_with_gap_at (t : buffer_text) (pos : Z) : buffer_text :=
  mk_text (t_mem t) pos (t_z t) (t_gap_size t) (t_end_gap_size t) (t_modiff t) (t_save_modiff t) (t_changes t).

Definition move_the_gap {U} (pos : Z) : X U unit :=
  t ← gets ew_text;
  (if pos <? t_gpt t then adjust_extents pos (t_gpt t) (t_gap_size t)
   else adjust_extents (t_gpt t + t_gap_size t) (pos + t_gap_size t) (- t_gap_size t));;
  modify (fun w => mk_ew (text_with_gap_at t pos) (ew_extents w) (ew_list w) (ew_soe w) (ew_recorded w) (ew_closure w)).

#[export] Instance outside_gap_dec g size x : Decision (outside_gap g size x).
Proof. unfold outside_gap. apply _. Defined.

Lemma shifted_bytind g size pos from to amount x :
  gap_move g size pos from to amount -> outside_gap g size x ->
  (if shifted from to amount x >? pos then shifted from to amount x - size else shifted from to amount x) =
    (if x >? g then x - size else x).
Proof. unfold gap_move, outside_gap, shifted. zdec; lia. Qed.

(** When the gap moves, the ends of every extent of the buffer go with the characters
    they are at, out of the way of the gap; the lists of the extents are not touched and are
    still in order, and the stack of extents still holds what overlaps its position. *)
Theorem extents_go_with_the_gap {U} (w : ext_world U) b0 b1 pos :
  state_ok w b0 b1 -> 1 <= t_gpt (ew_text w) -> 1 <= pos -> 0 <= t_gap_size (ew_text w) -> pos <> t_gpt (ew_text w) ->
  let out x := outside_gap (t_gpt (ew_text w)) (t_gap_size (ew_text w)) x in
  (forall a, a ∈ b0 -> out (extent_start (ext_at (ew_extents w) a)) /\ out (extent_end (ext_at (ew_extents w) a))) ->
  (forall soe, ew_soe w = Some soe -> soe_pos soe < 0 \/ out (soe_pos soe)) ->
  exists w', move_the_gap pos w = Some (tt, w') /\ state_ok w' b0 b1 /\ t_gpt (ew_text w') = pos /\
    forall a, a ∈ b0 -> forall endp,
      memind_to_bytind (ew_text w') (extent_endpoint (ext_at (ew_extents w') a) endp) =
        memind_to_bytind (ew_text w) (extent_endpoint (ext_at (ew_extents w) a) endp) /\
      outside_gap pos (t_gap_size (ew_text w)) (extent_endpoint (ext_at (ew_extents w') a) endp).
Proof.
  intros Hw Hg Hp Hs Hne out Hout Hpos.
  set (g := t_gpt (ew_text w)) in *. set (size := t_gap_size (ew_text w)) in *.
  assert (exists from to amount, gap_move g size pos from to amount /\
    (if pos <? g then @adjust_extents U pos g size else adjust_extents (g + size) (pos + size) (- size)) =
      adjust_extents from to amount) as (from & to & amount & Hmove & E).
  { unfold gap_move. destruct (Z.ltb_spec pos g); do 3 eexists; (split; [| reflexivity]); lia. }
  destruct (adjust_extents_run w b0 b1 g size pos from to amount Hw Hmove Hout Hpos) as (w1 & E1 & Hw1 & Hsh).
  unfold move_the_gap, gets. cbv beta iota delta [bind]. fold g size. rewrite E, E1. eexists. split_and!; [done | | done |].
  - destruct Hw1 as [[? ?] ?]. by split.
  - intros a Ha endp. pose proof (lists_each _ _ _ _ _ (he_lists _ _ _ (so_holds _ _ _ Hw)) Ha) as [Hd _].
    cbn [ew_extents ew_text]. destruct (shifted_at _ _ _ _ Hsh Ha Hd) as [_ ->].
    assert (extent_endpoint (shift_extent from to amount (ext_at (ew_extents w) a)) endp =
      shifted from to amount (extent_endpoint (ext_at (ew_extents w) a) endp)) as -> by (by destruct endp).
    assert (out (extent_endpoint (ext_at (ew_extents w) a) endp)) as Ho by (destruct endp; by apply Hout).
    split; [| by eapply shifted_outside]. unfold memind_to_bytind. cbn [t_gpt t_gap_size text_with_gap_at].
    fold g size. by apply shifted_bytind.
Qed.

Definition ops_before_the_move : list extent_op :=
  [MakeExtent; MakeExtent; MakeExtent; SetEnds 1 3 5; SetEnds 2 5 26; SetEnds 3 4 40; MoveStack 26].

Lemma extents_go_with_the_gap_witness :
  exists (w : ext_world unit) b0 b1 w', perform_all ops_before_the_move (no_extents (some_text 6 10) tt) = Some (tt, w) /\
    state_ok w b0 b1 /\ length b0 = 3%nat /\ move_the_gap 3 w = Some (tt, w') /\ state_ok w' b0 b1 /\ t_gpt (ew_text w') = 3 /\
    forall a, a ∈ b0 -> forall endp,
      memind_to_bytind (ew_text w') (extent_endpoint (ext_at (ew_extents w') a) endp) =
        memind_to_bytind (ew_text w) (extent_endpoint (ext_at (ew_extents w) a) endp) /\
      outside_gap 3 (t_gap_size (ew_text w)) (extent_endpoint (ext_at (ew_extents w') a) endp).
Proof.
  destruct (perform_all_run ops_before_the_move (no_extents (some_text 6 10) tt) [] []) as (w & b0 & b1 & E & Hw & _);
    [apply no_extents_ok | vm_compute; reflexivity |].
  pose proof (f_equal (fmap snd) E) as Ew. vm_compute in Ew.
  assert (map_Forall (fun _ e => outside_gap 6 10 (extent_start e) /\ outside_gap 6 10 (extent_end e)) (ew_extents w)) as Hall
    by (injection Ew as <-; apply (bool_decide_unpack _); vm_compute; exact I).
  assert (length b0 = 3%nat) as Hlen.
  { apply Nat2Z.inj. rewrite <- (lists_num _ _ _ _ (he_lists _ _ _ (so_holds _ _ _ Hw))). injection Ew as <-. reflexivity. }
  destruct (extents_go_with_the_gap w b0 b1 3 Hw) as (w' & H1 & H2 & H3 & H4);
    [injection Ew as <-; vm_compute; congruence .. | | |].
  - intros a Ha. destruct (lists_each _ _ _ _ _ (he_lists _ _ _ (so_holds _ _ _ Hw)) Ha) as [[e He] _].
    rewrite (ext_at_Some _ _ _ He). pose proof (Hall a e He). injection Ew as <-. done.
  - intros soe Es. injection Ew as <-. cbn in Es. injection Es as <-. right. right. cbn. lia.
  - exists w, b0, b1, w'. split_and!; [exact E | exact Hw | exact Hlen | exact H1 | exact H2 | exact H3 |].
    intros a Ha endp. destruct (H4 a Ha endp) as [H5 H6]. split; [exact H5 | exact H6].
Defined.

(** ** A stack of extents that is left behind *)

(** [adjust_extents] leaves when there are no extents, and then the stack of extents, which
    may be over any position, is not moved with the gap: it may come to be inside of it. *)
Section Stale.
Let U := list positive.

Definition closed_everywhere : Z := Z.lor ME_ALL_EXTENTS_CLOSED ME_END_CLOSED.
Definition extents_at (pos : Z) : X U unit :=
  map_extents_bytind adjust_extents_for_deletion_mapper closed_everywhere 10 pos pos None.

(** An extent is made and looked for, and detached before the gap moves, or after. *)
Definition stale_run (detach_first : bool) : X U unit :=
  perform_all [MakeExtent; SetEnds 1 3 9; MoveStack 10];;
  (if detach_first then perform (Detach 1);; move_the_gap 5 else move_the_gap 5;; perform (Detach 1));;
  perform (SetEnds 1 3 5);;
  move_the_gap 2;;
  extents_at 5.
End Stale.

(** An example: the extents at a position, looked for after the same operations in two
    orders: the extent from 3 to 5 is found at 5 when the extent was detached after the first move of
    the gap, and missed when it was detached before, since [adjust_extents] leaves the
    position of the stack of extents alone when the buffer has no extents. *)
Example stale_stack_misses_an_extent :
  (fun r => (ew_closure r.2, (fun e => extent_in_region_p (ew_text r.2) e 5 5 closed_everywhere) <$> ew_extents r.2 !! 1%positive))
    <$> stale_run false (no_extents (some_text 30 10) []) = Some ([1%positive], Some (Some true)) /\
  (fun r => (ew_closure r.2, (fun e => extent_in_region_p (ew_text r.2) e 5 5 closed_everywhere) <$> ew_extents r.2 !! 1%positive))
    <$> stale_run true (no_extents (some_text 30 10) []) = Some ([], Some (Some true)).
Proof. split; vm_compute; reflexivity. Qed.
