(* ===== verification/ExtentMap.v ===== *)
(** * Mapping over extents visits each extent of the region, once and in order *)

From Stdlib Require Import Sorting.Sorted.
From S2P Require Import Prelude Buffer Insdel GapArray ExtentList Extents ExtentTheory ExtentState ExtentAdjust.

#[local] Open Scope ext_scope.

(** ** Regions *)

(** The flags that are defined. *)
Definition flags_known (flags : Z) : bool :=
  existsb (Z.eqb (Z.land flags ME_ALL_EXTENTS_MASK)) [0; 4; 8; 12; 16] &&
  existsb (Z.eqb (Z.land flags ME_IN_REGION_MASK)) [0; 32; 64; 96; 128].

(** A memory index of which the double is an [int], so that its endpoint indices are right. *)
Definition fits (x : Z) : Prop := 0 <= x < 2 ^ 30.
Definition extent_fits (e : extent) : Prop := fits (extent_start e) /\ fits (extent_end e).
Definition region_fits (t : buffer_text) (from to : Z) : Prop := fits (bytind_to_memind t from) /\ fits (bytind_to_memind t to).

(** Where the text and its gap are small, all places of the text fit. *)
Lemma valid_memind_fits t x : text_wf t -> t_z t + t_gap_size t < 2 ^ 30 -> valid_memind_p t x = true -> fits x.
Proof. intros []. unfold valid_memind_p, fits. ztest; lia || done. Qed.

Lemma region_fits_small t from to :
  0 <= t_gap_size t -> t_z t + t_gap_size t < 2 ^ 30 -> 1 <= from <= t_z t -> 1 <= to <= t_z t -> region_fits t from to.
Proof. unfold region_fits, fits, bytind_to_memind. intros. zdec; lia. Qed.

Lemma startind_fits x open : fits x -> memind_to_startind x open = 2 * x + Z.b2z open.
Proof.
  intros [H1 H2]. unfold memind_to_startind. rewrite Z.shiftl_mul_pow2 by lia. change (2 ^ 1) with 2.
  rewrite to_int_id by (destruct open; cbn; lia). lia.
Qed.

Lemma endind_fits x open : fits x -> memind_to_endind x open = 2 * x - Z.b2z open.
Proof.
  intros [H1 H2]. unfold memind_to_endind. rewrite Z.shiftl_mul_pow2 by lia. change (2 ^ 1) with 2.
  rewrite to_int_id by (destruct open; cbn; lia). lia.
Qed.

(** *** What it is to be in a region *)

(** A line of points: [2 * x] is the place with memory index [x], and [2 * x + 1] lies
    between this place and the next. *)
Record span := mk_span { sp_start : Z; sp_start_open : bool; sp_end : Z; sp_end_open : bool }.

Definition from_start (s : span) (p : Z) : Prop := if sp_start_open s then 2 * sp_start s < p else 2 * sp_start s <= p.
Definition up_to_end (s : span) (p : Z) : Prop := if sp_end_open s then p < 2 * sp_end s else p <= 2 * sp_end s.
Definition has (s : span) (p : Z) : Prop := from_start s p /\ up_to_end s p.
Definition first_point (s : span) (p : Z) : Prop := from_start s p /\ ~ from_start s (p - 1).
Definition last_point (s : span) (p : Z) : Prop := up_to_end s p /\ ~ up_to_end s (p + 1).

(** An extent has the open ends that the flags, or else its own, ask for; an empty one is
    closed, and so is an empty region. *)
Definition extent_span (flags : Z) (e : extent) : span :=
  let '(so, eo) :=
    if extent_start e =? extent_end e then (false, false) else
    match Z.land flags ME_ALL_EXTENTS_MASK with
    | 4 => (false, false) | 8 => (true, true) | 12 => (false, true) | 16 => (true, false)
    | _ => (extent_start_open_p e, extent_end_open_p e)
    end in
  mk_span (extent_start e) so (extent_end e) eo.
Definition region_span (t : buffer_text) (flags from to : Z) : span :=
  mk_span (bytind_to_memind t from) (flag flags ME_START_OPEN && negb (from =? to))
    (bytind_to_memind t to) (negb (flag flags ME_END_CLOSED) && negb (from =? to)).

(** The extent and the region have a point in common; and what the flags ask for besides. *)
Definition in_region (t : buffer_text) (flags from to : Z) (e : extent) : Prop :=
  let x := extent_span flags e in
  let r := region_span t flags from to in
  (exists p, has x p /\ has r p) /\
  let also :=
    match Z.land flags ME_IN_REGION_MASK with
    | 32 => exists p, first_point x p /\ has r p
    | 64 => exists p, last_point x p /\ has r p
    | 96 => forall p, has x p -> has r p
    | 128 => exists p, (first_point x p \/ last_point x p) /\ has r p
    | _ => True
    end in
  if flag flags ME_NEGATE_IN_REGION then ~ also else also.

(** The points of a span are those from one to another. *)
Lemma span_points s :
  let a := 2 * sp_start s + Z.b2z (sp_start_open s) in
  let b := 2 * sp_end s - Z.b2z (sp_end_open s) in
  (forall p, has s p <-> a <= p <= b) /\ (forall p, first_point s p <-> p = a) /\ (forall p, last_point s p <-> p = b).
Proof.
  unfold has, first_point, last_point, from_start, up_to_end. destruct (sp_start_open s), (sp_end_open s); cbn; split_and!; lia.
Qed.

(** The extents' and the region's points as the code compares them. *)
Lemma in_region_points t flags from to e a b c d :
  (forall p, has (extent_span flags e) p <-> a <= p <= b) -> (forall p, first_point (extent_span flags e) p <-> p = a) ->
  (forall p, last_point (extent_span flags e) p <-> p = b) -> (forall p, has (region_span t flags from to) p <-> c <= p <= d) ->
  a <= b -> c <= d ->
  in_region t flags from to e <->
    a <= d /\ c <= b /\
    let also :=
      match Z.land flags ME_IN_REGION_MASK with
      | 32 => c <= a /\ a <= d
      | 64 => c <= b /\ b <= d
      | 96 => c <= a /\ b <= d
      | 128 => c <= a /\ a <= d \/ c <= b /\ b <= d
      | _ => True
      end in
    if flag flags ME_NEGATE_IN_REGION then ~ also else also.
Proof.
  intros Hx Hf Hl Hr Hab Hcd. unfold in_region. cbv zeta. set (k := Z.land flags ME_IN_REGION_MASK).
  assert ((exists p, has (extent_span flags e) p /\ has (region_span t flags from to) p) <-> a <= d /\ c <= b) as ->.
  { split; [intros (p & H1%Hx & H2%Hr); lia | intros H]. exists (Z.max a c). rewrite Hx, Hr. lia. }
  assert ((exists p, first_point (extent_span flags e) p /\ has (region_span t flags from to) p) <-> c <= a /\ a <= d) as E1.
  { split; [intros (p & ->%Hf & H2%Hr); lia | intros H; exists a; by rewrite Hf, Hr]. }
  assert ((exists p, last_point (extent_span flags e) p /\ has (region_span t flags from to) p) <-> c <= b /\ b <= d) as E2.
  { split; [intros (p & ->%Hl & H2%Hr); lia | intros H; exists b; by rewrite Hl, Hr]. }
  assert ((forall p, has (extent_span flags e) p -> has (region_span t flags from to) p) <-> c <= a /\ b <= d) as E3.
  { split; [intros H; assert (has (region_span t flags from to) a /\ has (region_span t flags from to) b) as [?%Hr ?%Hr]
      by (split; apply H, Hx; lia); lia | intros H p ?%Hx; apply Hr; lia]. }
  assert ((exists p, (first_point (extent_span flags e) p \/ last_point (extent_span flags e) p) /\ has (region_span t flags from to) p) <->
    c <= a /\ a <= d \/ c <= b /\ b <= d) as E4.
  { split; [intros (p & [->%Hf | ->%Hl] & H2%Hr); lia |]. intros [H | H]; [exists a | exists b]; rewrite Hf, Hl, Hr; tauto. }
  match goal with |- (_ /\ _) /\ ?P <-> _ /\ _ /\ ?Q => enough (P <-> Q) by tauto end.
  destruct (flag flags ME_NEGATE_IN_REGION).
  - apply not_iff_compat. repeat (case_match; try done).
  - repeat (case_match; try done).
Qed.

Section Regions.
Variable t : buffer_text.
Hypothesis Hgap : 0 <= t_gap_size t.

Lemma open_ends_known e flags : flags_known flags = true -> exists so eo, open_ends e flags = Some (so, eo).
Proof.
  unfold flags_known, open_ends. intros [H _]%andb_prop. cbn [existsb] in H.
  destruct (extent_start e =? extent_end e); [eauto |].
  destruct (Z.land flags ME_ALL_EXTENTS_MASK =? 0); [eauto |]. cbn [orb] in H.
  change ME_ALL_EXTENTS_CLOSED with 4. change ME_ALL_EXTENTS_OPEN with 8.
  change ME_ALL_EXTENTS_CLOSED_OPEN with 12. change ME_ALL_EXTENTS_OPEN_CLOSED with 16.
  repeat (destruct (Z.eqb _ _) in H |- *; [eauto |]; cbn [orb] in H). done.
Qed.

Lemma in_region_known e from to flags : flags_known flags = true -> exists b, extent_in_region_p t e from to flags = Some b.
Proof.
  intros Hf. destruct (open_ends_known e flags Hf) as (so & eo & E). unfold extent_in_region_p. rewrite E.
  cbn [mbind option_bind]. destruct ((_ >? _) || _); [eauto |].
  unfold flags_known in Hf. apply andb_prop in Hf as [_ H]. cbn [existsb] in H.
  destruct (Z.land flags ME_IN_REGION_MASK =? 0); [eauto |]. cbn [orb] in H.
  change ME_START_IN_REGION with 32. change ME_END_IN_REGION with 64.
  change ME_START_AND_END_IN_REGION with 96. change ME_START_OR_END_IN_REGION with 128.
  repeat (destruct (Z.eqb _ _) in H |- *; [eauto |]; cbn [orb] in H). done.
Qed.

(** An extent of the region overlaps it, both taken with their ends. *)
Lemma in_region_overlaps e from to flags :
  extent_fits e -> region_fits t from to ->
  extent_in_region_p t e from to flags = Some true ->
  extent_start e <= bytind_to_memind t to /\ bytind_to_memind t from <= extent_end e.
Proof.
  intros He Hr. unfold extent_in_region_p. destruct (open_ends e flags) as [[so eo] |]; [| done]. cbn [mbind option_bind].
  rewrite !startind_fits, !endind_fits by (apply He || apply Hr).
  destruct ((_ >? _) || _) eqn:E; [done |]. intros _. apply orb_false_elim in E as [E1 E2].
  revert E1 E2. destruct so, eo, (flag flags ME_START_OPEN && negb (from =? to)),
    (negb (flag flags ME_END_CLOSED || (from =? to))); cbn [Z.b2z]; zdec; lia.
Qed.

Definition start_in_region (flags : Z) : bool :=
  ((Z.land flags ME_IN_REGION_MASK =? ME_START_IN_REGION) || (Z.land flags ME_IN_REGION_MASK =? ME_START_AND_END_IN_REGION)) &&
  negb (flag flags ME_NEGATE_IN_REGION).
Definition end_in_region (flags : Z) : bool :=
  (Z.land flags ME_IN_REGION_MASK =? ME_END_IN_REGION) && negb (flag flags ME_NEGATE_IN_REGION).

Lemma in_region_start e from to flags :
  extent_fits e -> region_fits t from to ->
  extent_in_region_p t e from to flags = Some true -> start_in_region flags = true ->
  bytind_to_memind t from <= extent_start e.
Proof.
  intros He Hr. unfold extent_in_region_p, start_in_region. destruct (open_ends e flags) as [[so eo] |]; [| done]. cbn [mbind option_bind].
  intros H [Hf Hn]%andb_prop. apply negb_true_iff in Hn. rewrite Hn in H. revert H.
  rewrite !startind_fits, !endind_fits by (apply He || apply Hr).
  destruct ((_ >? _) || _) eqn:E; [done |]. apply orb_prop in Hf as [->%Z.eqb_eq | ->%Z.eqb_eq]; cbn;
    destruct so, eo, (flag flags ME_START_OPEN && negb (from =? to)),
      (negb (flag flags ME_END_CLOSED || (from =? to))); cbn [Z.b2z]; intros [= H%andb_prop]; destruct H as [H _]; revert H; zdec; lia || done.
Qed.

Lemma in_region_end e from to flags :
  extent_fits e -> region_fits t from to ->
  extent_in_region_p t e from to flags = Some true -> end_in_region flags = true ->
  extent_end e <= bytind_to_memind t to.
Proof.
  intros He Hr. unfold extent_in_region_p, end_in_region. destruct (open_ends e flags) as [[so eo] |]; [| done]. cbn [mbind option_bind].
  intros H [Hf Hn]%andb_prop. apply negb_true_iff in Hn. rewrite Hn in H. apply Z.eqb_eq in Hf. rewrite Hf in H. revert H.
  rewrite !startind_fits, !endind_fits by (apply He || apply Hr).
  destruct ((_ >? _) || _) eqn:E; [done |]. cbn.
  destruct so, eo, (flag flags ME_START_OPEN && negb (from =? to)),
    (negb (flag flags ME_END_CLOSED || (from =? to))); cbn [Z.b2z]; intros [= H%andb_prop]; destruct H as [_ H]; revert H; zdec; lia || done.
Qed.

Lemma bytind_to_memind_mono x y : x <= y -> bytind_to_memind t x <= bytind_to_memind t y.
Proof. unfold bytind_to_memind. zdec; lia. Qed.

(** The code's test, where the indices fit. *)
Lemma in_region_iff e from to flags :
  flags_known flags = true -> extent_fits e -> region_fits t from to -> extent_start e <= extent_end e -> from <= to ->
  extent_in_region_p t e from to flags = Some true <-> in_region t flags from to e.
Proof.
  intros Hf He Hr Hse Hft. pose proof (span_points (extent_span flags e)) as (X1 & X2 & X3).
  pose proof (span_points (region_span t flags from to)) as (R1 & _).
  assert (exists so eo, open_ends e flags = Some (so, eo) /\ extent_span flags e = mk_span (extent_start e) so (extent_end e) eo /\
    (extent_start e = extent_end e -> so = false /\ eo = false)) as (so & eo & Eo & Es & Hempty).
  { unfold flags_known in Hf. apply andb_prop in Hf as [Hf _]. unfold open_ends, extent_span. destruct (Z.eqb_spec (extent_start e) (extent_end e)); [by do 2 eexists |].
    cbn [existsb] in Hf. generalize (Z.land flags ME_ALL_EXTENTS_MASK) as k, Hf. clear Hf. intros k Hf.
    assert (k = 0 \/ k = 4 \/ k = 8 \/ k = 12 \/ k = 16) as Hk by (revert Hf; ztest; lia || done).
    destruct Hk as [-> | [-> | [-> | [-> | ->]]]]; do 2 eexists; (split_and!; [reflexivity | reflexivity | done]). }
  rewrite Es in X1, X2, X3. cbn [sp_start sp_start_open sp_end sp_end_open] in X1, X2, X3. cbv zeta in X1, X2, X3, R1.
  rewrite <- Es in X1, X2, X3.
  rewrite (in_region_points t flags from to e _ _ _ _ X1 X2 X3 R1).
  2: { destruct (Z.eqb_spec (extent_start e) (extent_end e)) as [E | E]; [destruct (Hempty E) as [-> ->]; cbn; lia |].
       destruct so, eo; cbn; lia. }
  2: { unfold region_span. cbn. pose proof (bytind_to_memind_mono from to Hft). destruct (Z.eqb_spec from to) as [-> | E].
       - rewrite !andb_false_r. cbn. lia.
       - assert (bytind_to_memind t from < bytind_to_memind t to) by (unfold bytind_to_memind; zdec; lia).
         destruct (flag flags ME_START_OPEN), (flag flags ME_END_CLOSED); cbn; lia. }
  unfold extent_in_region_p. rewrite Eo. cbn [mbind option_bind].
  rewrite !startind_fits, !endind_fits by (apply He || apply Hr).
  unfold region_span. cbn [sp_start sp_start_open sp_end sp_end_open]. rewrite <- negb_orb.
  set (A := 2 * extent_start e + _). set (B := 2 * extent_end e - _). set (C := 2 * bytind_to_memind t from + _).
  set (D := 2 * bytind_to_memind t to - _). clearbody A B C D. clear X1 X2 X3 R1 He Hr Es Eo Hempty.
  unfold flags_known in Hf. apply andb_prop in Hf as [_ Hf]. cbn [existsb] in Hf.
  generalize (Z.land flags ME_IN_REGION_MASK) as k, Hf. clear Hf. intros k Hf.
  assert (k = 0 \/ k = 32 \/ k = 64 \/ k = 96 \/ k = 128) as Hk by (revert Hf; ztest; lia || done).
  destruct (flag flags ME_NEGATE_IN_REGION), Hk as [-> | [-> | [-> | [-> | ->]]]]; cbn; ztest; cbn;
    (split; [intros [=] || intros _ | intros]); try done; try lia; repeat f_equal; try lia; tauto || lia.
Qed.

Lemma memind_back x : bytind_to_memind t (memind_to_bytind t (bytind_to_memind t x)) = bytind_to_memind t x.
Proof. unfold bytind_to_memind, memind_to_bytind. zdec; lia. Qed.

Lemma bytind_back x : memind_to_bytind t (bytind_to_memind t x) = x.
Proof. unfold bytind_to_memind, memind_to_bytind. zdec; lia. Qed.

End Regions.

(** ** The loop *)

(** What a function that only looks does with the extents of a list, until it wants to stop. *)
Fixpoint visit {U} (f : positive -> U -> bool * U) (l : list positive) (u : U) : bool * U :=
  match l with
  | [] => (false, u)
  | a :: l => let '(stop, u) := f a u in if stop then (true, u) else visit f l u
  end.

(** A function that only looks at the extents [es0], and keeps [inv] of its argument. *)
Definition looking {U} (fn : positive -> X U bool) (f : positive -> U -> bool * U) (es0 : extents) (inv : U -> Prop) : Prop :=
  forall a w, ew_extents w = es0 -> is_Some (es0 !! a) -> inv (ew_closure w) ->
    fn a w = Some ((f a (ew_closure w)).1, set_closure w (f a (ew_closure w)).2) /\ inv (f a (ew_closure w)).2.

Section Loop.
Context {U : Type}.
Variables (fn : positive -> X U bool) (f : positive -> U -> bool * U) (flags : Z).
Implicit Types (w : ext_world U).

Variable es0 : extents.
Variable inv : U -> Prop.
Hypothesis fn_looks : looking fn f es0 inv.
Hypothesis flags_ok : flags_known flags = true.

(** The extents that are shown to the function. *)
Definition selected w (from to : Z) (a : positive) : bool :=
  let e := ext_at (ew_extents w) a in
  negb (extent_internal_p e && negb (flag flags ME_INCLUDE_INTERNAL)) &&
  default false (extent_in_region_p (ew_text w) e from to flags).

Definition select w (from to : Z) (l : list positive) : list positive :=
  List.filter (selected w from to) l.

Definition the_list (soe_stage : bool) w : option Extent_List :=
  if soe_stage then soe_extents <$> ew_soe w else Some (ew_list w).

Lemma mapped_list_run soe_stage w el u :
  the_list soe_stage w = Some el -> mapped_list soe_stage (set_closure w u) = Some (el, set_closure w u).
Proof.
  unfold the_list, mapped_list, buffer_or_string_stack_of_extents_force, gets. destruct soe_stage.
  - destruct (ew_soe w) as [soe |] eqn:E; [| done]. intros [= <-]. cbv beta iota delta [bind]. cbn [ew_soe set_closure]. by rewrite E.
  - by intros [= <-].
Qed.

Lemma set_closure_twice w u v : set_closure (set_closure w u) v = set_closure w v.
Proof. done. Qed.

Lemma map_loop_run soe_stage endp w el l0 l1 st en :
  ew_extents w = es0 -> the_list soe_stage w = Some el -> lists (ew_extents w) el l0 l1 ->
  let from := memind_to_bytind (ew_text w) st in let to := memind_to_bytind (ew_text w) en in
  forall m p q fuel u,
  order_of endp l0 l1 = p ++ m ++ q -> (length (m ++ q) < fuel)%nat -> inv u ->
  Forall (fun a => extent_endpoint (ext_at (ew_extents w) a) endp <= en) m ->
  Forall (fun a => en < extent_endpoint (ext_at (ew_extents w) a) endp) q ->
  let r := visit f (select w from to m) u in
  map_loop fn flags fuel soe_stage endp None None (zlen p) st en None (set_closure w u) =
    Some (r.1, None, (st, en), set_closure w r.2) /\ inv r.2.
Proof.
  intros Hes Hel Hl from to m p q fuel. remember (m ++ q) as l eqn:El. revert fuel m p q El.
  induction l as [| a l IH]; intros [| fuel] m p q El u E Hf Hu Hm Hq; cbn [length] in Hf; try lia.
  - symmetry in El. apply app_eq_nil in El as [-> ->]. cbn [map_loop].
    rewrite (then_run _ _ _ _ _ (mapped_list_run _ _ _ u Hel)). rewrite (then_run _ _ _ _ _ eq_refl).
    rewrite (lists_num _ _ _ _ Hl), <- (lists_length _ _ _ _ endp Hl), E, app_nil_r.
    rewrite (proj2 (Z.geb_le _ _)) by lia. done.
  - cbn [map_loop]. rewrite (then_run _ _ _ _ _ (mapped_list_run _ _ _ u Hel)). rewrite (then_run _ _ _ _ _ eq_refl).
    rewrite (lists_num _ _ _ _ Hl), <- (lists_length _ _ _ _ endp Hl), E.
    destruct (Z.geb_spec (zlen p) (zlen (p ++ a :: l))) as [Hge | _]; [revert Hge; do 2 lens; lia |].
    unfold lift at 1. rewrite (lists_at _ _ _ _ endp p a l Hl E). rewrite (then_run _ _ _ _ _ eq_refl).
    rewrite (then_run _ _ _ _ _ eq_refl). cbv zeta.
    assert (a ∈ l0) as Ha by (apply (lists_in _ _ _ _ endp a Hl); rewrite E; set_solver).
    destruct (lists_each _ _ _ _ _ Hl Ha) as [[e He] _]. rewrite (then_run _ _ _ _ _ (the_extent_run a (set_closure w u) e He)).
    rewrite bool_decide_eq_false_2, orb_false_r by done.
    replace (zlen p + 1) with (zlen (p ++ [a])) by (lens; lia).
    destruct m as [| b m].
    + (* behind the range *)
      cbn [app] in El. subst q. apply Forall_cons in Hq as [Hq1 Hq]. rewrite (ext_at_Some _ _ _ He) in Hq1.
      cbn [select List.filter visit fst snd].
      destruct (extent_internal_p e && negb (flag flags ME_INCLUDE_INTERNAL)).
      * apply (IH fuel [] (p ++ [a]) l); [done | by rewrite E, <- app_assoc | lia | done | constructor | done].
      * do 2 rewrite (then_run _ _ _ _ _ eq_refl). cbv beta iota.
        destruct (Z.gtb_spec (extent_endpoint e endp) en); [done | lia].
    + injection El as -> ->. apply Forall_cons in Hm as [Hm1 Hm]. rewrite (ext_at_Some _ _ _ He) in Hm1.
      assert (order_of endp l0 l1 = (p ++ [b]) ++ m ++ q) as E' by (by rewrite <- app_assoc).
      unfold select, selected. cbn [List.filter]. rewrite (ext_at_Some _ _ _ He).
      destruct (extent_internal_p e && negb (flag flags ME_INCLUDE_INTERNAL)); cbn [negb andb].
      * apply (IH fuel m (p ++ [b]) q); [done | exact E' | lia | done | done | done].
      * do 2 rewrite (then_run _ _ _ _ _ eq_refl). cbv beta iota.
        destruct (Z.gtb_spec (extent_endpoint e endp) en); [lia |].
        rewrite (then_run _ _ _ _ _ eq_refl). cbn [ew_text set_closure].
        destruct (in_region_known (ew_text w) e from to flags flags_ok) as [b' Eb]. fold from to.
        unfold lift at 1. rewrite Eb. rewrite (then_run _ _ _ _ _ eq_refl). cbn [default from_option id]. destruct b'.
        -- destruct (fn_looks b (set_closure w u) Hes ltac:(rewrite <- Hes; by eexists) Hu) as [Efn Hu1].
           rewrite (then_run _ _ _ _ _ Efn). cbn [ew_closure set_closure] in Hu1 |- *.
           rewrite set_closure_twice. cbn [visit]. destruct (f b u) as [stop u1]. cbn [fst snd] in *. destruct stop; [done |].
           apply (IH fuel m (p ++ [b]) q); [done | exact E' | lia | done | done | done].
        -- apply (IH fuel m (p ++ [b]) q); [done | exact E' | lia | done | done | done].
Qed.

(** ** Both stages *)

Lemma visit_app l l' u :
  visit f (l ++ l') u = (let '(stop, u') := visit f l u in if stop then (true, u') else visit f l' u').
Proof.
  revert u. induction l as [| a l IH]; intros u; cbn [app visit]; [done |].
  destruct (f a u) as [[] u']; [done | apply IH].
Qed.

Lemma in_order_filter es endp (P : positive -> bool) l : in_order es endp l -> in_order es endp (List.filter P l).
Proof.
  unfold in_order. induction 1 as [| a l Hs IH Ha]; cbn; [constructor |]. destruct (P a); [| done].
  constructor; [done |]. apply Forall_forall. intros b [Hb _]%list_elem_of_In%filter_In.
  apply list_elem_of_In in Hb. by eapply Forall_forall in Ha.
Qed.

Lemma select_in w from to l a : a ∈ select w from to l <-> a ∈ l /\ selected w from to a = true.
Proof. unfold select. by rewrite list_elem_of_In, filter_In, <- list_elem_of_In. Qed.

(** A part of the list is cut where the ends get behind the region. *)
Lemma cut_behind es el l0 l1 endp p r en :
  lists es el l0 l1 -> order_of endp l0 l1 = p ++ r ->
  exists m q, r = m ++ q /\ Forall (fun a => extent_endpoint (ext_at es a) endp <= en) m /\
    Forall (fun a => en < extent_endpoint (ext_at es a) endp) q.
Proof.
  intros Hl E. destruct (lists_locate _ _ _ _ endp (en + 1) Hl) as (l & l' & E' & _ & H1 & H2).
  rewrite E in E'. apply app_eq_inv in E' as [(k & -> & ->) | (k & -> & ->)].
  - exists [], r. split_and!; [done | constructor |]. apply Forall_app in H2 as [_ H2]. eapply Forall_impl; [exact H2 |]. cbn. lia.
  - exists k, l'. apply Forall_app in H1 as [_ H1]. split_and!; [done | |]; (eapply Forall_impl; [eassumption |]; cbn; lia).
Qed.

Lemma map_stage_run fuel soe_stage endp pos st en w :
  flag flags ME_MIGHT_MODIFY_EXTENTS = false ->
  map_stage fn flags fuel soe_stage endp None pos st en None w =
    match map_loop fn flags fuel soe_stage endp None None pos st en None w with
    | Some (stop, after, r, w) => Some (stop, after, r, None, w)
    | None => None
    end.
Proof. intros Hf. unfold map_stage. rewrite Hf. unfold bind. by destruct (map_loop _ _ _ _ _ _ _ _ _ _ _ _) as [[[[? ?] ?] ?] |]. Qed.

Section Stages.
Variables (w : ext_world U) (b0 b1 : list positive) (from to : Z) (fuel : nat).
Hypothesis Hes : ew_extents w = es0.
Hypothesis Hw : holds_extents w b0 b1.
Hypothesis Hgap : 0 <= t_gap_size (ew_text w).
Hypothesis Hft : from <= to.
Hypothesis Hfuel : (length b0 < fuel)%nat.
Hypothesis Hmod : flag flags ME_MIGHT_MODIFY_EXTENTS = false.
Hypothesis Hrf : region_fits (ew_text w) from to.
Hypothesis Hxf : forall a, a ∈ b0 -> extent_fits (ext_at (ew_extents w) a).
Let st := bytind_to_memind (ew_text w) from.
Let en := bytind_to_memind (ew_text w) to.

Lemma select_back l : select w (memind_to_bytind (ew_text w) st) (memind_to_bytind (ew_text w) en) l = select w from to l.
Proof. subst st en. by rewrite !bytind_back. Qed.

Lemma selected_overlaps a :
  a ∈ b0 -> selected w from to a = true ->
  extent_start (ext_at (ew_extents w) a) <= en /\ st <= extent_end (ext_at (ew_extents w) a) /\
  (start_in_region flags = true -> st <= extent_start (ext_at (ew_extents w) a)) /\
  (end_in_region flags = true -> extent_end (ext_at (ew_extents w) a) <= en).
Proof.
  intros Ha%Hxf. unfold selected. intros [_ H]%andb_prop. destruct (extent_in_region_p _ _ _ _ _) as [[] |] eqn:E; try done.
  destruct (in_region_overlaps _ _ _ _ _ Ha Hrf E). split_and!; [done.. | |].
  - by apply (in_region_start _ _ _ _ _ Ha Hrf E).
  - by apply (in_region_end _ _ _ _ _ Ha Hrf E).
Qed.

(** The range stage from a place in the list of the buffer; what comes before it is not in
    the region, or has been shown. *)
Lemma range_stage endp p r u soe :
  (endp = true -> end_in_region flags = true) -> order_of endp b0 b1 = p ++ r -> inv u ->
  exists m, (forall a, a ∈ select w from to m <-> a ∈ select w from to r) /\
    (exists q, r = m ++ q) /\
    map_stage fn flags fuel false endp None (zlen p) st en None (set_closure (set_soe w soe) u) =
      Some ((visit f (select w from to m) u).1, None, (st, en), None,
            set_closure (set_soe w soe) (visit f (select w from to m) u).2).
Proof.
  intros He E Hu. pose proof (he_lists _ _ _ Hw) as Hl.
  destruct (cut_behind _ _ _ _ endp p r en Hl E) as (m & q & -> & Hm & Hq). exists m. split_and!; [| by exists q |].
  - intros a. rewrite !select_in, elem_of_app. split; [tauto |]. intros [[Ha | Ha] Hs]; [done |].
    pose proof (Forall_in a Hq Ha) as Hb. cbn in Hb. assert (a ∈ b0) as Hab by (apply (lists_in _ _ _ _ endp a Hl); rewrite E; set_solver).
    destruct (selected_overlaps a Hab Hs) as (H1 & _ & _ & H2).
    destruct endp; cbn in Hb; [specialize (H2 (He eq_refl)) |]; lia.
  - rewrite map_stage_run by done.
    destruct (map_loop_run false endp (set_soe w soe) (ew_list w) b0 b1 st en Hes eq_refl Hl m p q fuel u E) as [-> _];
      [| exact Hu | exact Hm | exact Hq |].
    + pose proof (lists_length _ _ _ _ endp Hl) as Hn. rewrite E in Hn. revert Hn. rewrite !length_app. lia.
    + cbn [ew_text set_soe]. change (select (set_soe w soe)) with (select w). by rewrite select_back.
Qed.

Hypothesis Hinv : inv (ew_closure w).

(** What is shown: each extent of the region once, in order. *)
Definition shows (endp : bool) (l : list positive) : Prop :=
  NoDup l /\ in_order (ew_extents w) endp l /\ forall a, a ∈ l <-> a ∈ b0 /\ selected w from to a = true.

Lemma nodup_select l : NoDup l -> NoDup (select w from to l).
Proof. intros H. apply NoDup_ListNoDup. apply List.NoDup_filter. by apply NoDup_ListNoDup. Qed.

Lemma same_closure soe : set_closure (set_soe w soe) (ew_closure w) = set_soe w soe.
Proof. done. Qed.

Lemma only_range endp soe :
  (endp = true -> end_in_region flags = true) ->
  (forall a, a ∈ b0 -> selected w from to a = true -> st <= extent_endpoint (ext_at (ew_extents w) a) endp) ->
  exists l stop, shows endp l /\
    map_stages fn flags fuel None st en None (false, endp, start_included) (set_soe w soe) =
      Some (stop, None, set_closure (set_soe w soe) (visit f l (ew_closure w)).2).
Proof.
  intros He Hst. pose proof (he_lists _ _ _ Hw) as Hl.
  destruct (lists_locate _ _ _ _ endp st Hl) as (p & r & E & Ep & Hp & Hr).
  destruct (range_stage endp p r (ew_closure w) soe He E Hinv) as (m & Hm & [q ->] & Er). rewrite same_closure in Er.
  pose proof (lists_nodup _ _ _ _ endp Hl) as Hn. rewrite E in Hn.
  pose proof (lists_order _ _ _ _ endp Hl) as Ho. rewrite E in Ho.
  exists (select w from to m), false. split.
  - split_and!.
    + apply nodup_select. by apply NoDup_app in Hn as (_ & _ & (Hn & _)%NoDup_app).
    + apply in_order_filter. by apply in_order_app in Ho as (_ & (Ho & _)%in_order_app & _).
    + intros a. rewrite Hm, select_in, <- (lists_in _ _ _ _ endp a Hl), E, (elem_of_app p). split; [tauto |].
      intros [[Ha | Ha] Hs]; [exfalso | done].
      assert (a ∈ b0) as Hab by (apply (lists_in _ _ _ _ endp a Hl); rewrite E; set_solver).
      pose proof (Forall_in a Hp Ha) as Hlt. cbn in Hlt. specialize (Hst a Hab Hs). lia.
  - unfold map_stages. rewrite (then_run _ _ _ _ _ eq_refl). cbv beta iota.
    assert (map_range_pos start_included st endp (set_soe w soe) = Some (zlen p, set_soe w soe)) as Epos
      by (unfold map_range_pos, on_list; cbn [ew_extents ew_list set_soe]; by rewrite Ep).
    rewrite (then_run _ _ _ _ _ Epos). unfold delete_posm. rewrite (then_run _ _ _ _ _ eq_refl).
    unfold bind. by rewrite Er.
Qed.

Lemma both_stages sel :
  lies_over (ew_extents w) sel b0 st -> start_in_region flags = false -> end_in_region flags = false ->
  exists l stop, shows false l /\
    map_stages fn flags fuel None st en None (true, false, start_excluded) (set_soe w (Some (mk_soe sel st))) =
      Some (stop, None, set_closure (set_soe w (Some (mk_soe sel st))) (visit f l (ew_closure w)).2).
Proof.
  intros (s0 & s1 & Hsl & Hin) Hns Hne. pose proof (he_lists _ _ _ Hw) as Hl. set (w1 := set_soe w _).
  assert (st <= en) as Hle by (by apply bytind_to_memind_mono).
  pose proof (lists_nodup _ _ _ _ false Hsl) as Hn0. cbn in Hn0.
  pose proof (lists_order _ _ _ _ false Hsl) as Ho0. cbn in Ho0.
  assert (map_stage fn flags fuel true false None 0 st en None w1 =
    Some ((visit f (select w from to s0) (ew_closure w)).1, None, (st, en), None,
      set_closure w1 (visit f (select w from to s0) (ew_closure w)).2) /\
    inv (visit f (select w from to s0) (ew_closure w)).2) as [E0 Hinv1].
  { rewrite map_stage_run by done. change w1 with (set_closure w1 (ew_closure w)) at 1.
    destruct (map_loop_run true false w1 sel s0 s1 st en Hes eq_refl Hsl s0 [] [] fuel (ew_closure w)) as [E1 Hi];
      [by rewrite app_nil_r | | exact Hinv | | done |].
    - rewrite app_nil_r. enough (length s0 <= length b0)%nat by lia. apply submseteq_length, NoDup_submseteq; [done |].
      intros a Ha. by apply Hin.
    - apply Forall_forall. intros a [_ Ho]%Hin. unfold overlaps in Ho. cbn. lia.
    - change (select w1) with (select w) in *. change (ew_text w1) with (ew_text w) in *. rewrite select_back in *.
      change (zlen []) with 0 in E1. by rewrite E1. }
  destruct (lists_locate _ _ _ _ false (st + 1) Hl) as (p & r & E & Ep & Hp & Hr). cbn in E.
  set (u1 := visit f (select w from to s0) (ew_closure w)) in *.
  destruct (range_stage false p r u1.2 (Some (mk_soe sel st)) ltac:(done) E Hinv1) as (m & Hm & [q ->] & Er). fold w1 in Er.
  pose proof (lists_nodup _ _ _ _ false Hl) as Hn. cbn in Hn. rewrite E in Hn.
  pose proof (lists_order _ _ _ _ false Hl) as Ho. cbn in Ho. rewrite E in Ho.
  apply NoDup_app in Hn as (_ & _ & (Hn & _)%NoDup_app). apply in_order_app in Ho as (_ & (Ho & _)%in_order_app & _).
  exists (select w from to (s0 ++ m)), (if u1.1 then true else false). split.
  - split_and!.
    + apply nodup_select, NoDup_app. split_and!; [done | | done]. intros a [_ Ha]%Hin Hm'.
      pose proof (Forall_in a Hr ltac:(set_solver)) as Hb. cbn in Hb. unfold overlaps in Ha. lia.
    + apply in_order_filter, in_order_app. split_and!; [done | done |]. intros a b [_ Ha]%Hin Hb'.
      pose proof (Forall_in b Hr ltac:(set_solver)) as Hb. cbn in Hb. unfold overlaps in Ha.
      unfold extent_less, EXTENT_LESS, EXTENT_LESS_VALS. ztest; lia || done.
    + intros a. rewrite select_in, elem_of_app. specialize (Hm a). rewrite !select_in in Hm. rewrite Hin, E, elem_of_app.
      split; [intros [[? | ?] ?]; split; try done; [set_solver | right; set_solver] |].
      intros [Hab Hs]. split; [| done]. destruct (selected_overlaps a ltac:(rewrite E; set_solver) Hs) as (H1 & H2 & _).
      destruct (decide (overlaps (ew_extents w) st a)) as [Hov | Hov]; [left; split; [set_solver | done] |].
      right. apply Hm. split; [| done]. destruct Hab as [Ha | Ha]; [| done].
      exfalso. pose proof (Forall_in a Hp Ha) as Hb. cbn in Hb. apply Hov. unfold overlaps. lia.
  - unfold map_stages. rewrite (then_run _ _ _ _ _ E0). cbv beta iota.
    unfold select. rewrite List.filter_app. rewrite visit_app. change (List.filter (selected w from to)) with (select w from to).
    fold u1. destruct u1 as [stop u2]. cbn [fst snd] in *. destruct stop; [done |].
    assert (map_range_pos start_excluded st false (set_closure w1 u2) = Some (zlen p, set_closure w1 u2)) as Epos
      by (unfold map_range_pos, on_list; cbn [ew_extents ew_list set_soe set_closure w1]; by rewrite Ep).
    rewrite (then_run _ _ _ _ _ Epos). unfold delete_posm. rewrite (then_run _ _ _ _ _ eq_refl).
    unfold bind. by rewrite Er.
Qed.
End Stages.
End Loop.

(** The flags of a mapping that changes nothing and moves no stack of extents. *)
Definition looks_only (flags : Z) : bool :=
  flags_known flags && negb (flag flags ME_MIGHT_MODIFY_TEXT) && negb (flag flags ME_MIGHT_MODIFY_EXTENTS) &&
  negb (flag flags ME_MIGHT_MOVE_SOE).

(** The plan, and where the stack of extents is then. *)
Lemma map_plan_run {U} flags (w : ext_world U) b0 b1 st :
  flag flags ME_MIGHT_MOVE_SOE = false -> holds_extents w b0 b1 -> exists soe plan, map_plan flags st w = Some (plan, set_soe w soe) /\
    holds_extents (set_soe w soe) b0 b1 /\
    (start_in_region flags = true /\ plan = (false, false, start_included) /\ soe = ew_soe w \/
     end_in_region flags = true /\ plan = (false, true, start_included) /\ soe = ew_soe w \/
     start_in_region flags = false /\ end_in_region flags = false /\ exists sel,
       soe = Some (mk_soe sel st) /\ lies_over (ew_extents w) sel b0 st /\
       (plan = (true, false, start_excluded) \/
        plan = (false, false, start_included) /\ forall a, a ∈ b0 -> ~ overlaps (ew_extents w) st a)).
Proof.
  intros Hmv Hw. unfold map_plan. cbv zeta. fold (start_in_region flags) (end_in_region flags).
  assert (set_soe w (ew_soe w) = w) as Eid by (by destruct w).
  destruct (start_in_region flags) eqn:E1; [exists (ew_soe w), (false, false, start_included); rewrite Eid; split_and!; auto |].
  destruct (end_in_region flags) eqn:E2; [exists (ew_soe w), (false, true, start_included); rewrite Eid; split_and!; auto |].
  destruct (force_run w b0 b1 Hw) as (soe0 & Ef & Ho0 & _). rewrite (then_run _ _ _ _ _ Ef).
  destruct (soe_move_run st (set_soe w (Some soe0)) b0 b1) as (sel & Em & Ho); [by apply holds_extents_soe |].
  rewrite (then_run _ _ _ _ _ Em). change (set_soe (set_soe w (Some soe0)) ?s) with (set_soe w s). cbn [ew_extents set_soe] in Ho.
  rewrite (then_run _ _ (set_soe w (Some (mk_soe sel st))) (mk_soe sel st) (set_soe w (Some (mk_soe sel st)))) by done.
  cbn [soe_extents]. pose proof Ho as (s0 & s1 & Hs & Hin). rewrite (lists_num _ _ _ _ Hs).
  assert (holds_extents (set_soe w (Some (mk_soe sel st))) b0 b1) as Hw' by (by apply holds_extents_soe).
  destruct (Z.eqb_spec (zlen s0) 0) as [En | En].
  - do 2 eexists. split_and!; [done | done |]. right. right. split_and!; [done.. |]. exists sel. split_and!; [done.. |].
    right. split; [done |]. destruct s0; [| revert En; lens; lia]. intros a Ha Hov. assert (a ∈ []) by (by apply Hin). set_solver.
  - rewrite Hmv. do 2 eexists. split_and!; [done | done |]. right. right. split_and!; [done.. |].
    exists sel. split_and!; [done.. |]. by left.
Qed.

Section Mapping.
Context {U : Type}.
Variables (fn : positive -> X U bool) (f : positive -> U -> bool * U) (flags : Z).
Variable es0 : extents.
Variable inv : U -> Prop.
Hypothesis fn_looks : looking fn f es0 inv.
Hypothesis flags_look : looks_only flags = true.

Lemma flag_cases : flags_known flags = true /\ flag flags ME_MIGHT_MODIFY_TEXT = false /\
  flag flags ME_MIGHT_MODIFY_EXTENTS = false /\ flag flags ME_MIGHT_MOVE_SOE = false.
Proof. revert flags_look. unfold looks_only. rewrite !andb_true_iff, !negb_true_iff. tauto. Qed.

Lemma map_extents_run (w : ext_world U) b0 b1 from to fuel :
  ew_extents w = es0 -> inv (ew_closure w) -> holds_extents w b0 b1 -> 0 <= t_gap_size (ew_text w) -> from <= to -> (length b0 < fuel)%nat ->
  region_fits (ew_text w) from to -> (forall a, a ∈ b0 -> extent_fits (ext_at (ew_extents w) a)) ->
  exists l soe, shows flags w b0 from to (end_in_region flags) l /\
    map_extents_bytind fn flags fuel from to None w =
      Some (tt, set_closure (set_soe w soe) (visit f l (ew_closure w)).2) /\
    holds_extents (set_soe w soe) b0 b1 /\
    (soe = ew_soe w /\ (b0 = [] \/ start_in_region flags = true \/ end_in_region flags = true) \/
     soe_pos <$> soe = Some (bytind_to_memind (ew_text w) from)).
Proof.
  intros Hes Hinv Hw Hgap Hft Hfuel Hrf Hxf. destruct flag_cases as (Fk & Ft & Fe & Fm).
  unfold map_extents_bytind. rewrite (then_run _ _ _ _ _ eq_refl). rewrite (lists_num _ _ _ _ (he_lists _ _ _ Hw)).
  destruct (Z.eqb_spec (zlen b0) 0) as [E | _].
  { destruct b0; [| revert E; lens; lia]. exists [], (ew_soe w). split_and!; [| by destruct w | by destruct w, Hw; split | left; auto].
    split_and!; [constructor | constructor |]. set_solver. }
  rewrite (then_run _ _ _ _ _ eq_refl). cbv zeta. rewrite Ft. rewrite (then_run _ _ _ _ _ eq_refl).
  set (st := bytind_to_memind (ew_text w) from). set (en := bytind_to_memind (ew_text w) to).
  destruct (map_plan_run flags w b0 b1 st Fm Hw) as (soe & plan & Ep & Hw' & Hplan). rewrite (then_run _ _ _ _ _ Ep).
  assert (exists l stop, shows flags w b0 from to (end_in_region flags) l /\
    map_stages fn flags fuel None st en None plan (set_soe w soe) =
      Some (stop, None, set_closure (set_soe w soe) (visit f l (ew_closure w)).2)) as (l & stop & Hl & Es).
  { pose proof (selected_overlaps flags w b0 from to Hrf Hxf) as Hso.
    destruct Hplan as [(E1 & -> & _) | [(E2 & -> & _) | (E1 & E2 & sel & -> & Hov & [-> | [-> Hno]])]].
    - replace (end_in_region flags) with false by (revert E1; unfold start_in_region, end_in_region;
        change ME_START_IN_REGION with 32; change ME_START_AND_END_IN_REGION with 96; change ME_END_IN_REGION with 64; ztest; lia || done).
      eapply only_range; [done.. |]. intros a Hb Ha. by apply (Hso a Hb Ha).
    - rewrite E2. eapply only_range; [done.. |]. intros a Hb Ha. by apply (Hso a Hb Ha).
    - rewrite E2. by eapply both_stages.
    - rewrite E2. eapply only_range; [done.. |]. intros a Hb Ha. cbn. specialize (Hno a Hb). unfold overlaps in Hno.
      destruct (Hso a Hb Ha) as (? & ? & _). subst st en. lia. }
  exists l, soe. split_and!; [done | | done |].
  - rewrite (then_run _ _ _ _ _ Es). cbv beta iota. rewrite (then_run _ _ _ _ _ eq_refl). done.
  - destruct Hplan as [(E1 & _ & ->) | [(E2 & _ & ->) | (_ & _ & sel & -> & _)]]; [left; auto.. | by right].
Qed.
End Mapping.

(** What is selected, by the points of extents and region. *)
Lemma selected_iff {U} flags (w : ext_world U) b0 b1 from to a :
  flags_known flags = true -> holds_extents w b0 b1 -> 0 <= t_gap_size (ew_text w) -> from <= to ->
  region_fits (ew_text w) from to -> extent_fits (ext_at (ew_extents w) a) -> a ∈ b0 ->
  let e := ext_at (ew_extents w) a in
  selected flags w from to a = true <->
    (extent_internal_p e = true -> flag flags ME_INCLUDE_INTERNAL = true) /\ in_region (ew_text w) flags from to e.
Proof.
  intros Hf Hw Hg Hft Hr He Ha e. destruct (lists_each _ _ _ _ _ (he_lists _ _ _ Hw) Ha) as [_ Hb].
  rewrite <- (in_region_iff (ew_text w) Hg e from to flags Hf He Hr ltac:(apply Hb) Hft). unfold selected. fold e.
  destruct (in_region_known (ew_text w) e from to flags Hf) as [b ->]. cbn [default from_option id].
  destruct (extent_internal_p e), (flag flags ME_INCLUDE_INTERNAL), b; cbn; naive_solver.
Qed.

(** C34: Mapping a function that only looks at extents over a region runs to its end, shows
    the function each extent of the region once and no other, in the order asked for (by
    their ends for [ME_END_IN_REGION], else in the display order), until it wants to stop,
    and leaves the extents and their lists as they are, wherever the stack of extents was.
    In the region is what has a point in common with it, and what the flags ask for besides.
    The region and the ends of the extents have memory indices less than 2^30, so that their
    doubles are of type [int]. *)
Theorem mapping_shows_the_region {U} (fn : positive -> X U bool) (f : positive -> U -> bool * U) (inv : U -> Prop)
    flags (w : ext_world U) b0 b1 from to fuel :
  looking fn f (ew_extents w) inv -> inv (ew_closure w) ->
  looks_only flags = true -> state_ok w b0 b1 -> 0 <= t_gap_size (ew_text w) -> from <= to -> (length b0 < fuel)%nat ->
  region_fits (ew_text w) from to -> (forall a, a ∈ b0 -> extent_fits (ext_at (ew_extents w) a)) ->
  exists l w',
    map_extents_bytind fn flags fuel from to None w = Some (tt, w') /\
    ew_closure w' = (visit f l (ew_closure w)).2 /\
    NoDup l /\ in_order (ew_extents w) (end_in_region flags) l /\
    (forall a, a ∈ l <-> a ∈ b0 /\ let e := ext_at (ew_extents w) a in
       (extent_internal_p e = true -> flag flags ME_INCLUDE_INTERNAL = true) /\ in_region (ew_text w) flags from to e) /\
    state_ok w' b0 b1 /\ ew_extents w' = ew_extents w /\ ew_list w' = ew_list w.
Proof.
  intros Hfn Hinv Hfl [Hw Hat] Hgap Hft Hfuel Hrf Hxf.
  destruct (map_extents_run fn f flags (ew_extents w) inv Hfn Hfl w b0 b1 from to fuel eq_refl Hinv Hw Hgap Hft Hfuel Hrf Hxf)
    as (l & soe & (H1 & H2 & H3) & E & [? ?] & _).
  exists l. eexists. split_and!; [exact E | done | done | done | | by split; [split |] | done | done].
  intros a. rewrite H3. destruct (flag_cases flags Hfl) as [Hk _].
  split; intros [Ha Hs]; (split; [exact Ha |]); by apply (selected_iff flags w b0 b1 from to a Hk Hw Hgap Hft Hrf (Hxf a Ha) Ha).
Qed.



Definition collect (a : positive) (l : list positive) : bool * list positive := (bool_decide (length l = 2%nat), l ++ [a]).
Definition collecting (a : positive) : X (list positive) bool :=
  l ← gets ew_closure; modify (fun w => set_closure w (l ++ [a]));; ret (bool_decide (length l = 2%nat)).

Definition ops_before_mapping : list extent_op :=
  [MakeExtent; MakeExtent; MakeExtent; MakeExtent; SetEnds 1 3 5; SetEnds 2 5 26; SetEnds 3 4 40; SetEnds 4 2 28; MoveStack 30].

Lemma mapping_shows_the_region_witness :
  exists w b0 b1 l w',
    perform_all ops_before_mapping (no_extents (some_text 6 10) ([] : list positive)) = Some (tt, w) /\
    map_extents_bytind collecting 0 10 4 12 None w = Some (tt, w') /\
    ew_closure w' = (visit collect l []).2 /\ ew_closure w' = [4; 1; 3]%positive /\
    (forall a, a ∈ l <-> a ∈ b0 /\ let e := ext_at (ew_extents w) a in
       (extent_internal_p e = true -> flag 0 ME_INCLUDE_INTERNAL = true) /\ in_region (ew_text w) 0 4 12 e) /\
    state_ok w' b0 b1.
Proof.
  destruct (perform_all_run ops_before_mapping (no_extents (some_text 6 10) ([] : list positive)) [] []) as (w & b0 & b1 & E & Hw & _);
    [apply no_extents_ok | vm_compute; reflexivity |].
  pose proof (f_equal (fmap snd) E) as Ew. vm_compute in Ew.
  assert (map_Forall (fun _ e => extent_start e < 100 /\ extent_end e < 100) (ew_extents w)) as Hall
    by (injection Ew as <-; apply (bool_decide_unpack _); vm_compute; exact I).
  destruct (mapping_shows_the_region collecting collect (fun _ => True) 0 w b0 b1 4 12 10) as (l & w' & H1 & H2 & _ & _ & H3 & H4 & _).
  - intros a w' _ _ _. split; [reflexivity | exact I].
  - exact I.
  - reflexivity.
  - exact Hw.
  - injection Ew as <-. cbn. lia.
  - lia.
  - apply Nat2Z.inj_lt. rewrite <- (lists_num _ _ _ _ (he_lists _ _ _ (so_holds _ _ _ Hw))). injection Ew as <-. reflexivity.
  - injection Ew as <-. unfold region_fits, fits, bytind_to_memind. cbn. lia.
  - intros a Ha. destruct (lists_each _ _ _ _ _ (he_lists _ _ _ (so_holds _ _ _ Hw)) Ha) as [[e He] Hb].
    rewrite (ext_at_Some _ _ _ He) in *. destruct (Hall a e He). unfold extent_fits, fits. lia.
  - exists w, b0, b1, l, w'. split_and!; [exact E | exact H1 | | | exact H3 | exact H4].
    + rewrite H2. injection Ew as <-. reflexivity.
    + injection Ew as <-. vm_compute in H1. injection H1 as <-. reflexivity.
Defined.
