(* ===== verification/ExtentDelete.v ===== *)
(** * Extents when text is deleted

    [adjust_extents_for_deletion] moves the ends of extents out of the text that goes, as
    the markers move, although extents change places in the lists on the way. *)

From Stdlib Require Import Sorting.Sorted.
From S2P Require Import Prelude Buffer Insdel Gap EditSpec Deletion GapArray ExtentList Extents ExtentTheory ExtentState ExtentAdjust ExtentMap.

#[local] Open Scope ext_scope.

(** ** One extent after the other *)

Section Each.
Context {U : Type}.
Implicit Types (w : ext_world U).
Variables st hi : Z.
Hypothesis Hst : 0 <= st < hi.

(** Memory indices behind [st] and up to [hi] become [st]. *)
Definition pulled (x : Z) : Z := if (st <? x) && (x <=? hi) then st else x.
Definition pull_extent (e : extent) : extent :=
  set_extent_end (set_extent_start e (pulled (extent_start e))) (pulled (extent_end e)).

Lemma pulled_adjustment x : do_marker_adjustment x hi hi (st - hi) = pulled x.
Proof. unfold do_marker_adjustment, pulled. zdec; lia. Qed.

Lemma set_soe_pos_same w pos : soe_pos <$> ew_soe w = Some pos -> set_soe_pos pos w = Some (tt, w).
Proof.
  intros E. unfold set_soe_pos, modify. destruct w as [t es el [[sel p] |] r u]; cbn in *; [| done]. by injection E as ->.
Qed.

Lemma maybe_soe_pos_same (b : bool) w pos :
  (b = true -> soe_pos <$> ew_soe w = Some pos) -> (if b then set_soe_pos pos else ret tt) w = Some (tt, w).
Proof. destruct b; [intros H; by apply set_soe_pos_same, H | done]. Qed.

(** An extent is pulled out of the text that goes. *)
Lemma pull_run w b0 b1 a e b :
  state_ok w b0 b1 -> a ∈ b0 -> ew_extents w !! a = Some e -> (b = true -> soe_pos <$> ew_soe w = Some st) ->
  exists w' b0' b1',
    (extent_detach a;;
     update_extent a (fun e0 => set_extent_start e0 (pulled (extent_start e)));;
     update_extent a (fun e0 => set_extent_end e0 (pulled (extent_end e)));;
     (if b then set_soe_pos st else ret tt);;
     extent_attach a;;
     (if b then set_soe_pos st else ret tt)) w = Some (tt, w') /\
    state_ok w' b0' b1' /\ (forall c, c ∈ b0' <-> c ∈ b0) /\
    ew_extents w' = <[a := pull_extent e]> (ew_extents w) /\ unmoved w w'.
Proof.
  intros [Hw Hat] Ha He Hb. pose proof (lists_each _ _ _ _ _ (he_lists _ _ _ Hw) Ha) as [_ Hbd].
  rewrite (ext_at_Some _ _ _ He) in Hbd.
  destruct (extent_detach_run a w b0 b1 e Hw He Ha) as (w1 & c0 & c1 & Ed & H1 & Hp1 & Hx1 & _ & Hu1).
  rewrite (then_run _ _ _ _ _ Ed).
  assert (a ∉ c0) as Hn.
  { pose proof (lists_nodup _ _ _ _ false (he_lists _ _ _ Hw)) as Hnd. cbn in Hnd. rewrite Hp1 in Hnd.
    by apply NoDup_cons in Hnd as []. }
  rewrite (then_run _ _ _ _ _ (update_extent_run a _ w1 (detached e) ltac:(rewrite Hx1; apply lookup_insert_eq))).
  rewrite (then_run _ _ _ _ _ (update_extent_run a _ (set_extents w1 _) _ (lookup_insert_eq _ _ _))).
  cbn [ew_extents set_extents]. rewrite Hx1, !insert_insert_eq.
  change (set_extents (set_extents w1 ?x) ?y) with (set_extents w1 y).
  set (e' := set_extent_end _ _). change e' with (pull_extent e). clear e'. set (w2 := set_extents w1 _).
  assert (0 <= extent_start (pull_extent e) <= extent_end (pull_extent e)) as Hbd' by (cbn; unfold pulled; zdec; lia).
  assert (w2 = set_extents w1 (<[a := pull_extent e]> (ew_extents w1))) as Ew2 by (subst w2; by rewrite Hx1, insert_insert_eq).
  assert (holds_extents w2 c0 c1) as H2 by (rewrite Ew2; by apply holds_extents_update).
  assert (b = true -> soe_pos <$> ew_soe w2 = Some st) as Hb2 by (intros E; cbn; rewrite (um_pos _ _ Hu1); auto).
  rewrite (then_run _ _ _ _ _ (maybe_soe_pos_same b w2 st Hb2)).
  destruct (extent_attach_run a w2 c0 c1 (pull_extent e) H2) as (w3 & b0' & b1' & Ea & H3 & Hp3 & Hx3 & _ & Hu3);
    [apply lookup_insert_eq | done | done |].
  rewrite (then_run _ _ _ _ _ Ea).
  rewrite (maybe_soe_pos_same b w3 st) by (intros E; rewrite (um_pos _ _ Hu3); auto).
  assert (forall c, c ∈ b0' <-> c ∈ b0) as Hin by (intros c; by rewrite Hp3, Hp1).
  exists w3, b0', b1'. split_and!; [done | split; [done |] | done | by rewrite Hx3 | ].
  - intros c ce Hc. rewrite Hin. rewrite Hx3 in Hc. subst w2. cbn in Hc. destruct (decide (a = c)) as [<- | Hne].
    + rewrite lookup_insert_eq in Hc. injection Hc as <-. split; [lia | done].
    + rewrite lookup_insert_ne in Hc by done. by apply Hat.
  - eapply unmoved_trans; [exact Hu1 |]. eapply unmoved_trans; [apply set_extents_unmoved | exact Hu3].
Qed.

Lemma adjust_each_run l w b0 b1 b :
  state_ok w b0 b1 -> NoDup l -> (forall a, a ∈ l -> a ∈ b0) -> (b = true -> soe_pos <$> ew_soe w = Some st) ->
  exists w' b0' b1', adjust_each l b st st hi (st - hi) w = Some (tt, w') /\
    state_ok w' b0' b1' /\ (forall c, c ∈ b0' <-> c ∈ b0) /\ unmoved w w' /\
    forall a, ew_extents w' !! a = if bool_decide (a ∈ l) then pull_extent <$> ew_extents w !! a else ew_extents w !! a.
Proof.
  revert w b0 b1. induction l as [| a l IH]; intros w b0 b1 Hw Hn Hin Hb; cbn [adjust_each].
  - exists w, b0, b1. split_and!; [done.. | apply unmoved_refl |]. intros a. by rewrite bool_decide_eq_false_2 by set_solver.
  - apply NoDup_cons in Hn as [Hna Hn]. assert (a ∈ b0) as Ha by (apply Hin; set_solver).
    destruct (lists_each _ _ _ _ _ (he_lists _ _ _ (so_holds _ _ _ Hw)) Ha) as [[e He] _].
    rewrite (then_run _ _ _ _ _ (the_extent_run a w e He)). cbv zeta. rewrite !pulled_adjustment.
    assert (exists w1 c0 c1,
      (if negb (pulled (extent_start e) =? extent_start e) || negb (pulled (extent_end e) =? extent_end e) then
         extent_detach a;;
         update_extent a (fun e0 => set_extent_start e0 (pulled (extent_start e)));;
         update_extent a (fun e0 => set_extent_end e0 (pulled (extent_end e)));;
         (if b then set_soe_pos st else ret tt);; extent_attach a;; (if b then set_soe_pos st else ret tt)
       else ret tt) w = Some (tt, w1) /\
      state_ok w1 c0 c1 /\ (forall c, c ∈ c0 <-> c ∈ b0) /\ unmoved w w1 /\
      ew_extents w1 = <[a := pull_extent e]> (ew_extents w)) as (w1 & c0 & c1 & E1 & Hw1 & Hin1 & Hu1 & Hx1).
    { destruct (negb _ || negb _) eqn:E.
      - destruct (pull_run w b0 b1 a e b Hw Ha He Hb) as (w1 & c0 & c1 & H). exists w1, c0, c1. intuition.
      - exists w, b0, b1. split_and!; [done.. | apply unmoved_refl |].
        apply orb_false_elim in E as [G1%negb_false_iff%Z.eqb_eq G2%negb_false_iff%Z.eqb_eq].
        symmetry. apply insert_id. rewrite He. unfold pull_extent. rewrite G1, G2. by destruct e. }
    rewrite (then_run _ _ _ _ _ E1).
    destruct (IH w1 c0 c1 Hw1 Hn) as (w' & b0' & b1' & E & Hw' & Hin' & Hu' & Hx');
      [intros c Hc; apply Hin1, Hin; set_solver | intros Eb; rewrite (um_pos _ _ Hu1); auto |].
    exists w', b0', b1'. split_and!; [exact E | done | | by eapply unmoved_trans |].
    + intros c. by rewrite Hin', Hin1.
    + intros c. rewrite Hx', Hx1. destruct (decide (a = c)) as [<- | Hne].
      * rewrite bool_decide_eq_false_2, bool_decide_eq_true_2 by set_solver. by rewrite lookup_insert_eq, He.
      * rewrite lookup_insert_ne by done. case_bool_decide; case_bool_decide; set_solver.
Qed.
End Each.

(** ** All extents with an end in the text that goes *)

Definition deletion_flags : Z :=
  Z.lor (Z.lor ME_ALL_EXTENTS_CLOSED ME_END_CLOSED) (Z.lor ME_START_OR_END_IN_REGION ME_INCLUDE_INTERNAL).

Definition listing (a : positive) (l : list positive) : bool * list positive := (false, l ++ [a]).

Lemma visit_listing l u : visit listing l u = (false, u ++ l).
Proof.
  revert u. induction l as [| a l IH]; intros u; cbn [visit listing]; [by rewrite app_nil_r |].
  by rewrite IH, <- app_assoc.
Qed.

Lemma mapper_looks a w :
  adjust_extents_for_deletion_mapper a w = Some ((listing a (ew_closure w)).1, set_closure w (listing a (ew_closure w)).2).
Proof. done. Qed.

(** Shown are those with an end in the region, closed. *)
Lemma deletion_selects {U} (w : ext_world U) from to a :
  0 <= t_gap_size (ew_text w) -> from <= to -> let e := ext_at (ew_extents w) a in
  let st := bytind_to_memind (ew_text w) from in let en := bytind_to_memind (ew_text w) to in
  extent_fits e -> region_fits (ew_text w) from to -> extent_start e <= extent_end e ->
  selected deletion_flags w from to a = true <->
    st <= extent_start e <= en \/ st <= extent_end e <= en.
Proof.
  intros Hg Hft e st en He Hr Hle. unfold selected. fold e.
  change (flag deletion_flags ME_INCLUDE_INTERNAL) with true. cbn [negb]. rewrite andb_false_r. cbn [negb andb].
  unfold extent_in_region_p, open_ends. fold st en.
  change (Z.land deletion_flags ME_IN_REGION_MASK) with 128. change (Z.land deletion_flags ME_ALL_EXTENTS_MASK) with 4.
  change (flag deletion_flags ME_END_CLOSED) with true. change (flag deletion_flags ME_START_OPEN) with false.
  change (flag deletion_flags ME_NEGATE_IN_REGION) with false.
  assert (st <= en) by (by apply bytind_to_memind_mono). cbn.
  replace (if extent_start e =? extent_end e then Some (false, false) else Some (false, false)) with (Some (false, false))
    by (by destruct (_ =? _)). cbn [mbind option_bind].
  rewrite !startind_fits, !endind_fits by (apply He || apply Hr). cbn [Z.b2z].
  clear He Hr. clearbody e st en. ztest; cbn; (split; [intros | intros]; try done; try lia).
Qed.

Section Deletion.
Context {U : Type}.
Variables (w : ext_world U) (b0 b1 : list positive) (from to movegapsize : Z).
Let t := ew_text w.
Let st := bytind_to_memind t from.
Let hi := to + t_gap_size t.
Hypothesis Hw : state_ok w b0 b1.
Hypothesis Hgap : 0 <= t_gap_size t.
Hypothesis Hft : 1 <= from < to.
Hypothesis Hrf : region_fits t from to.
Hypothesis Hxf : forall a, a ∈ b0 -> extent_fits (ext_at (ew_extents w) a).
Hypothesis Hmove : st - hi = - (to - from) - movegapsize.

(** No end between those of the region and the top of what is pulled. *)
Hypothesis Hout : forall a, a ∈ b0 -> forall endp,
  let x := extent_endpoint (ext_at (ew_extents w) a) endp in st < x <= hi -> x <= bytind_to_memind t to.

Lemma adjust_for_deletion_run :
  exists w' b0' b1',
    adjust_extents_for_deletion from to (t_gap_size t) (to - from) movegapsize w = Some (tt, w') /\
    state_ok w' b0' b1' /\ (forall a, a ∈ b0' <-> a ∈ b0) /\
    forall a, ew_extents w' !! a = if bool_decide (a ∈ b0) then pull_extent st hi <$> ew_extents w !! a else ew_extents w !! a.
Proof.
  assert (0 <= st < hi) as Hst by (subst st hi; unfold bytind_to_memind; zdec; lia).
  pose proof (he_lists _ _ _ (so_holds _ _ _ Hw)) as Hl.
  set (v := mk_ew (ew_text w) (ew_extents w) (ew_list w) (ew_soe w) (ew_recorded w) ([] : list positive)).
  assert (holds_extents v b0 b1) as Hv by (by destruct Hw as [[? ?] _]; split).
  destruct (map_extents_run adjust_extents_for_deletion_mapper listing deletion_flags (ew_extents w) (fun _ => True)
    (fun a w _ _ _ => conj (mapper_looks a w) I) eq_refl v b0 b1 from to
    (S (Z.to_nat (zlen b0))) eq_refl I Hv Hgap ltac:(lia) ltac:(lia) Hrf Hxf) as (l & soe & (Hn & _ & Hin) & Em & Hsoe & Hpos).
  rewrite visit_listing in Em. cbn [ew_closure v app snd] in Em.
  unfold adjust_extents_for_deletion. cbv zeta. fold deletion_flags.
  rewrite (then_run _ _ w (ew_soe w) w) by done. rewrite (then_run _ _ w (zlen b0) w) by (unfold gets; by rewrite (lists_num _ _ _ _ Hl)).
  set (w1 := set_soe w soe).
  rewrite (then_run _ _ w l w1) by (unfold with_closure; fold v; by rewrite Em).
  rewrite (then_run _ _ w1 soe w1) by done. cbv zeta.
  assert (state_ok w1 b0 b1) as Hw1 by (split; [by destruct Hsoe; split | apply Hw]).
  fold hi. rewrite <- Hmove.
  set (b := bool_decide (is_Some (ew_soe w))).
  (* the stack of extents is over the start of the region, or there are no extents *)
  destruct Hpos as [[Es Hcase] | Hpos].
  - assert (b0 = []) as -> by (by destruct Hcase as [| [|]]).
    assert (l = []) as -> by (destruct l as [| c l]; [done |]; assert (c ∈ []) by (apply Hin; set_solver); set_solver).
    cbn [adjust_each]. rewrite (then_run _ _ w1 tt w1) by done.
    assert (forall p, state_ok (set_soe w1 ((fun soe => mk_soe (soe_extents soe) p) <$> ew_soe w1)) [] b1) as Hp.
    { intros p. destruct Hw1 as [[H1 H2] H3]. split; [split |]; [done | | done]. cbn. intros s Hs.
      destruct soe as [soe1 |]; [| done]. injection Hs as <-. cbn.
      destruct (H2 soe1 eq_refl) as (s0 & s1 & Hsl & Hs0). exists s0, s1. split; [done |]. set_solver. }
    destruct b; [do 3 eexists; split_and!; [done | apply Hp | done |] | exists w1, [], b1; split_and!; [done.. |]];
      intros a; by rewrite bool_decide_eq_false_2 by set_solver.
  - destruct soe as [[sel p] |]; [| done]. cbn in Hpos. injection Hpos as ->. cbn [soe_pos].
    fold t st. rewrite (proj2 (Z.geb_le _ _)) by lia.
    rewrite pulled_adjustment by done. replace (pulled st hi st) with st by (unfold pulled; zdec; lia).
    destruct (adjust_each_run st hi Hst l w1 b0 b1 b Hw1 Hn) as (w' & b0' & b1' & E & Hw' & Hin' & Hu & Hx);
      [intros a Ha; by apply Hin | done |].
    rewrite (then_run _ _ _ _ _ E).
    rewrite (maybe_soe_pos_same b w' st) by (intros _; by rewrite (um_pos _ _ Hu)).
    exists w', b0', b1'. split_and!; [done.. |]. intros a. rewrite Hx. cbn [w1 ew_extents set_soe].
    destruct (decide (a ∈ b0)) as [Ha | Ha]; [| rewrite !bool_decide_eq_false_2; [done | done | by intros [? _]%Hin]].
    rewrite (bool_decide_eq_true_2 (a ∈ b0)) by done. case_bool_decide as Hal; [done |].
    destruct (lists_each _ _ _ _ _ Hl Ha) as [[e He] Hb]. rewrite He. cbn. f_equal.
    assert (~ selected deletion_flags v from to a = true) as Hs by (intros Hs; apply Hal, Hin; by split).
    rewrite deletion_selects in Hs; [| done | lia | by apply Hxf | exact Hrf | by apply Hb]. cbn [ew_extents ew_text v] in Hs. fold t st in Hs.
    pose proof (Hout a Ha false) as O1. pose proof (Hout a Ha true) as O2. cbn in O1, O2.
    rewrite (ext_at_Some _ _ _ He) in *.
    unfold pull_extent, pulled. destruct e as [s n ? ? ? ? ?]; cbn in *.
    unfold set_extent_end, set_extent_start, set_extent_endpoint; cbn. f_equal; zdec; lia.
Qed.
End Deletion.

Lemma valid_pulled t t' from to x :
  text_wf t -> 1 <= from < to -> to <= t_z t -> t_z t' = t_z t - (to - from) ->
  (t_gpt t < from /\ to = t_z t /\ t_gpt t' = t_gpt t /\ t_gap_size t' = t_gap_size t \/
   from <= t_gpt t <= to /\ t_gpt t' = from /\ t_gap_size t' = t_gap_size t + (to - from)) ->
  valid_memind_p t x = true ->
  let y := pulled (bytind_to_memind t from) (to + t_gap_size t) x in
  valid_memind_p t' y = true /\ memind_to_bytind t' y = pos_after_delete from to (memind_to_bytind t x).
Proof.
  intros Ht Hft Hz Ez Hcase Hv. cbv zeta. destruct Hcase as [(H1 & H2 & H3 & H4) | (H1 & H2 & H3)].
  - rewrite <- pulled_adjustment by (destruct Ht; unfold bytind_to_memind; zdec; lia).
    replace (bytind_to_memind t from - (to + t_gap_size t)) with (- (to - from)) by (unfold bytind_to_memind; zdec; lia).
    apply (marker_deleted_end t t' from to x Ht); lia || done.
  - rewrite <- pulled_adjustment by (destruct Ht; unfold bytind_to_memind; zdec; lia).
    replace (bytind_to_memind t from - (to + t_gap_size t)) with (- (to - from) - t_gap_size t)
      by (unfold bytind_to_memind; zdec; lia).
    apply (marker_deleted_gap t t' from to x Ht); lia || done.
Qed.

(** C35: When text is deleted (into the end gap, or by the growth of a gap that it touches)
    [adjust_extents_for_deletion] runs and each end of each extent is, in the text that is
    left, where a marker at it is: those before the deleted text stay, those in it go to
    its start, those behind it keep their characters.  No extent gets lost: the lists have
    the same extents in the order of their new ends, and the stack of extents still has
    those that overlap its position.  The text and its gap end before memory index 2^30, so
    that the doubles of memory indices are of type [int]. *)
Theorem extents_follow_deletion {U} (w : ext_world U) b0 b1 from to t' :
  let t := ew_text w in
  text_wf t -> t_z t + t_gap_size t < 2 ^ 30 -> state_ok w b0 b1 -> 1 <= from < to -> to <= t_z t -> t_z t' = t_z t - (to - from) ->
  (forall a, a ∈ b0 -> forall endp, valid_memind_p t (extent_endpoint (ext_at (ew_extents w) a) endp) = true) ->
  (t_gpt t < from /\ to = t_z t /\ t_gpt t' = t_gpt t /\ t_gap_size t' = t_gap_size t \/
   from <= t_gpt t <= to /\ t_gpt t' = from /\ t_gap_size t' = t_gap_size t + (to - from)) ->
  exists w' b0' b1',
    adjust_extents_for_deletion from to (t_gap_size t) (to - from) (if t_gpt t <? from then 0 else t_gap_size t) w =
      Some (tt, w') /\
    state_ok w' b0' b1' /\ (forall a, a ∈ b0' <-> a ∈ b0) /\
    forall a, a ∈ b0 -> forall endp,
      let x' := extent_endpoint (ext_at (ew_extents w') a) endp in
      valid_memind_p t' x' = true /\
      memind_to_bytind t' x' = pos_after_delete from to (memind_to_bytind t (extent_endpoint (ext_at (ew_extents w) a) endp)).
Proof.
  intros t Ht Hsmall Hw Hft Hz Ez Hv Hcase.
  destruct (adjust_for_deletion_run w b0 b1 from to (if t_gpt t <? from then 0 else t_gap_size t) Hw) as (w' & b0' & b1' & E & Hw' & Hin & Hx).
  - apply Ht.
  - done.
  - apply region_fits_small; (apply Ht || fold t; lia).
  - intros a Ha. split; [apply (valid_memind_fits t), (Hv a Ha false) | apply (valid_memind_fits t), (Hv a Ha true)]; done.
  - fold t. unfold bytind_to_memind. destruct Ht. zdec; lia.
  - intros a Ha endp x Hr. pose proof (Hv a Ha endp) as Hvx. fold x in Hvx. fold t in Hr |- *. revert Hvx Hr.
    clearbody x. clear - Ht Hft Hcase. destruct Ht. unfold valid_memind_p, bytind_to_memind. ztest; lia || done.
  - exists w', b0', b1'. split_and!; [exact E | done | done |]. intros a Ha endp. cbv zeta.
    destruct (lists_each _ _ _ _ _ (he_lists _ _ _ (so_holds _ _ _ Hw)) Ha) as [[e He] _].
    pose proof (Hv a Ha endp) as Hvx. rewrite (ext_at_Some _ _ _ He) in *.
    pose proof (Hx a) as Hxa. rewrite bool_decide_eq_true_2, He in Hxa by done. rewrite (ext_at_Some _ _ _ Hxa).
    replace (extent_endpoint _ endp) with (pulled (bytind_to_memind t from) (to + t_gap_size t) (extent_endpoint e endp))
      by (by destruct endp).
    by apply (valid_pulled t t' from to _ Ht Hft Hz Ez Hcase).
Qed.

Definition text_20_10 : buffer_text :=
  mk_text (replicate 50 97) 20 41 10 0 0 0 (mk_text_changes 0 0 0 0 false).
Definition text_after : buffer_text :=
  mk_text (replicate 50 97) 15 31 20 0 0 0 (mk_text_changes 0 0 0 0 false).

(** Extents before, over, in and behind the text from 15 to 25. *)
Definition ops_before_deletion : list extent_op :=
  [MakeExtent; MakeExtent; MakeExtent; MakeExtent; MakeExtent;
   SetEnds 1 3 15; SetEnds 2 5 45; SetEnds 3 17 19; SetEnds 4 16 33; SetEnds 5 35 40; MoveStack 40].

Lemma extents_follow_deletion_witness :
  exists (w w' : ext_world unit) b0 b0' b1',
    perform_all ops_before_deletion (no_extents text_20_10 tt) = Some (tt, w) /\ length b0 = 5%nat /\
    adjust_extents_for_deletion 15 25 10 10 10 w = Some (tt, w') /\
    state_ok w' b0' b1' /\ (forall a, a ∈ b0' <-> a ∈ b0) /\
    forall a, a ∈ b0 -> forall endp,
      let x' := extent_endpoint (ext_at (ew_extents w') a) endp in
      valid_memind_p text_after x' = true /\
      memind_to_bytind text_after x' =
        pos_after_delete 15 25 (memind_to_bytind text_20_10 (extent_endpoint (ext_at (ew_extents w) a) endp)).
Proof.
  destruct (perform_all_run ops_before_deletion (no_extents text_20_10 tt) [] []) as (w & b0 & b1 & E & Hw & _);
    [apply no_extents_ok | vm_compute; reflexivity |].
  pose proof (f_equal (fmap snd) E) as Ew. vm_compute in Ew.
  assert (ew_text w = text_20_10) as Et by (injection Ew as <-; reflexivity).
  assert (map_Forall (fun _ e => valid_memind_p text_20_10 (extent_start e) = true /\ valid_memind_p text_20_10 (extent_end e) = true)
    (ew_extents w)) as Hall by (injection Ew as <-; apply (bool_decide_unpack _); vm_compute; exact I).
  assert (length b0 = 5%nat) as Hlen.
  { apply Nat2Z.inj. rewrite <- (lists_num _ _ _ _ (he_lists _ _ _ (so_holds _ _ _ Hw))). injection Ew as <-. reflexivity. }
  destruct (extents_follow_deletion w b0 b1 15 25 text_after) as (w' & b0' & b1' & H1 & H2 & H3 & H4); rewrite ?Et.
  - split; vm_compute; (split; congruence) || congruence || reflexivity.
  - reflexivity.
  - exact Hw.
  - lia.
  - cbn. lia.
  - reflexivity.
  - intros a Ha endp. destruct (lists_each _ _ _ _ _ (he_lists _ _ _ (so_holds _ _ _ Hw)) Ha) as [[e He] _].
    rewrite (ext_at_Some _ _ _ He). destruct (Hall a e He). destruct endp; done.
  - right. cbn. lia.
  - exists w, w', b0, b0', b1'. rewrite Et in H1. split_and!; [exact E | exact Hlen | exact H1 | exact H2 | exact H3 |].
    rewrite Et in H4. exact H4.
Defined.
