(* ===== verification/ExtentRuns.v ===== *)
(** * Runs of text between the ends of extents

    Where the run at a position ends and begins (extents.c 2519-2602), found with the stack
    of extents and two searches. *)

From Stdlib Require Import Sorting.Sorted.
From S2P Require Import Prelude Buffer Insdel GapArray ExtentList Extents ExtentTheory ExtentState ExtentAdjust.

#[local] Open Scope ext_scope.

Section Runs.
Context {U : Type}.
Implicit Types (w : ext_world U).

(** The end of an extent of a list as a position, or [limit] if there is none at [ind]. *)
Definition end_or_limit (el : Extent_List) (inside : bool) (ind : Z) (endp : bool) (limit : Z) : X U Z :=
  if inside then
    a ← lift (extent_list_at el ind endp);
    e ← the_extent a;
    t ← gets ew_text;
    ret (memind_to_bytind t (extent_endpoint e endp))
  else ret limit.

(** [accessible]: the end, or the beginning, of the accessible part of the buffer. *)
Definition extent_find_end_of_run (pos : Z) (outside_accessible : bool) (accessible : Z) : X U Z :=
  t ← gets ew_text;
  bel ← gets ew_list;
  let mempos := bytind_to_memind t pos in
  let limit := if outside_accessible then t_z t else accessible in
  if extent_list_num_els bel =? 0 then ret limit
  else
    buffer_or_string_stack_of_extents_force;;
    soe_move mempos;;
    soe ← buffer_or_string_stack_of_extents_force;
    let sel := soe_extents soe in
    elind1 ← on_list (fun es bel => extent_list_locate_from_pos es bel (mempos + 1) false);
    pos1 ← end_or_limit bel (elind1 <? extent_list_num_els bel) elind1 false limit;
    elind2 ← on_list (fun es _ => extent_list_locate_from_pos es sel (mempos + 1) true);
    pos2 ← end_or_limit sel (elind2 <? extent_list_num_els sel) elind2 true limit;
    ret (Z.min (Z.min pos1 pos2) limit).

Definition extent_find_beginning_of_run (pos : Z) (outside_accessible : bool) (accessible : Z) : X U Z :=
  t ← gets ew_text;
  bel ← gets ew_list;
  let mempos := bytind_to_memind t pos in
  let limit := if outside_accessible then 1 else accessible in
  if extent_list_num_els bel =? 0 then ret limit
  else
    buffer_or_string_stack_of_extents_force;;
    soe_move mempos;;
    soe ← buffer_or_string_stack_of_extents_force;
    let sel := soe_extents soe in
    elind1 ← on_list (fun es bel => extent_list_locate_from_pos es bel mempos true);
    pos1 ← end_or_limit bel (elind1 >? 0) (elind1 - 1) true limit;
    elind2 ← on_list (fun es _ => extent_list_locate_from_pos es sel mempos false);
    pos2 ← end_or_limit sel (elind2 >? 0) (elind2 - 1) false limit;
    ret (Z.max (Z.max pos1 pos2) limit).

(** ** The nearest end in a list *)

Lemma order_head es endp a l c : in_order es endp (a :: l) -> c ∈ a :: l ->
  extent_endpoint (ext_at es a) endp <= extent_endpoint (ext_at es c) endp.
Proof.
  intros [_ H]%StronglySorted_inv [-> | Hc]%elem_of_cons; [done |]. eapply Forall_forall in H; [| exact Hc].
  revert H. unfold extent_less, EXTENT_LESS, EXTENT_E_LESS, EXTENT_LESS_VALS, EXTENT_E_LESS_VALS, extent_endpoint.
  destruct endp; ztest; lia || done.
Qed.

Lemma order_last es endp a l c : in_order es endp (l ++ [a]) -> c ∈ l ++ [a] ->
  extent_endpoint (ext_at es c) endp <= extent_endpoint (ext_at es a) endp.
Proof.
  intros (_ & _ & H)%in_order_app [Hc | ->%list_elem_of_singleton]%elem_of_app; [| done].
  specialize (H c a Hc ltac:(set_solver)). revert H.
  unfold extent_less, EXTENT_LESS, EXTENT_E_LESS, EXTENT_LESS_VALS, EXTENT_E_LESS_VALS, extent_endpoint.
  destruct endp; ztest; lia || done.
Qed.

Section One.
Variables (w : ext_world U).
Let es := ew_extents w.
Let at_text a endp := memind_to_bytind (ew_text w) (extent_endpoint (ext_at es a) endp).

Lemma end_or_limit_run el l0 l1 endp p a q limit w' :
  ew_extents w' = es -> ew_text w' = ew_text w -> lists es el l0 l1 -> order_of endp l0 l1 = p ++ a :: q ->
  end_or_limit el true (zlen p) endp limit w' = Some (at_text a endp, w').
Proof.
  intros Ee Et Hl E. unfold end_or_limit, lift. rewrite (lists_at _ _ _ _ _ _ _ _ Hl E).
  rewrite (then_run _ _ _ _ _ eq_refl).
  assert (a ∈ l0) as Ha by (apply (lists_in _ _ _ _ endp a Hl); rewrite E; set_solver).
  destruct (lists_each _ _ _ _ _ Hl Ha) as [[e He] _].
  rewrite (then_run _ _ _ e w') by (apply the_extent_run; by rewrite Ee).
  rewrite (then_run _ _ _ _ _ eq_refl). unfold at_text. by rewrite (ext_at_Some _ _ _ He), Et.
Qed.

(** The first end at [x] or behind it. *)
Lemma next_end el l0 l1 endp x limit w' :
  ew_extents w' = es -> ew_text w' = ew_text w -> lists es el l0 l1 -> exists ind pos1,
    extent_list_locate_from_pos es el x endp = Some ind /\
    end_or_limit el (ind <? extent_list_num_els el) ind endp limit w' = Some (pos1, w') /\
    ((pos1 = limit /\ forall a, a ∈ l0 -> extent_endpoint (ext_at es a) endp < x) \/
     exists a, a ∈ l0 /\ pos1 = at_text a endp /\ x <= extent_endpoint (ext_at es a) endp /\
       forall c, c ∈ l0 -> x <= extent_endpoint (ext_at es c) endp ->
         extent_endpoint (ext_at es a) endp <= extent_endpoint (ext_at es c) endp).
Proof.
  intros Ee Et Hl. destruct (lists_locate _ _ _ _ endp x Hl) as (p & r & E & -> & Hp & Hr).
  pose proof (fun c => lists_in _ _ _ _ endp c Hl) as Hin. exists (zlen p).
  rewrite (lists_num _ _ _ _ Hl), <- (lists_length _ _ _ _ endp Hl), E. destruct r as [| a r].
  - rewrite app_nil_r in *. exists limit. split_and!; [done | by rewrite (proj2 (Z.ltb_ge _ _)) by lia |]. left. split; [done |].
    intros a Ha. apply (Forall_in a Hp). rewrite <- E. by apply Hin.
  - exists (at_text a endp). rewrite (proj2 (Z.ltb_lt _ _)) by (do 2 lens; lia). split_and!; [done | |].
    + by eapply end_or_limit_run.
    + right. exists a. split_and!; [apply Hin; rewrite E; set_solver | done | by apply Forall_cons in Hr as [] |].
      intros c Hc Hx. apply Hin in Hc. rewrite E in Hc. apply elem_of_app in Hc as [Hc | Hc].
      * pose proof (Forall_in c Hp Hc). cbn in *. lia.
      * pose proof (lists_order _ _ _ _ endp Hl) as Ho. rewrite E in Ho. apply in_order_app in Ho as (_ & Ho & _).
        by eapply order_head.
Qed.

(** The last end before [x]. *)
Lemma previous_end el l0 l1 endp x limit w' :
  ew_extents w' = es -> ew_text w' = ew_text w -> lists es el l0 l1 -> exists ind pos1,
    extent_list_locate_from_pos es el x endp = Some ind /\
    end_or_limit el (ind >? 0) (ind - 1) endp limit w' = Some (pos1, w') /\
    ((pos1 = limit /\ forall a, a ∈ l0 -> x <= extent_endpoint (ext_at es a) endp) \/
     exists a, a ∈ l0 /\ pos1 = at_text a endp /\ extent_endpoint (ext_at es a) endp < x /\
       forall c, c ∈ l0 -> extent_endpoint (ext_at es c) endp < x ->
         extent_endpoint (ext_at es c) endp <= extent_endpoint (ext_at es a) endp).
Proof.
  intros Ee Et Hl. destruct (lists_locate _ _ _ _ endp x Hl) as (p & r & E & -> & Hp & Hr).
  pose proof (fun c => lists_in _ _ _ _ endp c Hl) as Hin. exists (zlen p).
  destruct p as [| a p _] using rev_ind.
  - exists limit. split_and!; [done.. |]. left. split; [done |]. intros a Ha. apply (Forall_in a Hr).
    apply Hin in Ha. by rewrite E in Ha.
  - exists (at_text a endp). replace (zlen (p ++ [a]) >? 0) with true by (symmetry; apply Z.gtb_lt; lens; lia).
    replace (zlen (p ++ [a]) - 1) with (zlen p) by (lens; lia). pose proof E as E'. rewrite <- app_assoc in E'. split_and!; [done | |].
    + by eapply end_or_limit_run.
    + right. exists a. split_and!; [apply Hin; rewrite E; set_solver | done | by apply Forall_app in Hp as [_ [? _]%Forall_cons] |].
      intros c Hc Hx. apply Hin in Hc. rewrite E in Hc. apply elem_of_app in Hc as [Hc | Hc].
      * pose proof (lists_order _ _ _ _ endp Hl) as Ho. rewrite E in Ho. apply in_order_app in Ho as (Ho & _ & _).
        by eapply order_last.
      * pose proof (Forall_in c Hr Hc). cbn in *. lia.
Qed.
End One.

(** The stack of extents is moved to the position. *)
Lemma moved_here {A} (k : Stack_Of_Extents -> X U A) w b0 b1 mempos :
  holds_extents w b0 b1 -> exists sel,
    (buffer_or_string_stack_of_extents_force;; soe_move mempos;; soe ← buffer_or_string_stack_of_extents_force; k soe) w =
      k (mk_soe sel mempos) (set_soe w (Some (mk_soe sel mempos))) /\
    lies_over (ew_extents w) sel b0 mempos /\ holds_extents (set_soe w (Some (mk_soe sel mempos))) b0 b1.
Proof.
  intros Hw. destruct (force_run w b0 b1 Hw) as (soe0 & Ef & Ho0 & _). rewrite (then_run _ _ _ _ _ Ef).
  destruct (soe_move_run mempos (set_soe w (Some soe0)) b0 b1) as (sel & Em & Ho); [by apply holds_extents_soe |].
  rewrite (then_run _ _ _ _ _ Em). change (set_soe (set_soe w (Some soe0)) ?s) with (set_soe w s). cbn [ew_extents set_soe] in Ho.
  exists sel. split_and!; [done | done | by apply holds_extents_soe].
Qed.
End Runs.

(** Where an end of an extent is in the text. *)
Definition end_in_text {U} (w : ext_world U) (a : positive) (endp : bool) : Z :=
  memind_to_bytind (ew_text w) (extent_endpoint (ext_at (ew_extents w) a) endp).

Section Ends.
Variable t : buffer_text.
Hypothesis Hgap : 0 <= t_gap_size t.

Lemma behind_in_text x pos : outside_gap (t_gpt t) (t_gap_size t) x ->
  bytind_to_memind t pos < x <-> pos < memind_to_bytind t x.
Proof. unfold outside_gap, bytind_to_memind, memind_to_bytind. zdec; lia. Qed.

Lemma before_in_text x pos : outside_gap (t_gpt t) (t_gap_size t) x ->
  x < bytind_to_memind t pos <-> memind_to_bytind t x < pos.
Proof. unfold outside_gap, bytind_to_memind, memind_to_bytind. zdec; lia. Qed.

Lemma memind_to_bytind_mono x y : outside_gap (t_gpt t) (t_gap_size t) x -> outside_gap (t_gpt t) (t_gap_size t) y ->
  x <= y -> memind_to_bytind t x <= memind_to_bytind t y.
Proof. unfold outside_gap, memind_to_bytind. zdec; lia. Qed.
End Ends.


Section Facts.
Context {U : Type}.
Variables (w : ext_world U) (b0 b1 s0 : list positive) (pos limit : Z).
Let es := ew_extents w.
Let mempos := bytind_to_memind (ew_text w) pos.
Hypothesis Hgap : 0 <= t_gap_size (ew_text w).
Hypothesis Hl : lists es (ew_list w) b0 b1.
Hypothesis Hout : forall a, a ∈ b0 -> forall endp,
  outside_gap (t_gpt (ew_text w)) (t_gap_size (ew_text w)) (extent_endpoint (ext_at es a) endp).
Hypothesis Hin : forall a, a ∈ s0 <-> a ∈ b0 /\ overlaps es mempos a.

(** What [next_end] finds: among the starts of all, and the ends of those over the position. *)
Definition next_found (l : list positive) (endp : bool) (pos1 : Z) : Prop :=
  (pos1 = limit /\ forall a, a ∈ l -> extent_endpoint (ext_at es a) endp < mempos + 1) \/
  exists a, a ∈ l /\ pos1 = end_in_text w a endp /\ mempos + 1 <= extent_endpoint (ext_at es a) endp /\
    forall c, c ∈ l -> mempos + 1 <= extent_endpoint (ext_at es c) endp ->
      extent_endpoint (ext_at es a) endp <= extent_endpoint (ext_at es c) endp.

Definition previous_found (l : list positive) (endp : bool) (pos1 : Z) : Prop :=
  (pos1 = limit /\ forall a, a ∈ l -> mempos <= extent_endpoint (ext_at es a) endp) \/
  exists a, a ∈ l /\ pos1 = end_in_text w a endp /\ extent_endpoint (ext_at es a) endp < mempos /\
    forall c, c ∈ l -> extent_endpoint (ext_at es c) endp < mempos ->
      extent_endpoint (ext_at es c) endp <= extent_endpoint (ext_at es a) endp.

Lemma ends_mono a b endp endp' : a ∈ b0 -> b ∈ b0 ->
  extent_endpoint (ext_at es a) endp <= extent_endpoint (ext_at es b) endp' -> end_in_text w a endp <= end_in_text w b endp'.
Proof. intros Ha Hb. apply memind_to_bytind_mono; [done | by apply Hout | by apply Hout]. Qed.

Lemma next_found_least l endp pos1 a :
  (forall c, c ∈ l -> c ∈ b0) -> next_found l endp pos1 -> a ∈ l -> mempos < extent_endpoint (ext_at es a) endp ->
  pos1 <= end_in_text w a endp.
Proof.
  intros Hsub [[_ Hno] | (b & Hb & -> & _ & Hmin)] Ha Hlt; [specialize (Hno a Ha); lia |].
  apply ends_mono; [by apply Hsub | by apply Hsub |]. apply Hmin; [done | lia].
Qed.

Lemma previous_found_greatest l endp pos1 a :
  (forall c, c ∈ l -> c ∈ b0) -> previous_found l endp pos1 -> a ∈ l -> extent_endpoint (ext_at es a) endp < mempos ->
  end_in_text w a endp <= pos1.
Proof.
  intros Hsub [[_ Hno] | (b & Hb & -> & _ & Hmin)] Ha Hlt; [specialize (Hno a Ha); lia |].
  apply ends_mono; [by apply Hsub | by apply Hsub |]. by apply Hmin.
Qed.

Lemma next_found_at l endp pos1 :
  (forall c, c ∈ l -> c ∈ b0) -> next_found l endp pos1 ->
  pos1 = limit \/ exists a endp, a ∈ b0 /\ pos1 = end_in_text w a endp /\ pos < pos1.
Proof.
  intros Hsub [[-> _] | (a & Ha & -> & Hx & _)]; [by left | right]. exists a, endp. split_and!; [by apply Hsub | done |].
  apply behind_in_text; [done | by apply Hout, Hsub |]. fold mempos. fold es. lia.
Qed.

Lemma previous_found_at l endp pos1 :
  (forall c, c ∈ l -> c ∈ b0) -> previous_found l endp pos1 ->
  pos1 = limit \/ exists a endp, a ∈ b0 /\ pos1 = end_in_text w a endp /\ pos1 < pos.
Proof.
  intros Hsub [[-> _] | (a & Ha & -> & Hx & _)]; [by left | right]. exists a, endp. split_and!; [by apply Hsub | done |].
  apply before_in_text; [done | by apply Hout, Hsub | done].
Qed.

Lemma s0_sub c : c ∈ s0 -> c ∈ b0.
Proof. intros Hc. by apply Hin. Qed.

Lemma next_change pos1 pos2 :
  next_found b0 false pos1 -> next_found s0 true pos2 -> let r := Z.min (Z.min pos1 pos2) limit in
  r <= limit /\ (forall a, a ∈ b0 -> forall endp, pos < end_in_text w a endp -> r <= end_in_text w a endp) /\
  (r = limit \/ exists a endp, a ∈ b0 /\ r = end_in_text w a endp /\ pos < r).
Proof.
  intros C1 C2 r. split_and!; [lia | |].
  - intros a Ha endp Hlt. apply behind_in_text in Hlt; [| done | by apply Hout]. fold es mempos in Hlt.
    pose proof (lists_each _ _ _ _ _ Hl Ha) as [_ Hb].
    pose proof (fun H => next_found_least b0 false pos1 a (fun _ => id) C1 Ha H) as K1. cbn [extent_endpoint] in K1.
    destruct endp; cbn [extent_endpoint] in Hlt; [| specialize (K1 Hlt); lia].
    destruct (Z.lt_ge_cases mempos (extent_start (ext_at es a))) as [Hs | Hs].
    + specialize (K1 Hs). pose proof (ends_mono a a false true Ha Ha ltac:(cbn; lia)). lia.
    + assert (a ∈ s0) as Has by (apply Hin; split; [done | unfold overlaps; lia]).
      pose proof (next_found_least s0 true pos2 a s0_sub C2 Has Hlt). lia.
  - pose proof (next_found_at b0 false pos1 (fun _ => id) C1). pose proof (next_found_at s0 true pos2 s0_sub C2).
    subst r. destruct (Z.min_spec (Z.min pos1 pos2) limit) as [[_ ->] | [_ ->]]; [| by left].
    by destruct (Z.min_spec pos1 pos2) as [[_ ->] | [_ ->]].
Qed.

Lemma previous_change pos1 pos2 :
  previous_found b0 true pos1 -> previous_found s0 false pos2 -> let r := Z.max (Z.max pos1 pos2) limit in
  limit <= r /\ (forall a, a ∈ b0 -> forall endp, end_in_text w a endp < pos -> end_in_text w a endp <= r) /\
  (r = limit \/ exists a endp, a ∈ b0 /\ r = end_in_text w a endp /\ r < pos).
Proof.
  intros C1 C2 r. split_and!; [lia | |].
  - intros a Ha endp Hlt. apply before_in_text in Hlt; [| done | by apply Hout]. fold es mempos in Hlt.
    pose proof (lists_each _ _ _ _ _ Hl Ha) as [_ Hb].
    pose proof (fun H => previous_found_greatest b0 true pos1 a (fun _ => id) C1 Ha H) as K1. cbn [extent_endpoint] in K1.
    destruct endp; cbn [extent_endpoint] in Hlt; [specialize (K1 Hlt); lia |].
    destruct (Z.lt_ge_cases (extent_end (ext_at es a)) mempos) as [Hs | Hs].
    + specialize (K1 Hs). pose proof (ends_mono a a false true Ha Ha ltac:(cbn; lia)). lia.
    + assert (a ∈ s0) as Has by (apply Hin; split; [done | unfold overlaps; lia]).
      pose proof (previous_found_greatest s0 false pos2 a s0_sub C2 Has Hlt). lia.
  - pose proof (previous_found_at b0 true pos1 (fun _ => id) C1). pose proof (previous_found_at s0 false pos2 s0_sub C2).
    subst r. destruct (Z.max_spec (Z.max pos1 pos2) limit) as [[_ ->] | [_ ->]]; [by left |].
    by destruct (Z.max_spec pos1 pos2) as [[_ ->] | [_ ->]].
Qed.
End Facts.

(** The lists when the stack of extents has been moved. *)
Ltac move_here Hw w mempos :=
  lazymatch goal with |- context [bind _ (fun _ => bind _ (fun _ => bind _ ?k)) w] =>
    let sel := fresh "sel" in let s0 := fresh "s0" in let s1 := fresh "s1" in
    destruct (moved_here k w _ _ mempos Hw) as (sel & -> & (s0 & s1 & Hs & Hin) & Hw') end;
  cbv beta; cbn [soe_extents]; set (w' := set_soe w _) in *.

Ltac find_ends Hl Hs L1 R1 L2 R2 :=
  lazymatch goal with |- context [bind (on_list _) _ ?v] =>
    rewrite (then_run _ _ v _ v) by (unfold on_list, v; cbn [ew_extents ew_list set_soe]; by rewrite L1);
    rewrite ?(lists_num _ _ _ _ Hl) in R1; rewrite (then_run _ _ _ _ _ R1);
    rewrite (then_run _ _ v _ v) by (unfold on_list, v; cbn [ew_extents ew_list set_soe]; by rewrite L2);
    rewrite (then_run _ _ _ _ _ R2)
  end.

Section Run.
Context {U : Type}.
Variables (w : ext_world U) (b0 b1 : list positive) (pos : Z) (outside : bool) (accessible : Z).
Hypothesis Hw : holds_extents w b0 b1.
Hypothesis Hgap : 0 <= t_gap_size (ew_text w).
Hypothesis Hout : forall a, a ∈ b0 -> forall endp,
  outside_gap (t_gpt (ew_text w)) (t_gap_size (ew_text w)) (extent_endpoint (ext_at (ew_extents w) a) endp).

Lemma end_of_run_run :
  let limit := if outside then t_z (ew_text w) else accessible in
  exists r soe, extent_find_end_of_run pos outside accessible w = Some (r, set_soe w soe) /\
    holds_extents (set_soe w soe) b0 b1 /\ r <= limit /\
    (forall a, a ∈ b0 -> forall endp, pos < end_in_text w a endp -> r <= end_in_text w a endp) /\
    (r = limit \/ exists a endp, a ∈ b0 /\ r = end_in_text w a endp /\ pos < r).
Proof.
  intros limit. pose proof (he_lists _ _ _ Hw) as Hl.
  unfold extent_find_end_of_run. do 2 rewrite (then_run _ _ _ _ _ eq_refl). cbv zeta.
  rewrite (lists_num _ _ _ _ Hl). fold limit. destruct (Z.eqb_spec (zlen b0) 0) as [E | _].
  { destruct b0; [| revert E; lens; lia]. exists limit, (ew_soe w).
    split_and!; [by destruct w | by destruct w | lia | set_solver | by left]. }
  set (mempos := bytind_to_memind (ew_text w) pos). move_here Hw w mempos.
  destruct (next_end w _ _ _ false (mempos + 1) limit w' eq_refl eq_refl Hl) as (i1 & pos1 & L1 & R1 & C1).
  destruct (next_end w _ _ _ true (mempos + 1) limit w' eq_refl eq_refl Hs) as (i2 & pos2 & L2 & R2 & C2).
  find_ends Hl Hs L1 R1 L2 R2. do 2 eexists. split; [done |]. split; [done |].
  by apply (next_change w b0 b1 s0 pos limit).
Qed.

Lemma beginning_of_run_run :
  let limit := if outside then 1 else accessible in
  exists r soe, extent_find_beginning_of_run pos outside accessible w = Some (r, set_soe w soe) /\
    holds_extents (set_soe w soe) b0 b1 /\ limit <= r /\
    (forall a, a ∈ b0 -> forall endp, end_in_text w a endp < pos -> end_in_text w a endp <= r) /\
    (r = limit \/ exists a endp, a ∈ b0 /\ r = end_in_text w a endp /\ r < pos).
Proof.
  intros limit. pose proof (he_lists _ _ _ Hw) as Hl.
  unfold extent_find_beginning_of_run. do 2 rewrite (then_run _ _ _ _ _ eq_refl). cbv zeta.
  rewrite (lists_num _ _ _ _ Hl). fold limit. destruct (Z.eqb_spec (zlen b0) 0) as [E | _].
  { destruct b0; [| revert E; lens; lia]. exists limit, (ew_soe w).
    split_and!; [by destruct w | by destruct w | lia | set_solver | by left]. }
  set (mempos := bytind_to_memind (ew_text w) pos). move_here Hw w mempos.
  destruct (previous_end w _ _ _ true mempos limit w' eq_refl eq_refl Hl) as (i1 & pos1 & L1 & R1 & C1).
  destruct (previous_end w _ _ _ false mempos limit w' eq_refl eq_refl Hs) as (i2 & pos2 & L2 & R2 & C2).
  find_ends Hl Hs L1 R1 L2 R2. do 2 eexists. split; [done |]. split; [done |].
  by apply (previous_change w b0 b1 s0 pos limit).
Qed.
End Run.

(** The run of text at a position: the end that is found is not behind any place after
    the position where an extent begins or ends, and is such a place or the limit; the
    beginning likewise before the position.  Both work wherever the stack of extents was,
    and leave everything but it as it is. *)
Theorem runs_lie_between_changes {U} (w : ext_world U) b0 b1 (pos : Z) (outside : bool) (first last : Z) :
  state_ok w b0 b1 -> 0 <= t_gap_size (ew_text w) ->
  (forall a, a ∈ b0 -> forall endp,
    outside_gap (t_gpt (ew_text w)) (t_gap_size (ew_text w)) (extent_endpoint (ext_at (ew_extents w) a) endp)) ->
  let low := if outside then 1 else first in let high := if outside then t_z (ew_text w) else last in
  (exists r soe, extent_find_end_of_run pos outside last w = Some (r, set_soe w soe) /\
    state_ok (set_soe w soe) b0 b1 /\ r <= high /\
    (forall a, a ∈ b0 -> forall endp, pos < end_in_text w a endp -> r <= end_in_text w a endp) /\
    (r = high \/ exists a endp, a ∈ b0 /\ r = end_in_text w a endp /\ pos < r)) /\
  (exists r soe, extent_find_beginning_of_run pos outside first w = Some (r, set_soe w soe) /\
    state_ok (set_soe w soe) b0 b1 /\ low <= r /\
    (forall a, a ∈ b0 -> forall endp, end_in_text w a endp < pos -> end_in_text w a endp <= r) /\
    (r = low \/ exists a endp, a ∈ b0 /\ r = end_in_text w a endp /\ r < pos)).
Proof.
  intros [Hw Hat] Hgap Hout low high. split.
  - destruct (end_of_run_run w b0 b1 pos outside last Hw Hgap Hout) as (r & soe & E & Hw' & H).
    exists r, soe. split; [done |]. split; [by split | exact H].
  - destruct (beginning_of_run_run w b0 b1 pos outside first Hw Hgap Hout) as (r & soe & E & Hw' & H).
    exists r, soe. split; [done |]. split; [by split | exact H].
Qed.

Definition ops_before_runs : list extent_op :=
  [MakeExtent; MakeExtent; MakeExtent; MakeExtent; SetEnds 1 3 5; SetEnds 2 5 26; SetEnds 3 4 40; SetEnds 4 2 28; MoveStack 30].

Lemma runs_lie_between_changes_witness :
  exists (w : ext_world unit) b0 b1 soe soe',
    perform_all ops_before_runs (no_extents (some_text 6 10) tt) = Some (tt, w) /\
    extent_find_end_of_run 10 true 0 w = Some (16, set_soe w soe) /\ state_ok (set_soe w soe) b0 b1 /\
    (forall a, a ∈ b0 -> forall endp, 10 < end_in_text w a endp -> 16 <= end_in_text w a endp) /\
    extent_find_beginning_of_run 10 true 0 w = Some (5, set_soe w soe') /\ state_ok (set_soe w soe') b0 b1 /\
    (forall a, a ∈ b0 -> forall endp, end_in_text w a endp < 10 -> end_in_text w a endp <= 5).
Proof.
  destruct (perform_all_run ops_before_runs (no_extents (some_text 6 10) tt) [] []) as (w & b0 & b1 & E & Hw & _);
    [apply no_extents_ok | vm_compute; reflexivity |].
  pose proof (f_equal (fmap snd) E) as Ew. vm_compute in Ew.
  assert (map_Forall (fun _ e => outside_gap 6 10 (extent_start e) /\ outside_gap 6 10 (extent_end e)) (ew_extents w)) as Hall
    by (injection Ew as <-; apply (bool_decide_unpack _); vm_compute; exact I).
  assert (ew_text w = some_text 6 10) as Et by (injection Ew as <-; reflexivity).
  destruct (runs_lie_between_changes w b0 b1 10 true 0 0 Hw)
    as [(r & soe & H1 & H2 & _ & H3 & _) (r' & soe' & H4 & H5 & _ & H6 & _)].
  - rewrite Et. cbn. lia.
  - intros a Ha endp. destruct (lists_each _ _ _ _ _ (he_lists _ _ _ (so_holds _ _ _ Hw)) Ha) as [[e He] _].
    rewrite (ext_at_Some _ _ _ He), Et. destruct (Hall a e He). by destruct endp.
  - assert (r = 16) as -> by (pose proof (f_equal (fmap fst) H1) as Er; injection Ew as <-; vm_compute in Er; congruence).
    assert (r' = 5) as -> by (pose proof (f_equal (fmap fst) H4) as Er; injection Ew as <-; vm_compute in Er; congruence).
    exists w, b0, b1, soe, soe'. split_and!; [exact E | exact H1 | exact H2 | exact H3 | exact H4 | exact H5 | exact H6].
Defined.
