(* ===== verification/ExtentAt.v ===== *)
(** * The extent at a position, and walking over the extents

    [extent-at] is a mapping over a region of one character or none (extents.c 4255-4380);
    [extent_first], [extent_next] and their like step over the extents that are not
    internal (extents.c 1679-1788). *)

From Stdlib Require Import Sorting.Sorted.
From S2P Require Import Prelude Buffer Insdel GapArray ExtentList Extents ExtentTheory ExtentState ExtentAdjust ExtentMap ExtentRuns.

#[local] Open Scope ext_scope.

(** ** The extent at a position *)




Section Mapper.
(** Whether an extent has the property asked for, if one is. *)
Variables (prop : option (positive -> bool)) (before : option positive) (all_extents : bool).


End Mapper.



(** ** Walking *)

Fixpoint real_extent_at_forward (n : nat) (es : extents) (el : Extent_List) (pos : Z) (endp : bool)
    : option (option positive) :=
  if pos <? extent_list_num_els el then
    match n with
    | O => None
    | S n =>
        (a ← extent_list_at el pos endp;
         e ← es !! a;
         if negb (extent_internal_p e) then Some (Some a) else real_extent_at_forward n es el (pos + 1) endp)%stdpp
    end
  else Some None.

Fixpoint real_extent_at_backward (n : nat) (es : extents) (el : Extent_List) (pos : Z) (endp : bool)
    : option (option positive) :=
  if pos >=? 0 then
    match n with
    | O => None
    | S n =>
        (a ← extent_list_at el pos endp;
         e ← es !! a;
         if negb (extent_internal_p e) then Some (Some a) else real_extent_at_backward n es el (pos - 1) endp)%stdpp
    end
  else Some None.

Section Walk.
Variables (es : extents) (el : Extent_List).
Let n := S (Z.to_nat (extent_list_num_els el)).

Definition extent_first : option (option positive) := real_extent_at_forward n es el 0 false.
Definition extent_last : option (option positive) :=
  real_extent_at_backward n es el (extent_list_num_els el - 1) false.

Definition extent_next (a : positive) : option (option positive) :=
  (e ← es !! a;
   '(pos, _) ← extent_list_locate es el (Some a) e false;
   real_extent_at_forward n es el (pos + 1) false)%stdpp.

Definition extent_previous (a : positive) : option (option positive) :=
  (e ← es !! a;
   '(pos, _) ← extent_list_locate es el (Some a) e false;
   real_extent_at_backward n es el (pos - 1) false)%stdpp.
End Walk.

(** ** Stepping goes to the neighbours *)

Definition real (es : extents) (a : positive) : bool := negb (extent_internal_p (ext_at es a)).

Section Steps.
Variables (es : extents) (el : Extent_List) (b0 b1 : list positive).
Hypothesis Hl : lists es el b0 b1.

Lemma real_forward_run endp r p n :
  order_of endp b0 b1 = p ++ r -> (length r <= n)%nat ->
  real_extent_at_forward n es el (zlen p) endp = Some (List.find (real es) r).
Proof.
  revert p n. induction r as [| a r IH]; intros p n E Hn.
  - rewrite app_nil_r in E. destruct n; cbn [real_extent_at_forward];
      rewrite (lists_num _ _ _ _ Hl), <- (lists_length _ _ _ _ endp Hl), E; zcase.
  - destruct n as [| n]; [cbn in Hn; lia |]. cbn [real_extent_at_forward].
    rewrite (lists_num _ _ _ _ Hl), <- (lists_length _ _ _ _ endp Hl), E.
    rewrite (proj2 (Z.ltb_lt _ _)) by (do 2 lens; lia). rewrite (lists_at _ _ _ _ endp p a r Hl E). cbn [mbind option_bind].
    assert (a ∈ b0) as Ha by (apply (lists_in _ _ _ _ endp a Hl); rewrite E; set_solver).
    destruct (lists_each _ _ _ _ _ Hl Ha) as [[e He] _]. rewrite He. cbn [mbind option_bind List.find].
    unfold real at 1. rewrite (ext_at_Some _ _ _ He). destruct (extent_internal_p e); cbn [negb]; [| done].
    replace (zlen p + 1) with (zlen (p ++ [a])) by (lens; lia). apply IH; [by rewrite <- app_assoc | cbn in Hn; lia].
Qed.

Lemma real_backward_run endp p q n :
  order_of endp b0 b1 = p ++ q -> (length p <= n)%nat ->
  real_extent_at_backward n es el (zlen p - 1) endp = Some (List.find (real es) (rev p)).
Proof.
  revert q n. induction p as [| a p IH] using rev_ind; intros q n E Hn.
  - by destruct n.
  - rewrite length_app in Hn. destruct n as [| n]; [cbn in Hn; lia |]. cbn [real_extent_at_backward].
    replace (zlen (p ++ [a]) - 1) with (zlen p) by (lens; lia). rewrite (proj2 (Z.geb_le _ _)) by lia.
    rewrite <- app_assoc in E. rewrite (lists_at _ _ _ _ endp p a q Hl E). cbn [mbind option_bind].
    assert (a ∈ b0) as Ha by (apply (lists_in _ _ _ _ endp a Hl); rewrite E; set_solver).
    destruct (lists_each _ _ _ _ _ Hl Ha) as [[e He] _]. rewrite He. cbn [mbind option_bind].
    rewrite rev_app_distr. cbn [rev app List.find].
    unfold real at 1. rewrite (ext_at_Some _ _ _ He). destruct (extent_internal_p e); cbn [negb]; [| done].
    apply (IH (a :: q)); [done | cbn in Hn; lia].
Qed.

(** From an extent of the list to the nearest on each side that are not internal. *)
Theorem steps_go_to_neighbours :
  extent_first es el = Some (List.find (real es) b0) /\
  extent_last es el = Some (List.find (real es) (rev b0)) /\
  forall p a r, b0 = p ++ a :: r ->
    extent_next es el a = Some (List.find (real es) r) /\
    extent_previous es el a = Some (List.find (real es) (rev p)).
Proof.
  unfold extent_first, extent_last, extent_next, extent_previous. rewrite (lists_num _ _ _ _ Hl). split_and!.
  - apply (real_forward_run false b0 []); [done | lia].
  - apply (real_backward_run false b0 []); [by rewrite app_nil_r | lia].
  - intros p a r E. pose proof Hl as (ms0 & ms1 & [H0 H1 Hp Hn Hd Hb O0 O1]).
    assert (a ∈ b0) as Ha by set_solver. destruct (lists_each _ _ _ _ _ Hl Ha) as [[e He] _]. rewrite He. cbn [mbind option_bind].
    destruct (locate_found es el false b0 ms0 a H0 Hd O0 Ha) as (p' & r' & E' & Eloc).
    rewrite E in E', Hn. destruct (middle_unique _ _ _ _ _ Hn E') as [<- <-].
    rewrite (ext_at_Some _ _ _ He) in Eloc. rewrite Eloc. cbn [mbind option_bind]. split.
    + replace (zlen p + 1) with (zlen (p ++ [a])) by (lens; lia).
      apply real_forward_run; [by rewrite <- app_assoc | rewrite E, length_app; cbn; lia].
    + apply (real_backward_run false p (a :: r)); [done | rewrite E, length_app; cbn; lia].
Qed.
End Steps.

(** ** What the mapping finds *)

Section At.
Variables (es : extents) (prop : option (positive -> bool)) (before : option positive) (all_extents : bool).

Definition has_prop (a : positive) : bool := match prop with Some p => p a | None => true end.



(** Up to [before], those with the property. *)
Fixpoint candidates (l : list positive) : list positive :=
  match l with
  | [] => []
  | a :: l => if bool_decide (Some a = before) then []
              else if has_prop a then a :: candidates l else candidates l
  end.

Lemma candidates_in l a : a ∈ candidates l -> a ∈ l.
Proof. induction l as [| b l IH]; cbn; [done |]. case_bool_decide; [set_solver |]. destruct (has_prop b); set_solver. Qed.



End At.







