(* ===== verification/ExtentMarked.v ===== *)
(** * Mapping a function that moves or detaches the extents it is shown

    The list that is mapped over changes under the mapping, which goes on from a marker in
    it.  What is before the marker has been shown, what is behind it is untouched. *)

From Stdlib Require Import Sorting.Sorted.
From S2P Require Import Prelude Buffer Insdel GapArray ExtentList Extents ExtentTheory ExtentState ExtentAdjust ExtentMap.

#[local] Open Scope ext_scope.

Abbreviation places := (list (positive * Z)).

(** Markers when an element goes, and when one comes. *)
Definition gone (i : Z) (ms : places) : places := map (fun m => (m.1, moved_by_delete i 1 m.2)) ms.
Definition come (i : Z) (ms : places) : places := map (fun m => (m.1, moved_by_insert i 1 m.2)) ms.

(** Both lists with the markers in their display order. *)
Record view {U} (w : ext_world U) (pos : Z) (b0 b1 : list positive) (bm : places) (s0 s1 : list positive) (sm : places) : Prop := {
  v_list : exists bm', el_ok (ew_extents w) (ew_list w) b0 b1 bm bm';
  v_soe : exists sel sm', ew_soe w = Some (mk_soe sel pos) /\ el_ok (ew_extents w) sel s0 s1 sm sm';
  v_over : forall a, a ∈ s0 <-> a ∈ b0 /\ overlaps (ew_extents w) pos a;
}.

Lemma el_ok_frame es es' el l0 l1 ms0 ms1 :
  (forall a, a ∈ l0 -> es' !! a = es !! a) -> el_ok es el l0 l1 ms0 ms1 -> el_ok es' el l0 l1 ms0 ms1.
Proof.
  intros H [H0 H1 Hp Hn Hd Hb O0 O1].
  assert (forall a, a ∈ l0 -> ext_at es' a = ext_at es a) as Hat by (intros a Ha; unfold ext_at; by rewrite H).
  split; [done.. | | | |].
  - apply Forall_forall. intros a Ha. rewrite H by done. by eapply Forall_forall in Hd.
  - apply Forall_forall. intros a Ha. rewrite Hat by done. by eapply Forall_forall in Hb.
  - by eapply in_order_frame.
  - eapply in_order_frame; [| exact O1]. intros a Ha. apply Hat. by rewrite Hp.
Qed.

Section View.
Context {U : Type}.
Implicit Types (w : ext_world U).

Lemma view_holds w pos b0 b1 bm s0 s1 sm : view w pos b0 b1 bm s0 s1 sm -> holds_extents w b0 b1.
Proof.
  intros [[bm' Hb] (sel & sm' & Es & Hs) Ho]. split; [by do 2 eexists |].
  rewrite Es. intros ? [= <-]. exists s0, s1. split; [by do 2 eexists | exact Ho].
Qed.

Lemma view_frame w w' pos b0 b1 bm s0 s1 sm :
  ew_list w' = ew_list w -> ew_soe w' = ew_soe w ->
  (forall a, a ∈ b0 -> ew_extents w' !! a = ew_extents w !! a) ->
  view w pos b0 b1 bm s0 s1 sm -> view w' pos b0 b1 bm s0 s1 sm.
Proof.
  intros El Es Hf [[bm' Hb] (sel & sm' & Eq & Hs) Ho]. split.
  - exists bm'. rewrite El. by eapply el_ok_frame.
  - exists sel, sm'. rewrite Es. split; [done |]. eapply el_ok_frame; [| exact Hs]. intros a [Ha _]%Ho. by apply Hf.
  - intros a. rewrite Ho. split; intros [Ha Hov]; (split; [done |]); by apply (overlaps_frame (ew_extents w) (ew_extents w') pos a (Hf a Ha)).
Qed.

Lemma view_detach w pos b0 b1 bm s0 s1 sm a e :
  view w pos b0 b1 bm s0 s1 sm -> a ∈ b0 -> ew_extents w !! a = Some e ->
  exists w' p q b1', b0 = p ++ a :: q /\ extent_detach a w = Some (tt, w') /\
    ew_extents w' = <[a := detached e]> (ew_extents w) /\ ew_text w' = ew_text w /\
    ((a ∉ s0 /\ view w' pos (p ++ q) b1' (gone (zlen p) bm) s0 s1 sm) \/
     exists p' q' s1', s0 = p' ++ a :: q' /\
       view w' pos (p ++ q) b1' (gone (zlen p) bm) (p' ++ q') s1' (gone (zlen p') sm)).
Proof.
  intros [[bm' Hb] (sel & sm' & Es & Hs) Ho] Ha He.
  pose proof (Forall_in a (eo_bounds _ _ _ _ _ _ Hb) Ha) as Hbd. cbn in Hbd. rewrite (ext_at_Some _ _ _ He) in Hbd.
  pose proof (eo_nodup _ _ _ _ _ _ Hb) as Hn.
  destruct (extent_list_delete_ok _ _ _ _ _ _ a Hb Ha) as (el' & p & q & p1 & q1 & -> & _ & Ed & Hb').
  rewrite <- Permutation_middle in Hn. apply NoDup_cons in Hn as [Hn _].
  assert (overlaps (ew_extents w) pos a <-> extent_start e <= pos <= extent_end e) as Hov
    by (unfold overlaps; by rewrite (ext_at_Some _ _ _ He)).
  assert (forall c, c ∈ p ++ q -> <[a := detached e]> (ew_extents w) !! c = ew_extents w !! c) as Hf
    by (intros c Hc; apply lookup_insert_ne; intros ->; done).
  set (w1 := set_list w el').
  assert (exists soe', soe_delete a w1 = Some (tt, set_soe w1 (Some (mk_soe soe' pos))) /\
    ((a ∉ s0 /\ soe' = sel) \/ exists p' q' p1' q1' sm1, s0 = p' ++ a :: q' /\
      el_ok (ew_extents w) soe' (p' ++ q') (p1' ++ q1') (gone (zlen p') sm) sm1)) as (sel' & Esd & Hcase).
  { unfold soe_delete, buffer_or_string_stack_of_extents. cbv beta iota delta [bind gets].
    rewrite (the_extent_run a w1 e He). cbn [ew_soe w1 set_list]. rewrite Es. cbn [soe_pos].
    destruct ((pos <? extent_start e) || (pos >? extent_end e)) eqn:E.
    - exists sel. split; [unfold ret; do 2 f_equal; unfold w1, set_list, set_soe; cbn; by rewrite Es |]. left. split; [| done].
      intros [_ H]%Ho. apply Hov in H. revert E. ztest; lia || done.
    - assert (a ∈ s0) as Has by (apply Ho; split; [done |]; apply Hov; revert E; ztest; lia || done).
      destruct (extent_list_delete_ok _ _ _ _ _ _ a Hs Has) as (sel' & p' & q' & p1' & q1' & -> & _ & Esd & Hs').
      exists sel'. unfold change_soe. cbv beta iota delta [bind gets lift modify]. cbn [soe_extents soe_pos ew_extents w1 set_list].
      rewrite Esd. split; [done |]. right. by exists p', q', p1', q1'; eexists. }
  unfold extent_detach. rewrite (then_run _ _ _ _ _ (the_extent_run a w e He)). unfold extent_detached_p.
  rewrite (proj2 (Z.ltb_ge _ _)) by lia.
  rewrite (then_run _ _ _ _ _ (change_list_run (fun es el => extent_list_delete es el a) w el' Ed)). fold w1.
  rewrite (then_run _ _ _ _ _ Esd). set (w2 := set_soe w1 _).
  rewrite (then_run _ _ _ _ _ (update_extent_run a _ w2 e He)).
  rewrite (update_extent_run a _ (set_extents w2 _) (set_extent_start e (-1))) by apply lookup_insert_eq.
  cbn [ew_extents set_extents]. rewrite insert_insert_eq.
  do 4 eexists. split_and!; [done.. |]. change (set_extent_end (set_extent_start e (-1)) (-1)) with (detached e) in *.
  assert (forall c, c ∈ p ++ q -> overlaps (<[a := detached e]> (ew_extents w)) pos c <-> overlaps (ew_extents w) pos c) as Hof
    by (intros c Hc; apply overlaps_frame; by apply Hf).
  destruct Hcase as [[Has ->] | (p' & q' & p1' & q1' & sm1 & -> & Hs')].
  - left. split; [done |]. split.
    + eexists. by eapply el_ok_frame.
    + exists sel, sm'. split; [done |]. eapply el_ok_frame; [| exact Hs]. intros c Hc. apply Hf.
      apply Ho in Hc as Hc'. destruct Hc' as [Hc' _]. assert (c <> a) by (intros ->; done). set_solver.
    + intros c. rewrite Ho. cbn. split; intros [Hc Hoc].
      * assert (c ∈ p ++ q) as Hc' by (assert (c <> a) by (intros ->; apply Has, Ho; by split); set_solver).
        split; [done | by apply Hof].
      * split; [set_solver | by apply Hof].
  - right. exists p', q', (p1' ++ q1'). split; [done |]. pose proof (eo_nodup _ _ _ _ _ _ Hs) as Hsn.
    rewrite <- Permutation_middle in Hsn. apply NoDup_cons in Hsn as [Hsn _].
    assert (forall c, c ∈ p' ++ q' -> c ∈ p ++ q) as Hsub.
    { intros c Hc. assert (c ∈ p' ++ a :: q') as [Hc' _]%Ho by set_solver. assert (c <> a) by (intros ->; done). set_solver. }
    split.
    + eexists. by eapply el_ok_frame.
    + exists sel', sm1. split; [done |]. eapply el_ok_frame; [| exact Hs']. intros c Hc. by apply Hf, Hsub.
    + intros c. cbn. split.
      * intros Hc. split; [by apply Hsub |]. apply Hof; [by apply Hsub |].
        assert (c ∈ p' ++ a :: q') as [_ ?]%Ho by set_solver. done.
      * intros [Hc Hoc]. apply Hof in Hoc; [| done]. assert (c ∈ p' ++ a :: q') as Hc' by (apply Ho; split; [set_solver | done]).
        assert (c <> a) by (intros ->; done). set_solver.
Qed.

(** An extent that is in no list goes to its place. *)
Lemma view_place w pos b0 b1 bm s0 s1 sm a e start ends :
  view w pos b0 b1 bm s0 s1 sm -> ew_extents w !! a = Some e -> a ∉ b0 -> 0 <= start <= ends ->
  let e' := set_extent_end (set_extent_start e start) ends in
  exists w' p q b1', b0 = p ++ q /\
    (update_extent a (fun e => set_extent_start e start);; update_extent a (fun e => set_extent_end e ends);;
     extent_attach a) w = Some (tt, w') /\
    ew_extents w' = <[a := e']> (ew_extents w) /\ ew_text w' = ew_text w /\
    ((~ start <= pos <= ends /\ view w' pos (p ++ a :: q) b1' (come (zlen p) bm) s0 s1 sm) \/
     exists p' q' s1', s0 = p' ++ q' /\
       view w' pos (p ++ a :: q) b1' (come (zlen p) bm) (p' ++ a :: q') s1' (come (zlen p') sm)).
Proof.
  intros Hv He Ha Hse e'.
  rewrite (then_run _ _ _ _ _ (update_extent_run a _ w e He)).
  rewrite (then_run _ _ _ _ _ (update_extent_run a _ (set_extents w _) _ (lookup_insert_eq _ _ _))). cbn [ew_extents set_extents].
  rewrite insert_insert_eq. fold e'. change (set_extents (set_extents w ?x) ?y) with (set_extents w y).
  set (es' := <[a := e']> (ew_extents w)). set (w1 := set_extents w es').
  assert (view w1 pos b0 b1 bm s0 s1 sm) as [[bm' Hb] (sel & sm' & Es & Hs) Ho].
  { apply (view_frame w w1); [done | done | | exact Hv]. intros c Hc. apply lookup_insert_ne. by intros ->. }
  assert (ew_extents w1 !! a = Some e') as He' by apply lookup_insert_eq.
  assert (ext_at (ew_extents w1) a = e') as Eat by (by apply ext_at_Some).
  destruct (extent_list_insert_ok _ _ _ _ _ _ a Hb Ha ltac:(by rewrite He') ltac:(by rewrite Eat))
    as (el' & p & q & p1 & q1 & -> & -> & Ei & Hb').
  unfold extent_attach. rewrite (then_run _ _ _ _ _ (change_list_run (fun es el => extent_list_insert es el a) w1 el' Ei)).
  set (w2 := set_list w1 el'). unfold soe_insert, buffer_or_string_stack_of_extents. cbv beta iota delta [bind gets].
  rewrite (the_extent_run a w2 e' He'). cbn [ew_soe w2 set_list]. rewrite Es. cbn [soe_pos extent_start extent_end].
  change (extent_start e') with start. change (extent_end e') with ends.
  destruct ((pos <? start) || (pos >? ends)) eqn:E.
  - exists w2, p, q, (p1 ++ a :: q1). split_and!; [done.. |]. left. split; [revert E; ztest; lia || done |].
    split; [by eexists | by exists sel, sm' |].
    intros c. rewrite Ho. cbn. split; intros [Hc Hov]; (split; [| done]); [set_solver |].
    assert (c <> a); [| set_solver]. intros ->. unfold overlaps in Hov. change (ext_at es' a) with (ext_at (ew_extents w1) a) in Hov. rewrite Eat in Hov. cbn in Hov. revert E Hov. ztest; lia || done.
  - assert (a ∉ s0) as Has by (by intros [? _]%Ho).
    destruct (extent_list_insert_ok _ _ _ _ _ _ a Hs Has ltac:(by rewrite He') ltac:(by rewrite Eat))
      as (sel' & p' & q' & p1' & q1' & -> & -> & Esi & Hs').
    unfold change_soe. cbv beta iota delta [bind gets lift modify]. cbn [soe_extents soe_pos]. change (ew_extents w2) with (ew_extents w1).
    rewrite Esi. do 4 eexists. split_and!; [done.. |]. right. do 3 eexists. split; [done |].
    split; [by eexists | by do 2 eexists |]. intros c. cbn.
    assert (overlaps (ew_extents w1) pos a) as Hova by (unfold overlaps; rewrite Eat; cbn; revert E; ztest; lia || done).
    rewrite !elem_of_app, !elem_of_cons. specialize (Ho c). rewrite !elem_of_app in Ho.
    destruct (decide (c = a)) as [-> | ?]; [split; [intros _; split; [by right; left | done] | by right; left] |]. tauto.
Qed.

(** ** Markers *)

Definition at_marker (ms : places) (m : positive) (i : Z) : Prop := find_marker ms m = Some i.

Lemma at_marker_gone ms m i j : at_marker ms m i -> at_marker (gone j ms) m (moved_by_delete j 1 i).
Proof. unfold at_marker, gone. rewrite find_marker_map. by intros ->. Qed.

Lemma at_marker_come ms m i j : at_marker ms m i -> at_marker (come j ms) m (moved_by_insert j 1 i).
Proof. unfold at_marker, come. rewrite find_marker_map. by intros ->. Qed.

Lemma at_marker_moved ms m i j : at_marker ms m i ->
  at_marker (map (fun p => if bool_decide (p.1 = m) then (m, j) else p) ms) m j.
Proof.
  unfold at_marker, find_marker. induction ms as [| [k x] ms IH]; cbn; [done |]. case_bool_decide as E; cbn.
  - by rewrite bool_decide_eq_true_2.
  - by rewrite bool_decide_eq_false_2.
Qed.

Lemma el_ok_move_marker es el l0 l1 ms0 ms1 m i j :
  el_ok es el l0 l1 ms0 ms1 -> at_marker ms0 m i -> 0 <= j <= zlen l0 -> exists ms0',
    el_ok es (extent_list_move_marker el (mk_elm m false) j) l0 l1 ms0' ms1 /\ at_marker ms0' m j.
Proof.
  intros [H0 H1 Hp Hn Hd Hb O0 O1] Hm Hj. eexists. split; [| by eapply at_marker_moved].
  split; [| done..]. cbn. by apply move_marker_holds.
Qed.

Lemma el_ok_make_marker es el l0 l1 ms0 ms1 i :
  el_ok es el l0 l1 ms0 ms1 -> 0 <= i <= zlen l0 -> exists m el' ms0',
    extent_list_make_marker el i false = (mk_elm m false, el') /\ el_ok es el' l0 l1 ms0' ms1 /\ at_marker ms0' m i.
Proof.
  intros [H0 H1 Hp Hn Hd Hb O0 O1] Hi. pose proof (make_marker_holds (el_start el) l0 ms0 i H0 Hi) as Hm.
  unfold extent_list_make_marker. cbn [el_array]. destruct (gap_array_make_marker (el_start el) i) as [m ga].
  destruct Hm as [Hm _]. exists m. do 2 eexists. split_and!; [done | split; [exact Hm | done..] |].
  unfold at_marker, find_marker. cbn. by rewrite bool_decide_eq_true_2.
Qed.

Lemma el_ok_delete_marker es el l0 l1 ms0 ms1 m :
  el_ok es el l0 l1 ms0 ms1 -> exists ms0', el_ok es (extent_list_delete_marker el (mk_elm m false)) l0 l1 ms0' ms1.
Proof. intros [H0 H1 Hp Hn Hd Hb O0 O1]. eexists. split; [| done..]. cbn. by apply delete_marker_holds. Qed.

Lemma el_ok_marker_pos es el l0 l1 ms0 ms1 m i :
  el_ok es el l0 l1 ms0 ms1 -> at_marker ms0 m i -> extent_list_marker_pos el (mk_elm m false) = Some i.
Proof. intros [H0 _ _ _ _ _ _ _] Hm. unfold extent_list_marker_pos. cbn. by rewrite (marker_pos_holds _ _ _ _ H0). Qed.
End View.

(** ** The loop *)

Section Loop.
Context {U : Type}.
Variables (fn : positive -> X U bool) (g : extent -> extent) (flags pos st en : Z) (t : buffer_text).
Hypothesis flags_ok : flags_known flags = true.

(** Whether an extent is shown to the function, and what it becomes. *)
Definition shown (e : extent) : bool :=
  negb (extent_internal_p e && negb (flag flags ME_INCLUDE_INTERNAL)) &&
  default false (extent_in_region_p t e (memind_to_bytind t st) (memind_to_bytind t en) flags).
Definition becomes (e : extent) : extent := if shown e then g e else e.

(** What the function may count on, in each stage. *)
Variable fit : bool -> extent -> Prop.
Hypothesis shown_starts : forall soe e, fit soe e -> shown e = true -> extent_start e <= en.

(** The list of a stage, and the markers in it. *)
Definition of_stage {A} (soe : bool) (b s : A) : A := if soe then s else b.

(** The function, called on the extent before the marker, leaves what is behind it. *)
Definition leaves_rest (soe : bool) : Prop :=
  forall (w : ext_world U) b0 b1 bm s0 s1 sm a e d r m,
    view w pos b0 b1 bm s0 s1 sm -> (forall c, attached (ew_extents w) b0 c) -> ew_text w = t ->
    of_stage soe b0 s0 = d ++ a :: r -> at_marker (of_stage soe bm sm) m (zlen d + 1) -> ew_extents w !! a = Some e -> shown e = true -> fit soe e ->
    exists w' b0' b1' bm' s0' s1' sm' d',
      fn a w = Some (false, w') /\ view w' pos b0' b1' bm' s0' s1' sm' /\
      (forall c, attached (ew_extents w') b0' c) /\ ew_text w' = t /\
      of_stage soe b0' s0' = d' ++ r /\ at_marker (of_stage soe bm' sm') m (zlen d') /\
      ew_extents w' = <[a := g e]> (ew_extents w).

Lemma order_starts es a l c : in_order es false (a :: l) -> c ∈ a :: l ->
  extent_start (ext_at es a) <= extent_start (ext_at es c).
Proof.
  intros [_ H]%StronglySorted_inv [-> | Hc]%elem_of_cons; [done |]. eapply Forall_forall in H; [| exact Hc].
  revert H. unfold extent_less, EXTENT_LESS, EXTENT_LESS_VALS. ztest; lia || done.
Qed.

Section Stage.
Variable soe : bool.
Hypothesis Hfn : leaves_rest soe.

Lemma stage_view (w : ext_world U) b0 b1 bm s0 s1 sm :
  view w pos b0 b1 bm s0 s1 sm -> exists el l1 ms1,
    mapped_list soe w = Some (el, w) /\
    el_ok (ew_extents w) el (of_stage soe b0 s0) l1 (of_stage soe bm sm) ms1 /\
    forall el' ms0' ms1', el_ok (ew_extents w) el' (of_stage soe b0 s0) l1 ms0' ms1' ->
      exists w' bm' sm', set_mapped_list soe el' w = Some (tt, w') /\ view w' pos b0 b1 bm' s0 s1 sm' /\
        of_stage soe bm' sm' = ms0' /\ ew_extents w' = ew_extents w /\ ew_text w' = ew_text w.
Proof.
  clear Hfn. intros [[bm' Hb] (sel & sm' & Es & Hs) Ho]. destruct soe; cbn [of_stage].
  - exists sel, s1, sm'. split_and!; [| done |].
    + unfold mapped_list, buffer_or_string_stack_of_extents_force, gets. cbv beta iota delta [bind]. by rewrite Es.
    + intros el' ms0' ms1' He. unfold set_mapped_list, buffer_or_string_stack_of_extents_force, gets, modify.
      cbv beta iota delta [bind]. rewrite Es. do 3 eexists. split_and!; [done | | done | done | done].
      split; [by eexists | | done]. by do 2 eexists.
  - exists (ew_list w), b1, bm'. split_and!; [done | done |]. intros el' ms0' ms1' He.
    do 3 eexists. split_and!; [done | | done | done | done]. split; [by eexists | | done]. by do 2 eexists.
Qed.

Lemma marked_loop_run r : forall (w : ext_world U) b0 b1 bm s0 s1 sm d m fuel i,
  view w pos b0 b1 bm s0 s1 sm -> (forall c, attached (ew_extents w) b0 c) -> ew_text w = t ->
  of_stage soe b0 s0 = d ++ r -> at_marker (of_stage soe bm sm) m (zlen d) -> (length r < fuel)%nat ->
  (forall a e, a ∈ r -> ew_extents w !! a = Some e -> fit soe e) ->
  exists w' b0' b1' bm' s0' s1' sm',
    map_loop fn flags fuel soe false None (Some (mk_elm m false)) i st en None w = Some (false, None, (st, en), w') /\
    view w' pos b0' b1' bm' s0' s1' sm' /\ (forall c, attached (ew_extents w') b0' c) /\ ew_text w' = t /\
    forall a, ew_extents w' !! a = if bool_decide (a ∈ r) then becomes <$> ew_extents w !! a else ew_extents w !! a.
Proof.
  induction r as [| a r IH]; intros w b0 b1 bm s0 s1 sm d m [| fuel] i Hv Hat Ht E Hm Hf Hfit; cbn [length] in Hf; try lia.
  - destruct (stage_view _ _ _ _ _ _ _ Hv) as (el & l1 & ms1 & Em & Hel & _). cbn [map_loop].
    rewrite (then_run _ _ _ _ _ Em). unfold lift at 1. rewrite (el_ok_marker_pos _ _ _ _ _ _ _ _ Hel Hm).
    rewrite (then_run _ _ _ _ _ eq_refl). unfold extent_list_num_els. rewrite (ga_count _ _ _ (eo_start _ _ _ _ _ _ Hel)), E, app_nil_r.
    rewrite (proj2 (Z.geb_le _ _)) by lia. do 7 eexists. split_and!; [done | exact Hv | exact Hat | done |].
    intros a. by rewrite bool_decide_eq_false_2 by set_solver.
  - destruct (stage_view _ _ _ _ _ _ _ Hv) as (el & l1 & ms1 & Em & Hel & Hset). cbn [map_loop].
    rewrite (then_run _ _ _ _ _ Em). unfold lift at 1. rewrite (el_ok_marker_pos _ _ _ _ _ _ _ _ Hel Hm).
    rewrite (then_run _ _ _ _ _ eq_refl). unfold extent_list_num_els. rewrite (ga_count _ _ _ (eo_start _ _ _ _ _ _ Hel)), E.
    destruct (Z.geb_spec (zlen d) (zlen (d ++ a :: r))) as [Hge | _]; [revert Hge; do 2 lens; lia |].
    unfold lift at 1. assert (extent_list_at el (zlen d) false = Some a) as ->
      by (eapply (lists_at (ew_extents w) el _ l1 false d a r); [by do 2 eexists | exact E]).
    rewrite (then_run _ _ _ _ _ eq_refl).
    destruct (el_ok_move_marker _ _ _ _ _ _ m (zlen d) (zlen d + 1) Hel Hm) as (ms0' & Hel' & Hm'); [rewrite E; do 2 lens; lia |].
    destruct (Hset _ _ _ Hel') as (w1 & bm1 & sm1 & Es1 & Hv1 & <- & Hx1 & Ht1).
    rewrite (then_run _ _ _ _ _ Es1). cbv zeta.
    assert (a ∈ of_stage soe b0 s0) as Ha by (rewrite E; set_solver).
    pose proof (Forall_in a (eo_dom _ _ _ _ _ _ Hel) Ha) as [e He]. rewrite <- Hx1 in He.
    pose proof (eo_nodup _ _ _ _ _ _ Hel) as Hn. rewrite E in Hn. apply NoDup_app in Hn as (_ & _ & [Hna _]%NoDup_cons).
    rewrite (then_run _ _ _ _ _ (the_extent_run a w1 e He)). rewrite bool_decide_eq_false_2, orb_false_r by done.
    (* the rest, after the function or without it *)
    assert (forall w2 c0 c1 cm u0 u1 um d', view w2 pos c0 c1 cm u0 u1 um -> (forall c, attached (ew_extents w2) c0 c) -> ew_text w2 = t ->
      of_stage soe c0 u0 = d' ++ r -> at_marker (of_stage soe cm um) m (zlen d') ->
      ew_extents w2 = <[a := becomes e]> (ew_extents w1) ->
      exists w' b0' b1' bm' s0' s1' sm',
        map_loop fn flags fuel soe false None (Some (mk_elm m false)) (zlen d + 1) st en None w2 = Some (false, None, (st, en), w') /\
        view w' pos b0' b1' bm' s0' s1' sm' /\ (forall c, attached (ew_extents w') b0' c) /\ ew_text w' = t /\
        forall c, ew_extents w' !! c = if bool_decide (c ∈ a :: r) then becomes <$> ew_extents w !! c else ew_extents w !! c) as Hgo.
    { intros w2 c0 c1 cm u0 u1 um d' Hv2 Hat2 Ht2 E2 Hm2 Hx2.
      destruct (IH w2 c0 c1 cm u0 u1 um d' m fuel (zlen d + 1) Hv2 Hat2 Ht2 E2 Hm2) as (w' & ? & ? & ? & ? & ? & ? & Er & Hv' & Hat' & Ht' & Hx'); [lia | |].
      { intros c ce Hc. rewrite Hx2, lookup_insert_ne, Hx1 by (intros ->; done). apply Hfit. set_solver. }
      do 7 eexists. split_and!; [exact Er | exact Hv' | exact Hat' | exact Ht' |]. intros c. rewrite Hx', Hx2. destruct (decide (a = c)) as [<- | Hc].
      - rewrite bool_decide_eq_false_2, bool_decide_eq_true_2 by set_solver. rewrite <- Hx1, He. by rewrite lookup_insert_eq.
      - rewrite lookup_insert_ne, Hx1 by done. case_bool_decide; case_bool_decide; set_solver. }
    assert (shown e = false -> exists w' b0' b1' bm' s0' s1' sm',
        map_loop fn flags fuel soe false None (Some (mk_elm m false)) (zlen d + 1) st en None w1 = Some (false, None, (st, en), w') /\
        view w' pos b0' b1' bm' s0' s1' sm' /\ (forall c, attached (ew_extents w') b0' c) /\ ew_text w' = t /\
        forall c, ew_extents w' !! c = if bool_decide (c ∈ a :: r) then becomes <$> ew_extents w !! c else ew_extents w !! c) as Hskip.
    { intros Hs. apply (Hgo w1 b0 b1 bm1 s0 s1 sm1 (d ++ [a])); [done | by rewrite Hx1 | congruence | by rewrite <- app_assoc | |].
      - replace (zlen (d ++ [a])) with (zlen d + 1) by (lens; lia). done.
      - symmetry. apply insert_id. unfold becomes. by rewrite Hs. }
    unfold shown in Hskip at 1. destruct (extent_internal_p e && negb (flag flags ME_INCLUDE_INTERNAL)) eqn:Ei; cbn [negb andb] in Hskip; [by apply Hskip |].
    do 2 rewrite (then_run _ _ _ _ _ eq_refl). cbv beta iota. cbn [extent_endpoint].
    destruct (Z.gtb_spec (extent_start e) en) as [Hgt | Hle].
    { (* behind the region, and so is the rest *)
      exists w1, b0, b1, bm1, s0, s1, sm1. split_and!; [done | done | by rewrite Hx1 | congruence |]. intros c. rewrite Hx1. case_bool_decide as Hc; [| done].
      destruct (ew_extents w !! c) as [ce |] eqn:Ece; [| done]. cbn. f_equal. unfold becomes.
      destruct (shown ce) eqn:Esh; [| done]. apply (shown_starts soe ce (Hfit c ce Hc Ece)) in Esh. exfalso. rewrite Hx1 in He.
      pose proof (lists_order _ _ _ _ false (ex_intro _ _ (ex_intro _ _ Hel))) as Ho. cbn [order_of] in Ho. rewrite E in Ho.
      apply in_order_app in Ho as (_ & Ho & _). pose proof (order_starts _ _ _ c Ho Hc) as Hs.
      rewrite (ext_at_Some _ _ _ He), (ext_at_Some _ _ _ Ece) in Hs. lia. }
    rewrite (then_run _ _ _ _ _ eq_refl). replace (ew_text w1) with t by congruence.
    destruct (in_region_known t e (memind_to_bytind t st) (memind_to_bytind t en) flags flags_ok) as [b Eb].
    unfold lift at 1. rewrite Eb in Hskip |- *. rewrite (then_run _ _ _ _ _ eq_refl). destruct b; [| by apply Hskip].
    assert (shown e = true) as Hsh by (unfold shown; by rewrite Ei, Eb).
    destruct (Hfn w1 b0 b1 bm1 s0 s1 sm1 a e d r m Hv1 ltac:(by rewrite Hx1) ltac:(congruence) E Hm' He Hsh
      ltac:(apply (Hfit a); [set_solver | by rewrite <- Hx1]))
      as (w2 & c0 & c1 & cm & u0 & u1 & um & d' & Efn & Hv2 & Hat2 & Ht2 & E2 & Hm2 & Hx2).
    rewrite (then_run _ _ _ _ _ Efn). eapply Hgo; [exact Hv2 | exact Hat2 | exact Ht2 | exact E2 | exact Hm2 |].
    rewrite Hx2. unfold becomes. by rewrite Hsh.
Qed.
End Stage.

(** ** Both stages *)

Hypothesis Hmod : flag flags ME_MIGHT_MODIFY_EXTENTS = true.

(** A stage begins at [d], with a marker of its own. *)
Lemma marked_stage_run soe (w : ext_world U) b0 b1 bm s0 s1 sm d r fuel :
  leaves_rest soe -> view w pos b0 b1 bm s0 s1 sm -> (forall c, attached (ew_extents w) b0 c) -> ew_text w = t ->
  of_stage soe b0 s0 = d ++ r -> (length r < fuel)%nat ->
  (forall a e, a ∈ r -> ew_extents w !! a = Some e -> fit soe e) ->
  exists w' b0' b1' bm' s0' s1' sm' m,
    map_stage fn flags fuel soe false None (zlen d) st en None w = Some (false, None, (st, en), Some (mk_elm m false), w') /\
    view w' pos b0' b1' bm' s0' s1' sm' /\ (forall c, attached (ew_extents w') b0' c) /\ ew_text w' = t /\
    forall a, ew_extents w' !! a = if bool_decide (a ∈ r) then becomes <$> ew_extents w !! a else ew_extents w !! a.
Proof.
  intros Hfn Hv Hat Ht E Hf Hfit. unfold map_stage. rewrite Hmod.
  destruct (stage_view soe _ _ _ _ _ _ _ Hv) as (el & l1 & ms1 & Em & Hel & Hset). rewrite (then_run _ _ _ _ _ Em).
  destruct (el_ok_make_marker _ _ _ _ _ _ (zlen d) Hel) as (m & el' & ms0' & -> & Hel' & Hm); [rewrite E; lens; lia |].
  destruct (Hset _ _ _ Hel') as (w1 & bm1 & sm1 & Es1 & Hv1 & <- & Hx1 & Ht1). rewrite (then_run _ _ _ _ _ Es1).
  destruct (marked_loop_run soe Hfn r w1 b0 b1 bm1 s0 s1 sm1 d m fuel (zlen d) Hv1) as (w' & b0' & b1' & bm' & s0' & s1' & sm' & Er & Hv' & Hat' & Ht' & Hx');
    [by rewrite Hx1 | congruence | exact E | exact Hm | exact Hf | by rewrite Hx1 |].
  rewrite (then_run _ _ _ _ _ Er). cbv iota beta. exists w', b0', b1', bm', s0', s1', sm', m. rewrite <- Hx1. by split_and!.
Qed.

Lemma delete_posm_run soe (w : ext_world U) b0 b1 bm s0 s1 sm m :
  view w pos b0 b1 bm s0 s1 sm -> exists w' bm' sm',
    delete_posm soe (Some (mk_elm m false)) w = Some (tt, w') /\ view w' pos b0 b1 bm' s0 s1 sm' /\
    ew_extents w' = ew_extents w /\ ew_text w' = ew_text w.
Proof.
  intros Hv. destruct (stage_view soe _ _ _ _ _ _ _ Hv) as (el & l1 & ms1 & Em & Hel & Hset). unfold delete_posm.
  rewrite (then_run _ _ _ _ _ Em). destruct (el_ok_delete_marker _ _ _ _ _ _ m Hel) as (ms0' & Hel').
  destruct (Hset _ _ _ Hel') as (w' & bm' & sm' & Es & Hv' & _ & Hx & Ht). by exists w', bm', sm'.
Qed.

Lemma delete_posm_list posm (w w' : ext_world U) : delete_posm true posm w = Some (tt, w') -> ew_list w' = ew_list w.
Proof.
  unfold delete_posm, mapped_list, set_mapped_list, buffer_or_string_stack_of_extents_force, gets, modify, ret.
  cbv beta iota delta [bind]. destruct posm; [| by intros [= <-]].
  destruct (ew_soe w) as [soe |] eqn:E; cbn; [rewrite E |]; by intros [= <-].
Qed.

(** Who is attached is known from the extents. *)
Lemma view_member (w : ext_world U) b0 b1 bm s0 s1 sm a :
  view w pos b0 b1 bm s0 s1 sm -> (forall c, attached (ew_extents w) b0 c) ->
  a ∈ b0 <-> exists e, ew_extents w !! a = Some e /\ 0 <= extent_start e.
Proof.
  intros [[bm' Hb] _ _] Hat. split.
  - intros Ha. pose proof (Forall_in a (eo_dom _ _ _ _ _ _ Hb) Ha) as [e He]. exists e. split; [done |]. by apply (Hat a e He).
  - intros (e & He & Hs). by apply (Hat a e He).
Qed.

Hypothesis Hsoe : leaves_rest true.
Hypothesis Hrange : leaves_rest false.
Hypothesis pos_st : pos = st.
Hypothesis shown_overlaps : forall e, fit true e -> shown e = true -> st <= extent_end e.
Hypothesis fit_kept : forall e, fit true e -> st < extent_start (becomes e) -> fit true (becomes e).
Hypothesis fit_range : forall e, fit true e -> st < extent_start e -> fit false e.
Hypothesis done_once : forall e, shown e = true -> st < extent_start (g e) -> becomes (g e) = g e.

(** The range stage, from the first extent whose start is at [x] or behind it. *)
Lemma marked_range_run (w : ext_world U) b0 b1 bm s0 s1 sm x fuel :
  view w pos b0 b1 bm s0 s1 sm -> (forall c, attached (ew_extents w) b0 c) -> ew_text w = t -> (length b0 < fuel)%nat ->
  (forall a e, a ∈ b0 -> ew_extents w !! a = Some e -> x <= extent_start e -> fit false e) ->
  exists w' b0' b1' bm' s0' s1' sm' i m,
    extent_list_locate_from_pos (ew_extents w) (ew_list w) x false = Some i /\
    map_stage fn flags fuel false false None i st en None w = Some (false, None, (st, en), Some (mk_elm m false), w') /\
    view w' pos b0' b1' bm' s0' s1' sm' /\ (forall c, attached (ew_extents w') b0' c) /\
    forall a, ew_extents w' !! a =
      if bool_decide (a ∈ b0 /\ x <= extent_start (ext_at (ew_extents w) a)) then becomes <$> ew_extents w !! a
      else ew_extents w !! a.
Proof.
  intros Hv Hat Ht Hf Hfit. pose proof (he_lists _ _ _ (view_holds _ _ _ _ _ _ _ _ Hv)) as Hl.
  destruct (lists_locate _ _ _ _ false x Hl) as (p & r & E & Ep & Hp & Hr). cbn [order_of] in E.
  destruct (marked_stage_run false w b0 b1 bm s0 s1 sm p r fuel Hrange Hv Hat Ht E) as (w' & b0' & b1' & bm' & s0' & s1' & sm' & m & Es & Hv' & Hat' & _ & Hx);
    [revert Hf; rewrite E, length_app; lia | |].
  { intros a e Ha He. apply (Hfit a e); [rewrite E; set_solver | done |].
    pose proof (Forall_in a Hr Ha) as Hge. cbn in Hge. by rewrite (ext_at_Some _ _ _ He) in Hge. }
  exists w', b0', b1', bm', s0', s1', sm', (zlen p), m. split_and!; [done.. |]. intros a. rewrite Hx.
  assert (a ∈ r <-> a ∈ b0 /\ x <= extent_start (ext_at (ew_extents w) a)) as Hiff.
  { rewrite E, elem_of_app. split; [intros Ha; split; [by right | by apply (Forall_in a Hr)] |].
    intros [[Ha | Ha] Hx1]; [| done]. pose proof (Forall_in a Hp Ha) as Hlt. cbn in Hlt. lia. }
  case_bool_decide; case_bool_decide; tauto.
Qed.

Lemma view_ok (w : ext_world U) b0 b1 bm s0 s1 sm :
  view w pos b0 b1 bm s0 s1 sm -> (forall c, attached (ew_extents w) b0 c) -> state_ok w b0 b1.
Proof. intros Hv Hat. split; [by eapply view_holds | done]. Qed.

(** What has become of the extents after the stage of those over [st], and after the other. *)
Lemma stages_together (es es1 es2 : extents) (b0 b0c s0 : list positive) a :
  (forall a, a ∈ s0 <-> a ∈ b0 /\ overlaps es st a) ->
  (forall a, es1 !! a = if bool_decide (a ∈ s0) then becomes <$> es !! a else es !! a) ->
  (forall a, es2 !! a = if bool_decide (a ∈ b0c /\ st + 1 <= extent_start (ext_at es1 a)) then becomes <$> es1 !! a else es1 !! a) ->
  (forall c e, es !! c = Some e -> c ∈ b0 <-> 0 <= extent_start e) ->
  (forall c e, es1 !! c = Some e -> c ∈ b0c <-> 0 <= extent_start e) -> 0 <= st ->
  (forall c, c ∈ b0 -> extent_start (ext_at es c) <= extent_end (ext_at es c)) ->
  (forall c e, c ∈ b0 -> es !! c = Some e -> fit true e) ->
  es2 !! a = if bool_decide (a ∈ b0) then becomes <$> es !! a else es !! a.
Proof.
  intros Hs0 H1 H2 Hb Hbc Hst Hle Hfit. rewrite H2. specialize (H1 a). destruct (es !! a) as [e |] eqn:He.
  2: { assert (es1 !! a = None) as E1 by (rewrite H1; by case_bool_decide). rewrite E1. repeat case_bool_decide; done. }
  specialize (Hb a e He). specialize (Hle a). specialize (Hs0 a). unfold overlaps in Hs0.
  rewrite (ext_at_Some _ _ _ He) in Hle, Hs0. cbn in H1.
  destruct (decide (a ∈ s0)) as [Hs | Hs].
  - rewrite (bool_decide_eq_true_2 (a ∈ s0)) in H1 by done. apply Hs0 in Hs as [Ha Hov].
    rewrite (bool_decide_eq_true_2 (a ∈ b0)) by done. rewrite H1, (ext_at_Some _ _ _ H1). case_bool_decide as Hc; [| done].
    cbn. f_equal. destruct Hc as [_ Hc]. unfold becomes in Hc |- * at 2 3. destruct (shown e) eqn:Esh; [| lia].
    apply done_once; [done | lia].
  - rewrite (bool_decide_eq_false_2 (a ∈ s0)) in H1 by done. rewrite H1, (ext_at_Some _ _ _ H1).
    specialize (Hbc a e H1). destruct (decide (a ∈ b0)) as [Ha | Ha].
    + rewrite (bool_decide_eq_true_2 (a ∈ b0)) by done. case_bool_decide as Hc; [done |]. cbn. f_equal. unfold becomes.
      destruct (shown e) eqn:Esh; [| done]. exfalso. specialize (Hle Ha). apply (shown_overlaps e (Hfit a e Ha He)) in Esh.
      apply Hs, Hs0. split; [done |]. assert (~ st + 1 <= extent_start e) by (intros ?; apply Hc; split; [tauto | done]). lia.
    + rewrite (bool_decide_eq_false_2 (a ∈ b0)) by done. rewrite bool_decide_eq_false_2; [done |]. tauto.
Qed.

Hypothesis general : start_in_region flags = false /\ end_in_region flags = false.
Hypothesis text_fixed : flag flags ME_MIGHT_MODIFY_TEXT = false.
Hypothesis stack_fixed : flag flags ME_MIGHT_MOVE_SOE = false.

(** [map_extents_bytind] with a function that changes the extents it is shown. *)
Lemma marked_mapping_run (w : ext_world U) b0 b1 from to fuel :
  state_ok w b0 b1 -> ew_text w = t -> st = bytind_to_memind t from -> en = bytind_to_memind t to -> 0 <= st ->
  (length b0 < fuel)%nat -> (forall a e, a ∈ b0 -> ew_extents w !! a = Some e -> fit true e) ->
  exists w' b0' b1', map_extents_bytind fn flags fuel from to None w = Some (tt, w') /\ state_ok w' b0' b1' /\
    forall a, ew_extents w' !! a = if bool_decide (a ∈ b0) then becomes <$> ew_extents w !! a else ew_extents w !! a.
Proof.
  intros [Hw Hat] Ht Est Een Hst0 Hfuel Hfit. unfold map_extents_bytind. rewrite (then_run _ _ _ _ _ eq_refl).
  rewrite (lists_num _ _ _ _ (he_lists _ _ _ Hw)). destruct (Z.eqb_spec (zlen b0) 0) as [E | _].
  { destruct b0; [| revert E; lens; lia]. exists w, [], b1. split_and!; [done | by split |]. intros a.
    by rewrite bool_decide_eq_false_2 by set_solver. }
  rewrite (then_run _ _ w (ew_text w) w) by done. cbv zeta. rewrite text_fixed. rewrite (then_run _ _ w None w) by done.
  rewrite Ht, <- Est, <- Een. destruct general as [G1 G2].
  destruct (map_plan_run flags w b0 b1 st stack_fixed Hw) as (soe & plan & Ep & Hw1 & Hplan). rewrite (then_run _ _ _ _ _ Ep).
  destruct Hplan as [(? & _) | [(? & _) | (_ & _ & sel & -> & Hov & Hplan)]]; [congruence.. |].
  set (w1 := set_soe w (Some (mk_soe sel st))) in *.
  pose proof (he_lists _ _ _ Hw1) as (bm & bm' & Hb). destruct Hov as (s0 & s1 & (sm & sm' & Hs) & Hin).
  assert (view w1 pos b0 b1 bm s0 s1 sm) as Hv1.
  { split; [by eexists | rewrite pos_st; by exists sel, sm' | rewrite pos_st; exact Hin]. }
  assert (length s0 <= length b0)%nat as Hlen.
  { apply submseteq_length, NoDup_submseteq; [by eapply eo_nodup |]. intros a Ha. by apply Hin. }
  destruct Hplan as [-> | [-> Hno]].
  - (* those over the start, then those behind it *)
    destruct (marked_stage_run true w1 b0 b1 bm s0 s1 sm [] s0 fuel Hsoe Hv1 Hat Ht eq_refl) as
      (w2 & c0 & c1 & cm & u0 & u1 & um & m & E2 & Hv2 & Hat2 & Ht2 & Hx2); [lia | intros a e [Ha _]%Hin; by apply Hfit |].
    destruct (lists_locate _ _ _ _ false (st + 1) (he_lists _ _ _ (view_holds _ _ _ _ _ _ _ _ Hv2))) as (p2 & r2 & _ & Eloc & _).
    destruct (delete_posm_run true w2 c0 c1 cm u0 u1 um m Hv2) as (w3 & cm3 & um3 & E3 & Hv3 & Hx3 & Ht3).
    assert (forall a, a ∈ c0 -> a ∈ b0) as Hsub.
    { intros a Ha. apply (view_member w2 c0 c1 cm u0 u1 um a Hv2 Hat2) in Ha as (e & He & Hse).
      rewrite Hx2 in He. case_bool_decide as Has; [by apply Hin in Has as [] |]. by apply (Hat a e He). }
    assert (length c0 <= length b0)%nat as Hlen2
      by (apply submseteq_length, NoDup_submseteq; [by destruct (v_list _ _ _ _ _ _ _ _ Hv2) as [? Hc]; apply Hc | exact Hsub]).
    destruct (marked_range_run w3 c0 c1 cm3 u0 u1 um3 (st + 1) fuel Hv3) as
      (w4 & d0 & d1 & dm & v0 & v1 & vm & i & m' & Ei & E4 & Hv4 & Hat4 & Hx4); [by rewrite Hx3 | congruence | lia | |].
    { rewrite Hx3. intros a e Ha He Hx. apply fit_range; [| lia]. apply Hsub in Ha. rewrite Hx2 in He. destruct (ew_extents w1 !! a) as [e0 |] eqn:He0; [| by case_bool_decide].
      pose proof (Hfit a e0 Ha He0). case_bool_decide; injection He as <-; [apply fit_kept; [done | lia] | done]. }
    destruct (delete_posm_run false w4 d0 d1 dm v0 v1 vm m' Hv4) as (w5 & dm5 & vm5 & E5 & Hv5 & Hx5 & _).
    exists w5, d0, d1. split_and!.
    + rewrite (then_run _ _ w1 (false, Some (mk_elm m' false)) w4).
      * cbv iota beta. rewrite (then_run _ _ _ _ _ eq_refl). exact E5.
      * unfold map_stages. change 0 with (zlen (@nil positive)). rewrite (then_run _ _ _ _ _ E2). cbv iota beta.
        assert (map_range_pos start_excluded st false w2 = Some (i, w2)) as Epos.
        { unfold map_range_pos, on_list. assert (Some i = Some (zlen p2)) as [= ->]; [| by rewrite Eloc].
          by rewrite <- Ei, <- Eloc, Hx3, (delete_posm_list _ _ _ E3). }
        rewrite (then_run _ _ _ _ _ Epos), (then_run _ _ _ _ _ E3), (then_run _ _ _ _ _ E4). done.
    + eapply view_ok; [exact Hv5 | by rewrite Hx5].
    + rewrite Hx5. intros a. eapply (stages_together (ew_extents w) (ew_extents w2) (ew_extents w4) b0 c0 s0); try done.
      * by rewrite <- Hx3.
      * intros c Hc. by apply (lists_each _ _ _ _ _ (he_lists _ _ _ Hw) Hc).
  - (* none is over the start *)
    destruct (marked_range_run w1 b0 b1 bm s0 s1 sm st fuel Hv1 Hat Ht Hfuel) as
      (w4 & d0 & d1 & dm & v0 & v1 & vm & i & m' & Ei & E4 & Hv4 & Hat4 & Hx4).
    { intros a e Ha He Hx. change (ew_extents w1) with (ew_extents w) in He. apply fit_range; [by apply (Hfit a) |]. specialize (Hno a Ha).
      destruct (lists_each _ _ _ _ _ (he_lists _ _ _ Hw) Ha) as [_ Hbd]. unfold overlaps in Hno.
      rewrite (ext_at_Some _ _ _ He) in Hno, Hbd. lia. }
    destruct (delete_posm_run false w4 d0 d1 dm v0 v1 vm m' Hv4) as (w5 & dm5 & vm5 & E5 & Hv5 & Hx5 & _).
    exists w5, d0, d1. split_and!.
    + rewrite (then_run _ _ w1 (false, Some (mk_elm m' false)) w4).
      * cbv iota beta. rewrite (then_run _ _ _ _ _ eq_refl). exact E5.
      * unfold map_stages. rewrite (then_run _ _ w1 (false, None, (st, en), None) w1) by done. cbv iota beta.
        rewrite (then_run _ _ w1 i w1) by (unfold map_range_pos, on_list; by rewrite Ei).
        rewrite (then_run _ _ w1 tt w1) by done. by rewrite (then_run _ _ _ _ _ E4).
    + eapply view_ok; [exact Hv5 | by rewrite Hx5].
    + rewrite Hx5. intros a. rewrite Hx4. change (ew_extents w1) with (ew_extents w).
      destruct (decide (a ∈ b0)) as [Ha | Ha]; [| rewrite !bool_decide_eq_false_2; tauto].
      rewrite (bool_decide_eq_true_2 (a ∈ b0)) by done. case_bool_decide as Hc; [done |].
      destruct (lists_each _ _ _ _ _ (he_lists _ _ _ Hw) Ha) as [[e He] Hbd]. rewrite He. cbn. f_equal. unfold becomes.
      destruct (shown e) eqn:Esh; [| done]. exfalso. apply (shown_overlaps e (Hfit a e Ha He)) in Esh. specialize (Hno a Ha).
      rewrite (ext_at_Some _ _ _ He) in *. unfold overlaps in Hno. rewrite (ext_at_Some _ _ _ He) in Hno.
      assert (~ st <= extent_start e) by tauto. lia.
Qed.
End Loop.
