(* ===== verification/ExtentProcess.v ===== *)
(** * Extents before a deletion and after an insertion

    [process_extents_for_deletion] detaches what lies inside of the text that will go;
    [process_extents_for_insertion] moves the ends that the new text pushes, by whether
    they are open or closed. *)

From Stdlib Require Import Sorting.Sorted.
From S2P Require Import Prelude Buffer Insdel GapArray ExtentList Extents ExtentTheory ExtentState ExtentAdjust ExtentMap ExtentMarked.

#[local] Open Scope ext_scope.

Section Mappers.
Context {U : Type}.
Implicit Types (w : ext_world U).

(** The extent that is shown is taken out: what is behind the marker in either list stays. *)
Lemma detach_shown soe w pos b0 b1 bm s0 s1 sm a e d r m :
  view w pos b0 b1 bm s0 s1 sm -> (forall c, attached (ew_extents w) b0 c) ->
  of_stage soe b0 s0 = d ++ a :: r -> at_marker (of_stage soe bm sm) m (zlen d + 1) -> ew_extents w !! a = Some e ->
  exists w' b0' b1' bm' s0' s1' sm',
    extent_detach a w = Some (tt, w') /\ view w' pos b0' b1' bm' s0' s1' sm' /\
    (forall c, attached (ew_extents w') b0' c) /\ ew_text w' = ew_text w /\
    of_stage soe b0' s0' = d ++ r /\ at_marker (of_stage soe bm' sm') m (zlen d) /\ a ∉ b0' /\
    ew_extents w' = <[a := detached e]> (ew_extents w).
Proof.
  intros Hv Hat E Hm He. pose proof (v_over _ _ _ _ _ _ _ _ Hv) as Ho.
  assert (a ∈ b0) as Ha by (destruct soe; cbn in E; [apply Ho|]; rewrite E; set_solver).
  pose proof Hv as [[bmx Hb] (selx & smx & _ & Hs) _].
  pose proof (eo_nodup _ _ _ _ _ _ Hb) as Hnb. pose proof (eo_nodup _ _ _ _ _ _ Hs) as Hns.
  destruct (view_detach w pos b0 b1 bm s0 s1 sm a e Hv Ha He) as (w' & p & q & b1' & Eb & Ed & Hx & Ht & Hcase).
  assert (a ∉ p ++ q) as Hna by (rewrite Eb, <- Permutation_middle in Hnb; by apply NoDup_cons in Hnb as []).
  assert (forall c, attached (ew_extents w') (p ++ q) c) as Hat'.
  { intros c ce Hc. rewrite Hx in Hc. destruct (decide (a = c)) as [<- | Hne].
    - rewrite lookup_insert_eq in Hc. injection Hc as <-. cbn. split; [done | lia].
    - rewrite lookup_insert_ne in Hc by done. rewrite <- (Hat c ce Hc), Eb. set_solver. }
  assert (forall i, moved_by_delete i 1 (i + 1) = i) as Hmv by (intros; unfold moved_by_delete; zdec; lia).
  destruct soe; cbn [of_stage] in E, Hm.
  - destruct Hcase as [[Has _] | (p' & q' & s1' & Es & Hv')]; [exfalso; apply Has; rewrite E; set_solver |].
    rewrite E in Hns, Es. destruct (middle_unique _ _ _ _ _ Hns Es) as [<- <-].
    exists w', (p ++ q), b1', (gone (zlen p) bm), (d ++ r), s1', (gone (zlen d) sm). split_and!; try done.
    pose proof (at_marker_gone _ _ _ (zlen d) Hm) as Hm'. by rewrite Hmv in Hm'.
  - rewrite E in Hnb, Eb. destruct (middle_unique _ _ _ _ _ Hnb Eb) as [<- <-].
    assert (at_marker (gone (zlen d) bm) m (zlen d)) as Hm'
      by (pose proof (at_marker_gone _ _ _ (zlen d) Hm) as Hm'; by rewrite Hmv in Hm').
    destruct Hcase as [[_ Hv'] | (p' & q' & s1' & Es & Hv')].
    + by exists w', (d ++ r), b1', (gone (zlen d) bm), s0, s1, sm.
    + by exists w', (d ++ r), b1', (gone (zlen d) bm), (p' ++ q'), s1', (gone (zlen p') sm).
Qed.

(** An extent that is not changed stays before the marker. *)
Lemma nothing_shown soe w pos b0 b1 bm s0 s1 sm a e d r m (g : extent -> extent) :
  view w pos b0 b1 bm s0 s1 sm -> (forall c, attached (ew_extents w) b0 c) ->
  of_stage soe b0 s0 = d ++ a :: r -> at_marker (of_stage soe bm sm) m (zlen d + 1) -> ew_extents w !! a = Some e ->
  g e = e ->
  exists b0' b1' bm' s0' s1' sm' d',
    view w pos b0' b1' bm' s0' s1' sm' /\ (forall c, attached (ew_extents w) b0' c) /\
    of_stage soe b0' s0' = d' ++ r /\ at_marker (of_stage soe bm' sm') m (zlen d') /\
    ew_extents w = <[a := g e]> (ew_extents w).
Proof.
  intros Hv Hat E Hm He Hg. exists b0, b1, bm, s0, s1, sm, (d ++ [a]). split_and!; [done | done | by rewrite <- app_assoc | |].
  - replace (zlen (d ++ [a])) with (zlen d + 1) by (lens; lia). done.
  - rewrite Hg. symmetry. by apply insert_id.
Qed.
End Mappers.

(** ** Before a deletion *)





Lemma region_shown t e from to flags :
  extent_fits e -> region_fits t from to ->
  Z.land flags ME_ALL_EXTENTS_MASK = 0 -> Z.land flags ME_IN_REGION_MASK = 0 -> flag flags ME_END_CLOSED = true ->
  flag flags ME_START_OPEN = false -> flag flags ME_NEGATE_IN_REGION = false ->
  let so := negb (extent_start e =? extent_end e) && extent_start_open_p e in
  let eo := negb (extent_start e =? extent_end e) && extent_end_open_p e in
  extent_in_region_p t e from to flags =
    Some ((2 * extent_start e + Z.b2z so <=? 2 * bytind_to_memind t to) &&
          (2 * bytind_to_memind t from <=? 2 * extent_end e - Z.b2z eo)).
Proof.
  intros He Hr F1 F2 F3 F4 F5. unfold extent_in_region_p, open_ends. rewrite F1, F2, F3, F4, F5. cbn [orb andb negb].
  destruct (extent_start e =? extent_end e); cbn [negb andb mbind option_bind Z.eqb];
    rewrite !startind_fits, !endind_fits by (apply Hr || apply He);
    [| destruct (extent_start_open_p e), (extent_end_open_p e)]; cbn [Z.b2z]; ztest; cbn; f_equal; lia || done.
Qed.


(** ** After an insertion *)

Section Grown.
Context {U : Type}.
Implicit Types (w : ext_world U).

(** An extent that grows at its end goes before all that were behind it. *)
Lemma grown_before es es' (p q d r : list positive) a e ends :
  p ++ q = d ++ r -> in_order es false (d ++ a :: r) -> in_order es' false (p ++ a :: q) -> NoDup (d ++ a :: r) ->
  es !! a = Some e -> extent_end e < ends -> es' = <[a := set_extent_end (set_extent_start e (extent_start e)) ends]> es ->
  exists q', d = p ++ q' /\ q = q' ++ r.
Proof.
  intros E Ho Ho' Hn He Hlt ->. destruct (app_eq_inv _ _ _ _ E) as [(x & -> & ->) | (q' & -> & ->)]; [| by exists q'].
  destruct x as [| c x]; [exists []; rewrite !app_nil_r; done |]. exfalso.
  assert (c <> a) by (intros ->; revert Hn; rewrite !NoDup_app, !NoDup_cons; set_solver).
  apply in_order_app in Ho as (_ & Ho & _). apply StronglySorted_inv in Ho as [_ Ho]. pose proof (Forall_in c Ho ltac:(set_solver)) as H1.
  apply in_order_app in Ho' as (_ & _ & H2). specialize (H2 c a ltac:(set_solver) ltac:(set_solver)). cbn in H1, H2.
  rewrite (ext_at_Some _ _ _ He) in H1. rewrite (ext_at_Some _ a _ (lookup_insert_eq _ _ _)) in H2.
  assert (ext_at (<[a:=set_extent_end (set_extent_start e (extent_start e)) ends]> es) c = ext_at es c) as Ec
    by (unfold ext_at; by rewrite lookup_insert_ne).
  rewrite Ec in H2. revert H1 H2. unfold EXTENT_LESS, EXTENT_LESS_VALS. cbn. ztest; lia || done.
Qed.

(** An extent over the position of the stack is taken out and put back with other ends. *)
Lemma replace_shown w pos b0 b1 bm s0 s1 sm a e d r m start ends :
  view w pos b0 b1 bm s0 s1 sm -> (forall c, attached (ew_extents w) b0 c) ->
  s0 = d ++ a :: r -> at_marker sm m (zlen d + 1) -> ew_extents w !! a = Some e -> 0 <= start <= ends ->
  pos < start \/ start = extent_start e /\ extent_end e < ends ->
  let e' := set_extent_end (set_extent_start e start) ends in
  exists w' b0' b1' bm' s0' s1' sm' d',
    (extent_detach a;; update_extent a (fun e => set_extent_start e start);;
     update_extent a (fun e => set_extent_end e ends);; extent_attach a) w = Some (tt, w') /\
    view w' pos b0' b1' bm' s0' s1' sm' /\ (forall c, attached (ew_extents w') b0' c) /\ ew_text w' = ew_text w /\
    s0' = d' ++ r /\ at_marker sm' m (zlen d') /\ ew_extents w' = <[a := e']> (ew_extents w).
Proof.
  intros Hv Hat -> Hm He Hse Hcase e'. pose proof Hv as [_ (sel & sm0 & _ & Hs) _].
  destruct (detach_shown true w pos b0 b1 bm (d ++ a :: r) s1 sm a e d r m Hv Hat eq_refl Hm He)
    as (w1 & c0 & c1 & cm & u0 & u1 & um & Ed & Hv1 & Hat1 & Ht1 & E1 & Hm1 & Ha & Hx1). cbn in E1, Hm1. subst u0.
  rewrite (then_run _ _ _ _ _ Ed).
  destruct (view_place w1 pos c0 c1 cm (d ++ r) u1 um a (detached e) start ends Hv1 ltac:(rewrite Hx1; apply lookup_insert_eq) Ha Hse)
    as (w2 & p & q & b1' & -> & Ep & Hx2 & Ht2 & Hc).
  change (set_extent_end (set_extent_start (detached e) start) ends) with e' in Hx2. rewrite Hx1, insert_insert_eq in Hx2.
  assert (forall c, attached (ew_extents w2) (p ++ a :: q) c) as Hat2.
  { intros c ce. rewrite Hx2. destruct (decide (a = c)) as [<- | Hne].
    - rewrite lookup_insert_eq. intros [= <-]. cbn. split; [lia | set_solver].
    - rewrite lookup_insert_ne by done. intros Hce. rewrite <- (Hat1 c ce); [set_solver |]. by rewrite Hx1, lookup_insert_ne. }
  destruct Hc as [[_ Hv2] | (p' & q' & s1' & E & Hv2)].
  { exists w2, (p ++ a :: q), b1', (come (zlen p) cm), (d ++ r), u1, um, d. split_and!; try done. congruence. }
  pose proof Hv2 as [_ (sel2 & sm2 & _ & Hs2) Ho2]. pose proof (proj1 (Ho2 a) ltac:(set_solver)) as [_ Hov].
  unfold overlaps in Hov. rewrite Hx2, (ext_at_Some _ a _ (lookup_insert_eq _ _ _)) in Hov. cbn in Hov.
  destruct Hcase as [? | [-> Hlt]]; [lia |].
  destruct (grown_before (ew_extents w) (ew_extents w2) p' q' d r a e ends (eq_sym E)) as (x & -> & ->); [| | | done | done | done |].
  - by apply (lists_order _ _ _ _ false (ex_intro _ _ (ex_intro _ _ Hs))).
  - by apply (lists_order _ _ _ _ false (ex_intro _ _ (ex_intro _ _ Hs2))).
  - by eapply eo_nodup.
  - do 7 eexists. exists (p' ++ a :: x). split_and!; [exact Ep | exact Hv2 | done | congruence | by rewrite <- app_assoc | | done].
    pose proof (at_marker_come _ _ _ (zlen p') Hm1) as Hm2. replace (zlen (p' ++ a :: x)) with (moved_by_insert (zlen p') 1 (zlen (p' ++ x))); [done |].
    unfold moved_by_insert. lens. zdec; lia.
Qed.
End Grown.

(** What the new text, of [len] characters behind [op], pushes. *)
Definition start_pushed (op : Z) (e : extent) : bool :=
  (op =? extent_start e) && extent_start_open_p e && negb ((extent_start e =? extent_end e) && extent_end_open_p e).
Definition end_pushed (op : Z) (e : extent) : bool := (op =? extent_end e) && negb (extent_end_open_p e).
Definition after_insertion (op len : Z) (e : extent) : extent :=
  set_extent_end (set_extent_start e (if start_pushed op e then extent_start e + len else extent_start e))
    (if end_pushed op e then extent_end e + len else extent_end e).

(** No end is inside of the new text. *)
Definition clear_of (op len : Z) (e : extent) : Prop :=
  0 <= extent_start e <= extent_end e /\ (extent_start e <= op \/ op + len <= extent_start e) /\
  (extent_end e <= op \/ op + len <= extent_end e).

(** What the mapping may count on over the point, and behind it. *)
Definition insertion_fit (op len : Z) (soe : bool) (e : extent) : Prop :=
  extent_fits e /\ if soe then clear_of op len e else op < extent_start e <= extent_end e.

Lemma after_insertion_clear op len e : 0 < len -> clear_of op len e -> clear_of op len (after_insertion op len e).
Proof.
  unfold clear_of, after_insertion, start_pushed, end_pushed. intros Hl (H1 & H2 & H3). cbn.
  destruct (extent_start_open_p e), (extent_end_open_p e); ztest; cbn; lia || done.
Qed.

Lemma after_insertion_fits op len e : 0 < len -> op + len < 2 ^ 30 -> clear_of op len e -> extent_fits e -> extent_fits (after_insertion op len e).
Proof.
  unfold clear_of, after_insertion, start_pushed, end_pushed, extent_fits, fits. intros Hl Hs (H1 & H2 & H3) He. cbn.
  destruct (extent_start_open_p e), (extent_end_open_p e); ztest; cbn; lia || done.
Qed.

Lemma after_insertion_behind op len e : op < extent_start e <= extent_end e -> after_insertion op len e = e.
Proof.
  intros H. unfold after_insertion, start_pushed, end_pushed. rewrite (proj2 (Z.eqb_neq op (extent_start e))), (proj2 (Z.eqb_neq op (extent_end e))) by lia. by destruct e.
Qed.

Lemma after_insertion_twice op len e : 0 < len -> op < extent_start (after_insertion op len e) ->
  after_insertion op len (after_insertion op len e) = after_insertion op len e.
Proof.
  destruct e as [x y so eo dt dp it]. unfold after_insertion, start_pushed, end_pushed, set_extent_end, set_extent_start, set_extent_endpoint.
  cbn. intros Hl. destruct so, eo; ztest; cbn; ztest; cbn; intros; try lia; done.
Qed.

(** The new text is in an extent as the ends of it say. *)
Lemma after_insertion_covers op len e : 0 < len -> clear_of op len e ->
  (extent_start (after_insertion op len e) <= op /\ op + len <= extent_end (after_insertion op len e) <->
   (extent_start e < op \/ extent_start e = op /\ extent_start_open_p e = false) /\
   (op < extent_end e \/ extent_end e = op /\ extent_end_open_p e = false)).
Proof.
  unfold clear_of, after_insertion, start_pushed, end_pushed. intros Hl (H1 & H2 & H3). cbn.
  destruct (extent_start_open_p e), (extent_end_open_p e); ztest; cbn; split; intros ?;
    first [lia | intuition (congruence || lia)].
Qed.

Definition inserted_region_flags : Z := Z.lor ME_END_CLOSED (Z.lor ME_MIGHT_MODIFY_EXTENTS ME_INCLUDE_INTERNAL).

Lemma insertion_mapper_run {U} (w : ext_world U) a e op len :
  ew_extents w !! a = Some e -> 0 <= extent_start e -> op = bytind_to_memind (ew_text w) op ->
  process_extents_for_insertion_mapper op len a w =
    (let e' := after_insertion op len e in
     if (extent_start e =? extent_start e') && (extent_end e =? extent_end e') then Some (false, w) else
     ((extent_detach a;; update_extent a (fun e => set_extent_start e (extent_start e'));;
       update_extent a (fun e => set_extent_end e (extent_end e'));; extent_attach a);; ret false) w).
Proof.
  intros He Hs Hop. unfold process_extents_for_insertion_mapper. rewrite (then_run _ _ w (ew_text w) w) by done. cbv zeta. rewrite <- Hop.
  rewrite (then_run _ _ _ _ _ (the_extent_run a w e He)). unfold set_extent_endpoints_1, bind at 1.
  rewrite (then_run _ _ _ _ _ (the_extent_run a w e He)). unfold extent_detached_p. rewrite (proj2 (Z.ltb_ge _ _)) by lia.
  cbn [negb andb]. change (extent_start (after_insertion op len e)) with (if start_pushed op e then extent_start e + len else extent_start e).
  change (extent_end (after_insertion op len e)) with (if end_pushed op e then extent_end e + len else extent_end e).
  unfold start_pushed, end_pushed. by destruct (_ && _).
Qed.

Lemma insertion_leaves_rest {U} t op len st en soe :
  0 < len -> 0 <= op -> op = bytind_to_memind t op ->
  leaves_rest (U := U) (process_extents_for_insertion_mapper op len) (after_insertion op len) inserted_region_flags
    op st en t (insertion_fit op len) soe.
Proof.
  intros Hl Hop0 Hop w b0 b1 bm s0 s1 sm a e d r m Hv Hat Ht E Hm He _ [_ Hfit].
  assert (0 <= extent_start e) as Hs by (destruct soe; cbn in Hfit; [destruct Hfit as [? _] |]; lia).
  rewrite (insertion_mapper_run w a e op len He Hs) by (by rewrite Ht). cbv zeta.
  destruct (_ && _) eqn:Esame.
  - apply andb_prop in Esame as [E1 E2]. apply Z.eqb_eq in E1, E2.
    assert (after_insertion op len e = e) as Eg.
    { change (set_extent_end (set_extent_start e (extent_start (after_insertion op len e))) (extent_end (after_insertion op len e)) = e).
      rewrite <- E1, <- E2. by destruct e. }
    destruct (nothing_shown soe w op b0 b1 bm s0 s1 sm a e d r m _ Hv Hat E Hm He Eg)
      as (b0' & b1' & bm' & s0' & s1' & sm' & d' & Hv' & Hat' & E' & Hm' & Hx).
    exists w, b0', b1', bm', s0', s1', sm', d'. by split_and!.
  - destruct soe; cbn [of_stage] in *; [| by rewrite after_insertion_behind, !Z.eqb_refl in Esame].
    pose proof (after_insertion_clear op len e Hl Hfit) as Hfit'. pose proof Hfit as (Hb & Hcs & Hce).
    destruct (replace_shown w op b0 b1 bm s0 s1 sm a e d r m (extent_start (after_insertion op len e)) (extent_end (after_insertion op len e)) Hv Hat E Hm He)
      as (w' & b0' & b1' & bm' & s0' & s1' & sm' & d' & Er & Hrest); [apply Hfit' | |].
    + revert Esame. unfold after_insertion. cbn. destruct (start_pushed op e) eqn:Es.
      * intros _. left. revert Es. unfold start_pushed. ztest; lia || done.
      * right. split; [done |]. revert Esame. destruct (end_pushed op e); ztest; lia || done.
    + exists w', b0', b1', bm', s0', s1', sm', d'. rewrite (then_run _ _ _ _ _ Er). split; [done |].
      destruct Hrest as (? & ? & ? & ? & ? & ?). split_and!; try done. congruence.
Qed.

(** An extent that is not shown would not change. *)
Lemma insertion_shows t op len e :
  0 < len -> clear_of op len e -> extent_fits e -> region_fits t op (op + len) ->
  op = bytind_to_memind t op -> op + len = bytind_to_memind t (op + len) -> 0 <= t_gap_size t ->
  becomes (after_insertion op len) inserted_region_flags op (op + len) t e = after_insertion op len e.
Proof.
  intros Hl Hc Hfe Hrf Hop Hop' Hg. unfold becomes, shown.
  replace (memind_to_bytind t op) with op by (rewrite Hop at 2; by rewrite bytind_back).
  replace (memind_to_bytind t (op + len)) with (op + len) by (rewrite Hop' at 2; by rewrite bytind_back).
  rewrite andb_false_r, region_shown, <- Hop, <- Hop' by done. cbn [andb negb default].
  destruct (_ && _) eqn:E; [done |]. symmetry. unfold after_insertion, start_pushed, end_pushed. apply andb_false_iff in E.
  rewrite !Z.leb_gt in E. destruct Hc as (Hb & Hcs & Hce).
  destruct e as [x y so eo dt dp it]; cbn in *. unfold set_extent_end, set_extent_start, set_extent_endpoint; cbn.
  revert E. destruct so, eo; ztest; cbn; intros; try lia; done.
Qed.

(** C37: When [length] characters have been inserted at [opoint] (they lie before the gap)
    every attached extent gets the ends that its open and closed ends ask for, the ends
    stay in order, the new text is in exactly the extents that reach over [opoint] or have
    a closed end there, no extent is lost, and the lists and the stack of extents are
    exact, although extents move in the list that is gone along.  The new text and the
    ends of the extents have memory indices less than 2^30, so that their doubles are of
    type [int]. *)
Theorem new_text_joins_extents {U} (w : ext_world U) b0 b1 opoint length :
  state_ok w b0 b1 -> 0 <= opoint -> 0 < length -> t_gpt (ew_text w) = opoint + length -> 0 <= t_gap_size (ew_text w) ->
  opoint + length < 2 ^ 30 -> (forall a, a ∈ b0 -> extent_fits (ext_at (ew_extents w) a)) ->
  (forall a, a ∈ b0 -> forall endp, let x := extent_endpoint (ext_at (ew_extents w) a) endp in x <= opoint \/ opoint + length <= x) ->
  exists w' b0' b1', process_extents_for_insertion opoint length w = Some (tt, w') /\ state_ok w' b0' b1' /\
    (forall a, ew_extents w' !! a =
       if bool_decide (a ∈ b0) then after_insertion opoint length <$> ew_extents w !! a else ew_extents w !! a) /\
    forall a, a ∈ b0 -> let e := ext_at (ew_extents w) a in let e' := ext_at (ew_extents w') a in
      a ∈ b0' /\ extent_start e' <= extent_end e' /\
      (extent_start e' <= opoint /\ opoint + length <= extent_end e' <->
       (extent_start e < opoint \/ extent_start e = opoint /\ extent_start_open_p e = false) /\
       (opoint < extent_end e \/ extent_end e = opoint /\ extent_end_open_p e = false)).
Proof.
  intros Hw Hop Hl Hgpt Hg Hsmall Hxf Hclear. set (t := ew_text w) in *.
  assert (opoint = bytind_to_memind t opoint) as Hm by (unfold bytind_to_memind; zdec; lia).
  assert (opoint + length = bytind_to_memind t (opoint + length)) as Hm' by (unfold bytind_to_memind; zdec; lia).
  assert (region_fits t opoint (opoint + length)) as Hrf by (unfold region_fits, fits; rewrite <- Hm, <- Hm'; lia).
  assert (forall a e, a ∈ b0 -> ew_extents w !! a = Some e -> insertion_fit opoint length true e) as Hfit.
  { intros a e Ha He. destruct (lists_each _ _ _ _ _ (he_lists _ _ _ (so_holds _ _ _ Hw)) Ha) as [_ Hb].
    pose proof (Hclear a Ha false) as H1. pose proof (Hclear a Ha true) as H2. rewrite (ext_at_Some _ _ _ He) in *.
    split; [by rewrite <- (ext_at_Some _ _ _ He); apply Hxf |]. cbn in H1, H2. unfold clear_of. lia. }
  assert (forall e, extent_fits e -> shown inserted_region_flags opoint (opoint + length) t e = true ->
    extent_start e <= opoint + length /\ opoint <= extent_end e) as Hshown.
  { intros e Hfe. unfold shown. rewrite Hm, Hm' at 1. rewrite !bytind_back by done. intros [_ H]%andb_prop.
    destruct (extent_in_region_p _ _ _ _ _) as [[] |] eqn:E; try done. apply in_region_overlaps in E; [| done..]. by rewrite <- Hm, <- Hm' in E. }
  unfold process_extents_for_insertion. rewrite (then_run _ _ w (zlen b0) w)
    by (unfold gets; by rewrite (lists_num _ _ _ _ (he_lists _ _ _ (so_holds _ _ _ Hw)))). fold inserted_region_flags.
  destruct (marked_mapping_run (U := U) (process_extents_for_insertion_mapper opoint length) (after_insertion opoint length)
    inserted_region_flags opoint opoint (opoint + length) t eq_refl (insertion_fit opoint length)
    (fun _ e He H => proj1 (Hshown e (proj1 He) H)) eq_refl
    (insertion_leaves_rest _ _ _ _ _ true Hl Hop Hm) (insertion_leaves_rest _ _ _ _ _ false Hl Hop Hm) eq_refl
    (fun e He H => proj2 (Hshown e (proj1 He) H)))
    with (w := w) (b0 := b0) (b1 := b1) (from := opoint) (to := opoint + length) (fuel := S (Z.to_nat (2 * zlen b0)))
    as (w' & b0' & b1' & Er & Hw' & Hx); try done.
  - intros e [Hfe Hc] _. rewrite insertion_shows by done. split; [by apply after_insertion_fits | by apply after_insertion_clear].
  - intros e (? & ? & ? & ?) ?. split; [done | cbn; lia].
  - intros e _ Hs. unfold becomes. destruct (shown _ _ _ _ _); [| done]. by apply after_insertion_twice.
  - lia.
  - exists w', b0', b1'. split; [exact Er |]. split; [exact Hw' |].
    assert (forall a, ew_extents w' !! a =
       if bool_decide (a ∈ b0) then after_insertion opoint length <$> ew_extents w !! a else ew_extents w !! a) as Hx'.
    { intros a. rewrite Hx. case_bool_decide as Ha; [| done]. destruct (ew_extents w !! a) as [e |] eqn:He; [| done].
      cbn. f_equal. destruct (Hfit a e Ha He). by apply insertion_shows. }
    split; [exact Hx' |]. intros a Ha. destruct (lists_each _ _ _ _ _ (he_lists _ _ _ (so_holds _ _ _ Hw)) Ha) as [[e He] _].
    destruct (Hfit a e Ha He) as [_ Hf]. specialize (Hx' a). rewrite bool_decide_eq_true_2, He in Hx' by done.
    cbv zeta. rewrite (ext_at_Some _ _ _ He), (ext_at_Some _ _ _ Hx').
    pose proof (after_insertion_clear opoint length e Hl Hf) as [Hb _].
    split_and!; [| lia | by apply after_insertion_covers]. apply (so_attached _ _ _ Hw' a _ Hx'). lia.
Qed.

(** Extents with all kinds of ends, and operations that attach them around 15. *)
Definition some_extents : extents :=
  list_to_map [(1, mk_extent (-1) (-1) false false true false false); (2, mk_extent (-1) (-1) true true true false false);
    (3, mk_extent (-1) (-1) true false true false true); (4, mk_extent (-1) (-1) true true true false false);
    (5, mk_extent (-1) (-1) false false false false false); (6, mk_extent (-1) (-1) false true true false true)]%positive.
Definition with_extents {U} (es : extents) (t : buffer_text) (u : U) : ext_world U := mk_ew t es allocate_extent_list None [] u.

Lemma around_15_run ops : ops_ok ops some_extents = true ->
  exists (w : ext_world unit) b0 b1, perform_all ops (with_extents some_extents (some_text 20 10) tt) = Some (tt, w) /\ state_ok w b0 b1.
Proof.
  intros H. destruct (perform_all_run ops (with_extents some_extents (some_text 20 10) tt) [] []) as (w & b0 & b1 & E & Hw & _); [| done |].
  - split; [split; [apply empty_lists | done] |]. intros a e He. split; [set_solver |].
    assert (map_Forall (fun _ e => extent_start e < 0) some_extents) as Hall by (apply (bool_decide_unpack _); vm_compute; exact I).
    specialize (Hall a e He). cbn in Hall. lia.
  - by exists w, b0, b1.
Qed.


Definition ops_before_insertion : list extent_op :=
  [SetEnds 1 5 15; SetEnds 2 15 15; SetEnds 3 15 15; SetEnds 4 15 35; SetEnds 5 15 15; SetEnds 6 3 15; MoveStack 33].

Lemma new_text_joins_extents_witness :
  exists (w w' : ext_world unit) b0 b1 b0' b1',
    perform_all ops_before_insertion (with_extents some_extents (some_text 20 10) tt) = Some (tt, w) /\ state_ok w b0 b1 /\
    process_extents_for_insertion 15 5 w = Some (tt, w') /\ state_ok w' b0' b1' /\
    (fun e => (extent_start e, extent_end e)) <$> ew_extents w' =
      (list_to_map [(1%positive, (5, 20)); (2%positive, (15, 15)); (3%positive, (20, 20)); (4%positive, (20, 35)); (5%positive, (15, 20)); (6%positive, (3, 15))] : gmap positive (Z * Z)) /\
    forall a, ew_extents w' !! a =
       if bool_decide (a ∈ b0) then after_insertion 15 5 <$> ew_extents w !! a else ew_extents w !! a.
Proof.
  destruct (around_15_run ops_before_insertion) as (w & b0 & b1 & E & Hw); [vm_compute; reflexivity |].
  pose proof (f_equal (fmap snd) E) as Ew. vm_compute in Ew.
  assert (map_Forall (fun _ e => (extent_start e <= 15 \/ 20 <= extent_start e) /\ (extent_end e <= 15 \/ 20 <= extent_end e) /\ extent_end e < 100)
    (ew_extents w)) as Hall by (injection Ew as <-; apply (bool_decide_unpack _); vm_compute; exact I).
  destruct (new_text_joins_extents w b0 b1 15 5) as (w' & b0' & b1' & H1 & H2 & H3 & _).
  - exact Hw.
  - lia.
  - lia.
  - injection Ew as <-. reflexivity.
  - injection Ew as <-. cbn. lia.
  - lia.
  - intros a Ha. destruct (lists_each _ _ _ _ _ (he_lists _ _ _ (so_holds _ _ _ Hw)) Ha) as [[e He] Hb].
    rewrite (ext_at_Some _ _ _ He) in *. destruct (Hall a e He) as (_ & _ & ?). unfold extent_fits, fits. lia.
  - intros a Ha endp. destruct (lists_each _ _ _ _ _ (he_lists _ _ _ (so_holds _ _ _ Hw)) Ha) as [[e He] _].
    rewrite (ext_at_Some _ _ _ He). destruct (Hall a e He) as (? & ? & _). destruct endp; assumption.
  - exists w, w', b0, b1, b0', b1'. split_and!; [exact E | exact Hw | exact H1 | exact H2 | | exact H3].
    injection Ew as <-. vm_compute in H1. injection H1 as <-. vm_compute. reflexivity.
Defined.
